(* ===== verification/_CoqProject ===== *)
-Q . S2P
Prelude.v
EvimState.v
EvimLine.v
EvimSyntax.v
EvimInput.v
EvimTerm.v
EvimEdit.v
EvimEx.v
EvimCmd.v
EvimMain.v
EvimNav.v
EvimHole.v
EvimUndo.v
EvimColor.v
EvimFormat.v
EvimRefresh.v
EvimDisplay.v
EvimStatus.v
EvimMotion.v
EvimWalk.v
EvimPop.v
EvimDemo.v
EvimEditProps.v
EvimErase.v
EvimDisplayProps.v
EvimLineProps.v
EvimInputProps.v
EvimFileProps.v
EvimTermProps.v
EvimExProps.v
EvimTurn.v
EvimCmdProps.v
EvimTyping.v
EvimLoop.v
EvimTypeLoop.v
EvimSession.v
TetrisState.v
TetrisGraphics.v
TetrisGame.v
TetrisGrid.v
TetrisShape.v
TetrisLock.v
TetrisInv.v
TetrisFrame.v
TetrisProps.v
CurlState.v
CurlUrl.v
CurlEasy.v
CurlPerform.v
CurlMulti.v
CurlFrame.v
CurlCodec.v
CurlRedirect.v
CurlBody.v
CurlRequest.v
CurlSession.v
CurlMany.v
CurlProps.v
GitBase.v
GitDelta.v
GitRabin.v
GitPatch.v
GitIndex.v
GitDiff.v
GitDeltaProps.v
GitQueue.v
GitHeap.v
GitQueueProps.v
GitSort.v
GitSortProps.v
GitLevenshtein.v
GitHash.v
GitHashBlock.v
GitHashProps.v
GitWildmatch.v
GitWildSpec.v
GitWildProps.v
GitStrbuf.v
GitQuote.v
GitQuoteProps.v
