(* ===== verification/Prelude.v ===== *)
(** * A verification of the programs of ewokos.extra

    This library models the C programs that the repository has written itself
    and proves what makes them work: the vi clone src/bin/evim, the game
    src/apps/sdl_tetris, and git's libcurl replacement under
    src/bin/git/port/ewokos; and of the git it carries under
    src/bin/git/upstream the parts with an algorithm of their own: the delta
    format of packs, the priority queue and the merge sort, the edit distance,
    the hash functions, shell patterns, string buffers and quoting.  Everything
    else under src/ is vendored (the rest of git, curses, terminfo, SDL demos),
    C++ over a widget library that is not in the repository, or data.

    ** How the code is embedded

    A C function is a Rocq function in the monad [prog St] of this file: it
    maps the state of the program (a record with one field per global
    variable) to [Ok] with a result and a new state, or to [Err] with a fault.
    The fault [OutOfBounds] is an access outside the block or the array;
    [NullDeref] the use of a NULL pointer; [Blocked] stands for a program that
    waits for input that never comes; [Died] for die() and a failing assert();
    [Undefined] for an operation C does not define; [NoFuel] for a loop that
    needs more turns than the model gives it.  [wp m Q s] is total correctness: it
    excludes every fault, so a theorem that is proved with it (or that states
    [m s = Ok a s']) also says that the function returns.  [wpe may_block]
    allows waiting for a key.  Machine integers are Z with the wrap-around
    written out ([u8], [i8], [u32], [i32], ...); plain char is unsigned, as on
    the aarch64 target.  Loops are [iter] with a bound that is computed from
    their variables, [repeat_], [fold_i] and [for_return] for counted ones.

    ** evim

    - EvimState: vim.h, the globals of every file as the record [Ed].  The
      text block is a list of bytes at an address; a pointer into it is an
      integer, so that moving the block, stale pointers and accesses outside
      are visible.  stdin is a list of keys and pauses, the file system an
      association list, stdout a list of bytes.
    - EvimLine, EvimEdit: vim_text.c (lines, columns, marks; holes, undo stack
      and queue, registers, char_insert(), searching, files).
    - EvimSyntax: vim_syntax.c.  EvimInput: vim_input.c.  EvimTerm: vim_term.c
      (virtual screen, refresh(), status line, size probe).
    - EvimEx: vim_cmd.c, the colon commands.  EvimCmd: vim_dcmd.c, do_cmd()
      with every key.  EvimMain: vim_main.c.

    The theorems are in layers.  EvimNav (the invariant [wf] of the text block,
    the rules of its accesses and of the navigation) carries
    EvimHole and EvimUndo (holes, moving blocks, undo records, the queue) and
    EvimPop (undo_pop()); EvimEditProps has the theorems: deletion, insertion
    and register contents are exact, undo restores the text, recording never
    faults, queued backspaces.  EvimColor shows that every highlight mode
    stays in its buffer and that the writer of a screen line, read by a
    terminal, draws the cells it is given.  EvimFormat (format_line() against
    a reference rendering), EvimRefresh and EvimDisplay carry
    EvimDisplayProps: after refresh() the virtual screen mirrors the text and
    the line of the cursor is visible.  EvimLineProps: movement, searching,
    bracket matching.  EvimInputProps: keyboard decoding and counts.
    EvimFileProps: typing, loading and saving.  EvimTermProps: the terminal
    size probe and its bounds.  EvimExProps: addresses, options and the
    commands :N, :q, :w.  EvimStatus has the rules of the status line and the
    error signal, EvimMotion the state [at_ease] between two commands with the
    relation [moved] (only the cursor, the marks and the display change) and
    the operations that keep it, EvimWalk the motions of do_cmd(), EvimErase
    the deletions of "x" and the way back by undo_pop(), EvimTurn the frame of
    do_cmd() around each key; EvimCmdProps puts them together to theorems
    about whole commands: motions only move, a typed number and G goes to that
    line, "x" and "u" cancel, and three keys that read outside the text.

    EvimTyping follows insert mode from "i" to ESC over do_cmd().  EvimLoop has
    the rules for one turn of the loop of edit_file(), from the bytes of the
    terminal to the display, EvimTypeLoop those for the turns of insert mode
    and for ":wq".  EvimSession runs whole sessions through main(): one only
    looks at a list of files and leaves them alone, one types a text into a
    file and saves it (or loses it with "ZZ").  EvimDemo is a concrete editor
    at which the witnesses apply the theorems.

    ** sdl_tetris

    - TetrisState: definitions.h, input.h, the globals ([Game]); SDL is the
      list of the calls the program makes and a [sdl_world] of the answers it
      gets; rand() is a stream of numbers that are not negative.
    - TetrisGraphics: graphics.c.  TetrisGame: game.c, input.c, main.c.
    - TetrisGrid, TetrisShape, TetrisLock, TetrisInv, TetrisFrame:
      each function as an equation (what it answers and the state it leaves),
      and the invariant [inv] of the game.  TetrisProps: every reachable state
      is safe, lock_shape() refines the rules on the list of rows, a shape
      lands within 1104 frames, a frame paints the grid, what a restart keeps.

    ** git's curl shim

    - CurlState: curl/curl.h and the structures of curl_compat.c, in stores at
      their addresses ([Curl]); malloc(), tinyhttpsc and the callbacks of the
      caller are functions of a [curl_world], the calls are a history.
    - CurlUrl (strings, URLs, encodings), CurlEasy (handles and options),
      CurlPerform (a transfer), CurlMulti (the multi interface, curl_slist):
      curl_compat.c.

    CurlFrame: linked lists in a store, and [track], what a transfer may
    change and how many blocks it holds, with the rules of the small functions;
    CurlCodec, CurlRedirect: decoders, origins, header lines, permitted
    protocols and resolved URLs as references for the string code.  CurlBody
    gives the rules of the buffers and what delivering a body comes to
    ([delivery]), CurlRequest the headers of a request ([request_headers]) and
    what the client's errors are reported as ([failure]); CurlSession the
    abstract protocol [session], with the code each response comes to and the
    codes after which it is asked for again, and that the loop of curl_perform()
    follows it, up to the whole of curl_easy_perform().  CurlMany does the same
    for the messages and transfers of a CURLM: when there is no memory for a
    message, curl_multi_perform() stops and that transfer is never reported.
    CurlProps has the theorems, with concrete transfers.

    ** git's delta format

    - GitDelta: delta.h, patch-delta.c and diff-delta.c.  A buffer is the list
      of its bytes, a pointer into it an offset; a block of malloc() holds
      arbitrary bytes, and the state ([Heap]) counts the blocks.

    GitRabin: the hash of a window and that it rolls, from the linearity of the
    tables, which are checked entry by entry.  GitPatch: deltas as programs of
    copies and insertions ([run], [parse_ops], [enc_ops]) and patch_delta() as
    their interpreter.  GitIndex: create_delta_index() phase by phase, each
    with its invariant (linked buckets, the culling of long ones, the packed
    array).  GitDiff: the loop of create_delta() with the invariant [diffed]:
    what is written so far is the encoding of a program for what is read.
    GitDeltaProps has the theorems: a delta brings back its target,
    patch_delta() on any delta with a complete header, the index, the hash.

    ** git's queues and sorting

    GitBase has what the models of git's files share: buffers of bytes with
    checked accesses and their rules, git's character tests, comparison
    functions as the class [comparison].  GitQueue: prio-queue.c, the queue as
    its array of entries. GitHeap: what moving an entry up or down does to an
    array that is a heap but for one place.  GitQueueProps: every sequence of
    operations answers what a sorted list (or a stack) answers, with things
    that compare equal in the order they came.  GitSort: the list_sort that
    mergesort.h defines, over a store of links.  GitSortProps: a merge and the
    whole sort are stable and touch no other link; the array of ranks is a
    binary counter of sorted lists.

    ** git's edit distance

    GitLevenshtein: levenshtein.c with its three rows, and edit scripts with
    their costs as the relation [edits]; every cell is the least cost for two
    prefixes.  A script goes over both strings once (optimal string alignment);
    the Damerau-Levenshtein distance that the code's comment promises, the least
    cost of a sequence of single edits ([rewrites]), can be less.

    ** git's hash functions

    GitHash: sha256/block/sha256.c and block-sha1/sha1.c; the two files have
    the same Update and Final, which the model shares.  GitHashBlock: SHA-256
    and SHA-1 as FIPS 180-4 defines them, with its test vectors; the function
    of one block, with its rotating registers and its schedule in place, is the
    compression function of the standard.  GitHashProps: the context stands for
    the bytes hashed so far ([hashing]), so that pieces of any size add up, and
    the digest is the standard's.

    ** git's shell patterns

    GitWildmatch: wildmatch.c; the character tests of sane-ctype.h and ctype.c
    are the module [Sane] of GitBase.  GitWildSpec: patterns as lists of items,
    what they match by the classes of POSIX and git's flags
    ([pattern_matches], which uses nothing of the code), that the code's
    character tests are these, and what the results of dowild() promise about
    the text behind ([verdict]), which is what makes it sound to give up early.
    GitWildProps: each part of dowild() keeps these promises, so that
    wildmatch() decides [pattern_matches].

    ** git's string buffers and quoting

    GitStrbuf: strbuf.c and strbuf.h as far as they change the bytes of a
    buffer.  The state is one buffer with its block of memory, which holds
    arbitrary bytes behind the string, and the slop buffer that all empty buffers
    share; realloc() is the class [heap] and may fail at any call.  [rep] is the
    contract (the buffer holds a byte string with a NUL behind it), [spec_call]
    what each operation does to the byte string, and [appends] the contract that
    GitQuote uses: it adds these bytes, or dies for want of memory.
    GitQuote: quote.c over such buffers; sq_dequote() and its kin rewrite a
    string in place, there the memory is the state.  GitQuoteProps: readers for
    what is written (the words of a shell, the grammar [c_reads] of quoted names
    with its own table of escapes, literals of other languages with the bytes
    they accept unescaped), and that what is quoted comes back.

    ** Assumptions and bounds

    In evim the allocator answers addresses (a parameter of the environment)
    and never fails: xmalloc() and its like end the program instead.  In the
    curl shim and in git it may fail at any call.  Sizes of sources and targets
    are below 2^35, as more than five bytes of a size do not fit the code's
    MAX_OP_SIZE.  What tinyhttpsc and the read callback are asked to keep to is
    the class [sane_world]; a body that is read from a callback has a size
    ([usable]), so that the loop over the callback ends.  Theorems about evim's
    screen take a geometry of 2 to 4096 rows and columns and a tab width of 2
    to 32, and texts below 2^25 bytes where the code computes with int.  A
    priority queue takes fewer than 2^29 things, a list to sort has at most
    2^63 elements, the costs of an edit fit an int, and a message to hash has
    fewer than 2^61 bytes, a shell pattern fewer than 2^31.  A string buffer
    that would outgrow size_t ends the program, as in the code.  The fuel of
    every loop is computed from the sizes it runs over; that it is enough is
    part of each theorem, since running out is a fault.

    ** Not modelled

    Raw terminal mode and its restoration, signals, the error texts of the log
    of sdl_tetris, the HTTP client below the curl shim (it is not in the
    repository), compat.c next to it (wrappers of system calls), what strbuf.c
    and quote.c do with printf(), files and encodings, the rest of git, and
    everything else vendored or in C++. *)
From Stdlib Require Export ZArith Ascii String.
From stdpp Require Export base numbers list option decidable.
From Stdlib Require Export Lia.
#[global] Open Scope Z_scope.

(** ** Literals
    [ch "a"] is the code of a character and [str "abc"] the list of codes of a
    C string (without its terminating NUL); both are numerals once parsed. *)
Abbreviation ch c := (ltac:(let x := eval vm_compute in (Z.of_N (N_of_ascii c%char)) in exact x)) (only parsing).
Abbreviation str c := (ltac:(let x := eval vm_compute in
  (List.map (fun a => Z.of_N (N_of_ascii a)) (list_ascii_of_string c%string)) in exact x)) (only parsing).

(** ** Machine integers: two's complement wrap-around at a given width *)
Definition u8 (z : Z) : Z := z mod 256.
Definition i8 (z : Z) : Z := (z + 128) mod 256 - 128.
Definition u16 (z : Z) : Z := z mod 65536.
Definition i16 (z : Z) : Z := (z + 32768) mod 65536 - 32768.
Definition u32 (z : Z) : Z := z mod 4294967296.
Definition i32 (z : Z) : Z := (z + 2147483648) mod 4294967296 - 2147483648.
Definition u64 (z : Z) : Z := z mod 18446744073709551616.

Lemma u8_small z : 0 <= z < 256 -> u8 z = z.
Proof. apply Z.mod_small. Qed.
Lemma u32_small z : 0 <= z < 4294967296 -> u32 z = z.
Proof. apply Z.mod_small. Qed.
Lemma u64_small z : 0 <= z < 18446744073709551616 -> u64 z = z.
Proof. apply Z.mod_small. Qed.
Lemma i32_small z : -2147483648 <= z < 2147483648 -> i32 z = z.
Proof. intros H. unfold i32. rewrite Z.mod_small; lia. Qed.
Lemma i8_small z : -128 <= z < 128 -> i8 z = z.
Proof. intros H. unfold i8. rewrite Z.mod_small; lia. Qed.
Lemma u8_range z : 0 <= u8 z < 256.
Proof. apply Z.mod_pos_bound. lia. Qed.
Lemma u32_range z : 0 <= u32 z < 4294967296.
Proof. apply Z.mod_pos_bound. lia. Qed.

(** ** <ctype.h> in the C locale, on unsigned characters *)
Definition isdigit (c : Z) : bool := (48 <=? c) && (c <=? 57).
Definition isupper (c : Z) : bool := (65 <=? c) && (c <=? 90).
Definition islower (c : Z) : bool := (97 <=? c) && (c <=? 122).
Definition isalpha (c : Z) : bool := isupper c || islower c.
Definition isalnum (c : Z) : bool := isalpha c || isdigit c.
Definition isxdigit (c : Z) : bool :=
  isdigit c || ((65 <=? c) && (c <=? 70)) || ((97 <=? c) && (c <=? 102)).
Definition isspace (c : Z) : bool := (c =? 32) || ((9 <=? c) && (c <=? 13)).
Definition isblank (c : Z) : bool := (c =? 32) || (c =? 9).
Definition ispunct (c : Z) : bool := (33 <=? c) && (c <=? 126) && negb (isalnum c).
Definition toupper (c : Z) : Z := if islower c then c - 32 else c.
Definition tolower (c : Z) : Z := if isupper c then c + 32 else c.

(** ** <string.h> on C strings given as the list of their bytes before the NUL.
    A pointer into a string is the suffix it points at; [*p] is [hd0 p]. *)
Definition hd0 (p : list Z) : Z := hd 0 p.
Definition nth0 (i : nat) (p : list Z) : Z := default 0 (p !! i).
Definition zlen {A} (l : list A) : Z := Z.of_nat (length l).

(** The C string that starts at the head of a byte sequence. *)
Fixpoint cstr (l : list Z) : list Z :=
  match l with
  | [] => []
  | c :: l => if c =? 0 then [] else c :: cstr l
  end.

(** [strchr s c != NULL]; the terminating NUL counts as part of the string. *)
Definition strchr_in (s : list Z) (c : Z) : bool :=
  (u8 c =? 0) || existsb (fun x => x =? u8 c) s.
(** [strchr s c] for a non-NUL [c], as a suffix. *)
Fixpoint strchr (s : list Z) (c : Z) : option (list Z) :=
  match s with
  | [] => None
  | x :: s' => if x =? c then Some s else strchr s' c
  end.
Fixpoint streq (a b : list Z) : bool :=
  match a, b with
  | [], [] => true
  | x :: a, y :: b => (x =? y) && streq a b
  | _, _ => false
  end.
(** [strncmp(a, b, strlen(a)) == 0]: [a] is a prefix of [b]. *)
Fixpoint prefixb (a b : list Z) : bool :=
  match a, b with
  | [], _ => true
  | x :: a, y :: b => (x =? y) && prefixb a b
  | _ :: _, [] => false
  end.
(** [strncasecmp(a, b, strlen(a)) == 0]. *)
Fixpoint prefixcaseb (a b : list Z) : bool :=
  match a, b with
  | [], _ => true
  | x :: a, y :: b => (tolower x =? tolower y) && prefixcaseb a b
  | _ :: _, [] => false
  end.
Fixpoint skip_while (p : Z -> bool) (s : list Z) : list Z :=
  match s with
  | [] => []
  | x :: s' => if p x then skip_while p s' else s
  end.
Fixpoint take_while (p : Z -> bool) (s : list Z) : list Z :=
  match s with
  | [] => []
  | x :: s' => if p x then x :: take_while p s' else []
  end.

(** snprintf() of [s] into a buffer of [size] bytes: what fits before the NUL *)
Definition snprintf (size : Z) (s : list Z) : list Z := take (Z.to_nat (size - 1)) s.
(** [strstr s sub], as a suffix of [s] *)
Fixpoint strstr (s sub : list Z) : option (list Z) :=
  if prefixb sub s then Some s
  else match s with [] => None | _ :: s' => strstr s' sub end.
(** [strncasecmp(a, b, n) == 0] *)
Fixpoint ncaseeq (n : nat) (a b : list Z) : bool :=
  match n with
  | O => true
  | S n =>
      match a, b with
      | [], [] => true
      | x :: a, y :: b => (tolower x =? tolower y) && ncaseeq n a b
      | _, _ => false
      end
  end.
(** [strcasecmp(a, b) == 0] *)
Fixpoint caseeq (a b : list Z) : bool :=
  match a, b with
  | [], [] => true
  | x :: a, y :: b => (tolower x =? tolower y) && caseeq a b
  | _, _ => false
  end.

Lemma take_skip_while p s : take_while p s ++ skip_while p s = s.
Proof. induction s as [|x s IH]; simpl; [done|]. destruct (p x); simpl; congruence. Qed.
Lemma streq_spec a b : streq a b = true <-> a = b.
Proof.
  revert b. induction a as [|x a IH]; intros [|y b]; simpl; try easy.
  rewrite andb_true_iff, Z.eqb_eq, IH. split; [intros [-> ->]|intros [= -> ->]]; done.
Qed.
Lemma prefixb_spec a b : prefixb a b = true <-> exists c, b = a ++ c.
Proof.
  revert b. induction a as [|x a IH]; intros b; simpl.
  { split; [eauto|done]. }
  destruct b as [|y b]; simpl.
  { split; [done|]. intros [c ?]. done. }
  rewrite andb_true_iff, Z.eqb_eq, IH. split.
  - intros [-> [c ->]]. eauto.
  - intros [c [= -> ->]]. eauto.
Qed.

Lemma rev_lookup {A} (l : list A) (i : nat) :
  (i < length l)%nat -> rev l !! i = l !! (length l - S i)%nat.
Proof. intros H. rewrite rev_alt. by apply reverse_lookup. Qed.

(** ** printf("%d") and printf("%u") *)
Fixpoint dec_digits (fuel : nat) (n : Z) (acc : list Z) : list Z :=
  match fuel with
  | O => acc
  | S f => let acc := (48 + n mod 10) :: acc in
           if n <? 10 then acc else dec_digits f (n / 10) acc
  end.
Definition dec (n : Z) : list Z :=
  if n <? 0 then 45 :: dec_digits (S (Z.to_nat (Z.log2 (- n)))) (- n) []
  else dec_digits (S (Z.to_nat (Z.log2 n))) n [].

(** the number a string of digits writes, after the value [acc] *)
Definition digits_val (acc : Z) (ds : list Z) : Z := fold_left (fun n d => n * 10 + (d - 48)) ds acc.
Lemma digits_val_app acc a b : digits_val acc (a ++ b) = digits_val (digits_val acc a) b.
Proof. apply fold_left_app. Qed.

Lemma dec_digits_spec fuel n acc : 0 <= n < 2 ^ Z.of_nat fuel -> (0 < fuel)%nat ->
  exists ds, dec_digits fuel n acc = ds ++ acc /\ Forall (fun d => 48 <= d <= 57) ds /\ ds <> [] /\
    digits_val 0 ds = n.
Proof.
  revert n acc. induction fuel as [|f IH]; intros n acc Hn Hf; [lia|]. cbn [dec_digits].
  pose proof (Z.mod_pos_bound n 10 ltac:(lia)). destruct (Z.ltb_spec n 10) as [Hlt|Hge].
  - exists [48 + n mod 10]. split; [done|]. split; [repeat constructor; lia|]. split; [done|].
    unfold digits_val. simpl. rewrite Z.mod_small; lia.
  - assert (Hdiv : n / 10 < 2 ^ Z.of_nat f).
    { apply Z.div_lt_upper_bound; [lia|]. rewrite Nat2Z.inj_succ, Z.pow_succ_r in Hn by lia. lia. }
    assert (0 < n / 10) by (apply Z.div_str_pos; lia).
    destruct (IH (n / 10) ((48 + n mod 10) :: acc)) as (ds & -> & Hd & Hne & Hv); [lia| |].
    { destruct f; [|lia]. simpl in Hdiv. lia. }
    exists (ds ++ [48 + n mod 10]). split; [by rewrite <- app_assoc|].
    split; [apply Forall_app; split; [done|repeat constructor; lia]|]. split; [by destruct ds|].
    rewrite digits_val_app, Hv. unfold digits_val. simpl. pose proof (Z.div_mod n 10). lia.
Qed.
(** printf("%d") of a number that is not negative writes its digits *)
Lemma dec_spec n : 0 <= n ->
  exists d ds, dec n = d :: ds /\ Forall (fun d => 48 <= d <= 57) (d :: ds) /\ digits_val 0 (d :: ds) = n.
Proof.
  intros Hn. unfold dec. replace (n <? 0) with false by lia.
  destruct (dec_digits_spec (S (Z.to_nat (Z.log2 n))) n []) as (ds & -> & Hd & Hne & Hv); [|lia|].
  - split; [done|]. pose proof (Z.log2_nonneg n). rewrite Nat2Z.inj_succ, Z2Nat.id by lia.
    destruct (Z.eq_dec n 0) as [->|]; [done|]. apply Z.log2_spec. lia.
  - rewrite app_nil_r. destruct ds as [|d ds]; [done|]. by exists d, ds.
Qed.
(** ten times more needs one digit more *)
Lemma dec_digits_length k : forall fuel n acc, 0 <= n < 10 ^ Z.of_nat (S k) ->
  (length (dec_digits fuel n acc) <= S k + length acc)%nat.
Proof.
  induction k as [|k IH]; intros fuel n acc Hn; (destruct fuel as [|fuel]; cbn [dec_digits]; [simpl; lia|]).
  - change (10 ^ Z.of_nat 1) with 10 in Hn. replace (n <? 10) with true by lia. simpl. lia.
  - destruct (n <? 10); [simpl; lia|]. specialize (IH fuel (n / 10) ((48 + n mod 10) :: acc)). simpl length in IH |- *.
    rewrite (Nat2Z.inj_succ (S k)), Z.pow_succ_r in Hn by lia.
    specialize (IH (conj (Z.div_pos n 10 ltac:(lia) ltac:(lia)) (Z.div_lt_upper_bound n 10 (10 ^ Z.of_nat (S k)) ltac:(lia) ltac:(lia)))). lia.
Qed.
Lemma dec_length n k : 0 <= n < 10 ^ Z.of_nat (S k) -> (length (dec n) <= S k)%nat.
Proof.
  intros Hn. unfold dec. replace (n <? 0) with false by lia.
  pose proof (dec_digits_length k (S (Z.to_nat (Z.log2 n))) n [] Hn) as H. etransitivity; [exact H|simpl; lia].
Qed.
(** the value only grows along the digits *)
Lemma digits_val_mono ds : Forall (fun d => 48 <= d <= 57) ds -> forall acc, 0 <= acc -> acc <= digits_val acc ds.
Proof.
  induction 1 as [|d ds Hd Hds IH]; intros acc Ha; unfold digits_val in *; simpl; [lia|].
  specialize (IH (acc * 10 + (d - 48)) ltac:(lia)). lia.
Qed.

(** ** Range updates of a byte block *)
Definition splice {A} (i : nat) (bs l : list A) : list A :=
  take i l ++ bs ++ drop (i + length bs) l.

Section splice.
Context {A : Type}.
Implicit Types (l bs : list A) (i j : nat).

Lemma length_splice i bs l :
  (i + length bs <= length l)%nat -> length (splice i bs l) = length l.
Proof. intros H. unfold splice. rewrite !length_app, length_take, length_drop. lia. Qed.

Lemma splice_nil i l : splice i [] l = l.
Proof. unfold splice. simpl. rewrite Nat.add_0_r. apply take_drop. Qed.

Lemma take_splice_le i j bs l : (j <= i)%nat -> (i <= length l)%nat ->
  take j (splice i bs l) = take j l.
Proof.
  intros H Hl. unfold splice.
  rewrite take_app_le by (rewrite length_take; lia).
  rewrite take_take. f_equal. lia.
Qed.

Lemma drop_splice_ge i j bs l : (i <= length l)%nat -> (i + length bs <= j)%nat ->
  drop j (splice i bs l) = drop j l.
Proof.
  intros Hi Hj. unfold splice.
  rewrite drop_app_ge by (rewrite length_take; lia).
  rewrite length_take, Nat.min_l by lia.
  rewrite drop_app_ge by lia. rewrite drop_drop. f_equal. lia.
Qed.

Lemma splice_full i bs l : (i <= length l)%nat ->
  take (i + length bs) (splice i bs l) = take i l ++ bs.
Proof.
  intros Hi. unfold splice. rewrite app_assoc.
  rewrite take_app_le by (rewrite length_app, length_take; lia).
  rewrite take_ge; [done|]. rewrite length_app, length_take. lia.
Qed.

Lemma lookup_splice_lt i j bs l : (j < i)%nat -> (i <= length l)%nat ->
  splice i bs l !! j = l !! j.
Proof.
  intros H Hl. unfold splice. rewrite lookup_app_l by (rewrite length_take; lia).
  by rewrite lookup_take_lt by lia.
Qed.
Lemma lookup_splice_mid i j bs l : (i <= j < i + length bs)%nat -> (i <= length l)%nat ->
  splice i bs l !! j = bs !! (j - i)%nat.
Proof.
  intros H Hl. unfold splice. rewrite lookup_app_r by (rewrite length_take; lia).
  rewrite length_take, Nat.min_l by lia. by rewrite lookup_app_l by lia.
Qed.
Lemma lookup_splice_ge i j bs l : (i + length bs <= j)%nat -> (i <= length l)%nat ->
  splice i bs l !! j = l !! j.
Proof.
  intros H Hl. unfold splice. rewrite lookup_app_r by (rewrite length_take; lia).
  rewrite length_take, Nat.min_l by lia. rewrite lookup_app_r by lia.
  rewrite lookup_drop. f_equal. lia.
Qed.
End splice.

(** ** A state-and-fault monad
    A C function that reads and writes the program's globals is a function
    from the state to either a result with the new state or a fault. *)
Inductive fault :=
  | OutOfBounds   (** an access outside the block or array it indexes *)
  | NoFuel        (** the loop bound of the model was too small *)
  | Blocked       (** the program waits for input that is not there *)
  | NullDeref     (** a NULL pointer is used as a string or object *)
  | Died          (** die() or a failed assert() ends the program *)
  | Undefined.    (** an operation that C leaves undefined *)

Inductive outcome (St A : Type) :=
  | Ok (a : A) (s : St)
  | Err (f : fault).
Arguments Ok {St A} a s.
Arguments Err {St A} f.

Definition prog (St A : Type) := St -> outcome St A.
Definition ret {St A} (a : A) : prog St A := fun s => Ok a s.
Definition bind {St A B} (m : prog St A) (k : A -> prog St B) : prog St B :=
  fun s => match m s with Ok a s' => k a s' | Err f => Err f end.
Definition raise {St A} (f : fault) : prog St A := fun _ => Err f.
Definition get {St} : prog St St := fun s => Ok s s.
Definition gets {St A} (f : St -> A) : prog St A := fun s => Ok (f s) s.
Definition modify {St} (f : St -> St) : prog St unit := fun s => Ok tt (f s).
Definition oob {St A} : prog St A := raise OutOfBounds.
(** Read an optional value, faulting when it is absent. *)
Definition lift {St A} (f : fault) (o : option A) : prog St A :=
  match o with Some a => ret a | None => raise f end.

Declare Scope prog_scope.
Delimit Scope prog_scope with prog.
Bind Scope prog_scope with prog.
Notation "x <- m ;; k" := (bind m (fun x => k))
  (at level 100, m at next level, right associativity) : prog_scope.
Notation "m ;; k" := (bind m (fun _ => k))
  (at level 100, k at level 200, right associativity) : prog_scope.
Notation "'let*' p := m 'in' k" := (bind m (fun x => match x with p => k end))
  (at level 100, p pattern, m at level 99, k at level 200, right associativity) : prog_scope.
#[global] Open Scope prog_scope.

Definition when {St} (b : bool) (m : prog St unit) : prog St unit :=
  if b then m else ret tt.

(** Loops. [iter fuel body a] runs [body] on the loop variables [a] until it
    answers [inr]; [while_] is the C while statement and [repeat_] a counted
    loop whose body gets the iteration number. *)
Fixpoint iter {St A B} (fuel : nat) (body : A -> prog St (A + B)) (a : A) : prog St B :=
  match fuel with
  | O => raise NoFuel
  | S n => r <- body a ;; match r with inl a' => iter n body a' | inr b => ret b end
  end.
Fixpoint repeat_ {St} (n : nat) (i : Z) (body : Z -> prog St unit) : prog St unit :=
  match n with
  | O => ret tt
  | S n => body i ;; repeat_ n (i + 1) body
  end.
(** [fold_n n f a]: apply [f] [n] times to a loop variable. *)
Fixpoint fold_n {St A} (n : nat) (f : A -> prog St A) (a : A) : prog St A :=
  match n with O => ret a | S n => a' <- f a ;; fold_n n f a' end.

(** [fold_i n i f a]: the same with the iteration number, from [i] on. *)
Fixpoint fold_i {St A} (n : nat) (i : Z) (f : Z -> A -> prog St A) (a : A) : prog St A :=
  match n with O => ret a | S n => a' <- f i a ;; fold_i n (i + 1) f a' end.
(** A counted loop whose body may leave the function: it answers what the body
    returned, if it did. *)
Fixpoint for_return {St R} (n : nat) (i : Z) (body : Z -> prog St (option R)) : prog St (option R) :=
  match n with
  | O => ret None
  | S n => r <- body i ;; match r with Some _ => ret r | None => for_return n (i + 1) body end
  end.

(** ** Arrays: reads and writes that fault outside the array *)
Definition idx {A} (l : list A) (i : Z) : option A := if i <? 0 then None else l !! Z.to_nat i.
Definition upd {A} (l : list A) (i : Z) (v : A) : option (list A) :=
  if (0 <=? i) && (i <? zlen l) then Some (<[Z.to_nat i := v]> l) else None.

Lemma idx_lt {A} (l : list A) i : 0 <= i < zlen l -> exists v, idx l i = Some v.
Proof.
  intros H. unfold idx, zlen in *. replace (i <? 0) with false by lia.
  destruct (lookup_lt_is_Some_2 l (Z.to_nat i)) as [v ->]; [lia|eauto].
Qed.
Lemma upd_lt {A} (l : list A) i v : 0 <= i < zlen l -> upd l i v = Some (<[Z.to_nat i := v]> l).
Proof. intros H. unfold upd. by rewrite (proj2 (Z.leb_le _ _)), (proj2 (Z.ltb_lt _ _)) by lia. Qed.
Lemma zlen_insert {A} (l : list A) i v : zlen (<[i := v]> l) = zlen l.
Proof. unfold zlen. by rewrite length_insert. Qed.

(** ** Record updates
    [build_record c (tt, p1, ..., pn) p v s] is the record [c] with the fields
    of [s] but [v] for the field [p]. *)
Ltac build_record f projs target v s :=
  lazymatch projs with
  | (?rest, ?p) =>
      let r := build_record f rest target v s in
      lazymatch p with target => constr:(r v) | _ => constr:(r (p s)) end
  | tt => f
  end.

(** ** Weakest preconditions
    [wpe E m Q s]: from [s] the program either ends with [Q], or stops with a
    fault that [E] allows. [wp] allows none: it is total correctness. *)
Definition wpe {St A} (E : fault -> Prop) (m : prog St A) (Q : A -> St -> Prop) (s : St) : Prop :=
  match m s with Ok a s' => Q a s' | Err f => E f end.
Definition no_fault : fault -> Prop := fun _ => False.
Definition may_block : fault -> Prop := fun f => f = Blocked.
Abbreviation wp := (wpe no_fault) (only parsing).

Section wp.
Context {St : Type}.
Implicit Types s : St.

Lemma wpe_ret {A} E (a : A) (Q : A -> St -> Prop) s : Q a s -> wpe E (ret a) Q s.
Proof. done. Qed.
Lemma wpe_bind {A B} E (m : prog St A) (k : A -> prog St B) Q s :
  wpe E m (fun a s' => wpe E (k a) Q s') s -> wpe E (bind m k) Q s.
Proof. unfold wpe, bind. by destruct (m s). Qed.
Lemma wpe_gets {A} E (f : St -> A) (Q : A -> St -> Prop) s : Q (f s) s -> wpe E (gets f) Q s.
Proof. done. Qed.
Lemma wpe_get E (Q : St -> St -> Prop) s : Q s s -> wpe E get Q s.
Proof. done. Qed.
Lemma wpe_modify E f (Q : unit -> St -> Prop) s : Q tt (f s) -> wpe E (modify f) Q s.
Proof. done. Qed.
Lemma wpe_mono {A} E (m : prog St A) (Q R : A -> St -> Prop) s :
  wpe E m Q s -> (forall a s', Q a s' -> R a s') -> wpe E m R s.
Proof. unfold wpe. destruct (m s); auto. Qed.
Lemma wpe_ok {A} E (m : prog St A) Q s a s' : m s = Ok a s' -> Q a s' -> wpe E m Q s.
Proof. unfold wpe. by intros ->. Qed.
Lemma wpe_if {A} E (b : bool) (m1 m2 : prog St A) Q s :
  (b = true -> wpe E m1 Q s) -> (b = false -> wpe E m2 Q s) -> wpe E (if b then m1 else m2) Q s.
Proof. destruct b; auto. Qed.
Lemma wpe_when E (b : bool) (m : prog St unit) (Q : unit -> St -> Prop) s :
  (b = true -> wpe E m Q s) -> (b = false -> Q tt s) -> wpe E (when b m) Q s.
Proof. destruct b; intros H1 H2; [by apply H1|by apply H2]. Qed.
Lemma wp_elim {A} (m : prog St A) Q s :
  wp m Q s -> exists a s', m s = Ok a s' /\ Q a s'.
Proof. unfold wpe. destruct (m s) as [a s'|f]; [eauto|done]. Qed.
Lemma bind_ok {A B} (m : prog St A) (k : A -> prog St B) s a s' :
  m s = Ok a s' -> bind m k s = k a s'.
Proof. unfold bind. by intros ->. Qed.

(** Loop rule: [I] is the invariant, [mu] a measure the body decreases. *)
Lemma wpe_iter {A B} E (I : A -> St -> Prop) (mu : A -> St -> Z)
    (body : A -> prog St (A + B)) (Q : B -> St -> Prop) fuel a s :
  (forall a s, I a s -> 0 <= mu a s /\
     wpe E (body a) (fun r s' => match r with
       | inl a' => I a' s' /\ mu a' s' < mu a s
       | inr b => Q b s' end) s) ->
  I a s -> mu a s < Z.of_nat fuel ->
  wpe E (iter fuel body a) Q s.
Proof.
  intros Hbody. revert a s. induction fuel as [|n IH]; intros a s HI Hmu.
  { destruct (Hbody a s HI). simpl in *. lia. }
  simpl. apply wpe_bind. destruct (Hbody a s HI) as [Hpos Hb].
  eapply wpe_mono; [exact Hb|]. intros [a'|b] s'.
  - intros [HI' Hlt]. apply IH; [done|lia].
  - intros HQ. by apply wpe_ret.
Qed.

Lemma wpe_repeat E (I : Z -> St -> Prop) body n i s :
  (forall j s, i <= j < i + Z.of_nat n -> I j s ->
     wpe E (body j) (fun _ s' => I (j + 1) s') s) ->
  I i s -> wpe E (repeat_ n i body) (fun _ s' => I (i + Z.of_nat n) s') s.
Proof.
  revert i s. induction n as [|n IH]; intros i s Hb HI; simpl.
  { apply wpe_ret. by rewrite Z.add_0_r. }
  apply wpe_bind. eapply wpe_mono; [apply Hb; [lia|done]|].
  intros [] s' HI'. replace (i + Z.of_nat (S n)) with (i + 1 + Z.of_nat n) by lia.
  apply IH; [|done]. intros j s2 Hj. apply Hb. lia.
Qed.
Lemma wpe_fold {A} E (I : Z -> A -> St -> Prop) f n i (a : A) s :
  (forall j a s, i <= j < i + Z.of_nat n -> I j a s -> wpe E (f a) (fun a' s' => I (j + 1) a' s') s) ->
  I i a s -> wpe E (fold_n n f a) (fun a' s' => I (i + Z.of_nat n) a' s') s.
Proof.
  revert i a s. induction n as [|n IH]; intros i a s Hb HI; cbn [fold_n].
  { apply wpe_ret. by rewrite Z.add_0_r. }
  apply wpe_bind. eapply wpe_mono; [apply (Hb i); [lia|done]|].
  intros a' s' HI'. replace (i + Z.of_nat (S n)) with (i + 1 + Z.of_nat n) by lia.
  apply IH; [|done]. intros j a2 s2 Hj. apply Hb. lia.
Qed.
Lemma wpe_fold_i {A} E (I : Z -> A -> St -> Prop) f n i (a : A) s :
  (forall j a s, i <= j < i + Z.of_nat n -> I j a s -> wpe E (f j a) (fun a' s' => I (j + 1) a' s') s) ->
  I i a s -> wpe E (fold_i n i f a) (fun a' s' => I (i + Z.of_nat n) a' s') s.
Proof.
  revert i a s. induction n as [|n IH]; intros i a s Hb HI; cbn [fold_i].
  { apply wpe_ret. by rewrite Z.add_0_r. }
  apply wpe_bind. eapply wpe_mono; [apply (Hb i); [lia|done]|].
  intros a' s' HI'. replace (i + Z.of_nat (S n)) with (i + 1 + Z.of_nat n) by lia.
  apply IH; [|done]. intros j a2 s2 Hj. apply Hb. lia.
Qed.
Lemma wpe_for_return {R} E (I : Z -> St -> Prop) (Q : option R -> St -> Prop) body n i s :
  (forall j s, i <= j < i + Z.of_nat n -> I j s ->
     wpe E (body j) (fun r s' => match r with Some _ => Q r s' | None => I (j + 1) s' end) s) ->
  (forall s, I (i + Z.of_nat n) s -> Q None s) -> I i s -> wpe E (for_return n i body) Q s.
Proof.
  revert i s. induction n as [|n IH]; intros i s Hb Hend HI; cbn [for_return].
  { apply wpe_ret. apply Hend. by rewrite Z.add_0_r. }
  apply wpe_bind. eapply wpe_mono; [apply (Hb i); [lia|done]|].
  intros [r|] s' H; [by apply wpe_ret|]. apply IH; [|intros s2 H2; apply Hend|done].
  - intros j s2 Hj. apply Hb. lia.
  - by replace (i + Z.of_nat (S n)) with (i + 1 + Z.of_nat n) by lia.
Qed.
Lemma in_seqZ m n k : In k (seqZ m n) <-> m <= k < m + n.
Proof. rewrite <- list_elem_of_In. apply elem_of_seqZ. Qed.
Lemma forallb_map {A B} (f : A -> B) p l : forallb p (map f l) = forallb (fun a => p (f a)) l.
Proof. induction l as [|a l IH]; simpl; [done|]. by rewrite IH. Qed.
Lemma forallb_seqZ p m n : forallb p (seqZ m n) = true <-> forall i, m <= i < m + n -> p i = true.
Proof.
  rewrite forallb_forall. split; intros H i Hi; apply H; [by apply in_seqZ|by apply in_seqZ in Hi].
Qed.
(** a search that only reads: [p] says of which numbers the body answers None *)
Lemma for_return_all {R} (p : Z -> bool) (r : R) body n i s :
  (forall j, i <= j < i + Z.of_nat n -> body j s = Ok (if p j then None else Some r) s) ->
  for_return n i body s = Ok (if forallb p (seqZ i (Z.of_nat n)) then None else Some r) s.
Proof.
  revert i. induction n as [|n IH]; intros i Hb; cbn [for_return]; [done|].
  rewrite seqZ_cons by lia. cbn [forallb]. unfold bind. rewrite Hb by lia. destruct (p i); [|done]. cbn [andb].
  rewrite IH by (intros j Hj; apply Hb; lia). replace (Z.succ i) with (i + 1) by lia.
  by replace (Z.pred (Z.of_nat (S n))) with (Z.of_nat n) by lia.
Qed.
Lemma wpe_lift {A} E f (o : option A) a (Q : A -> St -> Prop) s : o = Some a -> Q a s -> wpe E (lift f o) Q s.
Proof. by intros ->. Qed.
End wp.

(** Take one step of a straight-line program in a [wpe] goal. *)
Ltac wp_step :=
  lazymatch goal with
  | |- wpe _ (bind _ _) _ _ => apply wpe_bind
  | |- wpe _ (ret _) _ _ => apply wpe_ret
  | |- wpe _ (gets _) _ _ => apply wpe_gets
  | |- wpe _ get _ _ => apply wpe_get
  | |- wpe _ (modify _) _ _ => apply wpe_modify
  | |- wpe _ (when _ _) _ _ => apply wpe_when; intros ?
  | |- wpe _ (if _ then _ else _) _ _ => apply wpe_if; intros ?
  end.
Ltac wp_go := repeat (wp_step; cbv beta).
