(* ===== verification/EvimState.v ===== *)
(** * evim: the program's globals and the text block

    The globals of bin/evim/vim_util.c (and the two file-level variables of
    vim_term.c and vim_syntax.c) as one record [Ed], the constants of vim.h,
    and the checked accesses to the heap block that holds text[].  Pointers
    into text[] are addresses: [text] is the address of the block, NULL is 0,
    and an access outside the block is the fault [OutOfBounds].  Plain char is
    unsigned, as in the AArch64 ABI that make.inc selects. *)
From S2P Require Import Prelude.

(** ** Constants of vim.h *)
Definition KEYCODE_UP : Z := -2.
Definition KEYCODE_DOWN : Z := -3.
Definition KEYCODE_RIGHT : Z := -4.
Definition KEYCODE_LEFT : Z := -5.
Definition KEYCODE_HOME : Z := -6.
Definition KEYCODE_END : Z := -7.
Definition KEYCODE_INSERT : Z := -8.
Definition KEYCODE_DELETE : Z := -9.
Definition KEYCODE_PAGEUP : Z := -10.
Definition KEYCODE_PAGEDOWN : Z := -11.
Definition KEYCODE_BACKSPACE : Z := -12.
Definition KEYCODE_D : Z := -13.
Definition KEYCODE_CTRL_RIGHT : Z := Z.land KEYCODE_RIGHT (Z.lnot 0x40).
Definition KEYCODE_CTRL_LEFT : Z := Z.land KEYCODE_LEFT (Z.lnot 0x40).
Definition KEYCODE_ALT_RIGHT : Z := Z.land KEYCODE_RIGHT (Z.lnot 0x20).
Definition KEYCODE_ALT_LEFT : Z := Z.land KEYCODE_LEFT (Z.lnot 0x20).
Definition KEYCODE_ALT_BACKSPACE : Z := Z.land KEYCODE_BACKSPACE (Z.lnot 0x20).
Definition KEYCODE_ALT_D : Z := Z.land KEYCODE_D (Z.lnot 0x20).
Definition KEYCODE_BUFFER_SIZE : Z := 16.

Definition VI_MAX_SCREEN_LEN : Z := 4096.
Definition VI_UNDO_QUEUE_MAX : Z := 32.
Definition is_asciionly (a : Z) : bool := u32 (a - 0x20) <=? 0x7e - 0x20.
Definition MAX_TABSTOP : Z := 32.
Definition MAX_INPUT_LEN : Z := 128.
Definition MAX_SCR_COLS : Z := VI_MAX_SCREEN_LEN.
Definition MAX_SCR_ROWS : Z := VI_MAX_SCREEN_LEN.
Definition STATUS_BUFFER_LEN : Z := 200.
Definition Ureg : Z := 27.

Definition ESC_BOLD_TEXT : list Z := [27; 91; 55; 109].
Definition ESC_NORM_TEXT : list Z := [27; 91; 109].
Definition ESC_BELL : list Z := [7].
Definition ESC_CLEAR2EOL : list Z := [27; 91; 75].
Definition ESC_CLEAR2EOS : list Z := [27; 91; 74].
Definition ESC_SET_CURSOR_TOPLEFT : list Z := [27; 91; 72].
Definition ESC_CURSOR_HIDE : list Z := 27 :: str "[?25l".
Definition ESC_CURSOR_SHOW : list Z := 27 :: str "[?25h".

Definition YANKONLY : bool := false.
Definition YANKDEL : bool := true.
Definition FORWARD : Z := 1.
Definition BACK : Z := -1.
Definition LIMITED : Z := 0.
Definition FULL : Z := 1.
Definition PARTIAL : Z := 0.
Definition WHOLE : Z := 1.
Definition MULTI : Z := 2.
Definition S_BEFORE_WS : Z := 1.
Definition S_TO_WS : Z := 2.
Definition S_OVER_WS : Z := 3.
Definition S_END_PUNCT : Z := 4.
Definition S_END_ALNUM : Z := 5.
Definition C_END : Z := -1.

Definition VI_AUTOINDENT : Z := 1.
Definition VI_EXPANDTAB : Z := 2.
Definition VI_ERR_METHOD : Z := 4.
Definition VI_IGNORECASE : Z := 8.
Definition VI_SHOWMATCH : Z := 16.
Definition VI_TABSTOP : Z := 32.
(** OPTS_STR: the strings of the NUL-separated table, in order. *)
Definition OPTS_STR : list (list Z) :=
  [str "ai"; str "autoindent"; str "et"; str "expandtab"; str "fl"; str "flash";
   str "ic"; str "ignorecase"; str "sm"; str "showmatch"; str "ts"; str "tabstop"].
Definition modifying_cmds : list Z := str "aAcCdDiIJoOpPrRsxX<>~".

Definition UNDO_INS : Z := 0.
Definition UNDO_DEL : Z := 1.
Definition UNDO_INS_CHAIN : Z := 2.
Definition UNDO_DEL_CHAIN : Z := 3.
Definition UNDO_INS_QUEUED : Z := 4.
Definition UNDO_DEL_QUEUED : Z := 5.
Definition UNDO_USE_SPOS : Z := 32.
Definition UNDO_EMPTY : Z := 64.

Inductive allow_undo := NO_UNDO | ALLOW_UNDO | ALLOW_UNDO_CHAIN | ALLOW_UNDO_QUEUED.

Definition SYNTAX_NONE : Z := 0.
Definition SYNTAX_JSON : Z := 1.
Definition SYNTAX_RD : Z := 2.
Definition SYNTAX_CONF : Z := 3.
Definition SYNTAX_JS : Z := 4.
Definition SYNTAX_C : Z := 5.

(** ** Data *)
(** struct undo_object; [prev] is the rest of the stack. *)
Record undo_object := mkUndo {
  u_start : Z;
  u_length : Z;
  u_type : Z;
  u_text : list Z
}.

(** A register string with the stamp of its allocation: two register pointers
    are equal exactly when their stamps are. *)
Record regval := mkReg { r_id : nat; r_text : list Z }.

(** What stdin delivers: a byte, a silence longer than every bounded poll, or
    a failing read(). *)
Inductive key := Key (b : Z) | Pause | ReadErr.

(** A file: what stat(), open(), read() and write() answer for it.
    [f_read] is what read() returns, [None] for an error; [f_accept] is how
    many bytes write() takes. *)
Record file := mkFile {
  f_name : list Z;
  f_size : Z;
  f_readable : bool;
  f_read : option (list Z);
  f_writable : bool;
  f_accept : Z
}.

(** The k-th allocation of a text block answers the address [alloc_addr k];
    byte [i] that the allocator leaves undefined in it reads [alloc_junk k i].
    [strerror_text] is what strerror(errno) prints; [can_create] says whether
    open(O_CREAT) can create a new file. *)
Record environment := mkEnv {
  alloc_addr : nat -> Z;
  alloc_junk : nat -> nat -> Z;
  strerror_text : list Z;
  can_create : bool
}.

Set Primitive Projections.
Record Ed := mkEd {
  text : Z;  (** address of text[], 0 when NULL *)
  mem : list Z;  (** the bytes of the block at [text] *)
  endp : Z;  (** "end": address just after the last byte of the buffer *)
  text_size : Z;  (** size the program believes the block has *)
  dot : Z;  (** the cursor *)
  screenbegin : Z;  (** address of the top line on the screen *)
  mark : list Z;  (** 28 marks, 0 = NULL *)
  vi_visual : Z;  (** 1 while a visual selection is active *)
  vi_visual_anchor : Z;  (** where the selection started, 0 = NULL *)
  edit_file_cur_line : Z;  (** line the U register was taken from *)
  vis_last_screenbegin : Z;  (** screenbegin at the last refresh with a selection *)
  alloc_cnt : nat;  (** how many text blocks were allocated so far *)
  undo_stack_tail : list undo_object;  (** the undo stack, newest first *)
  undo_queue_state : Z;  (** UNDO_INS, UNDO_DEL or UNDO_EMPTY *)
  undo_queue_spos : Z;  (** address where the queued operation starts *)
  undo_q : Z;  (** number of queued characters *)
  undo_queue : list Z;  (** the queue, VI_UNDO_QUEUE_MAX bytes *)
  modified_count : Z;
  last_modified_count : Z;
  vi_setops : Z;  (** option bits *)
  tabstop : Z;
  editing : Z;
  cmd_mode : Z;  (** 0 command, 1 insert, 2 replace *)
  cmdcnt : Z;  (** repetition count *)
  cmd_error : bool;
  adding2q : bool;
  lmc_len : Z;
  last_modifying_cmd : list Z;  (** MAX_INPUT_LEN bytes *)
  ioq : list Z;  (** rest of the replay queue, up to its NUL *)
  ioq_start : bool;  (** ioq_start != NULL *)
  dotcnt : Z;
  indentcol : Z;  (** column of recent autoindent, 0 or -1 *)
  last_search_char : Z;
  last_search_cmd : Z;
  last_search_pattern : list Z;  (** C string *)
  YDreg : Z;  (** current yank/delete register *)
  reg : list (option regval);  (** 28 registers *)
  regtype : list Z;
  reg_next : nat;  (** allocation stamp of the next register string *)
  cindex : Z;
  keep_index : bool;
  rows : Z;
  columns : Z;
  crow : Z;
  ccol : Z;
  offset : Z;  (** columns scrolled off to the left *)
  refresh_old_offset : Z;
  screen : list Z;  (** the virtual screen *)
  cursor_hidden : bool;
  have_status_msg : Z;
  last_status_cksum : Z;
  format_edit_status_tot : Z;
  status_buffer : list Z;  (** C string *)
  cur_syntax : Z;  (** SYNTAX_* *)
  current_filename : option (list Z);  (** None = NULL *)
  argc : Z;
  vi_optind : Z;
  readbuffer : list Z;  (** KEYCODE_BUFFER_SIZE bytes *)
  input : list key;  (** what stdin still delivers *)
  out : list Z;  (** every byte written to stdout *)
  files : list file;  (** the file system *)
  env : environment  (** allocator and libc answers, constant *)
}.
Unset Primitive Projections.

(** Setters: [set_f v s] is [s] with field [f] replaced by [v]. *)
Ltac mk_setter target :=
  intros v s;
  let r := build_record mkEd (tt,
    text, mem, endp, text_size, dot, screenbegin, mark, vi_visual, vi_visual_anchor,
    edit_file_cur_line, vis_last_screenbegin, alloc_cnt, undo_stack_tail,
    undo_queue_state, undo_queue_spos, undo_q, undo_queue, modified_count,
    last_modified_count, vi_setops, tabstop, editing, cmd_mode, cmdcnt, cmd_error,
    adding2q, lmc_len, last_modifying_cmd, ioq, ioq_start, dotcnt, indentcol,
    last_search_char, last_search_cmd, last_search_pattern, YDreg, reg, regtype, reg_next,
    cindex, keep_index, rows, columns, crow, ccol, offset, refresh_old_offset, screen,
    cursor_hidden, have_status_msg, last_status_cksum, format_edit_status_tot,
    status_buffer, cur_syntax, current_filename, argc, vi_optind, readbuffer, input, out,
    files, env) target v s in
  exact r.
Definition set_text : Z -> Ed -> Ed := ltac:(mk_setter text).
Definition set_mem : list Z -> Ed -> Ed := ltac:(mk_setter mem).
Definition set_endp : Z -> Ed -> Ed := ltac:(mk_setter endp).
Definition set_text_size : Z -> Ed -> Ed := ltac:(mk_setter text_size).
Definition set_dot : Z -> Ed -> Ed := ltac:(mk_setter dot).
Definition set_screenbegin : Z -> Ed -> Ed := ltac:(mk_setter screenbegin).
Definition set_mark : list Z -> Ed -> Ed := ltac:(mk_setter mark).
Definition set_vi_visual : Z -> Ed -> Ed := ltac:(mk_setter vi_visual).
Definition set_vi_visual_anchor : Z -> Ed -> Ed := ltac:(mk_setter vi_visual_anchor).
Definition set_edit_file_cur_line : Z -> Ed -> Ed := ltac:(mk_setter edit_file_cur_line).
Definition set_vis_last_screenbegin : Z -> Ed -> Ed := ltac:(mk_setter vis_last_screenbegin).
Definition set_alloc_cnt : nat -> Ed -> Ed := ltac:(mk_setter alloc_cnt).
Definition set_undo_stack_tail : list undo_object -> Ed -> Ed := ltac:(mk_setter undo_stack_tail).
Definition set_undo_queue_state : Z -> Ed -> Ed := ltac:(mk_setter undo_queue_state).
Definition set_undo_queue_spos : Z -> Ed -> Ed := ltac:(mk_setter undo_queue_spos).
Definition set_undo_q : Z -> Ed -> Ed := ltac:(mk_setter undo_q).
Definition set_undo_queue : list Z -> Ed -> Ed := ltac:(mk_setter undo_queue).
Definition set_modified_count : Z -> Ed -> Ed := ltac:(mk_setter modified_count).
Definition set_last_modified_count : Z -> Ed -> Ed := ltac:(mk_setter last_modified_count).
Definition set_vi_setops : Z -> Ed -> Ed := ltac:(mk_setter vi_setops).
Definition set_tabstop : Z -> Ed -> Ed := ltac:(mk_setter tabstop).
Definition set_editing : Z -> Ed -> Ed := ltac:(mk_setter editing).
Definition set_cmd_mode : Z -> Ed -> Ed := ltac:(mk_setter cmd_mode).
Definition set_cmdcnt : Z -> Ed -> Ed := ltac:(mk_setter cmdcnt).
Definition set_cmd_error : bool -> Ed -> Ed := ltac:(mk_setter cmd_error).
Definition set_adding2q : bool -> Ed -> Ed := ltac:(mk_setter adding2q).
Definition set_lmc_len : Z -> Ed -> Ed := ltac:(mk_setter lmc_len).
Definition set_last_modifying_cmd : list Z -> Ed -> Ed := ltac:(mk_setter last_modifying_cmd).
Definition set_ioq : list Z -> Ed -> Ed := ltac:(mk_setter ioq).
Definition set_ioq_start : bool -> Ed -> Ed := ltac:(mk_setter ioq_start).
Definition set_dotcnt : Z -> Ed -> Ed := ltac:(mk_setter dotcnt).
Definition set_indentcol : Z -> Ed -> Ed := ltac:(mk_setter indentcol).
Definition set_last_search_char : Z -> Ed -> Ed := ltac:(mk_setter last_search_char).
Definition set_last_search_cmd : Z -> Ed -> Ed := ltac:(mk_setter last_search_cmd).
Definition set_last_search_pattern : list Z -> Ed -> Ed := ltac:(mk_setter last_search_pattern).
Definition set_YDreg : Z -> Ed -> Ed := ltac:(mk_setter YDreg).
Definition set_reg : list (option regval) -> Ed -> Ed := ltac:(mk_setter reg).
Definition set_regtype : list Z -> Ed -> Ed := ltac:(mk_setter regtype).
Definition set_reg_next : nat -> Ed -> Ed := ltac:(mk_setter reg_next).
Definition set_cindex : Z -> Ed -> Ed := ltac:(mk_setter cindex).
Definition set_keep_index : bool -> Ed -> Ed := ltac:(mk_setter keep_index).
Definition set_rows : Z -> Ed -> Ed := ltac:(mk_setter rows).
Definition set_columns : Z -> Ed -> Ed := ltac:(mk_setter columns).
Definition set_crow : Z -> Ed -> Ed := ltac:(mk_setter crow).
Definition set_ccol : Z -> Ed -> Ed := ltac:(mk_setter ccol).
Definition set_offset : Z -> Ed -> Ed := ltac:(mk_setter offset).
Definition set_refresh_old_offset : Z -> Ed -> Ed := ltac:(mk_setter refresh_old_offset).
Definition set_screen : list Z -> Ed -> Ed := ltac:(mk_setter screen).
Definition set_cursor_hidden : bool -> Ed -> Ed := ltac:(mk_setter cursor_hidden).
Definition set_have_status_msg : Z -> Ed -> Ed := ltac:(mk_setter have_status_msg).
Definition set_last_status_cksum : Z -> Ed -> Ed := ltac:(mk_setter last_status_cksum).
Definition set_format_edit_status_tot : Z -> Ed -> Ed := ltac:(mk_setter format_edit_status_tot).
Definition set_status_buffer : list Z -> Ed -> Ed := ltac:(mk_setter status_buffer).
Definition set_cur_syntax : Z -> Ed -> Ed := ltac:(mk_setter cur_syntax).
Definition set_current_filename : option (list Z) -> Ed -> Ed := ltac:(mk_setter current_filename).
Definition set_argc : Z -> Ed -> Ed := ltac:(mk_setter argc).
Definition set_vi_optind : Z -> Ed -> Ed := ltac:(mk_setter vi_optind).
Definition set_readbuffer : list Z -> Ed -> Ed := ltac:(mk_setter readbuffer).
Definition set_input : list key -> Ed -> Ed := ltac:(mk_setter input).
Definition set_out : list Z -> Ed -> Ed := ltac:(mk_setter out).
Definition set_files : list file -> Ed -> Ed := ltac:(mk_setter files).
Definition set_env : environment -> Ed -> Ed := ltac:(mk_setter env).

Definition autoindent (s : Ed) : bool := negb (Z.land (vi_setops s) VI_AUTOINDENT =? 0).
Definition expandtab (s : Ed) : bool := negb (Z.land (vi_setops s) VI_EXPANDTAB =? 0).
Definition err_method (s : Ed) : bool := negb (Z.land (vi_setops s) VI_ERR_METHOD =? 0).
Definition ignorecase (s : Ed) : bool := negb (Z.land (vi_setops s) VI_IGNORECASE =? 0).
Definition showmatch (s : Ed) : bool := negb (Z.land (vi_setops s) VI_SHOWMATCH =? 0).

(** ** Access to the text block *)
Abbreviation EM := (prog Ed).

(** Is [p, p+n) inside the block? *)
Definition in_block (s : Ed) (p n : Z) : bool :=
  (text s <=? p) && (p + n <=? text s + zlen (mem s)) && (0 <=? n).
Definition off (s : Ed) (p : Z) : nat := Z.to_nat (p - text s).

(** [*p] *)
Definition rd (p : Z) : EM Z := fun s =>
  if in_block s p 1 then
    match mem s !! off s p with Some c => Ok c s | None => Err OutOfBounds end
  else Err OutOfBounds.
(** the [n] bytes at [p] *)
Definition rd_n (p n : Z) : EM (list Z) := fun s =>
  if in_block s p n then Ok (take (Z.to_nat n) (drop (off s p) (mem s))) s
  else Err OutOfBounds.
(** memcpy into the block *)
Definition wr_n (p : Z) (bs : list Z) : EM unit := fun s =>
  if in_block s p (zlen bs) then Ok tt (set_mem (splice (off s p) bs (mem s)) s)
  else Err OutOfBounds.
Definition wr (p c : Z) : EM unit := wr_n p [c].
Definition memmove (dst src n : Z) : EM unit := bs <- rd_n src n ;; wr_n dst bs.
Definition memset (p c n : Z) : EM unit := wr_n p (replicate (Z.to_nat n) c).
(** strndup(p, n) of a string inside the block *)
Definition rd_strn (p n : Z) : EM (list Z) := fun s =>
  let bs := take (Z.to_nat n) (drop (off s p) (mem s)) in
  if in_block s p 0 && ((zlen (cstr bs) <? zlen bs) || (zlen bs =? n))
  then Ok (cstr bs) s else Err OutOfBounds.

(** realloc(text, n) and zalloc(n) of the text block. *)
Definition realloc_text (n : Z) : EM Z := fun s =>
  let k := alloc_cnt s in
  let old := length (mem s) in
  let bs := take (Z.to_nat n) (mem s) ++
            map (alloc_junk (env s) k) (seq old (Z.to_nat n - old)) in
  Ok (alloc_addr (env s) k) (set_mem bs (set_alloc_cnt (S k) s)).
Definition zalloc_text (n : Z) : EM Z := fun s =>
  let k := alloc_cnt s in
  Ok (alloc_addr (env s) k) (set_mem (replicate (Z.to_nat n) 0) (set_alloc_cnt (S k) s)).

(** Arrays of the globals: mark[i], reg[i]. *)
Definition get_mark (i : Z) : EM Z := fun s =>
  if 0 <=? i then match mark s !! Z.to_nat i with Some p => Ok p s | None => Err OutOfBounds end
  else Err OutOfBounds.
Definition set_mark_at (i p : Z) : EM unit := fun s =>
  if (0 <=? i) && (i <? zlen (mark s)) then Ok tt (set_mark (<[Z.to_nat i := p]> (mark s)) s)
  else Err OutOfBounds.
Definition get_reg (i : Z) : EM (option regval) := fun s =>
  if 0 <=? i then match reg s !! Z.to_nat i with Some r => Ok r s | None => Err OutOfBounds end
  else Err OutOfBounds.
Definition set_reg_at (i : Z) (r : option regval) : EM unit := fun s =>
  if (0 <=? i) && (i <? zlen (reg s)) then Ok tt (set_reg (<[Z.to_nat i := r]> (reg s)) s)
  else Err OutOfBounds.
Definition get_regtype (i : Z) : EM Z := fun s =>
  if 0 <=? i then match regtype s !! Z.to_nat i with Some r => Ok r s | None => Err OutOfBounds end
  else Err OutOfBounds.
Definition set_regtype_at (i t : Z) : EM unit := fun s =>
  if (0 <=? i) && (i <? zlen (regtype s)) then Ok tt (set_regtype (<[Z.to_nat i := t]> (regtype s)) s)
  else Err OutOfBounds.

(** puts_no_eol() and putchar(): append to the output. *)
Definition puts_no_eol (bs : list Z) : EM unit := modify (fun s => set_out (out s ++ bs) s).
Definition putchar (c : Z) : EM unit := puts_no_eol [u8 c].

(** index_in_strings() of vim_util.c: position of [key] in a string table. *)
Fixpoint index_in_strings_from (strings : list (list Z)) (key : list Z) (idx : Z) : Z :=
  match strings with
  | [] => -1
  | w :: strings => if streq w key then idx else index_in_strings_from strings key (idx + 1)
  end.
Definition index_in_strings (strings : list (list Z)) (key : list Z) : Z :=
  index_in_strings_from strings key 0.

(** strchrnul() of vim_util.c, as a suffix. *)
Fixpoint strchrnul (s : list Z) (c : Z) : list Z :=
  match s with
  | [] => []
  | x :: s' => if x =? c then s else strchrnul s' c
  end.

(** memrchr() of vim_util.c on the block: scan the [n] bytes at [p] backwards
    for [c], answering the address of the last match or NULL. *)
Fixpoint memrchr_down (rbs : list Z) (c p : Z) : Z :=
  match rbs with
  | [] => 0
  | b :: rbs => if b =? c then p - 1 else memrchr_down rbs c (p - 1)
  end.
Definition memrchr (p c n : Z) : EM Z :=
  bs <- rd_n p n ;; ret (memrchr_down (rev bs) (u8 c) (p + n)).
(** memchr() on the block: the first [c] in [p, p+n), or NULL. *)
Fixpoint memchr_in (bs : list Z) (c : Z) (i : Z) : Z :=
  match bs with
  | [] => 0
  | b :: bs => if b =? c then i else memchr_in bs c (i + 1)
  end.
Definition memchr (p c n : Z) : EM Z :=
  bs <- rd_n p n ;; ret (memchr_in bs (u8 c) p).
