(* ===== verification/EvimLine.v ===== *)
(** * evim: line and column navigation (vim_text.c)

    The routines of vim_text.c that only read the buffer: finding the
    beginning and the end of a line, stepping over lines, counting lines and
    computing display columns. *)
From S2P Require Import Prelude EvimState.

(** ** Text movement routines *)
Definition begin_line (p : Z) : EM Z :=
  t <- gets text ;;
  if t <? p then
    q <- memrchr t 10 (p - t) ;;
    if q =? 0 then ret t else ret (q + 1)
  else ret p.

Definition end_line (p : Z) : EM Z :=
  e <- gets endp ;;
  if p <? e - 1 then
    q <- memchr p 10 (e - p - 1) ;;
    if q =? 0 then ret (e - 1) else ret q
  else ret p.

Definition dollar_line (p : Z) : EM Z :=
  p <- end_line p ;;
  c <- rd p ;;
  if c =? 10 then
    b <- begin_line p ;;
    if 0 <? p - b then ret (p - 1) else ret p
  else ret p.

Definition prev_line (p : Z) : EM Z :=
  p <- begin_line p ;;
  t <- gets text ;;
  if t <? p then
    c <- rd (p - 1) ;;
    begin_line (if c =? 10 then p - 1 else p)
  else begin_line p.

Definition next_line (p : Z) : EM Z :=
  p <- end_line p ;;
  e <- gets endp ;;
  if p <? e - 1 then
    c <- rd p ;;
    ret (if c =? 10 then p + 1 else p)
  else ret p.

(** ** Text information routines *)
Definition end_screen : EM Z :=
  s <- get ;;
  q <- fold_n (Z.to_nat (u32 (rows s - 2))) next_line (screenbegin s) ;;
  end_line q.

Definition count_lines_body (stop : Z) (v : Z * Z) : EM (Z * Z + Z) :=
  let '(start, cnt) := v in
  e <- gets endp ;;
  if (start <=? stop) && (start <=? e - 1) then
    start <- end_line start ;;
    c <- rd start ;;
    ret (inl (start + 1, if c =? 10 then cnt + 1 else cnt))
  else ret (inr cnt).
Definition count_lines (start stop : Z) : EM Z :=
  let '(start, stop) := if stop <? start then (stop, start) else (start, stop) in
  stop <- end_line stop ;;
  e <- gets endp ;;
  iter (S (Z.to_nat (e - start))) (count_lines_body stop) (start, 0).

Definition find_line (li : Z) : EM Z :=
  t <- gets text ;; fold_n (Z.to_nat (li - 1)) next_line t.

(** tabstop is a global; it is the first argument here. *)
Definition next_tabstop (tabstop col : Z) : Z := col + ((tabstop - 1) - Z.rem col tabstop).
Definition prev_tabstop (tabstop col : Z) : Z :=
  col - (if Z.rem col tabstop =? 0 then tabstop else Z.rem col tabstop).
Definition next_column (tabstop c co : Z) : Z :=
  (if c =? 9 then next_tabstop tabstop co
   else if (c <? 32) || (c =? 0x7f) then co + 1 else co) + 1.

Definition get_column (p : Z) : EM Z :=
  b <- begin_line p ;;
  bs <- rd_n b (p - b) ;;
  ts <- gets tabstop ;;
  ret (fold_left (fun co c => next_column ts c co) bs 0).

Definition move_to_col_body (l : Z) (v : Z * Z) : EM (Z * Z + Z) :=
  let '(p, co) := v in
  c <- rd p ;;
  if c =? 10 then ret (inr p)
  else
    ts <- gets tabstop ;;
    e <- gets endp ;;
    let co := next_column ts c co in
    if co <=? l then
      (if p <? e then ret (inl (p + 1, co)) else ret (inr (p + 1)))
    else ret (inr p).
Definition move_to_col (p l : Z) : EM Z :=
  p <- begin_line p ;;
  e <- gets endp ;;
  iter (S (S (Z.to_nat (e - p)))) (move_to_col_body l) (p, 0).

(** find number of characters in indent, p must be at beginning of line *)
Definition indent_len_body (v : Z) : EM (Z + Z) :=
  e <- gets endp ;;
  if v <? e - 1 then
    c <- rd v ;;
    if isblank c then ret (inl (v + 1)) else ret (inr v)
  else ret (inr v).
Definition indent_len (p : Z) : EM Z :=
  e <- gets endp ;;
  r <- iter (S (Z.to_nat (e - p))) indent_len_body p ;;
  ret (r - p).

(** ** Pair matching and searching *)
Definition braces : list Z := str "()[]{}".
(** Position of [c] in [braces]; the terminating NUL is position 6. *)
Definition brace_index (c : Z) : option Z :=
  if c =? 0 then Some 6 else
  match list_find (fun x => x = c) braces with
  | Some (i, _) => Some (Z.of_nat i)
  | None => None
  end.
Definition find_pair_body (c match_ dir : Z) (v : Z * Z) : EM (Z * Z + Z) :=
  let '(p, level) := v in
  let p := p + dir in
  t <- gets text ;; e <- gets endp ;;
  if (p <? t) || (e <=? p) then ret (inr 0)
  else
    x <- rd p ;;
    let level := if x =? c then level + 1 else level in
    if x =? match_ then
      (if level - 1 =? 0 then ret (inr p) else ret (inl (p, level - 1)))
    else ret (inl (p, level)).
Definition find_pair (p c : Z) : EM Z :=
  i <- lift NullDeref (brace_index c) ;;
  let m := Z.lxor i 1 in
  match_ <- lift OutOfBounds (braces !! Z.to_nat m) ;;
  let dir := Z.shiftl (Z.land m 1) 1 - 1 in
  s <- get ;;
  iter (S (Z.to_nat (endp s - text s))) (find_pair_body c match_ dir) (p, 1).

(** strncmp()/strncasecmp() of the bytes at [p] with the C string [pat], over
    [strlen(pat)] characters; memory is read only up to the first difference. *)
Fixpoint mycmp (ic : bool) (p : Z) (pat : list Z) : EM bool :=
  match pat with
  | [] => ret true
  | x :: pat =>
      c <- rd p ;;
      if (if ic then tolower c =? tolower x else c =? x) then mycmp ic (p + 1) pat
      else ret false
  end.
Definition search_fwd_body (ic : bool) (pat : list Z) (stop : Z) (start : Z) : EM (Z + Z) :=
  if start <? stop then
    m <- mycmp ic start pat ;;
    if m then ret (inr start) else ret (inl (start + 1))
  else ret (inr 0).
Definition search_back_body (ic : bool) (pat : list Z) (stop : Z) (start : Z) : EM (Z + Z) :=
  if stop <=? start then
    m <- mycmp ic start pat ;;
    if m then ret (inr start) else ret (inl (start - 1))
  else ret (inr 0).
Definition char_search (p : Z) (pat : list Z) (dir_and_range : Z) : EM Z :=
  s <- get ;;
  let len := zlen pat in
  let range := Z.land dir_and_range 1 in
  if 0 <? dir_and_range then
    stop <- (if range =? LIMITED then next_line p else ret (endp s - 1)) ;;
    iter (S (Z.to_nat (stop - p))) (search_fwd_body (ignorecase s) pat stop) p
  else
    stop <- (if range =? LIMITED then prev_line p else ret (text s)) ;;
    iter (S (Z.to_nat (p - len - stop + 1))) (search_back_body (ignorecase s) pat stop) (p - len).

(** ** Word motion tests (vim_cmd.c) *)
Definition st_test (p type dir : Z) : EM (bool * Z) :=
  c0 <- rd p ;;
  ci <- rd (p + dir) ;;
  if type =? S_BEFORE_WS then ret (negb (isspace ci) || (ci =? 10), ci)
  else if type =? S_TO_WS then ret (negb (isspace c0) || (c0 =? 10), c0)
  else if type =? S_OVER_WS then ret (isspace c0, c0)
  else if type =? S_END_PUNCT then ret (ispunct ci, ci)
  else if type =? S_END_ALNUM then ret (isalnum ci || (ci =? 95), ci)
  else ret (false, c0).

Definition skip_thing_body (dir type : Z) (v : Z * Z) : EM (Z * Z + Z) :=
  let '(p, linecnt) := v in
  t <- st_test p type dir ;;
  let '(test, c) := (t : bool * Z) in
  if test then
    let nl := c =? 10 in
    let linecnt := if nl then linecnt - 1 else linecnt in
    if nl && (linecnt <? 1) then ret (inr p)
    else
      s <- get ;;
      if (0 <=? dir) && (endp s - 1 <=? p) then ret (inr p)
      else if (dir <? 0) && (p <=? text s) then ret (inr p)
      else ret (inl (p + dir, linecnt))
  else ret (inr p).
Definition skip_thing (p linecnt dir type : Z) : EM Z :=
  s <- get ;;
  iter (S (Z.to_nat (endp s - text s))) (skip_thing_body dir type) (p, linecnt).

(** does 's' point to end of file, even with no terminating newline? *)
Definition at_eof (p : Z) : EM bool :=
  e <- gets endp ;;
  if p =? e - 2 then
    c <- rd (p + 1) ;; ret ((c =? 10) || (p =? e - 1))
  else ret (p =? e - 1).
