(* ===== verification/EvimSyntax.v ===== *)
(** * evim: syntax highlighting (vim_syntax.c)

    Every colouring function runs on the array [col] of per-column colours as
    its state, so that a write outside the array is a fault.  [s] is the line
    on the screen and [n] its number of columns; every read of [s] in the code
    is guarded by an index test against [n]. *)
From S2P Require Import Prelude EvimState.

(** ** Colour ids and their SGR sequences *)
Definition C_DEFAULT : Z := 0.
Definition C_STRING : Z := 1.
Definition C_KEY : Z := 2.
Definition C_NUMBER : Z := 3.
Definition C_LITERAL : Z := 4.
Definition C_BRACE : Z := 5.
Definition C_COMMENT : Z := 6.
Definition C_CMD : Z := 7.
Definition C_PATH : Z := 8.
Definition C_OPER : Z := 9.
Definition C_COUNT : Z := 10.
Definition sgr_seq : list (list Z) :=
  [27 :: str "[m"; 27 :: str "[32m"; 27 :: str "[1;36m"; 27 :: str "[35m"; 27 :: str "[33m";
   27 :: str "[1;37m"; 27 :: str "[1;30m"; 27 :: str "[1;32m"; 27 :: str "[36m"; 27 :: str "[31m"].

(** the part of a name from its last '.', or NULL: strrchr(fn, '.') *)
Fixpoint strrchr_dot (s : list Z) : option (list Z) :=
  match s with
  | [] => None
  | c :: s' => match strrchr_dot s' with
               | Some e => Some e
               | None => if c =? 46 then Some s else None
               end
  end.
Definition syntax_of_name (fn : list Z) : Z :=
  match strrchr_dot fn with
  | None => SYNTAX_NONE
  | Some ext =>
      if streq ext (str ".json") then SYNTAX_JSON
      else if streq ext (str ".rd") then SYNTAX_RD
      else if streq ext (str ".conf") then SYNTAX_CONF
      else if streq ext (str ".js") then SYNTAX_JS
      else if streq ext (str ".c") || streq ext (str ".h") || streq ext (str ".cc")
           || streq ext (str ".cpp") || streq ext (str ".cxx") || streq ext (str ".hpp")
      then SYNTAX_C
      else SYNTAX_NONE
  end.
Definition syntax_set_file (fn : option (list Z)) : EM unit :=
  modify (set_cur_syntax (match fn with None => SYNTAX_NONE | Some fn => syntax_of_name fn end)).

(** ** Scanning and painting *)
Definition at_ (s : list Z) (i : Z) : Z := nth0 (Z.to_nat i) s.
Definition slice (s : list Z) (i j : Z) : list Z := take (Z.to_nat (j - i)) (drop (Z.to_nat i) s).
Definition blank (c : Z) : bool := (c =? 32) || (c =? 9).

(** [while (j < n && p(s[j])) j++]; the loop runs at most [n - j] times. *)
Fixpoint scan_go (fuel : nat) (p : Z -> bool) (s : list Z) (n j : Z) : Z :=
  match fuel with
  | O => j
  | S f => if (j <? n) && p (at_ s j) then scan_go f p s n (j + 1) else j
  end.
Definition scan (p : Z -> bool) (s : list Z) (n j : Z) : Z := scan_go (Z.to_nat (n - j)) p s n j.

(** [while (k >= i && blank(s[k])) k--] *)
Fixpoint rscan_go (fuel : nat) (s : list Z) (i k : Z) : Z :=
  match fuel with
  | O => k
  | S f => if (i <=? k) && blank (at_ s k) then rscan_go f s i (k - 1) else k
  end.
Definition rscan (s : list Z) (i k : Z) : Z := rscan_go (Z.to_nat (k - i + 1)) s i k.

(** to the closing quote [q], skipping escaped characters *)
Fixpoint scan_quote_go (fuel : nat) (q : Z) (s : list Z) (n j : Z) : Z :=
  match fuel with
  | O => j
  | S f =>
      if (j <? n) && negb (at_ s j =? q) then
        let j := if (at_ s j =? 92) && (j + 1 <? n) then j + 1 else j in
        scan_quote_go f q s n (j + 1)
      else j
  end.
Definition scan_quote (q : Z) (s : list Z) (n j : Z) : Z := scan_quote_go (Z.to_nat (n - j)) q s n j.

(** to the "*/" of a block comment *)
Fixpoint scan_block_go (fuel : nat) (s : list Z) (n j : Z) : Z :=
  match fuel with
  | O => j
  | S f =>
      if (j + 1 <? n) && negb ((at_ s j =? 42) && (at_ s (j + 1) =? 47)) then scan_block_go f s n (j + 1)
      else j
  end.
Definition scan_block (s : list Z) (n j : Z) : Z := scan_block_go (Z.to_nat (n - j)) s n j.

Abbreviation CM := (prog (list Z)).
(** [col[i] = cl] *)
Definition set_col (i cl : Z) : CM unit := fun col =>
  if (0 <=? i) && (i <? zlen col) then Ok tt (<[Z.to_nat i := cl]> col) else Err OutOfBounds.
(** [while (from <= to) col[from++] = cl] *)
Fixpoint paint_go (fuel : nat) (from cl : Z) : CM unit :=
  match fuel with O => ret tt | S f => set_col from cl ;; paint_go f (from + 1) cl end.
Definition paint (from to cl : Z) : CM unit := paint_go (Z.to_nat (to - from + 1)) from cl.

(** A scanner loop [while (i < n) i = token(i)]; [None] is an early return. *)
Definition scan_body (n : Z) (token : Z -> CM (option Z)) (i : Z) : CM (Z + unit) :=
  if i <? n then
    r <- token i ;;
    match r with Some i => ret (inl i) | None => ret (inr tt) end
  else ret (inr tt).
Definition scan_loop (n : Z) (token : Z -> CM (option Z)) (i : Z) : CM unit :=
  iter (S (Z.to_nat (n - i))) (scan_body n token) i.

Definition is_brace2 (c : Z) : bool := (c =? 123) || (c =? 125) || (c =? 91) || (c =? 93).
Definition is_brace3 (c : Z) : bool := is_brace2 c || (c =? 40) || (c =? 41).
Definition operators : list Z := str "+-*/%=<>!&|?:~^".

(** ** JSON *)
Definition json_number_char (c : Z) : bool :=
  isdigit c || (c =? 46) || (c =? 101) || (c =? 69) || (c =? 43) || (c =? 45).
Definition json_token (s : list Z) (n i : Z) : CM (option Z) :=
  let c := at_ s i in
  if c =? 34 then
    let j := scan_quote 34 s n (i + 1) in
    let e := if j <? n then j else n - 1 in
    let k := scan blank s n (if j <? n then j + 1 else n) in
    paint i e (if (k <? n) && (at_ s k =? 58) then C_KEY else C_STRING) ;;
    ret (Some (e + 1))
  else if is_brace2 c then set_col i C_BRACE ;; ret (Some (i + 1))
  else if isdigit c || ((c =? 45) && (i + 1 <? n) && isdigit (at_ s (i + 1))) then
    let j := scan json_number_char s n (i + 1) in
    paint i (j - 1) C_NUMBER ;; ret (Some j)
  else if isalpha c then
    let j := scan isalpha s n i in
    let w := slice s i j in
    when (streq w (str "true") || streq w (str "false") || streq w (str "null"))
      (paint i (j - 1) C_LITERAL) ;;
    ret (Some j)
  else ret (Some (i + 1)).
Definition color_json (s : list Z) (n : Z) : CM unit := scan_loop n (json_token s n) 0.

(** ** .rd init scripts *)
Definition rd_oper (c : Z) : bool := (c =? 124) || (c =? 62) || (c =? 60) || (c =? 38).
Definition rd_token (s : list Z) (n i : Z) : CM (option Z) :=
  let c := at_ s i in
  if blank c then ret (Some (i + 1))
  else if rd_oper c then set_col i C_OPER ;; ret (Some (i + 1))
  else if c =? 34 then
    let q := scan (fun x => negb (x =? 34)) s n (i + 1) in
    let e := if q <? n then q else n - 1 in
    paint i e C_STRING ;; ret (Some (e + 1))
  else
    let t := scan (fun x => negb (blank x) && negb (rd_oper x)) s n i in
    let cl := if (c =? 47) || ((c =? 46) && (i + 1 <? n) && (at_ s (i + 1) =? 47)) then C_PATH
              else if c =? 36 then C_LITERAL
              else if isdigit c then C_NUMBER
              else C_DEFAULT in
    paint i (t - 1) cl ;; ret (Some t).
Definition color_rd (s : list Z) (n : Z) : CM unit :=
  if (0 <? n) && (at_ s 0 =? 35) then paint 0 (n - 1) C_COMMENT
  else
    i <- (if (0 <? n) && (at_ s 0 =? 64) then set_col 0 C_OPER ;; ret 1 else ret 0) ;;
    let i := scan blank s n i in
    let j := scan (fun x => negb (blank x)) s n i in
    paint i (j - 1) C_CMD ;;
    scan_loop n (rd_token s n) j.

(** ** .conf key=value files *)
Definition conf_number_char (c : Z) : bool := isdigit c || (c =? 46) || (c =? 45) || (c =? 43).
Definition color_conf (s : list Z) (n : Z) : CM unit :=
  let i := scan blank s n 0 in
  if (i <? n) && (at_ s i =? 35) then paint i (n - 1) C_COMMENT
  else
    let j := scan (fun x => negb (x =? 61) && negb (x =? 35)) s n i in
    let ke := rscan s i (j - 1) in
    when (i <=? ke) (paint i ke C_KEY) ;;
    if (j <? n) && negb (at_ s j =? 61) && (at_ s j =? 35) then paint j (n - 1) C_COMMENT
    else
      i <- (if (j <? n) && (at_ s j =? 61) then set_col j C_OPER ;; ret (j + 1) else ret j) ;;
      let i := scan blank s n i in
      let v := scan (fun x => negb (x =? 35)) s n i in
      let ve := rscan s i (v - 1) in
      when (i <=? ve)
        (paint i ve (if forallb conf_number_char (slice s i (ve + 1)) then C_NUMBER else C_STRING)) ;;
      when ((v <? n) && (at_ s v =? 35)) (paint v (n - 1) C_COMMENT).

(** ** JavaScript *)
Definition js_keywords : list (list Z) :=
  [str "async"; str "await"; str "break"; str "case"; str "catch"; str "class"; str "const";
   str "continue"; str "debugger"; str "default"; str "delete"; str "do"; str "else"; str "export";
   str "extends"; str "finally"; str "for"; str "function"; str "get"; str "if"; str "import";
   str "in"; str "instanceof"; str "let"; str "new"; str "of"; str "return"; str "set";
   str "static"; str "super"; str "switch"; str "throw"; str "try"; str "typeof"; str "var";
   str "void"; str "while"; str "with"; str "yield"].
Definition js_literals : list (list Z) :=
  [str "true"; str "false"; str "null"; str "undefined"; str "NaN"; str "Infinity"; str "this"].
(** does the token s[i..j-1] exactly match one of the words? *)
Definition word_in (s : list Z) (i j : Z) (words : list (list Z)) : bool :=
  existsb (fun w => (zlen w =? j - i) && prefixb w (drop (Z.to_nat i) s)) words.

(** the end of a decimal, exponent or hexadecimal number that starts at [i] *)
Definition number_end (s : list Z) (n i : Z) : Z :=
  let j := i + 1 in
  if (at_ s i =? 48) && (j <? n) && ((at_ s j =? 120) || (at_ s j =? 88)) then
    scan isxdigit s n (j + 1)
  else
    let j := scan (fun x => isdigit x || (x =? 46)) s n j in
    if (j <? n) && ((at_ s j =? 101) || (at_ s j =? 69)) then
      let j := j + 1 in
      let j := if (j <? n) && ((at_ s j =? 43) || (at_ s j =? 45)) then j + 1 else j in
      scan isdigit s n j
    else j.
(** same-line portion of a block comment that opens at [i] *)
Definition comment_end (s : list Z) (n i : Z) : Z :=
  let j := scan_block s n (i + 2) in
  if j + 1 <? n then j + 1 else n - 1.
Definition js_ident_char (c : Z) : bool := isalnum c || (c =? 95) || (c =? 36).

Definition js_token (s : list Z) (n i : Z) : CM (option Z) :=
  let c := at_ s i in
  if (c =? 47) && (i + 1 <? n) && (at_ s (i + 1) =? 47) then
    paint i (n - 1) C_COMMENT ;; ret None
  else if (c =? 47) && (i + 1 <? n) && (at_ s (i + 1) =? 42) then
    let e := comment_end s n i in
    paint i e C_COMMENT ;; ret (Some (e + 1))
  else if (c =? 34) || (c =? 39) || (c =? 96) then
    let j := scan_quote c s n (i + 1) in
    let e := if j <? n then j else n - 1 in
    paint i e C_STRING ;; ret (Some (e + 1))
  else if isdigit c then
    let j := number_end s n i in
    paint i (j - 1) C_NUMBER ;; ret (Some j)
  else if isalpha c || (c =? 95) || (c =? 36) then
    let j := scan js_ident_char s n i in
    (if word_in s i j js_literals then paint i (j - 1) C_LITERAL
     else if word_in s i j js_keywords then paint i (j - 1) C_KEY
     else
       let k := scan blank s n j in
       when ((k <? n) && (at_ s k =? 40)) (paint i (j - 1) C_CMD)) ;;
    ret (Some j)
  else if is_brace3 c then set_col i C_BRACE ;; ret (Some (i + 1))
  else if strchr_in operators c then set_col i C_OPER ;; ret (Some (i + 1))
  else ret (Some (i + 1)).
Definition color_js (s : list Z) (n : Z) : CM unit := scan_loop n (js_token s n) 0.

(** ** C sources *)
Definition c_keywords : list (list Z) :=
  [str "auto"; str "break"; str "case"; str "const"; str "continue"; str "default"; str "do";
   str "else"; str "enum"; str "extern"; str "for"; str "goto"; str "if"; str "inline";
   str "register"; str "restrict"; str "return"; str "sizeof"; str "static"; str "struct";
   str "switch"; str "typedef"; str "union"; str "volatile"; str "while"].
Definition c_types : list (list Z) :=
  [str "bool"; str "char"; str "double"; str "float"; str "int"; str "long"; str "short";
   str "signed"; str "unsigned"; str "void"; str "size_t"; str "ssize_t"; str "ptrdiff_t";
   str "intptr_t"; str "uintptr_t"; str "int8_t"; str "int16_t"; str "int32_t"; str "int64_t";
   str "uint8_t"; str "uint16_t"; str "uint32_t"; str "uint64_t"; str "intptr_t"; str "FILE"].
Definition c_literals : list (list Z) := [str "NULL"; str "true"; str "false"; str "EOF"].
Definition c_ident_char (c : Z) : bool := isalnum c || (c =? 95).

(** a preprocessor directive: where the scan of the rest of the line starts *)
Definition c_directive (s : list Z) (n : Z) : CM Z :=
  let j := scan blank s n 0 in
  if (j <? n) && (at_ s j =? 35) then
    set_col j C_CMD ;;
    let j := j + 1 in
    let k := scan isalpha s n j in
    paint j (k - 1) C_CMD ;;
    i <- (if (k - j =? 7) && streq (slice s j k) (str "include") then
            let q := scan blank s n k in
            if (q <? n) && (at_ s q =? 60) then
              let e := scan (fun x => negb (x =? 62)) s n (q + 1) in
              let e := if n <=? e then n - 1 else e in
              paint q e C_STRING ;; ret (e + 1)
            else ret 0
          else ret 0) ;;
    ret (if i =? 0 then k else i)
  else ret 0.

Definition c_token (s : list Z) (n i : Z) : CM (option Z) :=
  let c := at_ s i in
  if (c =? 47) && (i + 1 <? n) && (at_ s (i + 1) =? 47) then
    paint i (n - 1) C_COMMENT ;; ret None
  else if (c =? 47) && (i + 1 <? n) && (at_ s (i + 1) =? 42) then
    let e := comment_end s n i in
    paint i e C_COMMENT ;; ret (Some (e + 1))
  else if (c =? 34) || (c =? 39) then
    let q := scan_quote c s n (i + 1) in
    let e := if q <? n then q else n - 1 in
    paint i e C_STRING ;; ret (Some (e + 1))
  else if isdigit c then
    let q := scan (strchr_in (str "uUlLfF")) s n (number_end s n i) in
    paint i (q - 1) C_NUMBER ;; ret (Some q)
  else if isalpha c || (c =? 95) then
    let q := scan c_ident_char s n i in
    (if word_in s i q c_literals then paint i (q - 1) C_LITERAL
     else if word_in s i q c_keywords then paint i (q - 1) C_KEY
     else if word_in s i q c_types then paint i (q - 1) C_PATH
     else
       let k := scan blank s n q in
       when ((k <? n) && (at_ s k =? 40)) (paint i (q - 1) C_CMD)) ;;
    ret (Some q)
  else if is_brace3 c then set_col i C_BRACE ;; ret (Some (i + 1))
  else if strchr_in operators c then set_col i C_OPER ;; ret (Some (i + 1))
  else ret (Some (i + 1)).
Definition color_c (s : list Z) (n : Z) : CM unit :=
  i <- c_directive s n ;;
  scan_loop n (c_token s n) i.

(** ** Writing a slice of a screen line *)
(** a line past the end of the file shows as '~' followed by spaces *)
Definition is_filler_line (s : list Z) (n : Z) : bool :=
  if (n <? 1) || negb (at_ s 0 =? 126) then false
  else forallb (fun c => c =? 32) (slice s 1 n).

(** size of col_buf[MAX_SCR_COLS + MAX_TABSTOP * 2] *)
Definition col_buf_size : Z := MAX_SCR_COLS + MAX_TABSTOP * 2.

(** the colours of a line, as col_buf holds them after colouring *)
Definition color_line (syntax : Z) (vline : list Z) (n : Z) : outcome (list Z) unit :=
  if n <=? col_buf_size then
    (if syntax =? SYNTAX_JSON then color_json vline n
     else if syntax =? SYNTAX_CONF then color_conf vline n
     else if syntax =? SYNTAX_JS then color_js vline n
     else if syntax =? SYNTAX_C then color_c vline n
     else color_rd vline n) (replicate (Z.to_nat n) C_DEFAULT)
  else Err OutOfBounds.

(** one column of the output loop; the state is (cur, cur_sel) *)
Definition write_col (vline : list Z) (sel : option (list Z)) (colors : option (list Z))
    (i : Z) (st : Z * Z) : EM (Z * Z) :=
  let '(cur, cur_sel) := st in
  let s := match sel with Some m => at_ m i | None => 0 end in
  st <- (if negb (s =? cur_sel) then
           puts_no_eol ESC_NORM_TEXT ;;
           when (negb (s =? 0)) (puts_no_eol ESC_BOLD_TEXT) ;;
           ret (-1, s)
         else ret (cur, cur_sel)) ;;
  let '(cur, cur_sel) := (st : Z * Z) in
  cur <- (match colors with
          | Some col =>
              if s =? 0 then
                let cl := at_ col i in
                if negb (cl =? cur) then
                  q <- lift OutOfBounds (sgr_seq !! Z.to_nat cl) ;;
                  puts_no_eol q ;; ret cl
                else ret cur
              else ret cur
          | None => ret cur
          end) ;;
  putchar (at_ vline i) ;;
  ret (cur, cur_sel).
Fixpoint write_cols (fuel : nat) (vline : list Z) (sel colors : option (list Z))
    (i : Z) (st : Z * Z) : EM (Z * Z) :=
  match fuel with
  | O => ret st
  | S f => st <- write_col vline sel colors i st ;; write_cols f vline sel colors (i + 1) st
  end.

Definition syntax_write_slice (vline : list Z) (from to : Z) (sel : option (list Z)) : EM unit :=
  s <- get ;;
  let n := columns s in
  let to := if n <=? to then n - 1 else to in
  if to <? from then ret tt
  else
    let colored := negb (cur_syntax s =? SYNTAX_NONE) && negb (is_filler_line vline n) in
    colors <- (if colored then
                 match color_line (cur_syntax s) vline n with
                 | Ok _ col => ret (Some col)
                 | Err f => raise f
                 end
               else ret None) ;;
    st <- write_cols (Z.to_nat (to - from + 1)) vline sel colors from (-1, 0) ;;
    let '(cur, cur_sel) := (st : Z * Z) in
    when (negb (cur_sel =? 0) || (C_DEFAULT <? cur)) (puts_no_eol ESC_NORM_TEXT).
