(* ===== verification/EvimInput.v ===== *)
(** * evim: keyboard input (vim_input.c)

    Decoding of escape sequences, the one-character reader with its recording
    and replaying of commands, and counts in front of a motion. *)
From S2P Require Import Prelude EvimState.

(** safe_poll(): one byte from stdin.  A negative timeout blocks; a bounded
    wait gives up on a [Pause].  Answers (status, byte). *)
Fixpoint blocking_read (l : list key) : option (Z * Z * list key) :=
  match l with
  | [] => None
  | Key b :: l => Some (1, b, l)
  | ReadErr :: l => Some (-1, 0, l)
  | Pause :: l => blocking_read l
  end.
Definition safe_poll (timeout : Z) : EM (Z * Z) := fun s =>
  if 0 <=? timeout then
    match input s with
    | Key b :: l => Ok (1, b) (set_input l s)
    | ReadErr :: l => Ok (-1, 0) (set_input l s)
    | Pause :: _ | [] => Ok (0, 0) s
    end
  else
    match blocking_read (input s) with
    | Some (r, b, l) => Ok (r, b) (set_input l s)
    | None => Err Blocked
    end.

Definition ESC_SEQ_TIMEOUT_MS : Z := 50.

(** esccmds[]: the last byte of a sequence has bit 7 set and is followed by
    its keycode. *)
Definition esc1 (b k : Z) : list Z := [Z.lor b 0x80; u8 k].
Definition esc2 (a b k : Z) : list Z := [a; Z.lor b 0x80; u8 k].
Definition esc3 (a b c k : Z) : list Z := [a; b; Z.lor c 0x80; u8 k].
Definition esc5 (a b c d e k : Z) : list Z := [a; b; c; d; Z.lor e 0x80; u8 k].
Definition esccmds : list Z := Eval vm_compute in
  esc1 0x7f KEYCODE_ALT_BACKSPACE ++ esc1 8 KEYCODE_ALT_BACKSPACE ++ esc1 (ch "d") KEYCODE_ALT_D ++
  esc1 (ch "f") KEYCODE_ALT_RIGHT ++ esc1 (ch "b") KEYCODE_ALT_LEFT ++
  esc2 (ch "O") (ch "A") KEYCODE_UP ++ esc2 (ch "O") (ch "B") KEYCODE_DOWN ++
  esc2 (ch "O") (ch "C") KEYCODE_RIGHT ++ esc2 (ch "O") (ch "D") KEYCODE_LEFT ++
  esc2 (ch "O") (ch "H") KEYCODE_HOME ++ esc2 (ch "O") (ch "F") KEYCODE_END ++
  esc2 (ch "[") (ch "A") KEYCODE_UP ++ esc2 (ch "[") (ch "B") KEYCODE_DOWN ++
  esc2 (ch "[") (ch "C") KEYCODE_RIGHT ++ esc2 (ch "[") (ch "D") KEYCODE_LEFT ++
  esc2 (ch "[") (ch "H") KEYCODE_HOME ++ esc2 (ch "[") (ch "F") KEYCODE_END ++
  esc3 (ch "[") (ch "1") (ch "~") KEYCODE_HOME ++ esc3 (ch "[") (ch "2") (ch "~") KEYCODE_INSERT ++
  esc3 (ch "[") (ch "3") (ch "~") KEYCODE_DELETE ++ esc3 (ch "[") (ch "4") (ch "~") KEYCODE_END ++
  esc3 (ch "[") (ch "5") (ch "~") KEYCODE_PAGEUP ++ esc3 (ch "[") (ch "6") (ch "~") KEYCODE_PAGEDOWN ++
  esc3 (ch "[") (ch "7") (ch "~") KEYCODE_HOME ++ esc3 (ch "[") (ch "8") (ch "~") KEYCODE_END ++
  esc5 (ch "[") (ch "1") (ch ";") (ch "5") (ch "C") KEYCODE_CTRL_RIGHT ++
  esc5 (ch "[") (ch "1") (ch ";") (ch "5") (ch "D") KEYCODE_CTRL_LEFT ++
  esc5 (ch "[") (ch "1") (ch ";") (ch "3") (ch "C") KEYCODE_ALT_RIGHT ++
  esc5 (ch "[") (ch "1") (ch ";") (ch "3") (ch "D") KEYCODE_ALT_LEFT ++ [0].

(** buffer[i] of read_key(), which is readbuffer[i + 1]; buffer[-1] is the count *)
Definition get_rb (i : Z) : EM Z := fun s =>
  match (if 0 <=? i + 1 then readbuffer s !! Z.to_nat (i + 1) else None) with
  | Some b => Ok b s
  | None => Err OutOfBounds
  end.
Definition set_rb (i v : Z) : EM unit := fun s =>
  if (0 <=? i + 1) && (i + 1 <? zlen (readbuffer s))
  then Ok tt (set_readbuffer (<[Z.to_nat (i + 1) := u8 v]> (readbuffer s)) s) else Err OutOfBounds.
(** memmove(buffer, buffer + 1, n) *)
Definition shift_rb (n : Z) : EM unit := fun s =>
  if (0 <=? n) && (n + 2 <=? zlen (readbuffer s))
  then Ok tt (set_readbuffer
    (splice 1 (take (Z.to_nat n) (drop 2 (readbuffer s))) (readbuffer s)) s)
  else Err OutOfBounds.

(** after a mismatch at the head of [seq]: forward past the end of the sequence *)
Fixpoint next_seq (seq : list Z) : option (list Z) :=
  match seq with
  | [] => None
  | x :: seq' => if Z.land x 0x80 =? 0 then next_seq seq' else Some (drop 1 seq')
  end.

Inductive match_result :=
  | Matched (keycode : Z)            (** return from read_key() *)
  | NextSeq (seq : list Z) (n : Z).  (** try the next sequence, n bytes read *)

(** compare the bytes from position [i] on with [seq], reading more as needed *)
Fixpoint match_seq (seq : list Z) (i n : Z) : EM match_result :=
  match seq with
  | [] => oob
  | x :: seq' =>
      r <- (if n <=? i then
              p <- safe_poll ESC_SEQ_TIMEOUT_MS ;;
              let '(st, b) := (p : Z * Z) in
              if st <=? 0 then ret (inr (if n =? 0 then 27 else -1))
              else set_rb n b ;; ret (inl (n + 1))
            else ret (inl n)) ;;
      match (r : Z + Z) with
      | inr c => ret (Matched c)
      | inl n =>
          b <- get_rb i ;;
          if negb (b =? Z.land x 0x7f) then
            rest <- lift OutOfBounds (next_seq seq) ;; ret (NextSeq rest n)
          else if negb (Z.land x 0x80 =? 0) then
            match seq' with
            | k :: _ => set_rb (-1) 0 ;; ret (Matched (i8 k))
            | [] => oob
            end
          else match_seq seq' (i + 1) n
      end
  end.

(** loop through the known sequences; [inr n]: none matched, n bytes read *)
Definition esc_body (v : list Z * Z) : EM ((list Z * Z) + (Z + Z)) :=
  let '(seq, n) := v in
  match seq with
  | [] => oob
  | x :: _ =>
      if x =? 0 then ret (inr (inr n))
      else
        r <- match_seq seq 0 n ;;
        match r with
        | Matched c => ret (inr (inl c))
        | NextSeq seq n => ret (inl (seq, n))
        end
  end.
Definition esc_loop (n : Z) : EM (Z + Z) := iter (S (length esccmds)) esc_body (esccmds, n).

(** read_key(); [goto start_over] is a recursive call, each one having
    consumed input. *)
Fixpoint read_key_go (fuel : nat) (timeout : Z) : EM Z :=
  match fuel with
  | O => raise NoFuel
  | S fuel =>
      n <- get_rb (-1) ;;
      n <- (if n =? 0 then
              p <- safe_poll timeout ;;
              let '(st, b) := (p : Z * Z) in
              when (0 <? st) (set_rb 0 b) ;; ret st
            else ret n) ;;
      if n <=? 0 then ret (-1)
      else
        c <- get_rb 0 ;;
        let n := n - 1 in
        when (negb (n =? 0)) (shift_rb n) ;;
        if negb (c =? 27) then set_rb (-1) n ;; ret c
        else
          r <- esc_loop n ;;
          match r with
          | inl c => ret c
          | inr n =>
              if n <=? 1 then set_rb (-1) n ;; ret 27
              else set_rb (-1) 0 ;; read_key_go fuel timeout
          end
  end.
Definition read_key (timeout : Z) : EM Z :=
  s <- get ;; read_key_go (S (S (length (input s)))) timeout.
Definition readit : EM Z := read_key (-1).

Definition get_one_char : EM Z :=
  s <- get ;;
  if negb (adding2q s) then
    (if ioq_start s then
       match ioq s with
       | c :: rest => modify (set_ioq rest) ;; ret (u8 c)
       | [] => modify (set_ioq_start false) ;; readit
       end
     else readit)
  else
    c <- readit ;;
    s <- get ;;
    (if MAX_INPUT_LEN - 2 <=? lmc_len s then
       modify (fun s => set_lmc_len 0 (set_adding2q false s))
     else
       modify (fun s => set_lmc_len (lmc_len s + 1)
                (set_last_modifying_cmd (<[Z.to_nat (lmc_len s) := u8 c]> (last_modifying_cmd s)) s))) ;;
    ret c.

Definition count_body (v : Z * Z) : EM (Z * Z + Z * Z) :=
  let '(cnt, c) := v in
  if isdigit c then
    c' <- get_one_char ;; ret (inl (i32 (cnt * 10 + (c - 48)), c'))
  else ret (inr (cnt, c)).
Definition get_motion_char : EM Z :=
  c <- get_one_char ;;
  if isdigit c then
    if negb (c =? 48) then
      s <- get ;;
      r <- iter (S (length (input s) + length (ioq s) + length (readbuffer s))) count_body (0, c) ;;
      let '(cnt, c) := (r : Z * Z) in
      modify (fun s => set_cmdcnt (i32 ((if cmdcnt s =? 0 then 1 else cmdcnt s) * cnt)) s) ;;
      ret c
    else modify (set_cmdcnt 0) ;; ret c
  else ret c.
