(* ===== verification/EvimTerm.v ===== *)
(** * evim: terminal drawing, screen refresh and the status line (vim_term.c)

    The virtual screen, the formatting of a text line into screen columns, the
    redraw of the columns that changed, the visual selection mask and the
    messages of the status line; also get_input_line() of vim_input.c, which
    draws. *)
From S2P Require Import Prelude EvimState EvimLine EvimSyntax EvimInput.

(** ** Cursor and erasing *)
Definition clamp_row (rows row : Z) : Z :=
  let row := if row <? 0 then 0 else row in if rows <=? row then rows - 1 else row.
Definition place_cursor (row col : Z) : EM unit :=
  s <- get ;;
  let row := clamp_row (rows s) row in
  let col := clamp_row (columns s) col in
  puts_no_eol (27 :: 91 :: dec (row + 1) ++ 59 :: dec (col + 1) ++ [72]).
Definition hide_cursor : EM unit :=
  s <- get ;;
  if cursor_hidden s then ret tt
  else modify (set_cursor_hidden true) ;; puts_no_eol ESC_CURSOR_HIDE.
Definition show_cursor : EM unit :=
  s <- get ;;
  if cursor_hidden s then modify (set_cursor_hidden false) ;; puts_no_eol ESC_CURSOR_SHOW
  else ret tt.
Definition clear_to_eol : EM unit := puts_no_eol ESC_CLEAR2EOL.
Definition go_bottom_and_clear_to_eol : EM unit :=
  s <- get ;; place_cursor (rows s - 1) 0 ;; clear_to_eol.
Definition standout_start : EM unit := puts_no_eol ESC_BOLD_TEXT.
Definition standout_end : EM unit := puts_no_eol ESC_NORM_TEXT.

(** ** The virtual screen *)
Definition screen_erase : EM unit :=
  modify (fun s => set_screen (replicate (length (screen s)) 32) s).
Definition wr_screen (i : Z) (bs : list Z) : EM unit := fun s =>
  if (0 <=? i) && (i + zlen bs <=? zlen (screen s))
  then Ok tt (set_screen (splice (Z.to_nat i) bs (screen s)) s) else Err OutOfBounds.
Definition rd_screen (i n : Z) : EM (list Z) := fun s =>
  if (0 <=? i) && (0 <=? n) && (i + n <=? zlen (screen s))
  then Ok (take (Z.to_nat n) (drop (Z.to_nat i) (screen s))) s else Err OutOfBounds.
(** the rows of a new screen start with a tilde, but for the first and last *)
Definition new_screen (ro co : Z) : EM unit :=
  modify (set_screen (replicate (Z.to_nat (ro * co + 8)) 32)) ;;
  repeat_ (Z.to_nat (ro - 2)) 1 (fun k => wr_screen (k * co) [126]).

(** ** Synchronize the cursor to dot *)
Definition sync_sc1 (beg_cur cnt : Z) : EM unit :=
  modify (set_screenbegin beg_cur) ;;
  s <- get ;;
  let half := u32 (rows s - 1) / 2 in
  when (half <? u32 cnt)
    (repeat_ (Z.to_nat half) 0 (fun _ =>
       s <- get ;; q <- prev_line (screenbegin s) ;; modify (set_screenbegin q))).
Definition sync_begin (beg_cur : Z) : EM unit :=
  s <- get ;;
  if beg_cur <? screenbegin s then
    cnt <- count_lines beg_cur (screenbegin s) ;; sync_sc1 beg_cur cnt
  else
    end_scr <- end_screen ;;
    if end_scr <? beg_cur then
      cnt <- count_lines end_scr beg_cur ;;
      if u32 (rows s - 1) / 2 <? u32 cnt then sync_sc1 beg_cur cnt
      else
        fold_n (Z.to_nat (cnt - 1)) (fun end_scr =>
          s <- get ;;
          q <- next_line (screenbegin s) ;;
          modify (set_screenbegin q) ;;
          end_scr <- next_line end_scr ;;
          end_line end_scr) end_scr ;;
        ret tt
    else ret tt.
Definition sync_row_body (beg_cur : Z) (v : Z * Z) : EM (Z * Z + Z * Z) :=
  let '(ro, tp) := v in
  s <- get ;;
  if ro <? u32 (rows s - 1) then
    if tp =? beg_cur then ret (inr (ro, tp))
    else tp <- next_line tp ;; ret (inl (ro + 1, tp))
  else ret (inr (ro, tp)).
Definition sync_col_body (d : Z) (v : Z * Z) : EM (Z * Z + Z) :=
  let '(tp, co) := v in
  c <- rd tp ;;
  if c =? 10 then ret (inr co)
  else
    s <- get ;;
    let co := next_column (tabstop s) c co - 1 in
    tab <- (if negb (cmd_mode s =? 0) && (tp =? d - 1) then x <- rd d ;; ret (x =? 9)
            else ret false) ;;
    if (tab : bool) then ret (inr (co + 1))
    else if tp <? d then
      (if co + 1 =? 0 then ret (inr (co + 1)) else ret (inl (tp + 1, co + 1)))
    else ret (inr co).
Definition sync_cursor (d : Z) : EM (Z * Z) :=
  beg_cur <- begin_line d ;;
  sync_begin beg_cur ;;
  s <- get ;;
  rt <- iter (S (Z.to_nat (rows s))) (sync_row_body beg_cur) (0, screenbegin s) ;;
  let '(ro, tp) := (rt : Z * Z) in
  co <- iter (S (S (Z.to_nat (d - tp)))) (sync_col_body d) (tp, 0) ;;
  when (co <? offset s) (modify (set_offset co)) ;;
  s <- get ;;
  when (u32 (columns s + offset s) <=? u32 co) (modify (set_offset (i32 (co - columns s + 1)))) ;;
  x <- (if d =? beg_cur then rd d else ret 0) ;;
  when ((d =? beg_cur) && (x =? 9)) (modify (set_offset 0)) ;;
  s <- get ;;
  ret (ro, co - offset s).

(** ** Format a text[] line into a buffer *)
(** size of scr_out_buf[MAX_SCR_COLS + MAX_TABSTOP * 2] *)
Definition scr_out_buf_size : Z := MAX_SCR_COLS + MAX_TABSTOP * 2.
(** The buffer is kept as the list of its first [co] bytes. *)
Definition push (dest bs : list Z) : EM (list Z) :=
  if zlen dest + zlen bs <=? scr_out_buf_size then ret (dest ++ bs) else oob.
Record fmt := mkFmt { f_src : Z; f_c : Z; f_ofs : Z; f_dest : list Z }.

(** store [c] in the next column, discard a tabstop-sized piece that is
    scrolled off to the left, stop at the end of the text *)
Definition format_store (src c ofs : Z) (dest : list Z) : EM (fmt + fmt) :=
  s <- get ;;
  dest <- push dest [c] ;;
  let ts := tabstop s in
  v <- (if (ts <=? ofs) && (ts <=? zlen dest) then
          if ts + zlen dest <=? scr_out_buf_size then
            ret (mkFmt src c (ofs - ts) (drop (Z.to_nat ts) dest))
          else oob
        else ret (mkFmt src c ofs dest)) ;;
  if endp s <=? src then ret (inr v) else ret (inl v).
Definition format_body (v : fmt) : EM (fmt + fmt) :=
  let '(mkFmt src c ofs dest) := v in
  s <- get ;;
  let co := zlen dest in
  if co <? u32 (columns s + tabstop s) then
    if src <? endp s then
      c <- rd src ;;
      let src := src + 1 in
      if c =? 10 then ret (inr (mkFmt src c ofs dest))
      else
        let c := if negb (Z.land c 0x80 =? 0) && negb (is_asciionly c) then 46 else c in
        if (c <? 32) || (c =? 0x7f) then
          if c =? 9 then
            dest <- push dest (replicate (Z.to_nat (tabstop s - 1 - Z.rem co (tabstop s))) 32) ;;
            ret (inl (mkFmt src 32 ofs dest))
          else
            dest <- push dest [94] ;;
            format_store src (if c =? 0x7f then 63 else c + 64) ofs dest
        else format_store src c ofs dest
    else format_store src c ofs dest
  else ret (inr v).
Definition format_line (src : Z) : EM (list Z) :=
  s <- get ;;
  v <- iter (S (S (Z.to_nat (endp s - src)))) format_body (mkFmt src 126 (offset s) []) ;;
  let co := zlen (f_dest v) in
  let ofs := if co <? f_ofs v then co else f_ofs v in
  if ofs + columns s <=? scr_out_buf_size then
    let d := drop (Z.to_nat ofs) (f_dest v) in
    ret (d ++ replicate (Z.to_nat (columns s - zlen d)) 32)
  else oob.

(** ** Visual selection *)
Definition vis_advance (tabstop c co : Z) : Z :=
  if c =? 9 then next_tabstop tabstop co
  else if negb (Z.land c 0x80 =? 0) && negb (is_asciionly c) then co + 1
  else if (c <? 32) || (c =? 0x7f) then co + 2
  else co + 1.
(** set the flags of the columns in [a, b) *)
Definition mark_cols (a b : Z) (sel : list Z) : list Z :=
  imap (fun i x => if (a <=? Z.of_nat i) && (Z.of_nat i <? b) then 1 else x) sel.
Fixpoint span_go (bs : list Z) (ts ofs lo hi p co : Z) (sel : list Z) : list Z :=
  match bs with
  | [] => sel
  | c :: bs =>
      let inside := (lo <=? p) && (p <=? hi) in
      if c =? 10 then (if inside then mark_cols (co - ofs) (co - ofs + 1) sel else sel)
      else
        let co' := vis_advance ts c co in
        span_go bs ts ofs lo hi (p + 1) co'
          (if inside then mark_cols (co - ofs) (co' - ofs) sel else sel)
  end.
(** the columns of the line at [line_start] that fall inside [lo, hi] *)
Definition visual_span_mask (line_start lo hi : Z) : EM (list Z) :=
  s <- get ;;
  if columns s <=? scr_out_buf_size then
    bs <- (if line_start <? endp s then rd_n line_start (endp s - line_start) else ret []) ;;
    ret (span_go bs (tabstop s) (offset s) lo hi line_start 0 (replicate (Z.to_nat (columns s)) 0))
  else oob.
Definition visual_line_mask (line_start : Z) : EM (list Z) :=
  s <- get ;;
  let '(lo, hi) := if dot s <? vi_visual_anchor s then (dot s, vi_visual_anchor s)
                   else (vi_visual_anchor s, dot s) in
  visual_span_mask line_start lo hi.

(** first and last column whose flag is set, -1 if none *)
Fixpoint sel_first (sel : list Z) (i : Z) : Z :=
  match sel with [] => -1 | x :: sel => if negb (x =? 0) then i else sel_first sel (i + 1) end.
Fixpoint sel_last (sel : list Z) (i found : Z) : Z :=
  match sel with [] => found | x :: sel => sel_last sel (i + 1) (if negb (x =? 0) then i else found) end.
Definition invalidate_row (a b li t : Z) : EM Z :=
  e <- (if t <=? b then end_line t else ret 0) ;;
  when ((t <=? b) && (a <=? e))
    (sel <- visual_span_mask t a b ;;
     s <- get ;;
     let c0 := sel_first sel 0 in
     let c1 := sel_last sel 0 (-1) in
     when (0 <=? c0)
       (wr_screen (li * columns s + c0) (replicate (Z.to_nat (c1 - c0 + 1)) 255))) ;;
  next_line t.
Fixpoint invalidate_rows (fuel : nat) (a b li t : Z) : EM unit :=
  match fuel with
  | O => ret tt
  | S f =>
      s <- get ;;
      if t <? endp s then t <- invalidate_row a b li t ;; invalidate_rows f a b (li + 1) t
      else ret tt
  end.
Definition visual_invalidate_span (a b : Z) : EM unit :=
  if (a =? 0) || (b =? 0) then ret tt
  else
    let '(a, b) := if b <? a then (b, a) else (a, b) in
    s <- get ;;
    invalidate_rows (Z.to_nat (rows s - 1)) a b 0 (screenbegin s).

(** ** Refresh the changed screen lines *)
(** index of the first difference, or the length if there is none *)
Fixpoint first_diff (a b : list Z) (i : Z) : Z :=
  match a, b with
  | x :: a, y :: b => if negb (x =? y) then i else first_diff a b (i + 1)
  | _, _ => i
  end.
(** index of the last difference not before [cs], or [dflt] *)
Fixpoint last_diff (a b : list Z) (i dflt : Z) : Z :=
  match a, b with
  | x :: a, y :: b => last_diff a b (i + 1) (if negb (x =? y) then i else dflt)
  | _, _ => dflt
  end.

(** redraw row [li] from the text line at [tp]; answers the next line *)
Definition refresh_row (full_screen : bool) (li tp : Z) : EM Z :=
  out_buf <- format_line tp ;;
  s <- get ;;
  sel <- (if negb (vi_visual s =? 0) then m <- visual_line_mask tp ;; ret (Some m) else ret None) ;;
  tp <- (if tp <? endp s then
           t <- memchr tp 10 (endp s - tp) ;;
           ret ((if t =? 0 then endp s - 1 else t) + 1)
         else ret tp) ;;
  let cols := columns s in
  sp <- rd_screen (li * cols) cols ;;
  let row := take (Z.to_nat cols) out_buf in
  let '(cs, ce, changed) :=
    if (full_screen : bool) then (0, cols - 1, true)
    else
      let cs := first_diff row sp 0 in
      if cs <? cols then (cs, last_diff row sp 0 (cols - 1), true)
      else (cs, cols - 1, negb (offset s =? refresh_old_offset s)) in
  let '(cs, ce) := if ce <? cs then (0, cols - 1) else (cs, ce) in
  when (changed : bool)
    (hide_cursor ;;
     wr_screen (li * cols + cs) (slice row cs (ce + 1)) ;;
     place_cursor li cs ;;
     syntax_write_slice out_buf cs ce sel) ;;
  ret tp.
Fixpoint refresh_rows (n : nat) (full_screen : bool) (li tp : Z) : EM unit :=
  match n with
  | O => ret tt
  | S n => tp <- refresh_row full_screen li tp ;; refresh_rows n full_screen (li + 1) tp
  end.
Definition refresh (full_screen : bool) : EM unit :=
  s <- get ;;
  rc <- sync_cursor (dot s) ;;
  modify (fun s => set_ccol (snd rc) (set_crow (fst rc) s)) ;;
  s <- get ;;
  let vis := negb (vi_visual s =? 0) in
  let full_screen := full_screen || (vis && negb (screenbegin s =? vis_last_screenbegin s)) in
  modify (set_vis_last_screenbegin (if vis then screenbegin s else 0)) ;;
  refresh_rows (Z.to_nat (u32 (rows s - 1))) full_screen 0 (screenbegin s) ;;
  s <- get ;;
  place_cursor (crow s) (ccol s) ;;
  show_cursor ;;
  s <- get ;;
  when (negb (keep_index s)) (modify (set_cindex (ccol s + offset s))) ;;
  modify (set_refresh_old_offset (offset s)).

(** ** The status line *)
Definition cmd_mode_indicator : list Z := str "-IR-".
(** the text of the status line, once the lines are counted *)
Definition edit_status_text (cur : Z) : EM Z :=
  s <- get ;;
  let tot := format_edit_status_tot s in
  let '(cur, tot, percent) := if 0 <? tot then (cur, tot, Z.quot (i32 (100 * cur)) tot) else (0, 0, 100) in
  modify (set_format_edit_status_tot tot) ;;
  let trunc_at := if columns s <? STATUS_BUFFER_LEN - 1 then columns s else STATUS_BUFFER_LEN - 1 in
  let msg :=
    (if negb (vi_visual s =? 0) then 86 else nth0 (Z.to_nat (Z.land (cmd_mode s) 3)) cmd_mode_indicator)
    :: 32 :: default (str "No file") (current_filename s)
    ++ (if negb (modified_count s =? 0) then str " [Modified]" else [])
    ++ 32 :: dec cur ++ 47 :: dec tot ++ 32 :: dec percent ++ [37] in
  modify (set_status_buffer (take (Z.to_nat trunc_at) msg)) ;;
  ret (if zlen msg <? trunc_at then zlen msg else trunc_at).
Definition format_edit_status : EM Z :=
  s <- get ;;
  cur <- count_lines (text s) (dot s) ;;
  when (negb (modified_count s =? last_modified_count s))
    (n <- count_lines (dot s) (endp s - 1) ;;
     modify (fun s => set_last_modified_count (modified_count s)
                        (set_format_edit_status_tot (cur + n - 1) s))) ;;
  edit_status_text cur.

Definition bufsum (buf : list Z) (count : Z) : Z :=
  fold_left Z.add (take (Z.to_nat count) buf) 0.

(** an upper bound of the characters get_one_char() can still deliver *)
Definition chars_left (s : Ed) : nat :=
  (length (input s) + length (ioq s) + length (readbuffer s))%nat.
Definition wait_return_body (_ : unit) : EM (unit + unit) :=
  c <- get_one_char ;;
  if negb (c =? 10) && negb (c =? 13) then ret (inl tt) else ret (inr tt).

(** write status_buffer on the last row; [hit_return] waits for a key when a
    message is too long for the row *)
Definition print_status (cksum : Z) (hit_return : EM unit) : EM unit :=
  modify (set_last_status_cksum cksum) ;;
  hide_cursor ;;
  go_bottom_and_clear_to_eol ;;
  s <- get ;;
  puts_no_eol (status_buffer s) ;;
  when (negb (have_status_msg s =? 0))
    (when (columns s - 1 <? u32 (zlen (status_buffer s) - (have_status_msg s - 1)))
       (modify (set_have_status_msg 0) ;; hit_return) ;;
     modify (set_have_status_msg 0)) ;;
  s <- get ;;
  place_cursor (crow s) (ccol s) ;;
  show_cursor.
(** Hit_Return(), redraw() and show_status_line() call each other; the
    recursion stops because have_status_msg is cleared before Hit_Return(). *)
Fixpoint show_status_line_go (fuel : nat) : EM unit :=
  match fuel with
  | O => raise NoFuel
  | S fuel =>
      s <- get ;;
      cc <- (if have_status_msg s =? 0 then
               cnt <- format_edit_status ;;
               s <- get ;; ret (cnt, bufsum (status_buffer s) cnt)
             else ret (0, 0)) ;;
      let '(cnt, cksum) := (cc : Z * Z) in
      if negb (have_status_msg s =? 0) || ((0 <? cnt) && negb (last_status_cksum s =? cksum)) then
        print_status cksum
          (show_cursor ;;
           standout_start ;;
           puts_no_eol (str "[Hit return to continue]") ;;
           standout_end ;;
           s <- get ;;
           iter (S (chars_left s)) wait_return_body tt ;;
           puts_no_eol (ESC_SET_CURSOR_TOPLEFT ++ ESC_CLEAR2EOS) ;;
           screen_erase ;;
           modify (set_last_status_cksum 0) ;;
           refresh true ;;
           show_status_line_go fuel)
      else ret tt
  end.
Definition show_status_line : EM unit := show_status_line_go 2.
Definition redraw (full_screen : bool) : EM unit :=
  puts_no_eol (ESC_SET_CURSOR_TOPLEFT ++ ESC_CLEAR2EOS) ;;
  screen_erase ;;
  modify (set_last_status_cksum 0) ;;
  refresh full_screen ;;
  show_status_line.
Definition Hit_Return : EM unit :=
  show_cursor ;;
  standout_start ;;
  puts_no_eol (str "[Hit return to continue]") ;;
  standout_end ;;
  s <- get ;;
  iter (S (chars_left s)) wait_return_body tt ;;
  redraw true.

Definition flash : EM unit :=
  standout_start ;; redraw true ;; standout_end ;; redraw true.
Definition indicate_error : EM unit :=
  modify (set_cmd_error true) ;;
  s <- get ;;
  if negb (err_method s) then puts_no_eol ESC_BELL else flash.

(** ** Messages; the argument is the formatted text *)
Definition status_line (msg : list Z) : EM unit :=
  modify (fun s => set_have_status_msg 1
    (set_status_buffer (take (Z.to_nat (STATUS_BUFFER_LEN - 1)) msg) s)).
Definition status_line_bold (msg : list Z) : EM unit :=
  modify (fun s => set_have_status_msg (1 + 4 + 3)
    (set_status_buffer (ESC_BOLD_TEXT ++ take (Z.to_nat (STATUS_BUFFER_LEN - 5 - 4 - 1)) msg
                        ++ ESC_NORM_TEXT) s)).
Definition status_line_bold_errno (fn : list Z) : EM unit :=
  s <- get ;;
  status_line_bold (39 :: fn ++ str "' " ++ strerror_text (env s)).

(** copy s to buf, convert unprintable; [d] is what buf holds so far *)
Fixpoint print_literal_go (s d : list Z) : list Z :=
  match s with
  | [] => d
  | c :: s =>
      let c := if negb (Z.land c 0x80 =? 0) && negb (is_asciionly c) then 63 else c in
      let d := if (c <? 32) || (c =? 0x7f) then
                 d ++ [94; if Z.lor c 64 =? 0x7f then 63 else Z.lor c 64]
               else d ++ [c] in
      if MAX_INPUT_LEN - 10 <? zlen d then d else print_literal_go s d
  end.
Definition print_literal (s : list Z) : list Z :=
  print_literal_go (match s with [] => str "(NULL)" | _ => s end) [].
Definition not_implemented (s : list Z) : EM unit :=
  status_line_bold (39 :: print_literal s ++ str "' is not implemented").

(** ** Terminal geometry *)
Inductive want := WANT_ESC | WANT_BRACKET | WANT_PARAMS.
Record probe := mkProbe { pr_state : want; pr_row : Z; pr_col : Z; pr_parsing_col : bool }.
(** one byte of the "ESC [ row ; col R" report *)
Definition probe_step (v : probe) (c : Z) : probe + option (Z * Z) :=
  match pr_state v with
  | WANT_ESC => inl (if c =? 27 then mkProbe WANT_BRACKET (pr_row v) (pr_col v) (pr_parsing_col v) else v)
  | WANT_BRACKET =>
      inl (mkProbe (if c =? 91 then WANT_PARAMS else WANT_ESC) (pr_row v) (pr_col v) (pr_parsing_col v))
  | WANT_PARAMS =>
      if (48 <=? c) && (c <=? 57) then
        inl (if pr_parsing_col v then mkProbe WANT_PARAMS (pr_row v) (u32 (pr_col v * 10 + (c - 48))) true
             else mkProbe WANT_PARAMS (u32 (pr_row v * 10 + (c - 48))) (pr_col v) false)
      else if c =? 59 then inl (mkProbe WANT_PARAMS (pr_row v) (pr_col v) true)
      else if c =? 82 then
        inr (if (0 <? pr_row v) && (0 <? pr_col v) then Some (pr_row v, pr_col v) else None)
      else inl (mkProbe WANT_ESC 0 0 false)
  end.
Definition probe_body (v : probe) : EM (probe + option (Z * Z)) :=
  p <- safe_poll (match pr_state v with WANT_ESC => 200 | _ => 100 end) ;;
  let '(st, c) := (p : Z * Z) in
  if st <=? 0 then ret (inr None) else ret (probe_step v c).
Definition read_cursor_pos_reply : EM (option (Z * Z)) :=
  s <- get ;;
  iter (S (length (input s))) probe_body (mkProbe WANT_ESC 0 0 false).

(** isatty(0), isatty(1) and the answer of ioctl(TIOCGWINSZ) are arguments;
    the result is (columns, rows). *)
Definition get_screen_xy (tty0 tty1 : bool) (winsz : option (Z * Z)) : EM (Z * Z) :=
  let size := if tty0 then
                match winsz with
                | Some (r, c) => if (0 <? r) && (0 <? c) then Some (r, c) else None
                | None => None
                end
              else None in
  rc <- (match size with
         | Some rc => ret rc
         | None =>
             if tty0 && tty1 then
               puts_no_eol (27 :: str "[999;999H") ;;
               puts_no_eol (27 :: str "[6n") ;;
               r <- read_cursor_pos_reply ;;
               puts_no_eol ESC_SET_CURSOR_TOPLEFT ;;
               ret (default (24, 80) r)
             else ret (24, 80)
         end) ;;
  let '(rows, cols) := (rc : Z * Z) in
  let cols := if cols <? 2 then 2 else cols in
  let rows := if rows <? 2 then 2 else rows in
  let cols := if MAX_SCR_COLS <? cols then MAX_SCR_COLS else cols in
  let rows := if MAX_SCR_ROWS <? rows then MAX_SCR_ROWS else rows in
  ret (cols, rows).

(** ** Get input line (vim_input.c) *)
Definition input_line_body (buf : list Z) : EM (list Z + list Z) :=
  if zlen buf <? MAX_INPUT_LEN - 1 then
    c <- get_one_char ;;
    if (c =? 10) || (c =? 13) || (c =? 27) then ret (inr buf)
    else if (c =? 8) || (c =? 127) then
      puts_no_eol [8; 32; 8] ;;
      let buf := removelast buf in
      if zlen buf <=? 0 then ret (inr buf) else ret (inl buf)
    else if (0 <? c) && (c <? 256) then putchar c ;; ret (inl (buf ++ [c]))
    else ret (inl buf)
  else ret (inr buf).
Definition get_input_line (prompt : list Z) : EM (list Z) :=
  modify (set_last_status_cksum 0) ;;
  go_bottom_and_clear_to_eol ;;
  puts_no_eol prompt ;;
  s <- get ;;
  buf <- iter (S (chars_left s)) input_line_body prompt ;;
  refresh false ;;
  ret buf.
