(* ===== verification/EvimEdit.v ===== *)
(** * evim: changing the buffer (vim_text.c)

    Holes in text[], the undo stack with its queue of single characters,
    registers, the cursor movements that commit the queue, char_insert() and
    file input and output. *)
From S2P Require Import Prelude EvimState EvimLine EvimSyntax EvimInput EvimTerm.

(** ** Registers and context *)
Definition text_yank (p q dest buftype : Z) : EM Z :=
  let cnt := q - p in
  let '(p, cnt) := if cnt <? 0 then (q, - cnt) else (p, cnt) in
  str <- rd_strn p (cnt + 1) ;;
  s <- get ;;
  set_reg_at dest (Some (mkReg (reg_next s) str)) ;;
  modify (set_reg_next (S (reg_next s))) ;;
  set_regtype_at dest buftype ;;
  ret p.

Definition what_reg (YDreg : Z) : Z :=
  if YDreg <=? 25 then 97 + YDreg
  else if YDreg =? 26 then 68
  else if YDreg =? 27 then 85
  else 68.

Definition check_context (cmd : Z) : EM unit :=
  when (strchr_in (str ":%{}'GHLMz/?Nn") cmd)
    (m <- get_mark 26 ;; set_mark_at 27 m ;; d <- gets dot ;; set_mark_at 26 d).

Definition swap_context (p : Z) : EM Z :=
  m <- get_mark 27 ;;
  s <- get ;;
  if (text s <=? m) && (m <=? endp s - 1) then
    set_mark_at 27 p ;; set_mark_at 26 m ;; ret m
  else ret p.

Definition count_nl (l : list Z) : Z := zlen (filter (fun c => c = 10) l).
Definition yank_status (op p : list Z) (cnt : Z) : EM unit :=
  s <- get ;;
  status_line (op ++ 32 :: dec (count_nl p * cnt) ++ str " lines (" ++ dec (zlen p * cnt)
               ++ str " chars) from [" ++ [what_reg (YDreg s); 93]).

(** ** Holes *)
(** every pointer the code rebases after realloc() *)
Definition rebase (bias : Z) (s : Ed) : Ed :=
  let s := set_screenbegin (screenbegin s + bias) s in
  let s := set_dot (dot s + bias) s in
  let s := set_endp (endp s + bias) s in
  let s := set_mark (map (fun m => if m =? 0 then 0 else m + bias) (mark s)) s in
  if vi_visual_anchor s =? 0 then s else set_vi_visual_anchor (vi_visual_anchor s + bias) s.

(** open a hole of 'size' bytes at 'p'; answers the bias of a moved block *)
Definition text_hole_make (p size : Z) : EM Z :=
  if size <=? 0 then ret 0
  else
    modify (fun s => set_endp (endp s + size) s) ;;
    s <- get ;;
    bias <- (if text s + text_size s <=? endp s then
               let n := text_size s + (endp s - (text s + text_size s)) + 10240 in
               modify (set_text_size n) ;;
               new_text <- realloc_text n ;;
               let bias := new_text - text s in
               modify (rebase bias) ;;
               modify (set_text new_text) ;;
               ret bias
             else ret 0) ;;
    let p := p + bias in
    e <- gets endp ;;
    memmove (p + size) p (e - size - p) ;;
    memset p 32 size ;;
    ret bias.

(** ** The undo stack *)
(** modified_count++ and modified_count-- *)
Definition upd_modified (f : Z -> Z) : EM unit := modify (fun s => set_modified_count (i32 (f (modified_count s))) s).

(** the second half of undo_push(): allocate an undo object *)
Definition undo_push_object (src : list Z) (start length u_type : Z) : EM unit :=
  modify (fun s => set_undo_stack_tail (mkUndo start length u_type src :: undo_stack_tail s) s) ;;
  upd_modified (fun n => n + 1).
(** [src] is an address in text[]; [use_spos] selects the queue's start *)
Definition undo_push_text (src length u_type : Z) : EM unit :=
  s <- get ;;
  let del := (u_type =? UNDO_DEL) || (u_type =? UNDO_DEL_CHAIN) in
  let length := if del && (text s + length =? endp s) then u32 (length - 1) else length in
  bs <- (if del then rd_n src length else ret []) ;;
  undo_push_object bs (src - text s) length u_type.

(** Flush any queued objects to the undo stack: the call
    undo_push(undo_queue + MAX - undo_q, undo_q, undo_queue_state | UNDO_USE_SPOS),
    whose u_type is no QUEUED one. *)
Definition undo_queue_commit : EM unit :=
  s <- get ;;
  if 0 <? undo_q s then
    let u_type := undo_queue_state s in
    let del := (u_type =? UNDO_DEL) || (u_type =? UNDO_DEL_CHAIN) in
    let length := if del && (text s + undo_q s =? endp s) then undo_q s - 1 else undo_q s in
    let bs := if del then take (Z.to_nat length)
                (drop (Z.to_nat (VI_UNDO_QUEUE_MAX - undo_q s)) (undo_queue s)) else [] in
    (if (undo_q s <=? VI_UNDO_QUEUE_MAX) then
       undo_push_object bs (undo_queue_spos s - text s) length u_type
     else oob) ;;
    modify (fun s => set_undo_q 0 (set_undo_queue_state UNDO_EMPTY s))
  else ret tt.

(** [undo_queue[VI_UNDO_QUEUE_MAX - undo_q] = c] *)
Definition put_undo_queue (c : Z) : EM unit := fun s =>
  let i := VI_UNDO_QUEUE_MAX - undo_q s in
  if (0 <=? i) && (i <? zlen (undo_queue s))
  then Ok tt (set_undo_queue (<[Z.to_nat i := c]> (undo_queue s)) s) else Err OutOfBounds.

(** queue one deleted character: states UNDO_EMPTY and UNDO_DEL *)
Definition queue_deleted (src : Z) : EM unit :=
  modify (fun s => set_undo_q (undo_q s + 1) (set_undo_queue_spos src (set_undo_queue_state UNDO_DEL s))) ;;
  c <- rd src ;;
  put_undo_queue c ;;
  s <- get ;;
  when (undo_q s =? VI_UNDO_QUEUE_MAX) undo_queue_commit.
(** queue [length] inserted characters: states UNDO_EMPTY and UNDO_INS *)
Definition queue_inserted (src length : Z) : EM unit :=
  s <- get ;;
  when (undo_queue_state s =? UNDO_EMPTY)
    (modify (fun s => set_undo_queue_spos src (set_undo_queue_state UNDO_INS s))) ;;
  repeat_ (Z.to_nat length) 0 (fun _ =>
    modify (fun s => set_undo_q (undo_q s + 1) s) ;;
    s <- get ;;
    when (undo_q s =? VI_UNDO_QUEUE_MAX) undo_queue_commit).

(** undo_push() called with an address in text[] and a u_type without
    UNDO_USE_SPOS. After a commit the queue state is UNDO_EMPTY, so the
    recursive calls that switch between storing insertions and deletions end
    in the cases above. *)
Definition undo_push (src length u_type : Z) : EM unit :=
  let length := u32 length in
  s <- get ;;
  if u_type =? UNDO_EMPTY then ret tt
  else if u_type =? UNDO_DEL_QUEUED then
    if negb (length =? 1) then ret tt
    else if (undo_queue_state s =? UNDO_EMPTY) || (undo_queue_state s =? UNDO_DEL) then queue_deleted src
    else if undo_queue_state s =? UNDO_INS then
      undo_queue_commit ;;
      s <- get ;;
      if undo_queue_state s =? UNDO_INS then raise NoFuel else queue_deleted src
    else undo_push_text src length u_type
  else if u_type =? UNDO_INS_QUEUED then
    if length <? 1 then ret tt
    else if (undo_queue_state s =? UNDO_EMPTY) || (undo_queue_state s =? UNDO_INS) then
      queue_inserted src length
    else if undo_queue_state s =? UNDO_DEL then
      undo_queue_commit ;;
      s <- get ;;
      if undo_queue_state s =? UNDO_DEL then raise NoFuel else queue_inserted src length
    else undo_push_text src length u_type
  else undo_push_text src length u_type.

Definition flush_undo_data : EM unit := modify (set_undo_stack_tail []).

Definition undo_push_insert (p len : Z) (undo : allow_undo) : EM unit :=
  match undo with
  | NO_UNDO => ret tt
  | ALLOW_UNDO => undo_push p len UNDO_INS
  | ALLOW_UNDO_CHAIN => undo_push p len UNDO_INS_CHAIN
  | ALLOW_UNDO_QUEUED => undo_push p len UNDO_INS_QUEUED
  end.

(** close a hole in text[] - delete "p" through "q", inclusive *)
Definition text_hole_delete (p q : Z) (undo : allow_undo) : EM Z :=
  let '(src, dest) := if q <? p then (p + 1, q) else (q + 1, p) in
  let hole_size := q - p + 1 in
  s <- get ;;
  let cnt := endp s - src in
  match undo with
  | NO_UNDO => ret tt
  | ALLOW_UNDO => undo_push p hole_size UNDO_DEL
  | ALLOW_UNDO_CHAIN => undo_push p hole_size UNDO_DEL_CHAIN
  | ALLOW_UNDO_QUEUED => undo_push p hole_size UNDO_DEL_QUEUED
  end ;;
  upd_modified (fun n => n - 1) ;;
  s <- get ;;
  if (src <? text s) || (endp s <? src) then ret dest
  else if (dest <? text s) || (endp s <=? dest) then ret dest
  else
    upd_modified (fun n => n + 1) ;;
    (if endp s <=? src then ret tt else memmove dest src cnt) ;;
    let e := endp s - hole_size in
    let dest := if e <=? dest then e - 1 else dest in
    if e <=? text s then modify (set_endp (text s)) ;; ret (text s)
    else modify (set_endp e) ;; ret dest.

(** insert the string at 'p' *)
Definition string_insert (p : Z) (str : list Z) (undo : allow_undo) : EM Z :=
  let i := zlen str in
  undo_push_insert p i undo ;;
  bias <- text_hole_make p i ;;
  wr_n (p + bias) str ;;
  ret bias.

(** Undo the last operation; a chained entry continues with the next one, so
    the recursion is bounded by the stack. *)
Definition undo_message (verb : list Z) (u : undo_object) (n : Z) : EM unit :=
  status_line (str "Undo [" ++ dec n ++ str "] " ++ verb ++ 32 :: dec (u_length u)
               ++ str " chars at position " ++ dec (u_start u)).
(** [u_start] is computed before text_hole_make() and used after it *)
Definition undo_apply (u : undo_object) : EM unit :=
  s <- get ;;
  let u_start_ := text s + u_start u in
  if (u_type u =? UNDO_DEL) || (u_type u =? UNDO_DEL_CHAIN) then
    text_hole_make u_start_ (u_length u) ;;
    wr_n u_start_ (u_text u) ;;
    s <- get ;; undo_message (str "restored") u (modified_count s)
  else if (u_type u =? UNDO_INS) || (u_type u =? UNDO_INS_CHAIN) then
    text_hole_delete u_start_ (u_start_ - 1 + u_length u) NO_UNDO ;;
    s <- get ;; undo_message (str "deleted") u (modified_count s)
  else ret tt.
Definition undo_pop_one : EM bool :=
  undo_queue_commit ;;
  s <- get ;;
  match undo_stack_tail s with
  | [] => status_line (str "Already at oldest change") ;; ret false
  | u :: rest =>
      undo_apply u ;;
      when ((u_type u =? UNDO_DEL) || (u_type u =? UNDO_INS))
        (modify (fun s => set_dot (text s + u_start u) s) ;; refresh false) ;;
      modify (set_undo_stack_tail rest) ;;
      upd_modified (fun n => n - 1) ;;
      ret ((u_type u =? UNDO_DEL_CHAIN) || (u_type u =? UNDO_INS_CHAIN))
  end.
Fixpoint undo_pop_go (fuel : nat) : EM unit :=
  match fuel with
  | O => raise NoFuel
  | S fuel => again <- undo_pop_one ;; if (again : bool) then undo_pop_go fuel else ret tt
  end.
Definition undo_pop : EM unit :=
  s <- get ;; undo_pop_go (S (S (length (undo_stack_tail s)))).

(** ** Dot movement routines *)
Definition dot_left : EM unit :=
  undo_queue_commit ;;
  s <- get ;;
  if text s <? dot s then
    c <- rd (dot s - 1) ;; when (negb (c =? 10)) (modify (set_dot (dot s - 1)))
  else ret tt.
Definition dot_right : EM unit :=
  undo_queue_commit ;;
  s <- get ;;
  if dot s <? endp s - 1 then
    c <- rd (dot s) ;; when (negb (c =? 10)) (modify (set_dot (dot s + 1)))
  else ret tt.
Definition dot_to (f : Z -> EM Z) : EM unit :=
  d <- gets dot ;; q <- f d ;; modify (set_dot q).
Definition dot_begin : EM unit := undo_queue_commit ;; dot_to begin_line.
Definition dot_end : EM unit := undo_queue_commit ;; dot_to end_line.
Definition dot_next : EM unit := undo_queue_commit ;; dot_to next_line.
Definition dot_prev : EM unit := undo_queue_commit ;; dot_to prev_line.

Definition skip_over_ws_body (v : Z) : EM (Z + Z) :=
  c <- rd v ;;
  e <- gets endp ;;
  if isspace c && negb (c =? 10) && (v <? e - 1) then ret (inl (v + 1)) else ret (inr v).
Definition dot_skip_over_ws : EM unit :=
  s <- get ;;
  q <- iter (S (Z.to_nat (endp s - dot s))) skip_over_ws_body (dot s) ;;
  modify (set_dot q).

(** f, F, t, T, ';' and ',': the inner loop finds the next match on the line *)
Definition to_char_body (dir : Z) (q : Z) : EM (Z + option Z) :=
  let q := q + dir in
  s <- get ;;
  if (if dir =? FORWARD then endp s - 1 <? q else q <? text s) then ret (inr None)
  else
    c <- rd q ;;
    if c =? 10 then ret (inr None)
    else if negb (c =? last_search_char s) then ret (inl q)
    else ret (inr (Some q)).
Definition to_char_count_body (dir : Z) (q : Z) : EM (Z + option Z) :=
  s <- get ;;
  r <- iter (S (Z.to_nat (endp s - text s))) (to_char_body dir) q ;;
  match r with
  | None => ret (inr None)
  | Some q =>
      modify (fun s => set_cmdcnt (i32 (cmdcnt s - 1)) s) ;;
      s <- get ;;
      if 0 <? cmdcnt s then ret (inl q) else ret (inr (Some q))
  end.
Definition dot_to_char (cmd : Z) : EM unit :=
  s <- get ;;
  if last_search_char s =? 0 then ret tt
  else
    let dir := if islower cmd then FORWARD else BACK in
    r <- iter (S (Z.to_nat (endp s - text s))) (to_char_count_body dir) (dot s) ;;
    match r with
    | None => indicate_error
    | Some q =>
        modify (set_dot q) ;;
        if cmd =? 116 then dot_left else if cmd =? 84 then dot_right else ret tt
    end.

Definition dot_scroll (cnt dir : Z) : EM unit :=
  undo_queue_commit ;;
  repeat_ (Z.to_nat cnt) 0 (fun _ =>
    s <- get ;;
    q <- (if dir <? 0 then prev_line (screenbegin s) else next_line (screenbegin s)) ;;
    modify (set_screenbegin q)) ;;
  s <- get ;;
  when (dot s <? screenbegin s) (modify (set_dot (screenbegin s))) ;;
  q <- end_screen ;;
  s <- get ;;
  (if q <? dot s then b <- begin_line q ;; modify (set_dot b) else ret tt) ;;
  dot_skip_over_ws.

(** make sure  text[0] <= P < "end" *)
Definition bound_dot (p : Z) : EM Z :=
  s <- get ;;
  p <- (if (endp s <=? p) && (text s <? endp s) then indicate_error ;; ret (endp s - 1) else ret p) ;;
  s <- get ;;
  if p <? text s then indicate_error ;; ret (text s) else ret p.

Definition start_new_cmd_q (c : Z) : EM unit :=
  modify (fun s =>
    set_adding2q true (set_lmc_len 1
      (set_last_modifying_cmd (<[0%nat := u8 c]> (last_modifying_cmd s))
        (set_dotcnt (if cmdcnt s =? 0 then 1 else cmdcnt s) s)))).
Definition end_cmd_q : EM unit := modify (fun s => set_adding2q false (set_YDreg 26 s)).

(** copy text into register, then delete text *)
Definition yank_delete (start stop buftype : Z) (yf : bool) (undo : allow_undo) : EM Z :=
  let '(start, stop) := if stop <? start then (stop, start) else (start, stop) in
  c <- (if buftype =? PARTIAL then rd start else ret 0) ;;
  if (buftype =? PARTIAL) && (c =? 10) then ret start
  else
    y <- gets YDreg ;;
    text_yank start stop y buftype ;;
    if yf then text_hole_delete start stop undo else ret start.

(** ** Inserting a character *)
(** show the matching char of a pair,  ()  []  {} *)
Definition showmatching (p : Z) : EM unit :=
  c <- rd p ;;
  q <- find_pair p c ;;
  if q =? 0 then indicate_error
  else
    d <- gets dot ;;
    modify (set_dot q) ;; refresh false ;;
    modify (set_dot d) ;; refresh false.

(** stupidly insert the char c at 'p' *)
Definition stupid_insert (p c : Z) : EM Z :=
  bias <- text_hole_make p 1 ;; wr (p + bias) c ;; ret bias.

Definition char_insert_ctrl_v (p : Z) (undo : allow_undo) : EM Z :=
  bias <- stupid_insert p 94 ;;
  let p := p + bias in
  refresh false ;;
  c <- get_one_char ;;
  wr p (u8 c) ;;
  undo_push_insert p 1 undo ;;
  ret (p + 1).

Definition char_insert_esc (p bol : Z) (undo : allow_undo) : EM Z :=
  modify (set_cmd_mode 0) ;;
  undo_queue_commit ;;
  modify (set_cmdcnt 0) ;;
  end_cmd_q ;;
  modify (set_last_status_cksum 0) ;;
  s <- get ;;
  p <- (if text s <? dot s then c <- rd (p - 1) ;; ret (if negb (c =? 10) then p - 1 else p)
        else ret p) ;;
  if autoindent s then
    len <- indent_len bol ;;
    if negb (len =? 0) then
      col <- get_column (bol + len) ;;
      c <- (if col =? indentcol s then rd (bol + len) else ret 0) ;;
      if (col =? indentcol s) && (c =? 10) then
        text_hole_delete bol (bol + len - 1) undo ;; ret bol
      else ret p
    else ret p
  else ret p.

(** ctrl-D reduces indentation: the loop on (p, r) *)
Definition ctrl_d_body (bol prev : Z) (v : Z * Z) : EM (Z * Z + Z * Z) :=
  let '(p, r) := v in
  if bol <? r then
    col <- get_column r ;;
    if prev <? col then
      let p := if bol <? p then p - 1 else p in
      let r := r - 1 in
      r <- text_hole_delete r r ALLOW_UNDO_QUEUED ;;
      ret (inl (p, r))
    else ret (inr (p, r))
  else ret (inr (p, r)).
(** answers (p, true) when the function returns without clearing indentcol *)
Definition char_insert_ctrl_d (p bol : Z) : EM (Z * bool) :=
  len <- indent_len bol ;;
  let r := bol + len in
  col <- get_column r ;;
  s <- get ;;
  let prev := prev_tabstop (tabstop s) col in
  pr <- iter (S (Z.to_nat (r - bol))) (ctrl_d_body bol prev) (p, r) ;;
  let '(p, r) := (pr : Z * Z) in
  s <- get ;;
  if autoindent s && negb (indentcol s =? 0) then
    e <- end_line p ;;
    if r =? e then col <- get_column p ;; modify (set_indentcol col) ;; ret (p, true)
    else ret (p, false)
  else ret (p, false).

Definition char_insert_expandtab (p : Z) (undo : allow_undo) : EM Z :=
  col <- get_column p ;;
  s <- get ;;
  let n := next_tabstop (tabstop s) col - col + 1 in
  fold_n (Z.to_nat n) (fun p =>
    undo_push_insert p 1 undo ;;
    bias <- stupid_insert p 32 ;;
    ret (p + 1 + bias)) p.

(** auto indent the new line; [p] is just after the inserted newline.
    Answers (p, true) when the function returns without clearing indentcol. *)
Definition char_insert_autoindent (p : Z) (undo : allow_undo) : EM (Z * bool) :=
  s <- get ;;
  bol <- (if indentcol s <? 0 then ret p else prev_line p) ;;
  len <- indent_len bol ;;
  col <- get_column (bol + len) ;;
  if negb (len =? 0) && (col =? indentcol s) then
    memmove (bol + 1) bol len ;; wr bol 10 ;; ret (p, true)
  else
    let p := if indentcol s <? 0 then p - 1 else p in
    if negb (len =? 0) then
      modify (set_indentcol col) ;;
      let '(ntab, nspc) := if expandtab s then (0, col)
                           else (Z.quot col (tabstop s), Z.rem col (tabstop s)) in
      bias <- text_hole_make p (ntab + nspc) ;;
      let p := p + bias in
      undo_push_insert p (ntab + nspc) undo ;;
      memset p 9 ntab ;;
      let p := p + ntab in
      memset p 32 nspc ;;
      ret (p + nspc, true)
    else ret (p, false).

(** insert a char into text[] *)
Definition char_insert_plain (p c : Z) (undo : allow_undo) : EM (Z * bool) :=
  let c := if c =? 13 then 10 else c in
  when (c =? 10) undo_queue_commit ;;
  bias <- stupid_insert p c ;;
  let p := p + 1 + bias in
  s <- get ;;
  when (showmatch s && strchr_in (str ")]}") c) (showmatching (p - 1)) ;;
  if autoindent s && (c =? 10) then char_insert_autoindent p undo else ret (p, false).

(** insert the char c at 'p' *)
Definition char_insert (p c : Z) (undo : allow_undo) : EM Z :=
  let c := u8 c in
  bol <- begin_line p ;;
  s <- get ;;
  r <- (if c =? 22 then p <- char_insert_ctrl_v p undo ;; ret (p, false)
        else if c =? 27 then p <- char_insert_esc p bol undo ;; ret (p, false)
        else if c =? 4 then char_insert_ctrl_d p bol
        else if (c =? 9) && expandtab s then p <- char_insert_expandtab p undo ;; ret (p, false)
        else if (c =? 8) || (c =? 127) then
          if text s <? p then
            p <- text_hole_delete (p - 1) (p - 1) ALLOW_UNDO_QUEUED ;; ret (p, false)
          else ret (p, false)
        else char_insert_plain p c undo) ;;
  let '(p, returned) := (r : Z * bool) in
  if returned then ret p else modify (set_indentcol 0) ;; ret p.

(** ** Files *)
Definition find_file (fn : list Z) (fs : list file) : option file :=
  match list_find (fun f => f_name f = fn) fs with Some (_, f) => Some f | None => None end.
Definition init_filename (fn : list Z) : EM unit :=
  s <- get ;;
  match current_filename s with
  | None => modify (set_current_filename (Some fn))
  | Some _ => ret tt
  end.
Definition update_filename (fn : option (list Z)) : EM unit :=
  match fn with
  | None => ret tt
  | Some _ => syntax_set_file fn ;; modify (set_current_filename fn)
  end.

Definition file_insert (fn : option (list Z)) (p : Z) (initial : bool) : EM Z :=
  match fn with
  | None => ret (-1)
  | Some fn =>
      s <- get ;;
      let p := if p <? text s then text s else p in
      let p := if endp s <? p then endp s else p in
      match find_file fn (files s) with
      | None => when (negb initial) (status_line_bold_errno fn) ;; ret (-1)
      | Some f =>
          let size := if f_size f <? 0x7fffffff then f_size f else 0x7fffffff in
          bias <- text_hole_make p size ;;
          let p := p + bias in
          if negb (f_readable f) then
            when (negb initial) (status_line_bold_errno fn) ;; ret (-1)
          else
            match f_read f with
            | None =>
                status_line_bold_errno fn ;;
                text_hole_delete p (p + size - 1) NO_UNDO ;; ret (-1)
            | Some data =>
                let bs := take (Z.to_nat size) data in
                let cnt := zlen bs in
                wr_n p bs ;;
                (if cnt <? size then
                   text_hole_delete (p + cnt) (p + size - 1) NO_UNDO ;;
                   status_line_bold (str "can't read '" ++ fn ++ [39])
                 else undo_push_insert p size ALLOW_UNDO) ;;
                ret cnt
            end
      end
  end.

(** read text from file or create an empty buf *)
Definition init_text_buffer (fn : option (list Z)) : EM Z :=
  modify (set_text_size 10240) ;;
  t <- zalloc_text 10240 ;;
  modify (fun s => set_text t (set_endp t (set_dot t (set_screenbegin t s)))) ;;
  update_filename fn ;;
  rc <- file_insert fn t true ;;
  t <- gets text ;;
  when (rc <? 0) (char_insert t 10 NO_UNDO ;; ret tt) ;;
  flush_undo_data ;;
  modify (fun s => set_mark (replicate 28 0) (set_last_modified_count (-1) (set_modified_count 0 s))) ;;
  ret rc.

(** the files once [fn] was truncated and [bs] written to it *)
Definition write_file (fn bs : list Z) (accept : Z) (fs : list file) : list file :=
  mkFile fn (zlen bs) true (Some bs) true accept
    :: filter (fun f => f_name f <> fn) fs.
Definition file_write (fn : option (list Z)) (first last : Z) : EM Z :=
  match fn with
  | None => status_line_bold (str "No current filename") ;; ret (-2)
  | Some fn =>
      s <- get ;;
      let cnt := last - first + 1 in
      let accept := match find_file fn (files s) with
                    | Some f => if f_writable f then Some (f_accept f) else None
                    | None => if can_create (env s) then Some (2 ^ 31) else None
                    end in
      match accept with
      | None => ret (-1)
      | Some n =>
          let charcnt := Z.min cnt n in
          bs <- rd_n first charcnt ;;
          modify (set_files (write_file fn bs n (files s))) ;;
          ret (if charcnt =? cnt then charcnt else 0)
      end
  end.
