(* ===== verification/EvimEx.v ===== *)
(** * evim: ex addresses, options and colon commands (vim_cmd.c)

    A pointer into the command line is the rest of the C string it points at.
    A [goto ret] of colon() ends the handler of a command, after which
    bound_dot() runs; only the [colon_s_fail] exit skips it. *)
From S2P Require Import Prelude EvimState EvimLine EvimSyntax EvimInput EvimTerm EvimEdit.

(** ** Addresses *)
Record addr_st := mkAddr { a_p : list Z; a_addr : Z; a_sign : Z; a_got : bool }.
(** [inr None] is the NULL answer, [inr (Some (p, addr, got))] the end of the address *)
Definition addr_res : Type := option (list Z * Z * bool).

Definition addr_mark (p : list Z) (sign : Z) : EM (addr_st + addr_res) :=
  let c := tolower (hd0 (tl p)) in
  q <- (if (97 <=? c) && (c <=? 122) then get_mark (c - 97) else ret 0) ;;
  if q =? 0 then status_line_bold (str "Mark not set") ;; ret (inr None)
  else
    t <- gets text ;;
    n <- count_lines t q ;;
    ret (inl (mkAddr (tl (tl p)) n sign true)).

Definition addr_search (p : list Z) (sign : Z) : EM (addr_st + addr_res) :=
  let c := hd0 p in
  let q := strchrnul (tl p) c in
  let pat := take (length (tl p) - length q) (tl p) in
  when (negb (zlen pat =? 0)) (modify (set_last_search_pattern (c :: pat))) ;;
  let p := if hd0 q =? c then tl q else q in
  s <- get ;;
  let dir := if c =? 47 then Z.lor (Z.shiftl FORWARD 1) FULL
             else i32 (Z.lor (Z.shiftl (u32 BACK) 1) FULL) in
  q <- (if c =? 47 then next_line (dot s) else begin_line (dot s)) ;;
  let pat := drop 1 (last_search_pattern s) in
  m <- char_search q pat dir ;;
  m <- (if m =? 0 then char_search (if 0 <? dir then text s else endp s - 1) pat dir else ret m) ;;
  if m =? 0 then status_line_bold (str "Pattern not found") ;; ret (inr None)
  else
    n <- count_lines (text s) m ;;
    ret (inl (mkAddr p n sign true)).

Definition parse_num (p : list Z) : Z :=
  fold_left (fun num c => i32 (num * 10 + c - 48)) (take_while isdigit p) 0.

Definition addr_body (v : addr_st) : EM (addr_st + addr_res) :=
  let '(mkAddr p addr sign got) := v in
  let c := hd0 p in
  if isblank c then
    ret (inl (mkAddr (tl p) (if got then addr + sign else addr) (if got then 0 else sign) got))
  else if negb got && (c =? 46) then ret (inl (mkAddr (tl p) addr sign true))
  else if negb got && (c =? 36) then
    s <- get ;;
    n <- count_lines (text s) (endp s - 1) ;; ret (inl (mkAddr (tl p) n sign true))
  else if negb got && (c =? 39) then addr_mark p sign
  else if negb got && ((c =? 47) || (c =? 63)) then addr_search p sign
  else if isdigit c then
    let num := parse_num p in
    ret (inl (mkAddr (skip_while isdigit p)
                (if got then addr + (if 0 <=? sign then num else - num) else num) 0 true))
  else if (c =? 45) || (c =? 43) then
    ret (inl (mkAddr (tl p) (if got then addr + sign else addr) (if c =? 45 then -1 else 1) true))
  else ret (inr (Some (p, addr + sign, got))).

Definition get_one_address (p : list Z) : EM addr_res :=
  s <- get ;;
  n <- count_lines (text s) (dot s) ;;
  iter (S (length p)) addr_body (mkAddr p n 0 false).

Record range := mkRange { g_p : list Z; g_b : Z; g_e : Z; g_got : Z; g_sep : bool }.
(** [inr (None, ...)]: get_one_address() failed; g_sep is state == GET_SEPARATOR *)
Definition range_body (v : range) : EM (range + (option (list Z) * range)) :=
  let '(mkRange p b e got sep) := v in
  let c := hd0 p in
  if isblank c then ret (inl (mkRange (tl p) b e got sep))
  else if negb sep && (c =? 37) then
    s <- get ;;
    n <- count_lines (text s) (endp s - 1) ;;
    ret (inl (mkRange (tl p) 1 n 3 true))
  else if negb sep then
    r <- get_one_address p ;;
    match r with
    | None => ret (inr (None, v))
    | Some (p, addr, valid) =>
        if (valid : bool) || (hd0 p =? 44) || (hd0 p =? 59) || negb (Z.land got 1 =? 0) then
          ret (inl (mkRange p e addr (u32 (Z.lor (Z.shiftl got 1) 1)) true))
        else ret (inr (Some p, v))
    end
  else if (c =? 44) || (c =? 59) then
    (if c =? 59 then d <- find_line e ;; modify (set_dot d) else ret tt) ;;
    ret (inl (mkRange (tl p) b e got false))
  else ret (inr (Some p, v)).
(** answers the rest of the line (None = NULL), b, e and got *)
Definition get_address (p : list Z) (b e got : Z) : EM (option (list Z) * range) :=
  save_dot <- gets dot ;;
  r <- iter (S (S (2 * length p))) range_body (mkRange p b e got false) ;;
  modify (set_dot save_dot) ;;
  ret r.

(** ** Options *)
(** strtoul(s, NULL, 10); None is ERANGE *)
Definition strtoul10 (s : list Z) : option Z :=
  let s := skip_while isspace s in
  let '(neg, s) := match s with
                   | 45 :: s => (true, s)
                   | 43 :: s => (false, s)
                   | _ => (false, s)
                   end in
  let n := fold_left (fun n c => n * 10 + (c - 48)) (take_while isdigit s) 0 in
  if 18446744073709551615 <? n then None
  else Some (if (neg : bool) then (- n) mod 18446744073709551616 else n).

Definition setops (args : list Z) (flg_no : Z) : EM unit :=
  let eq := strchr args 61 in
  let name := match eq with Some e => take (length args - length e) args | None => args end in
  let index := index_in_strings OPTS_STR (drop (Z.to_nat flg_no) name) in
  let bad := status_line_bold (str "bad option: " ++ args) in
  if index <? 0 then bad
  else
    let index := Z.shiftl 1 (Z.shiftr index 1) in
    if negb (Z.land index VI_TABSTOP =? 0) then
      match eq with
      | None => bad
      | Some e =>
          if negb (flg_no =? 0) then bad
          else
            let t := match strtoul10 (tl e) with Some t => i32 t | None => -1 end in
            if (t <=? 0) || (MAX_TABSTOP <? t) then bad else modify (set_tabstop t)
      end
    else
      match eq with
      | Some _ => bad
      | None =>
          if negb (flg_no =? 0) then
            modify (fun s => set_vi_setops (Z.land (vi_setops s) (Z.lnot index)) s)
          else modify (fun s => set_vi_setops (Z.lor (vi_setops s) index) s)
      end.

Definition skip_whitespace (s : list Z) : list Z :=
  skip_while (fun c => (c =? 32) || (u8 (c - 9) <=? 13 - 9)) s.
Definition skip_non_whitespace (s : list Z) : list Z :=
  skip_while (fun c => negb (c =? 0) && negb (c =? 32) && (13 - 9 <? u8 (c - 9))) s.

(** ** The commands of colon() *)
(** what colon() has parsed when it looks for the command: cmd[] without the
    '!', the arguments, the addresses and the range of text they select *)
Record colon_args := mkColon {
  c_cmd : list Z; c_args : list Z; c_force : bool;
  c_b : Z; c_e : Z; c_got : Z;
  c_q : Z; c_r : Z; c_li : Z
}.
Definition GOT_ADDRESS (got : Z) : bool := negb (Z.land got 1 =? 0).
Definition GOT_RANGE (got : Z) : bool := Z.land got 3 =? 3.
Definition no_write_msg (cmd : list Z) : list Z :=
  str "No write since last change (:" ++ cmd ++ str "! overrides)".
(** the range of a command that works on the current line by default *)
Definition line_range (a : colon_args) : EM (Z * Z) :=
  if GOT_ADDRESS (c_got a) then ret (c_q a, c_r a)
  else
    d <- gets dot ;; q <- begin_line d ;; r <- end_line d ;; ret (q, r).

Definition colon_goto (a : colon_args) : EM unit :=
  if 0 <=? c_e a then
    d <- find_line (c_e a) ;; modify (set_dot d) ;; dot_skip_over_ws
  else ret tt.
Definition colon_equal (a : colon_args) : EM unit :=
  s <- get ;;
  e <- (if GOT_ADDRESS (c_got a) then ret (c_e a) else count_lines (text s) (dot s)) ;;
  status_line (dec e).
Definition colon_delete (a : colon_args) : EM unit :=
  qr <- line_range a ;;
  d <- yank_delete (fst qr) (snd qr) WHOLE YANKDEL ALLOW_UNDO ;;
  modify (set_dot d) ;;
  dot_skip_over_ws.
Definition colon_edit (a : colon_args) : EM unit :=
  s <- get ;;
  if negb (modified_count s =? 0) && negb (c_force a) then status_line_bold (no_write_msg (c_cmd a))
  else
    match (match c_args a with [] => current_filename s | args => Some args end) with
    | None => status_line_bold (str "No current filename")
    | Some fn =>
        size <- init_text_buffer (Some fn) ;;
        set_reg_at Ureg None ;;
        s <- get ;;
        set_reg_at (YDreg s) None ;;
        li <- count_lines (text s) (endp s - 1) ;;
        status_line (39 :: fn ++ 39 :: (if size <? 0 then str " [New file]" else [])
                     ++ 32 :: dec li ++ str "L, " ++ dec (endp s - text s) ++ [67])
    end.
Definition colon_file (a : colon_args) : EM unit :=
  if 0 <=? c_e a then status_line_bold (str "No address allowed on this command")
  else
    match c_args a with
    | [] => modify (set_last_status_cksum 0)
    | args => update_filename (Some args)
    end.
Definition list_char (q : Z) : EM unit :=
  c <- rd q ;;
  let no_print := negb (Z.land c 0x80 =? 0) && negb (is_asciionly c) in
  let c := if no_print then 46 else c in
  when no_print standout_start ;;
  c <- (if c =? 10 then puts_no_eol (str "$" ++ [13]) ;; ret c
        else if (c <? 32) || (c =? 127) then
          putchar 94 ;; ret (if c =? 127 then 63 else c + 64)
        else ret c) ;;
  putchar c ;;
  when no_print standout_end.
Definition colon_list (a : colon_args) : EM unit :=
  qr <- line_range a ;;
  go_bottom_and_clear_to_eol ;;
  puts_no_eol [13] ;;
  repeat_ (Z.to_nat (snd qr - fst qr + 1)) (fst qr) list_char ;;
  Hit_Return.
Definition colon_quit (a : colon_args) : EM unit :=
  s <- get ;;
  if c_force a then modify (set_editing 0)
  else if negb (modified_count s =? 0) then status_line_bold (no_write_msg (c_cmd a))
  else
    let n := argc s - vi_optind s - 1 in
    let c := hd0 (c_cmd a) in
    if (c =? 113) && (0 <? n) then status_line_bold (dec (u32 n) ++ str " more file(s) to edit")
    else if (c =? 110) && (n <=? 0) then status_line_bold (str "No more files to edit")
    else if c =? 112 then
      if vi_optind s <? 2 then status_line_bold (str "No previous files to edit")
      else modify (set_vi_optind (vi_optind s - 2)) ;; modify (set_editing 0)
    else modify (set_editing 0).
Definition colon_read (a : colon_args) : EM unit :=
  s <- get ;;
  match (match c_args a with [] => current_filename s | args => Some args end) with
  | None => status_line_bold (str "No current filename")
  | Some fn =>
      match c_args a with [] => ret tt | args => init_filename args end ;;
      q <- (if c_e a =? 0 then ret (text s)
            else
              l <- (if GOT_ADDRESS (c_got a) then find_line (c_e a) else ret (dot s)) ;;
              q <- next_line l ;;
              ret (if q =? endp s - 1 then q + 1 else q)) ;;
      num <- count_lines (text s) q ;;
      let num := if q =? endp s then num + 1 else num in
      let ofs := q - text s in
      size <- file_insert (Some fn) q false ;;
      if size <? 0 then ret tt
      else
        t <- gets text ;;
        li <- count_lines (t + ofs) (t + ofs + size - 1) ;;
        status_line (39 :: fn ++ str "' " ++ dec li ++ str "L, " ++ dec size ++ [67]) ;;
        d <- find_line num ;;
        modify (set_dot d)
  end.
Definition colon_rewind (a : colon_args) : EM unit :=
  s <- get ;;
  if negb (modified_count s =? 0) && negb (c_force a) then status_line_bold (no_write_msg (c_cmd a))
  else modify (fun s => set_editing 0 (set_vi_optind 0 s)).

Definition no_opt (b : bool) (name : list Z) : list Z := (if b then [] else str "no") ++ name.
Definition set_body (argp : list Z) : EM (list Z + unit) :=
  match argp with
  | [] => ret (inr tt)
  | _ =>
      let i := if (nth0 0 argp =? 110) && (nth0 1 argp =? 111) then 2 else 0 in
      let argn := skip_non_whitespace argp in
      setops (take (length argp - length argn) argp) i ;;
      ret (inl (skip_whitespace argn))
  end.
Definition colon_set (a : colon_args) : EM unit :=
  s <- get ;;
  if (zlen (c_args a) =? 0) || streq (c_args a) (str "all") then
    status_line_bold (no_opt (autoindent s) (str "autoindent ") ++ no_opt (expandtab s) (str "expandtab ")
      ++ no_opt (err_method s) (str "flash ") ++ no_opt (ignorecase s) (str "ignorecase ")
      ++ no_opt (showmatch s) (str "showmatch ") ++ str "tabstop=" ++ dec (tabstop s))
  else iter (S (length (c_args a))) set_body (c_args a).

(** substitute: the "vc4" loop on one line, on (q, ls, subs, last_line, lines) *)
Record subst_st := mkSubst { b_q : Z; b_ls : Z; b_subs : Z; b_last : Z; b_lines : Z }.
Definition subst_body (F R : list Z) (gflag i : Z) (v : subst_st) : EM (subst_st + subst_st) :=
  let '(mkSubst q ls subs last_line lines) := v in
  found <- char_search q F (Z.lor (Z.shiftl FORWARD 1) LIMITED) ;;
  if found =? 0 then ret (inr v)
  else
    text_hole_delete found (found + zlen F - 1)
      (if negb (subs =? 0) then ALLOW_UNDO_CHAIN else ALLOW_UNDO) ;;
    bias <- (if negb (zlen R =? 0) then string_insert found R ALLOW_UNDO_CHAIN else ret 0) ;;
    let found := found + bias in
    let ls := ls + bias in
    modify (set_dot ls) ;;
    let subs := subs + 1 in
    let '(last_line, lines) := if negb (last_line =? i) then (i, lines + 1) else (last_line, lines) in
    if gflag =? 103 then
      e <- end_line ls ;;
      if found + zlen R <? e then ret (inl (mkSubst (found + zlen R) ls subs last_line lines))
      else ret (inr (mkSubst q ls subs last_line lines))
    else ret (inr (mkSubst q ls subs last_line lines)).
(** one line of the range; [b_q] is the start of the line *)
Definition subst_line (F R : list Z) (gflag i : Z) (v : subst_st) : EM subst_st :=
  s <- get ;;
  v <- iter (S (Z.to_nat (endp s - b_q v))) (subst_body F R gflag i)
         (mkSubst (b_q v) (b_q v) (b_subs v) (b_last v) (b_lines v)) ;;
  q <- next_line (b_ls v) ;;
  ret (mkSubst q (b_ls v) (b_subs v) (b_last v) (b_lines v)).
Fixpoint subst_lines (n : nat) (F R : list Z) (gflag i : Z) (v : subst_st) : EM subst_st :=
  match n with
  | O => ret v
  | S n => v <- subst_line F R gflag i v ;; subst_lines n F R gflag (i + 1) v
  end.
(** [buf] is the command line from the 's' on; answers false for colon_s_fail *)
Definition colon_subst (a : colon_args) (buf : list Z) : EM bool :=
  let c := nth0 1 buf in
  match strchr (drop 2 buf) c with
  | None => status_line (str ":s expression missing delimiters") ;; ret false
  | Some R1 =>
      let F := take (length (drop 2 buf) - length R1) (drop 2 buf) in
      let R1 := tl R1 in
      let '(R, gflag) := match strchr R1 c with
                         | Some f => (take (length R1 - length f) R1, hd0 (tl f))
                         | None => (R1, 0)
                         end in
      s <- get ;;
      if (zlen F =? 0) && (nth0 1 (last_search_pattern s) =? 0) then
        status_line_bold (str "No previous search") ;; ret true
      else
        F <- (if zlen F =? 0 then ret (drop 1 (last_search_pattern s))
              else modify (set_last_search_pattern (47 :: F)) ;; ret F) ;;
        be <- (if negb (GOT_ADDRESS (c_got a)) then
                 q <- begin_line (dot s) ;;
                 end_line (dot s) ;;
                 n <- count_lines (text s) q ;; ret (q, n, n)
               else if negb (GOT_RANGE (c_got a)) then ret (c_q a, c_e a, c_e a)
               else ret (c_q a, c_b a, c_e a)) ;;
        let '(q, b, e) := (be : Z * Z * Z) in
        v <- subst_lines (Z.to_nat (e - b + 1)) F R gflag b (mkSubst q q 0 0 0) ;;
        (if b_subs v =? 0 then status_line_bold (str "No match")
         else
           dot_skip_over_ws ;;
           when (1 <? b_subs v)
             (status_line (dec (b_subs v) ++ str " substitutions on " ++ dec (b_lines v) ++ str " lines"))) ;;
        ret true
  end.
Definition colon_version : EM unit := status_line (str "vi 0.9.1-vim").

Definition file_exists (s : Ed) (fn : list Z) : bool :=
  match find_file fn (files s) with Some _ => true | None => false end.
(** after a complete write: the modified flag, and :wn, :wq and :x *)
Definition write_done (a : colon_args) (l : Z) : EM unit :=
  s <- get ;;
  when ((c_q a =? text s) && (c_q a + l =? endp s))
    (modify (fun s => set_last_modified_count (-1) (set_modified_count 0 s))) ;;
  if nth0 1 (c_cmd a) =? 110 then modify (set_editing 0)
  else if (hd0 (c_cmd a) =? 120) || (nth0 1 (c_cmd a) =? 113) then
    let n := argc s - vi_optind s - 1 in
    if 0 <? n then
      if c_force a then modify (fun s => set_editing 0 (set_vi_optind (argc s) s))
      else status_line_bold (dec (u32 n) ++ str " more file(s) to edit")
    else modify (set_editing 0)
  else ret tt.
Definition colon_write (a : colon_args) : EM unit :=
  s <- get ;;
  let args := c_args a in
  let fn := current_filename s in
  let given := negb (zlen args =? 0) in
  let other := match fn with None => true | Some fn => negb (streq fn args) end in
  if given && negb (c_force a) && other && file_exists s args then
    status_line_bold (str "File exists (:w! overrides)")
  else
    when given (init_filename args) ;;
    let fn := if given then Some args else fn in
    sl <- (if negb (modified_count s =? 0) || negb (hd0 (c_cmd a) =? 120) then
             l <- file_write fn (c_q a) (c_r a) ;; ret (c_r a - c_q a + 1, l)
           else ret (0, 0)) ;;
    let '(size, l) := (sl : Z * Z) in
    if l <? 0 then
      when (l =? -1) (status_line_bold_errno (default (str "(null)") fn))
    else
      li <- count_lines (c_q a) (c_q a + l - 1) ;;
      status_line (39 :: default (str "(null)") fn ++ str "' " ++ dec li ++ str "L, " ++ dec l ++ [67]) ;;
      if l =? size then write_done a l else ret tt.
Definition colon_yank (a : colon_args) : EM unit :=
  qr <- line_range a ;;
  let '(q, r) := (qr : Z * Z) in
  s <- get ;;
  text_yank q r (YDreg s) WHOLE ;;
  li <- count_lines q r ;;
  v <- get_reg (YDreg s) ;;
  v <- lift NullDeref v ;;
  status_line (str "Yank " ++ dec li ++ str " lines (" ++ dec (zlen (r_text v))
               ++ str " chars) into [" ++ [what_reg (YDreg s); 93]).

(** look for the command; answers false for colon_s_fail *)
Definition colon_dispatch (a : colon_args) (buf : list Z) : EM bool :=
  let cmd := c_cmd a in
  if zlen cmd =? 0 then colon_goto a ;; ret true
  else if (hd0 cmd =? 61) && (nth0 1 cmd =? 0) then colon_equal a ;; ret true
  else if prefixb cmd (str "delete") then colon_delete a ;; ret true
  else if prefixb cmd (str "edit") then colon_edit a ;; ret true
  else if prefixb cmd (str "file") then colon_file a ;; ret true
  else if prefixb cmd (str "list") then colon_list a ;; ret true
  else if prefixb cmd (str "quit") || prefixb cmd (str "next") || prefixb cmd (str "prev")
  then colon_quit a ;; ret true
  else if prefixb cmd (str "read") then colon_read a ;; ret true
  else if prefixb cmd (str "rewind") then colon_rewind a ;; ret true
  else if prefixb cmd (str "set") then colon_set a ;; ret true
  else if hd0 cmd =? 115 then colon_subst a buf
  else if prefixb cmd (str "version") then colon_version ;; ret true
  else if prefixb cmd (str "write") || streq cmd (str "wq") || streq cmd (str "wn")
       || ((hd0 cmd =? 120) && (nth0 1 cmd =? 0))
  then colon_write a ;; ret true
  else if prefixb cmd (str "yank") then colon_yank a ;; ret true
  else not_implemented cmd ;; ret true.

(** the command word and its arguments: (cmd, args, useforce) *)
Definition split_command (buf : list Z) : list Z * list Z * bool :=
  let cmd := take_while (fun c => negb (isspace c)) buf in
  let rest := skip_while (fun c => negb (isspace c)) buf in
  let args := if isblank (hd0 rest) then skip_while isblank rest else [] in
  match rev cmd with
  | 33 :: cmd' => (rev cmd', args, true)
  | _ => (cmd, args, false)
  end.

(** the lines q..r that the addresses select; None is "Invalid range" *)
Definition select_range (b e got li : Z) : EM (option (Z * Z * Z)) :=
  s <- get ;;
  if negb (GOT_ADDRESS got) then ret (Some (text s, endp s - 1, li))
  else if (e <? 0) || (li <? e) then ret None
  else
    q <- find_line e ;;
    if negb (GOT_RANGE got) then r <- end_line q ;; ret (Some (q, r, 1))
    else if (b <? 0) || (li <? b) || (e <? b) then ret None
    else
      q' <- find_line b ;; r <- end_line q ;; ret (Some (q', r, e - b + 1)).

(** the body of colon() up to the label ret; false is colon_s_fail *)
Definition colon_run (buf : list Z) : EM bool :=
  let buf := skip_while isblank (skip_while (fun c => c =? 58) buf) in
  if (hd0 buf =? 0) || (hd0 buf =? 34) then ret true
  else
    s <- get ;;
    li <- count_lines (text s) (endp s - 1) ;;
    pr <- get_address buf (-1) (-1) 0 ;;
    let '(p, g) := (pr : option (list Z) * range) in
    match p with
    | None => ret true
    | Some buf =>
        if MAX_INPUT_LEN <=? zlen buf then oob
        else
          let '(cmd, args, useforce) := split_command buf in
          r <- select_range (g_b g) (g_e g) (g_got g) li ;;
          match r with
          | None => status_line_bold (str "Invalid range") ;; ret true
          | Some (q, r, li) =>
              colon_dispatch (mkColon cmd args useforce (g_b g) (g_e g) (g_got g) q r li) buf
          end
    end.
Definition colon (buf : list Z) : EM unit :=
  ok <- colon_run buf ;;
  if (ok : bool) then d <- gets dot ;; d <- bound_dot d ;; modify (set_dot d) else ret tt.
