(* ===== verification/EvimCmd.v ===== *)
(** * evim: normal mode commands (vim_dcmd.c, find_range() of vim_cmd.c)

    Each [case] of the switch in do_cmd() is a definition that answers the
    label it leaves to; [finish_cmd] is the code after the label dc1.
    find_range() calls do_cmd() for a motion and do_cmd() calls find_range()
    for an operator: the definitions of the operators take do_cmd() as the
    argument [rec], and [do_cmd] ties the knot. *)
From S2P Require Import Prelude EvimState EvimLine EvimSyntax EvimInput EvimTerm EvimEdit EvimEx.

(** where a case of the switch goes next; [Dc1_here] is the one case that
    also does [orig_dot = dot] *)
Inductive label := Dc1 | Dc1_here | Dc_i | Dc5 | Dc6.

(** [do body while (--cmdcnt > 0)] *)
Definition cmdcnt_body (body : EM unit) (_ : unit) : EM (unit + unit) :=
  body ;;
  modify (fun s => set_cmdcnt (i32 (cmdcnt s - 1)) s) ;;
  s <- get ;;
  ret (if 0 <? cmdcnt s then inl tt else inr tt).
Definition do_cmdcnt (body : EM unit) : EM unit :=
  s <- get ;; iter (S (Z.to_nat (cmdcnt s))) (cmdcnt_body body) tt.
(** the same for a body that changes a local variable, and may leave the loop *)
Definition cmdcnt_var_body {A B} (body : A -> EM (A + B)) (a : A) : EM (A + (A + B)) :=
  r <- body a ;;
  match r with
  | inr b => ret (inr (inr b))
  | inl a =>
      modify (fun s => set_cmdcnt (i32 (cmdcnt s - 1)) s) ;;
      s <- get ;;
      ret (if 0 <? cmdcnt s then inl a else inr (inl a))
  end.
Definition do_cmdcnt_var {A B} (body : A -> EM (A + B)) (a : A) : EM (A + B) :=
  s <- get ;; iter (S (Z.to_nat (cmdcnt s))) (cmdcnt_var_body body) a.
Definition count_or_1 (s : Ed) : Z := if cmdcnt s =? 0 then 1 else cmdcnt s.
Definition set_dot_from (m : EM Z) : EM unit := d <- m ;; modify (set_dot d).

(** ** find_range() *)
(** skip back over whitespace for 'w' and 'W', on (dot, t) *)
Definition w_trim_body (p t : Z) : EM (Z + Z) :=
  s <- get ;;
  if p <? dot s then
    c <- rd (dot s) ;;
    if isspace c then
      modify (set_dot (dot s - 1)) ;;
      ret (inl (if c =? 10 then dot s - 1 else t))
    else ret (inr t)
  else ret (inr t).
Definition range_word (rec : Z -> EM unit) (cmd c p : Z) : EM unit :=
  rec c ;;
  s <- get ;;
  back <- (if p <? dot s then
             eof <- at_eof (dot s) ;;
             if negb eof then ret true
             else if c =? 119 then x <- rd (dot s) ;; ret (ispunct x) else ret false
           else ret false) ;;
  when (back : bool) (modify (set_dot (dot s - 1))) ;;
  s <- get ;;
  t <- iter (S (Z.to_nat (dot s - p))) (w_trim_body p) (dot s) ;;
  s <- get ;;
  if negb (cmd =? 99) && negb (dot s =? t) then
    x <- rd (dot s) ;; when (negb (x =? 10)) (modify (set_dot t))
  else ret tt.

(** the type of the range, -1 for an invalid one *)
Definition range_motion (rec : Z -> EM unit) (cmd c p : Z) : EM Z :=
  if ((cmd =? 89) || (cmd =? c)) && strchr_in (str "cdy><") c then
    modify (fun s => set_cmdcnt (i32 (cmdcnt s - 1)) s) ;;
    s <- get ;;
    if 0 <? cmdcnt s then
      rec 106 ;; s <- get ;; ret (if cmd_error s then -1 else WHOLE)
    else ret WHOLE
  else if strchr_in (str "^%$0bBeEfFtThnN/?|{}" ++ [8; 127]) c then
    rec c ;;
    d <- gets dot ;;
    ret (if p =? d then -1 else if strchr_in (str "nN/?") c then MULTI else PARTIAL)
  else if strchr_in (str "wW") c then range_word rec cmd c p ;; ret MULTI
  else if strchr_in (str "GHL+-gjk'" ++ [13; 10]) c then
    rec c ;; s <- get ;; ret (if cmd_error s then -1 else WHOLE)
  else if (c =? 32) || (c =? 108) then
    s <- get ;;
    let tmpcnt := count_or_1 s in
    rec c ;;
    s <- get ;;
    when (tmpcnt =? dot s - p) (modify (set_dot (dot s - 1))) ;;
    ret PARTIAL
  else ret (-1).

(** the end of the range for motions that do not include it *)
Definition range_end (c p q buftype : Z) : EM (Z * Z) :=
  if p <? q then
    if strchr_in (str "^0bBFThnN/?|" ++ [8; 127]) c then ret (q - 1, buftype)
    else if strchr_in (str "{}") c then
      b <- begin_line p ;;
      eof <- at_eof q ;;
      whole <- (if p =? b then x <- rd q ;; ret ((x =? 10) || eof) else ret false) ;;
      let buftype := if (whole : bool) then WHOLE else MULTI in
      if (eof : bool) then ret (q, buftype)
      else
        let q := q - 1 in
        ret (if (p <? q) && negb (p =? b) then q - 1 else q, buftype)
    else ret (q, buftype)
  else ret (q, buftype).

(** answers None for -1, or (start, stop, buftype) *)
Definition find_range (rec : Z -> EM unit) (cmd : Z) : EM (option (Z * Z * Z)) :=
  p <- gets dot ;;
  c <- (if cmd =? 89 then ret 121 else get_motion_char) ;;
  buftype <- range_motion rec cmd c p ;;
  if buftype =? -1 then
    (if negb (c =? 27) then indicate_error else ret tt) ;; ret None
  else
    q <- gets dot ;;
    let '(p, q) := if q <? p then (q, p) else (p, q) in
    qb <- range_end c p q buftype ;;
    let '(q, buftype) := (qb : Z * Z) in
    ret (Some (p, q, buftype)).

(** ** Visual selection *)
Definition is_visual_motion (c : Z) : bool :=
  existsb (Z.eqb c) [KEYCODE_UP; KEYCODE_DOWN; KEYCODE_LEFT; KEYCODE_RIGHT; KEYCODE_HOME; KEYCODE_END;
    KEYCODE_PAGEUP; KEYCODE_PAGEDOWN; 2; 4; 5; 6; 8; 0x7f; 12; 18; 21; 25]
  || ((0 <? c) &&
      strchr_in (str "hjkl " ++ [13; 10] ++ str "+-0$^%|wWbBeE{}gGHLMfFtT;,/?nNz" ++ [34] ++ str "123456789") c).

(** remove up to tabstop leading spaces, on (p, allow_undo, j) *)
Definition vis_unshift_body (v : Z * allow_undo * Z) : EM ((Z * allow_undo * Z) + (Z * allow_undo)) :=
  let '(p, au, j) := v in
  s <- get ;;
  c <- rd p ;;
  if (c =? 32) && (j <? tabstop s) then
    p <- text_hole_delete p p au ;; ret (inl (p, ALLOW_UNDO_CHAIN, j + 1))
  else ret (inr (p, au)).
Definition vis_shift_line (c : Z) (p : Z) (au : allow_undo) : EM Z :=
  if c =? 60 then
    x <- rd p ;;
    if x =? 9 then text_hole_delete p p au
    else if x =? 32 then
      s <- get ;;
      r <- iter (S (Z.to_nat (tabstop s))) vis_unshift_body (p, au, 0) ;; ret (fst r)
    else ret p
  else
    e <- end_line p ;;
    if p =? e then ret p else char_insert p 9 au.
Fixpoint vis_shift_lines (n : nat) (c p : Z) (au : allow_undo) : EM unit :=
  match n with
  | O => ret tt
  | S n =>
      p <- vis_shift_line c p au ;;
      p <- next_line p ;;
      vis_shift_lines n c p ALLOW_UNDO_CHAIN
  end.
Definition visual_shift (c lo hi : Z) : EM unit :=
  t <- gets text ;;
  li <- count_lines t lo ;;
  nlines <- count_lines lo hi ;;
  p <- begin_line lo ;;
  vis_shift_lines (Z.to_nat nlines) c p ALLOW_UNDO ;;
  set_dot_from (find_line li) ;;
  dot_skip_over_ws.
Definition reg_id (r : option regval) : option nat := match r with Some v => Some (r_id v) | None => None end.
Definition reg_changed (a b : option regval) : bool :=
  match reg_id a, reg_id b with
  | Some i, Some j => negb (i =? j)%nat
  | None, None => false
  | _, _ => true
  end.
(** after an operator that left one empty line: like 'cc' *)
Definition change_line : EM unit :=
  d <- gets dot ;;
  set_dot_from (char_insert d 10 ALLOW_UNDO_CHAIN) ;;
  s <- get ;;
  if negb (dot s =? endp s - 1) then dot_prev else ret tt.
Definition visual_yank_delete (c lo hi : Z) : EM unit :=
  let linewise := existsb (Z.eqb c) [88; 89; 68; 67; 62; 60] in
  let yf := if (c =? 121) || (c =? 89) then YANKONLY else YANKDEL in
  bl <- begin_line lo ;;
  bh <- begin_line hi ;;
  let buftype := if (linewise : bool) then WHOLE else if bl =? bh then PARTIAL else MULTI in
  s <- get ;;
  savereg <- get_reg (YDreg s) ;;
  set_dot_from (yank_delete lo hi buftype yf ALLOW_UNDO) ;;
  (if (linewise : bool) then (if c =? 67 then change_line else dot_begin ;; dot_skip_over_ws)
   else ret tt) ;;
  r <- get_reg (YDreg s) ;;
  (if reg_changed r savereg then
     v <- lift NullDeref r ;;
     yank_status (if yf then str "Delete" else str "Yank") (r_text v) 1
   else ret tt) ;;
  if (c =? 99) || (c =? 67) then modify (set_cmd_mode 1) ;; undo_queue_commit else ret tt.
Definition visual_operate (c : Z) : EM unit :=
  s <- get ;;
  let '(lo, hi) := if dot s <? vi_visual_anchor s then (dot s, vi_visual_anchor s)
                   else (vi_visual_anchor s, dot s) in
  let lo := if lo <? text s then text s else lo in
  let hi := if endp s - 1 <? hi then endp s - 1 else hi in
  modify (fun s => set_last_status_cksum 0 (set_vi_visual 0 s)) ;;
  (if (c =? 62) || (c =? 60) then visual_shift c lo hi else visual_yank_delete c lo hi) ;;
  end_cmd_q.

(** ** Cursor motions *)
Definition cmd_down_body (q : Z) : EM (Z + unit) :=
  p <- next_line q ;; e <- end_line q ;;
  if p =? e then indicate_error ;; ret (inr tt) else ret (inl p).
Definition cmd_up_body (q : Z) : EM (Z + unit) :=
  p <- prev_line q ;; b <- begin_line q ;;
  if p =? b then indicate_error ;; ret (inr tt) else ret (inl p).
(** stay in the saved column, or at the end of the line after '$' *)
Definition to_saved_column : EM unit :=
  s <- get ;;
  set_dot_from (if cindex s =? C_END then end_line (dot s) else move_to_col (dot s) (cindex s)) ;;
  modify (set_keep_index true).
Definition cmd_down (c : Z) : EM label :=
  d <- gets dot ;;
  r <- do_cmdcnt_var cmd_down_body d ;;
  match r with
  | inr _ => ret Dc1
  | inl q =>
      modify (set_dot q) ;;
      (if (c =? 13) || (c =? 43) then dot_skip_over_ws else to_saved_column) ;;
      ret Dc1
  end.
Definition cmd_up (c : Z) : EM label :=
  d <- gets dot ;;
  r <- do_cmdcnt_var cmd_up_body d ;;
  match r with
  | inr _ => ret Dc1
  | inl q =>
      modify (set_dot q) ;;
      (if c =? 45 then dot_skip_over_ws else to_saved_column) ;;
      ret Dc1
  end.
Definition cmd_esc : EM label :=
  s <- get ;;
  (if cmd_mode s =? 0 then indicate_error else ret tt) ;;
  modify (set_cmd_mode 0) ;;
  undo_queue_commit ;;
  end_cmd_q ;;
  modify (set_last_status_cksum 0) ;;
  ret Dc1.
Definition cmd_register : EM label :=
  c <- get_one_char ;;
  let c1 := Z.lor c 0x20 - 97 in
  if u32 c1 <=? 25 then modify (set_YDreg c1) ;; ret Dc1
  else indicate_error ;; ret Dc1.
Definition cmd_goto_mark : EM label :=
  c <- get_one_char ;;
  let c1 := Z.lor c 0x20 in
  if u32 (c1 - 97) <=? 25 then
    q <- get_mark (c1 - 97) ;;
    s <- get ;;
    if (text s <=? q) && (q <? endp s) then
      modify (set_dot q) ;; dot_begin ;; dot_skip_over_ws ;; ret Dc1
    else indicate_error ;; ret Dc1
  else if c1 =? 39 then
    d <- gets dot ;;
    set_dot_from (swap_context d) ;; dot_begin ;; dot_skip_over_ws ;; ret Dc1_here
  else indicate_error ;; ret Dc1.
Definition cmd_mark : EM label :=
  c <- get_one_char ;;
  let c1 := Z.lor c 0x20 - 97 in
  if u32 c1 <=? 25 then d <- gets dot ;; set_mark_at c1 d ;; ret Dc1
  else indicate_error ;; ret Dc1.
Definition dollar_body (_ : unit) : EM (unit + unit) :=
  dot_to end_line ;;
  modify (fun s => set_cmdcnt (i32 (cmdcnt s - 1)) s) ;;
  s <- get ;;
  if cmdcnt s <=? 0 then ret (inr tt) else dot_next ;; ret (inl tt).
Definition cmd_dollar : EM label :=
  s <- get ;;
  iter (S (Z.to_nat (cmdcnt s))) dollar_body tt ;;
  modify (fun s => set_keep_index true (set_cindex C_END s)) ;;
  ret Dc1.
(** the first bracket at or after q on the line; answers where the loop ends *)
Definition percent_body (q : Z) : EM (Z + Z) :=
  s <- get ;;
  if q <? endp s then
    c <- rd q ;;
    if c =? 10 then ret (inr q)
    else if strchr_in braces c then
      p <- find_pair q c ;;
      (if p =? 0 then indicate_error else modify (set_dot p)) ;;
      ret (inr q)
    else ret (inl (q + 1))
  else ret (inr q).
Definition cmd_percent : EM label :=
  s <- get ;;
  q <- iter (S (Z.to_nat (endp s - dot s))) percent_body (dot s) ;;
  c <- rd q ;;
  (if c =? 10 then indicate_error else ret tt) ;;
  ret Dc1.
Definition cmd_to_char (c : Z) : EM label :=
  (if (c =? 59) || (c =? 44) then ret tt
   else x <- get_one_char ;; modify (fun s => set_last_search_cmd c (set_last_search_char x s))) ;;
  s <- get ;;
  dot_to_char (if negb (c =? 44) then last_search_cmd s else Z.lxor (last_search_cmd s) 0x20) ;;
  ret Dc1.

(** ** Searching *)
Definition search_msg (dir : Z) (found : bool) : list Z :=
  if found then
    str "search hit " ++ (if dir =? FORWARD then str "BOTTOM" else str "TOP") ++ str ", continuing at "
    ++ (if dir =? FORWARD then str "TOP" else str "BOTTOM")
  else str "Pattern not found".
Definition search_once (dir : Z) : EM unit :=
  s <- get ;;
  let pat := drop 1 (last_search_pattern s) in
  let dr := Z.lor (Z.shiftl dir 1) FULL in
  q <- char_search (dot s + dir) pat dr ;;
  if negb (q =? 0) then modify (set_dot q)
  else
    q <- char_search (if dir =? FORWARD then text s else endp s - 1) pat dr ;;
    (if negb (q =? 0) then modify (set_dot q) else modify (set_cmdcnt 0)) ;;
    status_line_bold (search_msg dir (negb (q =? 0))).
Definition cmd_search_dir (dir : Z) : EM label :=
  s <- get ;;
  if nth0 1 (last_search_pattern s) =? 0 then
    status_line_bold (str "No previous search") ;; ret Dc1
  else do_cmdcnt (search_once dir) ;; ret Dc1.
Definition cmd_search_again (same : bool) : EM label :=
  s <- get ;;
  let fwd := hd0 (last_search_pattern s) =? 47 in
  cmd_search_dir (if Bool.eqb fwd same then FORWARD else BACK).
Definition cmd_search (c : Z) : EM label :=
  q <- get_input_line [c] ;;
  match q with
  | [] => ret Dc1
  | [_] =>
      modify (fun s => set_last_search_pattern
        (match last_search_pattern s with [] => [] | _ :: l => c :: l end) s) ;;
      cmd_search_again true
  | _ => modify (set_last_search_pattern q) ;; cmd_search_again true
  end.
(** one paragraph; [inr]: end of file *)
Definition paragraph_body (dir : Z) (skip : bool) : EM (bool + bool) :=
  s <- get ;;
  if (if dir =? FORWARD then dot s <? endp s - 1 else text s <? dot s) then
    c <- rd (dot s) ;;
    c' <- (if c =? 10 then rd (dot s + dir) else ret 0) ;;
    if (c =? 10) && (c' =? 10) then
      if negb skip then
        when (dir =? FORWARD) (modify (set_dot (dot s + 1))) ;; ret (inr true)
      else modify (set_dot (dot s + dir)) ;; ret (inl skip)
    else modify (set_dot (dot s + dir)) ;; ret (inl false)
  else ret (inr false).
Definition paragraph_once (dir : Z) (_ : unit) : EM (unit + unit) :=
  s <- get ;;
  found <- iter (S (Z.to_nat (endp s - text s))) (paragraph_body dir) true ;;
  ret (if (found : bool) then inl tt else inr tt).
Definition cmd_paragraph (c : Z) : EM label :=
  r <- do_cmdcnt_var (paragraph_once (if c =? 125 then FORWARD else BACK)) tt ;;
  ret (match r with inl _ => Dc1 | inr _ => Dc6 end).
Definition cmd_digit (c : Z) : EM label :=
  s <- get ;;
  if (c =? 48) && (cmdcnt s <? 1) then dot_begin ;; ret Dc1
  else modify (set_cmdcnt (i32 (cmdcnt s * 10 + (c - 48)))) ;; ret Dc1.

(** ** Word motions *)
Definition skip_dot (linecnt dir type : Z) : EM unit :=
  d <- gets dot ;; set_dot_from (skip_thing d linecnt dir type).
Definition cmd_blank_word (c : Z) : EM label :=
  let dir := if c =? 66 then BACK else FORWARD in
  do_cmdcnt
    (s <- get ;;
     sp <- (if c =? 87 then ret true else x <- rd (dot s + dir) ;; ret (isspace x)) ;;
     (if (sp : bool) then skip_dot 1 dir S_TO_WS ;; skip_dot 2 dir S_OVER_WS else ret tt) ;;
     if negb (c =? 87) then skip_dot 1 dir S_BEFORE_WS else ret tt) ;;
  ret Dc1.
Definition cmd_be_body (c dir : Z) (_ : unit) : EM (unit + unit) :=
  s <- get ;;
  if (dot s + dir <? text s) || (endp s - 1 <? dot s + dir) then ret (inr tt)
  else
    modify (set_dot (dot s + dir)) ;;
    d <- gets dot ;; x <- rd d ;;
    (if isspace x then skip_dot (if c =? 101 then 2 else 1) dir S_OVER_WS else ret tt) ;;
    d <- gets dot ;; x <- rd d ;;
    (if isalnum x || (x =? 95) then skip_dot 1 dir S_END_ALNUM
     else if ispunct x then skip_dot 1 dir S_END_PUNCT else ret tt) ;;
    ret (inl tt).
Definition cmd_be (c : Z) : EM label :=
  do_cmdcnt_var (cmd_be_body c (if c =? 98 then BACK else FORWARD)) tt ;; ret Dc1.
Definition cmd_w : EM label :=
  do_cmdcnt
    (d <- gets dot ;; x <- rd d ;;
     (if isalnum x || (x =? 95) then skip_dot 1 FORWARD S_END_ALNUM
      else if ispunct x then skip_dot 1 FORWARD S_END_PUNCT else ret tt) ;;
     s <- get ;;
     when (dot s <? endp s - 1) (modify (set_dot (dot s + 1))) ;;
     d <- gets dot ;; x <- rd d ;;
     if isspace x then skip_dot 2 FORWARD S_OVER_WS else ret tt) ;;
  ret Dc1.

(** ** Screen motions *)
Definition cmd_G : EM label :=
  s <- get ;;
  modify (set_dot (endp s - 1)) ;;
  (if 0 <? cmdcnt s then set_dot_from (find_line (cmdcnt s)) else ret tt) ;;
  dot_begin ;; dot_skip_over_ws ;; ret Dc1.
Definition cmd_g : EM label :=
  c1 <- get_one_char ;;
  if negb (c1 =? 103) then
    not_implemented (cstr [103; u8 (if 0 <=? c1 then c1 else 42)]) ;;
    modify (set_cmd_error true) ;; ret Dc1
  else
    s <- get ;;
    when (cmdcnt s =? 0) (modify (set_cmdcnt 1)) ;;
    cmd_G.
(** [while (--cmdcnt > 0) body] *)
Definition pre_cmdcnt_body (body : EM unit) (_ : unit) : EM (unit + unit) :=
  modify (fun s => set_cmdcnt (i32 (cmdcnt s - 1)) s) ;;
  s <- get ;;
  if 0 <? cmdcnt s then body ;; ret (inl tt) else ret (inr tt).
Definition screen_lines (body : EM unit) : EM label :=
  s <- get ;;
  when (u32 (rows s - 1) <? u32 (cmdcnt s)) (modify (set_cmdcnt (u32 (rows s - 1)))) ;;
  s <- get ;;
  iter (S (Z.to_nat (cmdcnt s))) (pre_cmdcnt_body body) tt ;;
  dot_begin ;; dot_skip_over_ws ;; ret Dc1.
Definition cmd_H : EM label :=
  s <- get ;; modify (set_dot (screenbegin s)) ;; screen_lines dot_next.
Definition cmd_L : EM label := set_dot_from end_screen ;; screen_lines dot_prev.
Definition cmd_M : EM label :=
  s <- get ;;
  set_dot_from (fold_n (Z.to_nat (u32 (rows s - 1) / 2)) next_line (screenbegin s)) ;;
  dot_skip_over_ws ;; ret Dc1.
Definition cmd_z : EM label :=
  c1 <- get_one_char ;;
  s <- get ;;
  let cnt := if c1 =? 45 then u32 (rows s - 2) else if c1 =? 46 then u32 (rows s - 2) / 2 else 0 in
  b <- begin_line (dot s) ;;
  modify (set_screenbegin b) ;;
  dot_scroll cnt (-1) ;;
  ret Dc1.

(** ** Registers, undo and repeat *)
Definition put_body (p : list Z) (au : allow_undo) : EM (allow_undo + unit) :=
  d <- gets dot ;; string_insert d p au ;; ret (inl ALLOW_UNDO_CHAIN).
Definition cmd_put (c : Z) : EM label :=
  s <- get ;;
  r <- get_reg (YDreg s) ;;
  match r with
  | None => status_line_bold (str "Nothing in register " ++ [what_reg (YDreg s)]) ;; ret Dc1
  | Some v =>
      let p := r_text v in
      let i := count_or_1 s in
      ty <- get_regtype (YDreg s) ;;
      cnt <- (if ty =? WHOLE then
                (if c =? 80 then dot_begin
                 else
                   e <- end_line (dot s) ;;
                   if e =? endp s - 1 then modify (set_dot (endp s)) else dot_next) ;; ret 0
              else
                (if c =? 112 then dot_right else ret tt) ;;
                ret (if existsb (Z.eqb 10) p then 0 else i * zlen p - 1)) ;;
      do_cmdcnt_var (put_body p) ALLOW_UNDO ;;
      modify (fun s => set_dot (dot s + cnt) s) ;;
      dot_skip_over_ws ;;
      yank_status (str "Put") p i ;;
      end_cmd_q ;;
      ret Dc1
  end.
Definition cmd_U : EM label :=
  r <- get_reg Ureg ;;
  match r with
  | None => ret Dc1
  | Some v =>
      d <- gets dot ;;
      p <- begin_line d ;; q <- end_line d ;;
      p <- text_hole_delete p q ALLOW_UNDO ;;
      bias <- string_insert p (r_text v) ALLOW_UNDO_CHAIN ;;
      modify (set_dot (p + bias)) ;;
      dot_skip_over_ws ;;
      yank_status (str "Undo") (r_text v) 1 ;;
      ret Dc1
  end.
Definition cmd_v : EM label :=
  modify (fun s => set_last_status_cksum 0 (set_vi_visual_anchor (dot s) (set_vi_visual 1 s))) ;; ret Dc1.
Definition cmd_repeat : EM label :=
  s <- get ;;
  if negb (lmc_len s =? 0) then
    when (negb (cmdcnt s =? 0)) (modify (set_dotcnt (cmdcnt s))) ;;
    (if lmc_len s <? zlen (last_modifying_cmd s) then ret tt else oob) ;;
    modify (fun s => set_last_modifying_cmd (<[Z.to_nat (lmc_len s) := 0]> (last_modifying_cmd s)) s) ;;
    modify (fun s => set_ioq_start true
      (set_ioq (dec (u32 (dotcnt s)) ++ cstr (last_modifying_cmd s)) s)) ;;
    ret Dc1
  else ret Dc1.

(** ** Changing text *)
Definition cmd_a : EM label :=
  s <- get ;;
  c <- rd (dot s) ;;
  when (negb (c =? 10)) (modify (set_dot (dot s + 1))) ;;
  ret Dc_i.
Definition cmd_CD (c : Z) : EM label :=
  save_dot <- gets dot ;;
  set_dot_from (dollar_line save_dot) ;;
  d <- gets dot ;;
  set_dot_from (yank_delete save_dot d PARTIAL YANKDEL ALLOW_UNDO) ;;
  if c =? 67 then ret Dc_i else end_cmd_q ;; ret Dc1.
(** delete leading whitespace of the joined line: [while (isblank( *dot )) ...] *)
Definition join_trim_body (_ : unit) : EM (unit + unit) :=
  d <- gets dot ;;
  c <- rd d ;;
  if isblank c then text_hole_delete d d ALLOW_UNDO_CHAIN ;; ret (inl tt) else ret (inr tt).
Definition join_once : EM unit :=
  dot_end ;;
  s <- get ;;
  if dot s <? endp s - 1 then
    undo_push (dot s) 1 UNDO_DEL ;;
    wr (dot s) 32 ;;
    modify (set_dot (dot s + 1)) ;;
    undo_push (dot s) 1 UNDO_INS_CHAIN ;;
    s <- get ;;
    iter (S (Z.to_nat (endp s - dot s))) join_trim_body tt
  else ret tt.
Definition cmd_J : EM label := do_cmdcnt join_once ;; end_cmd_q ;; ret Dc1.
(** o and O, from the label dc3 on *)
Definition cmd_open (c : Z) : EM label :=
  (if c =? 79 then dot_begin ;; modify (set_indentcol (-1)) else dot_end) ;;
  d <- gets dot ;;
  set_dot_from (char_insert d 10 ALLOW_UNDO) ;;
  s <- get ;;
  (if (c =? 79) && negb (autoindent s) then dot_prev else ret tt) ;;
  ret Dc_i.
Definition cmd_delete_key : EM label :=
  s <- get ;;
  (if dot s <? endp s - 1 then set_dot_from (yank_delete (dot s) (dot s) PARTIAL YANKDEL ALLOW_UNDO)
   else ret tt) ;;
  ret Dc1.
Definition x_body (c : Z) (au : allow_undo) : EM (allow_undo + unit) :=
  s <- get ;;
  x <- rd (dot s + (if c =? 88 then -1 else 0)) ;;
  if negb (x =? 10) then
    when (c =? 88) (modify (set_dot (dot s - 1))) ;;
    d <- gets dot ;;
    set_dot_from (yank_delete d d PARTIAL YANKDEL au) ;;
    ret (inl ALLOW_UNDO_CHAIN)
  else ret (inl au).
Definition cmd_x (c : Z) : EM label :=
  do_cmdcnt_var (x_body c) ALLOW_UNDO ;;
  end_cmd_q ;;
  ret (if c =? 115 then Dc_i else Dc1).
Definition r_body (c1 : Z) (au : allow_undo) : EM (allow_undo + unit) :=
  d <- gets dot ;;
  set_dot_from (text_hole_delete d d au) ;;
  d <- gets dot ;;
  set_dot_from (char_insert d c1 ALLOW_UNDO_CHAIN) ;;
  ret (inl ALLOW_UNDO_CHAIN).
Definition cmd_r : EM label :=
  c1 <- get_one_char ;;
  if negb (c1 =? 27) then
    s <- get ;;
    e <- end_line (dot s) ;;
    if e - dot s <? count_or_1 s then indicate_error ;; ret Dc6
    else
      do_cmdcnt_var (r_body c1) ALLOW_UNDO ;;
      dot_left ;;
      end_cmd_q ;; ret Dc1
  else end_cmd_q ;; ret Dc1.
Definition tilde_body (undo_del : Z) : EM (Z + unit) :=
  s <- get ;;
  c <- rd (dot s) ;;
  undo_del <- (if isalpha c then
     undo_push (dot s) 1 undo_del ;;
     wr (dot s) (if islower c then toupper c else tolower c) ;;
     undo_push (dot s) 1 UNDO_INS_CHAIN ;;
     ret UNDO_DEL_CHAIN
   else ret undo_del) ;;
  dot_right ;;
  ret (inl undo_del).
Definition cmd_tilde : EM label :=
  do_cmdcnt_var tilde_body UNDO_DEL ;; end_cmd_q ;; ret Dc1.
(** Z- if modified, write; exit *)
Definition cmd_Z : EM label :=
  c1 <- get_one_char ;;
  if negb (c1 =? 90) then indicate_error ;; ret Dc1
  else
    s <- get ;;
    (if negb (modified_count s =? 0) then
       cnt <- file_write (current_filename s) (text s) (endp s - 1) ;;
       if cnt <? 0 then
         when (cnt =? -1) (status_line_bold (str "Write error: " ++ strerror_text (env s)))
       else when (cnt =? endp s - 1 - text s + 1) (modify (set_editing 0))
     else modify (set_editing 0)) ;;
    s <- get ;;
    let j := argc s - vi_optind s - 1 in
    when ((editing s =? 0) && (0 <? j))
      (modify (fun s => set_last_modified_count (-1) (set_modified_count 0 (set_editing 1 s))) ;;
       status_line_bold (dec (u32 j) ++ str " more file(s) to edit")) ;;
    ret Dc1.
Definition cmd_colon : EM label :=
  p <- get_input_line [58] ;; colon p ;; show_status_line ;; ret Dc1.

(** ** Operators *)
(** shift lines; the results of text_hole_delete() and char_insert() are not used *)
Definition unshift_body (p : Z) (v : allow_undo * Z) : EM ((allow_undo * Z) + allow_undo) :=
  let '(au, j) := v in
  s <- get ;;
  c <- rd p ;;
  if (c =? 32) && (j <? tabstop s) then
    text_hole_delete p p au ;; ret (inl (ALLOW_UNDO_CHAIN, j + 1))
  else ret (inr au).
Definition shift_line (c p : Z) (au : allow_undo) : EM unit :=
  if c =? 60 then
    x <- rd p ;;
    if x =? 9 then text_hole_delete p p au ;; ret tt
    else if x =? 32 then
      s <- get ;; iter (S (Z.to_nat (tabstop s))) (unshift_body p) (au, 0) ;; ret tt
    else ret tt
  else
    e <- end_line p ;;
    if p =? e then ret tt else char_insert p 9 au ;; ret tt.
Fixpoint shift_lines (n : nat) (c p : Z) (au : allow_undo) : EM unit :=
  match n with
  | O => ret tt
  | S n =>
      shift_line c p au ;;
      p <- next_line p ;;
      shift_lines n c p ALLOW_UNDO_CHAIN
  end.
Definition cmd_shift (rec : Z -> EM unit) (c : Z) : EM label :=
  s <- get ;;
  cnt <- count_lines (text s) (dot s) ;;
  r <- find_range rec c ;;
  match r with
  | None => ret Dc6
  | Some (p, q, _) =>
      i <- count_lines p q ;;
      p <- begin_line p ;;
      shift_lines (Z.to_nat i) c p ALLOW_UNDO ;;
      set_dot_from (find_line cnt) ;;
      dot_skip_over_ws ;;
      end_cmd_q ;;
      ret Dc1
  end.
Definition cmd_operator (rec : Z -> EM unit) (c : Z) : EM label :=
  s <- get ;;
  savereg <- get_reg (YDreg s) ;;
  let yf := if (c =? 121) || (c =? 89) then YANKONLY else YANKDEL in
  r <- find_range rec c ;;
  match r with
  | None => ret Dc6
  | Some (p, q, buftype) =>
      let save_dot := p in
      p <- (if buftype =? WHOLE then begin_line p else ret p) ;;
      q <- (if buftype =? WHOLE then end_line q else ret q) ;;
      set_dot_from (yank_delete p q buftype yf ALLOW_UNDO) ;;
      (if buftype =? WHOLE then
         if c =? 99 then change_line
         else if c =? 100 then dot_begin ;; dot_skip_over_ws
         else modify (set_dot save_dot)
       else ret tt) ;;
      if c =? 99 then ret Dc_i
      else
        s <- get ;;
        r <- get_reg (YDreg s) ;;
        (if reg_changed r savereg then
           v <- lift NullDeref r ;;
           yank_status (if c =? 100 then str "Delete" else str "Yank") (r_text v) 1
         else ret tt) ;;
        ret Dc6
  end.

(** ** The switch of do_cmd() *)
Definition is_key (c : Z) (keys : list Z) : bool := existsb (Z.eqb c) keys.
Definition cmd_default (c : Z) : EM label :=
  not_implemented (cstr [u8 c]) ;; end_cmd_q ;; ret Dc1.
Definition half_screen (s : Ed) : Z := u32 (rows s - 2) / 2.
Definition cmd_switch (rec : Z -> EM unit) (c : Z) : EM label :=
  s <- get ;;
  if c =? 0 then ret Dc1
  else if is_key c [2; KEYCODE_PAGEUP] then dot_scroll (u32 (rows s - 2)) (-1) ;; ret Dc1
  else if c =? 4 then dot_scroll (half_screen s) 1 ;; ret Dc1
  else if c =? 5 then dot_scroll 1 1 ;; ret Dc1
  else if is_key c [6; KEYCODE_PAGEDOWN] then dot_scroll (u32 (rows s - 2)) 1 ;; ret Dc1
  else if c =? 7 then modify (set_last_status_cksum 0) ;; ret Dc1
  else if is_key c [ch "h"; KEYCODE_LEFT; 8; 0x7f] then do_cmdcnt dot_left ;; ret Dc1
  else if is_key c [10; ch "j"; KEYCODE_DOWN; 13; ch "+"] then cmd_down c
  else if is_key c [12; 18] then redraw true ;; ret Dc1
  else if c =? 21 then dot_scroll (half_screen s) (-1) ;; ret Dc1
  else if c =? 25 then dot_scroll 1 (-1) ;; ret Dc1
  else if c =? 27 then cmd_esc
  else if is_key c [32; ch "l"; KEYCODE_RIGHT] then do_cmdcnt dot_right ;; ret Dc1
  else if c =? 34 then cmd_register
  else if c =? 39 then cmd_goto_mark
  else if c =? ch "m" then cmd_mark
  else if is_key c [ch "P"; ch "p"] then cmd_put c
  else if c =? ch "U" then cmd_U
  else if c =? ch "u" then undo_pop ;; ret Dc1
  else if c =? ch "v" then cmd_v
  else if is_key c [ch "$"; KEYCODE_END] then cmd_dollar
  else if c =? ch "%" then cmd_percent
  else if is_key c (str "fFtT;,") then cmd_to_char c
  else if c =? ch "." then cmd_repeat
  else if c =? ch "N" then cmd_search_again false
  else if is_key c (str "?/") then cmd_search c
  else if c =? ch "n" then cmd_search_again true
  else if is_key c (str "{}") then cmd_paragraph c
  else if isdigit c then cmd_digit c
  else if c =? ch ":" then cmd_colon
  else if is_key c (str "<>") then cmd_shift rec c
  else if c =? ch "A" then dot_end ;; cmd_a
  else if c =? ch "a" then cmd_a
  else if is_key c (str "BEW") then cmd_blank_word c
  else if is_key c (str "CD") then cmd_CD c
  else if c =? ch "g" then cmd_g
  else if c =? ch "G" then cmd_G
  else if c =? ch "H" then cmd_H
  else if c =? ch "I" then dot_begin ;; dot_skip_over_ws ;; ret Dc_i
  else if is_key c [ch "i"; KEYCODE_INSERT] then ret Dc_i
  else if c =? ch "J" then cmd_J
  else if c =? ch "L" then cmd_L
  else if c =? ch "M" then cmd_M
  else if is_key c (str "Oo") then cmd_open c
  else if c =? ch "R" then ret Dc5
  else if c =? KEYCODE_DELETE then cmd_delete_key
  else if is_key c (str "Xxs") then cmd_x c
  else if c =? ch "Z" then cmd_Z
  else if c =? ch "^" then dot_begin ;; dot_skip_over_ws ;; ret Dc1
  else if is_key c (str "be") then cmd_be c
  else if is_key c (str "cdyY") then cmd_operator rec c
  else if is_key c [ch "k"; KEYCODE_UP; ch "-"] then cmd_up c
  else if c =? ch "r" then cmd_r
  else if c =? ch "w" then cmd_w
  else if c =? ch "z" then cmd_z
  else if c =? ch "|" then set_dot_from (move_to_col (dot s) (cmdcnt s - 1)) ;; ret Dc1
  else if c =? ch "~" then cmd_tilde
  else if c =? KEYCODE_HOME then dot_begin ;; ret Dc1
  else cmd_default c.

(** ** do_cmd() *)
(** a pending visual selection: Some label when the key is consumed *)
Definition visual_key (c : Z) : EM (option label) :=
  s <- get ;;
  if negb (vi_visual s =? 0) && (cmd_mode s =? 0) then
    if (c =? 27) || (c =? 118) then
      modify (set_vi_visual 0) ;; end_cmd_q ;; modify (set_last_status_cksum 0) ;; ret (Some Dc1)
    else if (c =? KEYCODE_DELETE) || ((0 <? c) && strchr_in (str "yYdDxXcC><") c) then
      visual_operate c ;; ret (Some Dc1)
    else
      when (negb (is_visual_motion c))
        (modify (fun s => set_last_status_cksum 0 (set_vi_visual 0 s))) ;;
      ret None
  else ret None.
Definition key_cmd_mode (rec : Z -> EM unit) (c : Z) : EM label :=
  l <- visual_key c ;;
  match l with Some l => ret l | None => cmd_switch rec c end.
(** insert mode *)
Definition insert_key (c : Z) : EM label :=
  if c =? KEYCODE_INSERT then ret Dc5
  else
    (if (1 <=? c) || is_asciionly c then
       d <- gets dot ;; set_dot_from (char_insert d c ALLOW_UNDO_QUEUED)
     else ret tt) ;;
    ret Dc1.
(** replace mode; on a newline it turns into insert mode *)
Definition replace_key (c : Z) : EM label :=
  if c =? KEYCODE_INSERT then ret Dc_i
  else
    d <- gets dot ;; x <- rd d ;;
    if x =? 10 then modify (set_cmd_mode 1) ;; undo_queue_commit ;; insert_key c
    else
      (if (1 <=? c) || is_asciionly c then
         (if negb (c =? 27) then set_dot_from (yank_delete d d PARTIAL YANKDEL ALLOW_UNDO) else ret tt) ;;
         d <- gets dot ;;
         set_dot_from (char_insert d c ALLOW_UNDO_CHAIN)
       else ret tt) ;;
      ret Dc1.
Definition cursor_keys : list Z :=
  [KEYCODE_UP; KEYCODE_DOWN; KEYCODE_LEFT; KEYCODE_RIGHT; KEYCODE_HOME; KEYCODE_END;
   KEYCODE_PAGEUP; KEYCODE_PAGEDOWN; KEYCODE_DELETE].
Definition dispatch_key (rec : Z -> EM unit) (c : Z) : EM label :=
  s <- get ;;
  if is_key c cursor_keys then key_cmd_mode rec c
  else if cmd_mode s =? 2 then replace_key c
  else if cmd_mode s =? 1 then insert_key c
  else key_cmd_mode rec c.

(** the labels dc_i, dc5 and dc6 *)
Definition leave (l : label) : EM unit :=
  match l with
  | Dc1 | Dc1_here => ret tt
  | Dc_i => modify (set_cmd_mode 1) ;; undo_queue_commit
  | Dc5 => modify (set_cmd_mode 2) ;; undo_queue_commit
  | Dc6 => end_cmd_q
  end.
(** from the label dc1 to the end *)
Definition finish_cmd (c orig_dot : Z) : EM unit :=
  s <- get ;;
  (if endp s =? text s then
     char_insert (text s) 10 NO_UNDO ;; modify (fun s => set_dot (text s) s)
   else ret tt) ;;
  s <- get ;;
  (if negb (dot s =? endp s) then set_dot_from (bound_dot (dot s)) else ret tt) ;;
  d <- gets dot ;;
  when (negb (d =? orig_dot)) (check_context (u8 c)) ;;
  when (negb (isdigit c)) (modify (set_cmdcnt 0)) ;;
  b <- begin_line d ;;
  x <- rd d ;;
  s <- get ;;
  when ((x =? 10) && (0 <? d - b) && (cmd_mode s =? 0)) (modify (set_dot (d - 1))).
Definition do_cmd_with (rec : Z -> EM unit) (c : Z) : EM unit :=
  orig_dot <- gets dot ;;
  modify (fun s => set_cmd_error false (set_keep_index false s)) ;;
  show_status_line ;;
  l <- dispatch_key rec c ;;
  leave l ;;
  d <- gets dot ;;
  finish_cmd c (match l with Dc1_here => d | _ => orig_dot end).
(** An operator runs a motion through do_cmd(); a motion is no operator, so
    depth two is enough. *)
Fixpoint do_cmd_depth (n : nat) (c : Z) : EM unit :=
  match n with
  | O => raise NoFuel
  | S n => do_cmd_with (do_cmd_depth n) c
  end.
Definition do_cmd (c : Z) : EM unit := do_cmd_depth 2 c.
