(* ===== verification/EvimMain.v ===== *)
(** * evim: the editing loop and the entry point (vim_main.c)

    run_cmds() on the lines of the start-up file, one turn of the loop of
    edit_file(), the loop itself, and main() after the terminal set-up.  The
    local argc of main() hides the global one that the colon commands read. *)
From S2P Require Import Prelude EvimState EvimLine EvimSyntax EvimInput EvimTerm EvimEdit EvimEx EvimCmd.

(** the first line of a C string, and what follows its run of newlines;
    None is NULL *)
Definition split_line (q : list Z) : list Z * option (list Z) :=
  match strchr q 10 with
  | None => (q, None)
  | Some p => (take (length q - length p) q, Some (skip_while (fun c => c =? 10) p))
  end.
Fixpoint run_cmds_go (fuel : nat) (p : list Z) : EM unit :=
  match fuel with
  | O => raise NoFuel
  | S fuel =>
      let '(q, p) := split_line p in
      (if zlen q <? MAX_INPUT_LEN then colon q else ret tt) ;;
      match p with None => ret tt | Some p => run_cmds_go fuel p end
  end.
Definition run_cmds (p : list Z) : EM unit := run_cmds_go (S (length p)) p.

(** before the loop: a fresh screen and buffer *)
Definition edit_file_init (fn : option (list Z)) : EM unit :=
  modify (set_editing 1) ;;
  s <- get ;;
  new_screen (rows s) (columns s) ;;
  init_text_buffer fn ;;
  modify (set_YDreg 26) ;;
  t <- gets text ;;
  set_mark_at 26 t ;; set_mark_at 27 t ;;
  modify (fun s =>
    set_crow 0 (set_ccol 0 (set_cmd_mode 0 (set_vi_visual 0 (set_vi_visual_anchor 0
      (set_cmdcnt 0 (set_offset 0 (set_ioq_start false (set_adding2q false s))))))))) ;;
  redraw false.

Definition order (a b : Z) : Z * Z := if a <? b then (a, b) else (b, a).
(** save a copy of the current line for the 'U' command *)
Definition save_line : EM unit :=
  s <- get ;;
  b <- begin_line (dot s) ;;
  if negb (b =? edit_file_cur_line s) then
    modify (set_edit_file_cur_line b) ;;
    e <- end_line (dot s) ;;
    text_yank b e Ureg PARTIAL ;;
    ret tt
  else ret tt.
(** (re)start remembering the input for the "." command *)
Definition remember_cmd (c : Z) : EM unit :=
  s <- get ;;
  when (negb (adding2q s) && negb (ioq_start s) && (cmd_mode s =? 0) && (vi_visual s =? 0)
        && (0 <? c) && (c <? 0x7f) && strchr_in modifying_cmds c)
    (start_new_cmd_q c).
(** redraw after a command unless input is waiting; [vis] is the selection
    before the command *)
Definition update_display (vis : option (Z * Z)) : EM unit :=
  s <- get ;;
  let pending := negb (nth0 0 (readbuffer s) =? 0) in
  let ended := match vis with Some _ => vi_visual s =? 0 | None => false end in
  if negb pending || ended then
    (if negb (vi_visual s =? 0) then
       let '(lo, hi) := order (vi_visual_anchor s) (dot s) in
       let '(vlo, vhi) := default (0, 0) vis in
       if negb (vlo =? lo) || negb (vhi =? hi) then
         visual_invalidate_span vlo vhi ;; visual_invalidate_span lo hi
       else ret tt
     else
       match vis with
       | Some (vlo, vhi) => visual_invalidate_span vlo vhi
       | None => ret tt
       end) ;;
    refresh false ;;
    show_status_line
  else ret tt.
(** one turn of the main command loop *)
Definition edit_turn : EM unit :=
  c <- get_one_char ;;
  save_line ;;
  remember_cmd c ;;
  s <- get ;;
  let vis := if negb (vi_visual s =? 0) then Some (order (vi_visual_anchor s) (dot s)) else None in
  do_cmd c ;;
  update_display vis.
Definition edit_body (_ : unit) : EM (unit + unit) :=
  s <- get ;;
  if 0 <? editing s then edit_turn ;; ret (inl tt) else ret (inr tt).
(** every turn takes at least one character, so the characters still to come
    bound the turns; a replayed command adds its own characters to them *)
Definition edit_file (turns : nat) (fn : option (list Z)) : EM unit :=
  edit_file_init fn ;;
  iter turns edit_body tt ;;
  go_bottom_and_clear_to_eol.

(** the state when main() is entered: every global is zero *)
Definition initial_state (e : environment) (fs : list file) (keys : list key) : Ed :=
  mkEd 0 [] 0 0 0 0 (replicate 28 0) 0 0 0 0 0%nat [] 0 0 0 (replicate 32 0) 0 0 0 0 0 0 0 false false 0
    (replicate 128 0) [] false 0 0 0 0 [] 0 (replicate 28 None) (replicate 28 0) 0%nat 0 false 0 0
    0 0 0 0 [] false 0 0 0 [] 0 None 0 0 (replicate 16 0) keys [] fs e.
(** main(): [cmds] is the content of /.exrc if it could be read *)
Definition main_setup (tty0 tty1 : bool) (winsz : option (Z * Z)) (cmds : option (list Z)) : EM unit :=
  modify (set_last_modified_count (-1)) ;;
  xy <- get_screen_xy tty0 tty1 winsz ;;
  modify (fun s => set_columns (fst xy) (set_rows (snd xy) s)) ;;
  modify (fun s => set_undo_queue_state UNDO_EMPTY (set_tabstop 8 (set_last_search_pattern [] s))) ;;
  match cmds with
  | None => ret tt
  | Some cmds => init_text_buffer None ;; run_cmds (cstr cmds)
  end ;;
  puts_no_eol (27 :: str "[H") ;;
  puts_no_eol (27 :: str "[2J").
(** the file loop: vi_optind is a global that :prev and :rewind change *)
Definition files_body (turns : nat) (argv : list (option (list Z))) (_ : unit) : EM (unit + unit) :=
  s <- get ;;
  if vi_optind s <? zlen argv then
    fn <- (if 0 <=? vi_optind s then lift OutOfBounds (argv !! Z.to_nat (vi_optind s)) else oob) ;;
    edit_file turns fn ;;
    modify (fun s => set_vi_optind (vi_optind s + 1) s) ;;
    ret (inl tt)
  else ret (inr tt).
Definition main_ (turns : nat) (argv : list (option (list Z))) (tty0 tty1 : bool)
    (winsz : option (Z * Z)) (cmds : option (list Z)) : EM unit :=
  main_setup tty0 tty1 winsz cmds ;;
  modify (set_vi_optind 0) ;;
  (if zlen argv <? 2 then edit_file turns None
   else modify (set_vi_optind 1) ;; iter turns (files_body turns argv) tt) ;;
  flush_undo_data ;;
  show_cursor ;;
  puts_no_eol (27 :: str "[H") ;;
  puts_no_eol (27 :: str "[2J").
