(* ===== verification/EvimNav.v ===== *)
(** * evim: the buffer invariant and the rules of its accesses

    [wf] is the invariant of the text block that every operation keeps, and
    [getb s p] the byte at the address [p].  The rules below give the weakest
    precondition of each access to the block and of each routine of
    EvimLine that only reads it; they are stated with relations ([bol_of],
    [eol_of], ...) that say what the routine answers. *)
From S2P Require Import Prelude EvimState EvimLine.

(** ** The invariant *)
Record wf (s : Ed) : Prop := mkWf {
  wf_text : 0 < text s;
  wf_le : text s <= endp s;
  wf_lt : endp s < text s + text_size s;
  wf_size : text_size s = zlen (mem s)
}.
(** the byte at the address [p] *)
Definition getb (s : Ed) (p : Z) : Z := nth0 (off s p) (mem s).
(** the bytes from [p] on, [n] of them *)
Definition bytes_at (s : Ed) (p n : Z) : list Z := take (Z.to_nat n) (drop (off s p) (mem s)).
(** the text of the buffer *)
Definition contents (s : Ed) : list Z := bytes_at s (text s) (endp s - text s).
(** an address of the block *)
Definition in_text (s : Ed) (p : Z) : Prop := text s <= p <= endp s.

(** ** Reads *)
Section reads.
Context (s : Ed) (Hwf : wf s).

Lemma block_size : endp s < text s + zlen (mem s).
Proof. destruct Hwf. lia. Qed.

Lemma lookup_getb p : in_text s p -> mem s !! off s p = Some (getb s p).
Proof.
  intros H. unfold getb, nth0, in_text in *. pose proof block_size as Hb. unfold zlen in Hb.
  destruct (lookup_lt_is_Some_2 (mem s) (off s p)) as [c ->]; [unfold off; lia|done].
Qed.

Lemma rd_ok p : in_text s p -> rd p s = Ok (getb s p) s.
Proof.
  intros H. unfold rd, in_block. pose proof block_size as Hb. rewrite (lookup_getb p H).
  destruct H. by rewrite (proj2 (Z.leb_le _ _)), (proj2 (Z.leb_le _ _)) by lia.
Qed.
Lemma rd_n_ok p n : in_text s p -> 0 <= n -> p + n <= endp s -> rd_n p n s = Ok (bytes_at s p n) s.
Proof.
  intros H Hn He. unfold rd_n, in_block. pose proof block_size as Hb. destruct H.
  by rewrite !(proj2 (Z.leb_le _ _)) by lia.
Qed.
Lemma wp_rd E p (Q : Z -> Ed -> Prop) : in_text s p -> Q (getb s p) s -> wpe E (rd p) Q s.
Proof. intros H HQ. by apply (wpe_ok _ _ _ _ _ _ (rd_ok p H)). Qed.
Lemma wp_rd_n E p n (Q : list Z -> Ed -> Prop) :
  in_text s p -> 0 <= n -> p + n <= endp s -> Q (bytes_at s p n) s -> wpe E (rd_n p n) Q s.
Proof. intros H Hn He HQ. by apply (wpe_ok _ _ _ _ _ _ (rd_n_ok p n H Hn He)). Qed.

Lemma length_bytes_at p n : in_text s p -> 0 <= n -> p + n <= endp s ->
  length (bytes_at s p n) = Z.to_nat n.
Proof.
  intros H Hn He. unfold bytes_at, off, in_text in *. pose proof block_size as Hb. unfold zlen in Hb.
  rewrite length_take, length_drop. lia.
Qed.
Lemma lookup_bytes_at p n (i : nat) :
  in_text s p -> p + n <= endp s -> (Z.of_nat i < n) ->
  bytes_at s p n !! i = Some (getb s (p + Z.of_nat i)).
Proof.
  intros H He Hi. unfold bytes_at. rewrite lookup_take_lt by lia. rewrite lookup_drop.
  replace (off s p + i)%nat with (off s (p + Z.of_nat i)) by (unfold off, in_text in *; lia).
  apply lookup_getb. unfold in_text in *. lia.
Qed.
End reads.

Lemma length_contents s : wf s -> zlen (contents s) = endp s - text s.
Proof.
  intros H. pose proof (wf_le _ H). unfold zlen, contents.
  rewrite length_bytes_at by (done || (unfold in_text; lia)). lia.
Qed.

(** ** memchr() and memrchr() *)
Lemma memrchr_down_spec bs c p :
  let n := zlen bs in
  let r := memrchr_down bs c p in
  (r = 0 /\ ~ In c bs) \/
  (exists i : nat, r = p - 1 - Z.of_nat i /\ bs !! i = Some c /\ forall j, (j < i)%nat -> bs !! j <> Some c).
Proof.
  revert p. induction bs as [|b bs IH]; intros p; simpl.
  { left. split; [done|tauto]. }
  destruct (Z.eqb_spec b c) as [->|Hne].
  { right. exists 0%nat. split; [lia|]. split; [done|]. lia. }
  destruct (IH (p - 1)) as [[-> Hn]|(i & -> & Hi & Hj)].
  - left. split; [done|]. intros [?|?]; [congruence|by apply Hn].
  - right. exists (S i). split; [lia|]. split; [done|].
    intros [|j] ?; simpl; [congruence|]. apply Hj. lia.
Qed.
Lemma memchr_in_spec bs c p :
  let r := memchr_in bs c p in
  (r = 0 /\ ~ In c bs) \/
  (exists i : nat, r = p + Z.of_nat i /\ bs !! i = Some c /\ forall j, (j < i)%nat -> bs !! j <> Some c).
Proof.
  revert p. induction bs as [|b bs IH]; intros p; simpl.
  { left. split; [done|tauto]. }
  destruct (Z.eqb_spec b c) as [->|Hne].
  { right. exists 0%nat. split; [lia|]. split; [done|]. lia. }
  destruct (IH (p + 1)) as [[-> Hn]|(i & -> & Hi & Hj)].
  - left. split; [done|]. intros [?|?]; [congruence|by apply Hn].
  - right. exists (S i). split; [lia|]. split; [done|].
    intros [|j] ?; simpl; [congruence|]. apply Hj. lia.
Qed.

(** no byte of [a, b) is [c] *)
Definition none_in (s : Ed) (c a b : Z) : Prop := forall i, a <= i < b -> getb s i <> c.

Lemma not_in_bytes_at s c p n : wf s -> in_text s p -> p + n <= endp s ->
  ~ In c (bytes_at s p n) -> none_in s c p (p + n).
Proof.
  intros Hwf Hp He Hn i Hi <-. apply Hn. apply list_elem_of_In, list_elem_of_lookup.
  exists (Z.to_nat (i - p)). rewrite (lookup_bytes_at s Hwf) by (done || lia). repeat f_equal. lia.
Qed.

Section memchr.
Context (s : Ed) (Hwf : wf s).

(** the last [c] in [p, p+n), or NULL *)
Lemma wp_memrchr E p c n (Q : Z -> Ed -> Prop) :
  0 <= c < 256 -> in_text s p -> 0 <= n -> p + n <= endp s ->
  (none_in s c p (p + n) -> Q 0 s) ->
  (forall q, p <= q < p + n -> getb s q = c -> none_in s c (q + 1) (p + n) -> Q q s) ->
  wpe E (memrchr p c n) Q s.
Proof.
  intros Hc Hp Hn He H0 Hq. unfold memrchr. apply wpe_bind, (wp_rd_n s Hwf); [done..|].
  apply wpe_ret. rewrite u8_small by done.
  pose proof (length_bytes_at s Hwf p n Hp Hn He) as Hlen.
  destruct (memrchr_down_spec (rev (bytes_at s p n)) c (p + n)) as [[-> Hnone]|(i & -> & Hi & Hj)].
  { apply H0. apply not_in_bytes_at; [done..|]. by rewrite in_rev. }
  pose proof (lookup_lt_Some _ _ _ Hi) as Hl. rewrite length_rev in Hl.
  assert (Hrev : forall j, (j < length (bytes_at s p n))%nat ->
    rev (bytes_at s p n) !! j = Some (getb s (p + n - 1 - Z.of_nat j))).
  { intros j Hjl. rewrite rev_lookup by done.
    rewrite (lookup_bytes_at s Hwf) by (done || lia). repeat f_equal. lia. }
  apply Hq; [lia| |].
  - rewrite Hrev in Hi by done. by injection Hi.
  - intros k Hk Heq. apply (Hj (Z.to_nat (p + n - 1 - k))); [lia|].
    rewrite Hrev by lia. rewrite <- Heq. repeat f_equal. lia.
Qed.

(** the first [c] in [p, p+n), or NULL *)
Lemma wp_memchr E p c n (Q : Z -> Ed -> Prop) :
  0 <= c < 256 -> in_text s p -> 0 <= n -> p + n <= endp s ->
  (none_in s c p (p + n) -> Q 0 s) ->
  (forall q, p <= q < p + n -> getb s q = c -> none_in s c p q -> Q q s) ->
  wpe E (memchr p c n) Q s.
Proof.
  intros Hc Hp Hn He H0 Hq. unfold memchr. apply wpe_bind, (wp_rd_n s Hwf); [done..|].
  apply wpe_ret. rewrite u8_small by done.
  pose proof (length_bytes_at s Hwf p n Hp Hn He) as Hlen.
  destruct (memchr_in_spec (bytes_at s p n) c p) as [[-> Hnone]|(i & -> & Hi & Hj)].
  { apply H0. by apply not_in_bytes_at. }
  pose proof (lookup_lt_Some _ _ _ Hi) as Hl.
  apply Hq; [lia| |].
  - rewrite (lookup_bytes_at s Hwf) in Hi by (done || lia). by injection Hi.
  - intros k Hk Heq. apply (Hj (Z.to_nat (k - p))); [lia|].
    rewrite (lookup_bytes_at s Hwf) by (done || lia). rewrite <- Heq. repeat f_equal. lia.
Qed.
End memchr.

(** ** evim: what the line and column routines answer

    Relational specifications of the routines of EvimLine on a well-formed
    buffer, as weakest-precondition rules: all of them only read the text and
    none faults at an address of the buffer. *)

Ltac txt := unfold in_text in *; lia.

(** ** Lines *)
(** [b] is the first byte of the line that holds [p] *)
Definition bol_of (s : Ed) (p b : Z) : Prop :=
  text s <= b <= p /\ (b = text s \/ getb s (b - 1) = 10) /\ none_in s 10 b p.
(** [e] is the newline that ends the line of [p], or the last byte of the
    text; an address past the last byte is its own end of line *)
Definition eol_of (s : Ed) (p e : Z) : Prop :=
  p <= e <= Z.max p (endp s - 1) /\ none_in s 10 p e /\ (e < endp s - 1 -> getb s e = 10).
(** the first byte of the next line, or the end of the last one *)
Definition next_of (s : Ed) (p q : Z) : Prop :=
  exists e, eol_of s p e /\ q = if e <? endp s - 1 then e + 1 else e.
(** the first byte of the previous line, or of the first one *)
Definition prev_of (s : Ed) (p q : Z) : Prop :=
  exists b, bol_of s p b /\ bol_of s (if text s <? b then b - 1 else b) q.

Lemma bol_of_inj s p b b' : bol_of s p b -> bol_of s p b' -> b = b'.
Proof.
  intros (H1 & H2 & H3) (H1' & H2' & H3').
  destruct (Z.lt_trichotomy b b') as [Hl|[?|Hl]]; [|done|]; exfalso.
  - destruct H2' as [->|E]; [lia|]. apply (H3 (b' - 1)); [lia|done].
  - destruct H2 as [->|E]; [lia|]. apply (H3' (b - 1)); [lia|done].
Qed.
Lemma eol_of_inj s p e e' : eol_of s p e -> eol_of s p e' -> e = e'.
Proof.
  intros (H1 & H2 & H3) (H1' & H2' & H3').
  destruct (Z.lt_trichotomy e e') as [Hl|[?|Hl]]; [|done|]; exfalso.
  - apply (H2' e); [lia|]. apply H3. lia.
  - apply (H2 e'); [lia|]. apply H3'. lia.
Qed.
Lemma bol_of_range s p b : bol_of s p b -> in_text s p -> in_text s b.
Proof. intros (? & _) ?. txt. Qed.
Lemma eol_of_range s p e : eol_of s p e -> in_text s p -> in_text s e.
Proof. intros (? & _) ?. txt. Qed.
Lemma next_of_range s p q : next_of s p q -> in_text s p -> p <= q /\ in_text s q.
Proof. intros (e & (? & _) & ->) ?. destruct (Z.ltb_spec e (endp s - 1)); txt. Qed.
Lemma next_of_lt s p q : next_of s p q -> p < endp s -> q < endp s.
Proof. intros (e & (? & _) & ->) ?. destruct (Z.ltb_spec e (endp s - 1)); lia. Qed.
Lemma prev_of_range s p q : prev_of s p q -> in_text s p -> text s <= q <= p.
Proof.
  intros (b & (? & _) & (? & _)) ?. destruct (Z.ltb_spec (text s) b); txt.
Qed.

Section lines.
Context (s : Ed) (Hwf : wf s).

Lemma wp_begin_line E p (Q : Z -> Ed -> Prop) :
  in_text s p -> (forall b, bol_of s p b -> Q b s) -> wpe E (begin_line p) Q s.
Proof.
  intros Hp HQ. pose proof (wf_text _ Hwf) as Ht. unfold begin_line. wp_go.
  - apply (wp_memrchr s Hwf); [lia|txt..| |].
    + intros Hn. wp_go; [|lia]. apply HQ. split; [txt|]. split; [by left|].
      intros i Hi. apply Hn. lia.
    + intros q Hq Hc Hn. wp_go; [lia|]. apply HQ. split; [lia|].
      split; [right; by replace (q + 1 - 1) with q by lia|].
      intros i Hi. apply Hn. lia.
  - apply HQ. split; [txt|]. split; [left; txt|]. intros i Hi. lia.
Qed.

Lemma wp_end_line E p (Q : Z -> Ed -> Prop) :
  in_text s p -> (forall e, eol_of s p e -> Q e s) -> wpe E (end_line p) Q s.
Proof.
  intros Hp HQ. pose proof (wf_text _ Hwf) as Ht. unfold end_line. wp_go.
  - apply (wp_memchr s Hwf); [lia|txt..| |].
    + intros Hn. wp_go; [|lia]. apply HQ. split; [lia|]. split; [|lia].
      intros i Hi. apply Hn. lia.
    + intros q Hq Hc Hn. wp_go; [txt|]. apply HQ. by split; [lia|].
  - apply HQ. split; [lia|]. split; [|lia]. intros i Hi. lia.
Qed.

Lemma wp_next_line E p (Q : Z -> Ed -> Prop) :
  in_text s p -> (forall q, next_of s p q -> Q q s) -> wpe E (next_line p) Q s.
Proof.
  intros Hp HQ. unfold next_line. apply wpe_bind, wp_end_line; [done|].
  intros e He. pose proof (eol_of_range _ _ _ He Hp) as Hr. wp_go.
  - apply (wp_rd s Hwf); [done|]. wp_go. apply HQ. exists e. split; [done|].
    destruct He as (_ & _ & He). by rewrite He, (proj2 (Z.ltb_lt _ _)) by lia.
  - apply HQ. exists e. split; [done|]. by replace (e <? endp s - 1) with false by lia.
Qed.

Lemma wp_prev_line E p (Q : Z -> Ed -> Prop) :
  in_text s p -> (forall q, prev_of s p q -> Q q s) -> wpe E (prev_line p) Q s.
Proof.
  intros Hp HQ. unfold prev_line. apply wpe_bind, wp_begin_line; [done|].
  intros b Hb. pose proof (bol_of_range _ _ _ Hb Hp) as Hr. wp_go.
  - apply (wp_rd s Hwf); [txt|]. destruct (Hb) as (_ & [->|E1] & _); [lia|].
    rewrite E1. simpl. apply wp_begin_line; [txt|]. intros q Hq. apply HQ.
    exists b. split; [done|]. by rewrite (proj2 (Z.ltb_lt _ _)) by lia.
  - apply wp_begin_line; [txt|]. intros q Hq. apply HQ. exists b. split; [done|].
    by replace (text s <? b) with false by lia.
Qed.

Lemma wp_dollar_line E p (Q : Z -> Ed -> Prop) :
  in_text s p -> (forall q, in_text s q -> p - 1 <= q -> Q q s) -> wpe E (dollar_line p) Q s.
Proof.
  intros Hp HQ. unfold dollar_line. apply wpe_bind, wp_end_line; [done|].
  intros e He. pose proof (eol_of_range _ _ _ He Hp) as Hr. destruct (He) as (? & _).
  wp_go. apply (wp_rd s Hwf); [done|]. wp_go; [|apply HQ; [done|lia]].
  apply wp_begin_line; [done|]. intros b (? & _). wp_go; apply HQ; txt.
Qed.

Lemma wp_fold_n {A} E n (f : A -> EM A) (P : A -> Prop) a (Q : A -> Ed -> Prop) :
  (forall a R, P a -> (forall a', P a' -> R a' s) -> wpe E (f a) R s) ->
  P a -> (forall a', P a' -> Q a' s) -> wpe E (fold_n n f a) Q s.
Proof.
  intros Hf. revert a. induction n as [|n IH]; intros a Ha HQ; simpl.
  - wp_go. by apply HQ.
  - apply wpe_bind, Hf; [done|]. intros a' Ha'. by apply IH.
Qed.
Lemma wp_find_line E li (Q : Z -> Ed -> Prop) :
  (forall q, in_text s q -> Q q s) -> wpe E (find_line li) Q s.
Proof.
  intros HQ. unfold find_line. wp_go. apply (wp_fold_n _ _ _ (in_text s)); [|pose proof (wf_le _ Hwf); txt|done].
  intros a R Ha HR. apply wp_next_line; [done|]. intros q Hq. apply HR.
  by apply (next_of_range s a q).
Qed.
Lemma wp_end_screen E (Q : Z -> Ed -> Prop) :
  in_text s (screenbegin s) -> (forall q, in_text s q -> Q q s) -> wpe E end_screen Q s.
Proof.
  intros Hsb HQ. unfold end_screen. wp_go. apply (wp_fold_n _ _ _ (in_text s)); [|done|].
  - intros a R Ha HR. apply wp_next_line; [done|]. intros q Hq. apply HR.
    by apply (next_of_range s a q).
  - intros a Ha. apply wp_end_line; [done|]. intros e He. apply HQ.
    by apply (eol_of_range s a e).
Qed.
End lines.

(** ** Counting newlines *)
(** how often [c] occurs in the bytes of [a, b) *)
Definition cnt (s : Ed) (c a b : Z) : Z := zlen (filter (fun x => x = c) (bytes_at s a (b - a))).
(** how many newlines the bytes of [a, b) hold *)
Definition nls (s : Ed) (a b : Z) : Z := cnt s 10 a b.

Section nls.
Context (s : Ed) (Hwf : wf s).

Lemma bytes_at_app a m b : in_text s a -> a <= m <= b -> b <= endp s ->
  bytes_at s a (b - a) = bytes_at s a (m - a) ++ bytes_at s m (b - m).
Proof.
  intros Ha Hm Hb. unfold bytes_at.
  replace (off s m) with (off s a + Z.to_nat (m - a))%nat by (unfold off; txt).
  rewrite <- drop_drop.
  replace (Z.to_nat (b - a)) with (Z.to_nat (m - a) + Z.to_nat (b - m))%nat by lia.
  by rewrite take_take_drop.
Qed.
Lemma bytes_at_nil a : bytes_at s a (a - a) = [].
Proof. unfold bytes_at. by rewrite Z.sub_diag. Qed.
Lemma bytes_at_cons a b : in_text s a -> a < b -> b <= endp s ->
  bytes_at s a (b - a) = getb s a :: bytes_at s (a + 1) (b - (a + 1)).
Proof.
  intros Ha Hlt Hb. rewrite (bytes_at_app a (a + 1) b) by (done || lia).
  assert (bytes_at s a (a + 1 - a) = [getb s a]) as ->; [|done]. apply list_eq. intros [|i].
  - rewrite (lookup_bytes_at s Hwf) by (done || txt). simpl. repeat f_equal. lia.
  - simpl. rewrite lookup_ge_None. unfold bytes_at. rewrite length_take. lia.
Qed.
Lemma bytes_at_snoc a b : in_text s a -> a <= b -> b < endp s ->
  bytes_at s a (b + 1 - a) = bytes_at s a (b - a) ++ [getb s b].
Proof.
  intros Ha Hlt Hb. rewrite (bytes_at_app a b (b + 1)) by (done || lia).
  f_equal. rewrite (bytes_at_cons b (b + 1)) by (lia || txt). by rewrite bytes_at_nil.
Qed.

Lemma cnt_refl c a : cnt s c a a = 0.
Proof. unfold cnt. by rewrite bytes_at_nil. Qed.
Lemma cnt_split c a m b : in_text s a -> a <= m <= b -> b <= endp s ->
  cnt s c a b = cnt s c a m + cnt s c m b.
Proof.
  intros Ha Hm Hb. unfold cnt, zlen. rewrite (bytes_at_app a m b) by done.
  rewrite list.filter_app, length_app. lia.
Qed.
Lemma cnt_step c a : in_text s a -> a < endp s ->
  cnt s c a (a + 1) = if getb s a =? c then 1 else 0.
Proof.
  intros Ha Hlt. unfold cnt. rewrite (bytes_at_cons a (a + 1)) by (done || lia).
  rewrite bytes_at_nil, filter_cons, filter_nil. destruct (Z.eqb_spec (getb s a) c) as [->|Hne].
  - by rewrite decide_True.
  - by rewrite decide_False.
Qed.
Lemma nls_refl a : nls s a a = 0.
Proof. apply cnt_refl. Qed.
Lemma nls_split a m b : in_text s a -> a <= m <= b -> b <= endp s ->
  nls s a b = nls s a m + nls s m b.
Proof. apply cnt_split. Qed.
Lemma nls_step a : in_text s a -> a < endp s ->
  nls s a (a + 1) = if getb s a =? 10 then 1 else 0.
Proof. apply cnt_step. Qed.
Lemma nls_none a b : in_text s a -> a <= b <= endp s -> none_in s 10 a b -> nls s a b = 0.
Proof.
  intros Ha Hb Hn. unfold nls, cnt.
  assert (filter (fun c => c = 10) (bytes_at s a (b - a)) = []) as ->; [|done].
  apply elem_of_nil_inv. intros c [-> Hc]%list_elem_of_filter.
  apply list_elem_of_lookup in Hc as [i Hi].
  pose proof (lookup_lt_Some _ _ _ Hi) as Hl. rewrite (length_bytes_at s Hwf) in Hl by (done || lia).
  rewrite (lookup_bytes_at s Hwf) in Hi by (done || lia). injection Hi as Hi.
  apply (Hn (a + Z.of_nat i)); [lia|done].
Qed.
Lemma nls_nonneg a b : 0 <= nls s a b.
Proof. unfold nls, cnt, zlen. lia. Qed.

(** from [p] past its end of line *)
Lemma nls_eol p e : in_text s p -> p < endp s -> eol_of s p e ->
  nls s p (e + 1) = if getb s e =? 10 then 1 else 0.
Proof.
  intros Hp Hlt (He & Hn & _). rewrite (nls_split p e) by txt.
  rewrite nls_none by (done || txt). apply nls_step; txt.
Qed.

(** count_lines() counts the newlines from [start] through the end of the
    line of [stop]; both ends may come in any order *)
Lemma wp_count_lines E start stop (Q : Z -> Ed -> Prop) :
  in_text s start -> in_text s stop ->
  (forall e, eol_of s (Z.max start stop) e ->
     Q (nls s (Z.min start stop) (Z.min (e + 1) (endp s))) s) ->
  wpe E (count_lines start stop) Q s.
Proof.
  intros Hsta Hsto HQ. unfold count_lines.
  replace (if stop <? start then (stop, start) else (start, stop))
    with (Z.min start stop, Z.max start stop) by (destruct (Z.ltb_spec stop start); f_equal; lia).
  set (a := Z.min start stop) in *. set (z := Z.max start stop) in *.
  assert (Ha : in_text s a) by txt. assert (Hz : in_text s z) by txt. assert (Haz : a <= z) by lia.
  apply wpe_bind, (wp_end_line s Hwf); [done|]. intros e He.
  pose proof (eol_of_range _ _ _ He Hz) as Hre. destruct (He) as (He1 & He2 & He3). wp_go.
  apply (wpe_iter E (fun v s' => s' = s /\ a <= fst v <= e + 1 /\ fst v <= endp s /\ snd v = nls s a (fst v))
           (fun v _ => endp s - fst v)); [| |simpl; txt].
  2:{ split; [done|]. simpl. rewrite nls_refl. txt. }
  intros [p cnt] s' (-> & Hp & Hpe & Hcnt); simpl in *. subst cnt. split; [lia|]. wp_go.
  - apply andb_true_iff in H as [H1 H2].
    apply (wp_end_line s Hwf); [txt|]. intros e' He'.
    pose proof (eol_of_range _ _ _ He' ltac:(txt)) as Hre'.
    destruct (He') as (Hb & Hn & _). wp_go. apply (wp_rd s Hwf); [done|]. wp_go.
    assert (e' <= e) by (destruct (Z.le_gt_cases e' e); [done|]; exfalso; apply (Hn e); [lia|apply He3; lia]).
    simpl. repeat split; [lia..| |lia].
    rewrite (nls_split a p (e' + 1)) by txt. rewrite (nls_eol p e') by (done || txt).
    destruct (getb s e' =? 10); lia.
  - replace p with (Z.min (e + 1) (endp s)) by (apply andb_false_iff in H; lia). by apply HQ.
Qed.
End nls.

(** ** Line numbers *)
(** the number of the line that holds [p] is one more than the newlines before it *)
Lemma nls_mono s (Hwf : wf s) a b b' : in_text s a -> a <= b <= b' -> b' <= endp s -> nls s a b <= nls s a b'.
Proof. intros. rewrite (nls_split s a b b') by done. pose proof (nls_nonneg s b b'). lia. Qed.
Lemma nls_pos s (Hwf : wf s) a b i : in_text s a -> a <= i < b -> b <= endp s -> getb s i = 10 -> 0 < nls s a b.
Proof.
  intros Ha Hi Hb Hc. rewrite (nls_split s a i b), (nls_split s i (i + 1) b) by txt.
  rewrite (nls_step s Hwf i) by txt. rewrite Hc. simpl.
  pose proof (nls_nonneg s a i). pose proof (nls_nonneg s (i + 1) b). lia.
Qed.

(** a line start [q] with a newline between it and the last byte has a next line *)
Lemma next_of_newline s (Hwf : wf s) q r : in_text s q -> next_of s q r -> 0 < nls s q (endp s - 1) ->
  bol_of s r r /\ q < r <= endp s - 1 /\ nls s q r = 1 /\ eol_of s q (r - 1).
Proof.
  intros Hq (e & Heol & ->) Hn. destruct (Heol) as (He1 & He2 & He3).
  destruct (Z.lt_ge_cases q (endp s - 1)) as [Hlt|Hge].
  2:{ unfold nls, cnt, bytes_at in Hn. replace (Z.to_nat (endp s - 1 - q)) with 0%nat in Hn by txt.
      simpl in Hn. unfold zlen in Hn. simpl in Hn. lia. }
  destruct (Z.lt_ge_cases e (endp s - 1)) as [Hle|Hge].
  - replace (e <? endp s - 1) with true by lia. specialize (He3 Hle). split; [|split; [lia|]].
    + split; [txt|]. split; [right; by replace (e + 1 - 1) with e by lia|]. intros i Hi. lia.
    + rewrite (nls_split s q e) by txt. rewrite nls_none, nls_step, He3 by (done || txt).
      by replace (e + 1 - 1) with e by lia.
  - rewrite nls_none in Hn; [lia|done|done|txt|]. intros i Hi. apply He2. lia.
Qed.

(** ** Display columns *)
(** the column of the address [p] on a line that starts at [b] *)
Definition col_of (s : Ed) (b p : Z) : Z :=
  fold_left (fun co c => next_column (tabstop s) c co) (bytes_at s b (p - b)) 0.

Lemma next_column_gt ts c co : 0 < ts -> 0 <= co -> co < next_column ts c co.
Proof.
  intros Hts Hco. unfold next_column, next_tabstop.
  pose proof (Z.rem_bound_pos co ts Hco Hts).
  destruct (c =? 9); [lia|]. destruct ((c <? 32) || (c =? 127)); lia.
Qed.

Section columns.
Context (s : Ed) (Hwf : wf s).

Lemma col_of_refl b : col_of s b b = 0.
Proof. unfold col_of. by rewrite bytes_at_nil. Qed.
Lemma col_of_step b p : in_text s b -> b <= p -> p < endp s ->
  col_of s b (p + 1) = next_column (tabstop s) (getb s p) (col_of s b p).
Proof.
  intros Hb Hp Hlt. unfold col_of. rewrite (bytes_at_snoc s Hwf) by done. by rewrite fold_left_app.
Qed.

Lemma wp_get_column E p (Q : Z -> Ed -> Prop) :
  in_text s p -> (forall b, bol_of s p b -> Q (col_of s b p) s) -> wpe E (get_column p) Q s.
Proof.
  intros Hp HQ. unfold get_column. apply wpe_bind, (wp_begin_line s Hwf); [done|]. intros b Hb.
  destruct (Hb) as (? & _). apply wpe_bind, (wp_rd_n s Hwf); [txt..|]. wp_go. by apply HQ.
Qed.

Lemma wp_indent_len E p (Q : Z -> Ed -> Prop) :
  in_text s p -> (forall n, 0 <= n -> in_text s (p + n) ->
    (forall i, p <= i < p + n -> isblank (getb s i) = true) -> Q n s) ->
  wpe E (indent_len p) Q s.
Proof.
  intros Hp HQ. unfold indent_len. wp_go.
  apply (wpe_iter E (fun v s' => s' = s /\ p <= v /\ in_text s v /\
           forall i, p <= i < v -> isblank (getb s i) = true) (fun v _ => endp s - v));
    [| |simpl; txt].
  2:{ repeat split; [lia|txt..|]. intros i Hi. lia. }
  intros v s' (-> & Hv & Hr & Hbl). split; [txt|]. unfold indent_len_body. wp_go.
  - apply (wp_rd s Hwf); [done|]. wp_go.
    + repeat split; [lia|txt..| |lia]. intros i Hi.
      destruct (Z.eq_dec i v) as [->|]; [done|]. apply Hbl. lia.
    + apply HQ; [lia|txt|]. intros i Hi. apply Hbl. lia.
  - apply HQ; [lia|txt|]. intros i Hi. apply Hbl. lia.
Qed.

(** move_to_col(): stay on the line of [p] and stop on the first character
    that reaches past column [l], or on the newline *)
Lemma wp_move_to_col E p l (Q : Z -> Ed -> Prop) :
  0 < tabstop s -> in_text s p ->
  (forall b q, bol_of s p b -> b <= q <= endp s + 1 -> none_in s 10 b (Z.min q (endp s)) ->
     (q = b \/ col_of s b (Z.min q (endp s)) <= l) ->
     (q <= endp s -> getb s q = 10 \/ l < next_column (tabstop s) (getb s q) (col_of s b q)) ->
     Q q s) ->
  wpe E (move_to_col p l) Q s.
Proof.
  intros Hts Hp HQ. unfold move_to_col. apply wpe_bind, (wp_begin_line s Hwf); [done|]. intros b Hb.
  pose proof (bol_of_range _ _ _ Hb Hp) as Hr. wp_go.
  apply (wpe_iter E (fun v s' => s' = s /\ b <= fst v /\ in_text s (fst v) /\ snd v = col_of s b (fst v) /\
           none_in s 10 b (fst v) /\ (fst v = b \/ snd v <= l)) (fun v _ => endp s + 1 - fst v));
    [| |simpl; txt].
  2:{ simpl. rewrite col_of_refl. repeat split; [lia|txt..| |by left]. intros i Hi. lia. }
  intros [q co] s' (-> & Hbq & Hq & Hco & Hn & Hl); simpl in *. subst co. split; [txt|].
  wp_go. apply (wp_rd s Hwf); [done|]. wp_go.
  - apply Z.eqb_eq in H. apply (HQ b q); [done|txt| | |]; rewrite ?Z.min_l by txt; auto.
  - apply Z.eqb_neq in H. simpl. apply Z.leb_le in H0. apply Z.ltb_lt in H1.
    repeat split; [lia|txt..| | |by right|lia].
    + by rewrite col_of_step by (done || lia).
    + intros i Hi. destruct (Z.eq_dec i q) as [->|]; [done|]. apply Hn. lia.
  - apply Z.leb_le in H0. apply Z.ltb_ge in H1. assert (q = endp s) as -> by txt.
    apply (HQ b (endp s + 1)); [done|txt| | |lia]; rewrite ?Z.min_r by lia; [done|].
    destruct Hl as [Hl|Hl]; [|by right]. right. rewrite Hl, col_of_refl in *.
    pose proof (next_column_gt (tabstop s) (getb s b) 0 Hts). lia.
  - apply Z.leb_gt in H0. apply Z.eqb_neq in H.
    apply (HQ b q); [done|txt| | |]; rewrite ?Z.min_l by txt; auto.
Qed.
End columns.
