(* ===== verification/EvimHole.v ===== *)
(** * evim: opening and closing holes in text[]

    What text_hole_make(), text_hole_delete() and string_insert() do to the
    text of a well-formed buffer, with the pointers they rebase. *)
From S2P Require Import Prelude EvimState EvimLine EvimNav EvimSyntax EvimInput EvimTerm EvimEdit.

(** ** Writes to the block *)
(** the state after [bs] was copied to [p] *)
Definition put (p : Z) (bs : list Z) (s : Ed) : Ed := set_mem (splice (off s p) bs (mem s)) s.

Section writes.
Context (s : Ed).

Lemma wr_n_ok p bs : text s <= p -> p + zlen bs <= text s + zlen (mem s) ->
  wr_n p bs s = Ok tt (put p bs s).
Proof.
  intros H1 H2. unfold wr_n, in_block.
  by rewrite !(proj2 (Z.leb_le _ _)) by (unfold zlen in *; lia).
Qed.
Lemma wp_wr_n E p bs (Q : unit -> Ed -> Prop) :
  text s <= p -> p + zlen bs <= text s + zlen (mem s) -> Q tt (put p bs s) -> wpe E (wr_n p bs) Q s.
Proof. intros H1 H2 HQ. by apply (wpe_ok _ _ _ _ _ _ (wr_n_ok p bs H1 H2)). Qed.
(** reading anywhere in the block, past the end of the text too *)
Lemma wp_rd_block E p n (Q : list Z -> Ed -> Prop) :
  text s <= p -> 0 <= n -> p + n <= text s + zlen (mem s) -> Q (bytes_at s p n) s -> wpe E (rd_n p n) Q s.
Proof.
  intros H1 Hn H2 HQ. eapply wpe_ok; [|exact HQ]. unfold rd_n, in_block.
  by rewrite !(proj2 (Z.leb_le _ _)) by lia.
Qed.
Lemma zlen_put p bs : text s <= p -> p + zlen bs <= text s + zlen (mem s) ->
  zlen (mem (put p bs s)) = zlen (mem s).
Proof.
  intros H1 H2. unfold put, zlen, off in *. simpl. rewrite length_splice; lia.
Qed.
Lemma wf_put p bs : wf s -> text s <= p -> p + zlen bs <= text s + zlen (mem s) -> wf (put p bs s).
Proof.
  intros [] H1 H2. split; [done..|]. by rewrite zlen_put.
Qed.
End writes.

(** ** The list behind a hole *)
Section hole_list.
Context {A : Type} (x : A).

(** moving the tail up by [size] and clearing the hole *)
Lemma take_hole (i n size : nat) (mem : list A) :
  (i <= n)%nat -> (n + size <= length mem)%nat ->
  take (n + size) (splice i (replicate size x) (splice (i + size) (take (n - i) (drop i mem)) mem)) =
  take i (take n mem) ++ replicate size x ++ drop i (take n mem).
Proof.
  intros Hi Hn. set (B := take (n - i) (drop i mem)).
  assert (HB : length B = (n - i)%nat) by (unfold B; rewrite length_take, length_drop; lia).
  set (M := splice (i + size) B mem).
  assert (HM : length M = length mem) by (unfold M; apply length_splice; lia).
  unfold splice at 1. rewrite length_replicate.
  rewrite take_app_ge by (rewrite length_take; lia). f_equal.
  { unfold M. rewrite take_splice_le by lia. rewrite take_take. f_equal. lia. }
  rewrite length_take, HM. replace (n + size - i `min` length mem)%nat with (size + (n - i))%nat by lia.
  rewrite take_app_add' by (by rewrite length_replicate). f_equal.
  unfold M, splice. rewrite drop_app_ge by (rewrite length_take; lia).
  rewrite length_take, Nat.min_l, Nat.sub_diag, drop_0 by lia.
  rewrite take_app_le by lia. rewrite take_ge by lia.
  unfold B. rewrite take_drop_commute. by replace (i + (n - i))%nat with n by lia.
Qed.

(** moving the tail down over the bytes from [i] to [j] *)
Lemma take_close (i j n : nat) (mem : list A) :
  (i <= j <= n)%nat -> (n <= length mem)%nat ->
  take (n - (j - i)) (splice i (take (n - j) (drop j mem)) mem) = take i (take n mem) ++ drop j (take n mem).
Proof.
  intros Hi Hn. set (B := take (n - j) (drop j mem)).
  assert (HB : length B = (n - j)%nat) by (unfold B; rewrite length_take, length_drop; lia).
  replace (n - (j - i))%nat with (i + length B)%nat by lia.
  rewrite splice_full by lia. rewrite take_take, Nat.min_l by lia. f_equal.
  unfold B. rewrite take_drop_commute. by replace (j + (n - j))%nat with n by lia.
Qed.
End hole_list.

(** ** text_hole_make() *)
(** the text is a prefix of the block *)
Lemma contents_mem s : contents s = take (Z.to_nat (endp s - text s)) (mem s).
Proof. unfold contents, bytes_at, off. by rewrite Z.sub_diag. Qed.

(** every allocation answers a block *)
Definition good_alloc (s : Ed) : Prop := forall k, 0 < alloc_addr (env s) k.

(** the pointers that follow the text when the block moves by [bias] *)
Definition rebased (bias : Z) (s s' : Ed) : Prop :=
  text s' = text s + bias /\ dot s' = dot s + bias /\ screenbegin s' = screenbegin s + bias /\
  mark s' = map (fun m => if m =? 0 then 0 else m + bias) (mark s) /\
  vi_visual_anchor s' = (if vi_visual_anchor s =? 0 then 0 else vi_visual_anchor s + bias).
(** all the rest of the state *)
Definition frame (s : Ed) : Ed :=
  set_text 0 (set_mem [] (set_endp 0 (set_text_size 0 (set_dot 0 (set_screenbegin 0
    (set_mark [] (set_vi_visual_anchor 0 (set_alloc_cnt 0 s)))))))).

Lemma rebased_0 s s' : text s' = text s -> dot s' = dot s -> screenbegin s' = screenbegin s ->
  mark s' = mark s -> vi_visual_anchor s' = vi_visual_anchor s -> rebased 0 s s'.
Proof.
  intros H1 H2 H3 H4 H5. unfold rebased. rewrite H1, H2, H3, H4, H5. repeat split; try lia.
  - rewrite <- (map_id (mark s)) at 1. apply map_ext. intros m. destruct (Z.eqb_spec m 0); lia.
  - destruct (Z.eqb_spec (vi_visual_anchor s) 0); lia.
Qed.

(** the text of [s'] is the text of [s] with [bs] inserted at [i] *)
Definition inserted (i : nat) (bs : list Z) (s s' : Ed) : Prop :=
  contents s' = take i (contents s) ++ bs ++ drop i (contents s).

Lemma wp_open_hole {A} E s p size (k : EM A) (Q : A -> Ed -> Prop) :
  text s <= p -> 0 < size -> p + size <= endp s -> endp s <= text s + zlen (mem s) ->
  wpe E k Q (set_mem (splice (off s p) (replicate (Z.to_nat size) 32)
          (splice (off s (p + size)) (take (Z.to_nat (endp s - size - p)) (drop (off s p) (mem s))) (mem s))) s) ->
  wpe E (memmove (p + size) p (endp s - size - p) ;; memset p 32 size ;; k) Q s.
Proof.
  intros Hp Hs He Hb HQ. unfold memmove, memset. apply wpe_bind, wpe_bind.
  apply wp_rd_block; [lia|lia|lia|].
  assert (Hl : zlen (bytes_at s p (endp s - size - p)) = endp s - size - p).
  { unfold bytes_at, off, zlen in *. rewrite length_take, length_drop. lia. }
  apply wp_wr_n; [lia|lia|]. apply wpe_bind.
  assert (Hz : zlen (replicate (Z.to_nat size) 32) = size) by (unfold zlen; rewrite length_replicate; lia).
  apply wp_wr_n; [done| |exact HQ].
  rewrite zlen_put by lia. change (text (put _ _ s)) with (text s). lia.
Qed.

(** what the block holds after the hole was opened *)
Lemma contents_open s s1 p size : text s <= p <= endp s -> 0 < size ->
  endp s + size <= text s + zlen (mem s1) -> take (length (mem s)) (mem s1) = mem s ->
  endp s <= text s + zlen (mem s) ->
  take (Z.to_nat (endp s + size - text s))
    (splice (off s p) (replicate (Z.to_nat size) 32)
      (splice (off s (p + size)) (take (Z.to_nat (endp s - p)) (drop (off s p) (mem s1))) (mem s1))) =
  take (off s p) (contents s) ++ replicate (Z.to_nat size) 32 ++ drop (off s p) (contents s).
Proof.
  intros Hp Hs He Hpre Hb. rewrite contents_mem.
  replace (take (Z.to_nat (endp s - text s)) (mem s)) with (take (Z.to_nat (endp s - text s)) (mem s1)).
  2:{ rewrite <- Hpre. rewrite take_take. f_equal. unfold zlen in Hb. lia. }
  replace (Z.to_nat (endp s + size - text s)) with (Z.to_nat (endp s - text s) + Z.to_nat size)%nat by lia.
  replace (off s (p + size)) with (off s p + Z.to_nat size)%nat by (unfold off; lia).
  replace (Z.to_nat (endp s - p)) with (Z.to_nat (endp s - text s) - off s p)%nat by (unfold off; lia).
  apply take_hole; unfold off, zlen in *; lia.
Qed.

(** text_hole_make() with the block it has *)
Lemma wp_hole_make_fits E s p size (Q : Z -> Ed -> Prop) :
  wf s -> in_text s p -> 0 < size -> endp s + size < text s + text_size s ->
  (forall m, let s' := set_mem m (set_endp (endp s + size) s) in
     wf s' -> inserted (off s p) (replicate (Z.to_nat size) 32) s s' -> Q 0 s') ->
  wpe E (text_hole_make p size) Q s.
Proof.
  intros Hwf Hp Hs Hroom HQ. destruct (Hwf) as [Ht Hle Hlt Hsz]. unfold text_hole_make.
  replace (size <=? 0) with false by lia. do 4 wp_step. wp_step. cbn [text endp text_size set_endp].
  replace (text s + text_size s <=? endp s + size) with false by lia.
  do 3 wp_step. cbv beta zeta. rewrite !Z.add_0_r. set (s1 := set_endp (endp s + size) s).
  unfold in_text in Hp. apply (wp_open_hole E s1 p size); [simpl; lia..|]. apply wpe_ret.
  apply HQ.
  - split; simpl; try lia. unfold zlen, off in *; simpl. rewrite !length_splice;
      rewrite ?length_replicate, ?length_take, ?length_drop; rewrite ?length_splice;
      rewrite ?length_take, ?length_drop; lia.
  - unfold inserted. rewrite contents_mem. simpl.
    rewrite <- (contents_open s s p size) by (lia || by rewrite take_ge).
    unfold off; simpl; repeat f_equal; lia.
Qed.
Lemma wp_hole_make_room E s p size (Q : Z -> Ed -> Prop) :
  wf s -> in_text s p -> 0 < size -> endp s + size < text s + text_size s ->
  (forall s', wf s' -> rebased 0 s s' -> frame s' = frame s -> text_size s' = text_size s ->
     endp s' = endp s + size -> inserted (off s p) (replicate (Z.to_nat size) 32) s s' -> Q 0 s') ->
  wpe E (text_hole_make p size) Q s.
Proof.
  intros Hwf Hp Hs Hroom HQ. apply wp_hole_make_fits; [done..|]. intros m s' Hwf' Hins.
  apply HQ; try done. by apply rebased_0.
Qed.

(** text_hole_make() when the block must grow *)
Lemma wp_hole_make_grow E s p size (Q : Z -> Ed -> Prop) :
  wf s -> good_alloc s -> in_text s p -> 0 < size -> text s + text_size s <= endp s + size ->
  (forall bias s', wf s' -> rebased bias s s' -> frame s' = frame s ->
     endp s' = endp s + size + bias -> inserted (off s p) (replicate (Z.to_nat size) 32) s s' -> Q bias s') ->
  wpe E (text_hole_make p size) Q s.
Proof.
  intros Hwf Hal Hp Hs Hroom HQ. destruct (Hwf) as [Ht Hle Hlt Hsz]. unfold text_hole_make.
  replace (size <=? 0) with false by lia. do 4 wp_step. wp_step. cbn [text endp text_size set_endp].
  replace (text s + text_size s <=? endp s + size) with true by lia.
  replace (text_size s + (endp s + size - (text s + text_size s)) + 10240)
    with (endp s + size - text s + 10240) by lia.
  set (n := endp s + size - text s + 10240). assert (Hn : n = endp s + size - text s + 10240) by done.
  set (junk := map (alloc_junk (env s) (alloc_cnt s)) (seq (length (mem s)) (Z.to_nat n - length (mem s)))).
  assert (Hmem : take (Z.to_nat n) (mem s) = mem s) by (apply take_ge; unfold zlen in Hsz; lia).
  assert (Hlen : zlen (mem s ++ junk) = n).
  { unfold zlen in *. unfold junk. rewrite length_app, length_map, length_seq. lia. }
  set (bias := alloc_addr (env s) (alloc_cnt s) - text s).
  set (s1 := set_text (alloc_addr (env s) (alloc_cnt s)) (rebase bias (set_mem (mem s ++ junk)
    (set_alloc_cnt (S (alloc_cnt s)) (set_text_size n (set_endp (endp s + size) s)))))).
  assert (Hre : rebased bias s s1 /\ frame s1 = frame s /\ endp s1 = endp s + size + bias /\
    text_size s1 = n /\ mem s1 = mem s ++ junk).
  { unfold s1, rebased, rebase. simpl. destruct (Z.eqb_spec (vi_visual_anchor s) 0); simpl.
    all: repeat split; try done; unfold bias; lia. }
  destruct Hre as (Hreb & Hfr & Hend & Hts & Hm1). destruct (Hreb) as (Htx & _).
  apply wpe_bind, wpe_modify. apply wpe_bind.
  eapply wpe_ok. { unfold realloc_text. simpl. rewrite Hmem. reflexivity. }
  apply wpe_bind, wpe_modify, wpe_bind, wpe_modify, wpe_ret, wpe_bind, wpe_gets.
  change (wpe E (memmove (p + bias + size) (p + bias) (endp s1 - size - (p + bias)) ;;
    memset (p + bias) 32 size ;; ret bias) Q s1).
  pose proof (Hal (alloc_cnt s)) as Hpos.
  unfold in_text in Hp. clearbody s1.
  apply (wp_open_hole E s1 (p + bias) size); [lia..|rewrite Hm1, Hlen; lia|]. apply wpe_ret.
  apply HQ; try done.
  - split; simpl; [unfold bias in Htx; lia|lia|lia|].
    unfold zlen, off in *; simpl. rewrite !length_splice;
      rewrite ?length_replicate, ?length_take, ?length_drop; rewrite ?length_splice;
      rewrite ?length_take, ?length_drop; rewrite ?Hm1; lia.
  - unfold inserted. rewrite contents_mem. simpl.
    replace (off s1 (p + bias)) with (off s p) by (unfold off; lia).
    replace (off s1 (p + bias + size)) with (off s (p + size)) by (unfold off; lia).
    replace (endp s1 - text s1) with (endp s + size - text s) by lia.
    replace (endp s1 - size - (p + bias)) with (endp s - p) by lia.
    apply contents_open.
    + lia.
    + lia.
    + rewrite Hm1, Hlen. lia.
    + rewrite Hm1. apply take_app_length.
    + lia.
Qed.

(** text_hole_make() opens a hole of spaces; the pointers follow the block *)
Lemma wp_hole_make E s p size (Q : Z -> Ed -> Prop) :
  wf s -> good_alloc s -> in_text s p -> 0 <= size ->
  (forall bias s', wf s' -> rebased bias s s' -> frame s' = frame s ->
     endp s' = endp s + size + bias -> inserted (off s p) (replicate (Z.to_nat size) 32) s s' ->
     (endp s + size < text s + text_size s -> bias = 0) -> Q bias s') ->
  wpe E (text_hole_make p size) Q s.
Proof.
  intros Hwf Hal Hp Hs HQ. destruct (Z.eq_dec size 0) as [->|].
  { unfold text_hole_make. simpl. apply wpe_ret. apply HQ; try done; [by apply rebased_0|lia|].
    unfold inserted. simpl. by rewrite take_drop. }
  destruct (Z.lt_ge_cases (endp s + size) (text s + text_size s)).
  - apply wp_hole_make_room; [done..|lia|done|]. intros s' ? ? ? ? ? ?. apply HQ; auto. lia.
  - apply wp_hole_make_grow; [done..|lia|done|]. intros bias s' ? ? ? ? ?. apply HQ; auto. lia.
Qed.
