(* ===== verification/EvimUndo.v ===== *)
(** * evim: the undo stack, its queue, and deleting text

    [uframe] is the state without the undo data: recording a change never
    faults and touches nothing else.  On top of it the rules of
    text_hole_delete(), string_insert() and the routines that undo. *)
From S2P Require Import Prelude EvimState EvimLine EvimNav EvimSyntax EvimInput EvimTerm EvimEdit EvimHole.

(** ** The undo data *)
Definition uframe (s : Ed) : Ed :=
  set_undo_stack_tail [] (set_undo_queue_state 0 (set_undo_queue_spos 0 (set_undo_q 0
    (set_undo_queue [] (set_modified_count 0 s))))).
(** the queue: a count that fits, in an array of its size; nothing is queued
    in the state UNDO_EMPTY only *)
Record qwf (s : Ed) : Prop := mkQwf {
  qwf_q : 0 <= undo_q s < VI_UNDO_QUEUE_MAX;
  qwf_len : length (undo_queue s) = Z.to_nat VI_UNDO_QUEUE_MAX;
  qwf_empty : undo_q s = 0 -> undo_queue_state s = UNDO_EMPTY
}.
(** the state after an entry was pushed *)
Definition pushed (u : undo_object) (s : Ed) : Ed :=
  set_modified_count (i32 (modified_count s + 1)) (set_undo_stack_tail (u :: undo_stack_tail s) s).

Lemma wf_same s s' : text s' = text s -> endp s' = endp s -> text_size s' = text_size s -> mem s' = mem s ->
  wf s -> wf s'.
Proof. intros H1 H2 H3 H4 []. split; congruence || lia. Qed.
Lemma contents_same s s' : text s' = text s -> endp s' = endp s -> mem s' = mem s -> contents s' = contents s.
Proof. intros H1 H2 H3. by rewrite !contents_mem, H1, H2, H3. Qed.
Lemma wf_uframe s s' : uframe s' = uframe s -> wf s -> wf s'.
Proof.
  intros H. apply wf_same;
    [exact (f_equal text H)|exact (f_equal endp H)|exact (f_equal text_size H)|exact (f_equal mem H)].
Qed.
Lemma contents_uframe s s' : uframe s' = uframe s -> contents s' = contents s.
Proof.
  intros H. apply contents_same; [exact (f_equal text H)|exact (f_equal endp H)|exact (f_equal mem H)].
Qed.

(** the entry undo_push() makes for [length] bytes at [src] *)
Definition undo_entry (s : Ed) (src length u_type : Z) : undo_object :=
  let del := (u_type =? UNDO_DEL) || (u_type =? UNDO_DEL_CHAIN) in
  let length := if del && (text s + length =? endp s) then length - 1 else length in
  mkUndo (src - text s) length u_type (if del then bytes_at s src length else []).

Lemma wp_undo_push_text E s src length u_type (Q : unit -> Ed -> Prop) :
  wf s -> in_text s src -> 0 <= length < 2 ^ 31 ->
  (u_type = UNDO_DEL \/ u_type = UNDO_DEL_CHAIN -> 0 < length /\ src + length <= endp s) ->
  Q tt (pushed (undo_entry s src length u_type) s) -> wpe E (undo_push_text src length u_type) Q s.
Proof.
  intros Hwf Hsrc Hl Hpos HQ. unfold undo_push_text, undo_entry in *. do 2 wp_step. cbv zeta.
  destruct ((u_type =? UNDO_DEL) || (u_type =? UNDO_DEL_CHAIN)) eqn:Hdel; cbn [andb] in *.
  - assert (0 < length /\ src + length <= endp s) as [? ?].
    { apply Hpos. apply orb_true_iff in Hdel as [E1|E1]; apply Z.eqb_eq in E1; auto. }
    assert (u32 (length - 1) = length - 1) as -> by (apply u32_small; lia).
    set (len := if text s + length =? endp s then length - 1 else length) in *.
    assert (0 <= len <= length) by (unfold len; destruct (text s + length =? endp s); lia). clearbody len.
    apply wpe_bind, (wp_rd_n s Hwf); [done|lia|lia|exact HQ].
  - apply wpe_bind. exact HQ.
Qed.

(** the entry undo_queue_commit() makes of the queue *)
Definition queue_entry (s : Ed) : undo_object :=
  let del := (undo_queue_state s =? UNDO_DEL) || (undo_queue_state s =? UNDO_DEL_CHAIN) in
  let length := if del && (text s + undo_q s =? endp s) then undo_q s - 1 else undo_q s in
  mkUndo (undo_queue_spos s - text s) length (undo_queue_state s)
    (if del then take (Z.to_nat length) (drop (Z.to_nat (VI_UNDO_QUEUE_MAX - undo_q s)) (undo_queue s)) else []).
(** the state after undo_queue_commit() *)
Definition committed (s : Ed) : Ed :=
  if 0 <? undo_q s then set_undo_q 0 (set_undo_queue_state UNDO_EMPTY (pushed (queue_entry s) s)) else s.

Lemma undo_queue_commit_ok s : undo_q s <= VI_UNDO_QUEUE_MAX -> undo_queue_commit s = Ok tt (committed s).
Proof.
  intros H. unfold undo_queue_commit, committed, bind, get. destruct (0 <? undo_q s); [|done].
  by replace (undo_q s <=? VI_UNDO_QUEUE_MAX) with true by lia.
Qed.
Lemma wp_undo_queue_commit E s (Q : unit -> Ed -> Prop) :
  undo_q s <= VI_UNDO_QUEUE_MAX -> Q tt (committed s) -> wpe E undo_queue_commit Q s.
Proof. intros H HQ. by apply (wpe_ok _ _ _ _ _ _ (undo_queue_commit_ok s H)). Qed.

Lemma committed_uframe s : uframe (committed s) = uframe s.
Proof. unfold committed. by destruct (0 <? undo_q s). Qed.
Lemma committed_qwf s : 0 <= undo_q s -> length (undo_queue s) = Z.to_nat VI_UNDO_QUEUE_MAX ->
  (undo_q s = 0 -> undo_queue_state s = UNDO_EMPTY) -> qwf (committed s).
Proof.
  intros Hq Hl He. unfold committed. destruct (Z.ltb_spec 0 (undo_q s)).
  - split; [simpl; unfold VI_UNDO_QUEUE_MAX; lia|done..].
  - split; [unfold VI_UNDO_QUEUE_MAX; lia|done..].
Qed.
Lemma qwf_committed s : qwf s -> qwf (committed s).
Proof. intros []. by apply committed_qwf; [lia|..]. Qed.
Lemma committed_empty s : 0 < undo_q s -> undo_queue_state (committed s) = UNDO_EMPTY /\ undo_q (committed s) = 0.
Proof. intros H. unfold committed. by replace (0 <? undo_q s) with true by lia. Qed.

(** ** undo_push() *)
Lemma wf_uframe' s s' : uframe s' = uframe s -> wf s' -> wf s.
Proof. intros H. by apply wf_uframe. Qed.
Lemma getb_uframe s s' p : uframe s' = uframe s -> getb s' p = getb s p.
Proof. intros H. unfold getb, off. by rewrite (f_equal text H : text s' = _), (f_equal mem H : mem s' = _). Qed.
Lemma in_text_uframe s s' p : uframe s' = uframe s -> in_text s p -> in_text s' p.
Proof. intros H. unfold in_text. by rewrite (f_equal text H : text s' = _), (f_equal endp H : endp s' = _). Qed.

(** the state after one deleted character was queued, before a commit *)
Definition queued_del (src : Z) (s : Ed) : Ed :=
  set_undo_queue (<[Z.to_nat (VI_UNDO_QUEUE_MAX - (undo_q s + 1)) := getb s src]> (undo_queue s))
    (set_undo_q (undo_q s + 1) (set_undo_queue_spos src (set_undo_queue_state UNDO_DEL s))).
(** a full queue is committed *)
Definition commit_full (s : Ed) : Ed := if undo_q s =? VI_UNDO_QUEUE_MAX then committed s else s.

Lemma wp_queue_deleted E s src (Q : unit -> Ed -> Prop) :
  wf s -> qwf s -> in_text s src -> Q tt (commit_full (queued_del src s)) -> wpe E (queue_deleted src) Q s.
Proof.
  intros Hwf [Hq Hl _] Hsrc HQ. unfold queue_deleted. do 3 wp_step.
  apply wp_rd; [by apply (wf_same s)|done|].
  set (s1 := set_undo_q _ _).
  change (getb s1 src) with (getb s src). wp_step.
  assert (Hput : put_undo_queue (getb s src) s1 = Ok tt (queued_del src s)).
  { assert (Hz : zlen (undo_queue s) = VI_UNDO_QUEUE_MAX) by (unfold zlen; rewrite Hl; done).
    unfold put_undo_queue, s1. cbn [undo_q undo_queue set_undo_q set_undo_queue_spos set_undo_queue_state].
    rewrite Hz. unfold VI_UNDO_QUEUE_MAX in *.
    by replace ((0 <=? 32 - (undo_q s + 1)) && (32 - (undo_q s + 1) <? 32)) with true by lia. }
  apply (wpe_ok _ _ _ _ _ _ Hput). do 3 wp_step.
  - apply wp_undo_queue_commit; [lia|].
    unfold commit_full in HQ. by rewrite H in HQ.
  - unfold commit_full in HQ. by rewrite H in HQ.
Qed.

Lemma commit_full_qwf s : 0 <= undo_q s <= VI_UNDO_QUEUE_MAX -> length (undo_queue s) = Z.to_nat VI_UNDO_QUEUE_MAX ->
  (undo_q s = 0 -> undo_queue_state s = UNDO_EMPTY) -> qwf (commit_full s).
Proof.
  intros Hq Hl He. unfold commit_full. destruct (Z.eqb_spec (undo_q s) VI_UNDO_QUEUE_MAX).
  - apply committed_qwf; [lia|done..].
  - split; [lia|done..].
Qed.
Lemma commit_full_uframe s : uframe (commit_full s) = uframe s.
Proof. unfold commit_full. destruct (_ =? _); [apply committed_uframe|done]. Qed.
Lemma queued_del_qwf src s : qwf s -> qwf (commit_full (queued_del src s)).
Proof.
  intros [Hq Hl He]. apply commit_full_qwf.
  - unfold queued_del, VI_UNDO_QUEUE_MAX in *. simpl. lia.
  - unfold queued_del. simpl. by rewrite length_insert.
  - unfold queued_del. cbn [undo_q set_undo_queue set_undo_q]. lia.
Qed.
Lemma queued_del_uframe src s : uframe (commit_full (queued_del src s)) = uframe s.
Proof. by rewrite commit_full_uframe. Qed.

Lemma wp_queue_inserted E s src length (Q : unit -> Ed -> Prop) :
  qwf s -> 1 <= length -> (forall s', uframe s' = uframe s -> qwf s' -> Q tt s') ->
  wpe E (queue_inserted src length) Q s.
Proof.
  intros [Hq Hl He] Hlen HQ. unfold queue_inserted.
  set (I j (s1 : Ed) := uframe s1 = uframe s /\ 0 <= undo_q s1 < VI_UNDO_QUEUE_MAX /\
    List.length (undo_queue s1) = Z.to_nat VI_UNDO_QUEUE_MAX /\
    (0 < j -> undo_q s1 = 0 -> undo_queue_state s1 = UNDO_EMPTY)).
  assert (Hloop : forall s1, I 0 s1 ->
    wpe E (repeat_ (Z.to_nat length) 0 (fun _ => modify (fun s => set_undo_q (undo_q s + 1) s) ;;
      s <- get ;; when (undo_q s =? VI_UNDO_QUEUE_MAX) undo_queue_commit)) Q s1).
  { intros s1 HI. eapply wpe_mono; [apply (wpe_repeat E I)|].
    - intros j s2 Hj (Hu2 & Hq2 & Hl2 & He2). do 5 wp_step.
      + apply wp_undo_queue_commit; [simpl; lia|]. unfold I. rewrite committed_uframe. split; [done|].
        destruct (committed_qwf (set_undo_q (undo_q s2 + 1) s2)); [simpl; lia|done|simpl; lia|done].
      + unfold I. simpl in *. repeat split; [done|lia|lia|done|lia].
    - exact HI.
    - intros [] s2 (Hu2 & Hq2 & Hl2 & He2). apply HQ; [done|]. split; [done..|]. apply He2. lia. }
  do 4 wp_step; [wp_step|]; apply Hloop; repeat split; try done; simpl in *; try lia.
Qed.

(** Recording a change, of whatever kind, never faults and changes nothing
    but the undo data, whose queue stays within its array. *)
Lemma wp_undo_push E s src length u_type (Q : unit -> Ed -> Prop) :
  wf s -> qwf s -> in_text s src -> 0 <= length < 2 ^ 31 ->
  (u_type = UNDO_DEL \/ u_type = UNDO_DEL_CHAIN -> 0 < length /\ src + length <= endp s) ->
  (forall s', uframe s' = uframe s -> qwf s' -> Q tt s') -> wpe E (undo_push src length u_type) Q s.
Proof.
  intros Hwf Hq Hsrc Hl Hpos HQ. unfold undo_push. rewrite (u32_small length) by lia.
  assert (Hdel : forall s1, uframe s1 = uframe s -> qwf s1 -> wpe E (queue_deleted src) Q s1).
  { intros s1 Hu Hq1. apply wp_queue_deleted; [by apply (wf_uframe s)|done|by apply (in_text_uframe s)|].
    apply HQ; [by rewrite queued_del_uframe|by apply queued_del_qwf]. }
  assert (Hins : forall s1, uframe s1 = uframe s -> qwf s1 -> 1 <= length -> wpe E (queue_inserted src length) Q s1).
  { intros s1 Hu Hq1 H1. apply wp_queue_inserted; [done..|]. intros s2 Hu2 Hq2. apply HQ; congruence || done. }
  assert (Htext : wpe E (undo_push_text src length u_type) Q s).
  { apply wp_undo_push_text; [done..|]. apply HQ; [done|]. destruct Hq. by split. }
  pose proof (qwf_committed s Hq) as Hcq. pose proof (committed_uframe s) as Hcu.
  assert (Hce : undo_queue_state s <> UNDO_EMPTY -> undo_queue_state (committed s) = UNDO_EMPTY).
  { intros Hne. apply committed_empty. destruct Hq as [? ? He0].
    destruct (Z.eq_dec (undo_q s) 0); [by rewrite He0 in Hne|lia]. }
  assert (Hqs : undo_q s <= VI_UNDO_QUEUE_MAX) by (destruct Hq; lia).
  do 2 wp_step. wp_step; [wp_step; by apply HQ|]. wp_step; [wp_step|wp_step; [wp_step|]].
  - wp_step. by apply HQ.
  - wp_step; [by apply Hdel|]. wp_step; [|done]. wp_step. apply wp_undo_queue_commit; [done|].
    apply Z.eqb_eq in H3. do 2 wp_step. rewrite Hce by (rewrite H3; done). simpl. by apply Hdel.
  - wp_step. by apply HQ.
  - wp_step; [by apply Hins; [..|lia]|]. wp_step; [|done]. wp_step. apply wp_undo_queue_commit; [done|].
    apply Z.eqb_eq in H4. do 2 wp_step. rewrite Hce by (rewrite H4; done). simpl. apply Hins; [done..|lia].
  - done.
Qed.

(** ** text_hole_delete() *)
(** [s'] is [s] with the bytes from [p] through [q] deleted *)
Definition closed (p q : Z) (s s' : Ed) : Prop :=
  wf s' /\ contents s' = take (off s p) (contents s) ++ drop (off s (q + 1)) (contents s) /\
  exists m, s' = set_endp (endp s - (q - p + 1))
    (set_mem m (set_modified_count (i32 (i32 (modified_count s - 1) + 1)) s)).
(** where the deletion leaves the cursor *)
Definition del_dest (s : Ed) (p q : Z) : Z :=
  let e := endp s - (q - p + 1) in
  if e <=? text s then text s else if e <=? p then e - 1 else p.
(** how text_hole_delete() records the deletion *)
Definition del_push (undo : allow_undo) (p n : Z) : EM unit :=
  match undo with
  | NO_UNDO => ret tt
  | ALLOW_UNDO => undo_push p n UNDO_DEL
  | ALLOW_UNDO_CHAIN => undo_push p n UNDO_DEL_CHAIN
  | ALLOW_UNDO_QUEUED => undo_push p n UNDO_DEL_QUEUED
  end.

Lemma wp_hole_delete_gen E s p q undo (Q : Z -> Ed -> Prop) :
  wf s -> text s <= p -> p <= q < endp s ->
  wpe E (del_push undo p (q - p + 1)) (fun _ s1 => uframe s1 = uframe s /\
    forall s', closed p q s1 s' -> Q (del_dest s p q) s') s ->
  wpe E (text_hole_delete p q undo) Q s.
Proof.
  intros Hwf Hp Hq Hpush. unfold text_hole_delete, upd_modified.
  replace (if q <? p then (p + 1, q) else (q + 1, p)) with (q + 1, p) by (by replace (q <? p) with false by lia).
  do 2 wp_step. cbv zeta. wp_step.
  eapply wpe_mono; [exact Hpush|]. intros [] s1 [Hu HQ]. clear Hpush.
  pose proof (wf_uframe s s1 Hu Hwf) as Hwf1. destruct (Hwf1) as [Ht Hle Hlt Hsz].
  assert (Htx : text s1 = text s) by exact (f_equal text Hu).
  assert (Hen : endp s1 = endp s) by exact (f_equal endp Hu).
  rewrite <- Hen. rewrite <- Htx in Hp. rewrite <- Hen in Hq. unfold del_dest in HQ. rewrite <- Htx, <- Hen in HQ.
  do 2 wp_step. do 2 wp_step. cbn [text endp set_modified_count].
  replace ((q + 1 <? text s1) || (endp s1 <? q + 1)) with false by lia.
  replace ((p <? text s1) || (endp s1 <=? p)) with false by lia.
  do 3 wp_step. cbn [modified_count set_modified_count].
  set (s2 := set_modified_count _ (set_modified_count _ s1)). set (n := q - p + 1) in *. assert (Hn : n = q - p + 1) by done.
  set (cnt := endp s1 - (q + 1)). assert (Hcnt : cnt = endp s1 - (q + 1)) by done.
  assert (Hmove : wpe E (if endp s1 <=? q + 1 then ret tt else memmove p (q + 1) cnt)
    (fun _ s3 => exists m, s3 = set_mem m s2 /\ zlen m = zlen (mem s1) /\
       take (Z.to_nat (endp s1 - n - text s1)) m =
       take (off s1 p) (contents s1) ++ drop (off s1 (q + 1)) (contents s1)) s2).
  { assert (Hij : take (Z.to_nat (endp s1 - n - text s1)) (splice (off s1 p)
        (take (Z.to_nat cnt) (drop (off s1 (q + 1)) (mem s1))) (mem s1)) =
      take (off s1 p) (contents s1) ++ drop (off s1 (q + 1)) (contents s1)).
    { rewrite contents_mem.
      rewrite <- (take_close (off s1 p) (off s1 (q + 1)) (Z.to_nat (endp s1 - text s1))) by (unfold off, zlen in *; lia).
      f_equal; [unfold off; lia|]. f_equal. f_equal. unfold off, cnt; lia. }
    wp_step.
    - wp_step. exists (mem s1). split; [done|]. split; [done|]. rewrite <- Hij.
      assert (Z.to_nat cnt = 0%nat) as -> by lia. by rewrite take_0, splice_nil.
    - unfold memmove. apply wpe_bind, wp_rd_block; [simpl; lia|lia|simpl; lia|].
      change (bytes_at s2 (q + 1) cnt) with (take (Z.to_nat cnt) (drop (off s1 (q + 1)) (mem s1))).
      assert (Hl : zlen (take (Z.to_nat cnt) (drop (off s1 (q + 1)) (mem s1))) = cnt).
      { unfold zlen, off in *. rewrite length_take, length_drop. lia. }
      apply wp_wr_n; [simpl; lia|rewrite Hl; simpl; lia|].
      eexists. split; [reflexivity|]. split; [|exact Hij].
      change (off s2 p) with (off s1 p). change (mem s2) with (mem s1).
      unfold zlen, off in *. rewrite length_splice; lia. }
  eapply wpe_mono; [exact Hmove|]. intros [] s3 (m & -> & Hm & Htk).
  assert (Hcl : closed p q s1 (set_endp (endp s1 - n) (set_mem m
      (set_modified_count (i32 (i32 (modified_count s1 - 1) + 1)) s1)))).
  { split; [|split].
    - split; simpl; lia.
    - rewrite contents_mem. exact Htk.
    - eauto. }
  cbn [text endp]. change (endp s2) with (endp s1). wp_step.
  - replace (endp s1 - n <=? text s1) with true in HQ by (change (text s2) with (text s1) in *; lia).
    wp_step. wp_step. wp_step. assert (endp s1 - n = text s1) as E0 by (change (text s2) with (text s1) in *; lia).
    rewrite <- E0 at 2. apply HQ. exact Hcl.
  - replace (endp s1 - n <=? text s1) with false in HQ by (change (text s2) with (text s1) in *; lia).
    wp_step. wp_step. wp_step. apply HQ. exact Hcl.
Qed.

(** ** Deleting and inserting *)
(** all the state but the text block, the pointers into it and the undo data *)
Definition eframe (s : Ed) : Ed := frame (uframe s).
Lemma eframe_uframe s s' : uframe s' = uframe s -> eframe s' = eframe s.
Proof. unfold eframe. by intros ->. Qed.
Lemma eframe_frame s s' : frame s' = frame s -> eframe s' = eframe s.
Proof. intros H. exact (f_equal uframe H). Qed.

Lemma qwf_same s s' : undo_q s' = undo_q s -> undo_queue s' = undo_queue s ->
  undo_queue_state s' = undo_queue_state s -> qwf s -> qwf s'.
Proof. intros H1 H2 H3 []. split; by rewrite ?H1, ?H2, ?H3. Qed.
Lemma qwf_frame s s' : frame s' = frame s -> qwf s -> qwf s'.
Proof.
  intros H. apply qwf_same;
    [exact (f_equal undo_q H)|exact (f_equal undo_queue H)|exact (f_equal undo_queue_state H)].
Qed.
Lemma good_alloc_same s s' : env s' = env s -> good_alloc s -> good_alloc s'.
Proof. intros H. unfold good_alloc. by rewrite H. Qed.

(** the pointers that a deletion leaves alone, and the rest of the state *)
Definition dframe (s : Ed) : Ed := set_mem [] (set_endp 0 (uframe s)).

Lemma wp_del_push E s p n undo (Q : unit -> Ed -> Prop) :
  wf s -> qwf s -> in_text s p -> 0 < n < 2 ^ 31 -> p + n <= endp s ->
  (forall s1, uframe s1 = uframe s -> qwf s1 -> (undo = NO_UNDO -> s1 = s) -> Q tt s1) ->
  wpe E (del_push undo p n) Q s.
Proof.
  intros Hwf Hq Hp Hn He HQ. unfold del_push. destruct undo; [by apply HQ| | |].
  all: apply wp_undo_push; [done|done|done|lia|lia|]; intros s1 ? ?; apply HQ; done.
Qed.

(** text_hole_delete() removes the bytes from [p] through [q] *)
Lemma wp_hole_delete E s p q undo (Q : Z -> Ed -> Prop) :
  wf s -> qwf s -> text s <= p -> p <= q < endp s -> q - p + 1 < 2 ^ 31 ->
  (forall s', wf s' -> qwf s' -> dframe s' = dframe s -> endp s' = endp s - (q - p + 1) ->
     contents s' = take (off s p) (contents s) ++ drop (off s (q + 1)) (contents s) ->
     Q (del_dest s p q) s') ->
  wpe E (text_hole_delete p q undo) Q s.
Proof.
  intros Hwf Hq Hp Hpq Hn HQ. apply wp_hole_delete_gen; [done..|].
  apply wp_del_push; [done|done|txt|lia|lia|]. intros s1 Hu Hq1 _. split; [done|].
  intros s' (Hwf' & Hc & m & ->). apply HQ; try done.
  - by apply (qwf_same s1).
  - exact (f_equal (fun s => set_mem [] (set_endp 0 s)) Hu).
  - simpl. by rewrite (f_equal endp Hu : endp s1 = _).
  - rewrite Hc. rewrite (contents_uframe _ _ Hu). unfold off. by rewrite (f_equal text Hu : text s1 = _).
Qed.

Lemma contents_put s p bs : text s <= p -> p + zlen bs <= endp s -> endp s <= text s + zlen (mem s) ->
  contents (put p bs s) = splice (off s p) bs (contents s).
Proof.
  intros Hp He Hm. rewrite !contents_mem. unfold put, splice, zlen, off in *. simpl.
  set (n := Z.to_nat (endp s - text s)). set (i := Z.to_nat (p - text s)).
  assert (i + length bs <= n)%nat by lia.
  rewrite take_app_ge by (rewrite length_take; lia).
  rewrite take_take, Nat.min_l by lia. f_equal. rewrite length_take, Nat.min_l by lia.
  rewrite take_app_ge by lia. f_equal. rewrite take_drop_commute. f_equal. f_equal. lia.
Qed.
Lemma splice_mid {A} (a x c bs : list A) : length x = length bs ->
  splice (length a) bs (a ++ x ++ c) = a ++ bs ++ c.
Proof.
  intros H. unfold splice. rewrite take_app_length. f_equal. f_equal.
  rewrite <- H. by rewrite drop_app_add', drop_app_length.
Qed.

(** fill the hole that was opened at [p] *)
Lemma inserted_put s s' p bias bs : wf s -> wf s' -> in_text s p -> text s' = text s + bias ->
  endp s' = endp s + zlen bs + bias -> inserted (off s p) (replicate (length bs) 32) s s' ->
  inserted (off s p) bs s (put (p + bias) bs s').
Proof.
  intros Hwf Hwf' Hp Ht He Hins. pose proof (length_contents s Hwf) as Hl. unfold zlen in Hl.
  unfold inserted in *. destruct Hwf' as [? ? ? ?].
  rewrite contents_put by txt. rewrite Hins.
  replace (off s' (p + bias)) with (length (take (off s p) (contents s))) at 1.
  - apply splice_mid. by rewrite length_replicate.
  - rewrite length_take. unfold off, in_text in *. lia.
Qed.

Lemma wp_undo_push_insert E s p n undo (Q : unit -> Ed -> Prop) :
  wf s -> qwf s -> in_text s p -> 0 <= n < 2 ^ 31 ->
  (forall s1, uframe s1 = uframe s -> qwf s1 -> (undo = NO_UNDO -> s1 = s) -> Q tt s1) ->
  wpe E (undo_push_insert p n undo) Q s.
Proof.
  intros Hwf Hq Hp Hn HQ. unfold undo_push_insert. destruct undo; [by apply HQ| | |].
  all: apply wp_undo_push; [done|done|done|done|intros [?|?]; done|]; intros s1 ? ?; apply HQ; done.
Qed.

(** what string_insert() leaves of the rest of the state *)
Definition rebased_to (p bias : Z) (bs : list Z) (s s' : Ed) : Prop :=
  wf s' /\ qwf s' /\ rebased bias s s' /\ eframe s' = eframe s /\
  endp s' = endp s + zlen bs + bias /\ inserted (off s p) bs s s'.

Lemma wp_string_insert E s p bs undo (Q : Z -> Ed -> Prop) :
  wf s -> qwf s -> good_alloc s -> in_text s p -> zlen bs < 2 ^ 31 ->
  (forall bias s', rebased_to p bias bs s s' ->
     (endp s + zlen bs < text s + text_size s -> bias = 0) -> Q bias s') ->
  wpe E (string_insert p bs undo) Q s.
Proof.
  intros Hwf Hq Hal Hp Hn HQ. unfold string_insert. cbv zeta.
  assert (0 <= zlen bs) by (unfold zlen; lia).
  apply wpe_bind, wp_undo_push_insert; [done..|lia|]. intros s1 Hu Hq1 _.
  pose proof (wf_uframe _ _ Hu Hwf) as Hwf1.
  assert (Htx : text s1 = text s) by exact (f_equal text Hu).
  assert (Hen : endp s1 = endp s) by exact (f_equal endp Hu).
  assert (Hsz : text_size s1 = text_size s) by exact (f_equal text_size Hu).
  apply wpe_bind, wp_hole_make; [done|by apply (good_alloc_same s); [exact (f_equal env Hu)|]| |done|].
  { by apply (in_text_uframe s). }
  intros bias s2 Hwf2 Hre Hfr He2 Hins Hb. destruct (Hre) as (Ht2 & _).
  assert (Hp1 : in_text s1 p) by by apply (in_text_uframe s).
  replace (Z.to_nat (zlen bs)) with (length bs) in Hins by (unfold zlen; lia).
  destruct (Hwf2) as [? ? ? Hsz2].
  apply wpe_bind, wp_wr_n; [txt|txt|]. apply wpe_ret. apply HQ; [|intros; apply Hb; lia].
  assert (Hre' : rebased bias s s2).
  { unfold rebased in *. rewrite <- (f_equal dot Hu : dot s1 = dot s), <- (f_equal text Hu : text s1 = text s),
      <- (f_equal screenbegin Hu : screenbegin s1 = screenbegin s), <- (f_equal mark Hu : mark s1 = mark s),
      <- (f_equal vi_visual_anchor Hu : vi_visual_anchor s1 = vi_visual_anchor s). done. }
  split; [|split; [|split; [|split; [|split]]]].
  - apply wf_put; [done|txt|txt].
  - apply (qwf_same s2); try done. by apply (qwf_frame s1).
  - exact Hre'.
  - transitivity (eframe s1); [|by apply eframe_uframe]. apply (eframe_frame s1). exact Hfr.
  - change (endp (put _ _ s2)) with (endp s2). lia.
  - assert (Hp2 : inserted (off s1 p) bs s1 (put (p + bias) bs s2)) by (apply inserted_put; done || txt).
    unfold inserted in *. rewrite (contents_uframe _ _ Hu) in Hp2.
    replace (off s p) with (off s1 p) by (unfold off; lia). done.
Qed.
