(* ===== verification/EvimColor.v ===== *)
(** * evim: the colouring functions stay inside col_buf

    The bounds of the scanners, the invariant of the colour array, and the
    rules of the five colouring functions: on a line of [n] columns none of
    them writes outside the [n] cells, and every colour is an index of the
    SGR table. *)
From S2P Require Import Prelude EvimState EvimLine EvimNav EvimSyntax.

(** ** Scanners *)
Section scanners.
Context (s : list Z) (n : Z).

Lemma scan_go_bounds f p j : j <= scan_go f p s n j /\ (j <= n -> scan_go f p s n j <= n).
Proof.
  revert j. induction f as [|f IH]; intros j; simpl; [lia|].
  destruct ((j <? n) && p (at_ s j)) eqn:E; [|lia]. specialize (IH (j + 1)). lia.
Qed.
Lemma scan_bounds p j : j <= scan p s n j /\ (j <= n -> scan p s n j <= n).
Proof. apply scan_go_bounds. Qed.
Lemma scan_progress p j : j < n -> p (at_ s j) = true -> j + 1 <= scan p s n j.
Proof.
  intros Hj Hp. unfold scan. replace (Z.to_nat (n - j)) with (S (Z.to_nat (n - j - 1))) by lia.
  cbn [scan_go]. rewrite Hp. replace (j <? n) with true by lia. simpl. apply scan_go_bounds.
Qed.
Lemma rscan_bounds i k : rscan s i k <= k /\ (i - 1 <= k -> i - 1 <= rscan s i k).
Proof.
  unfold rscan. generalize (Z.to_nat (k - i + 1)) as f. intros f. revert k.
  induction f as [|f IH]; intros k; simpl; [lia|].
  destruct ((i <=? k) && blank (at_ s k)) eqn:E; [|lia]. specialize (IH (k - 1)). lia.
Qed.
Lemma scan_quote_bounds q j : j <= scan_quote q s n j /\ (j <= n -> scan_quote q s n j <= n).
Proof.
  unfold scan_quote. generalize (Z.to_nat (n - j)) as f. intros f. revert j.
  induction f as [|f IH]; intros j; cbn [scan_quote_go]; [lia|].
  destruct ((j <? n) && negb (at_ s j =? q)) eqn:E; [|lia].
  destruct ((at_ s j =? 92) && (j + 1 <? n)) eqn:E2; [specialize (IH (j + 1 + 1))|specialize (IH (j + 1))]; lia.
Qed.
Lemma scan_block_bounds j : j <= scan_block s n j /\ (j <= n -> scan_block s n j <= n).
Proof.
  unfold scan_block. generalize (Z.to_nat (n - j)) as f. intros f. revert j.
  induction f as [|f IH]; intros j; cbn [scan_block_go]; [lia|].
  destruct ((j + 1 <? n) && _) eqn:E; [|lia]. specialize (IH (j + 1)). lia.
Qed.
Lemma number_end_bounds i : i < n -> i < number_end s n i <= n.
Proof.
  intros Hi. unfold number_end. cbv zeta.
  destruct ((at_ s i =? 48) && (i + 1 <? n) && _) eqn:E.
  { pose proof (scan_bounds isxdigit (i + 1 + 1)). lia. }
  set (j := scan _ s n (i + 1)).
  assert (Hj : i + 1 <= j <= n) by (unfold j; pose proof (scan_bounds (fun x => isdigit x || (x =? 46)) (i + 1)); lia).
  clearbody j. destruct ((j <? n) && _) eqn:E2; [|lia].
  destruct ((j + 1 <? n) && _) eqn:E3.
  - pose proof (scan_bounds isdigit (j + 1 + 1)). lia.
  - pose proof (scan_bounds isdigit (j + 1)). lia.
Qed.
Lemma comment_end_bounds i : i + 1 < n -> i < comment_end s n i < n.
Proof.
  intros Hi. unfold comment_end. pose proof (scan_block_bounds (i + 2)).
  destruct (Z.ltb_spec (scan_block s n (i + 2) + 1) n); lia.
Qed.
End scanners.

(** ** The colour array *)
(** [n] cells, each an index of the SGR table *)
Definition colored (n : Z) (col : list Z) : Prop :=
  zlen col = n /\ Forall (fun c => 0 <= c < C_COUNT) col.

Lemma wp_set_col E n i cl col (Q : unit -> list Z -> Prop) :
  colored n col -> 0 <= i < n -> 0 <= cl < C_COUNT -> (forall col', colored n col' -> Q tt col') ->
  wpe E (set_col i cl) Q col.
Proof.
  intros [Hl Hf] Hi Hcl HQ. unfold wpe, set_col. rewrite Hl.
  replace ((0 <=? i) && (i <? n)) with true by lia. apply HQ. split.
  - unfold zlen in *. by rewrite length_insert.
  - by apply Forall_insert.
Qed.
Lemma wp_paint E n from to cl col (Q : unit -> list Z -> Prop) :
  colored n col -> 0 <= from -> to < n -> 0 <= cl < C_COUNT -> (forall col', colored n col' -> Q tt col') ->
  wpe E (paint from to cl) Q col.
Proof.
  intros Hc Hf Ht Hcl HQ. unfold paint.
  assert (Hgo : forall f from col, colored n col -> 0 <= from -> from + Z.of_nat f <= to + 1 \/ f = O ->
    wpe E (paint_go f from cl) Q col).
  { clear Hc Hf from col. induction f as [|f IH]; intros from col Hc Hf Hle; cbn [paint_go].
    - wp_step. by apply HQ.
    - wp_step. apply (wp_set_col _ n); [done|lia|done|]. intros col' Hc'. apply IH; [done|lia|lia]. }
  apply Hgo; [done..|]. lia.
Qed.

(** a token reader: it colours inside the array and moves on *)
Definition token_ok (n : Z) (token : Z -> CM (option Z)) : Prop :=
  forall E i col, colored n col -> 0 <= i < n ->
    wpe E (token i) (fun r col' => colored n col' /\ match r with Some i' => i < i' | None => True end) col.

Lemma wp_scan_loop E n token i col (Q : unit -> list Z -> Prop) :
  token_ok n token -> colored n col -> 0 <= i -> (forall col', colored n col' -> Q tt col') ->
  wpe E (scan_loop n token i) Q col.
Proof.
  intros Htok Hc Hi HQ. unfold scan_loop.
  apply (wpe_iter E (fun i col => 0 <= i /\ colored n col) (fun i _ => Z.max 0 (n - i))); [|done|lia].
  clear Hc Hi i col. intros i col [Hi Hc]. split; [lia|]. unfold scan_body. wp_step.
  - wp_step. eapply wpe_mono; [apply Htok; [done|lia]|]. intros [i'|] col' [Hc' Hlt]; wp_step.
    + repeat split; [lia|apply Hc'..|lia].
    + by apply HQ.
  - wp_step. by apply HQ.
Qed.

(** ** Tactics for the token readers *)
(** the colour ids *)
Ltac color_id := unfold C_STRING, C_KEY, C_NUMBER, C_LITERAL, C_BRACE, C_COMMENT, C_CMD, C_PATH, C_OPER,
  C_DEFAULT, C_COUNT; repeat case_match; lia.
(** bring the bounds of the scans of the goal into the context *)
Ltac scan_facts :=
  repeat match goal with
  | |- context [scan ?p ?s ?n ?j] =>
      lazymatch goal with H : j <= scan p s n j /\ _ |- _ => fail | _ => pose proof (scan_bounds s n p j) end
  | |- context [scan_quote ?q ?s ?n ?j] =>
      lazymatch goal with H : j <= scan_quote q s n j /\ _ |- _ => fail | _ => pose proof (scan_quote_bounds s n q j) end
  end.
Ltac tok_arith := scan_facts; repeat case_match; lia.
(** run the straight-line code of a token reader *)
Ltac tok_step n :=
  lazymatch goal with
  | |- wpe _ (paint _ _ _) _ _ =>
      apply (wp_paint _ n); [assumption|tok_arith|tok_arith|color_id|intros ? ?]
  | |- wpe _ (set_col _ _) _ _ =>
      apply (wp_set_col _ n); [assumption|tok_arith|color_id|intros ? ?]
  | |- wpe _ _ _ _ => wp_step; cbv beta zeta
  | |- colored _ _ /\ _ => split; [assumption|try exact I]
  end.
Ltac tok n := repeat tok_step n.

Lemma json_token_ok s n : token_ok n (json_token s n).
Proof.
  intros E i col Hc Hi. unfold json_token. cbv zeta. tok n; try tok_arith.
  all: pose proof (scan_progress s n isalpha i ltac:(lia) ltac:(assumption)); lia.
Qed.
Lemma wp_color_json E s n col (Q : unit -> list Z -> Prop) :
  colored n col -> (forall col', colored n col' -> Q tt col') -> wpe E (color_json s n) Q col.
Proof. intros Hc HQ. by apply wp_scan_loop; [apply json_token_ok|..]. Qed.

Lemma rd_token_ok s n : token_ok n (rd_token s n).
Proof.
  intros E i col Hc Hi. unfold rd_token. cbv zeta. tok n; try tok_arith.
  all: pose proof (scan_progress s n (fun x => negb (blank x) && negb (rd_oper x)) i ltac:(lia)
    ltac:(cbv beta; by rewrite H, H0)); tok_arith.
Qed.
Lemma wp_color_rd E s n col (Q : unit -> list Z -> Prop) :
  colored n col -> (forall col', colored n col' -> Q tt col') -> wpe E (color_rd s n) Q col.
Proof.
  intros Hc HQ. unfold color_rd. cbv zeta. wp_step; [apply (wp_paint _ n); [done|lia|lia|color_id|done]|].
  wp_step.
  assert (Hgo : forall i col', 0 <= i -> i <= Z.max n 0 -> colored n col' ->
    wpe E (paint (scan blank s n i) (scan (fun x => negb (blank x)) s n (scan blank s n i) - 1) C_CMD ;;
           scan_loop n (rd_token s n) (scan (fun x => negb (blank x)) s n (scan blank s n i))) Q col').
  { intros i col' Hi Hin Hc'. destruct Hc as [Hn _].
    assert (0 <= n) by (unfold zlen in Hn; lia). wp_step.
    apply (wp_paint _ n); [done|tok_arith|tok_arith|color_id|]. intros col2 Hc2.
    apply wp_scan_loop; [apply rd_token_ok|done|tok_arith|done]. }
  wp_step.
  - wp_step. apply (wp_set_col _ n); [done|lia|color_id|]. intros col' Hc'. wp_step. apply Hgo; [lia|lia|done].
  - wp_step. apply Hgo; [lia|lia|done].
Qed.

Lemma wp_color_conf E s n col (Q : unit -> list Z -> Prop) :
  colored n col -> (forall col', colored n col' -> Q tt col') -> wpe E (color_conf s n) Q col.
Proof.
  intros Hc HQ. assert (Hn : 0 <= n) by (destruct Hc as [<- _]; unfold zlen; lia).
  unfold color_conf. cbv zeta. set (i0 := scan blank s n 0).
  assert (Hi0 : 0 <= i0 <= n) by (unfold i0; tok_arith). clearbody i0.
  wp_step; [apply (wp_paint _ n); [done|lia|lia|color_id|done]|].
  set (j0 := scan _ s n i0). assert (Hj0 : i0 <= j0 <= n) by (unfold j0; tok_arith). clearbody j0.
  pose proof (rscan_bounds s i0 (j0 - 1)) as Hr. wp_step.
  assert (Hgo : forall i col', i0 <= i <= n -> colored n col' ->
    wpe E (let i := scan blank s n i in
      let v := scan (fun x => negb (x =? 35)) s n i in
      let ve := rscan s i (v - 1) in
      when (i <=? ve)
        (paint i ve (if forallb conf_number_char (slice s i (ve + 1)) then C_NUMBER else C_STRING)) ;;
      when ((v <? n) && (at_ s v =? 35)) (paint v (n - 1) C_COMMENT)) Q col').
  { intros i col' Hi Hc'. cbv zeta. set (i1 := scan blank s n i).
    assert (Hi1 : i <= i1 <= n) by (unfold i1; tok_arith). clearbody i1.
    set (v := scan _ s n i1). assert (Hv : i1 <= v <= n) by (unfold v; tok_arith). clearbody v.
    pose proof (rscan_bounds s i1 (v - 1)).
    assert (Hend : forall col2, colored n col2 ->
      wpe E (when ((v <? n) && (at_ s v =? 35)) (paint v (n - 1) C_COMMENT)) Q col2).
    { intros col2 Hc2. wp_step; [apply (wp_paint _ n); [done|lia|lia|color_id|done]|by apply HQ]. }
    wp_step. wp_step; [|by apply Hend].
    apply (wp_paint _ n); [done|lia|lia|color_id|]. intros; by apply Hend. }
  assert (Hkey : forall col', colored n col' ->
    wpe E (if (j0 <? n) && negb (at_ s j0 =? 61) && (at_ s j0 =? 35) then paint j0 (n - 1) C_COMMENT
      else
        i <- (if (j0 <? n) && (at_ s j0 =? 61) then set_col j0 C_OPER ;; ret (j0 + 1) else ret j0) ;;
        let i := scan blank s n i in
        let v := scan (fun x => negb (x =? 35)) s n i in
        let ve := rscan s i (v - 1) in
        when (i <=? ve)
          (paint i ve (if forallb conf_number_char (slice s i (ve + 1)) then C_NUMBER else C_STRING)) ;;
        when ((v <? n) && (at_ s v =? 35)) (paint v (n - 1) C_COMMENT)) Q col').
  { intros col' Hc'. wp_step; [apply (wp_paint _ n); [done|lia|lia|color_id|done]|]. wp_step. wp_step.
    - wp_step. apply (wp_set_col _ n); [done|lia|color_id|]. intros col2 Hc2. wp_step. apply Hgo; [lia|done].
    - wp_step. apply Hgo; [lia|done]. }
  wp_step; [|by apply Hkey].
  apply (wp_paint _ n); [done|lia|lia|color_id|]. intros; by apply Hkey.
Qed.

Lemma js_token_ok s n : token_ok n (js_token s n).
Proof.
  intros E i col Hc Hi. pose proof (number_end_bounds s n i ltac:(lia)) as Hnum.
  pose proof (comment_end_bounds s n i) as Hcom. unfold js_token. cbv zeta. tok n; try tok_arith.
  all: assert (Hid : js_ident_char (at_ s i) = true) by
    (unfold js_ident_char, isalnum; revert select (isalpha _ || _ || _ = true);
     by destruct (isalpha (at_ s i)), (isdigit (at_ s i))).
  all: pose proof (scan_progress s n js_ident_char i ltac:(lia) Hid); tok_arith.
Qed.
Lemma wp_color_js E s n col (Q : unit -> list Z -> Prop) :
  colored n col -> (forall col', colored n col' -> Q tt col') -> wpe E (color_js s n) Q col.
Proof. intros Hc HQ. by apply wp_scan_loop; [apply js_token_ok|..]. Qed.

Lemma c_token_ok s n : token_ok n (c_token s n).
Proof.
  intros E i col Hc Hi. pose proof (number_end_bounds s n i ltac:(lia)) as Hnum.
  pose proof (comment_end_bounds s n i) as Hcom. unfold c_token. cbv zeta. tok n; try tok_arith.
  all: assert (Hid : c_ident_char (at_ s i) = true) by
    (unfold c_ident_char, isalnum; revert select (isalpha _ || _ = true);
     by destruct (isalpha (at_ s i)), (isdigit (at_ s i))).
  all: pose proof (scan_progress s n c_ident_char i ltac:(lia) Hid); tok_arith.
Qed.
Lemma wp_color_c E s n col (Q : unit -> list Z -> Prop) :
  colored n col -> (forall col', colored n col' -> Q tt col') -> wpe E (color_c s n) Q col.
Proof.
  intros Hc HQ. assert (Hn : 0 <= n) by (destruct Hc as [<- _]; unfold zlen; lia). unfold color_c. wp_step.
  assert (Hgo : forall i col', 0 <= i -> colored n col' -> wpe E (scan_loop n (c_token s n) i) Q col').
  { intros i col' Hi Hc'. apply wp_scan_loop; [apply c_token_ok|done..]. }
  unfold c_directive. cbv zeta. set (j := scan blank s n 0).
  assert (Hj : 0 <= j <= n) by (unfold j; tok_arith). clearbody j.
  wp_step; [|wp_step; by apply Hgo]. wp_step. apply (wp_set_col _ n); [done|lia|color_id|]. intros col1 Hc1.
  set (k := scan isalpha s n (j + 1)). assert (Hk : j + 1 <= k <= n) by (unfold k; tok_arith). clearbody k.
  wp_step. apply (wp_paint _ n); [done|lia|lia|color_id|]. intros col2 Hc2. wp_step.
  assert (Hret : forall i col', 0 <= i -> colored n col' ->
    wpe E (ret (if i =? 0 then k else i)) (fun a => wpe E (scan_loop n (c_token s n) a) Q) col').
  { intros i col' Hi Hc'. wp_step. apply Hgo; [destruct (i =? 0); lia|done]. }
  wp_step; [|wp_step; by apply Hret]. set (q := scan blank s n k).
  assert (Hq : k <= q <= n) by (unfold q; tok_arith). clearbody q.
  wp_step; [|wp_step; by apply Hret]. wp_step.
  apply (wp_paint _ n); [done|lia|tok_arith|color_id|]. intros col3 Hc3. wp_step. apply Hret; [tok_arith|done].
Qed.

(** ** What a terminal makes of the output
    An interpreter of the SGR sequences: the pen carries the attributes, every
    other byte is a cell drawn with the pen. *)
Record pen := mkPen { p_bold : bool; p_fg : option Z; p_rev : bool }.
Definition pen0 : pen := mkPen false None false.
Definition sgr (p : pen) (n : Z) : pen :=
  if n =? 0 then pen0
  else if n =? 1 then mkPen true (p_fg p) (p_rev p)
  else if n =? 7 then mkPen (p_bold p) (p_fg p) true
  else if (30 <=? n) && (n <=? 37) then mkPen (p_bold p) (Some n) (p_rev p)
  else p.
Inductive vt := Ground | Escape | Csi (args : list Z) (n : Z).
Definition vt_step (st : vt * pen) (c : Z) : vt * pen * list (Z * pen) :=
  let '(m, p) := st in
  match m with
  | Ground => if c =? 27 then (Escape, p, []) else (Ground, p, [(c, p)])
  | Escape => if c =? 91 then (Csi [] 0, p, []) else (Ground, p, [])
  | Csi args n =>
      if isdigit c then (Csi args (n * 10 + (c - 48)), p, [])
      else if c =? 59 then (Csi (args ++ [n]) 0, p, [])
      else if c =? 109 then (Ground, fold_left sgr (args ++ [n]) p, [])
      else (Ground, p, [])
  end.
Fixpoint vt_run (st : vt * pen) (bs : list Z) : vt * pen * list (Z * pen) :=
  match bs with
  | [] => (st, [])
  | c :: bs =>
      let '(st1, cells1) := vt_step st c in
      let '(st2, cells2) := vt_run st1 bs in
      (st2, cells1 ++ cells2)
  end.
(** the foreground colour of a colour id *)
Definition fg_of (cl : Z) : option Z :=
  nth (Z.to_nat cl) [None; Some 32; Some 36; Some 35; Some 33; Some 37; Some 30; Some 32; Some 36; Some 31] None.

Lemma vt_run_app st a b : vt_run st (a ++ b) =
  let '(st1, c1) := vt_run st a in let '(st2, c2) := vt_run st1 b in (st2, c1 ++ c2).
Proof.
  revert st. induction a as [|c a IH]; intros st; simpl.
  - by destruct (vt_run st b).
  - destruct (vt_step st c) as [st1 c1]. rewrite IH. destruct (vt_run st1 a) as [st2 c2].
    destruct (vt_run st2 b) as [st3 c3]. by rewrite app_assoc.
Qed.
(** [o] takes the pen from [p] to [p'] and draws [cells] *)
Definition draws (p : pen) (o : list Z) (p' : pen) (cells : list (Z * pen)) : Prop :=
  vt_run (Ground, p) o = ((Ground, p'), cells).
Lemma draws_nil p : draws p [] p [].
Proof. done. Qed.
Lemma draws_app p1 o1 p2 c1 o2 p3 c2 : draws p1 o1 p2 c1 -> draws p2 o2 p3 c2 -> draws p1 (o1 ++ o2) p3 (c1 ++ c2).
Proof. unfold draws. intros H1 H2. by rewrite vt_run_app, H1, H2. Qed.
Lemma draws_char p c : c <> 27 -> draws p [c] p [(c, p)].
Proof. intros H. unfold draws. simpl. by destruct (Z.eqb_spec c 27). Qed.
Lemma draws_norm p : draws p ESC_NORM_TEXT pen0 [].
Proof. done. Qed.
Lemma draws_bold p : draws p ESC_BOLD_TEXT (mkPen (p_bold p) (p_fg p) true) [].
Proof. done. Qed.
(** every sequence of the table selects its colour *)
Lemma draws_sgr p cl q : sgr_seq !! Z.to_nat cl = Some q -> 0 <= cl -> p_rev p = false ->
  exists p', draws p q p' [] /\ p_rev p' = false /\ p_fg p' = fg_of cl /\ (cl <= 0 -> p' = pen0).
Proof.
  intros Hq Hcl Hr. unfold fg_of. remember (Z.to_nat cl) as k eqn:Hk.
  do 10 (destruct k as [|k]; [injection Hq as <-; eexists; split; [reflexivity|];
    rewrite ?Hr; repeat split; try done; intros; lia|]).
  by destruct k.
Qed.

(** the cell a column should become *)
Definition cell_ok (vline : list Z) (sel colors : option (list Z)) (i : Z) (cell : Z * pen) : Prop :=
  let selected := match sel with Some m => negb (at_ m i =? 0) | None => false end in
  fst cell = u8 (at_ vline i) /\ p_rev (snd cell) = selected /\
  p_fg (snd cell) = match colors with
                    | Some col => if selected then None else fg_of (at_ col i)
                    | None => None
                    end.
(** the pen that goes with the variables (cur, cur_sel) of the loop *)
Definition pen_ok (colors : option (list Z)) (st : Z * Z) (p : pen) : Prop :=
  (colors = None -> fst st = -1) /\
  p_rev p = negb (snd st =? 0) /\ p_fg p = (if fst st =? -1 then None else fg_of (fst st)) /\
  -1 <= fst st /\ (snd st <> 0 -> fst st = -1) /\ (fst st <= 0 -> snd st = 0 -> p = pen0).

Lemma wp_puts E bs (Q : unit -> Ed -> Prop) s : Q tt (set_out (out s ++ bs) s) -> wpe E (puts_no_eol bs) Q s.
Proof. done. Qed.

(** a run that only writes [o] *)
Definition wrote (s s' : Ed) (o : list Z) : Prop := s' = set_out (out s ++ o) s.
Lemma wrote_app s s1 s2 o1 o2 : wrote s s1 o1 -> wrote s1 s2 o2 -> wrote s s2 (o1 ++ o2).
Proof. unfold wrote. intros -> ->. simpl. by rewrite app_assoc. Qed.

(** the part of write_col() that follows a change of the selection *)
Lemma wp_write_sel E cur_sel cur f p colors s (Q : Z * Z -> Ed -> Prop) :
  pen_ok colors (cur, cur_sel) p ->
  (forall st o p' s', wrote s s' o -> draws p o p' [] -> pen_ok colors st p' -> snd st = f -> Q st s') ->
  wpe E (if negb (f =? cur_sel) then
           puts_no_eol ESC_NORM_TEXT ;; when (negb (f =? 0)) (puts_no_eol ESC_BOLD_TEXT) ;; ret (-1, f)
         else ret (cur, cur_sel)) Q s.
Proof.
  intros Hp HQ. wp_step.
  - wp_step. apply wp_puts. wp_step. wp_step; [apply wp_puts|]; wp_step.
    + eapply (HQ _ (ESC_NORM_TEXT ++ ESC_BOLD_TEXT)).
      * unfold wrote. simpl. by rewrite <- app_assoc.
      * eapply (draws_app _ _ _ []); [apply draws_norm|apply draws_bold].
      * repeat split; simpl; try done; try (intros; lia); by rewrite H0.
      * done.
    + eapply (HQ _ ESC_NORM_TEXT); [done|apply draws_norm| |done].
      repeat split; simpl; try done; try (intros; lia); by rewrite H0.
  - wp_step. apply negb_false_iff, Z.eqb_eq in H. subst f.
    apply (HQ _ [] p); [unfold wrote; by rewrite app_nil_r|apply draws_nil|done|done].
Qed.

Lemma wp_write_color E cur f p colors i s (Q : Z -> Ed -> Prop) :
  pen_ok colors (cur, f) p ->
  (forall col, colors = Some col -> 0 <= at_ col i < C_COUNT) ->
  (forall cur' o p' s', wrote s s' o -> draws p o p' [] -> pen_ok colors (cur', f) p' ->
     p_fg p' = match colors with
               | Some col => if negb (f =? 0) then None else fg_of (at_ col i)
               | None => None
               end -> Q cur' s') ->
  wpe E (match colors with
         | Some col =>
             if f =? 0 then
               let cl := at_ col i in
               if negb (cl =? cur) then q <- lift OutOfBounds (sgr_seq !! Z.to_nat cl) ;; puts_no_eol q ;; ret cl
               else ret cur
             else ret cur
         | None => ret cur
         end) Q s.
Proof.
  intros Hp Hcol HQ. destruct (Hp) as (Hnone & Hrev & Hfg & Hcur & Hsel & H0). simpl in *.
  assert (Hsame : wrote s s []) by (unfold wrote; by rewrite app_nil_r).
  destruct colors as [col|].
  2:{ wp_step. apply (HQ _ [] p); try done. by rewrite Hfg, Hnone. }
  specialize (Hcol col eq_refl). wp_step; [|wp_step].
  - cbv zeta. apply Z.eqb_eq in H. subst f. wp_step; [|wp_step].
    + wp_step. destruct (lookup_lt_is_Some_2 sgr_seq (Z.to_nat (at_ col i))) as [q Hq].
      { unfold C_COUNT in Hcol. simpl. lia. }
      rewrite Hq. simpl. wp_step. wp_step. apply wp_puts. wp_step.
      destruct (draws_sgr p (at_ col i) q Hq) as (p' & Hd & Hr & Hf & Hz); [lia|done|].
      apply (HQ _ q p'); [done|done| |done]. repeat split; simpl; try done; try lia; [|by intros; apply Hz].
      rewrite Hf. by replace (at_ col i =? -1) with false by lia.
    + apply negb_false_iff, Z.eqb_eq in H. apply (HQ _ [] p); try done. simpl.
      rewrite Hfg, <- H. by replace (at_ col i =? -1) with false by lia.
  - apply (HQ _ [] p); try done. rewrite H. simpl. rewrite Hfg, Hsel; [done|lia].
Qed.

Lemma wp_write_col E vline sel colors i st p s (Q : Z * Z -> Ed -> Prop) :
  pen_ok colors st p -> u8 (at_ vline i) <> 27 ->
  (forall col, colors = Some col -> 0 <= at_ col i < C_COUNT) ->
  (forall st' o p' cell s', wrote s s' o -> draws p o p' [cell] -> pen_ok colors st' p' ->
     cell_ok vline sel colors i cell -> Q st' s') ->
  wpe E (write_col vline sel colors i st) Q s.
Proof.
  intros Hp H27 Hcol HQ. unfold write_col. destruct st as [cur cur_sel]. cbv zeta. wp_step.
  set (f := match sel with Some m => at_ m i | None => 0 end).
  apply (wp_write_sel _ _ _ _ p colors); [done|]. intros [cur1 f1] o1 p1 s1 Hw1 Hd1 Hp1 Hf. simpl in Hf. subst f1.
  wp_step. apply (wp_write_color _ _ _ p1); [done..|]. intros cur2 o2 p2 s2 Hw2 Hd2 Hp2 Hfg.
  wp_step. unfold putchar. apply wp_puts. wp_step.
  apply (HQ _ (o1 ++ o2 ++ [u8 (at_ vline i)]) p2 (u8 (at_ vline i), p2)).
  - eapply wrote_app; [exact Hw1|]. eapply wrote_app; [exact Hw2|done].
  - apply (draws_app _ _ p1 []); [done|]. apply (draws_app _ _ p2 []); [done|]. by apply draws_char.
  - done.
  - split; [done|]. cbn [fst snd]. split; [|].
    + destruct Hp2 as (_ & Hr & _). rewrite Hr. simpl. unfold f. by destruct sel.
    + rewrite Hfg. unfold f. destruct colors; [|done]. by destruct sel.
Qed.

(** a cell of the right column for each column from [i] on *)
Fixpoint cells_ok (vline : list Z) (sel colors : option (list Z)) (i : Z) (cells : list (Z * pen)) : Prop :=
  match cells with
  | [] => True
  | cell :: cells => cell_ok vline sel colors i cell /\ cells_ok vline sel colors (i + 1) cells
  end.

Lemma wp_write_cols E vline sel colors n i st p s (Q : Z * Z -> Ed -> Prop) :
  pen_ok colors st p ->
  (forall j, i <= j < i + Z.of_nat n -> u8 (at_ vline j) <> 27) ->
  (forall j col, i <= j < i + Z.of_nat n -> colors = Some col -> 0 <= at_ col j < C_COUNT) ->
  (forall st' o p' cells s', wrote s s' o -> draws p o p' cells -> pen_ok colors st' p' ->
     length cells = n -> cells_ok vline sel colors i cells -> Q st' s') ->
  wpe E (write_cols n vline sel colors i st) Q s.
Proof.
  revert i st p s. induction n as [|n IH]; intros i st p s Hp H27 Hcol HQ; cbn [write_cols].
  - wp_step. apply (HQ _ [] p []); try done. unfold wrote. by rewrite app_nil_r.
  - wp_step. apply (wp_write_col _ _ _ _ _ _ p); [done|apply H27; lia|intros; apply Hcol; [lia|done]|].
    intros st1 o1 p1 cell s1 Hw1 Hd1 Hp1 Hc1.
    apply (IH _ _ p1); [done|intros; apply H27; lia|intros; apply Hcol; [lia|done]|].
    intros st2 o2 p2 cells s2 Hw2 Hd2 Hp2 Hl2 Hc2.
    apply (HQ _ (o1 ++ o2) p2 (cell :: cells)); [by eapply wrote_app| |done|simpl; lia|done].
    by apply (draws_app _ _ p1 [cell]).
Qed.

(** ** The theorems *)
Lemma colored_replicate n : 0 <= n -> colored n (replicate (Z.to_nat n) C_DEFAULT).
Proof.
  intros Hn. split; [unfold zlen; rewrite length_replicate; lia|].
  apply Forall_replicate. unfold C_DEFAULT, C_COUNT. lia.
Qed.
Lemma colored_at n col i : colored n col -> 0 <= at_ col i < C_COUNT.
Proof.
  intros [_ Hf]. unfold at_, nth0. destruct (col !! Z.to_nat i) as [c|] eqn:E; simpl.
  - by apply (Forall_lookup_1 _ _ _ _ Hf E).
  - unfold C_COUNT. lia.
Qed.

Lemma color_line_total syntax vline n : 0 <= n <= col_buf_size ->
  exists col, color_line syntax vline n = Ok tt col /\ colored n col.
Proof.
  intros Hn. unfold color_line. replace (n <=? col_buf_size) with true by lia.
  pose proof (colored_replicate n ltac:(lia)) as Hc.
  assert (Hgo : forall m : CM unit, (forall (Q : unit -> list Z -> Prop), (forall col', colored n col' -> Q tt col') ->
      wp m Q (replicate (Z.to_nat n) C_DEFAULT)) ->
    exists col, m (replicate (Z.to_nat n) C_DEFAULT) = Ok tt col /\ colored n col).
  { intros m Hm. specialize (Hm (fun _ col => colored n col) ltac:(auto)).
    apply wp_elim in Hm as ([] & col & ? & ?). eauto. }
  apply Hgo. intros Q HQ. repeat case_match.
  - by apply (wp_color_json _ _ n).
  - by apply (wp_color_conf _ _ n).
  - by apply (wp_color_js _ _ n).
  - by apply (wp_color_c _ _ n).
  - by apply (wp_color_rd _ _ n).
Qed.

(** the colours syntax_write_slice() uses for a line, None when it uses none *)
Definition line_colors (syntax : Z) (vline : list Z) (n : Z) (colors : option (list Z)) : Prop :=
  if negb (syntax =? SYNTAX_NONE) && negb (is_filler_line vline n)
  then exists col, colors = Some col /\ color_line syntax vline n = Ok tt col
  else colors = None.

Lemma wp_syntax_write_slice E s vline from to sel (Q : unit -> Ed -> Prop) :
  0 <= columns s <= col_buf_size -> from <= to < columns s ->
  (forall i, from <= i <= to -> u8 (at_ vline i) <> 27) ->
  (forall o cells colors s', wrote s s' o -> draws pen0 o pen0 cells ->
     line_colors (cur_syntax s) vline (columns s) colors ->
     zlen cells = to - from + 1 -> cells_ok vline sel colors from cells -> Q tt s') ->
  wpe E (syntax_write_slice vline from to sel) Q s.
Proof.
  intros Hn Hft H27 HQ. unfold syntax_write_slice. do 2 wp_step. cbv zeta.
  replace (columns s <=? to) with false by lia. replace (to <? from) with false by lia. wp_step.
  assert (Hgo : forall colors, line_colors (cur_syntax s) vline (columns s) colors ->
    wpe E (st <- write_cols (Z.to_nat (to - from + 1)) vline sel colors from (-1, 0) ;;
      let '(cur, cur_sel) := (st : Z * Z) in
      when (negb (cur_sel =? 0) || (C_DEFAULT <? cur)) (puts_no_eol ESC_NORM_TEXT)) Q s).
  { intros colors Hlc.
    assert (Hcol : forall j col, colors = Some col -> 0 <= at_ col j < C_COUNT).
    { intros j col ->. unfold line_colors in Hlc. destruct (_ && _); [|done].
      destruct Hlc as (col' & [= <-] & Hcl). destruct (color_line_total (cur_syntax s) vline (columns s) Hn) as (c & Hc & Hcd).
      rewrite Hc in Hcl. injection Hcl as <-. by apply (colored_at (columns s)). }
    wp_step. apply (wp_write_cols _ _ _ _ _ _ _ pen0).
    - repeat split; simpl; done.
    - intros j Hj. apply H27. lia.
    - intros j col _. apply Hcol.
    - intros [cur cur_sel] o p cells s1 Hw Hd (_ & Hr & Hf & Hcur & Hcs & H0) Hl Hok. simpl in *. wp_step.
      + apply wp_puts. apply (HQ (o ++ ESC_NORM_TEXT) cells colors); [|  |done|unfold zlen; lia|done].
        * eapply wrote_app; [exact Hw|done].
        * rewrite <- (app_nil_r cells). by apply (draws_app _ _ p _ _ _ []); [|apply draws_norm].
      + apply orb_false_iff in H as [H1 H2]. apply negb_false_iff, Z.eqb_eq in H1. apply Z.ltb_ge in H2.
        unfold C_DEFAULT in H2. rewrite H1 in *. simpl in Hr.
        apply (HQ o cells colors); [done| |done|unfold zlen; lia|done].
        pose proof (H0 H2 eq_refl) as Hp0. rewrite Hp0 in Hd. exact Hd. }
  wp_step.
  - destruct (color_line_total (cur_syntax s) vline (columns s) Hn) as (col & Hcl & _).
    rewrite Hcl. wp_step. apply Hgo. unfold line_colors. rewrite H. eauto.
  - wp_step. apply Hgo. unfold line_colors. by rewrite H.
Qed.
