(* ===== verification/EvimFormat.v ===== *)
(** * evim: format_line() draws what it should

    A reference rendering of a text line, written as a fold over its bytes,
    and the proof that format_line() answers the visible window of it: the
    discarding of scrolled-off columns in tabstop-sized pieces changes
    nothing, and no write leaves scr_out_buf. *)
From S2P Require Import Prelude EvimState EvimLine EvimNav EvimSyntax EvimInput EvimTerm.

(** ** The reference *)
(** the columns one byte takes when it is drawn at column [co] *)
Definition glyph (ts co c : Z) : list Z :=
  if c =? 9 then replicate (Z.to_nat (ts - 1 - Z.rem co ts)) 32
  else
    let c := if negb (Z.land c 0x80 =? 0) && negb (is_asciionly c) then 46 else c in
    if (c <? 32) || (c =? 0x7f) then [94; if c =? 0x7f then 63 else c + 64] else [c].
Definition expand (ts : Z) (bs : list Z) : list Z :=
  fold_left (fun l c => l ++ glyph ts (zlen l) c) bs [].
(** [e] is where the line at [p] ends: its newline, or the end of the text *)
Definition line_end (s : Ed) (p e : Z) : Prop :=
  p <= e <= endp s /\ none_in s 10 p e /\ (e < endp s -> getb s e = 10).
(** the whole line at [p], drawn; a line past the end of the text is a tilde *)
Definition line_drawn (s : Ed) (p e : Z) : list Z :=
  if p <? endp s then expand (tabstop s) (bytes_at s p (e - p)) else [126].
(** the window of the screen on a drawn line *)
Definition window (ofs cols : Z) (l : list Z) : list Z :=
  take (Z.to_nat cols) (drop (Z.to_nat ofs) l ++ replicate (Z.to_nat cols) 32).

(** the geometry the rest of evim assumes *)
Record geometry (s : Ed) : Prop := mkGeometry {
  g_rows : 2 <= rows s <= MAX_SCR_ROWS;
  g_cols : 2 <= columns s <= MAX_SCR_COLS;
  g_tab : 2 <= tabstop s <= MAX_TABSTOP;
  g_ofs : 0 <= offset s;
  g_screen : zlen (screen s) = rows s * columns s + 8
}.

Lemma expand_snoc ts bs c : expand ts (bs ++ [c]) = expand ts bs ++ glyph ts (zlen (expand ts bs)) c.
Proof. unfold expand. by rewrite fold_left_app. Qed.
Lemma expand_prefix ts a b : exists l, expand ts (a ++ b) = expand ts a ++ l.
Proof.
  revert a. induction b as [|c b IH]; intros a.
  - exists []. by rewrite !app_nil_r.
  - destruct (IH (a ++ [c])) as [l Hl]. rewrite <- app_assoc in Hl. simpl in Hl.
    rewrite Hl, expand_snoc, <- app_assoc. eauto.
Qed.

Lemma line_end_exists s p : wf s -> in_text s p -> exists e, line_end s p e.
Proof.
  intros Hwf Hp.
  destruct (memchr_in_spec (bytes_at s p (endp s - p)) 10 p) as [[_ Hn]|(i & _ & Hi & Hj)].
  - exists (endp s). split; [txt|]. split; [|lia].
    replace (endp s) with (p + (endp s - p)) by lia. apply not_in_bytes_at; [done..|lia|done].
  - pose proof (lookup_lt_Some _ _ _ Hi) as Hl. rewrite (length_bytes_at s Hwf) in Hl by txt.
    exists (p + Z.of_nat i). split; [txt|]. split.
    + intros k Hk Hc. apply (Hj (Z.to_nat (k - p))); [lia|].
      rewrite (lookup_bytes_at s Hwf) by (done || lia). rewrite <- Hc. repeat f_equal. lia.
    + intros _. rewrite (lookup_bytes_at s Hwf) in Hi by (done || lia). by injection Hi.
Qed.
Lemma line_end_inj s p e e' : line_end s p e -> line_end s p e' -> e = e'.
Proof.
  intros (H1 & H2 & H3) (H1' & H2' & H3').
  destruct (Z.lt_trichotomy e e') as [Hl|[?|Hl]]; [|done|]; exfalso.
  - apply (H2' e); [lia|]. apply H3. lia.
  - apply (H2 e'); [lia|]. apply H3'. lia.
Qed.

(** ** The loop *)
(** the buffer [dest] is the drawn prefix [E] without its first [k] columns,
    [k] being whole tabstops already taken off the offset *)
Record drawing (s : Ed) (E : list Z) (ofs : Z) (dest : list Z) : Prop := mkDrawing {
  d_ofs : 0 <= ofs;
  d_dest : dest = drop (Z.to_nat (offset s - ofs)) E;
  d_len : zlen dest = zlen E - (offset s - ofs);
  d_tab : exists j, 0 <= j /\ offset s - ofs = j * tabstop s;
  d_scroll : tabstop s <= ofs -> zlen dest < tabstop s
}.

Section format.
Context (s : Ed) (Hwf : wf s) (Hg : geometry s).

Lemma drawing_rem E ofs dest : drawing s E ofs dest -> Z.rem (zlen dest) (tabstop s) = Z.rem (zlen E) (tabstop s).
Proof.
  intros [_ _ Hl (j & Hj & Hk) _]. destruct Hg.
  replace (zlen E) with (zlen dest + j * tabstop s) by lia.
  rewrite !Z.rem_mod_nonneg by (unfold zlen in *; lia). by rewrite Z.mod_add by lia.
Qed.

Lemma wp_push E dest bs (Q : list Z -> Ed -> Prop) :
  zlen dest + zlen bs <= scr_out_buf_size -> Q (dest ++ bs) s -> wpe E (push dest bs) Q s.
Proof. intros H HQ. unfold push. replace (_ <=? _) with true by lia. by wp_step. Qed.

(** appending a glyph to the drawing *)
Lemma drawing_app E ofs dest g : drawing s E ofs dest -> (tabstop s <= ofs -> zlen dest + zlen g < tabstop s) ->
  drawing s (E ++ g) ofs (dest ++ g).
Proof.
  intros [H1 H2 H3 H4 H5] Hs. split; [done| | |done|].
  - rewrite drop_app_le; [by rewrite <- H2|]. destruct H4 as (j & ? & ?). unfold zlen in *. lia.
  - unfold zlen in *. rewrite !length_app. lia.
  - intros Hto. specialize (Hs Hto). unfold zlen in *. rewrite length_app. lia.
Qed.

(** the end of the loop body, for a glyph [g ++ [c]] of at most two columns *)
Lemma wp_format_store E src c ofs dest pre L (Q : fmt + fmt -> Ed -> Prop) :
  drawing s L ofs dest -> zlen dest < columns s + tabstop s -> zlen pre <= 1 ->
  (forall ofs' dest', drawing s (L ++ pre ++ [c]) ofs' dest' ->
     Q (if endp s <=? src then inr (mkFmt src c ofs' dest') else inl (mkFmt src c ofs' dest')) s) ->
  wpe E (dest <- push dest pre ;; format_store src c ofs dest) Q s.
Proof.
  intros Hd Hlt Hpre HQ. destruct (Hg) as [_ Hc Ht _ _].
  assert (Hz : zlen (dest ++ pre) = zlen dest + zlen pre) by (unfold zlen; rewrite length_app; lia).
  assert (Hz2 : zlen ((dest ++ pre) ++ [c]) = zlen dest + zlen pre + 1) by (unfold zlen in *; rewrite length_app; simpl; lia).
  unfold MAX_SCR_COLS, VI_MAX_SCREEN_LEN, MAX_TABSTOP in *.
  assert (scr_out_buf_size = 4160) as Hsz by done.
  wp_step. apply wp_push; [lia|]. unfold format_store. do 3 wp_step.
  apply wp_push; [rewrite Hz; change (zlen [c]) with 1; lia|]. cbv zeta. destruct Hd as [H1 H2 H3 (j & Hj & Hk) H5].
  assert (Hdrop : (dest ++ pre) ++ [c] = drop (Z.to_nat (offset s - ofs)) (L ++ pre ++ [c])).
  { rewrite drop_app_le by (unfold zlen in *; lia). rewrite <- H2. by rewrite app_assoc. }
  assert (HzL : zlen (L ++ pre ++ [c]) = zlen L + zlen pre + 1) by (unfold zlen in *; rewrite !length_app; simpl; lia).
  assert (Hfin : forall ofs' dest', drawing s (L ++ pre ++ [c]) ofs' dest' ->
    wpe E (if endp s <=? src then ret (inr (mkFmt src c ofs' dest')) else ret (inl (mkFmt src c ofs' dest'))) Q s).
  { intros ofs' dest' Hd'. specialize (HQ ofs' dest' Hd'). destruct (endp s <=? src); by wp_step. }
  wp_step. destruct (Z.leb_spec (tabstop s) ofs) as [Hto|Hto]; cbn [andb].
  - specialize (H5 Hto). destruct (Z.leb_spec (tabstop s) (zlen ((dest ++ pre) ++ [c]))) as [Hd|Hd].
    + replace (tabstop s + zlen ((dest ++ pre) ++ [c]) <=? scr_out_buf_size) with true by lia.
      wp_step. apply Hfin. split; [lia| | | |].
      * rewrite Hdrop, drop_drop. f_equal. lia.
      * unfold zlen in *. rewrite length_drop. lia.
      * exists (j + 1). lia.
      * intros _. unfold zlen in *. rewrite length_drop. lia.
    + wp_step. apply Hfin. split; [lia|done|lia|by exists j|lia].
  - wp_step. apply Hfin. split; [lia|done|lia|by exists j|lia].
Qed.
Lemma wp_format_store0 E src c ofs dest L (Q : fmt + fmt -> Ed -> Prop) :
  drawing s L ofs dest -> zlen dest < columns s + tabstop s ->
  (forall ofs' dest', drawing s (L ++ [c]) ofs' dest' ->
     Q (if endp s <=? src then inr (mkFmt src c ofs' dest') else inl (mkFmt src c ofs' dest')) s) ->
  wpe E (format_store src c ofs dest) Q s.
Proof.
  intros Hd Hlt HQ. pose proof (wp_format_store E src c ofs dest [] L Q Hd Hlt ltac:(done) HQ) as H.
  unfold wpe, bind, push in H. rewrite app_nil_r in H.
  destruct (zlen dest + zlen [] <=? scr_out_buf_size) eqn:Hle; [exact H|].
  destruct Hg. unfold MAX_SCR_COLS, VI_MAX_SCREEN_LEN, MAX_TABSTOP, zlen in *. simpl in Hle.
  assert (Hsz : scr_out_buf_size = 4160) by done. rewrite Hsz in Hle. apply Z.leb_gt in Hle. lia.
Qed.

(** one byte of the text *)
Lemma wp_format_byte E p ofs dest L (Q : fmt + fmt -> Ed -> Prop) c0 :
  drawing s L ofs dest -> zlen dest < columns s + tabstop s -> p < endp s -> in_text s p ->
  (getb s p = 10 -> Q (inr (mkFmt (p + 1) 10 ofs dest)) s) ->
  (forall c ofs' dest', getb s p <> 10 -> drawing s (L ++ glyph (tabstop s) (zlen L) (getb s p)) ofs' dest' ->
     (getb s p = 9 -> c = 32) ->
     Q (if (endp s <=? p + 1) && negb (getb s p =? 9) then inr (mkFmt (p + 1) c ofs' dest')
        else inl (mkFmt (p + 1) c ofs' dest')) s) ->
  wpe E (format_body (mkFmt p c0 ofs dest)) Q s.
Proof.
  intros Hd Hlt Hp Hin Hnl HQ. destruct (Hg) as [_ Hc Ht _ _]. unfold format_body. do 2 wp_step. cbv zeta.
  unfold MAX_SCR_COLS, VI_MAX_SCREEN_LEN, MAX_TABSTOP in *. rewrite u32_small by lia.
  replace (zlen dest <? columns s + tabstop s) with true by lia. replace (p <? endp s) with true by lia.
  wp_step. apply (wp_rd s Hwf); [done|]. wp_step; [wp_step; apply Z.eqb_eq in H; rewrite H; by apply Hnl|].
  apply Z.eqb_neq in H. unfold glyph in HQ.
  destruct (Z.eqb_spec (getb s p) 9) as [E9|E9].
  - rewrite E9 in *. cbn [negb Z.land Z.eqb andb orb Z.ltb]. simpl.
    assert (Hsz : scr_out_buf_size = 4160) by done.
    pose proof (Z.rem_bound_pos (zlen dest) (tabstop s) ltac:(unfold zlen; lia) ltac:(lia)) as Hr.
    wp_step. apply wp_push.
    { unfold zlen at 2. rewrite length_replicate. lia. }
    wp_step. specialize (HQ 32 ofs (dest ++ replicate (Z.to_nat (tabstop s - 1 - Z.rem (zlen dest) (tabstop s))) 32)).
    rewrite andb_false_r in HQ. apply HQ; [done| |done].
    rewrite <- (drawing_rem _ _ _ Hd). apply drawing_app; [done|]. intros Hto. destruct Hd as [_ _ _ _ H5].
    specialize (H5 Hto). unfold zlen at 2. rewrite length_replicate.
    rewrite Z.rem_small by (unfold zlen in *; lia). lia.
  - cbv zeta. set (c := if negb (Z.land (getb s p) 128 =? 0) && negb (is_asciionly (getb s p)) then 46 else getb s p) in *.
    assert (Hc9 : (c =? 9) = false).
    { unfold c. destruct (_ && _); lia. }
    rewrite Hc9. cbn [negb] in HQ. rewrite andb_true_r in HQ. wp_step.
    + rewrite H0 in HQ. apply (wp_format_store _ _ _ _ _ [94] L); [done|done|done|].
      intros ofs' dest' Hd'. apply HQ; done.
    + rewrite H0 in HQ. apply (wp_format_store0 _ _ _ _ _ L); [done|done|].
      intros ofs' dest' Hd'. apply HQ; done.
Qed.
End format.

(** ** The result *)
Lemma take_pad (n m k : nat) (l : list Z) : (n <= length l + m)%nat -> (n <= length l + k)%nat ->
  take n (l ++ replicate m 32) = take n (l ++ replicate k 32).
Proof.
  intros H1 H2. rewrite !take_app. f_equal. rewrite !take_replicate. f_equal. lia.
Qed.
(** the buffer and the window of the drawn line agree *)
Lemma window_dest s L ofs dest X : drawing s L ofs dest -> 0 <= columns s -> 0 < tabstop s ->
  (X = L \/ L = X ++ [32] \/ exists more, X = L ++ more /\ columns s + ofs <= zlen dest) ->
  let o := if zlen dest <? ofs then zlen dest else ofs in
  let d := drop (Z.to_nat o) dest in
  take (Z.to_nat (columns s)) (d ++ replicate (Z.to_nat (columns s - zlen d)) 32) =
  window (offset s) (columns s) X.
Proof.
  intros [H1 H2 H3 (j & Hj & Hk) H5] Hc Hts HX o d. unfold window.
  assert (0 <= offset s - ofs) by nia.
  assert (Hd : d = drop (Z.to_nat (offset s)) L).
  { unfold d, o. destruct (Z.ltb_spec (zlen dest) ofs) as [Hlt|Hle].
    - rewrite (drop_ge dest) by (unfold zlen; lia). rewrite drop_ge; [done|]. unfold zlen in *. lia.
    - rewrite H2, drop_drop. f_equal. lia. }
  clearbody d. clear o.
  assert (Hpad : take (Z.to_nat (columns s)) (d ++ replicate (Z.to_nat (columns s - zlen d)) 32) =
    take (Z.to_nat (columns s)) (d ++ replicate (Z.to_nat (columns s)) 32)).
  { apply take_pad; unfold zlen; lia. }
  rewrite Hpad, Hd. destruct HX as [->|[->|(more & -> & Hlong)]]; [done| |].
  - destruct (Nat.le_gt_cases (Z.to_nat (offset s)) (length X)).
    + rewrite drop_app_le by done. rewrite <- app_assoc.
      change ([32] ++ replicate (Z.to_nat (columns s)) 32) with (replicate (S (Z.to_nat (columns s))) 32).
      apply take_pad; lia.
    + rewrite !drop_ge; [done| |]; rewrite ?length_app; simpl; lia.
  - assert (Z.to_nat (offset s) <= length L)%nat by (unfold zlen in *; nia).
    rewrite drop_app_le by done.
    by rewrite !take_app_le by (rewrite ?length_app, ?length_drop; unfold zlen in *; nia).
Qed.

Section format_line.
Context (s : Ed) (Hwf : wf s) (Hg : geometry s).

(** the variables of the loop at the address [p] of the line at [src] *)
Definition fmt_inv (src : Z) (v : fmt) (s' : Ed) : Prop :=
  s' = s /\ src <= f_src v <= endp s /\ none_in s 10 src (f_src v) /\
  drawing s (expand (tabstop s) (bytes_at s src (f_src v - src))) (f_ofs v) (f_dest v) /\
  (f_src v = endp s -> (src = endp s /\ f_c v = 126) \/ (src < endp s /\ f_c v = 32)).

(** what the loop leaves: the drawing of the line, or of enough of it *)
Definition fmt_done (src : Z) (v : fmt) : Prop :=
  exists L X e, drawing s L (f_ofs v) (f_dest v) /\ line_end s src e /\ X = line_drawn s src e /\
    (X = L \/ L = X ++ [32] \/ exists more, X = L ++ more /\ columns s + f_ofs v <= zlen (f_dest v)).

Lemma wp_format_body E src v (Q : fmt + fmt -> Ed -> Prop) : in_text s src -> fmt_inv src v s ->
  (forall r, match r with inl v' => fmt_inv src v' s /\ f_src v < f_src v' | inr v' => fmt_done src v' end -> Q r s) ->
  wpe E (format_body v) Q s.
Proof.
  intros Hin (_ & Hp & Hn & Hd & Hend) HQ. destruct v as [p c ofs dest]. cbn [f_src f_c f_ofs f_dest] in *.
  destruct (Hg) as [_ Hc Ht _ _]. unfold MAX_SCR_COLS, VI_MAX_SCREEN_LEN, MAX_TABSTOP in *.
  set (L := expand (tabstop s) (bytes_at s src (p - src))) in *.
  destruct (line_end_exists s src Hwf Hin) as (e & He). destruct (He) as (He1 & He2 & He3).
  assert (Hpe : p <= e).
  { destruct (Z.le_gt_cases p e); [done|]. exfalso. apply (Hn e); [lia|]. apply He3. lia. }
  destruct (Z.lt_ge_cases (zlen dest) (columns s + tabstop s)) as [Hlt|Hge].
  2:{ unfold format_body. do 2 wp_step. cbv zeta. rewrite u32_small by lia.
      replace (zlen dest <? columns s + tabstop s) with false by lia. wp_step. apply HQ.
      exists L, (line_drawn s src e), e. split; [done|]. split; [done|]. split; [done|]. right. right.
      unfold line_drawn. destruct (Z.ltb_spec src (endp s)) as [Hs|Hs].
      - rewrite (bytes_at_app s src p e) by txt. destruct (expand_prefix (tabstop s) (bytes_at s src (p - src)) (bytes_at s p (e - p))) as [l Hl].
        exists l. split; [done|]. destruct Hd as [_ _ _ _ H5]. cbn [f_ofs f_dest]. lia.
      - exfalso. assert (p = src) as -> by lia. unfold L in Hd. rewrite bytes_at_nil in Hd.
        destruct Hd as [_ Hd _ _ _]. rewrite Hd in Hge. unfold expand in Hge. simpl in Hge.
        rewrite drop_nil in Hge. unfold zlen in Hge. simpl in Hge. lia. }
  destruct (Z.lt_ge_cases p (endp s)) as [Hpl|Hpl].
  - apply (wp_format_byte s Hwf Hg _ _ _ _ L); [done|done|done|txt| |].
    + intros Hnl. apply HQ. assert (p = e) as ->.
      { destruct (Z.eq_dec p e); [done|]. exfalso. apply (He2 p); [lia|done]. }
      exists L, (line_drawn s src e), e. split; [done|]. split; [done|]. split; [done|]. left.
      unfold line_drawn. by replace (src <? endp s) with true by lia.
    + intros c' ofs' dest' Hc10 Hd' Hc9. apply HQ.
      assert (HL' : L ++ glyph (tabstop s) (zlen L) (getb s p) = expand (tabstop s) (bytes_at s src (p + 1 - src))).
      { rewrite (bytes_at_snoc s Hwf) by (done || lia). by rewrite expand_snoc. }
      rewrite HL' in Hd'.
      assert (Hn' : none_in s 10 src (p + 1)).
      { intros i Hi. destruct (Z.eq_dec i p) as [->|]; [done|]. apply Hn. lia. }
      destruct ((endp s <=? p + 1) && negb (getb s p =? 9)) eqn:Hstop.
      * apply andb_true_iff in Hstop as [Hs1 _]. assert (p + 1 = endp s) as Hpe1 by lia.
        assert (e = endp s) as ->.
        { destruct (Z.eq_dec e (endp s)); [done|]. exfalso. apply (Hn' e); [lia|]. apply He3. lia. }
        exists (expand (tabstop s) (bytes_at s src (p + 1 - src))), (line_drawn s src (endp s)), (endp s).
        split; [done|]. split; [done|]. split; [done|]. left. unfold line_drawn.
        replace (src <? endp s) with true by lia. by rewrite Hpe1.
      * split; [|cbn [f_src]; lia]. unfold fmt_inv. cbn [f_src f_c f_ofs f_dest].
        repeat split; [lia|lia|done|apply Hd'..|]. intros Hpe1. right. split; [lia|]. apply Hc9. lia.
  - assert (p = endp s) as -> by lia. assert (e = endp s) as -> by lia. unfold format_body. do 2 wp_step. cbv zeta. rewrite u32_small by lia.
    replace (zlen dest <? columns s + tabstop s) with true by lia.
    replace (endp s <? endp s) with false by lia.
    apply (wp_format_store0 s Hg _ _ _ _ _ L); [done|done|]. intros ofs' dest' Hd'.
    replace (endp s <=? endp s) with true by lia. apply HQ.
    exists (L ++ [c]), (line_drawn s src (endp s)), (endp s). split; [done|]. split; [done|]. split; [done|].
    unfold line_drawn. destruct (Hend eq_refl) as [[-> ->]|[Hs ->]].
    + left. replace (endp s <? endp s) with false by lia. unfold L. by rewrite bytes_at_nil.
    + right. left. by replace (src <? endp s) with true by lia.
Qed.

Lemma wp_format_line E src (Q : list Z -> Ed -> Prop) : in_text s src ->
  (forall l e, line_end s src e -> columns s <= zlen l ->
     take (Z.to_nat (columns s)) l = window (offset s) (columns s) (line_drawn s src e) -> Q l s) ->
  wpe E (format_line src) Q s.
Proof.
  intros Hin HQ. destruct (Hg) as [_ Hc Ht Ho _]. unfold MAX_SCR_COLS, VI_MAX_SCREEN_LEN, MAX_TABSTOP in *.
  unfold format_line. do 3 wp_step.
  apply (wpe_iter E (fmt_inv src) (fun v _ => endp s - f_src v)).
  - intros v s' Hinv. assert (s' = s) as -> by apply Hinv. split; [destruct Hinv as (_ & ? & _); lia|].
    apply (wp_format_body _ src); [done|done|]. intros [v'|v'] Hr.
    + destruct Hr as [Hr1 Hr2]. split; [done|lia].
    + destruct Hr as (L & X & e & Hd & He & HX & Hcase). destruct v' as [p' c' ofs' dest'].
      cbn [f_src f_c f_ofs f_dest] in *. cbv zeta.
      destruct (Hd) as [Hd1 _ _ _ Hd5].
      assert (Hsz : scr_out_buf_size = 4160) by done.
      replace ((if zlen dest' <? ofs' then zlen dest' else ofs') + columns s <=? scr_out_buf_size) with true
        by (destruct (Z.ltb_spec (zlen dest') ofs'); lia).
      wp_step. apply (HQ _ e); [done| |].
      * unfold zlen. rewrite length_app, length_replicate. unfold zlen. lia.
      * rewrite <- HX. apply window_dest with (L := L); [done|lia|lia|done].
  - unfold fmt_inv. cbn [f_src f_c f_ofs f_dest]. rewrite bytes_at_nil.
    split; [done|]. split; [txt|]. split; [intros i Hi; lia|]. split; [|intros ->; by left].
    split; [done|by rewrite Z.sub_diag|unfold expand, zlen; simpl; lia|exists 0; lia|intros _; unfold zlen; simpl; lia].
  - cbn [f_src]. txt.
Qed.
End format_line.
