(* ===== verification/EvimRefresh.v ===== *)
(** * evim: refresh() keeps the virtual screen in step with the text

    The rules of the routines that refresh() is made of, and its main result:
    from any state with a sound geometry it ends without a fault, touches
    only the display variables, and leaves every row of the virtual screen
    equal to the window of the text line it shows. *)
From S2P Require Import Prelude EvimState EvimLine EvimNav EvimSyntax EvimColor EvimInput EvimTerm EvimFormat EvimEdit EvimHole EvimUndo.

(** ** Output *)
(** the state without what was put out and without the cursor's visibility *)
Definition oframe (s : Ed) : Ed := set_out [] (set_cursor_hidden false s).

Section output.
Context (E : fault -> Prop) (s : Ed).

Lemma wp_oframe_puts bs (Q : unit -> Ed -> Prop) :
  (forall s', oframe s' = oframe s -> Q tt s') -> wpe E (puts_no_eol bs) Q s.
Proof. intros HQ. by apply HQ. Qed.
Lemma wp_place_cursor row col (Q : unit -> Ed -> Prop) :
  (forall s', oframe s' = oframe s -> Q tt s') -> wpe E (place_cursor row col) Q s.
Proof. intros HQ. by apply HQ. Qed.
Lemma wp_hide_cursor (Q : unit -> Ed -> Prop) :
  (forall s', oframe s' = oframe s -> Q tt s') -> wpe E hide_cursor Q s.
Proof. intros HQ. unfold hide_cursor. do 2 wp_step. destruct (cursor_hidden s); by apply HQ. Qed.
Lemma wp_show_cursor (Q : unit -> Ed -> Prop) :
  (forall s', oframe s' = oframe s -> Q tt s') -> wpe E show_cursor Q s.
Proof. intros HQ. unfold show_cursor. do 2 wp_step. destruct (cursor_hidden s); by apply HQ. Qed.
End output.

(** syntax_write_slice() ends, whatever the line holds *)
Lemma wp_write_cols_total E vline sel colors n i st s (Q : Z * Z -> Ed -> Prop) :
  (forall j col, colors = Some col -> 0 <= at_ col j < C_COUNT) ->
  (forall st' s', oframe s' = oframe s -> Q st' s') -> wpe E (write_cols n vline sel colors i st) Q s.
Proof.
  intros Hcol. revert i st s. induction n as [|n IH]; intros i st s HQ; cbn [write_cols].
  { wp_step. by apply HQ. }
  wp_step. unfold write_col. destruct st as [cur cur_sel]. cbv zeta. wp_step.
  set (f := match sel with Some m => at_ m i | None => 0 end).
  assert (Hsel : forall (R : Z * Z -> Ed -> Prop), (forall st' s', oframe s' = oframe s -> R st' s') ->
    wpe E (if negb (f =? cur_sel) then
             puts_no_eol ESC_NORM_TEXT ;; when (negb (f =? 0)) (puts_no_eol ESC_BOLD_TEXT) ;; ret (-1, f)
           else ret (cur, cur_sel)) R s).
  { intros R HR. wp_step; [|by apply HR]. wp_step. apply wp_puts. wp_step. wp_step; [apply wp_puts|]; by apply HR. }
  apply Hsel. intros [cur1 f1] s1 Hs1. wp_step.
  assert (Hfin : forall cur2 s2, oframe s2 = oframe s -> wpe E (putchar (at_ vline i) ;; ret (cur2, f1))
    (fun a s' => wpe E (write_cols n vline sel colors (i + 1) a) Q s') s2).
  { intros cur2 s2 Hs2. wp_step. unfold putchar. apply wp_puts. wp_step. apply IH. intros st' s' Hs'.
    apply HQ. by rewrite Hs'. }
  destruct colors as [col|]; [|by apply Hfin].
  wp_step; [|by apply Hfin]. cbv zeta. wp_step; [|by apply Hfin].
  wp_step. destruct (lookup_lt_is_Some_2 sgr_seq (Z.to_nat (at_ col i))) as [q Hq].
  { specialize (Hcol i col eq_refl). unfold C_COUNT in Hcol. simpl. lia. }
  rewrite Hq. simpl. wp_step. wp_step. apply wp_puts. wp_step. by apply Hfin.
Qed.
Lemma wp_write_slice_total E s vline from to sel (Q : unit -> Ed -> Prop) :
  0 <= columns s <= col_buf_size -> (forall s', oframe s' = oframe s -> Q tt s') ->
  wpe E (syntax_write_slice vline from to sel) Q s.
Proof.
  intros Hn HQ. unfold syntax_write_slice. do 2 wp_step. cbv zeta. wp_step; [wp_step; by apply HQ|]. wp_step.
  destruct (color_line_total (cur_syntax s) vline (columns s) Hn) as (col & Hcl & Hcd).
  assert (Hgo : forall colors, (forall j col, colors = Some col -> 0 <= at_ col j < C_COUNT) ->
    wpe E (st <- write_cols (Z.to_nat ((if columns s <=? to then columns s - 1 else to) - from + 1)) vline sel colors from (-1, 0) ;;
      let '(cur, cur_sel) := (st : Z * Z) in
      when (negb (cur_sel =? 0) || (C_DEFAULT <? cur)) (puts_no_eol ESC_NORM_TEXT)) Q s).
  { intros colors Hc. wp_step. apply wp_write_cols_total; [done|]. intros [cur cur_sel] s1 Hs1.
    wp_step; [apply wp_puts|]; by apply HQ. }
  wp_step.
  - rewrite Hcl. wp_step. apply Hgo. intros j c [= <-]. by apply (colored_at (columns s)).
  - wp_step. apply Hgo. done.
Qed.

(** ** Differences of two rows *)
Lemma first_diff_spec a b i : length a = length b ->
  i <= first_diff a b i <= i + zlen a /\ (forall k, (Z.of_nat k < first_diff a b i - i) -> a !! k = b !! k) /\
  (first_diff a b i < i + zlen a -> a !! Z.to_nat (first_diff a b i - i) <> b !! Z.to_nat (first_diff a b i - i)).
Proof.
  revert b i. induction a as [|x a IH]; intros [|y b] i Hl; try done.
  - unfold zlen. simpl. split; [lia|]. split; [|lia]. intros k Hk. lia.
  - simpl in Hl. cbn [first_diff]. assert (Hz : zlen (x :: a) = zlen a + 1) by (unfold zlen; simpl; lia).
    assert (0 <= zlen a) by (unfold zlen; lia).
    destruct (Z.eqb_spec x y) as [->|Hne]; cbn [negb].
    + specialize (IH b (i + 1) ltac:(lia)) as (H1 & H2 & H3). set (d := first_diff a b (i + 1)) in *.
      split; [lia|]. split.
      * intros [|k] Hk; [done|]. simpl. apply H2. lia.
      * intros Hd. replace (Z.to_nat (d - i)) with (S (Z.to_nat (d - (i + 1)))) by lia. simpl. apply H3. lia.
    + split; [lia|]. split; [intros k Hk; lia|]. intros _. rewrite Z.sub_diag. simpl. congruence.
Qed.
Lemma last_diff_spec a b i dflt : length a = length b ->
  (last_diff a b i dflt = dflt /\ a = b) \/
  (i <= last_diff a b i dflt < i + zlen a /\
   (forall k, last_diff a b i dflt - i < Z.of_nat k -> a !! k = b !! k) /\
   a !! Z.to_nat (last_diff a b i dflt - i) <> b !! Z.to_nat (last_diff a b i dflt - i)).
Proof.
  revert b i dflt. induction a as [|x a IH]; intros [|y b] i dflt Hl; try done.
  - by left.
  - simpl in Hl. cbn [last_diff]. assert (Hz : zlen (x :: a) = zlen a + 1) by (unfold zlen; simpl; lia).
    assert (0 <= zlen a) by (unfold zlen; lia).
    specialize (IH b (i + 1) (if negb (x =? y) then i else dflt) ltac:(lia)).
    set (d := last_diff a b (i + 1) _) in *. destruct IH as [[Hd ->]|(H1 & H2 & H3)].
    + rewrite Hd. destruct (Z.eqb_spec x y) as [->|Hne]; cbn [negb]; [by left|].
      right. split; [lia|]. split.
      * intros [|k] Hk; [lia|done].
      * rewrite Z.sub_diag. simpl. congruence.
    + right. split; [lia|]. split.
      * intros [|k] Hk; [lia|]. simpl. apply H2. lia.
      * replace (Z.to_nat (d - i)) with (S (Z.to_nat (d - (i + 1)))) by lia. done.
Qed.

(** ** One row *)
(** the state without the screen and the output *)
Definition sframe (s : Ed) : Ed := set_screen [] (oframe s).
(** the cells of row [li] *)
Definition row_of (s : Ed) (li : Z) : list Z :=
  take (Z.to_nat (columns s)) (drop (Z.to_nat (li * columns s)) (screen s)).
(** where the line after the one that ends at [e] starts *)
Definition after_line (s : Ed) (e : Z) : Z := Z.min (e + 1) (endp s).
(** the row that shows the line at [tp], [e] being its end *)
Definition line_row (s : Ed) (tp e : Z) : list Z := window (offset s) (columns s) (line_drawn s tp e).

(** the columns from the first to the last difference carry all of it *)
Lemma splice_diff a b cs ce : length a = length b -> 0 <= cs -> cs <= ce + 1 -> ce < zlen a ->
  (forall k, Z.of_nat k < cs -> a !! k = b !! k) -> (forall k, ce < Z.of_nat k -> a !! k = b !! k) ->
  splice (Z.to_nat cs) (slice a cs (ce + 1)) b = a.
Proof.
  intros Hl Hcs Hce Hn H1 H2. assert (Hsl : length (slice a cs (ce + 1)) = Z.to_nat (ce + 1 - cs)).
  { unfold slice, zlen in *. rewrite length_take, length_drop. lia. }
  unfold zlen in Hn. apply list_eq. intros k. destruct (Nat.lt_ge_cases k (Z.to_nat cs)) as [Hk|Hk].
  { rewrite lookup_splice_lt by lia. symmetry. apply H1. lia. }
  destruct (Nat.lt_ge_cases k (Z.to_nat (ce + 1))) as [Hk2|Hk2].
  - rewrite lookup_splice_mid by lia. unfold slice. rewrite lookup_take_lt by lia. rewrite lookup_drop. f_equal. lia.
  - rewrite lookup_splice_ge by lia. symmetry. apply H2. lia.
Qed.
(** updating a part of a part *)
Lemma splice_splice {A} (i j : nat) (bs sub l : list A) : (i + length sub <= length l)%nat ->
  sub = take (length sub) (drop i l) -> (j + length bs <= length sub)%nat ->
  splice (i + j) bs l = splice i (splice j bs sub) l.
Proof.
  intros Hl Hsub Hj. assert (Hls : length (splice j bs sub) = length sub) by (apply length_splice; lia).
  apply list_eq. intros k. destruct (Nat.lt_ge_cases k i) as [Hk|Hk].
  { rewrite !lookup_splice_lt by lia. done. }
  destruct (Nat.lt_ge_cases k (i + length sub)) as [Hk2|Hk2].
  2:{ rewrite !lookup_splice_ge by lia. done. }
  rewrite (lookup_splice_mid i) by lia.
  assert (Hlk : sub !! (k - i)%nat = l !! k).
  { rewrite Hsub. rewrite lookup_take_lt, lookup_drop by lia. f_equal. lia. }
  destruct (Nat.lt_ge_cases k (i + j)) as [Hk3|Hk3].
  { rewrite !lookup_splice_lt by lia. done. }
  destruct (Nat.lt_ge_cases k (i + j + length bs)) as [Hk4|Hk4].
  - rewrite !lookup_splice_mid by lia. f_equal. lia.
  - rewrite !lookup_splice_ge by lia. done.
Qed.

(** sound states that differ only in what is drawn *)
Lemma geometry_sframe s s' : sframe s' = sframe s -> length (screen s') = length (screen s) -> geometry s -> geometry s'.
Proof.
  intros H Hl [H1 H2 H3 H4 H5]. split.
  - by rewrite (f_equal rows H : rows s' = _).
  - by rewrite (f_equal columns H : columns s' = _).
  - by rewrite (f_equal tabstop H : tabstop s' = _).
  - by rewrite (f_equal offset H : offset s' = _).
  - unfold zlen in *. rewrite Hl, (f_equal rows H : rows s' = _), (f_equal columns H : columns s' = _). done.
Qed.
Lemma wf_sframe s s' : sframe s' = sframe s -> wf s -> wf s'.
Proof.
  intros H. apply wf_same;
    [exact (f_equal text H)|exact (f_equal endp H)|exact (f_equal text_size H)|exact (f_equal mem H)].
Qed.
Lemma in_text_sframe s s' p : sframe s' = sframe s -> in_text s p -> in_text s' p.
Proof. intros H. unfold in_text. by rewrite (f_equal text H : text s' = _), (f_equal endp H : endp s' = _). Qed.
Lemma getb_sframe s s' p : sframe s' = sframe s -> getb s' p = getb s p.
Proof. intros H. unfold getb, off. by rewrite (f_equal text H : text s' = _), (f_equal mem H : mem s' = _). Qed.
Lemma line_end_sframe s s' p e : sframe s' = sframe s -> line_end s' p e -> line_end s p e.
Proof.
  intros H. unfold line_end, none_in. rewrite (f_equal endp H : endp s' = _).
  intros (H1 & H2 & H3). split; [done|]. split.
  - intros i Hi. rewrite <- (getb_sframe s s' i H). by apply H2.
  - intros He. rewrite <- (getb_sframe s s' e H). by apply H3.
Qed.
Lemma line_row_sframe s s' tp e : sframe s' = sframe s -> line_row s' tp e = line_row s tp e.
Proof.
  intros H. unfold line_row, line_drawn, bytes_at, off. by rewrite (f_equal endp H : endp s' = _),
    (f_equal tabstop H : tabstop s' = _), (f_equal text H : text s' = _), (f_equal mem H : mem s' = _),
    (f_equal offset H : offset s' = _), (f_equal columns H : columns s' = _).
Qed.

Section row.
Context (s : Ed) (Hwf : wf s) (Hg : geometry s).

Lemma wp_visual_line_mask E tp (Q : list Z -> Ed -> Prop) :
  in_text s tp -> (forall l, Q l s) -> wpe E (visual_line_mask tp) Q s.
Proof.
  intros Hin HQ. unfold visual_line_mask. do 2 wp_step. destruct (if dot s <? _ then _ else _) as [lo hi].
  unfold visual_span_mask. do 2 wp_step. destruct Hg as [_ Hc _ _ _]. wp_step.
  2:{ apply Z.leb_gt in H. unfold scr_out_buf_size, MAX_SCR_COLS, VI_MAX_SCREEN_LEN, MAX_TABSTOP in *. lia. }
  wp_step. wp_step; [|wp_step; wp_step; apply HQ].
  apply (wp_rd_n s Hwf); [done|txt|lia|]. wp_step. apply HQ.
Qed.
(** the start of the next line *)
Lemma wp_after_line E tp (Q : Z -> Ed -> Prop) : in_text s tp ->
  (forall e, line_end s tp e -> Q (after_line s e) s) ->
  wpe E (if tp <? endp s then
           t <- memchr tp 10 (endp s - tp) ;; ret ((if t =? 0 then endp s - 1 else t) + 1)
         else ret tp) Q s.
Proof.
  intros Hin HQ. pose proof (wf_text _ Hwf). unfold after_line in HQ. wp_step.
  - wp_step. apply (wp_memchr s Hwf); [lia|done|lia|lia| |].
    + intros Hn. wp_step. specialize (HQ (endp s)). rewrite Z.min_r in HQ by lia.
      change (0 =? 0) with true. cbv iota. replace (endp s - 1 + 1) with (endp s) by lia. apply HQ.
      split; [txt|]. split; [by replace (endp s) with (tp + (endp s - tp)) by lia|lia].
    + intros q Hq Hc Hn. wp_step. specialize (HQ q). rewrite Z.min_l in HQ by lia.
      replace (q =? 0) with false by txt. apply HQ. split; [lia|]. by split.
  - wp_step. specialize (HQ tp). replace (Z.min (tp + 1) (endp s)) with tp in HQ by txt. apply HQ.
    split; [txt|]. split; [intros i Hi; lia|lia].
Qed.

(** the update of one row: the columns that differ, or all of them *)
Definition row_diff (full : bool) (row sp : list Z) : Z * Z * bool :=
  if full then (0, columns s - 1, true)
  else
    let cs := first_diff row sp 0 in
    if cs <? columns s then (cs, last_diff row sp 0 (columns s - 1), true)
    else (cs, columns s - 1, negb (offset s =? refresh_old_offset s)).
Lemma row_diff_ok full row sp : zlen row = columns s -> length row = length sp ->
  let '(cs, ce, changed) := row_diff full row sp in
  let '(cs, ce) := if ce <? cs then (0, columns s - 1) else (cs, ce) in
  0 <= cs <= ce /\ ce < columns s /\
  (changed = false -> row = sp) /\ splice (Z.to_nat cs) (slice row cs (ce + 1)) sp = row.
Proof.
  intros Hl Hle. destruct Hg as [_ Hc _ _ _]. unfold row_diff.
  assert (Hfull : splice (Z.to_nat 0) (slice row 0 (columns s - 1 + 1)) sp = row).
  { apply splice_diff; [done|lia..| |]; intros k Hk; [lia|]. rewrite !lookup_ge_None_2; [done|..]; unfold zlen in *; lia. }
  destruct full.
  { replace (columns s - 1 <? 0) with false by lia. repeat split; [lia..|done|done]. }
  destruct (first_diff_spec row sp 0 Hle) as (Hf1 & Hf2 & Hf3). rewrite Z.sub_0_r in *. set (cs := first_diff row sp 0) in *.
  destruct (Z.ltb_spec cs (columns s)) as [Hlt|Hge].
  - specialize (Hf3 ltac:(lia)).
    destruct (last_diff_spec row sp 0 (columns s - 1) Hle) as [[-> ->]|(Hd1 & Hd2 & Hd3)]; [done|].
    rewrite Z.sub_0_r in *. set (ce := last_diff row sp 0 _) in *.
    assert (cs <= ce). { destruct (Z.le_gt_cases cs ce); [done|]. exfalso. apply Hf3, Hd2. lia. }
    replace (ce <? cs) with false by lia. repeat split; [lia..|done|].
    apply splice_diff; [done|lia|lia|lia|done|done].
  - assert (cs = columns s) as -> by lia. replace (columns s - 1 <? columns s) with true by lia.
    repeat split; [lia..| |done]. intros _. apply list_eq. intros k.
    destruct (Nat.lt_ge_cases k (length row)); [apply Hf2; unfold zlen in *; lia|].
    rewrite !lookup_ge_None_2; [done|lia|lia].
Qed.

Lemma wp_refresh_row E full li tp (Q : Z -> Ed -> Prop) :
  in_text s tp -> 0 <= li < rows s - 1 ->
  (forall e s', line_end s tp e ->
     oframe s' = oframe (set_screen (splice (Z.to_nat (li * columns s)) (line_row s tp e) (screen s)) s) ->
     Q (after_line s e) s') ->
  wpe E (refresh_row full li tp) Q s.
Proof.
  intros Hin Hli HQ. destruct (Hg) as [Hr Hc Ht Ho Hs]. unfold refresh_row. wp_step.
  apply (wp_format_line s Hwf Hg); [done|]. intros l e He Hll Hrow. do 3 wp_step.
  fold (line_row s tp e) in Hrow.
  assert (Hvis : forall (R : option (list Z) -> Ed -> Prop), (forall m, R m s) ->
    wpe E (if negb (vi_visual s =? 0) then m <- visual_line_mask tp ;; ret (Some m) else ret None) R s).
  { intros R HR. wp_step; [|apply HR]. wp_step. apply wp_visual_line_mask; [done|]. intros m. apply HR. }
  apply Hvis. intros sel. wp_step. apply wp_after_line; [done|]. intros e' He'.
  rewrite (line_end_inj s tp e' e He' He). cbv zeta. wp_step. unfold rd_screen at 1.
  set (i := li * columns s). assert (Hi : 0 <= i /\ i + columns s <= zlen (screen s)) by (unfold i; nia).
  set (sp := take (Z.to_nat (columns s)) (drop (Z.to_nat i) (screen s))).
  eapply (wpe_ok _ _ _ _ sp s).
  { by replace ((0 <=? i) && (0 <=? columns s) && (i + columns s <=? zlen (screen s))) with true by lia. }
  assert (Hlr : length (line_row s tp e) = Z.to_nat (columns s)).
  { rewrite <- Hrow, length_take. unfold zlen in *. lia. }
  assert (Hsp : length sp = Z.to_nat (columns s)).
  { unfold sp, zlen in *. rewrite length_take, length_drop. lia. }
  rewrite Hrow. set (row := line_row s tp e) in *.
  pose proof (row_diff_ok full row sp ltac:(unfold zlen; lia) ltac:(lia)) as Hdiff.
  fold (row_diff full row sp). destruct (row_diff full row sp) as [[cs ce] changed].
  destruct (if ce <? cs then (0, columns s - 1) else (cs, ce)) as [c0 c1].
  destruct Hdiff as (Hc0 & Hc1 & Hno & Hspl). wp_step. wp_step.
  - wp_step. apply wp_hide_cursor. intros s1 Hs1.
    assert (Hsc1 : screen s1 = screen s) by exact (f_equal screen Hs1).
    assert (Hsl : length (slice row c0 (c1 + 1)) = Z.to_nat (c1 + 1 - c0)).
    { unfold slice. rewrite length_take, length_drop. lia. }
    wp_step. eapply (wpe_ok _ _ _ _ tt).
    { unfold wr_screen. rewrite Hsc1.
      replace ((0 <=? i + c0) && (i + c0 + zlen (slice row c0 (c1 + 1)) <=? zlen (screen s))) with true
        by (unfold zlen in *; lia). reflexivity. }
    wp_step. apply wp_place_cursor. intros s2 Hs2. apply wp_write_slice_total.
    { assert (columns s2 = columns s) as -> by (etransitivity; [exact (f_equal columns Hs2)|exact (f_equal columns Hs1)]).
      unfold col_buf_size, MAX_SCR_COLS, VI_MAX_SCREEN_LEN in *. lia. }
    intros s3 Hs3. wp_step. apply HQ; [done|]. rewrite Hs3, Hs2.
    replace (Z.to_nat (i + c0)) with (Z.to_nat i + Z.to_nat c0)%nat by lia.
    rewrite (splice_splice (Z.to_nat i) (Z.to_nat c0) _ sp) by (unfold zlen in *; lia || by rewrite Hsp).
    rewrite Hspl. unfold i. exact (f_equal (set_screen _) Hs1).
  - wp_step. apply HQ; [done|]. change (line_row s tp e) with row. rewrite (Hno H).
    replace (splice _ sp (screen s)) with (screen s); [done|]. unfold splice. rewrite Hsp. unfold sp, i.
    rewrite <- drop_drop. by rewrite !take_drop.
Qed.
End row.

(** ** All rows *)
(** from row [li] on, [n] rows of [scr] show the lines of the text from [tp] on *)
Fixpoint mirrors (s : Ed) (scr : list Z) (n : nat) (li tp : Z) : Prop :=
  match n with
  | O => True
  | S n => exists e, line_end s tp e /\
      take (Z.to_nat (columns s)) (drop (Z.to_nat (li * columns s)) scr) = line_row s tp e /\
      mirrors s scr n (li + 1) (after_line s e)
  end.
Lemma mirrors_sframe s s' scr n li tp : sframe s' = sframe s -> mirrors s' scr n li tp -> mirrors s scr n li tp.
Proof.
  intros H. revert li tp. induction n as [|n IH]; intros li tp; [done|]. cbn [mirrors].
  intros (e & He & Hrow & Hm). exists e. split; [by apply (line_end_sframe s s')|]. split.
  - rewrite <- (line_row_sframe s s' tp e H), <- Hrow. by rewrite (f_equal columns H : columns s' = _).
  - apply IH. unfold after_line in *. by rewrite (f_equal endp H : endp s' = _) in Hm.
Qed.
Lemma line_row_length s tp e : 0 <= columns s -> length (line_row s tp e) = Z.to_nat (columns s).
Proof. intros H. unfold line_row, window. rewrite length_take, length_app, length_replicate. lia. Qed.
Lemma after_line_in s tp e : in_text s tp -> line_end s tp e -> in_text s (after_line s e).
Proof. intros H (He & _). unfold after_line. txt. Qed.

Lemma wp_refresh_rows E full n li tp s (Q : unit -> Ed -> Prop) :
  wf s -> geometry s -> in_text s tp -> 0 <= li -> li + Z.of_nat n <= rows s - 1 ->
  (forall s', sframe s' = sframe s -> length (screen s') = length (screen s) ->
     take (Z.to_nat (li * columns s)) (screen s') = take (Z.to_nat (li * columns s)) (screen s) ->
     mirrors s (screen s') n li tp -> Q tt s') ->
  wpe E (refresh_rows n full li tp) Q s.
Proof.
  revert li tp s. induction n as [|n IH]; intros li tp s Hwf Hg Hin Hli Hn HQ; cbn [refresh_rows].
  { wp_step. by apply HQ. }
  destruct (Hg) as [Hr Hc Ht Ho Hs]. wp_step. apply (wp_refresh_row s Hwf Hg); [done|lia|].
  intros e s1 He Hs1. pose proof (line_row_length s tp e ltac:(lia)) as Hlr. unfold zlen in Hs.
  set (row := line_row s tp e) in *. set (i := Z.to_nat (li * columns s)) in *.
  assert (Hi : (i + length row <= length (screen s))%nat) by (unfold i; nia).
  assert (Hsc : screen s1 = splice i row (screen s)) by exact (f_equal screen Hs1).
  assert (Hfr : sframe s1 = sframe s) by exact (f_equal (set_screen []) Hs1).
  assert (Hl1 : length (screen s1) = length (screen s)) by (rewrite Hsc, length_splice; lia).
  assert (Hcol : columns s1 = columns s) by exact (f_equal columns Hfr).
  assert (Hrows : rows s1 = rows s) by exact (f_equal rows Hfr).
  apply IH.
  - by apply (wf_sframe s).
  - by apply (geometry_sframe s).
  - apply (in_text_sframe s); [done|]. by apply (after_line_in s tp).
  - lia.
  - lia.
  - intros s' Hs' Hl' Htk Hm. rewrite Hcol in Htk.
    assert (Hi' : Z.to_nat ((li + 1) * columns s) = (i + length row)%nat) by (unfold i; nia).
    rewrite Hi' in Htk. rewrite Hsc, splice_full in Htk by lia.
    apply HQ; [by rewrite Hs'|lia| |].
    + transitivity (take i (take (i + length row) (screen s'))).
      { rewrite take_take. f_equal. lia. }
      rewrite Htk, take_app_le by (rewrite length_take; lia). rewrite take_take. f_equal. lia.
    + cbn [mirrors]. exists e. split; [done|]. split; [|by apply (mirrors_sframe s s1)].
      fold i. fold row. rewrite take_drop_commute. rewrite <- Hlr, Htk.
      rewrite drop_app_ge by (rewrite length_take; lia). rewrite length_take, Nat.min_l, Nat.sub_diag by lia. done.
Qed.
