(* ===== verification/EvimDisplay.v ===== *)
(** * evim: sync_cursor() keeps the cursor on the screen

    Line numbers make the scrolling of sync_cursor() arithmetic: in a buffer
    that ends in a newline every routine that moves over lines moves the
    number by one, and the top line it chooses leaves the line of dot inside
    the screen. *)
From S2P Require Import Prelude EvimState EvimLine EvimNav EvimSyntax EvimColor EvimInput EvimTerm EvimFormat EvimEdit EvimHole EvimUndo EvimRefresh.

(** the text is not empty and its last byte is a newline *)
Definition ends_nl (s : Ed) : Prop := text s < endp s /\ getb s (endp s - 1) = 10.
(** the number of the line of [p], from 0 *)
Definition ln (s : Ed) (p : Z) : Z := nls s (text s) p.
Definition line_start (s : Ed) (p : Z) : Prop := bol_of s p p.

Section ln.
Context (s : Ed) (Hwf : wf s).

Lemma ln_text : in_text s (text s).
Proof. pose proof (wf_le _ Hwf). txt. Qed.
Lemma ln_split p q : text s <= p <= q -> q <= endp s -> ln s q = ln s p + nls s p q.
Proof. intros. apply nls_split; [apply ln_text|done|done]. Qed.
Lemma ln_mono p q : text s <= p <= q -> q <= endp s -> ln s p <= ln s q.
Proof. intros. rewrite (ln_split p q) by done. pose proof (nls_nonneg s p q). lia. Qed.
Lemma ln_nonneg p : 0 <= ln s p.
Proof. apply nls_nonneg. Qed.
Lemma ln_flat p q : text s <= p <= q -> q <= endp s -> none_in s 10 p q -> ln s q = ln s p.
Proof. intros. rewrite (ln_split p q) by done. rewrite (nls_none s Hwf) by (done || txt). lia. Qed.
Lemma ln_newline p : text s <= p < endp s -> getb s p = 10 -> ln s (p + 1) = ln s p + 1.
Proof. intros Hp Hc. rewrite (ln_split p (p + 1)) by lia. rewrite (nls_step s Hwf) by txt. by rewrite Hc. Qed.
Lemma ln_lt p q i : text s <= p <= i -> i < q <= endp s -> getb s i = 10 -> ln s p < ln s q.
Proof.
  intros Hp Hq Hc. pose proof (ln_newline i ltac:(lia) Hc).
  pose proof (ln_mono p i ltac:(lia) ltac:(lia)). pose proof (ln_mono (i + 1) q ltac:(lia) ltac:(lia)). lia.
Qed.

Lemma ln_bol p b : in_text s p -> bol_of s p b -> ln s b = ln s p.
Proof. intros Hp (H1 & _ & H3). symmetry. apply ln_flat; [txt|txt|done]. Qed.
Lemma bol_start p b : bol_of s p b -> line_start s b.
Proof. intros (H1 & H2 & H3). split; [lia|]. split; [done|]. intros i Hi. lia. Qed.
Lemma start_lt p q : text s <= p -> p < q <= endp s -> line_start s q -> ln s p < ln s q.
Proof. intros Hp Hq (_ & [->|Hc] & _); [lia|]. apply (ln_lt p q (q - 1)); [lia|lia|done]. Qed.
Lemma start_inj p q : in_text s p -> in_text s q -> line_start s p -> line_start s q -> ln s p = ln s q -> p = q.
Proof.
  intros Hp Hq Hsp Hsq H. destruct (Z.lt_trichotomy p q) as [Hl|[?|Hl]]; [|done|].
  - pose proof (start_lt p q ltac:(txt) ltac:(txt) Hsq). lia.
  - pose proof (start_lt q p ltac:(txt) ltac:(txt) Hsp). lia.
Qed.
Lemma ln_prev p q : in_text s p -> prev_of s p q -> line_start s q /\ in_text s q /\ ln s q = Z.max 0 (ln s p - 1).
Proof.
  intros Hp (b & Hb & Hq). pose proof (prev_of_range s p q) as Hr. split; [by eapply bol_start|].
  assert (in_text s q) by (specialize (Hr ltac:(by exists b) Hp); txt). split; [done|].
  rewrite <- (ln_bol p b) by done. destruct (Hb) as (Hb1 & Hb2 & _). destruct (Z.ltb_spec (text s) b) as [Hlt|Hge].
  - destruct Hb2 as [->|Hc]; [lia|]. rewrite (ln_bol (b - 1) q ltac:(txt) Hq).
    pose proof (ln_newline (b - 1) ltac:(txt) Hc) as Hn. replace (b - 1 + 1) with b in Hn by lia.
    pose proof (ln_nonneg (b - 1)). lia.
  - rewrite (ln_bol b q ltac:(txt) Hq). assert (b = text s) as -> by lia. unfold ln. rewrite nls_refl. lia.
Qed.

Section newline.
Context (Hnl : ends_nl s).

Lemma eol_nl p e : text s <= p < endp s -> eol_of s p e -> p <= e < endp s /\ getb s e = 10 /\ ln s e = ln s p.
Proof.
  intros Hp (H1 & H2 & H3). destruct Hnl as [Hlt Hc]. split; [lia|]. split.
  - destruct (Z.eq_dec e (endp s - 1)) as [->|]; [done|]. apply H3. lia.
  - apply ln_flat; [lia|lia|done].
Qed.
Lemma ln_last p : text s <= p < endp s -> ln s p <= ln s (endp s - 1).
Proof. intros. apply ln_mono; lia. Qed.
Lemma ln_next p q : text s <= p < endp s -> next_of s p q ->
  p <= q < endp s /\ ln s q = Z.min (ln s p + 1) (ln s (endp s - 1)) /\ (ln s p < ln s (endp s - 1) -> line_start s q).
Proof.
  intros Hp (e & He & ->). destruct (eol_nl p e Hp He) as (Hr & Hc & Hln).
  destruct (Z.ltb_spec e (endp s - 1)) as [Hlt|Hge].
  - pose proof (ln_newline e ltac:(lia) Hc). pose proof (ln_last (e + 1) ltac:(lia)). repeat split; try lia.
    + right. by replace (e + 1 - 1) with e by lia.
    + intros i Hi. lia.
  - assert (e = endp s - 1) as -> by lia. split; [lia|]. split; [lia|]. intros ?. lia.
Qed.
End newline.
End ln.

(** ** The routines of sync_cursor() *)
Section sync.
Context (s : Ed) (Hwf : wf s) (Hg : geometry s).
(** the state with another top line *)
Definition at_sb (x : Z) : Ed := set_screenbegin x s.
Lemma wf_sb x : wf (at_sb x).
Proof using Hwf. by apply (wf_same s). Qed.
(** the number of the last line *)
Definition last_ln : Z := ln s (endp s - 1).
(** half a screen *)
Definition half : Z := (rows s - 1) / 2.
Lemma half_ok : u32 (rows s - 1) / 2 = half /\ 0 <= half <= rows s - 2 /\ u32 (rows s - 1) = rows s - 1 /\ u32 (rows s - 2) = rows s - 2.
Proof using Hg.
  destruct Hg as [Hr _ _ _ _]. unfold half, MAX_SCR_ROWS, VI_MAX_SCREEN_LEN in *. rewrite !u32_small by lia.
  pose proof (Z.div_mod (rows s - 1) 2 ltac:(lia)). pose proof (Z.mod_pos_bound (rows s - 1) 2 ltac:(lia)). lia.
Qed.

(** moving over [n] lines *)
Lemma wp_lines_down E x n p (Q : Z -> Ed -> Prop) : in_text s p ->
  (forall q, in_text s q -> (ends_nl s -> p < endp s ->
     q < endp s /\ ln s q = Z.min (ln s p + Z.of_nat n) last_ln) -> Q q (at_sb x)) ->
  wpe E (fold_n n next_line p) Q (at_sb x).
Proof using Hwf.
  intros Hp HQ. eapply wpe_mono; [apply (wpe_fold E (fun j q s1 => s1 = at_sb x /\ in_text s q /\
    (ends_nl s -> p < endp s -> q < endp s /\ ln s q = Z.min (ln s p + j) last_ln)) next_line n 0)|].
  - intros j q s1 Hj (-> & Hq & HI). apply (wp_next_line _ (wf_sb x)); [done|]. intros q' Hq'.
    split; [done|]. split; [by apply (next_of_range s q)|]. intros Hnl Hlt.
    destruct (HI Hnl Hlt) as (Hlt' & Hln). destruct (ln_next s Hwf Hnl q q' ltac:(txt) Hq') as (H1 & H2 & _).
    split; [lia|]. unfold last_ln in *. lia.
  - split; [done|]. split; [done|]. intros Hnl Hlt. split; [done|].
    pose proof (ln_last s Hwf p ltac:(txt)). unfold last_ln. lia.
  - intros q s1 (-> & Hq & HI). by apply HQ.
Qed.
Lemma wp_end_screen_ln E x (Q : Z -> Ed -> Prop) : in_text s x ->
  (forall q, in_text s q -> (ends_nl s -> x < endp s ->
     q < endp s /\ getb s q = 10 /\ ln s q = Z.min (ln s x + (rows s - 2)) last_ln) -> Q q (at_sb x)) ->
  wpe E end_screen Q (at_sb x).
Proof using Hwf Hg.
  intros Hx HQ. unfold end_screen. do 3 wp_step. destruct half_ok as (_ & Hh & _ & Hr2).
  change (rows (at_sb x)) with (rows s). change (screenbegin (at_sb x)) with x. rewrite Hr2.
  apply wp_lines_down; [done|]. intros q Hq HI. apply (wp_end_line _ (wf_sb x)); [done|]. intros e He.
  apply HQ; [by apply (eol_of_range s q)|]. intros Hnl Hlt. destruct (HI Hnl Hlt) as (Hlt' & Hln).
  destruct (eol_nl s Hwf Hnl q e ltac:(txt) He) as (H1 & H2 & H3). split; [lia|]. split; [done|]. lia.
Qed.

(** the top line that is chosen: the line of dot is inside the screen *)
Definition sees (beg x : Z) : Prop :=
  line_start s x /\ ln s x <= ln s beg <= ln s x + (rows s - 2).

Lemma wp_sync_sc1 E x beg cnt (Q : unit -> Ed -> Prop) : in_text s beg -> line_start s beg ->
  (forall y, text s <= y <= beg -> sees beg y -> Q tt (at_sb y)) -> wpe E (sync_sc1 beg cnt) Q (at_sb x).
Proof using Hwf Hg.
  intros Hb Hst HQ. unfold sync_sc1. do 4 wp_step. cbv zeta. destruct half_ok as (Hh & Hr & _).
  change (rows (set_screenbegin beg (at_sb x))) with (rows s). rewrite Hh.
  change (set_screenbegin beg (at_sb x)) with (at_sb beg). wp_step.
  - eapply wpe_mono; [apply (wpe_repeat E (fun j s1 => exists y, s1 = at_sb y /\ text s <= y <= beg /\ line_start s y /\
      ln s beg - j <= ln s y <= ln s beg))|].
    + intros j s1 Hj (y & -> & Hy & Hys & Hln). do 3 wp_step.
      change (screenbegin (at_sb y)) with y. assert (Hyin : in_text s y) by txt.
      apply (wp_prev_line _ (wf_sb y)); [done|]. intros q Hq.
      destruct (ln_prev s Hwf y q Hyin Hq) as (H1 & H2 & H3). pose proof (prev_of_range s y q Hq Hyin).
      wp_step. exists q. split; [done|]. split; [lia|]. split; [done|].
      pose proof (ln_nonneg s beg). pose proof (ln_nonneg s y). lia.
    + exists beg. split; [done|]. split; [txt|]. split; [done|lia].
    + intros [] s1 (y & -> & Hy & Hys & Hln). apply HQ; [done|]. split; [done|]. lia.
  - apply HQ; [txt|]. split; [done|]. lia.
Qed.

Lemma wp_sync_begin E beg (Q : unit -> Ed -> Prop) :
  in_text s beg -> line_start s beg -> in_text s (screenbegin s) ->
  (forall y, in_text s y -> (screenbegin s < endp s -> beg < endp s -> y < endp s) ->
     (ends_nl s -> line_start s (screenbegin s) -> beg < endp s -> sees beg y) -> Q tt (at_sb y)) ->
  wpe E (sync_begin beg) Q s.
Proof using Hwf Hg.
  intros Hb Hst Hsb HQ. change (wpe E (sync_begin beg) Q (at_sb (screenbegin s))).
  set (x := screenbegin s) in *. destruct half_ok as (Hh & Hr & Hr1 & Hr2).
  assert (Hsc1 : forall cnt y, wpe E (sync_sc1 beg cnt) Q (at_sb y)).
  { intros cnt y. apply wp_sync_sc1; [done|done|]. intros z Hz Hsee. apply HQ; [txt|lia|done]. }
  unfold sync_begin. do 2 wp_step. change (screenbegin (at_sb x)) with x. wp_step.
  - wp_step. apply (wp_count_lines _ (wf_sb x)); [done|done|]. intros e _. apply Hsc1.
  - apply Z.ltb_ge in H. wp_step. apply wp_end_screen_ln; [done|]. intros es Hes Hesn. wp_step.
    + apply Z.ltb_lt in H0. wp_step. apply (wp_count_lines _ (wf_sb x)); [done|done|].
      rewrite Z.max_r, Z.min_l by lia. intros e He. change (endp (at_sb x)) with (endp s).
      change (nls (at_sb x) es (Z.min (e + 1) (endp s))) with (nls s es (Z.min (e + 1) (endp s))).
      change (eol_of (at_sb x) beg e) with (eol_of s beg e) in He.
      set (k := nls s es (Z.min (e + 1) (endp s))). wp_step; [apply Hsc1|]. wp_step.
      set (P := ends_nl s /\ line_start s x /\ beg < endp s).
      assert (HP : P -> line_start s x /\ ln s beg = ln s x + (rows s - 2) + (k - 1) /\ 1 <= k).
      { intros (Hnl & Hsx & Hbe). split; [done|]. destruct (Hesn Hnl ltac:(lia)) as (He1 & He2 & He3).
        destruct (eol_nl s Hwf Hnl beg e ltac:(txt) He) as (Hb1 & Hb2 & Hb3).
        pose proof (ln_split s Hwf es (e + 1) ltac:(txt) ltac:(lia)) as Hk.
        rewrite (ln_newline s Hwf e) in Hk by (done || txt). unfold k. rewrite Z.min_l by lia.
        pose proof (ln_lt s Hwf es beg es ltac:(txt) ltac:(lia) He2).
        pose proof (ln_last s Hwf beg ltac:(txt)). unfold last_ln in He3. lia. }
      eapply wpe_mono; [apply (wpe_fold E (fun j q s1 => exists y, s1 = at_sb y /\ in_text s y /\ in_text s q /\
        (x < endp s -> y < endp s) /\ (P -> line_start s y /\ ln s y = ln s x + j)) _ _ 0)|].
      * intros j q s1 Hj (y & -> & Hy & Hq & Hlt & HI). do 3 wp_step. change (screenbegin (at_sb y)) with y.
        apply (wp_next_line _ (wf_sb y)); [done|]. intros y' Hy'. do 2 wp_step.
        change (set_screenbegin y' (at_sb y)) with (at_sb y'). wp_step.
        apply (wp_next_line _ (wf_sb y')); [done|]. intros q' Hq'.
        pose proof (next_of_range s y y' Hy' Hy). pose proof (next_of_range s q q' Hq' Hq) as [_ Hqin].
        apply (wp_end_line _ (wf_sb y')); [exact Hqin|]. intros q2 Hq2. exists y'. split; [done|].
        split; [tauto|]. split; [by apply (eol_of_range s q')|]. split; [intros; by apply (next_of_lt s y), Hlt|]. intros HP1. destruct (HP HP1) as (Hsx & Hlb & Hk1).
        destruct (HI HP1) as (Hsy & Hly). destruct HP1 as (Hnl & _ & Hbe).
        pose proof (ln_last s Hwf beg ltac:(txt)).
        assert (y < endp s). { destruct (Z.eq_dec y (endp s)) as [->|]; [|txt].
          pose proof (start_lt s Hwf beg (endp s) ltac:(txt) ltac:(lia) Hsy).
          exfalso. lia. }
        destruct (ln_next s Hwf Hnl y y' ltac:(txt) Hy') as (H1' & H2' & H3'). split; [apply H3'; lia|lia].
      * exists x. split; [done|]. split; [done|]. split; [done|]. split; [done|]. intros HP1. destruct (HP HP1). split; [done|lia].
      * intros q s1 (y & -> & Hy & Hq & Hlt & HI). wp_step. apply HQ; [done|tauto|]. intros Hnl Hsx Hbe.
        assert (HP1 : P) by done. destruct (HP HP1) as (_ & Hlb & Hk). destruct (HI HP1) as (Hsy & Hly).
        split; [done|]. lia.
    + apply Z.ltb_ge in H0. wp_step. apply HQ; [done|done|]. intros Hnl Hsx Hbe. split; [done|].
      destruct (Hesn Hnl ltac:(lia)) as (He1 & He2 & He3).
      pose proof (ln_mono s Hwf x beg ltac:(txt) ltac:(lia)). pose proof (ln_mono s Hwf beg es ltac:(txt) ltac:(lia)). lia.
Qed.

(** finding the row of dot: it is found when the line is on the screen *)
Lemma wp_sync_row E y beg (Q : Z * Z -> Ed -> Prop) : in_text s y -> in_text s beg -> line_start s beg ->
  (forall ro tp, 0 <= ro <= rows s - 1 -> in_text s tp ->
     (ends_nl s -> beg < endp s -> sees beg y -> tp = beg /\ ro = ln s beg - ln s y) -> Q (ro, tp) (at_sb y)) ->
  wpe E (iter (S (Z.to_nat (rows s))) (sync_row_body beg) (0, y)) Q (at_sb y).
Proof using Hwf Hg.
  intros Hy Hb Hst HQ. destruct half_ok as (_ & Hr & Hr1 & _).
  set (P := ends_nl s /\ beg < endp s /\ sees beg y).
  apply (wpe_iter E (fun v s1 => s1 = at_sb y /\ 0 <= fst v <= rows s - 1 /\ in_text s (snd v) /\
    (P -> line_start s (snd v) /\ ln s (snd v) = ln s y + fst v /\ ln s (snd v) <= ln s beg))
    (fun v _ => rows s - fst v)); [| |cbn [fst]; lia].
  2:{ cbn [fst snd]. split; [done|]. split; [lia|]. split; [done|]. intros (_ & _ & Hs1 & Hs2).
      split; [done|]. lia. }
  intros [ro tp] s1 (-> & Hro & Htp & HI). cbn [fst snd] in *. split; [lia|].
  unfold sync_row_body. do 2 wp_step. change (rows (at_sb y)) with (rows s). rewrite Hr1. wp_step.
  - wp_step.
    + wp_step. apply Z.eqb_eq in H0. subst tp. apply HQ; [done|done|]. intros Hn Hbe Hsee. split; [done|].
      destruct (HI ltac:(done)) as (_ & ? & _). lia.
    + apply Z.eqb_neq in H0. wp_step. apply (wp_next_line _ (wf_sb y)); [done|]. intros q Hq. wp_step.
      cbn [fst snd]. split; [|lia]. split; [done|]. split; [lia|]. split; [by apply (next_of_range s tp q)|].
      intros HP. destruct (HI HP) as (H1 & H2 & H3). destruct HP as (Hn & Hbe & Hsee).
      assert (ln s tp < ln s beg).
      { destruct (Z.eq_dec (ln s tp) (ln s beg)); [|lia]. exfalso. by apply H0, (start_inj s Hwf). }
      assert (tp < endp s).
      { destruct (Z.eq_dec tp (endp s)) as [->|]; [|txt].
        pose proof (start_lt s Hwf beg (endp s) ltac:(txt) ltac:(lia) H1). lia. }
      pose proof (ln_last s Hwf beg ltac:(txt)).
      destruct (ln_next s Hwf Hn tp q ltac:(txt) Hq) as (H1' & H2' & H3'). split; [apply H3'; lia|]. lia.
  - wp_step. apply HQ; [done|done|]. intros Hn Hbe Hsee. destruct (HI ltac:(done)) as (_ & ? & ?).
    destruct Hsee. lia.
Qed.

(** the column the cursor is drawn in: the last one of the character at [d],
    or the first one of a newline, and of a tab while inserting *)
Definition cursor_col (b d : Z) : Z :=
  if (getb s d =? 10) || (negb (cmd_mode s =? 0) && (b <? d) && (getb s d =? 9)) then col_of s b d
  else next_column (tabstop s) (getb s d) (col_of s b d) - 1.

Lemma next_column_le ts c co : 0 < ts <= 32 -> 0 <= co -> next_column ts c co <= co + 32.
Proof using.
  intros Hts Hco. unfold next_column, next_tabstop. pose proof (Z.rem_bound_pos co ts Hco ltac:(lia)).
  destruct (c =? 9); [lia|]. destruct ((c <? 32) || (c =? 127)); lia.
Qed.
Lemma wp_sync_col E y d tp (Q : Z -> Ed -> Prop) : in_text s tp -> in_text s d ->
  (forall co, 0 <= co <= 32 * (endp s - text s + 1) -> (tp <= d -> none_in s 10 tp d -> co = cursor_col tp d) ->
     Q co (at_sb y)) ->
  wpe E (iter (S (S (Z.to_nat (d - tp)))) (sync_col_body d) (tp, 0)) Q (at_sb y).
Proof using Hwf Hg.
  intros Htp Hd HQ. destruct (Hg) as [_ _ Ht _ _]. unfold MAX_TABSTOP in Ht.
  set (instab := negb (cmd_mode s =? 0) && (getb s d =? 9)).
  set (J v := tp <= fst v /\ (fst v <= d \/ fst v = tp) /\ in_text s (fst v) /\
    0 <= snd v <= 32 * (fst v - tp) /\ snd v = col_of s tp (fst v) /\
    (tp < fst v -> fst v = d -> instab = false)).
  apply (wpe_iter E (fun v s1 => s1 = at_sb y /\ J v) (fun v _ => Z.max 0 (d - fst v))); [| |cbn [fst]; lia].
  2:{ unfold J. cbn [fst snd]. rewrite col_of_refl. repeat split; try done; try apply Htp; lia. }
  intros [p co] s1 (-> & Hp & Hpd & Hin & Hco & Hc & Htab). cbn [fst snd] in *. split; [lia|]. unfold sync_col_body.
  wp_step. apply (wp_rd _ (wf_sb y)); [done|]. change (getb (at_sb y) p) with (getb s p). wp_step.
  { apply Z.eqb_eq in H. wp_step. apply HQ; [txt|]. intros Htd Hn.
    assert (p = d) as ->. { destruct (Z.eq_dec p d); [done|]. exfalso. apply (Hn p); [lia|done]. }
    unfold cursor_col. by rewrite H. }
  apply Z.eqb_neq in H. do 2 wp_step. cbv zeta. change (tabstop (at_sb y)) with (tabstop s).
  pose proof (next_column_gt (tabstop s) (getb s p) co ltac:(lia) ltac:(lia)).
  pose proof (next_column_le (tabstop s) (getb s p) co ltac:(lia) ltac:(lia)).
  set (nc := next_column (tabstop s) (getb s p) co) in *. replace (nc - 1 + 1) with nc by lia. wp_step.
  change (cmd_mode (at_sb y)) with (cmd_mode s).
  assert (Hstep : p <> d -> p < d \/ tp = p) by lia.
  assert (Hgo : forall b : bool, (p = d - 1 -> b = instab) -> (p <> d - 1 -> b = false) ->
    wpe E (if b then ret (inr nc) else if p <? d then (if nc =? 0 then ret (inr nc) else ret (inl (p + 1, nc))) else ret (inr (nc - 1)))
      (fun r s' => match r with inl a => (s' = at_sb y /\ J a) /\ Z.max 0 (d - fst a) < Z.max 0 (d - p) | inr b => Q b s' end) (at_sb y)).
  { intros b Hb1 Hb2. assert (Hcol : p < endp s -> nc = col_of s tp (p + 1)).
    { intros Hlt. unfold nc. rewrite Hc. symmetry. apply (col_of_step s Hwf); [done|lia|done]. }
    wp_step.
    - subst b. assert (p = d - 1) as Ep by (destruct (Z.eq_dec p (d - 1)); [done|by specialize (Hb2 n)]).
      wp_step. apply HQ; [txt|]. intros Htd Hn. specialize (Hb1 Ep). unfold instab in Hb1. symmetry in Hb1.
      apply andb_true_iff in Hb1 as [Hm H9]. unfold cursor_col. rewrite Hm, H9. replace (tp <? d) with true by lia.
      rewrite orb_true_r. rewrite Hcol by txt. f_equal. lia.
    - wp_step.
      + replace (nc =? 0) with false by lia. wp_step. cbn [fst]. split; [|lia]. split; [done|]. unfold J. cbn [fst snd].
        split; [lia|]. split; [lia|]. split; [txt|]. split; [lia|]. split; [apply Hcol; txt|].
        intros _ Hd1. rewrite <- Hb1 by lia. done.
      + wp_step. apply HQ; [txt|]. intros Htd Hn. assert (p = d) as -> by lia. unfold cursor_col. rewrite <- Hc. fold nc.
        replace (getb s d =? 10) with false by lia. destruct (Z.ltb_spec tp d); cbn [orb]; rewrite ?andb_false_r; [|done].
        rewrite andb_true_r. fold instab. by rewrite Htab. }
  wp_step.
  - apply andb_true_iff in H2 as [Hm Hpd1]. wp_step. apply (wp_rd _ (wf_sb y)); [done|]. wp_step.
    apply Hgo; [|lia]. intros _. unfold instab. by rewrite Hm.
  - wp_step. apply (Hgo false); [|done]. intros ->. unfold instab. apply andb_false_iff in H2 as [->|]; [done|lia].
Qed.

(** what sync_cursor() leaves: another top line [y] and offset [o], and the
    row and column of the cursor *)
Record synced (d y o ro col : Z) : Prop := mkSynced {
  sy_y : in_text s y;
  sy_below : screenbegin s < endp s -> d < endp s -> y < endp s;
  sy_o : 0 <= o;
  sy_ro : 0 <= ro <= rows s - 1;
  sy_col : 0 <= col;
  sy_cols : col < columns s \/ (bol_of s d d /\ getb s d = 9 /\ o = 0);
  sy_see : ends_nl s -> line_start s (screenbegin s) -> d < endp s ->
    exists b, bol_of s d b /\ sees b y /\ ro = ln s d - ln s y /\ ro <= rows s - 2 /\ col + o = cursor_col b d
}.

Lemma wp_sync_cursor E d (Q : Z * Z -> Ed -> Prop) :
  in_text s d -> in_text s (screenbegin s) -> endp s - text s < 2 ^ 25 ->
  (forall y o ro col, synced d y o ro col -> Q (ro, col) (set_offset o (at_sb y))) ->
  wpe E (sync_cursor d) Q s.
Proof using Hwf Hg.
  intros Hd Hsb Hsz HQ. destruct (Hg) as [_ Hcol _ Ho _]. unfold MAX_SCR_COLS, VI_MAX_SCREEN_LEN in Hcol.
  unfold sync_cursor. wp_step. apply (wp_begin_line s Hwf); [done|]. intros b Hb.
  pose proof (bol_of_range _ _ _ Hb Hd) as Hbin. pose proof (bol_start s d b Hb) as Hst.
  wp_step. apply wp_sync_begin; [done..|]. intros y Hy Hbel Hsee. do 3 wp_step.
  change (rows (at_sb y)) with (rows s). change (screenbegin (at_sb y)) with y.
  apply wp_sync_row; [done..|]. intros ro tp Hro Htp Hrow. wp_step. apply wp_sync_col; [done|done|].
  intros co Hco Hcc. wp_step.
  assert (Hmain : forall o, 0 <= o <= co -> wpe E
    (s <- get ;;
     when (u32 (columns s + offset s) <=? u32 co) (modify (set_offset (i32 (co - columns s + 1)))) ;;
     x <- (if d =? b then rd d else ret 0) ;;
     when ((d =? b) && (x =? 9)) (modify (set_offset 0)) ;;
     s <- get ;;
     ret (ro, co - offset s)) Q (set_offset o (at_sb y))).
  { intros o Hoo. do 2 wp_step. change (columns (set_offset o (at_sb y))) with (columns s).
    change (offset (set_offset o (at_sb y))) with o. rewrite !u32_small by lia.
    assert (Hfin : forall o, 0 <= o <= co -> co - o < columns s -> wpe E
      (x <- (if d =? b then rd d else ret 0) ;;
       when ((d =? b) && (x =? 9)) (modify (set_offset 0)) ;;
       s <- get ;;
       ret (ro, co - offset s)) Q (set_offset o (at_sb y))).
    { intros o' Ho' Hlt.
      assert (Hend : forall o2, 0 <= o2 <= co -> (co - o2 < columns s \/ (bol_of s d d /\ getb s d = 9 /\ o2 = 0)) ->
        Q (ro, co - o2) (set_offset o2 (at_sb y))).
      { intros o2 Ho2 Hc2. apply HQ. split; [done|destruct Hb; lia|lia|done|lia|done|]. intros Hn Hss Hde.
        exists b. destruct Hb as (Hb1 & Hb2 & Hb3). specialize (Hsee Hn Hss ltac:(lia)).
        assert (bol_of s d b) as Hb by done. pose proof (ln_bol s Hwf d b Hd Hb) as Hlb.
        destruct (Hrow Hn ltac:(lia) Hsee) as (Etp & Hro1). subst tp. split; [done|]. split; [done|].
        split; [lia|]. destruct (Hsee) as (_ & ?). split; [lia|]. rewrite <- Hcc by (lia || done). lia. }
      assert (Hwfo : wf (set_offset o' (at_sb y))) by (by apply (wf_same s)).
      wp_step. wp_step.
      - apply (wp_rd _ Hwfo); [done|]. change (getb (set_offset o' (at_sb y)) d) with (getb s d). do 2 wp_step.
        + apply andb_true_iff in H0 as [_ H0]. apply Z.eqb_eq in H, H0. wp_step. do 2 wp_step. wp_step.
          apply (Hend 0); [lia|]. right. split; [|done]. by subst b.
        + do 2 wp_step. wp_step. apply (Hend o'); [done|]. by left.
      - wp_step. do 2 wp_step. { rewrite H in H0. done. } do 2 wp_step. wp_step. apply (Hend o'); [done|]. by left. }
    wp_step. wp_step.
    - apply Z.leb_le in H. wp_step.
      rewrite i32_small by lia. change (set_offset ?a (set_offset o ?b)) with (set_offset a b). apply Hfin; lia.
    - apply Z.leb_gt in H. apply Hfin; [done|lia]. }
  change (offset (at_sb y)) with (offset s). wp_step.
  - wp_step. apply Hmain. lia.
  - apply Z.ltb_ge in H. change (at_sb y) with (set_offset (offset s) (at_sb y)). by apply Hmain.
Qed.
End sync.

(** ** evim: refresh() *)

(** ** refresh() *)
(** all that refresh() leaves alone *)
Definition tframe (s : Ed) : Ed :=
  set_crow 0 (set_ccol 0 (set_screenbegin 0 (set_offset 0 (set_vis_last_screenbegin 0
    (set_cindex 0 (set_refresh_old_offset 0 (sframe s))))))).
(** what refresh() needs *)
Record drawable (s : Ed) : Prop := mkDrawable {
  dr_wf : wf s;
  dr_geo : geometry s;
  dr_dot : in_text s (dot s);
  dr_sb : in_text s (screenbegin s);
  dr_size : endp s - text s < 2 ^ 25
}.
(** what refresh() does *)
Record refreshed (s s' : Ed) : Prop := mkRefreshed {
  rf_frame : tframe s' = tframe s;
  rf_draw : drawable s';
  rf_sync : synced s (dot s) (screenbegin s') (offset s') (crow s') (ccol s');
  rf_mirror : mirrors s' (screen s') (Z.to_nat (rows s - 1)) 0 (screenbegin s')
}.

Lemma drawable_tframe s s' : tframe s' = tframe s -> length (screen s') = length (screen s) ->
  in_text s (screenbegin s') -> 0 <= offset s' -> drawable s -> drawable s'.
Proof.
  intros H Hl Hsb Ho [Hwf [] Hd _ Hz].
  assert (Ht : text s' = text s) by exact (f_equal text H). assert (He : endp s' = endp s) by exact (f_equal endp H).
  split.
  - apply (wf_same s); [done|done|exact (f_equal text_size H)|exact (f_equal mem H)|done].
  - split; rewrite ?(f_equal rows H : rows s' = rows s), ?(f_equal columns H : columns s' = columns s),
      ?(f_equal tabstop H : tabstop s' = tabstop s); try done. unfold zlen in *. by rewrite Hl.
  - unfold in_text. rewrite Ht, He, (f_equal dot H : dot s' = dot s). done.
  - unfold in_text. by rewrite Ht, He.
  - by rewrite Ht, He.
Qed.

Lemma wp_refresh E full s (Q : unit -> Ed -> Prop) :
  drawable s -> (forall s', refreshed s s' -> Q tt s') -> wpe E (refresh full) Q s.
Proof.
  intros Hdr HQ. destruct (Hdr) as [Hwf Hg Hd Hsb Hsz]. unfold refresh. do 3 wp_step.
  apply wp_sync_cursor; [done..|]. intros y o ro col Hsy. do 2 wp_step. cbn [fst snd]. do 2 wp_step. cbv zeta.
  set (s1 := set_ccol col (set_crow ro _)). do 3 wp_step.
  set (vs := if negb (vi_visual s1 =? 0) then screenbegin s1 else 0).
  set (fs := full || _). set (s2 := set_vis_last_screenbegin vs s1). clearbody fs vs.
  destruct (half_ok s Hg) as (_ & _ & Hr1 & _). change (rows s1) with (rows s). rewrite Hr1.
  assert (Hdr2 : drawable s2).
  { apply (drawable_tframe s); try done; [by apply sy_y in Hsy|by apply sy_o in Hsy]. }
  destruct (Hdr2) as [Hwf2 Hg2 Hd2 Hsb2 Hsz2]. change (screenbegin s1) with (screenbegin s2).
  destruct (Hg) as [Hr _ _ _ _].
  apply wp_refresh_rows; [done..| |].
  { change (rows s2) with (rows s). lia. }
  intros s3 Hs3 Hl3 _ Hm3. do 3 wp_step. apply wp_place_cursor. intros s4 Hs4. wp_step. apply wp_show_cursor. intros s5 Hs5.
  assert (H53 : oframe s5 = oframe s3) by (by rewrite Hs5).
  assert (H52 : sframe s5 = sframe s2) by (by rewrite <- Hs3; exact (f_equal (set_screen []) H53)).
  assert (Hsc : screen s5 = screen s3) by exact (f_equal screen H53).
  assert (Hfin : forall v, Q tt (set_refresh_old_offset (offset s5) (set_cindex v s5))).
  { intros v. set (s' := set_refresh_old_offset _ _).
    assert (Hsb5 : screenbegin s5 = y) by exact (f_equal screenbegin H52).
    assert (Ho5 : offset s5 = o) by exact (f_equal offset H52).
    assert (Htf : tframe s' = tframe s).
    { exact (f_equal (fun x => set_crow 0 (set_ccol 0 (set_screenbegin 0 (set_offset 0 (set_vis_last_screenbegin 0
        (set_cindex 0 (set_refresh_old_offset 0 x))))))) H52). }
    assert (Hm' : mirrors s' (screen s') (Z.to_nat (rows s - 1)) 0 (screenbegin s')).
    { change (screenbegin s') with (screenbegin s5). rewrite Hsb5. change y with (screenbegin s2).
      change (screen s') with (screen s5). rewrite Hsc.
      assert (Hc : forall t e, line_end s2 t e -> line_end s' t e).
      { intros t e. apply (line_end_sframe s5 s2). done. }
      assert (Hrow : forall t e, line_row s' t e = line_row s2 t e).
      { intros t e. change (line_row s' t e) with (line_row s5 t e). by apply line_row_sframe. }
      assert (Hcol : columns s' = columns s2) by exact (f_equal columns H52).
      assert (Hend : endp s' = endp s2) by exact (f_equal endp H52).
      revert Hm3. generalize 0 (screenbegin s2) (Z.to_nat (rows s - 1)). intros li tp n. revert li tp.
      induction n as [|n IH]; intros li tp; [done|]. cbn [mirrors]. intros (e & He & Hw & Hm). exists e.
      split; [by apply Hc|]. split; [by rewrite Hcol, Hrow|]. apply IH. unfold after_line in *. by rewrite Hend. }
    apply HQ. split; [done| | |exact Hm'].
    - apply (drawable_tframe s); [done| | |change (offset s') with (offset s5); rewrite Ho5; by apply sy_o in Hsy|done].
      + change (screen s') with (screen s5). rewrite Hsc. exact Hl3.
      + change (screenbegin s') with (screenbegin s5). rewrite Hsb5. by apply sy_y in Hsy.
    - change (synced s (dot s) (screenbegin s5) (offset s5) (crow s5) (ccol s5)). rewrite Hsb5, Ho5.
      by rewrite (f_equal crow H52 : crow s5 = ro), (f_equal ccol H52 : ccol s5 = col). }
  do 2 wp_step. wp_step. wp_step.
  - wp_step. wp_step. apply Hfin.
  - wp_step. apply Hfin.
Qed.
