(* ===== verification/EvimStatus.v ===== *)
(** * evim: the rules of the status line and of the error signal

    show_status_line(), redraw() and indicate_error() only change what is on
    the display ([pframe]), from a state whose message, if there is one, fits
    on the status line ([settled]): a longer one makes Hit_Return() wait for
    a key. *)
From S2P Require Import Prelude EvimState EvimLine EvimSyntax EvimInput EvimTerm EvimEdit.
From S2P Require Import EvimNav EvimHole EvimUndo EvimColor EvimFormat EvimRefresh EvimDisplay.

(** ** Frames *)
(** all but the output and the status line *)
Definition lframe (s : Ed) : Ed :=
  set_have_status_msg 0 (set_last_status_cksum 0 (set_status_buffer [] (set_format_edit_status_tot 0
    (set_last_modified_count 0 (oframe s))))).
(** all but the display: what refresh() and the status line change *)
Definition pframe (s : Ed) : Ed :=
  set_have_status_msg 0 (set_last_status_cksum 0 (set_status_buffer [] (set_format_edit_status_tot 0
    (set_last_modified_count 0 (tframe s))))).

Lemma lframe_oframe s s' : oframe s' = oframe s -> lframe s' = lframe s.
Proof.
  intros H. exact (f_equal (fun x => set_have_status_msg 0 (set_last_status_cksum 0 (set_status_buffer []
    (set_format_edit_status_tot 0 (set_last_modified_count 0 x))))) H).
Qed.
Lemma pframe_lframe s s' : lframe s' = lframe s -> pframe s' = pframe s.
Proof.
  intros H. exact (f_equal (fun x => set_crow 0 (set_ccol 0 (set_screenbegin 0 (set_offset 0 (set_vis_last_screenbegin 0
    (set_cindex 0 (set_refresh_old_offset 0 (set_screen [] x)))))))) H).
Qed.
Lemma pframe_tframe s s' : tframe s' = tframe s -> pframe s' = pframe s.
Proof.
  intros H. exact (f_equal (fun x => set_have_status_msg 0 (set_last_status_cksum 0 (set_status_buffer []
    (set_format_edit_status_tot 0 (set_last_modified_count 0 x))))) H).
Qed.

(** the pending message needs no key to go on *)
Definition settled (s : Ed) : Prop :=
  have_status_msg s = 0 \/
  (columns s - 1 <? u32 (zlen (status_buffer s) - (have_status_msg s - 1))) = false.

(** ** The status line *)
Section status.
Context (E : fault -> Prop) (s : Ed) (Hwf : wf s) (Hd : text s <= dot s < endp s).

Lemma wp_edit_status_text s1 cur (Q : Z -> Ed -> Prop) :
  (forall n s', lframe s' = lframe s1 -> have_status_msg s' = have_status_msg s1 -> Q n s') ->
  wpe E (edit_status_text cur) Q s1.
Proof.
  intros HQ. unfold edit_status_text. do 2 wp_step. cbv zeta.
  destruct (0 <? format_edit_status_tot s1); do 5 wp_step; by apply HQ.
Qed.
Lemma wp_format_edit_status (Q : Z -> Ed -> Prop) :
  (forall n s', lframe s' = lframe s -> have_status_msg s' = have_status_msg s -> Q n s') ->
  wpe E format_edit_status Q s.
Proof using Hwf Hd.
  intros HQ. unfold format_edit_status. do 3 wp_step. apply (wp_count_lines s Hwf); [txt..|]. intros e _. do 2 wp_step.
  - wp_step. apply (wp_count_lines s Hwf); [txt..|]. intros e' _. wp_step. by apply wp_edit_status_text.
  - by apply wp_edit_status_text.
Qed.

Lemma wp_print_status s1 ck hit (Q : unit -> Ed -> Prop) : settled s1 ->
  (forall s', lframe s' = lframe s1 -> have_status_msg s' = 0 -> Q tt s') -> wpe E (print_status ck hit) Q s1.
Proof.
  intros Hs HQ. unfold print_status. do 3 wp_step. apply wp_hide_cursor. intros s2 H2. wp_step.
  unfold go_bottom_and_clear_to_eol. do 3 wp_step. apply wp_place_cursor. intros s3 H3. apply wp_puts.
  do 3 wp_step. apply wp_puts. wp_step. set (s4 := set_out _ (set_out _ s3)).
  assert (H4 : oframe s4 = oframe (set_last_status_cksum ck s1)).
  { change (oframe s3 = oframe (set_last_status_cksum ck s1)). by rewrite H3. }
  pose proof (lframe_oframe _ _ H4 : lframe s4 = lframe s1) as Hl4.
  assert (Hend : forall s5, lframe s5 = lframe s1 -> have_status_msg s5 = 0 -> wpe E
    (s <- get ;; place_cursor (crow s) (ccol s) ;; show_cursor) Q s5).
  { intros s5 H5 Hm5. do 3 wp_step. apply wp_place_cursor. intros s6 H6. apply wp_show_cursor. intros s7 H7.
    assert (Ho : oframe s7 = oframe s5) by congruence.
    apply HQ; [rewrite <- H5; by apply lframe_oframe|]. rewrite <- Hm5. exact (f_equal have_status_msg Ho). }
  assert (Hm : have_status_msg s4 = have_status_msg s1) by exact (f_equal have_status_msg H4).
  change (have_status_msg (set_out _ s3)) with (have_status_msg s4). rewrite Hm. wp_step.
  - change (columns (set_out _ s3)) with (columns s4). change (status_buffer (set_out _ s3)) with (status_buffer s4).
    rewrite (f_equal columns H4 : columns s4 = columns s1), (f_equal status_buffer H4 : status_buffer s4 = status_buffer s1).
    destruct Hs as [Hs|Hs]; [by rewrite Hs in *|]. rewrite Hs. unfold when at 1. do 4 wp_step. by apply Hend.
  - apply negb_false_iff, Z.eqb_eq in H. apply Hend; [done|congruence].
Qed.

Lemma wp_show_status_line_go fuel (Q : unit -> Ed -> Prop) : settled s ->
  (forall s', lframe s' = lframe s -> have_status_msg s' = 0 -> Q tt s') ->
  wpe E (show_status_line_go (S fuel)) Q s.
Proof using Hwf Hd.
  intros Hs HQ. cbn [show_status_line_go]. do 4 wp_step.
  - apply Z.eqb_eq in H. wp_step. apply wp_format_edit_status. intros n s1 H1 H2. do 3 wp_step.
    set (b := bufsum _ _). clearbody b. wp_step.
    + apply wp_print_status; [left; congruence|]. intros s' H3. apply HQ. congruence.
    + wp_step. apply HQ; [done|congruence].
  - do 2 wp_step.
    + by apply wp_print_status.
    + apply orb_false_iff in H0 as [H0 _]. by rewrite H in H0.
Qed.
Lemma wp_show_status_line (Q : unit -> Ed -> Prop) : settled s ->
  (forall s', lframe s' = lframe s -> have_status_msg s' = 0 -> Q tt s') -> wpe E show_status_line Q s.
Proof using Hwf Hd. apply wp_show_status_line_go. Qed.
End status.

(** ** Moving dot to the first nonblank, and into the text *)
Lemma wp_skip_over_ws E s (Q : unit -> Ed -> Prop) : wf s -> in_text s (dot s) -> dot s < endp s ->
  (forall d, dot s <= d < endp s -> (forall i, dot s <= i < d -> isspace (getb s i) = true /\ getb s i <> 10) ->
     (isspace (getb s d) = false \/ getb s d = 10 \/ d = endp s - 1) -> Q tt (set_dot d s)) ->
  wpe E dot_skip_over_ws Q s.
Proof.
  intros Hwf Hd Hlt HQ. unfold dot_skip_over_ws. do 3 wp_step.
  apply (wpe_iter E (fun v s' => s' = s /\ dot s <= v < endp s /\
    forall i, dot s <= i < v -> isspace (getb s i) = true /\ getb s i <> 10) (fun v _ => endp s - v)); [| |txt].
  2:{ split; [done|]. split; [lia|]. intros i Hi. lia. }
  intros v s' (-> & Hv & Hws). split; [lia|]. unfold skip_over_ws_body. wp_step. apply (wp_rd s Hwf); [txt|].
  do 3 wp_step.
  - apply andb_true_iff in H as [H Hve]. apply andb_true_iff in H as [Hsp H10]. wp_step.
    split; [|lia]. split; [done|]. split; [lia|]. intros i Hi. destruct (Z.eq_dec i v) as [->|]; [|apply Hws; lia].
    split; [done|]. intros E10. by rewrite E10 in H10.
  - wp_step. wp_step. apply HQ; [done|done|]. apply andb_false_iff in H as [H|H]; [|right; right; lia].
    apply andb_false_iff in H as [H|H]; [by left|right; left]. by apply negb_false_iff, Z.eqb_eq in H.
Qed.
Lemma bound_dot_ok s : dot s < endp s -> text s <= dot s -> bound_dot (dot s) s = Ok (dot s) s.
Proof.
  intros H1 H2. unfold bound_dot, bind, get. replace (endp s <=? dot s) with false by lia. cbn [andb ret].
  by replace (dot s <? text s) with false by lia.
Qed.
