(* ===== verification/EvimMotion.v ===== *)
(** * evim: cursor motions of normal mode

    [at_ease] is the state between two keys, in any mode, [moved] what a
    motion may do to it: the cursor, the marks and the display change, all the
    rest of the state does not.  Every motion of do_cmd() is shown to be
    [steady] (it is one step that also keeps the repetition count) or
    [walks] (a whole case of the switch). *)
From S2P Require Import Prelude EvimState EvimLine EvimSyntax EvimInput EvimTerm EvimEdit EvimEx EvimCmd.
From S2P Require Import EvimNav EvimHole EvimUndo EvimColor EvimFormat EvimRefresh EvimDisplay EvimStatus.

(** ** The state between two keys *)
(** all that a motion leaves alone *)
Definition mvframe (s : Ed) : Ed :=
  set_dot 0 (set_cmdcnt 0 (set_keep_index false (set_cmd_error false (set_mark [] (set_YDreg 0 (pframe s)))))).
(** what [at_ease] needs to be the same, besides the cursor and the display *)
Definition core (s : Ed) := (text s, endp s, text_size s, mem s, rows s, columns s, tabstop s, vi_visual s, undo_q s).
(** and what the loop around do_cmd() leaves alone: it also reads keys, which
    it may record for ".", and keeps a copy of the current line in a register *)
Definition loframe (s : Ed) : Ed :=
  set_input [] (set_readbuffer [] (set_lmc_len 0 (set_last_modifying_cmd []
    (set_reg [] (set_regtype [] (set_reg_next 0%nat (set_edit_file_cur_line 0 (mvframe s)))))))).
Record at_ease (s : Ed) : Prop := mkEase {
  ae_draw : drawable s;
  ae_dot : dot s < endp s;
  ae_sb : screenbegin s < endp s;
  ae_nl : ends_nl s;
  ae_marks : length (mark s) = 28%nat;
  ae_vis : vi_visual s = 0;
  ae_queue : undo_q s = 0;
  ae_msg : settled s
}.
(** normal mode, and no command is being recorded for "." *)
Definition normal (s : Ed) : Prop := cmd_mode s = 0 /\ adding2q s = false.
Definition moved (s s' : Ed) : Prop := at_ease s' /\ mvframe s' = mvframe s.

Lemma mvframe_pframe s s' : pframe s' = pframe s -> mvframe s' = mvframe s.
Proof.
  intros H. exact (f_equal (fun x => set_dot 0 (set_cmdcnt 0 (set_keep_index false (set_cmd_error false (set_mark []
    (set_YDreg 0 x)))))) H).
Qed.
Lemma moved_refl s : at_ease s -> moved s s.
Proof. by split. Qed.
Lemma moved_trans s1 s2 s3 : moved s1 s2 -> moved s2 s3 -> moved s1 s3.
Proof. intros [_ H1] [H2 H3]. split; congruence. Qed.
Lemma moved_ease s s' : moved s s' -> at_ease s'.
Proof. by intros []. Qed.
Lemma moved_text s s' : moved s s' -> text s' = text s.
Proof. intros [_ H]. exact (f_equal text H). Qed.
Lemma moved_endp s s' : moved s s' -> endp s' = endp s.
Proof. intros [_ H]. exact (f_equal endp H). Qed.

Lemma moved_mode s s' : moved s s' -> cmd_mode s' = cmd_mode s.
Proof. intros [_ H]. exact (f_equal cmd_mode H). Qed.
Lemma moved_normal s s' : moved s s' -> normal s -> normal s'.
Proof.
  intros [_ H] []. by split; rewrite ?(f_equal cmd_mode H : cmd_mode s' = cmd_mode s), ?(f_equal adding2q H : adding2q s' = adding2q s).
Qed.

Section ease.
Context (s : Ed) (Hs : at_ease s).

Lemma ease_wf : wf s.
Proof using Hs. by destruct Hs as [[] _ _ _ _ _ _ _]. Qed.
Lemma ease_dot : text s <= dot s < endp s.
Proof using Hs. destruct Hs as [[_ _ Hd _ _] ? _ _ _ _ _ _]. txt. Qed.
Lemma ease_sb : text s <= screenbegin s < endp s.
Proof using Hs. destruct Hs as [[_ _ _ Hd _] _ ? _ _ _ _ _]. txt. Qed.
Lemma ease_nl : getb s (endp s - 1) = 10.
Proof using Hs. destruct Hs as [_ _ _ [] _ _ _ _]. done. Qed.
Lemma ease_geo : geometry s.
Proof using Hs. by destruct Hs as [[] _ _ _ _ _ _ _]. Qed.

(** what to show for a state that is at ease again *)
Lemma ease_same s' : core s' = core s -> text s <= dot s' < endp s -> text s <= screenbegin s' < endp s ->
  0 <= offset s' -> length (screen s') = length (screen s) -> length (mark s') = 28%nat -> settled s' -> at_ease s'.
Proof using Hs.
  intros H Hd Hsb Ho Hsc Hm Hse. destruct Hs as [[Hwf [] Hd0 Hsb0 Hsz] _ _ [Hn1 Hn2] _ Hvis Hq _].
  injection H as Ht He Hts Hmem Hro Hco Hta Hvi Huq.
  split; rewrite ?He; try done; try lia.
  - split; unfold in_text; rewrite ?Ht, ?He; try lia.
    + by apply (wf_same s).
    + split; rewrite ?Hro, ?Hco, ?Hta; try done. unfold zlen in *. by rewrite Hsc.
  - split; [by rewrite Ht, He|]. unfold getb, off. by rewrite Ht, He, Hmem.
Qed.
(** a change of variables that [at_ease] does not look at *)
Lemma ease_vars s' : core s' = core s -> dot s' = dot s -> screenbegin s' = screenbegin s -> offset s' = offset s ->
  screen s' = screen s -> mark s' = mark s -> have_status_msg s' = have_status_msg s -> status_buffer s' = status_buffer s ->
  at_ease s'.
Proof using Hs.
  intros H Hd Hsb Ho Hsc Hm Hst Hbuf. pose proof ease_dot. pose proof ease_sb. pose proof ease_geo as [].
  pose proof (ae_marks s Hs). pose proof (ae_msg s Hs) as Hse.
  apply ease_same; rewrite ?Hd, ?Hsb, ?Ho, ?Hsc, ?Hm; try done.
  unfold settled in *. injection H as _ _ _ _ _ Hco _ _ _. by rewrite Hst, Hbuf, Hco.
Qed.
Lemma moved_same s' : mvframe s' = mvframe s -> text s <= dot s' < endp s -> text s <= screenbegin s' < endp s ->
  0 <= offset s' -> length (screen s') = length (screen s) -> length (mark s') = 28%nat -> settled s' -> moved s s'.
Proof using Hs.
  intros H Hd Hsb Ho Hsc Hm Hse. split; [|done]. apply ease_same; [exact (f_equal core H)|done..].
Qed.

Lemma moved_dot q : text s <= q < endp s -> moved s (set_dot q s).
Proof using Hs.
  intros Hq. pose proof ease_sb. pose proof ease_geo as []. destruct Hs as [_ _ _ _ ? _ _ ?]. by apply moved_same.
Qed.
Lemma moved_sb q : text s <= q < endp s -> moved s (set_screenbegin q s).
Proof using Hs.
  intros Hq. pose proof ease_dot. pose proof ease_geo as []. destruct Hs as [_ _ _ _ ? _ _ ?]. by apply moved_same.
Qed.
(** a change of other variables that a motion may touch *)
Lemma moved_vars s' : mvframe s' = mvframe s -> dot s' = dot s -> screenbegin s' = screenbegin s -> offset s' = offset s ->
  screen s' = screen s -> mark s' = mark s -> have_status_msg s' = have_status_msg s -> status_buffer s' = status_buffer s ->
  moved s s'.
Proof using Hs.
  intros H Hd Hsb Ho Hsc Hm Hst Hbuf. pose proof ease_dot. pose proof ease_sb. pose proof ease_geo as [].
  destruct Hs as [_ _ _ _ ? _ _ Hse]. apply moved_same; rewrite ?Hd, ?Hsb, ?Ho, ?Hsc, ?Hm; try done.
  unfold settled in *. by rewrite Hst, Hbuf, (f_equal columns H : columns s' = columns s).
Qed.
End ease.

(** ** Steps *)
(** an operation of at-ease states that moves and keeps the count *)
Definition steady (m : EM unit) : Prop := forall E s (Q : unit -> Ed -> Prop), at_ease s ->
  (forall s', moved s s' -> cmdcnt s' = cmdcnt s -> Q tt s') -> wpe E m Q s.

Create HintDb steady discriminated.
#[export] Hint Constants Opaque : steady.

Lemma steady_ret : steady (ret tt).
Proof. intros E s Q Hs HQ. wp_step. apply HQ; [by apply moved_refl|done]. Qed.
Lemma steady_seq m1 m2 : steady m1 -> steady m2 -> steady (m1 ;; m2).
Proof.
  intros H1 H2 E s Q Hs HQ. wp_step. apply H1; [done|]. intros s1 Hm1 Hc1. apply H2; [by eapply moved_ease|].
  intros s2 Hm2 Hc2. apply HQ; [by eapply moved_trans|congruence].
Qed.
Lemma steady_if (b : bool) m1 m2 : steady m1 -> steady m2 -> steady (if b then m1 else m2).
Proof. by destruct b. Qed.
Lemma steady_get m : (forall s, at_ease s -> forall E (Q : unit -> Ed -> Prop),
    (forall s', moved s s' -> cmdcnt s' = cmdcnt s -> Q tt s') -> wpe E (m s) Q s) -> steady (s <- get ;; m s).
Proof. intros H E s Q Hs HQ. do 2 wp_step. by apply H. Qed.
#[export] Hint Resolve steady_ret steady_seq steady_if : steady.

(** ** The display *)
Lemma settled_pframe_msg s s' : have_status_msg s' = have_status_msg s -> status_buffer s' = status_buffer s ->
  columns s' = columns s -> settled s -> settled s'.
Proof. unfold settled. by intros -> -> ->. Qed.

(** an operation of at-ease states that only changes the display *)
Definition displays (m : EM unit) : Prop := forall E s (Q : unit -> Ed -> Prop), at_ease s ->
  (forall s', moved s s' -> pframe s' = pframe s -> Q tt s') -> wpe E m Q s.
Lemma displays_steady m : displays m -> steady m.
Proof. intros H E s Q Hs HQ. apply H; [done|]. intros s' Hm Hf. apply HQ; [done|exact (f_equal cmdcnt Hf)]. Qed.
Lemma displays_seq m1 m2 : displays m1 -> displays m2 -> displays (m1 ;; m2).
Proof.
  intros H1 H2 E s Q Hs HQ. wp_step. apply H1; [done|]. intros s1 Hm1 Hf1. apply H2; [by eapply moved_ease|].
  intros s2 Hm2 Hf2. apply HQ; [by eapply moved_trans|congruence].
Qed.
#[export] Hint Resolve displays_seq : steady.

Lemma wp_ease_status E s (Q : unit -> Ed -> Prop) : at_ease s ->
  (forall s', moved s s' -> lframe s' = lframe s -> Q tt s') -> wpe E show_status_line Q s.
Proof.
  intros Hs HQ. apply wp_show_status_line; [by apply ease_wf|by apply ease_dot|by destruct Hs|].
  intros s' Hl Hm. apply HQ; [|done]. pose proof (ease_dot s Hs). pose proof (ease_sb s Hs).
  pose proof (ease_geo s Hs) as []. destruct Hs as [? ? ? ? Hmk ? ? ?]. apply moved_same; [by split| | | | | | |by left].
  - by apply mvframe_pframe, pframe_lframe.
  - by rewrite (f_equal dot Hl : dot s' = dot s).
  - by rewrite (f_equal screenbegin Hl : screenbegin s' = screenbegin s).
  - by rewrite (f_equal offset Hl : offset s' = offset s).
  - by rewrite (f_equal screen Hl : screen s' = screen s).
  - by rewrite (f_equal mark Hl : mark s' = mark s).
Qed.
Lemma displays_show_status_line : displays show_status_line.
Proof. intros E s Q Hs HQ. apply wp_ease_status; [done|]. intros s' Hm Hl. apply HQ; [done|by apply pframe_lframe]. Qed.
Lemma displays_refresh full : displays (refresh full).
Proof.
  intros E s Q Hs HQ. apply wp_refresh; [by destruct Hs|]. intros s' [Hf Hd Hsy _].
  apply HQ; [|by apply pframe_tframe]. pose proof (ease_dot s Hs). pose proof (ease_sb s Hs).
  destruct Hsy as [Hy Hb Ho _ _ _ _]. destruct Hd as [_ [_ _ _ _ Hsc'] _ _ _]. pose proof (ease_geo s Hs) as [_ _ _ _ Hsc].
  destruct Hs as [? ? ? ? Hmk ? ? Hse]. apply moved_same; [by split| | | |done| | |].
  - by apply mvframe_pframe, pframe_tframe.
  - by rewrite (f_equal dot Hf : dot s' = dot s).
  - split; [txt|by apply Hb].
  - rewrite (f_equal rows Hf : rows s' = rows s), (f_equal columns Hf : columns s' = columns s) in Hsc'.
    unfold zlen in *. lia.
  - by rewrite (f_equal mark Hf : mark s' = mark s).
  - apply (settled_pframe_msg s); [exact (f_equal have_status_msg Hf)|exact (f_equal status_buffer Hf)|exact (f_equal columns Hf)|done].
Qed.
Lemma displays_puts bs : displays (puts_no_eol bs).
Proof.
  intros E s Q Hs HQ. apply wp_puts. assert (H : oframe (set_out (out s ++ bs) s) = oframe s) by reflexivity.
  apply HQ; [|by apply pframe_lframe, lframe_oframe].
  apply moved_vars; [done|by apply mvframe_pframe, pframe_lframe, lframe_oframe|reflexivity..].
Qed.
Lemma displays_screen_erase : displays screen_erase.
Proof.
  intros E s Q Hs HQ. unfold screen_erase. wp_step. apply HQ; [|done]. pose proof (ease_dot s Hs). pose proof (ease_sb s Hs).
  pose proof (ease_geo s Hs) as []. destruct Hs as [? ? ? ? Hmk ? ? Hse]. apply moved_same; try done.
  simpl. by rewrite length_replicate.
Qed.
Lemma displays_status_cksum n : displays (modify (set_last_status_cksum n)).
Proof. intros E s Q Hs HQ. wp_step. apply HQ; [by apply moved_vars|done]. Qed.
#[export] Hint Resolve displays_show_status_line displays_refresh displays_puts displays_screen_erase displays_status_cksum : steady.
Lemma displays_redraw full : displays (redraw full).
Proof. unfold redraw. auto 6 with steady. Qed.
#[export] Hint Resolve displays_redraw : steady.
#[export] Hint Extern 4 (steady _) => apply displays_steady; solve [auto 2 with steady nocore] : steady.
(** a variable that every motion may change *)
Lemma steady_modify f : (forall s, at_ease s -> moved s (f s)) -> (forall s, cmdcnt (f s) = cmdcnt s) -> steady (modify f).
Proof. intros H1 H2 E s Q Hs HQ. wp_step. apply HQ; [by apply H1|by apply H2]. Qed.
Ltac steady_var := apply steady_modify; [intros; by apply moved_vars|done].

Lemma steady_puts bs : steady (puts_no_eol bs).
Proof. apply displays_steady, displays_puts. Qed.
Lemma steady_indicate_error : steady indicate_error.
Proof.
  unfold indicate_error. apply steady_seq; [steady_var|]. apply steady_get. intros s Hs E Q HQ. wp_step.
  - by apply steady_puts.
  - unfold flash, standout_start, standout_end. revert HQ. apply (steady_seq _ _ (steady_puts _)); [|done].
    auto with steady.
Qed.
#[export] Hint Resolve steady_puts steady_indicate_error : steady.

(** ** Finding addresses *)
(** a routine that only reads, and answers an address of the text *)
Definition finds (f : Z -> EM Z) : Prop := forall E s p (Q : Z -> Ed -> Prop), at_ease s ->
  text s <= p < endp s -> (forall q, text s <= q < endp s -> Q q s) -> wpe E (f p) Q s.

Lemma finds_begin_line : finds begin_line.
Proof.
  intros E s p Q Hs Hp HQ. apply (wp_begin_line s (ease_wf s Hs)); [txt|]. intros b (? & _). apply HQ. lia.
Qed.
Lemma finds_end_line : finds end_line.
Proof.
  intros E s p Q Hs Hp HQ. apply (wp_end_line s (ease_wf s Hs)); [txt|]. intros e (? & _). apply HQ. lia.
Qed.
Lemma finds_next_line : finds next_line.
Proof.
  intros E s p Q Hs Hp HQ. apply (wp_next_line s (ease_wf s Hs)); [txt|]. intros q Hq. apply HQ.
  pose proof (next_of_lt s p q Hq ltac:(lia)). destruct (next_of_range s p q Hq ltac:(txt)). lia.
Qed.
Lemma finds_prev_line : finds prev_line.
Proof.
  intros E s p Q Hs Hp HQ. apply (wp_prev_line s (ease_wf s Hs)); [txt|]. intros q Hq. apply HQ.
  pose proof (prev_of_range s p q Hq ltac:(txt)). lia.
Qed.
Lemma finds_move_to_col l : finds (fun p => move_to_col p l).
Proof.
  intros E s p Q Hs Hp HQ. pose proof (ease_geo s Hs) as [_ _ Ht _ _].
  apply (wp_move_to_col s (ease_wf s Hs)); [lia|txt|]. intros b q (Hb & _) Hq Hn _ _. apply HQ.
  destruct (Z.lt_ge_cases q (endp s)) as [|Hge]; [lia|]. exfalso.
  apply (Hn (endp s - 1)); [lia|by apply ease_nl].
Qed.
Lemma finds_fold n f : finds f -> finds (fold_n n f).
Proof.
  intros Hf E s p Q Hs Hp HQ. apply (wp_fold_n s E n f (fun a => text s <= a < endp s)); [|done|done].
  intros a R Ha HR. by apply Hf.
Qed.
Lemma finds_find_line E s li (Q : Z -> Ed -> Prop) : at_ease s ->
  (forall q, text s <= q < endp s -> Q q s) -> wpe E (find_line li) Q s.
Proof.
  intros Hs HQ. unfold find_line. do 2 wp_step. apply (finds_fold _ _ finds_next_line); [done| |done].
  pose proof (ease_dot s Hs). lia.
Qed.
Lemma finds_end_screen E s (Q : Z -> Ed -> Prop) : at_ease s ->
  (forall q, text s <= q < endp s -> Q q s) -> wpe E end_screen Q s.
Proof.
  intros Hs HQ. unfold end_screen. do 3 wp_step. apply (finds_fold _ _ finds_next_line); [done|by apply ease_sb|].
  intros q Hq. by apply finds_end_line.
Qed.

(** ** Moving dot *)
Lemma steady_commit : steady undo_queue_commit.
Proof.
  intros E s Q Hs HQ. destruct (Hs) as [_ _ _ _ _ _ Hq _].
  apply wp_undo_queue_commit; [rewrite Hq; done|]. unfold committed. rewrite Hq. apply HQ; [by apply moved_refl|done].
Qed.
Lemma steady_set_dot_from (m : Ed -> EM Z) : (forall E s (Q : Z -> Ed -> Prop), at_ease s ->
    (forall q, text s <= q < endp s -> Q q s) -> wpe E (m s) Q s) ->
  steady (s <- get ;; set_dot_from (m s)).
Proof.
  intros H. apply steady_get. intros s Hs E Q HQ. unfold set_dot_from. wp_step. apply H; [done|].
  intros q Hq. wp_step. apply HQ; [by apply moved_dot|done].
Qed.
Lemma steady_dot_to f : finds f -> steady (dot_to f).
Proof.
  intros Hf E s Q Hs HQ. unfold dot_to. do 3 wp_step. apply Hf; [done|by apply ease_dot|]. intros q Hq. wp_step.
  apply HQ; [by apply moved_dot|done].
Qed.
#[export] Hint Resolve steady_commit steady_dot_to finds_begin_line finds_end_line finds_next_line finds_prev_line : steady.
Lemma steady_dot_begin : steady dot_begin.
Proof. unfold dot_begin. auto with steady. Qed.
Lemma steady_dot_end : steady dot_end.
Proof. unfold dot_end. auto with steady. Qed.
Lemma steady_dot_next : steady dot_next.
Proof. unfold dot_next. auto with steady. Qed.
Lemma steady_dot_prev : steady dot_prev.
Proof. unfold dot_prev. auto with steady. Qed.
Lemma steady_dot_left : steady dot_left.
Proof.
  apply steady_seq; [apply steady_commit|]. apply steady_get. intros s Hs E Q HQ. pose proof (ease_dot s Hs). wp_step.
  - apply Z.ltb_lt in H0. wp_step. apply (wp_rd s (ease_wf s Hs)); [txt|]. wp_step; [wp_step|]; apply HQ; try done.
    apply moved_dot; [done|lia].
  - wp_step. apply HQ; [by apply moved_refl|done].
Qed.
Lemma steady_dot_right : steady dot_right.
Proof.
  apply steady_seq; [apply steady_commit|]. apply steady_get. intros s Hs E Q HQ. pose proof (ease_dot s Hs). wp_step.
  - apply Z.ltb_lt in H0. wp_step. apply (wp_rd s (ease_wf s Hs)); [txt|]. wp_step; [wp_step|]; apply HQ; try done.
    apply moved_dot; [done|lia].
  - wp_step. apply HQ; [by apply moved_refl|done].
Qed.
Lemma steady_skip_over_ws : steady dot_skip_over_ws.
Proof.
  intros E s Q Hs HQ. pose proof (ease_dot s Hs). apply wp_skip_over_ws; [by apply ease_wf|txt|lia|].
  intros d Hd _ _. apply HQ; [apply moved_dot; [done|lia]|done].
Qed.
#[export] Hint Resolve steady_dot_begin steady_dot_end steady_dot_next steady_dot_prev steady_dot_left
  steady_dot_right steady_skip_over_ws : steady.

Lemma steady_dot_scroll n dir : steady (dot_scroll n dir).
Proof.
  unfold dot_scroll. apply steady_seq; [apply steady_commit|]. apply steady_seq.
  { intros E s Q Hs HQ. eapply wpe_mono; [apply (wpe_repeat E (fun _ s' => moved s s' /\ cmdcnt s' = cmdcnt s))|].
    - intros j s1 Hj [Hm Hc]. pose proof (moved_ease _ _ Hm) as Hs1. pose proof (ease_sb s1 Hs1).
      do 3 wp_step. assert (Hset : forall q, text s1 <= q < endp s1 -> wpe E (modify (set_screenbegin q))
        (fun _ s' => moved s s' /\ cmdcnt s' = cmdcnt s) s1).
      { intros q Hq. wp_step. split; [|done]. eapply moved_trans; [done|]. by apply moved_sb. }
      wp_step; [by apply finds_prev_line|by apply finds_next_line].
    - split; [by apply moved_refl|done].
    - intros [] s' []. by apply HQ. }
  apply steady_get. intros s Hs E Q HQ. pose proof (ease_sb s Hs). pose proof (ease_dot s Hs).
  assert (Hrest : forall s1, moved s s1 -> cmdcnt s1 = cmdcnt s -> wpe E (q <- end_screen ;;
    s <- get ;; (if q <? dot s then b <- begin_line q ;; modify (set_dot b) else ret tt) ;; dot_skip_over_ws) Q s1).
  { intros s1 Hm Hc. pose proof (moved_ease _ _ Hm) as Hs1. wp_step. apply finds_end_screen; [done|]. intros q Hq.
    do 2 wp_step.
    assert (Hend : forall s2, moved s1 s2 -> cmdcnt s2 = cmdcnt s1 -> wpe E dot_skip_over_ws Q s2).
    { intros s2 Hm2 Hc2. apply steady_skip_over_ws; [by eapply moved_ease|]. intros s3 Hm3 Hc3.
      apply HQ; [by do 2 (eapply moved_trans; [eassumption|])|congruence]. }
    do 2 wp_step.
    - wp_step. apply finds_begin_line; [done|done|]. intros b Hb. wp_step. apply Hend; [by apply moved_dot|done].
    - wp_step. apply Hend; [by apply moved_refl|done]. }
  do 2 wp_step.
  - wp_step. apply Hrest; [apply moved_dot; [done|lia]|done].
  - apply Hrest; [by apply moved_refl|done].
Qed.

(** a motion leaves the text alone *)
Lemma moved_mem s s' : moved s s' -> mem s' = mem s.
Proof. intros [_ H]. exact (f_equal mem H). Qed.
Lemma getb_moved s s' p : moved s s' -> getb s' p = getb s p.
Proof. intros H. unfold getb, off. by rewrite (moved_mem s), (moved_text s). Qed.
Lemma bol_of_moved s s' p b : moved s s' -> bol_of s p b -> bol_of s' p b.
Proof.
  intros H (H1 & H2 & H3). unfold bol_of, none_in. rewrite (moved_text s s' H). split; [done|].
  split; [by rewrite (getb_moved s)|]. intros i Hi. rewrite (getb_moved s) by done. by apply H3.
Qed.
Lemma line_start_moved s s' p : moved s s' -> line_start s p -> line_start s' p.
Proof. apply bol_of_moved. Qed.
Lemma nls_moved s s' a b : moved s s' -> nls s' a b = nls s a b.
Proof. intros H. unfold nls, cnt, bytes_at, off. by rewrite (moved_mem s), (moved_text s). Qed.
Lemma moved_sym s s' : at_ease s -> moved s s' -> moved s' s.
Proof. by intros ? []. Qed.
Lemma eol_of_moved s s' p e : moved s s' -> eol_of s p e -> eol_of s' p e.
Proof.
  intros H (H1 & H2 & H3). unfold eol_of, none_in. rewrite (moved_endp s s' H). split; [done|].
  split; [intros i Hi; rewrite (getb_moved s) by done; by apply H2|]. by rewrite (getb_moved s).
Qed.
