(* ===== verification/EvimWalk.v ===== *)
(** * evim: the motions of do_cmd()

    Each case of the switch of do_cmd() that is a motion [walks]: with any
    repetition count up to nine digits it ends, at the label dc1 or dc6, in a
    state that it may have [moved] to. *)
From S2P Require Import Prelude EvimState EvimLine EvimSyntax EvimInput EvimTerm EvimEdit EvimEx EvimCmd.
From S2P Require Import EvimNav EvimHole EvimUndo EvimColor EvimFormat EvimRefresh EvimDisplay EvimStatus EvimMotion.

(** a repetition count of up to nine digits *)
Definition counted (s : Ed) : Prop := 0 <= cmdcnt s < 10 ^ 9.
Definition walks (m : EM label) : Prop := forall E s (Q : label -> Ed -> Prop), at_ease s -> counted s ->
  (forall l s', moved s s' -> l = Dc1 \/ l = Dc6 -> Q l s') -> wpe E m Q s.

Lemma walks_ret l : l = Dc1 \/ l = Dc6 -> walks (ret l).
Proof. intros Hl E s Q Hs Hc HQ. wp_step. apply HQ; [by apply moved_refl|done]. Qed.
Lemma walks_Dc1 : walks (ret Dc1).
Proof. apply walks_ret. by left. Qed.
Lemma walks_seq m k : steady m -> walks k -> walks (m ;; k).
Proof.
  intros Hm Hk E s Q Hs Hc HQ. wp_step. apply Hm; [done|]. intros s1 Hm1 Hc1.
  apply Hk; [by eapply moved_ease|unfold counted in *; lia|]. intros l s2 Hm2 Hl. apply HQ; [by eapply moved_trans|done].
Qed.
Lemma walks_get m : (forall s, at_ease s -> counted s -> forall E (Q : label -> Ed -> Prop),
    (forall l s', moved s s' -> l = Dc1 \/ l = Dc6 -> Q l s') -> wpe E (m s) Q s) -> walks (s <- get ;; m s).
Proof. intros H E s Q Hs Hc HQ. do 2 wp_step. by apply H. Qed.
(** the end of a case that went on from [s] to [s1] *)
Lemma walks_end E s s1 m (Q : label -> Ed -> Prop) : steady m -> moved s s1 ->
  (forall l s', moved s s' -> l = Dc1 \/ l = Dc6 -> Q l s') -> wpe E (m ;; ret Dc1) Q s1.
Proof.
  intros H Hm HQ. wp_step. apply H; [by eapply moved_ease|]. intros s' Hm' _. wp_step.
  apply HQ; [by eapply moved_trans|by left].
Qed.

(** ** The loops over the repetition count *)
Lemma moved_cnt s n : at_ease s -> moved s (set_cmdcnt n s).
Proof. intros Hs. by apply moved_vars. Qed.
Lemma i32_count n : 0 <= n < 10 ^ 9 -> i32 (n - 1) = n - 1.
Proof. intros H. apply i32_small. lia. Qed.

Lemma wp_do_cmdcnt E body s (Q : unit -> Ed -> Prop) : steady body -> at_ease s -> counted s ->
  (forall s', moved s s' -> Q tt s') -> wpe E (do_cmdcnt body) Q s.
Proof.
  intros Hb Hs Hc HQ. unfold do_cmdcnt. do 2 wp_step.
  apply (wpe_iter E (fun _ s' => moved s s' /\ counted s') (fun _ s' => cmdcnt s')); [| |unfold counted in Hc; lia].
  2:{ split; [by apply moved_refl|done]. }
  intros [] s1 [Hm Hc1]. split; [apply Hc1|]. unfold cmdcnt_body. wp_step. apply Hb; [by eapply moved_ease|].
  intros s2 Hm2 Hcnt. unfold counted in *. do 3 wp_step. rewrite i32_count by lia. wp_step.
  set (s3 := set_cmdcnt _ s2). assert (moved s s3).
  { eapply moved_trans; [done|]. eapply moved_trans; [done|]. apply moved_cnt. by eapply moved_ease. }
  change (cmdcnt s3) with (cmdcnt s2 - 1). destruct (Z.ltb_spec 0 (cmdcnt s2 - 1)); [split; [split; [done|]|]|by apply HQ].
  - simpl. lia.
  - simpl. lia.
Qed.

(** the loop with a local variable, of which [I] holds *)
Lemma wp_do_cmdcnt_var {A B} E (I : A -> Prop) (body : A -> EM (A + B)) a s (Q : A + B -> Ed -> Prop) :
  (forall a s1 (R : A + B -> Ed -> Prop), moved s s1 -> I a ->
     (forall r s', moved s1 s' -> cmdcnt s' = cmdcnt s1 -> (forall a', r = inl a' -> I a') -> R r s') -> wpe E (body a) R s1) ->
  at_ease s -> counted s -> I a ->
  (forall r s', moved s s' -> (forall a', r = inl a' -> I a') -> Q r s') -> wpe E (do_cmdcnt_var body a) Q s.
Proof.
  intros Hb Hs Hc Ha HQ. unfold do_cmdcnt_var. do 2 wp_step.
  apply (wpe_iter E (fun a s' => moved s s' /\ counted s' /\ I a) (fun _ s' => cmdcnt s')); [| |unfold counted in Hc; lia].
  2:{ split; [by apply moved_refl|done]. }
  intros a1 s1 (Hm & Hc1 & Ha1). split; [apply Hc1|]. unfold cmdcnt_var_body. wp_step. apply Hb; [done|done|].
  intros [a2|b] s2 Hm2 Hcnt Ha2.
  - unfold counted in *. do 3 wp_step. rewrite i32_count by lia. wp_step.
    set (s3 := set_cmdcnt _ s2). assert (moved s s3).
    { eapply moved_trans; [done|]. eapply moved_trans; [done|]. apply moved_cnt. by eapply moved_ease. }
    change (cmdcnt s3) with (cmdcnt s2 - 1). destruct (Z.ltb_spec 0 (cmdcnt s2 - 1)).
    + split; [split; [done|]|].
      * simpl. split; [lia|by apply Ha2].
      * simpl. lia.
    + apply HQ; [done|]. intros a' [= <-]. by apply Ha2.
  - wp_step. apply HQ; [by eapply moved_trans|done].
Qed.
Lemma walks_do_cmdcnt body : steady body -> walks (do_cmdcnt body ;; ret Dc1).
Proof.
  intros Hb E s Q Hs Hc HQ. wp_step. apply wp_do_cmdcnt; [done..|]. intros s' Hm. wp_step. apply HQ; [done|by left].
Qed.

(** ** Lines *)
Lemma steady_to_saved_column : steady to_saved_column.
Proof.
  unfold to_saved_column. apply steady_get. intros s Hs E Q HQ. unfold set_dot_from. wp_step. wp_step.
  assert (Hset : forall q, text s <= q < endp s -> wpe E (modify (set_dot q)) (fun _ s' => wpe E (modify (set_keep_index true)) Q s') s).
  { intros q Hq. do 2 wp_step. apply HQ; [|done]. pose proof (moved_dot s Hs q Hq).
    eapply moved_trans; [done|]. apply moved_vars; [by eapply moved_ease|done..]. }
  wp_step; [apply finds_end_line|apply (finds_move_to_col (cindex s))]; try done; by apply ease_dot.
Qed.
#[export] Hint Resolve steady_to_saved_column : steady.
(** what j and k do when the line was found *)
Lemma walks_to_line E s s1 q (b : bool) (Q : label -> Ed -> Prop) : moved s s1 -> text s <= q < endp s ->
  (forall l s', moved s s' -> l = Dc1 \/ l = Dc6 -> Q l s') ->
  wpe E (modify (set_dot q) ;; (if b then dot_skip_over_ws else to_saved_column) ;; ret Dc1) Q s1.
Proof.
  intros Hm Hq HQ. do 2 wp_step. apply (walks_end E s); [auto with steady| |done]. eapply moved_trans; [done|].
  apply moved_dot; [by eapply moved_ease|]. by rewrite (moved_text s), (moved_endp s).
Qed.
(** [count] lines, by [f]; it stops where [f] answers what [g] does *)
Lemma walks_lines f g (b : bool) : finds f -> finds g -> walks
  (d <- gets dot ;;
   r <- do_cmdcnt_var (fun q => p <- f q ;; e <- g q ;; if p =? e then indicate_error ;; ret (inr tt) else ret (inl p)) d ;;
   match r with
   | inr _ => ret Dc1
   | inl q => modify (set_dot q) ;; (if b then dot_skip_over_ws else to_saved_column) ;; ret Dc1
   end).
Proof.
  intros Hf Hg E s Q Hs Hc HQ. do 3 wp_step.
  apply (wp_do_cmdcnt_var E (fun q => text s <= q < endp s)); [|done|done|by apply ease_dot|].
  - intros q s1 R Hm Hq HR. pose proof (moved_ease _ _ Hm) as Hs1. rewrite <- (moved_text s s1), <- (moved_endp s s1) in * by done.
    wp_step. apply Hf; [done|done|]. intros p Hp. wp_step. apply Hg; [done|done|]. intros e He. wp_step.
    + wp_step. apply steady_indicate_error; [done|]. intros s' Hm' Hc'. wp_step. by apply HR.
    + wp_step. apply HR; [by apply moved_refl|done|]. by intros a' [= <-].
  - intros [q|[]] s1 Hm Hq.
    + apply (walks_to_line E s); [done|by apply Hq|done].
    + wp_step. apply HQ; [done|by left].
Qed.
Lemma walks_cmd_down c : walks (cmd_down c).
Proof. apply (walks_lines _ _ ((c =? 13) || (c =? 43)) finds_next_line finds_end_line). Qed.
Lemma walks_cmd_up c : walks (cmd_up c).
Proof. apply (walks_lines _ _ (c =? 45) finds_prev_line finds_begin_line). Qed.

Lemma walks_cmd_dollar : walks cmd_dollar.
Proof.
  intros E s Q Hs Hc HQ. unfold cmd_dollar. do 3 wp_step.
  apply (wpe_iter E (fun _ s' => moved s s' /\ counted s') (fun _ s' => cmdcnt s')); [| |unfold counted in Hc; lia].
  2:{ split; [by apply moved_refl|done]. }
  intros [] s1 [Hm Hc1]. split; [apply Hc1|]. unfold dollar_body. wp_step.
  apply steady_dot_to; [apply finds_end_line|by eapply moved_ease|]. intros s2 Hm2 Hcnt. unfold counted in *.
  do 3 wp_step. rewrite i32_count by lia. wp_step. set (s3 := set_cmdcnt _ s2). assert (Hm3 : moved s s3).
  { eapply moved_trans; [done|]. eapply moved_trans; [done|]. apply moved_cnt. by eapply moved_ease. }
  change (cmdcnt s3) with (cmdcnt s2 - 1). wp_step.
  - do 3 wp_step. apply HQ; [|by left]. eapply moved_trans; [done|]. apply moved_vars; [by eapply moved_ease|done..].
  - wp_step. apply steady_dot_next; [by eapply moved_ease|]. intros s4 Hm4 Hc4. wp_step.
    change (cmdcnt s3) with (cmdcnt s2 - 1) in Hc4. split; [split; [by eapply moved_trans|lia]|lia].
Qed.
Lemma walks_cmd_G : walks cmd_G.
Proof.
  unfold cmd_G. apply walks_get. intros s Hs Hc E Q HQ. pose proof (ease_dot s Hs). do 2 wp_step.
  assert (Hm1 : moved s (set_dot (endp s - 1) s)) by (apply moved_dot; [done|lia]).
  assert (Hend : forall s1, moved s s1 -> wpe E (dot_begin ;; dot_skip_over_ws ;; ret Dc1) Q s1).
  { intros s1 Hm. wp_step. apply steady_dot_begin; [by eapply moved_ease|]. intros s2 Hm2 _.
    apply (walks_end E s); [auto with steady|by eapply moved_trans|done]. }
  do 2 wp_step.
  - unfold set_dot_from. wp_step. apply finds_find_line; [by eapply moved_ease|]. intros q Hq. wp_step.
    apply Hend. eapply moved_trans; [done|]. apply moved_dot; [by eapply moved_ease|done].
  - wp_step. by apply Hend.
Qed.
Lemma walks_screen_lines E s s1 body (Q : label -> Ed -> Prop) : steady body -> moved s s1 -> counted s1 ->
  (forall l s', moved s s' -> l = Dc1 \/ l = Dc6 -> Q l s') -> wpe E (screen_lines body) Q s1.
Proof.
  intros Hb Hm Hc HQ. unfold screen_lines. do 3 wp_step.
  assert (Hrest : forall s2, moved s s2 -> counted s2 -> wpe E
    (s <- get ;; iter (S (Z.to_nat (cmdcnt s))) (pre_cmdcnt_body body) tt ;; dot_begin ;; dot_skip_over_ws ;; ret Dc1) Q s2).
  { intros s2 Hm2 Hc2. do 3 wp_step.
    apply (wpe_iter E (fun _ s' => moved s s' /\ counted s') (fun _ s' => cmdcnt s')); [| |unfold counted in Hc2; lia].
    2:{ by split. }
    intros [] s3 [Hm3 Hc3]. split; [apply Hc3|]. unfold pre_cmdcnt_body, counted in *. do 2 wp_step.
    rewrite i32_count by lia. do 2 wp_step. set (s4 := set_cmdcnt _ s3). assert (Hm4 : moved s s4).
    { eapply moved_trans; [done|]. apply moved_cnt. by eapply moved_ease. }
    change (cmdcnt s4) with (cmdcnt s3 - 1). wp_step.
    - wp_step. apply Hb; [by eapply moved_ease|]. intros s5 Hm5 Hc5. wp_step.
      change (cmdcnt s4) with (cmdcnt s3 - 1) in Hc5. split; [split; [by eapply moved_trans|lia]|lia].
    - do 2 wp_step. apply steady_dot_begin; [by eapply moved_ease|]. intros s6 Hm6 _.
      apply (walks_end E s); [auto with steady|by eapply moved_trans|done]. }
  do 2 wp_step.
  - pose proof (ease_geo s1 (moved_ease _ _ Hm)) as [Hr _ _ _ _]. unfold MAX_SCR_ROWS, VI_MAX_SCREEN_LEN in Hr.
    apply Hrest; [eapply moved_trans; [done|]; apply moved_cnt; by eapply moved_ease|].
    unfold counted. simpl. rewrite u32_small; lia.
  - by apply Hrest.
Qed.
Lemma walks_cmd_H : walks cmd_H.
Proof.
  unfold cmd_H. apply walks_get. intros s Hs Hc E Q HQ. do 2 wp_step.
  apply (walks_screen_lines E s); [auto with steady|apply moved_dot; [done|by apply ease_sb]|done|done].
Qed.
Lemma walks_cmd_L : walks cmd_L.
Proof.
  intros E s Q Hs Hc HQ. unfold cmd_L, set_dot_from. do 2 wp_step. apply finds_end_screen; [done|]. intros q Hq. wp_step.
  apply (walks_screen_lines E s); [auto with steady|by apply moved_dot|done|done].
Qed.
Lemma walks_cmd_M : walks cmd_M.
Proof.
  unfold cmd_M, set_dot_from. apply walks_get. intros s Hs Hc E Q HQ. do 2 wp_step.
  apply (finds_fold _ _ finds_next_line); [done|by apply ease_sb|]. intros q Hq. wp_step.
  apply (walks_end E s); [auto with steady|by apply moved_dot|done].
Qed.
Lemma walks_cmd_column n : walks (s <- get ;; set_dot_from (move_to_col (dot s) (n s)) ;; ret Dc1).
Proof.
  apply walks_get. intros s Hs Hc E Q HQ. unfold set_dot_from. do 2 wp_step.
  apply (finds_move_to_col (n s)); [done|by apply ease_dot|]. intros q Hq. do 2 wp_step.
  apply HQ; [by apply moved_dot|by left].
Qed.

(** ** Characters and words *)
Lemma wp_to_char E s dir q (Q : option Z -> Ed -> Prop) : at_ease s -> dir = FORWARD \/ dir = BACK -> text s <= q < endp s ->
  (forall q', text s <= q' < endp s -> (dir = FORWARD /\ q < q') \/ (dir = BACK /\ q' < q) -> Q (Some q') s) -> Q None s ->
  wpe E (iter (S (Z.to_nat (endp s - text s))) (to_char_body dir) q) Q s.
Proof.
  intros Hs Hdir Hq HQ H0.
  apply (wpe_iter E (fun v s' => s' = s /\ text s <= v < endp s /\ (v = q \/ (dir = FORWARD /\ q < v) \/ (dir = BACK /\ v < q)))
    (fun v _ => if dir =? FORWARD then endp s - v else v - text s)); [| |destruct (dir =? FORWARD); lia].
  2:{ split; [done|]. split; [done|by left]. }
  intros v s1 (-> & Hv & Hside). split; [destruct (dir =? FORWARD); lia|]. unfold to_char_body. do 3 wp_step.
  - wp_step. done.
  - assert (Hin : text s <= v + dir < endp s) by (destruct Hdir as [-> | ->]; unfold FORWARD, BACK in *; simpl in H; lia).
    wp_step. apply (wp_rd s (ease_wf s Hs)); [txt|]. wp_step; [by wp_step|]. wp_step; wp_step.
    + split; [split; [done|split; [done|right]]|]; destruct Hdir as [-> | ->]; unfold FORWARD, BACK in *; simpl; lia.
    + apply HQ; [done|]. destruct Hdir as [-> | ->]; unfold FORWARD, BACK in *; simpl; lia.
Qed.
Lemma wp_to_char_count E s dir (Q : option Z -> Ed -> Prop) : at_ease s -> counted s -> dir = FORWARD \/ dir = BACK ->
  (forall r s', moved s s' -> (forall q, r = Some q -> text s <= q < endp s) -> Q r s') ->
  wpe E (iter (S (Z.to_nat (endp s - text s))) (to_char_count_body dir) (dot s)) Q s.
Proof.
  intros Hs Hc Hdir HQ. pose proof (ease_dot s Hs).
  apply (wpe_iter E (fun v s' => moved s s' /\ counted s' /\ text s <= v < endp s)
    (fun v _ => if dir =? FORWARD then endp s - v else v - text s)); [| |destruct (dir =? FORWARD); lia].
  2:{ split; [by apply moved_refl|done]. }
  intros v s1 (Hm & Hc1 & Hv). split; [destruct (dir =? FORWARD); lia|]. pose proof (moved_ease _ _ Hm) as Hs1.
  pose proof (moved_text _ _ Hm) as Ht. pose proof (moved_endp _ _ Hm) as He.
  unfold to_char_count_body. do 3 wp_step. apply wp_to_char; [done|done|lia| |].
  - intros q Hq Hside. unfold counted in *. do 2 wp_step. rewrite i32_count by lia. do 3 wp_step; wp_step.
    + simpl in *. split; [split; [|lia]|].
      * eapply moved_trans; [done|by apply moved_cnt].
      * destruct Hside as [[-> ?]|[-> ?]]; simpl; lia.
    + apply HQ; [eapply moved_trans; [done|by apply moved_cnt]|]. intros q' [= <-]. lia.
  - wp_step. by apply HQ.
Qed.
Lemma walks_to_char c : c = ch ";" \/ c = ch "," -> walks (cmd_to_char c).
Proof.
  intros Hc0 E s Q Hs Hc HQ. unfold cmd_to_char.
  replace ((c =? 59) || (c =? 44)) with true by (destruct Hc0 as [-> | ->]; done). do 4 wp_step.
  set (cmd := if negb (c =? 44) then _ else _). clearbody cmd. wp_step. unfold dot_to_char. do 3 wp_step.
  { wp_step. wp_step. apply HQ; [by apply moved_refl|by left]. }
  wp_step. apply wp_to_char_count; [done|done|destruct (islower cmd); [by left|by right]|].
  intros [q|] s1 Hm Hq; pose proof (moved_ease _ _ Hm) as Hs1.
  - specialize (Hq q eq_refl). assert (Hm2 : moved s (set_dot q s1)).
    { eapply moved_trans; [done|]. apply moved_dot; [done|]. by rewrite (moved_text s), (moved_endp s). }
    do 2 wp_step. apply (steady_if (cmd =? 116) dot_left (if cmd =? 84 then dot_right else ret tt));
      [auto with steady|auto with steady|by eapply moved_ease|].
    intros s2 Hm3 _. wp_step. apply HQ; [by eapply moved_trans|by left].
  - apply steady_indicate_error; [done|]. intros s2 Hm2 _. wp_step. apply HQ; [by eapply moved_trans|by left].
Qed.

(** one step towards the next paragraph *)
Lemma wp_paragraph_body E s dir skip (Q : bool + bool -> Ed -> Prop) : dir = FORWARD \/ dir = BACK -> at_ease s ->
  (forall k, text s <= dot s + dir < endp s -> Q (inl k) (set_dot (dot s + dir) s)) ->
  (forall b s', moved s s' -> cmdcnt s' = cmdcnt s -> Q (inr b) s') -> wpe E (paragraph_body dir skip) Q s.
Proof.
  intros Hdir Hs HQ HQ'. pose proof (ease_dot s Hs). unfold paragraph_body. do 3 wp_step.
  2:{ wp_step. apply HQ'; [by apply moved_refl|done]. }
  assert (Hin : text s <= dot s + dir < endp s) by (destruct Hdir as [-> | ->]; unfold FORWARD, BACK in *; simpl in *; lia).
  assert (Hjump : forall c c', wpe E
    (if (c =? 10) && (c' =? 10) then
       if negb skip then when (dir =? FORWARD) (modify (set_dot (dot s + 1))) ;; ret (inr true)
       else modify (set_dot (dot s + dir)) ;; ret (inl skip)
     else modify (set_dot (dot s + dir)) ;; ret (inl false)) Q s).
  { intros c c'. wp_step; [wp_step|].
    - do 2 wp_step.
      + do 2 wp_step. apply Z.eqb_eq in H3. subst dir. apply HQ'; [by apply moved_dot|done].
      + wp_step. apply HQ'; [by apply moved_refl|done].
    - do 3 wp_step. by apply HQ.
    - do 3 wp_step. by apply HQ. }
  wp_step. apply (wp_rd s (ease_wf s Hs)); [txt|]. do 2 wp_step.
  - apply (wp_rd s (ease_wf s Hs)); [txt|]. apply Hjump.
  - wp_step. apply Hjump.
Qed.
Lemma wp_paragraph E s dir skip (Q : bool -> Ed -> Prop) : dir = FORWARD \/ dir = BACK -> at_ease s ->
  (forall b s', moved s s' -> cmdcnt s' = cmdcnt s -> Q b s') ->
  wpe E (iter (S (Z.to_nat (endp s - text s))) (paragraph_body dir) skip) Q s.
Proof.
  intros Hdir Hs HQ. pose proof (ease_dot s Hs).
  apply (wpe_iter E (fun _ s' => moved s s' /\ cmdcnt s' = cmdcnt s)
    (fun _ s' => if dir =? FORWARD then endp s - dot s' else dot s' - text s)); [| |destruct (dir =? FORWARD); lia].
  2:{ split; [by apply moved_refl|done]. }
  intros sk s1 [Hm Hc]. pose proof (moved_ease _ _ Hm) as Hs1. pose proof (ease_dot s1 Hs1) as Hd1.
  rewrite <- (moved_text _ _ Hm), <- (moved_endp _ _ Hm). split; [destruct (dir =? FORWARD); lia|].
  apply wp_paragraph_body; [done|done| |].
  - intros k Hin. split; [split; [|done]|].
    + eapply moved_trans; [done|by apply moved_dot].
    + destruct Hdir as [-> | ->]; simpl; unfold FORWARD, BACK in *; lia.
  - intros b s2 Hm2 Hc2. apply HQ; [by eapply moved_trans|congruence].
Qed.
Lemma walks_cmd_paragraph c : walks (cmd_paragraph c).
Proof.
  intros E s Q Hs Hc HQ. unfold cmd_paragraph. wp_step.
  apply (wp_do_cmdcnt_var E (fun _ : unit => True)); [|done|done|done|].
  - intros [] s1 R Hm _ HR. pose proof (moved_ease _ _ Hm) as Hs1. unfold paragraph_once. do 3 wp_step.
    apply wp_paragraph; [destruct (c =? 125); [by left|by right]|done|]. intros b s2 Hm2 Hc2. wp_step. by apply HR.
  - intros r s1 Hm _. wp_step. apply HQ; [done|]. destruct r; [by left|by right].
Qed.

(** skip_thing() forward *)
Lemma wp_skip_thing E s p n type (Q : Z -> Ed -> Prop) : at_ease s -> text s <= p < endp s ->
  (forall q, text s <= q < endp s -> Q q s) -> wpe E (skip_thing p n FORWARD type) Q s.
Proof.
  intros Hs Hp HQ. unfold skip_thing. do 2 wp_step.
  apply (wpe_iter E (fun v s' => s' = s /\ text s <= fst v < endp s) (fun v _ => endp s - fst v)); [|done|simpl; lia].
  intros [q k] s1 [-> Hq]. cbn [fst] in *. split; [lia|]. unfold skip_thing_body, st_test. do 2 wp_step.
  apply (wp_rd s (ease_wf s Hs)); [txt|]. wp_step. apply (wp_rd s (ease_wf s Hs)); [unfold FORWARD; txt|].
  match goal with |- wpe _ (if _ then ret ?x else ?e) ?R _ => assert (Hall : forall t : bool * Z, wpe E (ret t) R s) end.
  { intros [test c]. do 2 wp_step; [|wp_step; by apply HQ]. cbv zeta. wp_step; [wp_step; by apply HQ|].
    change (0 <=? FORWARD) with true. change (FORWARD <? 0) with false. cbn [andb]. do 3 wp_step.
    - wp_step. by apply HQ.
    - apply Z.leb_gt in H1. wp_step. unfold FORWARD. simpl. split; [split; [done|lia]|lia]. }
  repeat (wp_step; [apply Hall|]). apply Hall.
Qed.
Lemma steady_skip_dot n type : steady (skip_dot n FORWARD type).
Proof.
  intros E s Q Hs HQ. unfold skip_dot, set_dot_from. do 3 wp_step. apply wp_skip_thing; [done|by apply ease_dot|].
  intros q Hq. wp_step. apply HQ; [by apply moved_dot|done].
Qed.
#[export] Hint Resolve steady_skip_dot : steady.
(** a step that depends on the character at an address near dot *)
Lemma steady_at p (f : Z -> EM unit) E s (Q : unit -> Ed -> Prop) : at_ease s -> in_text s p -> (forall c, steady (f c)) ->
  (forall s', moved s s' -> cmdcnt s' = cmdcnt s -> Q tt s') -> wpe E (c <- rd p ;; f c) Q s.
Proof. intros Hs Hp Hf HQ. wp_step. apply (wp_rd s (ease_wf s Hs)); [done|]. by apply Hf. Qed.
Lemma steady_at_dot f : (forall c, steady (f c)) -> steady (d <- gets dot ;; c <- rd d ;; f c).
Proof.
  intros Hf E s Q Hs HQ. do 2 wp_step. apply steady_at; [done| |done|done]. pose proof (ease_dot s Hs). txt.
Qed.

Lemma walks_cmd_blank_word c : c = ch "E" \/ c = ch "W" -> walks (cmd_blank_word c).
Proof.
  intros Hc. unfold cmd_blank_word. replace (if c =? 66 then BACK else FORWARD) with FORWARD by (destruct Hc as [-> | ->]; done).
  apply walks_do_cmdcnt, steady_get. intros s Hs E Q HQ.
  assert (Hrest : forall sp : bool, wpe E
    ((if sp then skip_dot 1 FORWARD S_TO_WS ;; skip_dot 2 FORWARD S_OVER_WS else ret tt) ;;
     if negb (c =? 87) then skip_dot 1 FORWARD S_BEFORE_WS else ret tt) Q s).
  { intros sp. apply steady_seq; auto with steady. }
  wp_step. destruct Hc as [-> | ->]; [|apply wpe_ret, (Hrest true)].
  change (ch "E" =? 87) with false. cbv iota. wp_step. pose proof (ease_dot s Hs).
  apply (wp_rd s (ease_wf s Hs)); [unfold FORWARD; txt|]. wp_step. apply Hrest.
Qed.
Lemma walks_cmd_e : walks (cmd_be (ch "e")).
Proof.
  intros E s Q Hs Hc HQ. unfold cmd_be. change (if ch "e" =? 98 then BACK else FORWARD) with FORWARD. wp_step.
  apply (wp_do_cmdcnt_var E (fun _ : unit => True)); [|done|done|done|].
  2:{ intros r s1 Hm _. wp_step. apply HQ; [done|by left]. }
  intros [] s1 R Hm _ HR. pose proof (moved_ease _ _ Hm) as Hs1. pose proof (ease_dot s1 Hs1).
  unfold cmd_be_body. do 3 wp_step.
  { wp_step. apply HR; [by apply moved_refl|done|done]. }
  apply orb_false_iff in H0 as [H1 H2]. change FORWARD with 1 in H1, H2. do 2 wp_step.
  assert (Hm1 : moved s1 (set_dot (dot s1 + FORWARD) s1)) by (apply moved_dot; [done|change FORWARD with 1; lia]).
  pose proof (moved_ease _ _ Hm1) as Hs2. pose proof (ease_dot _ Hs2).
  do 3 wp_step. apply (wp_rd _ (ease_wf _ Hs2)); [txt|]. wp_step.
  match goal with |- wpe _ ?m _ _ => assert (Hst : steady m) by auto with steady end.
  apply Hst; [done|]. intros s2 Hm2 Hc2. pose proof (moved_ease _ _ Hm2) as Hs3. pose proof (ease_dot _ Hs3).
  do 3 wp_step. apply (wp_rd _ (ease_wf _ Hs3)); [txt|]. wp_step.
  match goal with |- wpe _ ?m _ _ => assert (Hst2 : steady m) by auto with steady end.
  apply Hst2; [done|]. intros s3 Hm3 Hc3. wp_step. apply HR; [|by rewrite Hc3, Hc2|done].
  exact (moved_trans _ _ _ Hm1 (moved_trans _ _ _ Hm2 Hm3)).
Qed.
Lemma walks_cmd_w : walks cmd_w.
Proof.
  unfold cmd_w. apply walks_do_cmdcnt. intros E s Q Hs HQ. pose proof (ease_dot s Hs).
  do 3 wp_step. apply (wp_rd s (ease_wf s Hs)); [txt|]. wp_step.
  match goal with |- wpe _ ?m _ _ => assert (Hst : steady m) by auto with steady end.
  apply Hst; [done|]. intros s1 Hm1 Hc1. pose proof (moved_ease _ _ Hm1) as Hs1. pose proof (ease_dot s1 Hs1).
  assert (Hrest : forall s2, moved s1 s2 -> cmdcnt s2 = cmdcnt s1 -> wpe E
    (d <- gets dot ;; x <- rd d ;; if isspace x then skip_dot 2 FORWARD S_OVER_WS else ret tt) Q s2).
  { intros s2 Hm2 Hc2.
    apply (steady_at_dot (fun x => if isspace x then skip_dot 2 FORWARD S_OVER_WS else ret tt)).
    - auto with steady.
    - by eapply moved_ease.
    - intros s3 Hm3 Hc3. apply HQ; [|congruence].
      exact (moved_trans _ _ _ Hm1 (moved_trans _ _ _ Hm2 Hm3)). }
  do 4 wp_step.
  - wp_step. apply Hrest; [apply moved_dot; [done|lia]|done].
  - apply Hrest; [by apply moved_refl|done].
Qed.

(** ** Counts *)
Lemma wp_cmd_digit E s c (Q : label -> Ed -> Prop) : at_ease s -> counted s -> isdigit c = true -> cmdcnt s < 10 ^ 8 ->
  (forall s', moved s s' -> cmdcnt s' = cmdcnt s * 10 + (c - 48) -> Q Dc1 s') -> wpe E (cmd_digit c) Q s.
Proof.
  intros Hs Hc Hd Hlt HQ. unfold cmd_digit, counted in *. unfold isdigit in Hd. do 3 wp_step.
  - wp_step. apply steady_dot_begin; [done|]. intros s' Hm Hc'. wp_step. apply HQ; [done|lia].
  - do 3 wp_step. apply HQ; [by apply moved_cnt|]. simpl. rewrite i32_small; lia.
Qed.
