(* ===== verification/EvimPop.v ===== *)
(** * evim: the rules of undo_pop()

    What one undo object does to the buffer when it is applied, and the
    rule of undo_pop() for an object that does not chain. *)
From S2P Require Import Prelude EvimState EvimLine EvimSyntax EvimInput EvimTerm EvimEdit.
From S2P Require Import EvimNav EvimHole EvimUndo EvimFormat EvimRefresh EvimDisplay.

(** all but the text block, the pointers into it and the message *)
Definition mframe (s : Ed) : Ed := set_have_status_msg 0 (set_status_buffer [] (frame s)).
Lemma mframe_frame s s' : frame s' = frame s -> mframe s' = mframe s.
Proof. intros H. exact (f_equal (fun s => set_have_status_msg 0 (set_status_buffer [] s)) H). Qed.

Lemma i32_idem_add a b : i32 (i32 a + b) = i32 (a + b).
Proof.
  unfold i32. f_equal.
  replace ((a + 2147483648) mod 4294967296 - 2147483648 + b + 2147483648) with ((a + 2147483648) mod 4294967296 + b) by lia.
  rewrite Zplus_mod_idemp_l. f_equal. lia.
Qed.
Lemma i32_idem_sub a b : i32 (i32 a - b) = i32 (a - b).
Proof. apply (i32_idem_add a (- b)). Qed.
Lemma i32_idem a : i32 (i32 a) = i32 a.
Proof. pose proof (i32_idem_add a 0) as H. by rewrite !Z.add_0_r in H. Qed.
(** the two corrections of text_hole_delete() cancel *)
Lemma i32_dec_inc a : i32 (i32 (a - 1) + 1) = i32 a.
Proof. rewrite i32_idem_add. f_equal. lia. Qed.
Lemma i32_down_up a : i32 (i32 (i32 a - 1) + 1) = i32 a.
Proof. by rewrite i32_dec_inc, i32_idem. Qed.

Lemma wp_status_line E bs s (Q : unit -> Ed -> Prop) :
  (forall b n, Q tt (set_have_status_msg n (set_status_buffer b s))) -> wpe E (status_line bs) Q s.
Proof. intros HQ. apply HQ. Qed.

Section apply.
Context (s : Ed) (u : undo_object) (Hwf : wf s).
Let p := text s + u_start u.

(** deleted text comes back *)
Lemma wp_undo_apply_del E (Q : unit -> Ed -> Prop) : good_alloc s -> in_text s p ->
  u_type u = UNDO_DEL \/ u_type u = UNDO_DEL_CHAIN -> zlen (u_text u) = u_length u ->
  endp s + u_length u < text s + text_size s ->
  (forall s', wf s' -> rebased 0 s s' -> mframe s' = mframe s -> endp s' = endp s + u_length u ->
     inserted (off s p) (u_text u) s s' -> Q tt s') ->
  wpe E (undo_apply u) Q s.
Proof.
  intros Hal Hp Hty Hl Hroom HQ. unfold undo_apply. do 2 wp_step. cbv zeta. fold p.
  replace ((u_type u =? UNDO_DEL) || (u_type u =? UNDO_DEL_CHAIN)) with true by (destruct Hty as [-> | ->]; done).
  wp_step. apply wp_hole_make; [done|done|done|unfold zlen in *; lia|].
  intros bias s1 Hwf1 Hre Hfr He Hins Hb. rewrite Hb in * by done. rewrite Z.add_0_r in *.
  destruct (Hre) as (Htx & _). rewrite Z.add_0_r in Htx. destruct (Hwf1) as [? ? ? ?].
  wp_step. apply wp_wr_n; [txt|txt|]. do 2 wp_step. unfold undo_message. apply wp_status_line. intros b n.
  assert (Hins' : inserted (off s p) (u_text u) s (put p (u_text u) s1)).
  { replace p with (p + 0) at 2 by lia. apply inserted_put; [done|done|done|lia|lia|].
    replace (length (u_text u)) with (Z.to_nat (u_length u)) by (unfold zlen in *; lia). done. }
  assert (Hwfp : wf (put p (u_text u) s1)) by (apply wf_put; [done|txt|txt]).
  apply HQ.
  - by apply (wf_same (put p (u_text u) s1)).
  - exact Hre.
  - exact (mframe_frame _ _ Hfr).
  - done.
  - exact Hins'.
Qed.

(** the same, exactly, where the block has room *)
Lemma wp_undo_apply_del_fits E (Q : unit -> Ed -> Prop) : in_text s p ->
  u_type u = UNDO_DEL \/ u_type u = UNDO_DEL_CHAIN -> zlen (u_text u) = u_length u -> 0 < u_length u ->
  endp s + u_length u < text s + text_size s ->
  (forall m n b, let s' := set_have_status_msg n (set_status_buffer b (set_mem m (set_endp (endp s + u_length u) s))) in
     wf s' -> inserted (off s p) (u_text u) s s' -> Q tt s') ->
  wpe E (undo_apply u) Q s.
Proof.
  intros Hp Hty Hl Hpos Hroom HQ. unfold undo_apply. do 2 wp_step. cbv zeta. fold p.
  replace ((u_type u =? UNDO_DEL) || (u_type u =? UNDO_DEL_CHAIN)) with true by (destruct Hty as [-> | ->]; done).
  wp_step. apply wp_hole_make_fits; [done..|]. intros m s1 Hwf1 Hins. destruct (Hwf1) as [? ? ? ?].
  change (text s1) with (text s) in *. change (endp s1) with (endp s + u_length u) in *.
  wp_step. apply wp_wr_n; [unfold in_text in *; change (text s1) with (text s); lia|change (text s1) with (text s); txt|].
  do 2 wp_step. unfold undo_message. apply wp_status_line. intros b n.
  assert (Hins' : inserted (off s p) (u_text u) s (put p (u_text u) s1)).
  { replace p with (p + 0) at 2 by lia. apply inserted_put; [done|done|done|simpl; lia|simpl; lia|].
    replace (length (u_text u)) with (Z.to_nat (u_length u)) by (unfold zlen in *; lia). done. }
  assert (Hwfp : wf (put p (u_text u) s1)) by (apply wf_put; [done|change (text s1) with (text s); txt|change (text s1) with (text s); txt]).
  apply HQ; [|exact Hins']. by apply (wf_same (put p (u_text u) s1)).
Qed.

(** inserted text goes away *)
Lemma wp_undo_apply_ins E (Q : unit -> Ed -> Prop) : in_text s p ->
  u_type u = UNDO_INS \/ u_type u = UNDO_INS_CHAIN -> 0 < u_length u -> p + u_length u <= endp s ->
  (forall s', wf s' -> rebased 0 s s' -> mframe (set_modified_count 0 s') = mframe (set_modified_count 0 s) ->
     modified_count s' = i32 (i32 (modified_count s - 1) + 1) -> endp s' = endp s - u_length u ->
     contents s' = take (off s p) (contents s) ++ drop (off s (p + u_length u)) (contents s) -> Q tt s') ->
  wpe E (undo_apply u) Q s.
Proof.
  intros Hp Hty Hl He HQ. unfold undo_apply. do 2 wp_step. cbv zeta. fold p.
  replace ((u_type u =? UNDO_DEL) || (u_type u =? UNDO_DEL_CHAIN)) with false by (destruct Hty as [-> | ->]; done).
  replace ((u_type u =? UNDO_INS) || (u_type u =? UNDO_INS_CHAIN)) with true by (destruct Hty as [-> | ->]; done).
  wp_step. apply wp_hole_delete_gen; [done|txt|lia|]. apply wpe_ret. split; [done|].
  intros s1 (Hwf1 & Hc & m & ->). do 2 wp_step. unfold undo_message. apply wp_status_line. intros b n.
  apply HQ; try done.
  - eapply wf_same; [..|exact Hwf1]; done.
  - by apply rebased_0.
  - simpl. lia.
  - match goal with |- contents ?a = _ => change (contents a) with (contents (set_endp (endp s - (p - 1 + u_length u - p + 1))
      (set_mem m (set_modified_count (i32 (i32 (modified_count s - 1) + 1)) s)))) end.
    rewrite Hc. by replace (p - 1 + u_length u + 1) with (p + u_length u) by lia.
Qed.

(** one turn of undo_pop(): an object that is chained to the one below it *)
Lemma wp_undo_pop_chained E rest (Q : bool -> Ed -> Prop) :
  undo_q s = 0 -> undo_stack_tail s = u :: rest -> u_type u = UNDO_DEL_CHAIN \/ u_type u = UNDO_INS_CHAIN ->
  wpe E (undo_apply u) (fun _ s1 =>
    Q true (set_modified_count (i32 (modified_count s1 - 1)) (set_undo_stack_tail rest s1))) s ->
  wpe E undo_pop_one Q s.
Proof.
  intros Hq0 Hst Hty Hap. unfold undo_pop_one. wp_step. apply wp_undo_queue_commit; [rewrite Hq0; done|].
  unfold committed. rewrite Hq0. cbn [Z.ltb Z.compare]. do 2 wp_step. rewrite Hst. wp_step.
  eapply wpe_mono; [exact Hap|]. intros [] s1 HQ. wp_step.
  replace ((u_type u =? UNDO_DEL) || (u_type u =? UNDO_INS)) with false by (destruct Hty as [-> | ->]; done).
  unfold when. do 3 wp_step. unfold upd_modified. do 2 wp_step.
  replace ((u_type u =? UNDO_DEL_CHAIN) || (u_type u =? UNDO_INS_CHAIN)) with true by (destruct Hty as [-> | ->]; done).
  wp_step. exact HQ.
Qed.
(** and one that ends the chain: the cursor goes to it and is shown *)
Lemma wp_undo_pop_last E rest (Q : bool -> Ed -> Prop) :
  undo_q s = 0 -> undo_stack_tail s = u :: rest -> u_type u = UNDO_DEL \/ u_type u = UNDO_INS ->
  wpe E (undo_apply u) (fun _ s1 => let s2 := set_dot (text s1 + u_start u) s1 in drawable s2 /\
    forall s', refreshed s2 s' ->
      Q false (set_modified_count (i32 (modified_count s' - 1)) (set_undo_stack_tail rest s'))) s ->
  wpe E undo_pop_one Q s.
Proof.
  intros Hq0 Hst Hty Hap. unfold undo_pop_one. wp_step. apply wp_undo_queue_commit; [rewrite Hq0; done|].
  unfold committed. rewrite Hq0. cbn [Z.ltb Z.compare]. do 2 wp_step. rewrite Hst. wp_step.
  eapply wpe_mono; [exact Hap|]. intros [] s1 [Hdr HQ]. wp_step.
  replace ((u_type u =? UNDO_DEL) || (u_type u =? UNDO_INS)) with true by (destruct Hty as [-> | ->]; done).
  unfold when. do 2 wp_step. apply wp_refresh; [done|]. intros s' Hrf. do 2 wp_step. unfold upd_modified. do 2 wp_step.
  replace ((u_type u =? UNDO_DEL_CHAIN) || (u_type u =? UNDO_INS_CHAIN)) with false by (destruct Hty as [-> | ->]; done).
  wp_step. exact (HQ s' Hrf).
Qed.
(** undo_pop() of an object that ends a chain *)
Lemma wp_undo_pop E rest (Q : unit -> Ed -> Prop) :
  undo_q s = 0 -> undo_stack_tail s = u :: rest -> u_type u = UNDO_DEL \/ u_type u = UNDO_INS ->
  wpe E (undo_apply u) (fun _ s1 => let s2 := set_dot (text s1 + u_start u) s1 in drawable s2 /\
    forall s', refreshed s2 s' ->
      Q tt (set_modified_count (i32 (modified_count s' - 1)) (set_undo_stack_tail rest s'))) s ->
  wpe E undo_pop Q s.
Proof.
  intros Hq0 Hst Hty Hap. unfold undo_pop. do 2 wp_step. cbn [undo_pop_go]. wp_step.
  apply (wp_undo_pop_last E rest); [done|done|done|]. eapply wpe_mono; [exact Hap|].
  intros [] s1 [Hdr HQ]. split; [done|]. intros s' Hrf. wp_step. by apply HQ.
Qed.
End apply.

(** ** A change and its undo *)
(** the text at an address, as a part of the contents *)
Lemma bytes_contents s p n : text s <= p -> 0 <= n -> p + n <= endp s ->
  bytes_at s p n = take (Z.to_nat n) (drop (off s p) (contents s)).
Proof.
  intros Hp Hn He. rewrite contents_mem. unfold bytes_at. rewrite !take_drop_commute, take_take.
  do 2 f_equal. unfold off. lia.
Qed.
(** cutting a part out and putting it back *)
Lemma cut_restore {A} (i n : nat) (c : list A) : (i + n <= length c)%nat ->
  let c' := take i c ++ drop (i + n) c in take i c' ++ take n (drop i c) ++ drop i c' = c.
Proof.
  intros H. cbv zeta. assert (Hi : length (take i c) = i) by (rewrite length_take; lia).
  rewrite (take_app_length' (take i c)), (drop_app_length' (take i c)) by done.
  rewrite <- drop_drop. by rewrite !take_drop.
Qed.
(** putting a part in and cutting it out *)
Lemma insert_cut {A} (i : nat) (bs c : list A) : (i <= length c)%nat ->
  let c' := take i c ++ bs ++ drop i c in take i c' ++ drop (i + length bs) c' = c.
Proof.
  intros H. cbv zeta. assert (Hi : length (take i c) = i) by (rewrite length_take; lia).
  rewrite (take_app_length' (take i c)) by done. rewrite <- drop_drop, (drop_app_length' (take i c)) by done.
  rewrite drop_app_length. apply take_drop.
Qed.
Lemma geometry_same s s' : rows s' = rows s -> columns s' = columns s -> tabstop s' = tabstop s ->
  offset s' = offset s -> screen s' = screen s -> geometry s -> geometry s'.
Proof. intros H1 H2 H3 H4 H5 []. split; by rewrite ?H1, ?H2, ?H3, ?H4, ?H5. Qed.

(** undo_push() of what is neither queued nor empty makes an object *)
Lemma wp_undo_push_object E s src length u_type (Q : unit -> Ed -> Prop) :
  wf s -> in_text s src -> 0 <= length < 2 ^ 31 -> In u_type [UNDO_INS; UNDO_DEL; UNDO_INS_CHAIN; UNDO_DEL_CHAIN] ->
  (u_type = UNDO_DEL \/ u_type = UNDO_DEL_CHAIN -> 0 < length /\ src + length <= endp s) ->
  Q tt (pushed (undo_entry s src length u_type) s) -> wpe E (undo_push src length u_type) Q s.
Proof.
  intros Hwf Hsrc Hl Hty Hpos HQ. unfold undo_push. rewrite u32_small by lia. do 2 wp_step.
  replace (u_type =? UNDO_EMPTY) with false by (destruct Hty as [<-|[<-|[<-|[<-|[]]]]]; done).
  replace (u_type =? UNDO_DEL_QUEUED) with false by (destruct Hty as [<-|[<-|[<-|[<-|[]]]]]; done).
  replace (u_type =? UNDO_INS_QUEUED) with false by (destruct Hty as [<-|[<-|[<-|[<-|[]]]]]; done).
  by apply wp_undo_push_text.
Qed.

(** text_hole_delete() that is recorded, exactly; [ty] is its kind of object *)
Lemma wp_hole_delete_as E s p q au ty (Q : Z -> Ed -> Prop) :
  (au, ty) = (ALLOW_UNDO, UNDO_DEL) \/ (au, ty) = (ALLOW_UNDO_CHAIN, UNDO_DEL_CHAIN) ->
  wf s -> text s <= p -> p <= q < endp s -> q - p + 1 < 2 ^ 31 -> text s < p \/ q < endp s - 1 ->
  (forall s' m, wf s' -> contents s' = take (off s p) (contents s) ++ drop (off s (q + 1)) (contents s) ->
     s' = set_endp (endp s - (q - p + 1)) (set_mem m (set_modified_count (i32 (modified_count s + 1))
            (set_undo_stack_tail (mkUndo (p - text s) (q - p + 1) ty (bytes_at s p (q - p + 1)) :: undo_stack_tail s) s))) ->
     Q (del_dest s p q) s') ->
  wpe E (text_hole_delete p q au) Q s.
Proof.
  intros Hau Hwf Hp Hpq Hn Hpart HQ. apply wp_hole_delete_gen; [done|done|done|].
  assert (Hpush : del_push au p (q - p + 1) = undo_push p (q - p + 1) ty) by (destruct Hau as [[= -> ->]|[= -> ->]]; done).
  rewrite Hpush. assert (Hdel : (ty =? UNDO_DEL) || (ty =? UNDO_DEL_CHAIN) = true) by (destruct Hau as [[= _ ->]|[= _ ->]]; done).
  apply wp_undo_push_object; [done|txt|lia|destruct Hau as [[= _ ->]|[= _ ->]]; simpl; tauto|lia|]. split; [done|].
  intros s' (Hwf' & Hc & m & ->). apply (HQ _ m); [done| |].
  - rewrite Hc. done.
  - unfold undo_entry. rewrite Hdel. cbn [andb].
    replace (text s + (q - p + 1) =? endp s) with false by lia. unfold pushed.
    cbn [modified_count set_modified_count set_undo_stack_tail].
    rewrite i32_down_up. reflexivity.
Qed.
Lemma wp_hole_delete_recorded E s p q (Q : Z -> Ed -> Prop) :
  wf s -> text s <= p -> p <= q < endp s -> q - p + 1 < 2 ^ 31 -> text s < p \/ q < endp s - 1 ->
  (forall s' m, wf s' -> contents s' = take (off s p) (contents s) ++ drop (off s (q + 1)) (contents s) ->
     s' = set_endp (endp s - (q - p + 1)) (set_mem m (set_modified_count (i32 (modified_count s + 1))
            (set_undo_stack_tail (mkUndo (p - text s) (q - p + 1) UNDO_DEL (bytes_at s p (q - p + 1)) :: undo_stack_tail s) s))) ->
     Q (del_dest s p q) s') ->
  wpe E (text_hole_delete p q ALLOW_UNDO) Q s.
Proof. apply wp_hole_delete_as. by left. Qed.
