(* ===== verification/EvimDemo.v ===== *)
(** * evim: a concrete state

    A small screen and buffer at which the hypotheses of the theorems hold;
    the witnesses apply the theorems to it. *)
From S2P Require Import Prelude EvimState EvimLine EvimSyntax EvimInput EvimTerm EvimEdit EvimEx EvimCmd EvimMain EvimNav EvimHole EvimUndo EvimFormat EvimRefresh EvimDisplay.

(** the k-th block is at 4096 * (k + 1), its undefined bytes are 170 *)
Definition demo_env : environment :=
  mkEnv (fun k => 4096 * Z.of_nat (S k)) (fun _ _ => 170) (str "No such file") true.
(** a screen of 4 rows of 10 columns; [bs] in a block of 64 bytes at 1000 *)
Definition demo_of (bs : list Z) (keys : list key) (fs : list file) : Ed :=
  let s := initial_state demo_env fs keys in
  let s := set_text 1000 (set_endp (1000 + zlen bs) (set_dot 1000 (set_screenbegin 1000 s))) in
  let s := set_mem (bs ++ replicate (64 - length bs) 0) (set_text_size 64 s) in
  let s := set_rows 4 (set_columns 10 (set_tabstop 8 (set_screen (replicate 48 32) s))) in
  set_YDreg 26 (set_editing 1 (set_undo_queue_state UNDO_EMPTY s)).
(** "if(a)", a line that starts with a tab, "y", "end" *)
Definition demo : Ed := demo_of (str "if(a)" ++ 10 :: 9 :: str "x;" ++ 10 :: str "y" ++ 10 :: str "end" ++ [10]) [] [].

(** evaluate a closed goal of (in)equalities *)
Ltac at_demo := vm_compute; repeat split; try discriminate; try congruence; auto.

Lemma demo_wf : wf demo.
Proof. split; at_demo. Qed.
Lemma demo_qwf : qwf demo.
Proof. split; at_demo. Qed.
Lemma demo_geometry : geometry demo.
Proof. split; at_demo. Qed.
Lemma demo_good_alloc : good_alloc demo.
Proof. intros k. change (0 < 4096 * Z.of_nat (S k)). lia. Qed.
Lemma demo_drawable : drawable demo.
Proof. split; [exact demo_wf|exact demo_geometry|at_demo..]. Qed.
