(* ===== verification/EvimEditProps.v ===== *)
(** * evim: correctness of insertion, deletion and undo

    The theorems about the routines of EvimEdit that change the text: what
    they leave in the buffer and in the pointers into it, and that undo_pop()
    takes a recorded change back. *)
From S2P Require Import Prelude EvimState EvimLine EvimSyntax EvimInput EvimTerm EvimEdit EvimEx EvimCmd EvimMain.
From S2P Require Import EvimNav EvimHole EvimUndo EvimFormat EvimRefresh EvimDisplay EvimPop EvimDemo.

Lemma run_ok {A} (m : EM A) (P : A -> Ed -> Prop) s : wp m P s -> exists a s', m s = Ok a s' /\ P a s'.
Proof. apply wp_elim. Qed.

(** ** Holes *)
(** text_hole_make() at [p] leaves the text with [size] spaces inserted
    there; it answers how far the block moved (0 when it had room), and the
    cursor, the top line, the marks that are set and the selection anchor
    moved with it, all else being left alone. *)
Theorem text_hole_make_spec s p size : wf s -> good_alloc s -> in_text s p -> 0 <= size ->
  exists bias s', text_hole_make p size s = Ok bias s' /\ wf s' /\
    contents s' = take (off s p) (contents s) ++ replicate (Z.to_nat size) 32 ++ drop (off s p) (contents s) /\
    rebased bias s s' /\ frame s' = frame s /\ endp s' = endp s + size + bias /\
    (endp s + size < text s + text_size s -> bias = 0).
Proof.
  intros Hwf Hal Hp Hs. apply (run_ok _ (fun bias s' => wf s' /\ inserted (off s p) (replicate (Z.to_nat size) 32) s s' /\
    rebased bias s s' /\ frame s' = frame s /\ endp s' = endp s + size + bias /\
    (endp s + size < text s + text_size s -> bias = 0))).
  apply wp_hole_make; [done..|]. intros bias s' ? ? ? ? ? ?. tauto.
Qed.
Lemma text_hole_make_witness :
  exists bias s', text_hole_make 1002 100 demo = Ok bias s' /\ bias = 3096 /\ wf s' /\ rebased bias demo s'.
Proof.
  destruct (text_hole_make_spec demo 1002 100) as (bias & s' & Hr & Hwf & _ & Hre & _).
  - exact demo_wf.
  - exact demo_good_alloc.
  - at_demo.
  - lia.
  - exists bias, s'. split; [exact Hr|]. split; [|tauto]. vm_compute in Hr. congruence.
Defined.

(** text_hole_delete() from [p] through [q] leaves the text without these
    bytes, whatever kind of undo record it makes; it answers [p], or the
    new last byte when [p] is no longer before the end; only the text and
    the undo data change, and the undo queue stays within its array. *)
Theorem text_hole_delete_spec s p q undo : wf s -> qwf s -> text s <= p -> p <= q < endp s -> q - p + 1 < 2 ^ 31 ->
  exists s', text_hole_delete p q undo s =
      Ok (if endp s' <=? text s then text s else if endp s' <=? p then endp s' - 1 else p) s' /\
    wf s' /\ qwf s' /\ endp s' = endp s - (q - p + 1) /\
    contents s' = take (off s p) (contents s) ++ drop (off s (q + 1)) (contents s) /\
    dframe s' = dframe s.
Proof.
  intros Hwf Hq Hp Hpq Hn. destruct (run_ok (text_hole_delete p q undo) (fun d s' =>
    d = del_dest s p q /\ wf s' /\ qwf s' /\ endp s' = endp s - (q - p + 1) /\
    contents s' = take (off s p) (contents s) ++ drop (off s (q + 1)) (contents s) /\ dframe s' = dframe s) s)
    as (d & s' & Hr & -> & H1 & H2 & H3 & H4 & H5).
  - apply wp_hole_delete; [done..|]. tauto.
  - exists s'. rewrite Hr, H3. done.
Qed.
Lemma text_hole_delete_witness :
  exists s', text_hole_delete 1002 1004 ALLOW_UNDO_QUEUED demo = Ok 1002 s' /\ endp s' = endp demo - 3.
Proof.
  destruct (text_hole_delete_spec demo 1002 1004 ALLOW_UNDO_QUEUED) as (s' & Hr & _ & _ & He & _).
  - exact demo_wf.
  - exact demo_qwf.
  - at_demo.
  - at_demo.
  - at_demo.
  - exists s'. split; [|exact He]. rewrite Hr, He. reflexivity.
Defined.

(** string_insert() puts the string in front of the byte at [p], with
    the pointers following a block that moved; it changes nothing else but
    the undo data, and the undo queue stays within its array. *)
Theorem string_insert_spec s p bs undo : wf s -> qwf s -> good_alloc s -> in_text s p -> zlen bs < 2 ^ 31 ->
  exists bias s', string_insert p bs undo s = Ok bias s' /\ wf s' /\ qwf s' /\
    contents s' = take (off s p) (contents s) ++ bs ++ drop (off s p) (contents s) /\
    rebased bias s s' /\ eframe s' = eframe s /\ (endp s + zlen bs < text s + text_size s -> bias = 0).
Proof.
  intros Hwf Hq Hal Hp Hn. apply (run_ok _ (fun bias s' => wf s' /\ qwf s' /\ inserted (off s p) bs s s' /\
    rebased bias s s' /\ eframe s' = eframe s /\ (endp s + zlen bs < text s + text_size s -> bias = 0))).
  apply wp_string_insert; [done..|]. intros bias s' (? & ? & ? & ? & ? & ?) ?. tauto.
Qed.
Lemma string_insert_witness :
  exists s', string_insert 1002 (str "xyz") ALLOW_UNDO demo = Ok 0 s' /\ wf s' /\ qwf s'.
Proof.
  destruct (string_insert_spec demo 1002 (str "xyz") ALLOW_UNDO) as (bias & s' & Hr & Hwf & Hq & _ & _ & _ & Hb).
  - exact demo_wf.
  - exact demo_qwf.
  - exact demo_good_alloc.
  - at_demo.
  - at_demo.
  - exists s'. rewrite Hb in Hr by at_demo. split; [exact Hr|]. tauto.
Defined.

(** ** Undo *)
(** what undo_pop() gives back: the text, the undo stack, the count of
    modifications, with the cursor at the address [p] *)
Definition taken_back (p : Z) (s s' : Ed) : Prop :=
  wf s' /\ drawable s' /\ contents s' = contents s /\ dot s' = p /\
  undo_stack_tail s' = undo_stack_tail s /\ undo_q s' = 0 /\ modified_count s' = i32 (modified_count s).

(** undo_pop() after an object was applied that gives the text back *)
Lemma wp_taken_back E s s1 u (Q : unit -> Ed -> Prop) p :
  wf s1 -> geometry s -> undo_q s1 = 0 -> undo_stack_tail s1 = u :: undo_stack_tail s -> modified_count s1 = i32 (modified_count s + 1) ->
  u_type u = UNDO_DEL \/ u_type u = UNDO_INS ->
  rows s1 = rows s -> columns s1 = columns s -> tabstop s1 = tabstop s -> offset s1 = offset s -> screen s1 = screen s ->
  wpe E (undo_apply u) (fun _ s2 => wf s2 /\ mframe (set_modified_count 0 s2) = mframe (set_modified_count 0 s1) /\
     i32 (modified_count s2) = i32 (modified_count s1) /\ contents s2 = contents s /\ text s2 + u_start u = p /\
     in_text s2 p /\ in_text s2 (screenbegin s2) /\ endp s2 - text s2 < 2 ^ 25) s1 ->
  (forall s', taken_back p s s' -> Q tt s') -> wpe E undo_pop Q s1.
Proof.
  intros Hwf1 Hg Hq Hst Hmc Hty Hr Hc Ht Ho Hs Hap HQ.
  apply (wp_undo_pop s1 u E (undo_stack_tail s)); [done|done|done|].
  eapply wpe_mono; [exact Hap|]. intros [] s2 (Hwf2 & Hm & Hmc2 & Hcon & <- & Hp & Hsb & Hsz). cbv zeta.
  set (s3 := set_dot _ s2). assert (Hdr : drawable s3).
  { split; [by apply (wf_same s2)| |done|done|done].
    apply (geometry_same s); [| | | | |done]; [rewrite <- Hr|rewrite <- Hc|rewrite <- Ht|rewrite <- Ho|rewrite <- Hs].
    - exact (f_equal rows Hm).
    - exact (f_equal columns Hm).
    - exact (f_equal tabstop Hm).
    - exact (f_equal offset Hm).
    - exact (f_equal screen Hm). }
  split; [done|]. intros s' [Hf Hd' _ _]. apply HQ.
  assert (Hmc' : modified_count s' = modified_count s2) by exact (f_equal modified_count Hf).
  set (s4 := set_modified_count _ _). assert (Hf4 : tframe s' = tframe s3) by done.
  split; [destruct Hd'; by apply (wf_same s')|]. split; [destruct Hd' as [? [] ? ? ?]; by split; [apply (wf_same s')|..]|].
  split; [|split; [|split; [|split]]].
  - rewrite <- Hcon. apply contents_same; [exact (f_equal text Hf)|exact (f_equal endp Hf)|exact (f_equal mem Hf)].
  - exact (f_equal dot Hf).
  - done.
  - change (undo_q s' = 0). transitivity (undo_q s1); [|done]. transitivity (undo_q s2); [exact (f_equal undo_q Hf)|exact (f_equal undo_q Hm)].
  - change (i32 (modified_count s' - 1) = i32 (modified_count s)). rewrite Hmc', <- (i32_idem_sub (modified_count s2)), Hmc2, Hmc, i32_idem_sub, i32_idem_sub. f_equal. lia.
Qed.

(** C6: Undoing a deletion gives it back: undo_pop() right after a recorded
    text_hole_delete() of a part of the buffer restores the text, the undo
    stack and the modification count, and puts the cursor where the deleted
    text started. *)
Theorem delete_undo_roundtrip s p q : drawable s -> good_alloc s -> undo_q s = 0 ->
  text s <= p <= q -> q < endp s -> text s < p \/ q < endp s - 1 ->
  exists d s1 s2, text_hole_delete p q ALLOW_UNDO s = Ok d s1 /\ undo_pop s1 = Ok tt s2 /\ taken_back p s s2.
Proof.
  intros [Hwf Hg Hd Hsb Hsz] Hal Hq0 Hp Hq Hpart.
  assert (Hwp : wp (text_hole_delete p q ALLOW_UNDO) (fun _ s1 => wp undo_pop (fun _ s2 => taken_back p s s2) s1) s).
  { apply wp_hole_delete_recorded; [done|lia|lia|lia|done|]. intros s1 m Hwf1 Hc1 ->.
    set (u := mkUndo _ _ _ _) in *. set (s1 := set_endp _ _) in *.
    assert (Hu : text s1 + u_start u = p) by (simpl; lia).
    assert (Hl : zlen (u_text u) = u_length u).
    { unfold u, zlen. cbn [u_text u_length]. rewrite (length_bytes_at s Hwf) by txt. lia. }
    apply (wp_taken_back _ s s1 u _ p); try done; [by left|].
    apply wp_undo_apply_del; [done|done|rewrite Hu; simpl; unfold in_text; simpl; lia|by left|done| |].
    { destruct Hwf. simpl. lia. }
    intros s2 Hwf2 (Htx & _ & Hsb2 & _) Hm He Hins. rewrite Hu in Hins. rewrite Z.add_0_r in *.
    assert (He2 : endp s2 = endp s) by (rewrite He; simpl; lia). change (text s1) with (text s) in Htx.
    change (screenbegin s1) with (screenbegin s) in Hsb2.
    split; [done|]. split; [exact (f_equal (set_modified_count 0) Hm)|].
    split; [by rewrite (f_equal modified_count Hm : modified_count s2 = modified_count s1)|].
    split; [|unfold in_text; rewrite Hsb2, Htx, He2; simpl; txt].
    unfold inserted in Hins. rewrite Hins, Hc1. unfold u. cbn [u_text].
    rewrite (bytes_contents s p (q - p + 1)) by lia. pose proof (length_contents s Hwf) as Hlc. unfold zlen in Hlc.
    replace (off s (q + 1)) with (off s p + Z.to_nat (q - p + 1))%nat by (unfold off; lia).
    change (off s1 p) with (off s p). apply cut_restore. unfold off. lia. }
  apply wp_elim in Hwp as (d & s1 & H1 & H2). apply wp_elim in H2 as ([] & s2 & H2 & H3). by exists d, s1, s2.
Qed.
Lemma delete_undo_witness :
  exists d s1 s2, text_hole_delete 1002 1008 ALLOW_UNDO demo = Ok d s1 /\ undo_pop s1 = Ok tt s2 /\ taken_back 1002 demo s2.
Proof.
  apply (delete_undo_roundtrip demo 1002 1008);
    [exact demo_drawable|exact demo_good_alloc|reflexivity|at_demo|at_demo|left; at_demo].
Defined.

(** C7: Undoing an insertion takes it away: undo_pop() right after a recorded
    string_insert() of a non-empty string restores the text, also when the
    block had to move to make room for the string. *)
Theorem insert_undo_roundtrip s p bs : drawable s -> qwf s -> good_alloc s -> undo_q s = 0 ->
  in_text s p -> 0 < zlen bs -> endp s - text s + zlen bs < 2 ^ 25 ->
  exists bias s1 s2, string_insert p bs ALLOW_UNDO s = Ok bias s1 /\ undo_pop s1 = Ok tt s2 /\ taken_back (p + bias) s s2.
Proof.
  intros [Hwf Hg Hd Hsb Hsz] Hqw Hal Hq0 Hp Hl Hz.
  assert (Hwp : wp (string_insert p bs ALLOW_UNDO) (fun bias s1 => wp undo_pop (fun _ s2 => taken_back (p + bias) s s2) s1) s).
  { unfold string_insert. cbv zeta. wp_step. unfold undo_push_insert. pose proof (wf_le _ Hwf).
    apply wp_undo_push_object; [done|done|lia|simpl; tauto|intros [?|?]; done|].
    set (u := undo_entry s p (zlen bs) UNDO_INS). assert (Eu : u = mkUndo (p - text s) (zlen bs) UNDO_INS []) by done.
    clearbody u. set (s0 := pushed u s). assert (Hwf0 : wf s0) by (by apply (wf_same s)).
    wp_step. apply wp_hole_make; [done|done|done|lia|]. intros bias s1 Hwf1 Hre Hfr He Hins _.
    destruct (Hre) as (Htx & Hdt & Hsb1 & _). change (text s0) with (text s) in Htx. change (endp s0) with (endp s) in He.
    change (screenbegin s0) with (screenbegin s) in Hsb1. destruct (Hwf1) as [? ? ? ?].
    wp_step. apply wp_wr_n; [txt|txt|]. wp_step.
    replace (Z.to_nat (zlen bs)) with (length bs) in Hins by (unfold zlen; lia).
    assert (Hins' : inserted (off s0 p) bs s0 (put (p + bias) bs s1)) by (by apply inserted_put).
    assert (Hwfp : wf (put (p + bias) bs s1)) by (apply wf_put; [done|txt|txt]).
    set (s1' := put (p + bias) bs s1) in *.
    assert (Hu : text s1' + u_start u = p + bias) by (rewrite Eu; simpl; lia).
    apply (wp_taken_back _ s s1' u _ (p + bias)); try done.
    - change (undo_q s1 = 0). by rewrite (f_equal undo_q Hfr : undo_q s1 = undo_q s0).
    - exact (f_equal undo_stack_tail Hfr).
    - exact (f_equal modified_count Hfr).
    - right. by rewrite Eu.
    - exact (f_equal rows Hfr).
    - exact (f_equal columns Hfr).
    - exact (f_equal tabstop Hfr).
    - exact (f_equal offset Hfr).
    - exact (f_equal screen Hfr).
    - assert (He1 : endp s1' = endp s + zlen bs + bias) by done. assert (Ht1 : text s1' = text s + bias) by done.
      assert (Hsb' : screenbegin s1' = screenbegin s + bias) by done.
      apply wp_undo_apply_ins; [done|rewrite Hu; txt|left; by rewrite Eu|by rewrite Eu|rewrite Hu, Eu; simpl; txt|].
      intros s2 Hwf2 (Htx2 & _ & Hsb2 & _) Hm Hmc He2 Hc2. rewrite Z.add_0_r in *. rewrite Hu in Hc2.
      assert (Hul : u_length u = zlen bs) by (by rewrite Eu). rewrite Hul in *.
      split; [done|]. split; [done|]. split; [by rewrite Hmc, i32_idem, i32_dec_inc|].
      split; [|unfold in_text; rewrite Hsb2, Htx2, Hsb', He2, Hu, Ht1, He1; txt].
      unfold inserted in Hins'. rewrite Hc2, Hins'. change (contents s0) with (contents s). change (off s0 p) with (off s p).
      pose proof (length_contents s Hwf) as Hlc. unfold zlen in Hlc.
      replace (off s1' (p + bias)) with (off s p) by (unfold off; rewrite Ht1; lia).
      replace (off s1' (p + bias + zlen bs)) with (off s p + length bs)%nat by (unfold off, zlen; rewrite Ht1; txt).
      apply insert_cut. unfold off, in_text in *. lia. }
  apply wp_elim in Hwp as (d & s1 & H1 & H2). apply wp_elim in H2 as ([] & s2 & H2 & H3). by exists d, s1, s2.
Qed.
Lemma insert_undo_witness :
  exists bias s1 s2, string_insert 1003 (replicate 100 120) ALLOW_UNDO demo = Ok bias s1 /\
    undo_pop s1 = Ok tt s2 /\ taken_back (1003 + bias) demo s2.
Proof.
  apply (insert_undo_roundtrip demo 1003 (replicate 100 120));
    [exact demo_drawable|exact demo_qwf|exact demo_good_alloc|reflexivity|at_demo..].
Defined.

(** ** The undo queue *)
(** one backspace in insert mode *)
Lemma wp_backspace E s p undo (Q : Z -> Ed -> Prop) :
  wf s -> qwf s -> text s < p -> p < endp s ->
  (forall m, let sq := commit_full (queued_del (p - 1) s) in
     let s' := set_indentcol 0 (set_endp (endp s - 1) (set_mem m (set_modified_count (i32 (modified_count sq)) sq))) in
     undo_queue_state s = UNDO_EMPTY \/ undo_queue_state s = UNDO_DEL -> wf s' ->
     contents s' = take (off s (p - 1)) (contents s) ++ drop (off s p) (contents s) -> Q (p - 1) s') ->
  undo_queue_state s = UNDO_EMPTY \/ undo_queue_state s = UNDO_DEL ->
  wpe E (char_insert p 8 undo) Q s.
Proof.
  intros Hwf Hq Hp Hlt HQ Hst. unfold char_insert. cbv zeta. change (u8 8) with 8. wp_step.
  apply (wp_begin_line s Hwf); [txt|]. intros bol _. do 2 wp_step. cbn [Z.eqb Pos.eqb andb orb]. wp_step.
  replace (text s <? p) with true by lia. wp_step. apply wp_hole_delete_gen; [done|lia|lia|].
  replace (p - 1 - (p - 1) + 1) with 1 by lia. unfold del_push, undo_push. change (u32 1) with 1. do 2 wp_step.
  change (UNDO_DEL_QUEUED =? UNDO_EMPTY) with false. change (UNDO_DEL_QUEUED =? UNDO_DEL_QUEUED) with true.
  change (negb (1 =? 1)) with false. cbv iota.
  replace ((undo_queue_state s =? UNDO_EMPTY) || (undo_queue_state s =? UNDO_DEL)) with true
    by (destruct Hst as [-> | ->]; done).
  apply wp_queue_deleted; [done|done|txt|]. split; [apply queued_del_uframe|].
  intros s1 (Hwf1 & Hc & m & ->). wp_step. wp_step. wp_step. unfold del_dest.
  replace (p - 1 - (p - 1) + 1) with 1 in * by lia.
  replace (endp s - 1 <=? text s) with false by lia. replace (endp s - 1 <=? p - 1) with false by lia.
  set (sq := commit_full (queued_del (p - 1) s)) in *. assert (Hu : uframe sq = uframe s) by apply queued_del_uframe.
  rewrite i32_dec_inc in *. rewrite (f_equal endp Hu : endp sq = endp s) in *.
  specialize (HQ m Hst). apply HQ.
  - eapply wf_same; [..|exact Hwf1]; done.
  - match goal with |- contents (set_indentcol 0 ?a) = _ => change (contents a = take (off s (p - 1)) (contents s) ++ drop (off s p) (contents s)) end.
    rewrite Hc. rewrite (contents_uframe _ _ Hu). replace (p - 1 + 1) with p by lia.
    unfold off. by rewrite (f_equal text Hu : text sq = text s).
Qed.

Lemma getb_contents s p : wf s -> text s <= p < endp s -> contents s !! off s p = Some (getb s p).
Proof.
  intros Hwf Hp. unfold contents. rewrite (lookup_bytes_at s Hwf) by (txt || (unfold off; lia)).
  do 2 f_equal. unfold off. lia.
Qed.

(** the state after [j] backspaces from [p], none of them committed *)
Record backspaced (s : Ed) (p j : Z) (s' : Ed) : Prop := mkBackspaced {
  bk_wf : wf s';
  bk_text : text s' = text s;
  bk_end : endp s' = endp s - j;
  bk_contents : contents s' = take (off s (p - j)) (contents s) ++ drop (off s p) (contents s);
  bk_q : undo_q s' = j;
  bk_qwf : qwf s';
  bk_state : undo_queue_state s' = (if 0 <? j then UNDO_DEL else UNDO_EMPTY);
  bk_spos : 0 < j -> undo_queue_spos s' = p - j;
  bk_queue : drop (Z.to_nat (VI_UNDO_QUEUE_MAX - j)) (undo_queue s') = bytes_at s (p - j) j;
  bk_stack : undo_stack_tail s' = undo_stack_tail s
}.

Lemma backspaced_0 s p : wf s -> qwf s -> undo_q s = 0 -> backspaced s p 0 s.
Proof.
  intros Hwf Hq H0. destruct (Hq) as [_ Hl He]. split; try done; try lia.
  - rewrite !Z.sub_0_r. by rewrite take_drop.
  - by apply He.
  - unfold bytes_at. apply drop_ge. by rewrite Hl.
Qed.

Lemma backspaced_byte s p j s' : wf s -> backspaced s p j s' -> 0 <= j -> text s <= p - j - 1 -> p <= endp s ->
  getb s' (p - j - 1) = getb s (p - j - 1).
Proof.
  intros Hwf [Hwf' Ht He Hc _ _ _ _ _ _] Hj Hp Hpe.
  pose proof (getb_contents s' (p - j - 1) Hwf' ltac:(lia)) as H1.
  pose proof (getb_contents s (p - j - 1) Hwf ltac:(lia)) as H2.
  rewrite Hc in H1. replace (off s' (p - j - 1)) with (off s (p - j - 1)) in H1 by (unfold off; by rewrite Ht).
  rewrite lookup_app_l in H1.
  - rewrite lookup_take_lt in H1 by (unfold off; lia). congruence.
  - pose proof (length_contents s Hwf) as Hl. unfold zlen, off in *. rewrite length_take. lia.
Qed.
(** the queue grows from its end *)
Lemma queue_grow (q : list Z) (k : nat) x bs : (k < length q)%nat -> drop (S k) q = bs -> drop k (<[k := x]> q) = x :: bs.
Proof.
  intros Hk Hq. rewrite (drop_S _ x).
  - by rewrite drop_insert_lt, Hq by lia.
  - by apply list_lookup_insert_eq.
Qed.

Lemma wp_backspace_step E s p j s' undo (Q : Z -> Ed -> Prop) :
  wf s -> 0 <= j <= 30 -> text s <= p - j - 1 -> p < endp s -> backspaced s p j s' ->
  (forall s2, backspaced s p (j + 1) s2 -> Q (p - (j + 1)) s2) -> wpe E (char_insert (p - j) 8 undo) Q s'.
Proof.
  intros Hwf Hj Hp Hlt Hb HQ. pose proof (backspaced_byte s p j s' Hwf Hb ltac:(lia) Hp ltac:(lia)) as Hbyte.
  destruct Hb as [Hwf' Ht He Hc Hq Hqw Hst Hsp Hqu Hstk].
  apply wp_backspace; [done|done|lia|lia| |rewrite Hst; destruct (0 <? j); tauto].
  intros m. cbv zeta. intros _ Hwf2 Hc2. replace (p - j - 1) with (p - (j + 1)) in * by lia.
  assert (Hcf : commit_full (queued_del (p - (j + 1)) s') = queued_del (p - (j + 1)) s').
  { unfold commit_full. change (undo_q (queued_del (p - (j + 1)) s')) with (undo_q s' + 1). unfold VI_UNDO_QUEUE_MAX.
    by replace (undo_q s' + 1 =? 32) with false by lia. }
  rewrite Hcf in *. pose proof (queued_del_qwf (p - (j + 1)) s' Hqw) as Hqw2. rewrite Hcf in Hqw2.
  apply HQ. split.
  - done.
  - done.
  - simpl. lia.
  - rewrite Hc2, Hc. pose proof (length_contents s Hwf) as Hl. unfold zlen in Hl.
    replace (off s' (p - (j + 1))) with (off s (p - (j + 1))) by (unfold off; by rewrite Ht).
    replace (off s' (p - j)) with (length (take (off s (p - j)) (contents s))) by (rewrite length_take; unfold off; lia).
    rewrite drop_app_length, take_app_le by (rewrite length_take; unfold off; lia).
    rewrite take_take. do 2 f_equal. unfold off. lia.
  - simpl. lia.
  - eapply qwf_same; [..|exact Hqw2]; done.
  - by replace (0 <? j + 1) with true by lia.
  - done.
  - simpl undo_queue. rewrite Hq, Hbyte. destruct (Hqw) as [_ Hlen _].
    pose proof (bytes_at_cons s Hwf (p - (j + 1)) p ltac:(txt) ltac:(lia) ltac:(lia)) as Hcons.
    replace (p - (p - (j + 1))) with (j + 1) in Hcons by lia. rewrite Hcons.
    replace (p - (j + 1) + 1) with (p - j) by lia. replace (p - (p - j)) with j by lia.
    apply queue_grow; [rewrite Hlen; unfold VI_UNDO_QUEUE_MAX; lia|].
    rewrite <- Hqu. f_equal. unfold VI_UNDO_QUEUE_MAX. lia.
  - done.
Qed.

(** C9: Up to 31 backspaces are one undo object: after [k] of them from [p]
    the text has lost the [k] bytes before [p], and committing the queue
    pushes one deletion that starts where the cursor now is and holds these
    bytes in their order - except that it is one byte short when the buffer
    is left with exactly as many bytes as were deleted. *)
Theorem backspaces_queued s p k undo : wf s -> qwf s -> undo_q s = 0 -> text s + k <= p < endp s -> 1 <= k <= 31 ->
  exists s1 s2, fold_n (Z.to_nat k) (fun q => char_insert q 8 undo) p s = Ok (p - k) s1 /\
    contents s1 = take (off s (p - k)) (contents s) ++ drop (off s p) (contents s) /\
    undo_queue_commit s1 = Ok tt s2 /\ contents s2 = contents s1 /\ undo_q s2 = 0 /\
    let n := if text s + k =? endp s - k then k - 1 else k in
    undo_stack_tail s2 = mkUndo (p - k - text s) n UNDO_DEL (bytes_at s (p - k) n) :: undo_stack_tail s.
Proof.
  intros Hwf Hq H0 Hp Hk.
  destruct (run_ok (fold_n (Z.to_nat k) (fun q => char_insert q 8 undo) p) (fun q s1 => q = p - k /\ backspaced s p k s1) s)
    as (q & s1 & Hr & -> & Hb).
  { eapply wpe_mono; [apply (wpe_fold _ (fun j q s1 => q = p - j /\ backspaced s p j s1) _ _ 0)|].
    - intros j q s1 Hj (-> & Hb). apply (wp_backspace_step _ s p j); [done|lia|lia|lia|done|]. done.
    - rewrite Z.sub_0_r. split; [done|]. by apply backspaced_0.
    - intros q s1. replace (0 + Z.of_nat (Z.to_nat k)) with k by lia. done. }
  destruct Hb as [Hwf1 Ht He Hc Hq1 Hqw Hst Hsp Hqu Hstk].
  exists s1, (committed s1). split; [done|]. split; [done|].
  split; [apply undo_queue_commit_ok; rewrite Hq1; unfold VI_UNDO_QUEUE_MAX; lia|].
  split; [apply contents_uframe, committed_uframe|]. unfold committed. rewrite Hq1. replace (0 <? k) with true by lia.
  split; [done|]. cbv zeta. change (undo_stack_tail _) with (queue_entry s1 :: undo_stack_tail s1) at 1. rewrite Hstk. f_equal.
  unfold queue_entry. rewrite Hst, Hsp, Hq1, Ht, He by lia. replace (0 <? k) with true by lia.
  change ((UNDO_DEL =? UNDO_DEL) || (UNDO_DEL =? UNDO_DEL_CHAIN)) with true. cbn [andb]. f_equal.
  rewrite Hqu. unfold bytes_at. rewrite take_take. f_equal. destruct (text s + k =? endp s - k); lia.
Qed.
Lemma backspaces_queued_witness :
  exists s1 s2, fold_n 3 (fun q => char_insert q 8 NO_UNDO) 1005 demo = Ok 1002 s1 /\ undo_queue_commit s1 = Ok tt s2 /\
    undo_stack_tail s2 = [mkUndo 2 3 UNDO_DEL (str "(a)")].
Proof.
  destruct (backspaces_queued demo 1005 3 NO_UNDO) as (s1 & s2 & H1 & _ & H2 & _ & _ & H3);
    [exact demo_wf|exact demo_qwf|reflexivity|at_demo|lia|].
  exists s1, s2. split; [exact H1|]. split; [exact H2|]. rewrite H3. reflexivity.
Defined.

(** Recording a change never faults: for an address of the text and a
    length that lies inside it, undo_push() with any kind of record leaves
    the buffer and every pointer alone, and its queue of single characters
    stays within its array and is empty exactly when it is marked so. *)
Theorem undo_push_safe s src length u_type : wf s -> qwf s -> in_text s src -> 0 <= length < 2 ^ 31 ->
  (u_type = UNDO_DEL \/ u_type = UNDO_DEL_CHAIN -> 0 < length /\ src + length <= endp s) ->
  exists s', undo_push src length u_type s = Ok tt s' /\ uframe s' = uframe s /\ qwf s' /\ contents s' = contents s.
Proof.
  intros Hwf Hq Hp Hl Hd.
  destruct (run_ok (undo_push src length u_type) (fun _ s' => uframe s' = uframe s /\ qwf s') s) as ([] & s' & H1 & H2 & H3).
  - apply wp_undo_push; [done..|]. by intros s' ? ?.
  - exists s'. repeat split; try done; try apply H3. by apply contents_uframe.
Qed.
Lemma undo_push_safe_witness :
  exists s', undo_push 1002 40 UNDO_INS_QUEUED demo = Ok tt s' /\ uframe s' = uframe demo /\ qwf s' /\ contents s' = contents demo.
Proof.
  apply (undo_push_safe demo 1002 40 UNDO_INS_QUEUED);
    [exact demo_wf|exact demo_qwf|at_demo|lia|intros [?|?]; discriminate].
Defined.

(** ** Registers *)
(** the arrays of the registers, and a register that exists *)
Definition regs_ok (s : Ed) : Prop := zlen (reg s) = 28 /\ zlen (regtype s) = 28 /\ 0 <= YDreg s < 28.
(** the state after the bytes [bs] were put in register [r] *)
Definition yanked (r : Z) (bs : list Z) (buftype : Z) (s : Ed) : Ed :=
  set_regtype (<[Z.to_nat r := buftype]> (regtype s)) (set_reg_next (S (reg_next s))
    (set_reg (<[Z.to_nat r := Some (mkReg (reg_next s) bs)]> (reg s)) s)).

Lemma cstr_id bs : ~ In 0 bs -> cstr bs = bs.
Proof.
  induction bs as [|b bs IH]; intros H; [done|]. simpl in *. destruct (Z.eqb_spec b 0) as [->|]; [tauto|].
  f_equal. tauto.
Qed.
(** strndup() stops at a NUL *)
Lemma wp_yank_to E s p q r buftype (Q : Z -> Ed -> Prop) : wf s -> zlen (reg s) = 28 -> zlen (regtype s) = 28 -> 0 <= r < 28 ->
  text s <= p -> p <= q < endp s ->
  Q p (yanked r (cstr (bytes_at s p (q - p + 1))) buftype s) -> wpe E (text_yank p q r buftype) Q s.
Proof.
  intros Hwf Hr Ht Hy Hp Hq HQ. unfold text_yank. cbv zeta. replace (q - p <? 0) with false by lia.
  pose proof (length_bytes_at s Hwf p (q - p + 1) ltac:(txt) ltac:(lia) ltac:(lia)) as Hl.
  pose proof (block_size s Hwf) as Hb. wp_step.
  eapply (wpe_ok _ _ _ _ (cstr (bytes_at s p (q - p + 1))) s).
  { unfold rd_strn. fold (bytes_at s p (q - p + 1)). unfold in_block.
    replace (zlen (bytes_at s p (q - p + 1)) =? q - p + 1) with true by (unfold zlen; lia).
    rewrite orb_true_r. by replace (text s <=? p) with true by lia; replace (p + 0 <=? text s + zlen (mem s)) with true by lia. }
  do 3 wp_step. eapply wpe_ok.
  { unfold set_reg_at. replace ((0 <=? r) && (r <? zlen (reg s))) with true by lia. reflexivity. }
  do 3 wp_step. eapply wpe_ok.
  { unfold set_regtype_at. simpl regtype. replace ((0 <=? r) && (r <? zlen (regtype s))) with true by lia. reflexivity. }
  wp_step. exact HQ.
Qed.
Lemma wp_text_yank_cstr E s p q buftype (Q : Z -> Ed -> Prop) : wf s -> regs_ok s -> text s <= p -> p <= q < endp s ->
  Q p (yanked (YDreg s) (cstr (bytes_at s p (q - p + 1))) buftype s) -> wpe E (text_yank p q (YDreg s) buftype) Q s.
Proof. intros Hwf (? & ? & ?). by apply wp_yank_to. Qed.
Lemma wp_text_yank E s p q buftype (Q : Z -> Ed -> Prop) : wf s -> regs_ok s -> text s <= p -> p <= q < endp s ->
  ~ In 0 (bytes_at s p (q - p + 1)) -> Q p (yanked (YDreg s) (bytes_at s p (q - p + 1)) buftype s) ->
  wpe E (text_yank p q (YDreg s) buftype) Q s.
Proof. intros Hwf Hr Hp Hq H0 HQ. apply wp_text_yank_cstr; [done..|]. by rewrite cstr_id. Qed.

(** C10: yank_delete() moves the text between its two addresses (in either
    order, both included) into the current register, with its type, and
    removes it from the buffer; a deleted text that is put back at the same
    place with string_insert() gives the buffer back.  The text must hold no NUL
    (a register ends at the first one) and, if it is of the type PARTIAL, must
    not begin with a newline (yank_delete() does nothing then). *)
Theorem delete_put_roundtrip s a b buftype undo undo' : wf s -> qwf s -> good_alloc s -> regs_ok s ->
  let lo := Z.min a b in let hi := Z.max a b in
  text s <= lo -> hi < endp s -> hi - lo + 1 < 2 ^ 31 -> ~ In 0 (bytes_at s lo (hi - lo + 1)) ->
  (buftype = PARTIAL -> getb s lo <> 10) ->
  exists d s1 r bias s2, yank_delete a b buftype YANKDEL undo s = Ok d s1 /\
    contents s1 = take (off s lo) (contents s) ++ drop (off s (hi + 1)) (contents s) /\
    reg s1 !! Z.to_nat (YDreg s) = Some (Some r) /\ regtype s1 !! Z.to_nat (YDreg s) = Some buftype /\
    r_text r = bytes_at s lo (hi - lo + 1) /\
    string_insert lo (r_text r) undo' s1 = Ok bias s2 /\ contents s2 = contents s.
Proof.
  intros Hwf Hq Hal Hregs lo hi Hlo Hhi Hn H0 Hpart. assert (Hlh : lo <= hi) by (unfold lo, hi; lia). set (bs := bytes_at s lo (hi - lo + 1)) in *.
  destruct (Hregs) as (Hr & Ht & Hy). unfold zlen in Hr, Ht. set (s0 := yanked (YDreg s) bs buftype s).
  assert (Hwf0 : wf s0) by (by apply (wf_same s)). assert (Hq0 : qwf s0) by (by apply (qwf_same s)).
  destruct (run_ok (yank_delete a b buftype YANKDEL undo) (fun _ s1 => wf s1 /\ qwf s1 /\ dframe s1 = dframe s0 /\
     endp s1 = endp s - (hi - lo + 1) /\
     contents s1 = take (off s lo) (contents s) ++ drop (off s (hi + 1)) (contents s)) s)
    as (d & s1 & H1 & Hwf1 & Hq1 & Hf1 & He1 & Hc1).
  { unfold yank_delete. replace (if b <? a then (b, a) else (a, b)) with (lo, hi)
      by (unfold lo, hi; destruct (Z.ltb_spec b a); f_equal; lia).
    assert (Hgo : forall c, (buftype = PARTIAL -> c = getb s lo) -> wp
      (if (buftype =? PARTIAL) && (c =? 10) then ret lo
       else y <- gets YDreg ;; text_yank lo hi y buftype ;; text_hole_delete lo hi undo)
      (fun _ s1 => wf s1 /\ qwf s1 /\ dframe s1 = dframe s0 /\ endp s1 = endp s - (hi - lo + 1) /\
        contents s1 = take (off s lo) (contents s) ++ drop (off s (hi + 1)) (contents s)) s).
    { intros c Hc. wp_step.
      - apply andb_true_iff in H as [Hb1 Hb2]. apply Z.eqb_eq in Hb1, Hb2. exfalso. apply Hpart; [done|]. by rewrite <- Hc.
      - do 3 wp_step. apply wp_text_yank; [done|done|done|lia|done|].
        apply (wp_hole_delete _ s0); [done|done|exact Hlo|exact (conj Hlh Hhi)|lia|]. done. }
    wp_step. wp_step.
    - apply Z.eqb_eq in H. apply (wp_rd s Hwf); [txt|]. by apply Hgo.
    - apply Z.eqb_neq in H. wp_step. by apply Hgo. }
  assert (Hin : in_text s1 lo).
  { unfold in_text. rewrite (f_equal text Hf1 : text s1 = text s), He1. lia. }
  assert (Hlbs : zlen bs = hi - lo + 1) by (unfold zlen, bs; rewrite (length_bytes_at s Hwf) by txt; lia).
  destruct (run_ok (string_insert lo bs undo') (fun _ s2 => contents s2 = contents s) s1) as (bias & s2 & H2 & Hc2).
  { apply wp_string_insert; [done|done|by apply (good_alloc_same s); [exact (f_equal env Hf1)|]|done|lia|].
    intros bias s2 (_ & _ & _ & _ & _ & Hins) _. unfold inserted in Hins. rewrite Hins, Hc1. unfold bs.
    rewrite (bytes_contents s lo) by lia. replace (off s1 lo) with (off s lo) by (unfold off; by rewrite (f_equal text Hf1 : text s1 = text s)).
    replace (off s (hi + 1)) with (off s lo + Z.to_nat (hi - lo + 1))%nat by (unfold off; lia).
    apply cut_restore. pose proof (length_contents s Hwf) as Hlc. unfold zlen, off in *. lia. }
  exists d, s1, (mkReg (reg_next s) bs), bias, s2. split; [done|]. split; [done|].
  split. { rewrite (f_equal reg Hf1 : reg s1 = reg s0). unfold s0, yanked. cbn [reg set_regtype set_reg_next set_reg].
    apply list_lookup_insert_eq. lia. }
  split. { rewrite (f_equal regtype Hf1 : regtype s1 = regtype s0). unfold s0, yanked. cbn [regtype set_regtype].
    apply list_lookup_insert_eq. lia. }
  done.
Qed.
Lemma delete_put_witness :
  exists d s1 r bias s2, yank_delete 1006 1003 PARTIAL YANKDEL ALLOW_UNDO demo = Ok d s1 /\
    r_text r = [97; 41; 10; 9] /\ string_insert 1003 (r_text r) NO_UNDO s1 = Ok bias s2 /\ contents s2 = contents demo.
Proof.
  destruct (delete_put_roundtrip demo 1006 1003 PARTIAL ALLOW_UNDO NO_UNDO) as (d & s1 & r & bias & s2 & H1 & _ & _ & _ & H2 & H3 & H4);
    [exact demo_wf|exact demo_qwf|exact demo_good_alloc|at_demo|at_demo|at_demo|at_demo| | |].
  - vm_compute. intuition discriminate.
  - intros _. vm_compute. discriminate.
  - exists d, s1, r, bias, s2. split; [exact H1|]. split; [exact H2|]. split; [exact H3|exact H4].
Defined.
