(* ===== verification/EvimErase.v ===== *)
(** * evim: erasing characters, and taking it back

    [cut s p j s'] relates a buffer to what is left when the [j] characters
    from [p] on were deleted one by one, as "x" does, and how the undo stack
    grew.  The deletions go from one such state to the next, and the turns of
    undo_pop() go back. *)
From S2P Require Import Prelude EvimState EvimLine EvimSyntax EvimInput EvimTerm EvimEdit EvimEx EvimCmd.
From S2P Require Import EvimNav EvimHole EvimUndo EvimColor EvimFormat EvimRefresh EvimDisplay EvimPop.
From S2P Require Import EvimStatus EvimDemo EvimEditProps EvimMotion EvimWalk.

(** the objects of [j] deletions at [p], the newest first *)
Fixpoint cut_objs (s : Ed) (p : Z) (j : nat) : list undo_object :=
  match j with
  | O => []
  | S i => mkUndo (p - text s) 1 (if (i =? 0)%nat then UNDO_DEL else UNDO_DEL_CHAIN) [getb s (p + Z.of_nat i)] :: cut_objs s p i
  end.
Record cut (s : Ed) (p : Z) (j : nat) (s' : Ed) : Prop := mkCut {
  cu_wf : wf s';
  cu_text : text s' = text s;
  cu_end : endp s' = endp s - Z.of_nat j;
  cu_size : text_size s' = text_size s;
  cu_con : contents s' = take (off s p) (contents s) ++ drop (off s p + j) (contents s);
  cu_stk : undo_stack_tail s' = cut_objs s p j ++ undo_stack_tail s;
  cu_mc : i32 (modified_count s') = i32 (modified_count s + Z.of_nat j);
  cu_q : undo_q s' = 0
}.
(** all that "x" leaves alone, but for the cursor *)
Definition xframe (s : Ed) : Ed :=
  set_mem [] (set_endp 0 (set_undo_stack_tail [] (set_modified_count 0 (set_reg [] (set_regtype [] (set_reg_next 0%nat s)))))).
(** and for the count *)
Definition xcframe (s : Ed) : Ed := set_cmdcnt 0 (xframe s).
(** all that undo_apply() leaves alone *)
Definition yframe (s : Ed) : Ed :=
  set_mem [] (set_endp 0 (set_undo_stack_tail [] (set_modified_count 0 (set_have_status_msg 0 (set_status_buffer [] s))))).

Section cut.
Context (s : Ed) (p : Z) (Hwf : wf s) (Hp : text s <= p).

Lemma cut_refl : undo_q s = 0 -> cut s p 0 s.
Proof using Hwf. intros Hq. split; try done; [lia| |f_equal; lia]. by rewrite Nat.add_0_r, take_drop. Qed.

(** the bytes of what is left *)
Lemma cut_getb j s' q : p + Z.of_nat j < endp s -> cut s p j s' -> text s <= q < endp s' ->
  getb s' q = getb s (if q <? p then q else q + Z.of_nat j).
Proof using Hwf Hp.
  intros Hj [Hwf' Ht He _ Hc _ _ _] Hq. pose proof (length_contents s Hwf) as Hl. unfold zlen in Hl.
  assert (H1 : contents s' !! off s' q = Some (getb s' q)) by (apply getb_contents; [done|lia]).
  rewrite Hc in H1. unfold off in H1. rewrite Ht in H1. fold (off s p) (off s q) in H1.
  assert (Ht1 : length (take (off s p) (contents s)) = off s p) by (rewrite length_take; unfold off; lia).
  destruct (Z.ltb_spec q p).
  - rewrite lookup_app_l, lookup_take_lt in H1 by (unfold off in *; lia). rewrite getb_contents in H1 by (done || lia).
    by injection H1.
  - rewrite lookup_app_r, Ht1, lookup_drop in H1 by (unfold off in *; lia).
    replace (off s p + j + (off s q - off s p))%nat with (off s (q + Z.of_nat j)) in H1 by (unfold off; lia).
    rewrite getb_contents in H1 by (done || lia). by injection H1.
Qed.

(** one more character is deleted *)
Lemma wp_cut_step E j s1 (Q : Z -> Ed -> Prop) : p + Z.of_nat j < endp s - 1 -> endp s - text s < 2 ^ 25 ->
  getb s (p + Z.of_nat j) <> 10 -> cut s p j s1 -> regs_ok s1 ->
  (forall s2, cut s p (S j) s2 -> regs_ok s2 -> xframe s2 = xframe s1 -> Q p s2) ->
  wpe E (yank_delete p p PARTIAL YANKDEL (if (j =? 0)%nat then ALLOW_UNDO else ALLOW_UNDO_CHAIN)) Q s1.
Proof using Hwf Hp.
  intros Hj Hsz H10 Hcut Hreg HQ. destruct (Hcut) as [Hwf1 Ht He Hts Hc Hstk Hmc Hq].
  assert (Hg : getb s1 p = getb s (p + Z.of_nat j)).
  { rewrite (cut_getb j s1 p) by (done || lia). by rewrite Z.ltb_irrefl. }
  unfold yank_delete. rewrite Z.ltb_irrefl. change (PARTIAL =? PARTIAL) with true. cbv iota. wp_step.
  apply (wp_rd s1 Hwf1); [txt|]. replace (getb s1 p =? 10) with false by lia. cbn [andb]. do 2 wp_step. wp_step.
  apply wp_text_yank_cstr; [done|done|lia|lia|]. unfold YANKDEL. set (s1' := yanked _ _ _ s1).
  set (au := if (j =? 0)%nat then ALLOW_UNDO else ALLOW_UNDO_CHAIN).
  apply (wp_hole_delete_as E s1' p p au (if (j =? 0)%nat then UNDO_DEL else UNDO_DEL_CHAIN)).
  - unfold au. destruct (j =? 0)%nat; [by left|by right].
  - by apply (wf_same s1).
  - change (text s1') with (text s1). lia.
  - change (endp s1') with (endp s1). lia.
  - lia.
  - right. change (endp s1') with (endp s1). lia.
  - intros s2 m Hwf2 Hc2 Hs2. replace (p - p + 1) with 1 in Hs2 by lia.
    change (endp s1') with (endp s1) in Hs2. change (text s1') with (text s1) in Hs2.
    assert (Hdest : del_dest s1' p p = p).
    { unfold del_dest. change (endp s1') with (endp s1). change (text s1') with (text s1).
      replace (p - p + 1) with 1 by lia. replace (endp s1 - 1 <=? text s1) with false by lia.
      by replace (endp s1 - 1 <=? p) with false by lia. }
    rewrite Hdest. apply HQ; [|destruct Hreg as (H1 & H2 & H3); subst s2; split; [|split]|by subst s2].
    + split; [done|by subst s2|subst s2; simpl; lia|by subst s2| | | |by subst s2].
      * rewrite Hc2. change (contents s1') with (contents s1). change (off s1' p) with (off s1 p).
        change (off s1' (p + 1)) with (off s1 (p + 1)). rewrite Hc. unfold off. rewrite Ht. fold (off s p).
        pose proof (length_contents s Hwf) as Hl. unfold zlen in Hl.
        assert (Ht1 : length (take (off s p) (contents s)) = off s p) by (rewrite length_take; unfold off; lia).
        rewrite take_app_length' by done. rewrite drop_app_ge by (rewrite Ht1; unfold off; lia). rewrite drop_drop, Ht1.
        do 2 f_equal. unfold off. lia.
      * subst s2. simpl. rewrite Ht, Hstk. f_equal. f_equal. change (bytes_at s1' p 1) with (bytes_at s1 p 1).
        pose proof (bytes_at_cons s1 Hwf1 p (p + 1) ltac:(txt) ltac:(lia) ltac:(lia)) as Hb.
        replace (p + 1 - p) with 1 in Hb by lia. rewrite Hb, Hg. by rewrite bytes_at_nil.
      * subst s2. simpl. rewrite i32_idem, <- i32_idem_add, Hmc, i32_idem_add. f_equal. lia.
    + simpl. by rewrite zlen_insert.
    + simpl. by rewrite zlen_insert.
    + done.
Qed.

(** and the newest deletion is applied backwards *)
Lemma wp_uncut E j s1 (Q : unit -> Ed -> Prop) : p + Z.of_nat (S j) < endp s -> cut s p (S j) s1 ->
  let u := mkUndo (p - text s) 1 (if (j =? 0)%nat then UNDO_DEL else UNDO_DEL_CHAIN) [getb s (p + Z.of_nat j)] in
  (forall s2, text s2 = text s -> undo_stack_tail s2 = undo_stack_tail s1 -> modified_count s2 = modified_count s1 ->
     yframe s2 = yframe s1 ->
     cut s p j (set_modified_count (i32 (modified_count s2 - 1)) (set_undo_stack_tail (cut_objs s p j ++ undo_stack_tail s) s2)) ->
     Q tt s2) ->
  wpe E (undo_apply u) Q s1.
Proof using Hwf Hp.
  intros Hj [Hwf1 Ht He Hts Hc Hstk Hmc Hq] u HQ. destruct (Hwf) as [Hp0 Hle Hlt Hms].
  assert (Hpu : text s1 + u_start u = p) by (simpl; lia).
  apply wp_undo_apply_del_fits; [done|rewrite Hpu; txt|unfold u; simpl; destruct (j =? 0)%nat; tauto|done|simpl; lia|simpl; lia|].
  intros m n b s2 Hwf2 Hins. rewrite Hpu in Hins. change (u_length u) with 1 in *. apply HQ; try done.
  set (s3 := set_modified_count _ _).
  assert (Hmc3 : i32 (modified_count s3) = i32 (modified_count s + Z.of_nat j)).
  { change (modified_count s3) with (i32 (modified_count s1 - 1)).
    rewrite i32_idem, <- i32_idem_sub, Hmc, i32_idem_sub. f_equal. lia. }
  split; try done.
  - by apply (wf_same s2).
  - change (endp s3) with (endp s1 + 1). lia.
  - change (contents s3) with (contents s2). unfold inserted in Hins. rewrite Hins. change (u_text u) with [getb s (p + Z.of_nat j)].
    rewrite Hc. unfold off. rewrite Ht. fold (off s p). pose proof (length_contents s Hwf) as Hl. unfold zlen in Hl.
    assert (Ht1 : length (take (off s p) (contents s)) = off s p) by (rewrite length_take; unfold off; lia).
    rewrite take_app_length', drop_app_length' by done. f_equal.
    symmetry. rewrite (drop_S _ (getb s (p + Z.of_nat j)) (off s p + j)).
    + simpl. do 2 f_equal. lia.
    + replace (off s p + j)%nat with (off s (p + Z.of_nat j)) by (unfold off; lia). apply getb_contents; [done|lia].
Qed.
End cut.

(** ** Taking everything back *)
(** all that undo_pop() leaves alone *)
Definition zframe (s : Ed) : Ed :=
  set_dot 0 (set_mem [] (set_endp 0 (set_undo_stack_tail [] (set_modified_count 0 (pframe s))))).
Lemma zframe_yframe s s' : yframe s' = yframe s -> zframe s' = zframe s.
Proof.
  intros H. exact (f_equal (fun x => set_dot 0 (set_mem [] (set_endp 0 (set_undo_stack_tail [] (set_modified_count 0 (pframe x)))))) H).
Qed.
Lemma zframe_tframe s s' : tframe s' = tframe s -> zframe s' = zframe s.
Proof.
  intros H. exact (f_equal (fun x => set_dot 0 (set_mem [] (set_endp 0 (set_undo_stack_tail [] (set_modified_count 0
    (set_have_status_msg 0 (set_last_status_cksum 0 (set_status_buffer [] (set_format_edit_status_tot 0
    (set_last_modified_count 0 x)))))))))) H).
Qed.

Section uncut.
Context (s : Ed) (p : Z) (Hwf : wf s) (Hp : text s <= p) (Hsz : endp s - text s < 2 ^ 25).

Lemma cut_objs_last i : exists u rest, cut_objs s p (S i) ++ undo_stack_tail s = u :: rest /\
  rest = cut_objs s p i ++ undo_stack_tail s /\
  u = mkUndo (p - text s) 1 (if (i =? 0)%nat then UNDO_DEL else UNDO_DEL_CHAIN) [getb s (p + Z.of_nat i)].
Proof. by do 2 eexists. Qed.

Lemma geometry_yframe s1 s2 : yframe s2 = yframe s1 -> geometry s1 -> geometry s2.
Proof.
  intros Hy. apply geometry_same; [exact (f_equal rows Hy)|exact (f_equal columns Hy)|exact (f_equal tabstop Hy)|
    exact (f_equal offset Hy)|exact (f_equal screen Hy)].
Qed.
(** the turn that gives the first character back *)
Lemma wp_uncut_last E s1 (Q : bool -> Ed -> Prop) : p + 1 < endp s -> cut s p 1 s1 ->
  geometry s1 -> text s <= screenbegin s1 < endp s ->
  (forall s2, cut s p 0 s2 -> dot s2 = p -> zframe s2 = zframe s1 -> Q false s2) -> wpe E undo_pop_one Q s1.
Proof using Hwf Hp Hsz.
  intros Hj Hcut Hg Hsb HQ. destruct (cut_objs_last 0) as (u & rest & Hu & Hrest & Eu).
  pose proof (cu_stk _ _ _ _ Hcut) as Hstk. rewrite Hu in Hstk.
  apply (wp_undo_pop_last s1 u E rest); [exact (cu_q _ _ _ _ Hcut)|done|rewrite Eu; by left|]. rewrite Eu.
  apply (wp_uncut s p Hwf Hp E 0 s1); [lia|done|]. intros s2 Ht2 Hst2 Hmc2 Hy [Hwf3 _ He3 Hts3 Hc3 _ Hmc3 Hq3].
  set (s3 := set_dot _ s2).
  assert (Hd3 : dot s3 = p) by (change (dot s3) with (text s2 + (p - text s)); lia).
  assert (Hwf2 : wf s2) by (revert Hwf3; by apply wf_same).
  change (endp s2 = endp s - Z.of_nat 0) in He3. assert (Hsb2 : screenbegin s2 = screenbegin s1) by exact (f_equal screenbegin Hy).
  split.
  { split; [by apply (wf_same s2)|apply (geometry_same s2); [done..|by apply (geometry_yframe s1)]| | |].
    - rewrite Hd3. unfold in_text. change (text s3) with (text s2). change (endp s3) with (endp s2). lia.
    - unfold in_text. change (text s3) with (text s2). change (endp s3) with (endp s2).
      change (screenbegin s3) with (screenbegin s2). lia.
    - change (text s3) with (text s2). change (endp s3) with (endp s2). lia. }
  intros s' [Hf Hdr _ _]. apply HQ.
  - split.
    + apply (wf_same s'); try done. by destruct Hdr.
    + exact (eq_trans (f_equal text Hf) Ht2).
    + exact (eq_trans (f_equal endp Hf) He3).
    + exact (eq_trans (f_equal text_size Hf) Hts3).
    + rewrite <- Hc3. apply contents_same; [exact (f_equal text Hf)|exact (f_equal endp Hf)|exact (f_equal mem Hf)].
    + exact Hrest.
    + rewrite <- Hmc3. change (i32 (i32 (modified_count s' - 1)) = i32 (i32 (modified_count s2 - 1))).
      by rewrite (f_equal modified_count Hf : modified_count s' = modified_count s2).
    + exact (eq_trans (f_equal undo_q Hf) Hq3).
  - exact (eq_trans (f_equal dot Hf) Hd3).
  - transitivity (zframe s2); [exact (zframe_tframe _ _ Hf)|by apply zframe_yframe].
Qed.
Lemma wp_uncut_all E j fuel s1 (Q : unit -> Ed -> Prop) : (0 < j <= fuel)%nat -> p + Z.of_nat j < endp s -> cut s p j s1 ->
  geometry s1 -> text s <= screenbegin s1 < endp s ->
  (forall s2, cut s p 0 s2 -> dot s2 = p -> zframe s2 = zframe s1 -> Q tt s2) -> wpe E (undo_pop_go fuel) Q s1.
Proof using Hwf Hp Hsz.
  revert fuel s1. induction j as [|i IH]; intros fuel s1 Hfuel Hj Hcut Hg Hsb HQ; [lia|].
  destruct fuel as [|fuel]; [lia|]. cbn [undo_pop_go]. wp_step. destruct i as [|i].
  { apply wp_uncut_last; [lia|done..|]. intros s2 Hcut2 Hd2 Hz2. wp_step. by apply HQ. }
  destruct (cut_objs_last (S i)) as (u & rest & Hu & Hrest & Eu). pose proof (cu_stk _ _ _ _ Hcut) as Hstk. rewrite Hu in Hstk.
  apply (wp_undo_pop_chained s1 u E rest); [exact (cu_q _ _ _ _ Hcut)|done|rewrite Eu; by left|]. rewrite Eu.
  apply (wp_uncut s p Hwf Hp E (S i) s1); [done|done|]. intros s2 Ht2 Hst2 Hmc2 Hy Hcut2. rewrite <- Hrest in Hcut2.
  apply IH; [lia|lia|done| | |].
  - apply (geometry_same s2); [done..|by apply (geometry_yframe s1)].
  - change (text s <= screenbegin s2 < endp s). by rewrite (f_equal screenbegin Hy : screenbegin s2 = screenbegin s1).
  - intros s4 Hcut4 Hd4 Hz4. apply HQ; [done|done|]. rewrite Hz4. transitivity (zframe s2); [done|by apply zframe_yframe].
Qed.
End uncut.

(** ** The command "x" *)
(** [k] characters are erased from [p] on: as many as the count says, or all
    up to the newline *)
Record erased (s : Ed) (p : Z) (k : nat) (s' : Ed) : Prop := mkErased {
  er_cut : cut s p k s';
  er_regs : regs_ok s';
  er_frame : xcframe s' = xcframe s;
  er_some : 1 <= Z.of_nat k <= Z.max 1 (cmdcnt s);
  er_line : none_in s 10 p (p + Z.of_nat k);
  er_all : Z.of_nat k = Z.max 1 (cmdcnt s) \/ getb s (p + Z.of_nat k) = 10
}.
Section x.
Context (s : Ed) (Hs : at_ease s) (Hc : counted s) (Hr : regs_ok s) (H10 : getb s (dot s) <> 10).
Let p := dot s.

Lemma none_in_room j : none_in s 10 p (p + Z.of_nat j) -> p + Z.of_nat j < endp s.
Proof using Hs.
  intros Hn. pose proof (ease_dot s Hs). destruct (Z.lt_ge_cases (p + Z.of_nat j) (endp s)); [done|]. exfalso.
  apply (Hn (endp s - 1)); [unfold p in *; lia|by apply ease_nl].
Qed.
(** the loop of "x", before a turn and after it *)
Record erasing (j : nat) (au : allow_undo) (s1 : Ed) : Prop := mkErasing {
  eg_cut : cut s p j s1;
  eg_regs : regs_ok s1;
  eg_frame : xcframe s1 = xcframe s;
  eg_au : au = if (j =? 0)%nat then ALLOW_UNDO else ALLOW_UNDO_CHAIN;
  eg_line : none_in s 10 p (p + Z.of_nat j);
  eg_cnt : counted s1;
  eg_le : Z.of_nat j + Z.max 1 (cmdcnt s1) <= Z.max 1 (cmdcnt s);
  eg_all : Z.of_nat j + Z.max 1 (cmdcnt s1) = Z.max 1 (cmdcnt s) \/ getb s (p + Z.of_nat j) = 10
}.
Lemma wp_x_turn E j au s1 (Q : allow_undo + unit -> Ed -> Prop) : erasing j au s1 ->
  (forall j' s2, cut s p j' s2 -> regs_ok s2 -> xcframe s2 = xcframe s -> cmdcnt s2 = cmdcnt s1 ->
     none_in s 10 p (p + Z.of_nat j') -> (j' = S j \/ (j' = j /\ getb s (p + Z.of_nat j) = 10)) ->
     Q (inl (if (j' =? 0)%nat then ALLOW_UNDO else ALLOW_UNDO_CHAIN)) s2) -> wpe E (x_body 120 au) Q s1.
Proof using Hs.
  intros [Hcut Hregs Hf Hau Hn _ _ _] HQ. pose proof (none_in_room j Hn) as Hroom. pose proof (ease_dot s Hs) as Hd.
  assert (Hdot : dot s1 = p) by exact (f_equal dot Hf). pose proof (cu_wf _ _ _ _ Hcut) as Hwf1.
  pose proof (cu_text _ _ _ _ Hcut). pose proof (cu_end _ _ _ _ Hcut).
  unfold x_body. do 3 wp_step. change (120 =? 88) with false. cbv iota. rewrite Z.add_0_r, Hdot.
  apply (wp_rd s1 Hwf1); [unfold p in *; txt|].
  assert (Hg : getb s1 p = getb s (p + Z.of_nat j)).
  { rewrite (cut_getb s p (ease_wf s Hs) ltac:(unfold p; lia) j s1 p) by (done || unfold p in *; lia). by rewrite Z.ltb_irrefl. }
  rewrite Hg. wp_step.
  - apply negb_true_iff, Z.eqb_neq in H1. unfold when. do 5 wp_step.
    unfold set_dot_from. wp_step. assert (Hyd : wpe E (yank_delete p p PARTIAL YANKDEL au)
      (fun d s2 => wpe E (modify (set_dot d)) (fun _ s3 => wpe E (ret (inl ALLOW_UNDO_CHAIN)) Q s3) s2) s1); [rewrite Hau|by rewrite <- Hdot in Hyd].
    apply (wp_cut_step s p (ease_wf s Hs)); [unfold p; lia| |destruct (ae_draw s Hs); lia|done|done|done|].
    { destruct (Z.eq_dec (p + Z.of_nat j) (endp s - 1)) as [E0|]; [|lia]. exfalso. apply H1. rewrite E0. by apply ease_nl. }
    intros s2 Hcut2 Hregs2 Hf2. do 2 wp_step.
    assert (Hsd : set_dot p s2 = s2).
    { assert (Hd2 : dot s2 = p) by (transitivity (dot s1); [exact (f_equal dot Hf2)|done]). by rewrite <- Hd2. }
    rewrite Hsd. apply (HQ (S j)); [done|done|rewrite <- Hf; exact (f_equal (set_cmdcnt 0) Hf2)| | |by left].
    + exact (f_equal cmdcnt Hf2).
    + intros i Hi. destruct (Z.eq_dec i (p + Z.of_nat j)) as [->|]; [done|]. apply Hn. lia.
  - apply negb_false_iff, Z.eqb_eq in H1. wp_step. rewrite Hau. apply HQ; try done. by right.
Qed.
Lemma wp_x_loop E (Q : allow_undo + unit -> Ed -> Prop) :
  (forall k r s', erased s p k s' -> Q r s') -> wpe E (do_cmdcnt_var (x_body 120) ALLOW_UNDO) Q s.
Proof using Hs Hc Hr H10.
  intros HQ. unfold do_cmdcnt_var. do 2 wp_step.
  apply (wpe_iter E (fun au s1 => exists j, erasing j au s1) (fun _ s1 => cmdcnt s1)); [| |unfold counted in Hc; lia].
  2:{ exists 0%nat. split; try done; [|intros i Hi; lia|left; lia].
      apply cut_refl; [by apply ease_wf|by destruct Hs]. }
  intros au s1 (j & He). destruct (He) as [_ _ _ _ _ Hc1 Hle Hall]. split; [apply Hc1|]. unfold cmdcnt_var_body. wp_step.
  apply (wp_x_turn E j au s1); [done|]. intros j' s2 Hcut2 Hregs2 Hf2 Hcc Hn2 Hj. unfold counted in *.
  do 3 wp_step. rewrite i32_count by lia. wp_step. set (s3 := set_cmdcnt _ s2).
  assert (Hcut3 : cut s p j' s3) by (destruct Hcut2; by split; [apply (wf_same s2)|..]).
  assert (Hj0 : Z.of_nat j' >= 1).
  { destruct Hj as [->|[-> Hg]]; [lia|]. destruct j as [|j]; [|lia]. exfalso. apply H10. rewrite <- Hg. f_equal. unfold p. lia. }
  change (cmdcnt s3) with (cmdcnt s2 - 1). destruct (Z.ltb_spec 0 (cmdcnt s2 - 1)); [split; [exists j'|]|].
  - split; try done; change (cmdcnt s3) with (cmdcnt s2 - 1); [unfold counted; simpl; lia|lia|].
    destruct Hj as [->|[-> Hg]]; [|by right]. destruct Hall as [Hall|Hall]; [left; lia|].
    exfalso. apply (Hn2 (p + Z.of_nat j)); [lia|done].
  - simpl. lia.
  - apply (HQ j'). split; try done; [lia|]. destruct Hj as [->|[-> Hg]]; [|by right]. destruct Hall as [Hall|Hall]; [left; lia|].
    exfalso. apply (Hn2 (p + Z.of_nat j)); [lia|done].
Qed.
End x.
