(* ===== verification/EvimDisplayProps.v ===== *)
(** * evim: correctness of the display

    The theorems about format_line(), refresh() and the cursor. *)
From S2P Require Import Prelude EvimState EvimLine EvimSyntax EvimInput EvimTerm EvimEdit EvimEx EvimCmd EvimMain.
From S2P Require Import EvimNav EvimHole EvimUndo EvimColor EvimFormat EvimRefresh EvimDisplay EvimPop EvimDemo.

(** C36: format_line() answers the visible window of the drawn line: the line
    is drawn byte by byte (tabs as blanks, control characters as ^X, bytes
    that are not ASCII as dots), shifted by the columns scrolled off to the
    left and padded with blanks; a line past the end of the text is a tilde.
    No write leaves its buffer, whatever the line holds. *)
Theorem format_line_spec s src : wf s -> geometry s -> in_text s src ->
  exists l e, format_line src s = Ok l s /\ line_end s src e /\ columns s <= zlen l /\
    take (Z.to_nat (columns s)) l = window (offset s) (columns s) (line_drawn s src e).
Proof.
  intros Hwf Hg Hin.
  assert (H : wp (format_line src) (fun l s' => s' = s /\ exists e, line_end s src e /\ columns s <= zlen l /\
    take (Z.to_nat (columns s)) l = window (offset s) (columns s) (line_drawn s src e)) s).
  { apply (wp_format_line s Hwf Hg); [done|]. intros l e ? ? ?. split; [done|]. by exists e. }
  apply wp_elim in H as (l & s' & Hr & -> & e & ?). by exists l, e.
Qed.
Lemma format_line_witness :
  exists l e, format_line 1006 demo = Ok l demo /\ line_end demo 1006 e /\ take 10 l = str "       x; ".
Proof.
  destruct (format_line_spec demo 1006) as (l & e & Hr & He & _ & Hw);
    [exact demo_wf|exact demo_geometry|at_demo|].
  exists l, e. split; [exact Hr|]. split; [exact He|].
  assert (e = 1009) as ->.
  { apply (line_end_inj demo 1006); [exact He|]. split; [at_demo|]. split; [|reflexivity]. intros i Hi Hc.
    assert (i = 1006 \/ i = 1007 \/ i = 1008) as [-> |[-> | ->]] by lia; discriminate. }
  change 10%nat with (Z.to_nat (columns demo)). rewrite Hw. reflexivity.
Defined.

(** C8: After refresh() the virtual screen shows the text: from any state
    with a sound buffer and screen it ends without a fault, changes nothing
    but display variables, and row by row the screen then holds the visible
    window of the lines of the text from the top line on, tildes below the
    last one. *)
Theorem refresh_mirrors_text s full : drawable s ->
  exists s', refresh full s = Ok tt s' /\ tframe s' = tframe s /\ drawable s' /\
    mirrors s' (screen s') (Z.to_nat (rows s - 1)) 0 (screenbegin s').
Proof.
  intros Hd. destruct (wp_elim (refresh full) (fun _ s' => refreshed s s') s) as ([] & s' & Hr & []).
  - by apply wp_refresh.
  - by exists s'.
Qed.
Lemma refresh_mirrors_witness :
  exists s', refresh false demo = Ok tt s' /\ mirrors s' (screen s') 3 0 (screenbegin s') /\
    take 30 (screen s') = str "if(a)            x; y         ".
Proof.
  destruct (refresh_mirrors_text demo false demo_drawable) as (s' & Hr & _ & _ & Hm).
  exists s'. split; [exact Hr|]. split; [exact Hm|].
  assert (Ok tt s' = refresh false demo) as E by (symmetry; exact Hr).
  apply (f_equal (fun o => match o with Ok _ s => take 30 (screen s) | Err _ => [] end)) in E. exact E.
Defined.

(** C34: refresh() keeps the cursor on the screen: in a buffer that ends in a
    newline, with the top line at the start of a line, the new top line is
    again at the start of a line, the line of dot is the crow-th line below
    it and above the status line, and the column ccol, counted with the
    columns scrolled off, is where next_column() puts the character at dot: the
    sum of the widths of the characters before it.  That is where it is drawn
    unless a tab is among them ([drawn_column]). *)
Theorem refresh_cursor_visible s full : drawable s -> ends_nl s -> line_start s (screenbegin s) -> dot s < endp s ->
  exists s' b, refresh full s = Ok tt s' /\ line_start s (screenbegin s') /\ bol_of s (dot s) b /\
    crow s' = ln s (dot s) - ln s (screenbegin s') /\ 0 <= crow s' <= rows s - 2 /\
    ccol s' + offset s' = cursor_col s b (dot s) /\ 0 <= ccol s' /\ 0 <= offset s' /\
    (tabstop s <= columns s -> ccol s' < columns s).
Proof.
  intros Hd Hn Hsb Hdot. destruct (wp_elim (refresh full) (fun _ s' => refreshed s s') s) as ([] & s' & Hr & [Hf _ Hsy _]).
  { by apply wp_refresh. }
  destruct Hsy as [H1 _ H2 H3 H4 H5 H6]. destruct (H6 Hn Hsb Hdot) as (b & Hb & (Hst & _) & Hro & Hro2 & Hco).
  exists s', b. repeat split; try done; try lia; try apply Hst; try apply Hb.
  intros Hts. destruct H5 as [?|(Hbd & H9 & H0)]; [done|]. rewrite H0, Z.add_0_r in Hco.
  assert (b = dot s) as -> by (by apply (bol_of_inj s (dot s))). rewrite Hco. unfold cursor_col. rewrite H9, Z.ltb_irrefl.
  change (9 =? 10) with false. rewrite andb_false_r. cbn [orb andb]. rewrite col_of_refl.
  destruct Hd as [_ [_ ? Ht _ _] _ _ _]. unfold next_column, next_tabstop. change (9 =? 9) with true. cbv iota.
  rewrite Z.rem_0_l by lia. lia.
Qed.
Lemma refresh_cursor_witness :
  exists s' b, refresh false (set_dot 1013 demo) = Ok tt s' /\ bol_of (set_dot 1013 demo) 1013 b /\
    0 <= crow s' <= 2 /\ 0 <= ccol s'.
Proof.
  destruct (refresh_cursor_visible (set_dot 1013 demo) false) as (s' & b & Hr & _ & Hb & _ & Hc & _ & Hcc & _).
  - split; [apply (wf_same demo); try reflexivity; exact demo_wf|apply (geometry_same demo); try reflexivity; exact demo_geometry|at_demo..].
  - at_demo.
  - split; [at_demo|]. split; [left; reflexivity|]. intros i Hi. simpl in Hi. lia.
  - at_demo.
  - exists s', b. split; [exact Hr|]. split; [exact Hb|]. split; [exact Hc|exact Hcc].
Defined.

(** ** Columns *)
(** a byte that is no tab takes as many columns as it moves the cursor *)
Lemma glyph_width ts co c : 0 <= c < 256 -> c <> 9 -> zlen (glyph ts co c) = next_column ts c co - co.
Proof.
  intros Hc H9. unfold glyph, next_column. replace (c =? 9) with false by lia. cbv zeta.
  destruct (negb (Z.land c 128 =? 0) && negb (is_asciionly c)) eqn:E.
  - apply andb_true_iff in E as [E1 E2]. change ((46 <? 32) || (46 =? 127)) with false. cbv iota.
    assert (127 < c).
    { destruct (Z.lt_ge_cases 127 c); [done|]. exfalso. apply negb_true_iff, Z.eqb_neq in E1. apply E1.
      apply Z.bits_inj'. intros n Hn. rewrite Z.land_spec, Z.bits_0. change 128 with (2 ^ 7).
      rewrite Z.pow2_bits_eqb by lia. destruct (Z.eqb_spec 7 n) as [<-|]; [|apply andb_false_r].
      rewrite andb_true_r. apply Z.bits_above_log2; [lia|].
      destruct (Z.eq_dec c 0) as [->|]; [done|]. apply Z.log2_lt_pow2; lia. }
    replace ((c <? 32) || (c =? 127)) with false by lia. change (zlen [46]) with 1. lia.
  - destruct ((c <? 32) || (c =? 127)); unfold zlen; simpl; lia.
Qed.
Lemma expand_width ts bs : Forall (fun c => 0 <= c < 256 /\ c <> 9) bs ->
  zlen (expand ts bs) = fold_left (fun co c => next_column ts c co) bs 0.
Proof.
  induction bs as [|c bs IH] using rev_ind; [done|]. intros [Hbs Hc]%Forall_app.
  rewrite expand_snoc, fold_left_app. simpl. rewrite <- (IH Hbs). apply Forall_singleton in Hc as [H1 H2].
  set (E := expand ts bs). pose proof (glyph_width ts (zlen E) c H1 H2) as Hg. unfold zlen in *. rewrite length_app. lia.
Qed.

(** The character at [d] of a line without tabs is drawn in the column
    that get_column() gives it (and so is the cursor).  Behind a tab at the
    start of the line this fails: format_line() draws the tab with one column
    less than the cursor movement counts. *)
Theorem drawn_column s b d : wf s -> geometry s -> in_text s d -> bol_of s d b ->
  Forall (fun c => 0 <= c < 256) (bytes_at s b (d - b)) ->
  (~ In 9 (bytes_at s b (d - b)) ->
     exists co, get_column d s = Ok co s /\ co = zlen (expand (tabstop s) (bytes_at s b (d - b)))) /\
  (d = b + 1 -> getb s b = 9 ->
     exists co, get_column d s = Ok co s /\ co = zlen (expand (tabstop s) (bytes_at s b (d - b))) + 1).
Proof.
  intros Hwf Hg Hd Hb Hby.
  assert (Hcol : get_column d s = Ok (col_of s b d) s).
  { assert (H : wp (get_column d) (fun co s' => s' = s /\ co = col_of s b d) s).
    { apply (wp_get_column s Hwf); [done|]. intros b' Hb'. by rewrite (bol_of_inj s d b' b Hb' Hb). }
    apply wp_elim in H as (co & s' & Hr & -> & ->). done. }
  split.
  - intros Hno. exists (col_of s b d). split; [done|]. unfold col_of. symmetry. apply expand_width.
    apply Forall_forall. intros c Hc. split; [by apply (proj1 (Forall_forall _ _) Hby)|].
    intros ->. by apply Hno, list_elem_of_In.
  - intros -> H9. exists (col_of s b (b + 1)). split; [done|]. pose proof (bol_of_range _ _ _ Hb Hd) as Hbin.
    destruct Hg as [_ _ Ht _ _].
    assert (Hbs : bytes_at s b (b + 1 - b) = [9]).
    { rewrite (bytes_at_snoc s Hwf) by txt. by rewrite bytes_at_nil, H9. }
    unfold col_of. rewrite Hbs. unfold expand, zlen. simpl. unfold glyph, next_column, next_tabstop.
    change (9 =? 9) with true. cbv iota. rewrite length_replicate. rewrite !Z.rem_0_l by lia. lia.
Qed.
Lemma drawn_column_witness : exists co, get_column 1007 demo = Ok co demo /\ co = 8 /\
  zlen (expand 8 (bytes_at demo 1006 1)) = 7.
Proof.
  destruct (drawn_column demo 1006 1007) as [_ H]; [exact demo_wf|exact demo_geometry|at_demo| | |].
  - split; [at_demo|]. split; [right; reflexivity|]. intros i Hi. assert (i = 1006) as -> by lia. discriminate.
  - repeat constructor; discriminate.
  - destruct (H eq_refl eq_refl) as (co & Hr & Hc). exists co. split; [exact Hr|]. split; [exact Hc|reflexivity].
Defined.

(** ** Highlighting *)
(** C37: Whatever the line holds, every highlight mode colours its [n] columns
    without writing outside col_buf, ends, and leaves in each column an index
    of the table of SGR sequences. *)
Theorem color_line_safe syntax vline n : 0 <= n <= col_buf_size ->
  exists col, color_line syntax vline n = Ok tt col /\ colored n col.
Proof. apply color_line_total. Qed.
Lemma color_line_safe_witness : exists col, color_line SYNTAX_C (str "int x = 1; // y") 15 = Ok tt col /\ colored 15 col.
Proof. apply (color_line_safe SYNTAX_C (str "int x = 1; // y") 15). at_demo. Defined.

(** C35: The escape sequences syntax_write_slice() puts out do to a terminal
    what they are meant to: interpreted from the default pen they draw one
    cell per column of [from..to], with the character of the line, in reverse
    video exactly on the selected columns, in the colour of the column's token
    where it is not selected, and leave the pen back at its default. *)
Theorem syntax_write_slice_spec s vline from to sel :
  0 <= columns s <= col_buf_size -> from <= to < columns s ->
  (forall i, from <= i <= to -> u8 (at_ vline i) <> 27) ->
  exists o cells colors,
    syntax_write_slice vline from to sel s = Ok tt (set_out (out s ++ o) s) /\
    vt_run (Ground, pen0) o = (Ground, pen0, cells) /\
    line_colors (cur_syntax s) vline (columns s) colors /\
    zlen cells = to - from + 1 /\ cells_ok vline sel colors from cells.
Proof.
  intros Hn Hft H27.
  assert (Hwp : wp (syntax_write_slice vline from to sel) (fun _ s' => exists o cells colors,
    wrote s s' o /\ draws pen0 o pen0 cells /\ line_colors (cur_syntax s) vline (columns s) colors /\
    zlen cells = to - from + 1 /\ cells_ok vline sel colors from cells) s).
  { apply wp_syntax_write_slice; [done..|]. intros o cells colors s' ? ? ? ? ?. by exists o, cells, colors. }
  apply wp_elim in Hwp as ([] & s' & Hr & o & cells & colors & -> & ?). by exists o, cells, colors.
Qed.
Lemma syntax_write_slice_witness :
  let s := set_cur_syntax SYNTAX_C demo in
  exists o cells colors, syntax_write_slice (str "if (a) 12;") 0 9 None s = Ok tt (set_out (out s ++ o) s) /\
    vt_run (Ground, pen0) o = (Ground, pen0, cells) /\ zlen cells = 10 /\
    cells_ok (str "if (a) 12;") None colors 0 cells.
Proof.
  intros s. destruct (syntax_write_slice_spec s (str "if (a) 12;") 0 9 None) as (o & cells & colors & H1 & H2 & _ & H3 & H4).
  - at_demo.
  - at_demo.
  - intros i Hi. assert (In i [0; 1; 2; 3; 4; 5; 6; 7; 8; 9]) as Hin by (simpl; lia).
    simpl in Hin. repeat destruct Hin as [<-|Hin]; try discriminate. done.
  - exists o, cells, colors. split; [exact H1|]. split; [exact H2|]. split; [exact H3|exact H4].
Defined.
