(* ===== verification/EvimLineProps.v ===== *)
(** * evim: correctness of line navigation, columns and searching

    The theorems about the routines of EvimLine: each one runs on every
    address of a well-formed buffer without a fault, leaves the state alone
    and answers the position its specification describes. *)
From S2P Require Import Prelude EvimState EvimLine EvimSyntax EvimInput EvimTerm EvimEdit EvimEx EvimCmd EvimMain.
From S2P Require Import EvimNav EvimDemo.

(** a run that only reads *)
Lemma reads_ok {A} (m : EM A) (P : A -> Prop) s :
  wp m (fun a s' => s' = s /\ P a) s -> exists a, m s = Ok a s /\ P a.
Proof. intros (a & s' & Hm & -> & HP)%wp_elim. eauto. Qed.

(** begin_line() answers the start of the line of [p] (the text start, or
    the byte after the nearest newline to the left) and end_line() its end
    (the nearest newline to the right, or the last byte of the buffer). *)
Theorem begin_end_line_spec s p : wf s -> in_text s p ->
  (exists b, begin_line p s = Ok b s /\ bol_of s p b) /\
  (exists e, end_line p s = Ok e s /\ eol_of s p e).
Proof.
  intros Hwf Hp. split; apply reads_ok.
  - apply (wp_begin_line s Hwf); auto.
  - apply (wp_end_line s Hwf); auto.
Qed.
Lemma begin_end_line_witness :
  (exists b, begin_line 1007 demo = Ok b demo /\ bol_of demo 1007 b) /\
  (exists e, end_line 1007 demo = Ok e demo /\ eol_of demo 1007 e).
Proof. apply (begin_end_line_spec demo 1007); [exact demo_wf|at_demo]. Defined.

(** prev_line() undoes next_line(): from an address with a newline
    between it and the last byte, next_line() goes to the start of a later
    line, and prev_line() from there goes back to the start of the line. *)
Theorem next_prev_line s p : wf s -> in_text s p -> 0 < nls s p (endp s - 1) ->
  exists q b, next_line p s = Ok q s /\ p < q /\ bol_of s q q /\
              prev_line q s = Ok b s /\ bol_of s p b.
Proof.
  intros Hwf Hp Hn.
  destruct (reads_ok (next_line p) (next_of s p) s) as (q & Hq & Hqn).
  { apply (wp_next_line s Hwf); auto. }
  destruct (next_of_newline s Hwf p q Hp Hqn Hn) as (Hb & Hr & _ & (He & Hen & He3)).
  assert (Hin : in_text s q) by (unfold in_text in *; lia).
  destruct (reads_ok (prev_line q) (prev_of s q) s) as (b & Hpb & (b' & Hb' & Hpr)).
  { apply (wp_prev_line s Hwf); auto. }
  assert (b' = q) as -> by (by apply (bol_of_inj s q)).
  replace (text s <? q) with true in Hpr by (unfold in_text in *; lia).
  destruct Hpr as (Hpr1 & Hpr2 & Hpr3).
  assert (b <= p).
  { destruct (Z.le_gt_cases b p); [done|]. destruct Hpr2 as [?|Hc]; [unfold in_text in *; lia|].
    exfalso. apply (Hen (b - 1)); [lia|done]. }
  exists q, b. repeat split; try done; try lia; try apply Hb. intros i Hi. apply Hpr3. lia.
Qed.
Lemma next_prev_line_witness :
  exists q b, next_line 1002 demo = Ok q demo /\ 1002 < q /\ prev_line q demo = Ok b demo /\ bol_of demo 1002 b.
Proof.
  destruct (next_prev_line demo 1002) as (q & b & H1 & H2 & _ & H3 & H4); [exact demo_wf|at_demo|at_demo|].
  exists q, b. split; [exact H1|]. split; [exact H2|]. split; [exact H3|exact H4].
Defined.

(** count_lines() counts the newlines from the earlier of its two
    addresses through the end of the line of the later one. *)
Theorem count_lines_spec s start stop : wf s -> in_text s start -> in_text s stop ->
  exists e, eol_of s (Z.max start stop) e /\
    count_lines start stop s = Ok (nls s (Z.min start stop) (Z.min (e + 1) (endp s))) s.
Proof.
  intros Hwf H1 H2.
  destruct (reads_ok (count_lines start stop) (fun n => exists e, eol_of s (Z.max start stop) e /\
    n = nls s (Z.min start stop) (Z.min (e + 1) (endp s))) s) as (n & Hn & e & He & ->); [|eauto].
  apply (wp_count_lines s Hwf); eauto.
Qed.
Lemma count_lines_witness :
  exists e, eol_of demo 1010 e /\
    count_lines 1010 1002 demo = Ok (nls demo 1002 (Z.min (e + 1) 1016)) demo.
Proof. apply (count_lines_spec demo 1010 1002); [exact demo_wf|at_demo|at_demo]. Defined.

(** [k] lines down from a line start, while there are that many *)
Lemma fold_next_line s k q : wf s -> in_text s q -> bol_of s q q -> q < endp s ->
  nls s (text s) q + Z.of_nat k <= nls s (text s) (endp s - 1) ->
  exists q', fold_n k next_line q s = Ok q' s /\ in_text s q' /\ q' < endp s /\ bol_of s q' q' /\
    nls s (text s) q' = nls s (text s) q + Z.of_nat k.
Proof.
  intros Hwf. revert q. induction k as [|k IH]; intros q Hq Hb Hlt Hk; cbn [fold_n].
  { exists q. repeat split; try done; try apply Hq; try apply Hb; lia. }
  destruct (reads_ok (next_line q) (next_of s q) s) as (r & Hr & Hrn).
  { apply (wp_next_line s Hwf); auto. }
  assert (Htx : in_text s (text s)) by (unfold in_text in *; lia).
  assert (Hqe : q <= endp s - 1) by lia.
  pose proof (nls_split s (text s) q (endp s - 1) Htx ltac:(unfold in_text in *; lia) ltac:(lia)).
  destruct (next_of_newline s Hwf q r Hq Hrn ltac:(lia)) as (Hrb & Hqr & H1 & _).
  pose proof (nls_split s (text s) q r Htx ltac:(unfold in_text in *; lia) ltac:(lia)).
  destruct (IH r) as (q' & Hq' & ?); [unfold in_text in *; lia|done|lia|lia|].
  exists q'. rewrite (bind_ok _ _ _ _ _ Hr). split; [done|]. intuition lia.
Qed.

(** find_line() and count_lines() are inverse: the line number [n] of a
    buffer with at least [n] lines is found at a line start with [n - 1]
    newlines before it, and count_lines() gives its number back when the
    buffer ends in a newline. *)
Theorem find_line_spec s n : wf s -> text s < endp s -> 1 <= n <= nls s (text s) (endp s - 1) + 1 ->
  exists q, find_line n s = Ok q s /\ in_text s q /\ bol_of s q q /\ nls s (text s) q = n - 1 /\
    (getb s (endp s - 1) = 10 -> count_lines (text s) q s = Ok n s).
Proof.
  intros Hwf Hne Hn.
  assert (Htx : in_text s (text s)) by (unfold in_text in *; lia).
  destruct (fold_next_line s (Z.to_nat (n - 1)) (text s)) as (q & Hq & Hin & Hlt & Hb & Hk); [done|done| |done| |].
  { split; [lia|]. split; [by left|]. intros i Hi. lia. }
  { rewrite nls_refl. lia. }
  rewrite nls_refl in Hk. exists q. split; [done|]. split; [done|]. split; [done|]. split; [lia|].
  intros Hnl. destruct (reads_ok (count_lines (text s) q) (fun m => m = n) s) as (m & -> & ->); [|done].
  apply (wp_count_lines s Hwf); [done|done|]. intros e He. split; [done|].
  rewrite Z.max_r in He by (unfold in_text in *; lia). rewrite Z.min_l by (unfold in_text in *; lia).
  pose proof (eol_of_range _ _ _ He Hin) as Hre. destruct (He) as (Her & _ & He3).
  rewrite Z.min_l by lia.
  rewrite (nls_split s (text s) q (e + 1)) by (unfold in_text in *; lia).
  rewrite (nls_eol s Hwf q e) by done.
  assert (getb s e = 10) as ->.
  { destruct (Z.lt_ge_cases e (endp s - 1)); [by apply He3|]. by replace e with (endp s - 1) by lia. }
  simpl. lia.
Qed.
Lemma find_line_witness : exists q, find_line 3 demo = Ok q demo /\ count_lines 1000 q demo = Ok 3 demo.
Proof.
  destruct (find_line_spec demo 3) as (q & H1 & _ & _ & _ & H2); [exact demo_wf|at_demo|at_demo|].
  exists q. split; [exact H1|]. apply H2. reflexivity.
Defined.

(** move_to_col() stays on the line of [p] and answers the address whose
    column is the largest one not beyond [l]: its own column (the one
    get_column() computes) is at most [l], and it is a newline or its
    character reaches past [l].  Only on a last line without a newline that
    ends before column [l] does it run past the end of the text. *)
Theorem move_to_col_spec s p l : wf s -> 0 < tabstop s -> in_text s p -> 0 <= l ->
  exists b q, bol_of s p b /\ move_to_col p l s = Ok q s /\ b <= q <= endp s + 1 /\
    (q <= endp s -> exists co, get_column q s = Ok co s /\ bol_of s q b /\ co <= l /\
       (getb s q = 10 \/ l < next_column (tabstop s) (getb s q) co)) /\
    (endp s < q -> none_in s 10 b (endp s) /\ col_of s b (endp s) <= l).
Proof.
  intros Hwf Hts Hp Hl.
  destruct (reads_ok (move_to_col p l) (fun q => exists b, bol_of s p b /\ b <= q <= endp s + 1 /\
     none_in s 10 b (Z.min q (endp s)) /\ (q = b \/ col_of s b (Z.min q (endp s)) <= l) /\
     (q <= endp s -> getb s q = 10 \/ l < next_column (tabstop s) (getb s q) (col_of s b q))) s)
    as (q & Hq & b & Hb & Hr & Hn & Hc & Hs).
  { apply (wp_move_to_col s Hwf); [done..|]. eauto 10. }
  exists b, q. split; [done|]. split; [done|]. split; [done|]. split.
  - intros Hqe. rewrite Z.min_l in Hn, Hc by done.
    assert (Hbq : bol_of s q b) by (destruct Hb as (? & ? & _); split; [lia|done]).
    destruct (reads_ok (get_column q) (fun co => exists b, bol_of s q b /\ co = col_of s b q) s)
      as (co & Hco & b' & Hb' & ->).
    { apply (wp_get_column s Hwf); [unfold in_text, bol_of in *; lia|]. eauto. }
    rewrite (bol_of_inj s q b' b Hb' Hbq) in *. exists (col_of s b q).
    repeat split; try apply Hbq; try done; [|by apply Hs].
    destruct Hc as [->|Hc]; [|done]. by rewrite col_of_refl.
  - intros Hqe. rewrite Z.min_r in Hn, Hc by lia. split; [done|].
    destruct Hc as [->|Hc]; [|done]. destruct Hb as (? & _). unfold in_text in *; lia.
Qed.
Lemma move_to_col_witness : exists b q, bol_of demo 1008 b /\ move_to_col 1008 8 demo = Ok q demo /\ b <= q <= 1017.
Proof.
  destruct (move_to_col_spec demo 1008 8) as (b & q & H1 & H2 & H3 & _); [exact demo_wf|reflexivity|at_demo|lia|].
  exists b, q. split; [exact H1|]. split; [exact H2|exact H3].
Defined.

(** ** Pair matching *)
(** opening and closing brackets, with the direction to look in *)
Definition bracket (c m dir : Z) : Prop :=
  In (c, m, dir) [(40, 41, 1); (41, 40, -1); (91, 93, 1); (93, 91, -1); (123, 125, 1); (125, 123, -1)].
(** how many [c] more than [m] there are from [p] to [q], both included *)
Definition depth (s : Ed) (c m p q : Z) : Z :=
  cnt s c (Z.min p q) (Z.max p q + 1) - cnt s m (Z.min p q) (Z.max p q + 1).
(** [q] is [k] steps away from [p] *)
Definition steps (dir p k : Z) : Z := p + dir * k.

Lemma depth_step s c m dir p k : wf s -> dir = 1 \/ dir = -1 -> 0 <= k ->
  text s <= p < endp s -> text s <= steps dir p (k + 1) < endp s ->
  depth s c m p (steps dir p (k + 1)) = depth s c m p (steps dir p k)
    + (if getb s (steps dir p (k + 1)) =? c then 1 else 0)
    - (if getb s (steps dir p (k + 1)) =? m then 1 else 0).
Proof.
  unfold steps, depth. intros Hwf Hdir Hk Hp Hr.
  assert (Hs : forall x, cnt s x (Z.min p (p + dir * (k + 1))) (Z.max p (p + dir * (k + 1)) + 1) =
    cnt s x (Z.min p (p + dir * k)) (Z.max p (p + dir * k) + 1) +
    (if getb s (p + dir * (k + 1)) =? x then 1 else 0)).
  { intros x. destruct Hdir as [-> | ->].
    - rewrite !Z.min_l, !Z.max_r by lia.
      rewrite (cnt_split s x p (p + 1 * k + 1)) by (unfold in_text; lia).
      rewrite <- (cnt_step s Hwf) by (unfold in_text; lia).
      by replace (p + 1 * (k + 1)) with (p + 1 * k + 1) by lia.
    - rewrite !Z.min_r, !Z.max_l by lia.
      rewrite (cnt_split s x (p + -1 * (k + 1)) (p + -1 * (k + 1) + 1)) by (unfold in_text; lia).
      rewrite (cnt_step s Hwf) by (unfold in_text; lia).
      replace (p + -1 * (k + 1) + 1) with (p + -1 * k) by lia. lia. }
  rewrite !Hs. lia.
Qed.

(** find_pair() on a bracket answers the first position, looking in the
    bracket's direction, at which the brackets from [p] on balance, and this
    position holds the other bracket of the pair; it answers NULL when they
    stay unbalanced up to the end (or the start) of the text. *)
Theorem find_pair_spec s p c m dir : wf s -> text s <= p < endp s -> bracket c m dir -> getb s p = c ->
  exists r, find_pair p c s = Ok r s /\
    ((r = 0 /\ forall k, 0 <= k -> text s <= steps dir p k < endp s -> 0 < depth s c m p (steps dir p k)) \/
     (exists k, 0 < k /\ r = steps dir p k /\ text s <= r < endp s /\ getb s r = m /\
        depth s c m p r = 0 /\ forall j, 0 <= j < k -> 0 < depth s c m p (steps dir p j))).
Proof.
  intros Hwf Hp Hbr Hc.
  assert (Hd0 : depth s c m p (steps dir p 0) = 1).
  { unfold steps, depth. rewrite Z.mul_0_r, Z.add_0_r, Z.min_id, Z.max_id.
    rewrite !(cnt_step s Hwf) by (unfold in_text; lia). rewrite Hc, Z.eqb_refl.
    destruct Hbr as [[= <- <- <-]|[[= <- <- <-]|[[= <- <- <-]|[[= <- <- <-]|[[= <- <- <-]|[[= <- <- <-]|[]]]]]]]; done. }
  assert (Hdir : dir = 1 \/ dir = -1) by (unfold bracket in Hbr; simpl in Hbr; intuition congruence).
  assert (Hcm : c <> m) by (unfold bracket in Hbr; simpl in Hbr; intuition congruence).
  assert (Hgo : find_pair p c s =
    iter (S (Z.to_nat (endp s - text s))) (find_pair_body c m dir) (p, 1) s).
  { unfold find_pair, bracket in *. simpl in Hbr.
    destruct Hbr as [[= <- <- <-]|[[= <- <- <-]|[[= <- <- <-]|[[= <- <- <-]|[[= <- <- <-]|[[= <- <- <-]|[]]]]]]];
      reflexivity. }
  rewrite Hgo. apply reads_ok.
  apply (wpe_iter _ (fun v s' => s' = s /\ exists k, 0 <= k /\ fst v = steps dir p k /\
      text s <= fst v < endp s /\ snd v = depth s c m p (fst v) /\
      forall j, 0 <= j <= k -> 0 < depth s c m p (steps dir p j))
    (fun v _ => if dir =? 1 then endp s - fst v else fst v - text s + 1)).
  2:{ split; [done|]. exists 0. cbn [fst snd]. split; [lia|]. split; [unfold steps; lia|]. split; [lia|].
      assert (steps dir p 0 = p) as E by (unfold steps; lia). rewrite E in Hd0. split; [done|].
      intros j Hj. assert (j = 0) as -> by lia. rewrite E. lia. }
  2:{ cbn [fst]. destruct (dir =? 1); lia. }
  intros [q level] s' (-> & k & Hk & Eq & Hr & El & Hpos). cbn [fst snd] in *. subst q level.
  split; [destruct (dir =? 1); lia|]. unfold find_pair_body.
  assert (steps dir p k + dir = steps dir p (k + 1)) as -> by (unfold steps; lia). wp_go.
  - split; [done|]. left. split; [done|]. intros j Hj Hjr. apply Hpos. split; [done|].
    apply orb_true_iff in H. unfold steps in *. destruct Hdir as [-> | ->]; lia.
  - apply orb_false_iff in H as [H1 H2]. apply (wp_rd s Hwf); [unfold in_text; lia|].
    pose proof (depth_step s c m dir p k Hwf Hdir Hk Hp ltac:(lia)) as Hds.
    pose proof (Hpos k ltac:(lia)) as Hposk.
    assert (Hnext : forall lv, lv = depth s c m p (steps dir p (k + 1)) -> 0 < lv ->
      (s = s /\ exists k', 0 <= k' /\ steps dir p (k + 1) = steps dir p k' /\
        text s <= steps dir p (k + 1) < endp s /\ lv = depth s c m p (steps dir p (k + 1)) /\
        forall j, 0 <= j <= k' -> 0 < depth s c m p (steps dir p j)) /\
      (if dir =? 1 then endp s - steps dir p (k + 1) else steps dir p (k + 1) - text s + 1) <
      (if dir =? 1 then endp s - steps dir p k else steps dir p k - text s + 1)).
    { intros lv -> Hlv. split.
      - split; [done|]. exists (k + 1). repeat split; [lia..|].
        intros j Hj. destruct (Z.eq_dec j (k + 1)) as [->|]; [done|apply Hpos; lia].
      - unfold steps. destruct Hdir as [-> | ->]; simpl; lia. }
    wp_go; cbn [fst snd]; destruct (Z.eqb_spec (getb s (steps dir p (k + 1))) m) as [Em|Em]; try done;
      destruct (Z.eqb_spec (getb s (steps dir p (k + 1))) c) as [Ec|Ec]; try lia; try (apply Hnext; lia).
    split; [done|]. right. exists (k + 1). repeat split; try lia; try done. intros j Hj. apply Hpos. lia.
Qed.
Lemma find_pair_witness : exists r, find_pair 1002 40 demo = Ok r demo /\ r = 1004.
Proof.
  destruct (find_pair_spec demo 1002 40 41 1) as (r & H & _); [exact demo_wf|at_demo|left; reflexivity|reflexivity|].
  exists r. split; [exact H|]. vm_compute in H. congruence.
Defined.

(** ** Searching *)
(** do two characters match, ignoring case when [ic] is set? *)
Definition eqc (ic : bool) (a b : Z) : Prop := if ic then tolower a = tolower b else a = b.
(** the text at [p] matches the pattern *)
Definition match_at (s : Ed) (p : Z) (pat : list Z) : Prop :=
  forall i x, pat !! i = Some x -> eqc (ignorecase s) (getb s (p + Z.of_nat i)) x.

Lemma eqc_dec (ic : bool) (a b : Z) :
  (if ic then tolower a =? tolower b else a =? b) = true <-> eqc ic a b.
Proof. unfold eqc. destruct ic; apply Z.eqb_eq. Qed.
Lemma eqc_newline ic x : eqc ic 10 x -> x = 10.
Proof.
  unfold eqc, tolower, isupper. destruct ic; [|done]. simpl.
  destruct (Z.leb_spec 65 x); destruct (Z.leb_spec x 90); simpl; lia.
Qed.
Lemma match_at_cons s p x pat :
  match_at s p (x :: pat) <-> eqc (ignorecase s) (getb s p) x /\ match_at s (p + 1) pat.
Proof.
  unfold match_at. split.
  - intros H. split; [specialize (H 0%nat x eq_refl); by rewrite Z.add_0_r in H|].
    intros i y Hi. specialize (H (S i) y Hi). by replace (p + 1 + Z.of_nat i) with (p + Z.of_nat (S i)) by lia.
  - intros [H1 H2] [|i] y Hi; simpl in Hi.
    + injection Hi as <-. by rewrite Z.add_0_r.
    + specialize (H2 i y Hi). by replace (p + Z.of_nat (S i)) with (p + 1 + Z.of_nat i) by lia.
Qed.

Section search.
Context (s : Ed) (Hwf : wf s) (Hnl : getb s (endp s - 1) = 10).

Lemma wp_mycmp E p pat (Q : bool -> Ed -> Prop) :
  text s <= p < endp s -> ~ In 10 pat ->
  (forall b : bool, (b = true <-> match_at s p pat) -> Q b s) -> wpe E (mycmp (ignorecase s) p pat) Q s.
Proof.
  revert p. induction pat as [|x pat IH]; intros p Hp Hpat HQ; cbn [mycmp].
  - wp_go. apply HQ. split; [|done]. intros _ i y. by rewrite lookup_nil.
  - wp_go. apply (wp_rd s Hwf); [txt|].
    destruct (if ignorecase s then tolower (getb s p) =? tolower x else getb s p =? x) eqn:E1.
    + apply eqc_dec in E1. apply IH.
      * destruct (Z.eq_dec p (endp s - 1)) as [->|]; [|lia]. rewrite Hnl in E1.
        apply eqc_newline in E1. subst x. by destruct Hpat; left.
      * intros ?. by apply Hpat; right.
      * intros b Hb. apply HQ. rewrite Hb, match_at_cons. tauto.
    + wp_go. apply HQ. split; [done|]. rewrite match_at_cons, <- eqc_dec. intros [? _]. congruence.
Qed.

(** the last address a forward search tries *)
Definition search_stop (p range stop : Z) : Prop :=
  if range =? LIMITED then next_of s p stop else stop = endp s - 1.

(** a forward char_search() answers the first address from [p] on,
    before the end of its range, whose bytes match the pattern (ignoring
    case when the option is set), or NULL when there is none. *)
Theorem char_search_forward p pat range : in_text s p -> ~ In 10 pat -> range = LIMITED \/ range = FULL ->
  exists r stop, char_search p pat (Z.lor (Z.shiftl FORWARD 1) range) s = Ok r s /\
    search_stop p range stop /\
    ((r = 0 /\ forall q, p <= q < stop -> ~ match_at s q pat) \/
     (p <= r < stop /\ match_at s r pat /\ forall q, p <= q < r -> ~ match_at s q pat)).
Proof.
  intros Hp Hpat Hrange.
  destruct (reads_ok (char_search p pat (Z.lor (Z.shiftl FORWARD 1) range)) (fun r => exists stop,
    search_stop p range stop /\
    ((r = 0 /\ forall q, p <= q < stop -> ~ match_at s q pat) \/
     (p <= r < stop /\ match_at s r pat /\ forall q, p <= q < r -> ~ match_at s q pat))) s)
    as (r & Hr & stop & ?); [|by exists r, stop].
  unfold char_search. wp_step. wp_step. cbv beta.
  replace (0 <? Z.lor (Z.shiftl FORWARD 1) range) with true by (destruct Hrange as [-> | ->]; done).
  replace (Z.land (Z.lor (Z.shiftl FORWARD 1) range) 1) with range by (destruct Hrange as [-> | ->]; done).
  assert (Hloop : forall stop, search_stop p range stop -> stop <= endp s - 1 \/ stop = p ->
    wp (iter (S (Z.to_nat (stop - p))) (search_fwd_body (ignorecase s) pat stop) p)
      (fun r s' => s' = s /\ exists stop, search_stop p range stop /\
        ((r = 0 /\ forall q, p <= q < stop -> ~ match_at s q pat) \/
         (p <= r < stop /\ match_at s r pat /\ forall q, p <= q < r -> ~ match_at s q pat))) s).
  { intros stop Hstop Hle.
    apply (wpe_iter _ (fun q s' => s' = s /\ p <= q /\ (q <= stop \/ q = p) /\
             forall j, p <= j < q -> ~ match_at s j pat) (fun q _ => Z.max 0 (stop - q))); [| |lia].
    2:{ repeat split; [lia|lia|]. intros j Hj. lia. }
    intros q s' (-> & Hq & Hqs & Hno). split; [lia|]. unfold search_fwd_body. wp_go.
    - apply wp_mycmp; [txt|done|]. intros [|] Hb; wp_go.
      + split; [done|]. exists stop. split; [done|]. right. split; [lia|]. split; [by apply Hb|done].
      + repeat split; [lia|lia| |lia]. intros j Hj.
        destruct (Z.eq_dec j q) as [->|]; [|apply Hno; lia]. intros Hm. by apply Hb in Hm.
    - split; [done|]. exists stop. split; [done|]. left. split; [done|]. intros j Hj. apply Hno. lia. }
  wp_step. destruct Hrange as [-> | ->];
    [change (LIMITED =? LIMITED) with true|change (FULL =? LIMITED) with false]; cbv iota.
  - apply (wp_next_line s Hwf); [done|]. intros q Hq. apply Hloop; [done|].
    destruct Hq as (e & (He & _) & ->). destruct (Z.ltb_spec e (endp s - 1)); [lia|].
    destruct (Z.eq_dec e p); [by right|lia].
  - apply wpe_ret, Hloop; [done|]. by left.
Qed.
End search.
Lemma char_search_forward_witness :
  exists r stop, char_search 1001 (str "y") (Z.lor (Z.shiftl FORWARD 1) FULL) demo = Ok r demo /\
    search_stop demo 1001 FULL stop /\ r = 1010.
Proof.
  destruct (char_search_forward demo demo_wf eq_refl 1001 (str "y") FULL) as (r & stop & H1 & H2 & _);
    [at_demo|vm_compute; intuition discriminate|right; reflexivity|].
  exists r, stop. split; [exact H1|]. split; [exact H2|]. vm_compute in H1. congruence.
Defined.
