(* ===== verification/EvimInputProps.v ===== *)
(** * evim: correctness of the keyboard input

    The theorems about read_key(), get_one_char() and get_motion_char(). *)
From S2P Require Import Prelude EvimState EvimLine EvimSyntax EvimInput EvimTerm EvimEdit EvimEx EvimCmd EvimMain.
From S2P Require Import EvimNav EvimHole EvimUndo EvimFormat EvimRefresh EvimDisplay EvimDemo.

(** ** Escape sequences *)
(** the table as pairs of a sequence and its keycode *)
Fixpoint esc_entries (l acc : list Z) : list (list Z * Z) :=
  match l with
  | [] => []
  | x :: l =>
      if x =? 0 then []
      else if Z.land x 0x80 =? 0 then esc_entries l (acc ++ [x])
      else match l with
           | k :: l' => (acc ++ [Z.land x 0x7f], i8 k) :: esc_entries l' []
           | [] => []
           end
  end.
Definition esc_keys : list (list Z * Z) := esc_entries esccmds [].

(** no byte is saved from an earlier key *)
Definition fresh_keys (s : Ed) : Prop := length (readbuffer s) = 16%nat /\ readbuffer s !! 0%nat = Some 0.
Lemma fresh_keys_list s : fresh_keys s -> exists b1 b2 b3 b4 b5 b6 b7 b8 b9 b10 b11 b12 b13 b14 b15,
  readbuffer s = [0; b1; b2; b3; b4; b5; b6; b7; b8; b9; b10; b11; b12; b13; b14; b15].
Proof.
  intros [H1 H2]. destruct (readbuffer s) as [|b0 l]; [done|]. simpl in H2. injection H2 as ->.
  do 15 (destruct l as [|? l]; [done|]). destruct l; [|done]. by do 15 eexists.
Qed.

(** the state that read a key: only the input and readbuffer change *)
Definition after_key (rest : list key) (s s' : Ed) : Prop :=
  fresh_keys s' /\ input s' = rest /\ set_readbuffer [] (set_input [] s') = set_readbuffer [] (set_input [] s).
Lemma readit_escape s bs k rest : fresh_keys s -> In (bs, k) esc_keys -> input s = map Key (27 :: bs) ++ rest ->
  exists s', readit s = Ok k s' /\ after_key rest s s'.
Proof.
  intros Hf Hin Hi. destruct (fresh_keys_list s Hf) as (b1 & b2 & b3 & b4 & b5 & b6 & b7 & b8 & b9 & b10 & b11 & b12 & b13 & b14 & b15 & Hrb).
  assert (Hs : s = set_readbuffer (readbuffer s) (set_input (input s) s)) by done.
  rewrite Hs, Hrb, Hi. clear Hs Hi Hrb Hf.
  vm_compute in Hin.
  repeat (destruct Hin as [[= <- <-]|Hin]; [eexists; split; [vm_compute; reflexivity|]; repeat split|]); done.
Qed.

(** Every escape sequence of the table is decoded: an ESC followed by the
    bytes of the sequence is read as the one key it stands for, and nothing
    of it is left in the input or saved for the next key. *)
Theorem read_key_escape s bs k rest : fresh_keys s -> In (bs, k) esc_keys -> input s = map Key (27 :: bs) ++ rest ->
  exists s', readit s = Ok k s' /\ fresh_keys s' /\ input s' = rest /\
    set_readbuffer [] (set_input [] s') = set_readbuffer [] (set_input [] s).
Proof.
  intros Hf Hin Hi. destruct (readit_escape s bs k rest Hf Hin Hi) as (s' & Hr & H). by exists s'.
Qed.
Lemma read_key_escape_witness :
  let s := demo_of [] (map Key [27; 91; 53; 126; 120]) [] in
  exists s', readit s = Ok KEYCODE_PAGEUP s' /\ input s' = [Key 120].
Proof.
  intros s. destruct (read_key_escape s [91; 53; 126] KEYCODE_PAGEUP [Key 120]) as (s' & H1 & _ & H2 & _).
  - split; reflexivity.
  - vm_compute. tauto.
  - reflexivity.
  - exists s'. split; [exact H1|exact H2].
Defined.

(** ** Plain keys *)
(** the end of read_key() once the key is in the buffer *)
Lemma wp_key_plain s c (n : Z) (again : EM Z) (Q : Z -> Ed -> Prop) :
  get_rb 0 s = Ok c s -> n = 0 -> c <> 27 -> (forall s', set_rb (-1) 0 s = Ok tt s' -> Q c s') ->
  (exists s', set_rb (-1) 0 s = Ok tt s') ->
  wp (c <- get_rb 0 ;;
      when (negb (n =? 0)) (shift_rb n) ;;
      if negb (c =? 27) then set_rb (-1) n ;; ret c
      else
        r <- esc_loop n ;;
        match r with
        | inl c => ret c
        | inr n =>
            if n <=? 1 then set_rb (-1) n ;; ret 27
            else set_rb (-1) 0 ;; again
        end) Q s.
Proof.
  intros Hg -> H27 HQ [s' Hs']. wp_step. apply (wpe_ok _ _ _ _ _ _ Hg). wp_step.
  change (negb (0 =? 0)) with false. unfold when. wp_step. replace (c =? 27) with false by lia. cbn [negb].
  wp_step. apply (wpe_ok _ _ _ _ _ _ Hs'). wp_step. by apply HQ.
Qed.
Lemma readit_plain s c rest : fresh_keys s -> 0 <= c < 256 -> c <> 27 -> input s = Key c :: rest ->
  exists s', readit s = Ok c s' /\ after_key rest s s'.
Proof.
  intros Hf Hc H27 Hi. destruct (fresh_keys_list s Hf) as (b1 & b2 & b3 & b4 & b5 & b6 & b7 & b8 & b9 & b10 & b11 & b12 & b13 & b14 & b15 & Hrb).
  assert (Hs : s = set_readbuffer (readbuffer s) (set_input (input s) s)) by done.
  rewrite Hs, Hrb, Hi. clear Hs Hi Hrb Hf. set (rb := [0; b1; b2; b3; b4; b5; b6; b7; b8; b9; b10; b11; b12; b13; b14; b15]).
  assert (H : wp readit (fun c' s' => c' = c /\ after_key rest s s') (set_readbuffer rb (set_input (Key c :: rest) s))).
  { unfold readit, read_key. do 2 wp_step. cbn [read_key_go]. wp_step. eapply wpe_ok; [reflexivity|].
    change (0 =? 0) with true. cbv iota. wp_step. wp_step. eapply wpe_ok; [reflexivity|]. cbv iota zeta beta.
    change (0 <? 1) with true. unfold when at 1. wp_step. eapply wpe_ok; [reflexivity|]. wp_step.
    change (1 <=? 0) with false. cbv iota zeta. apply (wp_key_plain _ c); [|done|done| |].
    - unfold get_rb, rb. cbn. by rewrite u8_small.
    - intros s' [= <-]. split; [done|]. repeat split.
    - eexists. reflexivity. }
  apply wp_elim in H as (c' & s' & Hr & -> & H). eauto.
Qed.
Lemma readit_saved s c : length (readbuffer s) = 16%nat -> readbuffer s !! 0%nat = Some 1 -> readbuffer s !! 1%nat = Some c ->
  c <> 27 -> exists s', readit s = Ok c s' /\ after_key (input s) s s'.
Proof.
  intros Hl H0 H1 H27. destruct (readbuffer s) as [|b0 [|b1 l]] eqn:Hrb; [done|done|].
  simpl in H0, H1. injection H0 as ->. injection H1 as ->. do 14 (destruct l as [|? l]; [done|]). destruct l; [|done].
  assert (Hs : s = set_readbuffer (readbuffer s) s) by done.
  rewrite Hs, Hrb. clear Hs Hrb Hl. match goal with |- context [set_readbuffer ?l s] => set (rb := l) end.
  assert (H : wp readit (fun c' s' => c' = c /\ after_key (input s) s s') (set_readbuffer rb s)).
  { unfold readit, read_key. do 2 wp_step. cbn [read_key_go]. wp_step. eapply wpe_ok; [reflexivity|].
    change (1 =? 0) with false. cbv iota. wp_step. wp_step.
    change (1 <=? 0) with false. cbv iota zeta. apply (wp_key_plain _ c); [done|done|done| |].
    - intros s' [= <-]. split; [done|]. repeat split.
    - eexists. reflexivity. }
  apply wp_elim in H as (c' & s' & Hr & -> & H). eauto.
Qed.

(** the bytes that start a sequence of the table *)
Definition esc_firsts : list Z := map (fun e => hd0 (fst e)) esc_keys.
(** ESC and a byte that starts no sequence: ESC, and the byte is saved *)
Lemma readit_escape_other s c rest : fresh_keys s -> In c (map Z.of_nat (seq 0 256)) -> ~ In c esc_firsts ->
  input s = Key 27 :: Key c :: rest ->
  exists s', readit s = Ok 27 s' /\ length (readbuffer s') = 16%nat /\ readbuffer s' !! 0%nat = Some 1 /\
    readbuffer s' !! 1%nat = Some c /\ input s' = rest /\
    set_readbuffer [] (set_input [] s') = set_readbuffer [] (set_input [] s).
Proof.
  intros Hf Hc Hn Hi. destruct (fresh_keys_list s Hf) as (b1 & b2 & b3 & b4 & b5 & b6 & b7 & b8 & b9 & b10 & b11 & b12 & b13 & b14 & b15 & Hrb).
  assert (Hs : s = set_readbuffer (readbuffer s) (set_input (input s) s)) by done.
  rewrite Hs, Hrb, Hi. clear Hs Hi Hrb Hf. vm_compute in Hc. revert Hn.
  repeat (destruct Hc as [<-|Hc];
    [first [intros Hn; exfalso; apply Hn; vm_compute; tauto
           |intros _; eexists; split; [vm_compute; reflexivity|]; repeat split]|]); done.
Qed.

(** Keys that are no escape sequence come through unchanged: a byte other
    than ESC is read as itself, and an ESC that is followed by a byte that
    starts no sequence is read as ESC with that byte as the next key. *)
Theorem read_key_plain s rest : fresh_keys s ->
  (forall c, 0 <= c < 256 -> c <> 27 -> input s = Key c :: rest ->
     exists s', readit s = Ok c s' /\ after_key rest s s') /\
  (forall c, 0 <= c < 256 -> c <> 27 -> ~ In c esc_firsts -> input s = Key 27 :: Key c :: rest ->
     exists s1 s2, readit s = Ok 27 s1 /\ readit s1 = Ok c s2 /\ after_key rest s s2).
Proof.
  intros Hf. split; intros c Hc H27.
  - intros Hi. by apply readit_plain.
  - intros Hn Hi. destruct (readit_escape_other s c rest) as (s1 & H1 & Hl & H0 & Hb & Hi1 & Hs1); [done| |done|done|].
    { apply in_map_iff. exists (Z.to_nat c). split; [lia|]. apply in_seq. lia. }
    destruct (readit_saved s1 c Hl H0 Hb H27) as (s2 & H2 & Hf2 & Hi2 & Hs2).
    exists s1, s2. split; [done|]. split; [done|]. split; [done|]. split; [by rewrite Hi2|]. by rewrite Hs2.
Qed.
Lemma read_key_plain_witness :
  let s := demo_of [] (map Key [27; 106; 120]) [] in
  exists s1 s2, readit s = Ok 27 s1 /\ readit s1 = Ok 106 s2 /\ input s2 = [Key 120].
Proof.
  intros s. destruct (read_key_plain s [Key 120]) as [_ H]; [split; reflexivity|].
  destruct (H 106) as (s1 & s2 & H1 & H2 & _ & H3 & _); [lia|lia|vm_compute; intuition discriminate|reflexivity|].
  exists s1, s2. split; [exact H1|]. split; [exact H2|exact H3].
Defined.

(** ** Counts *)
(** neither a replayed nor a recorded command *)
Definition plain_input (s : Ed) : Prop := fresh_keys s /\ adding2q s = false /\ ioq_start s = false.
Lemma get_one_char_plain s c rest : plain_input s -> 0 <= c < 256 -> c <> 27 -> input s = Key c :: rest ->
  exists s', get_one_char s = Ok c s' /\ plain_input s' /\ after_key rest s s'.
Proof.
  intros (Hf & Ha & Hq) Hc H27 Hi. destruct (readit_plain s c rest Hf Hc H27 Hi) as (s' & Hr & Hk).
  exists s'. split; [|split; [|done]].
  - unfold get_one_char, bind, get. rewrite Ha. cbn [negb]. by rewrite Hq.
  - destruct Hk as (Hf' & _ & Hs). split; [done|]. split; [by rewrite (f_equal adding2q Hs : adding2q s' = _)|].
    by rewrite (f_equal ioq_start Hs : ioq_start s' = _).
Qed.

(** the value of a string of digits *)
Definition digits_value (acc : Z) (ds : list Z) : Z := fold_left (fun n d => i32 (n * 10 + (d - 48))) ds acc.
Lemma count_loop ds acc c0 c rest s fuel : plain_input s ->
  Forall (fun d => 48 <= d <= 57) (c0 :: ds) -> 0 <= c < 256 -> c <> 27 -> isdigit c = false ->
  input s = map Key (ds ++ [c]) ++ rest -> (length ds + 1 < fuel)%nat ->
  exists s', iter fuel count_body (acc, c0) s = Ok (digits_value acc (c0 :: ds), c) s' /\ plain_input s' /\ after_key rest s s'.
Proof.
  intros Hp Hd Hc H27 Hdig. revert acc c0 s fuel Hp Hd. induction ds as [|d ds IH]; intros acc c0 s fuel Hp Hd Hi Hfuel.
  all: destruct fuel as [|fuel]; [simpl in Hfuel; lia|]; cbn [iter]; inversion_clear Hd as [|? ? Hd0 Hds];
    unfold bind at 1, count_body; replace (isdigit c0) with true by (unfold isdigit; lia).
  - destruct (get_one_char_plain s c rest Hp Hc H27 Hi) as (s' & Hr & Hp' & Hk).
    exists s'. rewrite (bind_ok _ _ _ _ _ Hr). cbn [ret]. destruct fuel as [|fuel]; [simpl in Hfuel; lia|].
    cbn [iter]. unfold bind, count_body. rewrite Hdig. cbn [ret]. done.
  - pose proof Hds as Hds0. inversion_clear Hds as [|? ? Hd1 Hds1].
    destruct (get_one_char_plain s d (map Key (ds ++ [c]) ++ rest) Hp) as (s1 & Hr & Hp1 & Hf1 & Hi1 & Hs1); [lia|lia|done|].
    rewrite (bind_ok _ _ _ _ _ Hr). cbn [ret]. simpl in Hfuel.
    destruct (IH (i32 (acc * 10 + (c0 - 48))) d s1 fuel Hp1) as (s' & Hr' & Hp' & Hf' & Hi' & Hs'); [done|done|lia|].
    exists s'. split; [exact Hr'|]. split; [done|]. split; [done|]. split; [done|]. by rewrite Hs'.
Qed.

(** get_motion_char() reads a count: after digits that do not start with
    a zero it answers the first character that is no digit and multiplies the
    pending count (1 if there is none) with the number the digits write, at
    the width of an int. *)
Theorem get_motion_char_count s d ds c rest : plain_input s -> 49 <= d <= 57 -> Forall (fun d => 48 <= d <= 57) ds ->
  0 <= c < 256 -> c <> 27 -> isdigit c = false -> input s = map Key (d :: ds ++ [c]) ++ rest ->
  exists s', get_motion_char s = Ok c s' /\ input s' = rest /\
    cmdcnt s' = i32 ((if cmdcnt s =? 0 then 1 else cmdcnt s) * digits_value 0 (d :: ds)).
Proof.
  intros Hp Hd Hds Hc H27 Hdig Hi. unfold get_motion_char.
  destruct (get_one_char_plain s d (map Key (ds ++ [c]) ++ rest) Hp) as (s1 & Hr & Hp1 & Hf1 & Hi1 & Hs1); [lia|lia|done|].
  rewrite (bind_ok _ _ _ _ _ Hr). replace (isdigit d) with true by (unfold isdigit; lia). replace (d =? 48) with false by lia.
  cbn [negb]. unfold bind at 1, get.
  destruct (count_loop ds 0 d c rest s1 (S (length (input s1) + length (ioq s1) + length (readbuffer s1))) Hp1) as (s2 & Hr2 & Hp2 & Hf2 & Hi2 & Hs2);
    [apply List.Forall_cons; [lia|done]|done|done|done|done| |].
  { rewrite Hi1, length_app, length_map, length_app. simpl. destruct Hf1 as [-> _]. lia. }
  rewrite (bind_ok _ _ _ _ _ Hr2). eexists. split; [reflexivity|]. split; [exact Hi2|].
  cbn [cmdcnt set_cmdcnt]. rewrite (f_equal cmdcnt Hs2 : cmdcnt s2 = cmdcnt s1), (f_equal cmdcnt Hs1 : cmdcnt s1 = cmdcnt s). done.
Qed.
Lemma get_motion_char_witness :
  let s := set_cmdcnt 2 (demo_of [] (map Key (str "12w") ++ [Pause]) []) in
  exists s', get_motion_char s = Ok 119 s' /\ input s' = [Pause] /\ cmdcnt s' = 24.
Proof.
  intros s. destruct (get_motion_char_count s 49 [50] 119 [Pause]) as (s' & H1 & H2 & H3);
    [repeat split|lia|repeat constructor; lia|lia|lia|reflexivity|reflexivity|].
  exists s'. split; [exact H1|]. split; [exact H2|]. rewrite H3. reflexivity.
Defined.
