(* ===== verification/EvimFileProps.v ===== *)
(** * evim: typing, loading and saving

    The theorems about char_insert() of a plain character, file_insert(),
    file_write() and init_text_buffer(). *)
From S2P Require Import Prelude EvimState EvimLine EvimSyntax EvimInput EvimTerm EvimEdit EvimEx EvimCmd EvimMain.
From S2P Require Import EvimNav EvimHole EvimUndo EvimFormat EvimRefresh EvimDisplay EvimPop EvimDemo.

(** ** Typing *)
Lemma wp_stupid_insert E s p c (Q : Z -> Ed -> Prop) : wf s -> good_alloc s -> in_text s p ->
  (forall bias s', wf s' -> rebased bias s s' -> frame s' = frame s -> endp s' = endp s + 1 + bias ->
     inserted (off s p) [c] s s' -> Q bias s') ->
  wpe E (stupid_insert p c) Q s.
Proof.
  intros Hwf Hal Hp HQ. unfold stupid_insert. wp_step. apply wp_hole_make; [done|done|done|lia|].
  intros bias s1 Hwf1 Hre Hfr He Hins _. destruct (Hre) as (Ht & _). destruct (Hwf1) as [? ? ? ?].
  wp_step. unfold wr. apply wp_wr_n; [txt|change (zlen [c]) with 1; txt|]. wp_step.
  apply HQ; [apply wf_put; [done|txt|change (zlen [c]) with 1; txt]|done|done|done|].
  by apply (inserted_put s s1 p bias [c]).
Qed.

(** the bytes that insert mode puts into the text: all but ctrl-D, the
    backspaces, ctrl-V and ESC; a carriage return becomes a newline *)
Definition plain_key (c : Z) : Prop := 1 <= c < 256 /\ ~ In c [4; 8; 22; 27; 127].
Definition typed (c : Z) : Z := if c =? 13 then 10 else c.
Lemma not_closing c : 0 < c < 256 -> ~ In c (str ")]}") -> strchr_in (str ")]}") c = false.
Proof.
  intros Hc Hn. unfold strchr_in. rewrite u8_small by lia. replace (c =? 0) with false by lia. cbn [existsb orb].
  destruct (Z.eqb_spec 41 c); [exfalso; apply Hn; simpl; tauto|].
  destruct (Z.eqb_spec 93 c); [exfalso; apply Hn; simpl; tauto|].
  destruct (Z.eqb_spec 125 c); [exfalso; apply Hn; simpl; tauto|]. done.
Qed.
Lemma wp_type_char E s p c undo (Q : Z -> Ed -> Prop) : wf s -> good_alloc s -> in_text s p -> plain_key c ->
  undo_q s = 0 \/ typed c <> 10 -> showmatch s = false \/ ~ In c (str ")]}") -> autoindent s = false \/ typed c <> 10 ->
  expandtab s = false \/ c <> 9 ->
  (forall bias s', wf s' -> rebased bias s s' -> frame s' = frame (set_indentcol 0 s) -> endp s' = endp s + 1 + bias ->
     inserted (off s p) [typed c] s s' -> Q (p + 1 + bias) s') ->
  wpe E (char_insert p c undo) Q s.
Proof.
  intros Hwf Hal Hp [Hc Hn] Hq Hsm Hai Htab HQ. simpl in Hn.
  unfold char_insert. rewrite u8_small by lia. cbv zeta. wp_step. apply (wp_begin_line s Hwf); [done|]. intros bol _.
  do 2 wp_step. replace (c =? 22) with false by lia. replace (c =? 27) with false by lia. replace (c =? 4) with false by lia.
  replace ((c =? 9) && expandtab s) with false by (destruct Htab as [->|]; lia).
  replace ((c =? 8) || (c =? 127)) with false by lia. wp_step. unfold char_insert_plain. fold (typed c). cbv zeta.
  assert (Hins : wpe E
    (bias <- stupid_insert p (typed c) ;;
     let p := p + 1 + bias in
     s <- get ;;
     when (showmatch s && strchr_in (str ")]}") (typed c)) (showmatching (p - 1)) ;;
     if autoindent s && (typed c =? 10) then char_insert_autoindent p undo else ret (p, false))
    (fun r s' => wpe E (let '(p, returned) := r in if returned then ret p else modify (set_indentcol 0) ;; ret p) Q s') s).
  { wp_step. apply wp_stupid_insert; [done|done|done|]. intros bias s1 Hwf1 Hre Hfr He Hi. cbv zeta. do 2 wp_step.
    assert (Hops : vi_setops s1 = vi_setops s) by exact (f_equal vi_setops Hfr).
    assert (Hno : showmatch s1 && strchr_in (str ")]}") (typed c) = false).
    { unfold showmatch in *. rewrite Hops. destruct Hsm as [->|Hcl]; [done|]. apply andb_false_iff. right. unfold typed.
      destruct (Z.eqb_spec c 13); [done|]. by apply not_closing; [lia|]. }
    rewrite Hno. unfold when. do 2 wp_step.
    replace (autoindent s1 && (typed c =? 10)) with false.
    2:{ unfold autoindent in *. rewrite Hops. destruct Hai as [->|]; [done|]. symmetry. apply andb_false_iff. right. lia. }
    do 3 wp_step. apply HQ; [by apply (wf_same s1)|exact Hre|exact (f_equal (set_indentcol 0) Hfr)|exact He|exact Hi]. }
  wp_step. wp_step; [|done]. destruct Hq as [Hq|Hq]; [|lia].
  apply wp_undo_queue_commit; [rewrite Hq; done|]. unfold committed. rewrite Hq. exact Hins.
Qed.

(** Typing a printable character inserts it in front of [p] and answers
    the address behind it, with the pointers following a block that moved.
    The insertion is not recorded: whatever the undo mode, the undo stack,
    the undo queue and the modification count stay as they are. *)
Theorem typed_char s p c undo : wf s -> good_alloc s -> in_text s p -> 32 <= c < 256 -> c <> 127 ->
  showmatch s = false \/ ~ In c (str ")]}") ->
  exists bias s', char_insert p c undo s = Ok (p + 1 + bias) s' /\ wf s' /\
    contents s' = take (off s p) (contents s) ++ [c] ++ drop (off s p) (contents s) /\ rebased bias s s' /\
    undo_stack_tail s' = undo_stack_tail s /\ undo_q s' = undo_q s /\ modified_count s' = modified_count s.
Proof.
  intros Hwf Hal Hp Hc H127 Hsm. assert (Ht : typed c = c) by (unfold typed; by replace (c =? 13) with false by lia).
  assert (H : wp (char_insert p c undo) (fun q s' => exists bias, q = p + 1 + bias /\ wf s' /\
    inserted (off s p) [c] s s' /\ rebased bias s s' /\ frame s' = frame (set_indentcol 0 s)) s).
  { apply wp_type_char; [done|done|done|split; [lia|simpl; lia]|right; lia|done|right; lia|right; lia|].
    rewrite Ht. intros bias s' Hwf' Hre Hfr _ Hins. by exists bias. }
  apply wp_elim in H as (q & s' & Hr & bias & -> & Hwf' & Hins & Hre & Hfr). exists bias, s'.
  repeat split; try done; try apply Hwf'; try apply Hre.
  - exact (f_equal undo_stack_tail Hfr).
  - exact (f_equal undo_q Hfr).
  - exact (f_equal modified_count Hfr).
Qed.
Lemma typed_char_witness : exists bias s', char_insert 1002 65 ALLOW_UNDO_QUEUED demo = Ok (1003 + bias) s' /\
  modified_count s' = 0 /\ undo_q s' = 0.
Proof.
  destruct (typed_char demo 1002 65 ALLOW_UNDO_QUEUED) as (bias & s' & H1 & _ & _ & _ & _ & H2 & H3);
    [exact demo_wf|exact demo_good_alloc|at_demo|lia|lia|left; reflexivity|].
  exists bias, s'. split; [exact H1|]. split; [rewrite H3; reflexivity|rewrite H2; reflexivity].
Defined.

(** ** Loading *)
(** the entry of the inserted file goes on the stack, past the queue *)
Lemma wp_undo_push_file E s p n (Q : unit -> Ed -> Prop) : wf s -> in_text s p -> 0 <= n < 2 ^ 31 ->
  (forall s1, uframe s1 = uframe s -> undo_q s1 = undo_q s -> undo_queue s1 = undo_queue s ->
     undo_queue_state s1 = undo_queue_state s -> Q tt s1) ->
  wpe E (undo_push_insert p n ALLOW_UNDO) Q s.
Proof.
  intros Hwf Hp Hn HQ. unfold undo_push_insert, undo_push. rewrite (u32_small n) by lia. do 2 wp_step.
  change (wpe E (undo_push_text p n UNDO_INS) Q s).
  apply wp_undo_push_text; [done..|intros [?|?]; done|]. by apply HQ.
Qed.
Lemma wp_file_insert E s fn f data p initial (Q : Z -> Ed -> Prop) :
  wf s -> qwf s -> good_alloc s -> in_text s p ->
  find_file fn (files s) = Some f -> f_readable f = true -> f_read f = Some data -> f_size f = zlen data ->
  zlen data < 0x7fffffff ->
  (forall bias s', rebased_to p bias data s s' -> undo_q s' = undo_q s -> Q (zlen data) s') ->
  wpe E (file_insert (Some fn) p initial) Q s.
Proof.
  intros Hwf Hq Hal Hp Hff Hrd Hdata Hsz Hlt HQ. unfold file_insert. do 2 wp_step. cbv zeta.
  replace (p <? text s) with false by txt. replace (endp s <? p) with false by txt. rewrite Hff, Hsz.
  replace (zlen data <? 0x7fffffff) with true by lia. assert (0 <= zlen data) by (unfold zlen; lia).
  wp_step. apply wp_hole_make; [done|done|done|done|]. intros bias s1 Hwf1 Hre Hfr He Hins _.
  destruct (Hre) as (Ht & _). destruct (Hwf1) as [? ? ? ?]. rewrite Hrd, Hdata. cbn [negb].
  assert (Htk : take (Z.to_nat (zlen data)) data = data) by (apply take_ge; unfold zlen; lia). rewrite Htk.
  wp_step. apply wp_wr_n; [txt|txt|]. rewrite Z.ltb_irrefl. wp_step.
  replace (Z.to_nat (zlen data)) with (length data) in Hins by (unfold zlen; lia).
  assert (Hwfp : wf (put (p + bias) data s1)) by (apply wf_put; [done|txt|txt]).
  assert (Hqp : qwf (put (p + bias) data s1)) by (eapply qwf_same; [..|exact (qwf_frame s s1 Hfr Hq)]; done).
  assert (Hin : in_text (put (p + bias) data s1) (p + bias)).
  { unfold in_text. change (endp (put _ _ s1)) with (endp s1). change (text (put _ _ s1)) with (text s1). unfold in_text in Hp. lia. }
  apply wp_undo_push_file; [done|done|lia|]. intros s2 Hu Huq Hqq Hqs. wp_step.
  assert (Hq2 : qwf s2) by (by apply (qwf_same (put (p + bias) data s1))).
  apply (HQ bias); [|rewrite Huq; exact (f_equal undo_q Hfr)].
  assert (Hins' : inserted (off s p) data s (put (p + bias) data s1)) by (by apply inserted_put).
  split; [by apply (wf_uframe _ _ Hu)|]. split; [done|]. split; [|split; [|split]].
  - unfold rebased in *. rewrite (f_equal text Hu : text s2 = text s1), (f_equal dot Hu : dot s2 = dot s1),
      (f_equal screenbegin Hu : screenbegin s2 = screenbegin s1), (f_equal mark Hu : mark s2 = mark s1),
      (f_equal vi_visual_anchor Hu : vi_visual_anchor s2 = vi_visual_anchor s1). done.
  - rewrite (eframe_uframe _ _ Hu). exact (f_equal uframe Hfr).
  - by rewrite (f_equal endp Hu : endp s2 = endp s1).
  - unfold inserted in *. by rewrite (contents_uframe _ _ Hu).
Qed.

(** C38: file_insert() inserts the content of a readable file at [p] and
    answers its length; but of a file that can be
    found and not opened it answers -1 and leaves as many blanks in the text
    as the file has bytes, and it records nothing. *)
Theorem file_insert_spec s fn f p : wf s -> qwf s -> good_alloc s -> in_text s p -> find_file fn (files s) = Some f ->
  0 <= f_size f < 0x7fffffff ->
  (forall data, f_readable f = true -> f_read f = Some data -> f_size f = zlen data ->
     exists s', file_insert (Some fn) p true s = Ok (zlen data) s' /\ wf s' /\
       contents s' = take (off s p) (contents s) ++ data ++ drop (off s p) (contents s)) /\
  (f_readable f = false ->
     exists s', file_insert (Some fn) p true s = Ok (-1) s' /\ wf s' /\ undo_stack_tail s' = undo_stack_tail s /\
       contents s' = take (off s p) (contents s) ++ replicate (Z.to_nat (f_size f)) 32 ++ drop (off s p) (contents s)).
Proof.
  intros Hwf Hq Hal Hp Hff Hsz. split.
  - intros data Hrd Hdata Hl.
    assert (H : wp (file_insert (Some fn) p true) (fun n s' => n = zlen data /\ wf s' /\ inserted (off s p) data s s') s).
    { apply (wp_file_insert _ s fn f data); try done; [lia|]. intros bias s' (Hwf' & _ & _ & _ & _ & Hins) _. done. }
    apply wp_elim in H as (n & s' & Hr & -> & ?). by exists s'.
  - intros Hrd.
    assert (H : wp (file_insert (Some fn) p true) (fun n s' => n = -1 /\ wf s' /\ undo_stack_tail s' = undo_stack_tail s /\
      inserted (off s p) (replicate (Z.to_nat (f_size f)) 32) s s') s).
    { unfold file_insert. do 2 wp_step. cbv zeta. replace (p <? text s) with false by txt.
      replace (endp s <? p) with false by txt. rewrite Hff. replace (f_size f <? 0x7fffffff) with true by lia.
      wp_step. apply wp_hole_make; [done|done|done|lia|]. intros bias s1 Hwf1 Hre Hfr He Hins _. rewrite Hrd. cbn [negb].
      unfold when. wp_step. wp_step. split; [done|]. split; [done|]. split; [exact (f_equal undo_stack_tail Hfr)|done]. }
    apply wp_elim in H as (n & s' & Hr & -> & ?). by exists s'.
Qed.
Lemma file_insert_witness :
  let s := demo_of (str "ab") [] [mkFile (str "f") 3 false None true 0] in
  exists s', file_insert (Some (str "f")) 1001 true s = Ok (-1) s' /\ contents s' = str "a   b".
Proof.
  intros s. destruct (file_insert_spec s (str "f") (mkFile (str "f") 3 false None true 0) 1001) as [_ H].
  - split; at_demo.
  - split; at_demo.
  - exact demo_good_alloc.
  - at_demo.
  - reflexivity.
  - simpl. lia.
  - destruct (H eq_refl) as (s' & H1 & _ & _ & H2). exists s'. split; [exact H1|]. rewrite H2. reflexivity.
Defined.

(** ** Loading a buffer *)
Lemma wf_zalloc s t : 0 < t -> wf (set_text t (set_endp t (set_dot t (set_screenbegin t
  (set_mem (replicate (Z.to_nat 10240) 0) (set_text_size 10240 s)))))).
Proof.
  intros Ht. split; cbn [text endp text_size mem set_text set_endp set_dot set_screenbegin set_mem set_text_size]; try lia.
  unfold zlen. rewrite length_replicate. lia.
Qed.

(** what a buffer looks like that was just loaded *)
Definition loaded (bs : list Z) (s : Ed) : Prop :=
  wf s /\ qwf s /\ contents s = bs /\ dot s = text s /\ screenbegin s = text s /\ modified_count s = 0 /\
  last_modified_count s = -1 /\ undo_stack_tail s = [] /\ mark s = replicate 28 0.
(** all that init_text_buffer() leaves alone *)
Definition bframe (s : Ed) : Ed := set_last_modified_count 0 (set_current_filename None (set_cur_syntax 0 (eframe s))).

Lemma wp_init_text_buffer E s fn f data (Q : Z -> Ed -> Prop) : qwf s -> good_alloc s ->
  find_file fn (files s) = Some f -> f_readable f = true -> f_read f = Some data -> f_size f = zlen data ->
  zlen data < 0x7fffffff -> (forall s', loaded data s' -> bframe s' = bframe s -> undo_q s' = undo_q s ->
     current_filename s' = Some fn -> Q (zlen data) s') ->
  wpe E (init_text_buffer (Some fn)) Q s.
Proof.
  intros Hq Hal Hff Hrd Hdata Hsz Hlt HQ. unfold init_text_buffer. do 3 wp_step.
  eapply wpe_ok; [reflexivity|]. cbv beta. set (t := alloc_addr _ _). do 2 wp_step.
  unfold update_filename, syntax_set_file. do 4 wp_step. set (s1 := set_current_filename _ _).
  pose proof (Hal (alloc_cnt s)) as Ht. assert (Hwf1 : wf s1) by (by eapply wf_same; [..|apply (wf_zalloc s t)]).
  assert (Hq1 : qwf s1) by (by eapply qwf_same; [..|exact Hq]).
  assert (Hc1 : contents s1 = []) by (rewrite contents_mem; change (endp s1 - text s1) with (t - t); by rewrite Z.sub_diag).
  wp_step. apply (wp_file_insert E s1 fn f data); try done.
  intros bias s2 (Hwf2 & Hq2 & (Htx & Hdt & Hsb & _) & Hfr & He2 & Hins) Huq. do 2 wp_step. wp_step.
  assert (0 <= zlen data) by (unfold zlen; lia). replace (zlen data <? 0) with false by lia. unfold when.
  wp_step. wp_step. unfold flush_undo_data. do 3 wp_step. wp_step.
  apply HQ; [|exact (f_equal (fun x => set_last_modified_count 0 (set_current_filename None (set_cur_syntax 0 x))) Hfr)|exact Huq|
    exact (f_equal current_filename Hfr)].
  unfold inserted in Hins. rewrite Hc1, take_nil, drop_nil, app_nil_r in Hins.
  change (dot s1) with t in Hdt. change (screenbegin s1) with t in Hsb. change (text s1) with t in Htx.
  split; [by eapply wf_same; [..|exact Hwf2]|]. split; [by eapply qwf_same; [..|exact Hq2]|].
  split; [exact Hins|]. split; [simpl; lia|]. split; [simpl; lia|]. done.
Qed.

(** C33: What is written is read back: after file_write() saved the whole
    buffer in a file, init_text_buffer() of this file, in whatever state,
    loads the same text into a fresh buffer with the cursor at its start,
    no undo, no marks and no modification counted. *)
Theorem save_load_roundtrip s fn : wf s -> text s < endp s -> endp s - text s < 0x7fffffff ->
  match find_file fn (files s) with
  | Some f => f_writable f = true /\ endp s - text s <= f_accept f
  | None => can_create (env s) = true
  end ->
  exists s1, file_write (Some fn) (text s) (endp s - 1) s = Ok (endp s - text s) s1 /\ contents s1 = contents s /\
    forall t, qwf t -> good_alloc t -> files t = files s1 ->
      exists t', init_text_buffer (Some fn) t = Ok (endp s - text s) t' /\ loaded (contents s) t'.
Proof.
  intros Hwf Hne Hlt Hacc. pose proof (length_contents s Hwf) as Hl.
  set (n := match find_file fn (files s) with Some f => f_accept f | None => 2 ^ 31 end).
  assert (Hn : endp s - text s <= n) by (unfold n; destruct (find_file fn (files s)); lia).
  exists (set_files (write_file fn (contents s) n (files s)) s).
  assert (Hw : file_write (Some fn) (text s) (endp s - 1) s =
    Ok (endp s - text s) (set_files (write_file fn (contents s) n (files s)) s)).
  { unfold file_write, bind, get. replace (endp s - 1 - text s + 1) with (endp s - text s) by lia.
    assert (Hrd : rd_n (text s) (endp s - text s) s = Ok (contents s) s).
    { apply (rd_n_ok s Hwf); [txt|lia|lia]. }
    unfold n in *. destruct (find_file fn (files s)) as [f|].
    - destruct Hacc as [-> Ha]. rewrite Z.min_l by lia. rewrite Hrd. cbn. by rewrite Z.eqb_refl.
    - rewrite Hacc. rewrite Z.min_l by lia. rewrite Hrd. cbn. by rewrite Z.eqb_refl. }
  split; [done|]. split; [done|]. intros t Hq Hal Hfs. rewrite <- Hl.
  assert (H : wp (init_text_buffer (Some fn)) (fun r t' => r = zlen (contents s) /\ loaded (contents s) t') t).
  { eapply (wp_init_text_buffer _ t fn (mkFile fn (zlen (contents s)) true (Some (contents s)) true n) (contents s)); try done.
    - rewrite Hfs. cbn [files set_files]. unfold find_file, write_file. simpl. by rewrite decide_True.
    - lia. }
  apply wp_elim in H as (r & t' & Hr & -> & ?). by exists t'.
Qed.
Lemma save_load_witness :
  exists s1, file_write (Some (str "f")) 1000 1015 demo = Ok 16 s1 /\
    forall t, qwf t -> good_alloc t -> files t = files s1 ->
      exists t', init_text_buffer (Some (str "f")) t = Ok 16 t' /\ loaded (contents demo) t'.
Proof.
  destruct (save_load_roundtrip demo (str "f")) as (s1 & H1 & _ & H2); [exact demo_wf|at_demo|at_demo|reflexivity|].
  exists s1. split; [exact H1|exact H2].
Defined.
