(* ===== verification/EvimTermProps.v ===== *)
(** * evim: correctness of the terminal size and of messages

    The theorems about read_cursor_pos_reply(), get_screen_xy() and
    print_literal(). *)
From S2P Require Import Prelude EvimState EvimLine EvimSyntax EvimInput EvimTerm EvimEdit EvimEx EvimCmd EvimMain.
From S2P Require Import EvimNav EvimHole EvimUndo EvimColor EvimDemo.

(** ** The cursor position report *)
(** the bytes [bs] leave the automaton running, in the state answered *)
Fixpoint probe_feed (v : probe) (bs : list Z) : option probe :=
  match bs with
  | [] => Some v
  | b :: bs => match probe_step v b with inl v => probe_feed v bs | inr _ => None end
  end.
Lemma probe_feed_app v a b : probe_feed v (a ++ b) = (v' ← probe_feed v a; probe_feed v' b)%stdpp.
Proof. revert v. induction a as [|x a IH]; intros v; [done|]. simpl. destruct (probe_step v x); [apply IH|done]. Qed.

Lemma safe_poll_key n b rest s : 0 <= n -> input s = Key b :: rest -> safe_poll n s = Ok (1, b) (set_input rest s).
Proof. intros Hn Hi. unfold safe_poll. rewrite Hi. by replace (0 <=? n) with true by lia. Qed.
Lemma probe_body_key v b rest s : input s = Key b :: rest ->
  probe_body v s = Ok (probe_step v b) (set_input rest s).
Proof.
  intros Hi. unfold probe_body. erewrite bind_ok; [|apply safe_poll_key; [by destruct (pr_state v)|exact Hi]]. done.
Qed.
Lemma probe_keys bs v v' rest s fuel : probe_feed v bs = Some v' -> input s = map Key bs ++ rest ->
  iter (length bs + fuel) probe_body v s = iter fuel probe_body v' (set_input rest s).
Proof.
  revert v s. induction bs as [|b bs IH]; intros v s Hf Hi; simpl in *.
  - injection Hf as ->. rewrite <- Hi. done.
  - erewrite bind_ok by (by apply probe_body_key). destruct (probe_step v b) as [v1|]; [|done].
    by rewrite (IH v1 _ Hf).
Qed.

Lemma feed_junk junk v : pr_state v = WANT_ESC -> ~ In 27 junk -> probe_feed v junk = Some v.
Proof.
  intros Hv. induction junk as [|b junk IH]; intros Hn; [done|]. simpl in *. unfold probe_step. rewrite Hv.
  replace (b =? 27) with false by (symmetry; apply Z.eqb_neq; intuition). apply IH. intuition.
Qed.
Lemma feed_digits ds row col b : Forall (fun d => 48 <= d <= 57) ds -> 0 <= row -> 0 <= col ->
  digits_val (if b : bool then col else row) ds < 4294967296 ->
  probe_feed (mkProbe WANT_PARAMS row col b) ds =
  Some (if b then mkProbe WANT_PARAMS row (digits_val col ds) true else mkProbe WANT_PARAMS (digits_val row ds) col false).
Proof.
  intros Hd. revert row col. induction Hd as [|d ds Hd Hds IH]; intros row col Hr Hc Hlt; [by destruct b|].
  pose proof (digits_val_mono ds Hds) as Hm. cbn [probe_feed probe_step pr_state pr_row pr_col pr_parsing_col].
  replace ((48 <=? d) && (d <=? 57)) with true by lia. unfold digits_val in *. cbn [fold_left] in *. destruct b.
  - specialize (Hm (col * 10 + (d - 48)) ltac:(lia)). rewrite u32_small by lia. rewrite IH by lia. done.
  - specialize (Hm (row * 10 + (d - 48)) ltac:(lia)). rewrite u32_small by lia. rewrite IH by lia. done.
Qed.

(** The cursor position report of a terminal is read back: whatever stale
    input comes before it (without an ESC), the answer to "ESC [ row ; col R"
    is (row, col), for every row and column an unsigned int can hold, and
    exactly the report is consumed. *)
Theorem probe_roundtrip s junk r c rest : 0 < r < 4294967296 -> 0 < c < 4294967296 -> ~ In 27 junk ->
  input s = map Key (junk ++ (27 :: 91 :: dec r ++ 59 :: dec c ++ [82])) ++ rest ->
  read_cursor_pos_reply s = Ok (Some (r, c)) (set_input rest s).
Proof.
  intros Hr Hc Hj Hi. unfold read_cursor_pos_reply, bind at 1, get.
  destruct (dec_spec r ltac:(lia)) as (d1 & ds1 & E1 & Hd1 & Hv1).
  destruct (dec_spec c ltac:(lia)) as (d2 & ds2 & E2 & Hd2 & Hv2). rewrite <- E1 in *. rewrite <- E2 in *.
  set (bs := junk ++ 27 :: 91 :: dec r ++ 59 :: dec c) in *.
  assert (Hbs : junk ++ 27 :: 91 :: dec r ++ 59 :: dec c ++ [82] = bs ++ [82]).
  { unfold bs. rewrite <- app_assoc. cbn [app]. rewrite <- app_assoc. done. }
  rewrite Hbs, map_app, <- app_assoc in Hi. change (map Key [82] ++ rest) with (Key 82 :: rest) in Hi.
  assert (Hfeed : probe_feed (mkProbe WANT_ESC 0 0 false) bs = Some (mkProbe WANT_PARAMS r c true)).
  { unfold bs. rewrite probe_feed_app, feed_junk by done. cbn [mbind option_bind]. cbn [probe_feed probe_step pr_state].
    change (27 =? 27) with true. cbn [probe_feed probe_step pr_state pr_row pr_col pr_parsing_col]. change (91 =? 91) with true.
    rewrite probe_feed_app, feed_digits by (done || lia). rewrite Hv1. cbn [mbind option_bind].
    cbn [probe_feed probe_step pr_state pr_row pr_col]. change ((48 <=? 59) && (59 <=? 57)) with false. change (59 =? 59) with true. cbv iota.
    rewrite feed_digits by (done || lia). by rewrite Hv2. }
  assert (Hlen : length (input s) = (length bs + S (length rest))%nat) by (rewrite Hi, length_app, length_map; done).
  replace (S (length (input s))) with (length bs + S (S (length rest)))%nat by lia.
  rewrite (probe_keys bs _ _ (Key 82 :: rest) s _ Hfeed Hi). cbn [iter].
  erewrite bind_ok by (by apply probe_body_key). unfold probe_step. cbn [pr_state pr_row pr_col].
  change ((48 <=? 82) && (82 <=? 57)) with false. change (82 =? 59) with false. change (82 =? 82) with true. cbv iota.
  replace ((0 <? r) && (0 <? c)) with true by lia. done.
Qed.
Lemma probe_roundtrip_witness :
  let s := demo_of [] (map Key (str "xy" ++ 27 :: str "[24;80Rq")) [] in
  read_cursor_pos_reply s = Ok (Some (24, 80)) (set_input [Key 113] s).
Proof.
  intros s. apply (probe_roundtrip s (str "xy") 24 80 [Key 113]); [lia|lia|vm_compute; intuition discriminate|reflexivity].
Defined.

Lemma wp_read_cursor_pos_reply E s (Q : option (Z * Z) -> Ed -> Prop) :
  (forall r n, Q r (set_input n s)) -> wpe E read_cursor_pos_reply Q s.
Proof.
  intros HQ. unfold read_cursor_pos_reply. do 2 wp_step.
  apply (wpe_iter E (fun _ s1 => exists n, s1 = set_input n s) (fun _ s1 => Z.of_nat (length (input s1)))); [| |lia].
  2:{ by exists (input s). }
  intros v s1 (n & ->). split; [lia|]. unfold probe_body. wp_step. unfold safe_poll.
  assert ((0 <=? match pr_state v with WANT_ESC => 200 | _ => 100 end) = true) as Hp by (by destruct (pr_state v)).
  set (tm := match pr_state v with WANT_ESC => 200 | _ => 100 end) in *.
  eapply (wpe_mono _ _ (fun p s' => exists n', s' = set_input n' s /\ (0 < fst p -> (length n' < length n)%nat))).
  - unfold wpe. rewrite Hp. cbn [input set_input]. destruct n as [|[b| |] n]; (eexists; split; [reflexivity|]); simpl; lia.
  - intros [st c] s' (n' & -> & Hlen). cbn [fst] in Hlen. wp_step; [wp_step; apply HQ|].
    wp_step. destruct (probe_step v c); [|apply HQ]. split; [by exists n'|]. simpl in *. lia.
Qed.

(** the smallest and largest size of a screen *)
Definition clamp_size (n m : Z) : Z := Z.min m (Z.max 2 n).

Lemma clamp_if n : (if 4096 <? (if n <? 2 then 2 else n) then 4096 else if n <? 2 then 2 else n) = clamp_size n 4096.
Proof.
  unfold clamp_size. destruct (Z.ltb_spec n 2); [change (4096 <? 2) with false; cbv iota; lia|].
  destruct (Z.ltb_spec 4096 n); lia.
Qed.

(** the end of get_screen_xy() *)
Definition screen_fit (rc : Z * Z) : EM (Z * Z) :=
  let '(rows, cols) := rc in
  ret (if 4096 <? (if cols <? 2 then 2 else cols) then 4096 else if cols <? 2 then 2 else cols,
       if 4096 <? (if rows <? 2 then 2 else rows) then 4096 else if rows <? 2 then 2 else rows).
Lemma wp_screen_fit (P : Z * Z -> Prop) rc s : P (clamp_size (snd rc) 4096, clamp_size (fst rc) 4096) ->
  wp (screen_fit rc) (fun xy _ => 2 <= fst xy <= 4096 /\ 2 <= snd xy <= 4096 /\ P xy) s.
Proof.
  destruct rc as [r c]. intros HP. unfold screen_fit. wp_step. cbn [fst snd] in *. rewrite !clamp_if. unfold clamp_size in *. repeat split; try lia. done.
Qed.
(** the question to the terminal, and the size when it cannot be asked *)
Lemma wp_screen_probe (b : bool) (P : Z * Z -> Prop) s : (forall xy, b = true -> P xy) -> (b = false -> P (80, 24)) ->
  wp (if b then
        puts_no_eol (27 :: str "[999;999H") ;; puts_no_eol (27 :: str "[6n") ;;
        r <- read_cursor_pos_reply ;; puts_no_eol ESC_SET_CURSOR_TOPLEFT ;; ret (default (24, 80) r)
      else ret (24, 80))
    (fun rc => wp (screen_fit rc) (fun xy _ => 2 <= fst xy <= 4096 /\ 2 <= snd xy <= 4096 /\ P xy)) s.
Proof.
  intros H1 H2. wp_step.
  - wp_step. apply wp_puts. wp_step. apply wp_puts. wp_step. apply wp_read_cursor_pos_reply. intros r n.
    wp_step. apply wp_puts. wp_step. apply wp_screen_fit. by apply H1.
  - wp_step. apply (wp_screen_fit P (24, 80)). by apply H2.
Qed.

(** C40: get_screen_xy() always answers, with a size that fits the buffers: at
    least 2 and at most MAX_SCR_COLS columns and MAX_SCR_ROWS rows, whatever
    the driver and the terminal say; a size that the driver knows is taken
    as it is within these limits, and without a terminal it is 80 by 24. *)
Theorem get_screen_xy_bounds s tty0 tty1 winsz :
  exists cols rows s', get_screen_xy tty0 tty1 winsz s = Ok (cols, rows) s' /\
    2 <= cols <= MAX_SCR_COLS /\ 2 <= rows <= MAX_SCR_ROWS /\
    match winsz with
    | Some (r, c) => tty0 = true -> 0 < r -> 0 < c -> (cols, rows) = (clamp_size c MAX_SCR_COLS, clamp_size r MAX_SCR_ROWS)
    | None => tty0 && tty1 = false -> (cols, rows) = (80, 24)
    end.
Proof.
  set (P := fun xy : Z * Z => match winsz with
    | Some (r, c) => tty0 = true -> 0 < r -> 0 < c -> xy = (clamp_size c 4096, clamp_size r 4096)
    | None => tty0 && tty1 = false -> xy = (80, 24)
    end).
  assert (H : wp (get_screen_xy tty0 tty1 winsz) (fun xy s' => 2 <= fst xy <= 4096 /\ 2 <= snd xy <= 4096 /\ P xy) s).
  { unfold get_screen_xy. cbv zeta. unfold MAX_SCR_COLS, MAX_SCR_ROWS, VI_MAX_SCREEN_LEN. wp_step. destruct tty0.
    - destruct winsz as [[r c]|].
      + destruct (Z.ltb_spec 0 r), (Z.ltb_spec 0 c); cbn [andb]; [|apply (wp_screen_probe _ P); unfold P; intros; lia..].
        wp_step. by apply (wp_screen_fit P (r, c) s).
      + apply (wp_screen_probe _ P); unfold P; [|done]. intros xy H1 H2. congruence.
    - apply (wp_screen_probe _ P); unfold P; [done|]. intros _. by destruct winsz as [[r c]|]. }
  apply wp_elim in H as ([cols rows] & s' & Hr & ? & ? & ?). by exists cols, rows, s'.
Qed.
Lemma get_screen_xy_witness :
  exists s', get_screen_xy true true (Some (24, 10000)) demo = Ok (4096, 24) s'.
Proof.
  destruct (get_screen_xy_bounds demo true true (Some (24, 10000))) as (c & r & s' & H1 & _ & _ & H2).
  exists s'. rewrite H1. rewrite (H2 eq_refl eq_refl eq_refl). reflexivity.
Defined.

(** ** Messages *)
Definition printable (c : Z) : Prop := 32 <= c <= 126.
(** a byte with bit 7 set lies above the ASCII range *)
Lemma bit7 c : 0 <= c < 256 -> (Z.land c 0x80 =? 0) = (c <? 128).
Proof.
  intros Hc. change 128 with (2 ^ 7). destruct (Z.ltb_spec c (2 ^ 7)) as [Hlt|Hge].
  - apply Z.eqb_eq. apply Z.bits_inj'. intros n Hn. rewrite Z.land_spec, Z.bits_0, Z.pow2_bits_eqb by lia.
    destruct (Z.eqb_spec 7 n) as [<-|]; [|apply andb_false_r]. rewrite andb_true_r.
    destruct (Z.eq_dec c 0) as [->|]; [done|]. apply Z.bits_above_log2; [lia|]. apply Z.log2_lt_pow2; lia.
  - apply Z.eqb_neq. intros H. assert (Hb : Z.testbit (Z.land c (2 ^ 7)) 7 = true).
    { rewrite Z.land_spec, Z.pow2_bits_true, andb_true_r by lia. apply Z.testbit_true; [lia|].
      assert (c / 2 ^ 7 = 1) as ->; [|done]. symmetry. apply (Z.div_unique c (2 ^ 7) 1 (c - 2 ^ 7)); lia. }
    rewrite H in Hb. by rewrite Z.bits_0 in Hb.
Qed.
Lemma is_asciionly_spec c : 0 <= c < 256 -> is_asciionly c = (32 <=? c) && (c <=? 126).
Proof.
  intros Hc. unfold is_asciionly, u32. destruct (Z.leb_spec 32 c).
  - rewrite Z.mod_small by lia. simpl. destruct (Z.leb_spec c 126); lia.
  - replace (c - 32) with (c - 32 + 4294967296 + -1 * 4294967296) by lia. rewrite Z.mod_add by lia.
    rewrite Z.mod_small by lia. simpl. lia.
Qed.
Lemma lor_64 c : 0 <= c < 32 -> Z.lor c 64 = c + 64.
Proof.
  intros Hc. assert (Z.land c 64 = 0) as H0; [|pose proof (Z.add_lor_land c 64); lia].
  change 64 with (2 ^ 6). apply Z.bits_inj'. intros n Hn. rewrite Z.land_spec, Z.bits_0, Z.pow2_bits_eqb by lia.
  destruct (Z.eqb_spec 6 n) as [<-|]; [|apply andb_false_r]. rewrite andb_true_r.
  destruct (Z.eq_dec c 0) as [->|]; [done|]. apply Z.bits_above_log2; [lia|]. apply Z.log2_lt_pow2; lia.
Qed.

Lemma print_literal_go_spec s d : Forall (fun c => 0 <= c < 256) s -> Forall printable d ->
  zlen d <= MAX_INPUT_LEN - 10 ->
  Forall printable (print_literal_go s d) /\ zlen (print_literal_go s d) <= MAX_INPUT_LEN - 8.
Proof.
  intros Hs. revert d. induction Hs as [|c s Hc Hs IH]; intros d Hd Hl; cbn [print_literal_go]; unfold MAX_INPUT_LEN in *.
  { split; [done|lia]. }
  rewrite bit7, is_asciionly_spec by done. cbv zeta.
  set (c' := if negb (c <? 128) && negb ((32 <=? c) && (c <=? 126)) then 63 else c).
  assert (Hc' : 0 <= c' < 128).
  { unfold c'. destruct (Z.ltb_spec c 128); simpl; [lia|]. replace (c <=? 126) with false by lia.
    rewrite andb_false_r. simpl. lia. }
  set (d' := if (c' <? 32) || (c' =? 127) then _ else _).
  assert (Hd' : Forall printable d' /\ zlen d <= zlen d' <= zlen d + 2).
  { unfold d', printable. destruct (Z.ltb_spec c' 32) as [H|H]; cbn [orb].
    - rewrite lor_64 by lia. replace (c' + 64 =? 127) with false by lia.
      split; [apply Forall_app; split; [done|repeat constructor; lia]|unfold zlen; rewrite length_app; simpl; lia].
    - destruct (Z.eqb_spec c' 127) as [->|].
      + split; [apply Forall_app; split; [done|repeat constructor; simpl; lia]|unfold zlen; rewrite length_app; simpl; lia].
      + split; [apply Forall_app; split; [done|repeat constructor; lia]|unfold zlen; rewrite length_app; simpl; lia]. }
  destruct Hd' as [Hd' Hlen]. destruct (Z.ltb_spec (128 - 10) (zlen d')); [split; [done|lia]|]. apply IH; [done|lia].
Qed.
Lemma print_literal_go_id s d : Forall printable s -> zlen d + zlen s <= MAX_INPUT_LEN - 9 ->
  print_literal_go s d = d ++ s.
Proof.
  intros Hs. revert d. induction Hs as [|c s Hc Hs IH]; intros d Hl; cbn [print_literal_go]; unfold MAX_INPUT_LEN in *.
  { by rewrite app_nil_r. }
  unfold printable in Hc. rewrite bit7, is_asciionly_spec by lia. replace (c <? 128) with true by lia. cbn [negb andb]. cbv zeta.
  replace ((c <? 32) || (c =? 127)) with false by lia.
  assert (Hz : zlen (c :: s) = zlen s + 1) by (unfold zlen; simpl; lia).
  assert (Hz2 : zlen (d ++ [c]) = zlen d + 1) by (unfold zlen; rewrite length_app; simpl; lia).
  destruct (Z.ltb_spec (128 - 10) (zlen (d ++ [c]))).
  - destruct s; [done|]. unfold zlen in *. simpl in *. lia.
  - rewrite IH by lia. by rewrite <- app_assoc.
Qed.

(** print_literal() makes any string fit for the status line: what it
    writes is printable ASCII and fits its buffer of MAX_INPUT_LEN bytes, and
    a printable string that is short enough is copied unchanged. *)
Theorem print_literal_spec s : Forall (fun c => 0 <= c < 256) s ->
  Forall printable (print_literal s) /\ zlen (print_literal s) < MAX_INPUT_LEN /\
  (Forall printable s -> 0 < zlen s <= MAX_INPUT_LEN - 9 -> print_literal s = s).
Proof.
  intros Hs. unfold print_literal.
  assert (H : Forall (fun c => 0 <= c < 256) (match s with [] => str "(NULL)" | _ => s end)).
  { destruct s; [repeat constructor; lia|done]. }
  destruct (print_literal_go_spec _ [] H) as [H1 H2]; [constructor|unfold MAX_INPUT_LEN, zlen; simpl; lia|].
  split; [done|]. split; [unfold MAX_INPUT_LEN in *; lia|]. intros Hp Hl. destruct s as [|c s]; [unfold zlen in Hl; simpl in Hl; lia|].
  rewrite print_literal_go_id; [done|done|]. unfold zlen in *. simpl in *. lia.
Qed.
Lemma print_literal_witness : print_literal (str "abc") = str "abc" /\ Forall printable (print_literal [1; 200; 127]).
Proof.
  split.
  - destruct (print_literal_spec (str "abc")) as (_ & _ & H); [repeat constructor; lia|].
    apply H; [repeat constructor; discriminate|at_demo].
  - apply (print_literal_spec [1; 200; 127]). repeat constructor; lia.
Defined.
