(* ===== verification/EvimExProps.v ===== *)
(** * evim: correctness of ex addresses, options and colon commands

    The theorems about get_one_address(), setops() and colon(). *)
From S2P Require Import Prelude EvimState EvimLine EvimSyntax EvimInput EvimTerm EvimEdit EvimEx EvimCmd EvimMain.
From S2P Require Import EvimNav EvimHole EvimUndo EvimColor EvimStatus EvimPop EvimDemo EvimLineProps.

(** ** Numbers *)
Lemma digit_isdigit ds : Forall (fun d => 48 <= d <= 57) ds -> forall rest, isdigit (hd0 rest) = false ->
  take_while isdigit (ds ++ rest) = ds /\ skip_while isdigit (ds ++ rest) = rest.
Proof.
  induction 1 as [|d ds Hd Hds IH]; intros rest Hr.
  - destruct rest as [|c rest]; [done|]. simpl in *. unfold hd0 in Hr. simpl in Hr. by rewrite Hr.
  - destruct (IH rest Hr) as [H1 H2]. simpl. replace (isdigit d) with true by (unfold isdigit; lia). by rewrite H1, H2.
Qed.
Lemma parse_digits ds acc : Forall (fun d => 48 <= d <= 57) ds -> 0 <= acc -> digits_val acc ds < 2 ^ 31 ->
  fold_left (fun num c => i32 (num * 10 + c - 48)) ds acc = digits_val acc ds.
Proof.
  intros Hd. revert acc. induction Hd as [|d ds Hd Hds IH]; intros acc Ha Hlt; [done|].
  unfold digits_val in *. cbn [fold_left] in *. pose proof (digits_val_mono ds Hds (acc * 10 + (d - 48)) ltac:(lia)) as Hm.
  unfold digits_val in Hm. replace (acc * 10 + d - 48) with (acc * 10 + (d - 48)) by lia.
  rewrite i32_small by lia. apply IH; lia.
Qed.
(** what the parser makes of a number that printf() wrote *)
Lemma parse_dec n rest : 0 <= n < 2 ^ 31 -> isdigit (hd0 rest) = false ->
  parse_num (dec n ++ rest) = n /\ skip_while isdigit (dec n ++ rest) = rest /\ isdigit (hd0 (dec n ++ rest)) = true.
Proof.
  intros Hn Hr. destruct (dec_spec n ltac:(lia)) as (d & ds & E1 & Hd & Hv). rewrite E1.
  destruct (digit_isdigit (d :: ds) Hd rest Hr) as [H1 H2]. split; [|split; [done|]].
  - unfold parse_num. rewrite H1. rewrite parse_digits by (done || lia). done.
  - inversion_clear Hd. unfold hd0, isdigit. simpl. lia.
Qed.

(** ** Addresses *)
(** [base] is an address that stands for line [v] *)
Definition base_value (s : Ed) (base : list Z) (v : Z) : Prop :=
  (base = dec v /\ 0 <= v < 2 ^ 31) \/
  (base = [46] /\ count_lines (text s) (dot s) s = Ok v s) \/
  (base = [36] /\ count_lines (text s) (endp s - 1) s = Ok v s).
(** what may follow an address *)
Definition address_ends (rest : list Z) : Prop :=
  isdigit (hd0 rest) = false /\ isblank (hd0 rest) = false /\ hd0 rest <> 43 /\ hd0 rest <> 45.

Lemma addr_end p v sign s : address_ends p -> addr_body (mkAddr p v sign true) s = Ok (inr (Some (p, v + sign, true))) s.
Proof.
  intros (H1 & H2 & H3 & H4). unfold addr_body. cbv zeta. rewrite H1, H2. cbn [negb andb].
  by replace ((hd0 p =? 45) || (hd0 p =? 43)) with false by lia.
Qed.
Lemma addr_sign c p v s : c = 43 \/ c = 45 -> addr_body (mkAddr (c :: p) v 0 true) s =
  Ok (inl (mkAddr p v (if c =? 43 then 1 else -1) true)) s.
Proof. intros [-> | ->]; unfold addr_body; simpl; by rewrite Z.add_0_r. Qed.
Lemma addr_number n rest v sign got s : 0 <= n < 2 ^ 31 -> isdigit (hd0 rest) = false ->
  addr_body (mkAddr (dec n ++ rest) v sign got) s =
  Ok (inl (mkAddr rest (if got then v + (if 0 <=? sign then n else - n) else n) 0 true)) s.
Proof.
  intros Hn Hr. destruct (parse_dec n rest Hn Hr) as (H1 & H2 & H3). unfold addr_body. cbv zeta. rewrite H1, H2, H3.
  assert (48 <= hd0 (dec n ++ rest) <= 57) as Hh by (unfold isdigit in H3; lia).
  replace (isblank (hd0 (dec n ++ rest))) with false by (unfold isblank; lia).
  replace (hd0 (dec n ++ rest) =? 46) with false by lia. replace (hd0 (dec n ++ rest) =? 36) with false by lia.
  replace (hd0 (dec n ++ rest) =? 39) with false by lia. replace (hd0 (dec n ++ rest) =? 47) with false by lia.
  replace (hd0 (dec n ++ rest) =? 63) with false by lia. rewrite !andb_false_r. by destruct got.
Qed.
Lemma addr_base s base v rest n : base_value s base v -> count_lines (text s) (dot s) s = Ok n s -> isdigit (hd0 rest) = false ->
  addr_body (mkAddr (base ++ rest) n 0 false) s = Ok (inl (mkAddr rest v 0 true)) s.
Proof.
  intros [[-> Hv]|[[-> Hv]|[-> Hv]]] Hn Hr.
  - by apply addr_number.
  - assert (n = v) as -> by congruence. done.
  - unfold addr_body. cbn. unfold bind, get. rewrite Hv. done.
Qed.
Lemma base_length s base v : base_value s base v -> (1 <= length base)%nat.
Proof.
  intros [[-> Hv]|[[-> _]|[-> _]]]; simpl; try lia. destruct (dec_spec v ltac:(lia)) as (d & ds & -> & _). simpl. lia.
Qed.

(** An address is the line it names: a number is itself, "." the line of
    dot and "$" the last line (as count_lines() numbers them), and a base
    followed by +k or -k is that many lines further or back; the rest of the
    command line is left for the caller. *)
Theorem address_value s base v rest k sign : wf s -> in_text s (dot s) -> base_value s base v -> address_ends rest ->
  0 <= k < 2 ^ 31 -> sign = 43 \/ sign = 45 ->
  get_one_address (base ++ rest) s = Ok (Some (rest, v, true)) s /\
  get_one_address (base ++ sign :: dec k ++ rest) s = Ok (Some (rest, if sign =? 43 then v + k else v - k, true)) s.
Proof.
  intros Hwf Hd Hb Hr Hk Hs. destruct (Hr) as (Hr1 & _).
  assert (exists n, count_lines (text s) (dot s) s = Ok n s) as [n Hn].
  { assert (H : wp (count_lines (text s) (dot s)) (fun _ s' => s' = s) s).
    { apply (wp_count_lines s Hwf); [pose proof (wf_le _ Hwf); txt|done|]. done. }
    apply wp_elim in H as (n & s' & H & ->). eauto. }
  pose proof (base_length s base v Hb) as Hlen. unfold get_one_address. split.
  - unfold bind, get. rewrite Hn. rewrite length_app. destruct (length base) as [|l]; [lia|]. cbn [Nat.add iter].
    unfold bind. rewrite (addr_base s base v rest n Hb Hn Hr1). rewrite addr_end by done. by rewrite Z.add_0_r.
  - unfold bind, get. rewrite Hn. destruct (dec_spec k ltac:(lia)) as (d & ds & Ek & _ & _).
    assert (exists f, length (base ++ sign :: dec k ++ rest) = S (S (S f))) as [f ->].
    { rewrite Ek, !length_app. simpl. rewrite length_app. exists (length base - 1 + (length ds + length rest))%nat. lia. }
    cbn [iter]. unfold bind. rewrite (addr_base s base v _ n Hb Hn) by (by destruct Hs as [-> | ->]).
    rewrite addr_sign by done. rewrite addr_number by done. rewrite addr_end by done.
    destruct Hs as [-> | ->]; cbn -[Z.add]; do 4 f_equal; lia.
Qed.
Lemma address_value_witness :
  get_one_address (str "$-2d") demo = Ok (Some ([100], 2, true)) demo.
Proof.
  apply (address_value demo [36] 4 [100] 2 45); [exact demo_wf|at_demo| |at_demo|lia|right; reflexivity].
  right. right. split; reflexivity.
Defined.

(** ** Options *)
(** setops() does what :set asks: the name of an option (or its
    abbreviation) sets exactly its bit, with "no" in front clears it,
    "tabstop=N" (or "ts=N") sets the tab width for N from 1 to MAX_TABSTOP,
    and any other N changes nothing but the message. *)
Theorem setops_spec s :
  (forall i name, OPTS_STR !! i = Some name -> (i < 10)%nat ->
     let bit := Z.shiftl 1 (Z.of_nat i / 2) in
     setops name 0 s = Ok tt (set_vi_setops (Z.lor (vi_setops s) bit) s) /\
     setops (str "no" ++ name) 2 s = Ok tt (set_vi_setops (Z.land (vi_setops s) (Z.lnot bit)) s)) /\
  (forall name n, name = str "ts" \/ name = str "tabstop" -> 0 <= n < 2 ^ 31 ->
     exists s', setops (name ++ 61 :: dec n) 0 s = Ok tt s' /\
       if (1 <=? n) && (n <=? MAX_TABSTOP) then s' = set_tabstop n s
       else set_have_status_msg 0 (set_status_buffer [] s') = set_have_status_msg 0 (set_status_buffer [] s)).
Proof.
  split.
  - intros i name Hi Hlt. do 10 (destruct i as [|i]; [injection Hi as <-; by split|]). lia.
  - intros name n Hname Hn. destruct (dec_spec n ltac:(lia)) as (d & ds & Ed & Hd & Hv).
    destruct (digit_isdigit (d :: ds) Hd [] eq_refl) as [H1 _]. rewrite app_nil_r in H1.
    assert (Hst : strtoul10 (dec n) = Some n).
    { unfold strtoul10. rewrite Ed. inversion_clear Hd as [|? ? Hd0 Hds]. cbn [skip_while].
      replace (isspace d) with false by (unfold isspace; lia).
      destruct d as [|d|d]; [lia| |lia]. assert (Z.pos d <> 45 /\ Z.pos d <> 43) as [N1 N2] by lia.
      assert (Hmatch : (match Z.pos d with 45 => (true, ds) | 43 => (false, ds) | _ => (false, Z.pos d :: ds) end) = (false, Z.pos d :: ds)).
      { repeat (destruct d as [d|d|]; try done). }
      assert (E : match Z.pos d :: ds with 45 :: s0 => (true, s0) | 43 :: s0 => (false, s0) | _ => (false, Z.pos d :: ds) end = (false, Z.pos d :: ds)).
      { exact Hmatch. }
      rewrite E. rewrite H1. fold (digits_val 0 (Z.pos d :: ds)). rewrite Hv. by replace (18446744073709551615 <? n) with false by lia. }
    assert (Hset : setops (name ++ 61 :: dec n) 0 s =
      (if (n <=? 0) || (MAX_TABSTOP <? n) then status_line_bold (str "bad option: " ++ (name ++ 61 :: dec n)) else modify (set_tabstop n)) s).
    { unfold setops. assert (Hsc : strchr (name ++ 61 :: dec n) 61 = Some (61 :: dec n)) by (by destruct Hname as [-> | ->]).
      rewrite Hsc. assert (Htk : take (length (name ++ 61 :: dec n) - length (61 :: dec n)) (name ++ 61 :: dec n) = name).
      { rewrite length_app, Nat.add_sub. apply take_app_length. }
      rewrite Htk. change (drop (Z.to_nat 0) name) with name. cbn [tl]. rewrite Hst, i32_small by lia.
      by destruct Hname as [-> | ->]. }
    rewrite Hset. unfold MAX_TABSTOP. destruct (Z.leb_spec n 0), (Z.ltb_spec 32 n); cbn [orb].
    + lia.
    + replace ((1 <=? n) && (n <=? 32)) with false by lia. by eexists.
    + replace ((1 <=? n) && (n <=? 32)) with false by lia. by eexists.
    + replace ((1 <=? n) && (n <=? 32)) with true by lia. by eexists.
Qed.
Lemma setops_witness : setops (str "noic") 2 demo = Ok tt (set_vi_setops (Z.land (vi_setops demo) (Z.lnot 8)) demo).
Proof. destruct (setops_spec demo) as [H _]. destruct (H 6%nat (str "ic")) as [_ H2]; [reflexivity|lia|exact H2]. Defined.

(** ** Colon commands *)
(** a line number alone is parsed as the one address *)
Lemma get_address_number s n : wf s -> in_text s (dot s) -> 0 <= n < 2 ^ 31 ->
  get_address (dec n) (-1) (-1) 0 s = Ok (Some [], mkRange [] (-1) n 1 true) s.
Proof.
  intros Hwf Hd Hn. unfold get_address. destruct (parse_dec n [] Hn eq_refl) as (_ & _ & Hdig).
  assert (exists m, count_lines (text s) (dot s) s = Ok m s) as [m Hm].
  { assert (H : wp (count_lines (text s) (dot s)) (fun _ s' => s' = s) s).
    { apply (wp_count_lines s Hwf); [pose proof (wf_le _ Hwf); txt|done|]. done. }
    apply wp_elim in H as (m & s' & H & ->). eauto. }
  assert (Hone : get_one_address (dec n) s = Ok (Some ([], n, true)) s).
  { unfold get_one_address, bind at 1, get. rewrite (bind_ok _ _ _ _ _ Hm).
    destruct (dec_spec n ltac:(lia)) as (d & ds & Ed & _ & _). rewrite Ed at 1. cbn [length iter].
    pose proof (addr_number n [] m 0 false s Hn eq_refl) as Hnum. rewrite app_nil_r in *.
    rewrite (bind_ok _ _ _ _ _ Hnum). unfold bind. rewrite addr_end by (repeat split; done). by rewrite Z.add_0_r. }
  assert (Hb1 : range_body (mkRange (dec n) (-1) (-1) 0 false) s = Ok (inl (mkRange [] (-1) n 1 true)) s).
  { unfold range_body. cbv zeta. rewrite app_nil_r in Hdig. assert (48 <= hd0 (dec n) <= 57) by (unfold isdigit in Hdig; lia).
    replace (isblank (hd0 (dec n))) with false by (unfold isblank; lia). cbn [negb andb].
    replace (hd0 (dec n) =? 37) with false by lia. by rewrite (bind_ok _ _ _ _ _ Hone). }
  destruct (dec_spec n ltac:(lia)) as (d & ds & Ed & _ & _). unfold bind, gets.
  assert (exists f, S (S (2 * length (dec n))) = S (S f)) as [f ->] by (by exists (2 * length (dec n))%nat).
  cbn [iter]. unfold bind. rewrite Hb1. done.
Qed.

(** the last line number of a buffer that ends in a newline *)
Lemma count_last s : wf s -> text s < endp s -> getb s (endp s - 1) = 10 ->
  in_text s (endp s - 1) /\ count_lines (text s) (endp s - 1) s = Ok (nls s (text s) (endp s)) s.
Proof.
  intros Hwf Hne Hnl. split; [txt|].
  assert (H : wp (count_lines (text s) (endp s - 1)) (fun m s' => s' = s /\ m = nls s (text s) (endp s)) s).
  { apply (wp_count_lines s Hwf); [txt|txt|]. intros e (He & _). split; [done|].
    replace (Z.min (e + 1) (endp s)) with (endp s) by lia. by rewrite Z.min_l by lia. }
  apply wp_elim in H as (m & s' & Hr & -> & ->). done.
Qed.
(** the line [n]: its start, its end *)
Lemma find_line_ends s n : wf s -> text s < endp s -> getb s (endp s - 1) = 10 -> 1 <= n <= nls s (text s) (endp s) ->
  exists q r, find_line n s = Ok q s /\ in_text s q /\ q < endp s /\ bol_of s q q /\ nls s (text s) q = n - 1 /\
    end_line q s = Ok r s /\ count_lines (text s) (endp s - 1) s = Ok (nls s (text s) (endp s)) s.
Proof.
  intros Hwf Hne Hnl Hn. destruct (count_last s Hwf Hne Hnl) as [Hl Hc].
  destruct (fold_next_line s (Z.to_nat (n - 1)) (text s)) as (q & Hq & Hin & Hlt & Hb & Hk); [done|txt| |done| |].
  { split; [lia|]. split; [by left|]. intros i Hi. lia. }
  { rewrite nls_refl. pose proof (nls_split s (text s) (endp s - 1) (endp s) ltac:(txt) ltac:(lia) ltac:(lia)) as H.
    pose proof (nls_step s Hwf (endp s - 1) Hl ltac:(lia)) as H1. replace (endp s - 1 + 1) with (endp s) in H1 by lia.
    rewrite Hnl in H1. simpl in H1. lia. }
  assert (H : wp (end_line q) (fun _ s' => s' = s) s) by (apply (wp_end_line s Hwf); done).
  apply wp_elim in H as (r & s' & Hr & ->). exists q, r. rewrite nls_refl in Hk.
  split; [exact Hq|]. split; [done|]. split; [done|]. split; [done|]. split; [lia|]. done.
Qed.
(** colon() of a number, after its parsing *)
Lemma colon_number s n : wf s -> text s < endp s -> in_text s (dot s) -> 1 <= n < 2 ^ 31 ->
  colon (dec n) s =
  match count_lines (text s) (endp s - 1) s with
  | Ok li _ =>
      (ok <- (if (n <? 0) || (li <? n) then status_line_bold (str "Invalid range") ;; ret true
              else qr <- find_line n ;; r <- end_line qr ;; colon_dispatch (mkColon [] [] false (-1) n 1 qr r 1) []) ;;
       if (ok : bool) then d <- gets dot ;; d <- bound_dot d ;; modify (set_dot d) else ret tt) s
  | Err f => Err f
  end.
Proof.
  intros Hwf Hne Hd Hn. pose proof (get_address_number s n Hwf Hd ltac:(lia)) as Hga.
  destruct (dec_spec n ltac:(lia)) as (d & ds & Ed & Hds & _). inversion_clear Hds as [|? ? Hd0 _].
  unfold colon, colon_run. cbv zeta.
  assert (Hskip : skip_while isblank (skip_while (fun c => c =? 58) (dec n)) = dec n).
  { rewrite Ed. cbn [skip_while]. replace (d =? 58) with false by lia. cbn [skip_while].
    by replace (isblank d) with false by (unfold isblank; lia). }
  rewrite Hskip. assert (Hh : hd0 (dec n) = d) by (by rewrite Ed). rewrite Hh.
  replace ((d =? 0) || (d =? 34)) with false by lia.
  assert (Hcl : exists li, count_lines (text s) (endp s - 1) s = Ok li s).
  { assert (H : wp (count_lines (text s) (endp s - 1)) (fun _ s' => s' = s) s).
    { apply (wp_count_lines s Hwf); [txt|txt|done]. }
    apply wp_elim in H as (m & s' & H & ->). eauto. }
  destruct Hcl as [li Hcl]. rewrite Hcl. unfold bind at 1 2 3, get. rewrite Hcl. unfold bind at 1. rewrite Hga.
  change (MAX_INPUT_LEN <=? zlen []) with false. change (split_command []) with ([] : list Z, [] : list Z, false).
  cbv iota beta zeta. unfold select_range. cbn [g_b g_e g_got]. change (GOT_ADDRESS 1) with true.
  change (GOT_RANGE 1) with false. cbn [negb]. unfold bind, get, ret.
  destruct ((n <? 0) || (li <? n)); [reflexivity|]. destruct (find_line n s) as [q s1|]; [|done].
  by destruct (end_line q s1).
Qed.

(** ":N" goes to line N: for a line number of the buffer the cursor moves
    to the first character of that line that is no blank (or to its end) and
    nothing else changes; for a larger number the command only leaves the
    message "Invalid range". *)
Theorem colon_goto_line s n : wf s -> text s < endp s -> getb s (endp s - 1) = 10 -> text s <= dot s < endp s -> 1 <= n < 2 ^ 31 ->
  (n <= nls s (text s) (endp s) ->
     exists q d, colon (dec n) s = Ok tt (set_dot d s) /\ bol_of s q q /\ nls s (text s) q = n - 1 /\ q <= d < endp s /\
       (forall i, q <= i < d -> isspace (getb s i) = true /\ getb s i <> 10) /\
       (isspace (getb s d) = false \/ getb s d = 10 \/ d = endp s - 1)) /\
  (nls s (text s) (endp s) < n -> colon (dec n) s = status_line_bold (str "Invalid range") s).
Proof.
  intros Hwf Hne Hnl Hdot Hn. assert (Hin : in_text s (dot s)) by txt. assert (Htx : in_text s (text s)) by txt.
  pose proof (colon_number s n Hwf Hne Hin Hn) as Hrun. split.
  - intros Hle. destruct (find_line_ends s n Hwf Hne Hnl ltac:(lia)) as (q & r & Hq & Hqin & Hlt & Hb & Hln & Hr & Hc).
    assert (Hgo : wp (colon (dec n)) (fun _ s' => exists d, s' = set_dot d s /\ q <= d < endp s /\
      (forall i, q <= i < d -> isspace (getb s i) = true /\ getb s i <> 10) /\
      (isspace (getb s d) = false \/ getb s d = 10 \/ d = endp s - 1)) s).
    { unfold wpe. rewrite Hrun, Hc. replace ((n <? 0) || (nls s (text s) (endp s) <? n)) with false by lia. cbn [negb].
      change (wp (ok <- (qr <- find_line n ;; r <- end_line qr ;;
          colon_dispatch (mkColon [] [] false (-1) n 1 qr r 1) [] ) ;;
        if (ok : bool) then d <- gets dot ;; d <- bound_dot d ;; modify (set_dot d) else ret tt)
        (fun _ s' => exists d, s' = set_dot d s /\ q <= d < endp s /\
          (forall i, q <= i < d -> isspace (getb s i) = true /\ getb s i <> 10) /\
          (isspace (getb s d) = false \/ getb s d = 10 \/ d = endp s - 1)) s).
      do 2 wp_step. apply (wpe_ok _ _ _ _ _ _ Hq). wp_step. apply (wpe_ok _ _ _ _ _ _ Hr).
      unfold colon_dispatch, colon_goto. cbn [c_cmd c_e]. change (zlen [] =? 0) with true.
      replace (0 <=? n) with true by lia. cbv iota. do 2 wp_step.
      apply (wpe_ok _ _ _ _ _ _ Hq). do 2 wp_step.
      apply wp_skip_over_ws; [by apply (wf_same s)|exact Hqin|exact Hlt|]. intros d Hd Hws Hstop. wp_step. wp_step. wp_step. wp_step.
      simpl in Hd. eapply wpe_ok; [apply bound_dot_ok; simpl; txt|]. wp_step.
      exists d. done. }
    apply wp_elim in Hgo as ([] & s' & Hc' & d & -> & H1 & H2 & H3). by exists q, d.
  - intros Hgt. rewrite Hrun. destruct (count_last s Hwf Hne Hnl) as [_ Hc]. rewrite Hc.
    replace ((n <? 0) || (nls s (text s) (endp s) <? n)) with true by lia.
    destruct (status_line_bold (str "Invalid range") s) as [[] s1|f] eqn:E; [|done].
    assert (Hs1 : text s1 = text s /\ endp s1 = endp s /\ dot s1 = dot s /\ set_dot (dot s) s1 = s1).
    { unfold status_line_bold, modify in E. injection E as <-. done. }
    destruct Hs1 as (H1 & H2 & H3 & H4). unfold bind, gets, ret. rewrite E, bound_dot_ok by lia.
    unfold modify. by rewrite H3, H4.
Qed.
Lemma colon_goto_witness : exists q d, colon (str "2") demo = Ok tt (set_dot d demo) /\ bol_of demo q q /\ q <= d < 1016.
Proof.
  destruct (colon_goto_line demo 2) as [H _]; [exact demo_wf|at_demo|reflexivity|at_demo|lia|].
  destruct H as (q & d & H1 & H2 & _ & H3 & _); [at_demo|]. exists q, d. split; [exact H1|]. split; [exact H2|exact H3].
Defined.

(** a command word without an address *)
Definition word_start (c : Z) : Prop :=
  isblank c = false /\ isdigit c = false /\ ~ In c (0 :: str ".$'/?+-%,;:" ++ [34]).
Lemma get_address_word s buf : wf s -> text s < endp s -> in_text s (dot s) -> word_start (hd0 buf) ->
  get_address buf (-1) (-1) 0 s = Ok (Some buf, mkRange buf (-1) (-1) 0 false) s.
Proof.
  intros Hwf Hne Hd (Hb & Hdig & Hn). simpl in Hn.
  assert (exists m, count_lines (text s) (dot s) s = Ok m s) as [m Hm].
  { assert (H : wp (count_lines (text s) (dot s)) (fun _ s' => s' = s) s) by (by apply (wp_count_lines s Hwf); [txt|..]).
    apply wp_elim in H as (m & s' & H & ->). eauto. }
  assert (Ha : addr_body (mkAddr buf m 0 false) s = Ok (inr (Some (buf, m + 0, false))) s).
  { unfold addr_body. cbv zeta. rewrite Hb, Hdig. cbn [negb andb].
    replace (hd0 buf =? 46) with false by lia. replace (hd0 buf =? 36) with false by lia.
    replace (hd0 buf =? 39) with false by lia. replace ((hd0 buf =? 47) || (hd0 buf =? 63)) with false by lia.
    by replace ((hd0 buf =? 45) || (hd0 buf =? 43)) with false by lia. }
  assert (Hone : get_one_address buf s = Ok (Some (buf, m + 0, false)) s).
  { unfold get_one_address, bind at 1, get. rewrite (bind_ok _ _ _ _ _ Hm). cbn [iter]. by rewrite (bind_ok _ _ _ _ _ Ha). }
  assert (Hr : range_body (mkRange buf (-1) (-1) 0 false) s = Ok (inr (Some buf, mkRange buf (-1) (-1) 0 false)) s).
  { unfold range_body. cbv zeta. rewrite Hb. cbn [negb andb]. replace (hd0 buf =? 37) with false by lia.
    rewrite (bind_ok _ _ _ _ _ Hone). change (negb (Z.land 0 1 =? 0)) with false. cbn [orb].
    replace (hd0 buf =? 44) with false by lia. by replace (hd0 buf =? 59) with false by lia. }
  unfold get_address, bind, gets. cbn [iter]. unfold bind. by rewrite Hr.
Qed.
Lemma colon_word s buf : wf s -> text s < endp s -> in_text s (dot s) -> word_start (hd0 buf) -> zlen buf < MAX_INPUT_LEN ->
  colon buf s =
  match count_lines (text s) (endp s - 1) s with
  | Ok li _ =>
      (ok <- (let '(cmd, args, force) := split_command buf in
              colon_dispatch (mkColon cmd args force (-1) (-1) 0 (text s) (endp s - 1) li) buf) ;;
       if (ok : bool) then d <- gets dot ;; d <- bound_dot d ;; modify (set_dot d) else ret tt) s
  | Err f => Err f
  end.
Proof.
  intros Hwf Hne Hd Hw Hlen. pose proof (get_address_word s buf Hwf Hne Hd Hw) as Hga. destruct Hw as (Hb & Hdig & Hn). simpl in Hn.
  unfold colon, colon_run. cbv zeta.
  assert (Hskip : skip_while isblank (skip_while (fun c => c =? 58) buf) = buf).
  { destruct buf as [|c buf]; [done|]. unfold hd0 in *. cbn [hd] in *. cbn [skip_while].
    replace (c =? 58) with false by lia. cbn [skip_while]. by rewrite Hb. }
  rewrite Hskip. replace ((hd0 buf =? 0) || (hd0 buf =? 34)) with false by lia.
  unfold bind at 1 2 3, get. destruct (count_lines (text s) (endp s - 1) s) as [li s'|f] eqn:Hcl; [|done].
  assert (s' = s) as ->.
  { assert (H : wp (count_lines (text s) (endp s - 1)) (fun _ s' => s' = s) s) by (by apply (wp_count_lines s Hwf); [txt|txt|]).
    unfold wpe in H. by rewrite Hcl in H. }
  unfold bind at 1. rewrite Hga. replace (MAX_INPUT_LEN <=? zlen buf) with false by lia.
  destruct (split_command buf) as [[cmd args] force]. unfold select_range. cbn [g_b g_e g_got].
  change (GOT_ADDRESS 0) with false. cbn [negb]. reflexivity.
Qed.
(** the end of colon(): dot is in the text already *)
Lemma colon_end s s1 : text s <= dot s < endp s -> text s1 = text s -> endp s1 = endp s -> dot s1 = dot s ->
  (d <- gets dot ;; d <- bound_dot d ;; modify (set_dot d)) s1 = Ok tt s1.
Proof.
  intros Hd H1 H2 H3. unfold bind, gets. rewrite bound_dot_ok by lia. unfold modify. f_equal.
Qed.

(** A modified buffer is not thrown away: ":q" refuses to leave while
    there are modifications that are not written, ":q!" leaves, and without
    modifications ":q" leaves too, all without touching the text.  ":n"
    refuses as well, and without modifications it always says that there is
    no next file, because the global argc it looks at stays 0. *)
Theorem colon_quit_guard s : wf s -> text s <= dot s < endp s -> argc s = 0 -> 0 <= vi_optind s ->
  (modified_count s <> 0 -> colon (str "q") s = status_line_bold (no_write_msg (str "q")) s) /\
  (modified_count s = 0 -> colon (str "q") s = Ok tt (set_editing 0 s)) /\
  colon (str "q!") s = Ok tt (set_editing 0 s) /\
  (modified_count s <> 0 -> colon (str "n") s = status_line_bold (no_write_msg (str "n")) s) /\
  (modified_count s = 0 -> colon (str "n") s = status_line_bold (str "No more files to edit") s).
Proof.
  intros Hwf Hd Hargc Hopt. assert (Hne : text s < endp s) by lia. assert (Hin : in_text s (dot s)) by txt.
  assert (Hcl : exists li, count_lines (text s) (endp s - 1) s = Ok li s).
  { assert (H : wp (count_lines (text s) (endp s - 1)) (fun _ s' => s' = s) s) by (by apply (wp_count_lines s Hwf); [txt|txt|]).
    apply wp_elim in H as (m & s' & H & ->). eauto. }
  destruct Hcl as [li Hcl].
  assert (Hmsg : forall m, (status_line_bold m ;; d <- gets dot ;; d <- bound_dot d ;; modify (set_dot d)) s = status_line_bold m s).
  { intros m. unfold bind at 1, status_line_bold at 1, modify at 1. by rewrite (colon_end s). }
  assert (Hleave : (modify (set_editing 0) ;; d <- gets dot ;; d <- bound_dot d ;; modify (set_dot d)) s = Ok tt (set_editing 0 s)).
  { unfold bind at 1, modify at 1. by rewrite (colon_end s). }
  assert (Hrun : forall buf (m : EM unit), word_start (hd0 buf) -> zlen buf < MAX_INPUT_LEN ->
    (let '(cmd, args, force) := split_command buf in
     colon_dispatch (mkColon cmd args force (-1) (-1) 0 (text s) (endp s - 1) li) buf) = (m ;; ret true) ->
    colon buf s = (m ;; d <- gets dot ;; d <- bound_dot d ;; modify (set_dot d)) s).
  { intros buf m Hw Hl Hm. rewrite (colon_word s buf Hwf Hne Hin Hw Hl), Hcl, Hm. unfold bind, ret. by destruct (m s). }
  assert (Hq : forall buf, In buf [str "q"; str "q!"; str "n"] -> word_start (hd0 buf) /\ zlen buf < MAX_INPUT_LEN).
  { intros buf Hb. simpl in Hb. repeat destruct Hb as [<-|Hb]; try done; (split; [|reflexivity]); repeat split;
      vm_compute; intuition discriminate. }
  repeat split.
  - intros Hm. destruct (Hq (str "q")) as [Hw Hl]; [simpl; tauto|]. rewrite (Hrun _ _ Hw Hl eq_refl), <- Hmsg.
    unfold bind at 1, colon_quit, get. cbn [c_force]. unfold bind at 1. replace (modified_count s =? 0) with false by lia. done.
  - intros Hm. destruct (Hq (str "q")) as [Hw Hl]; [simpl; tauto|]. rewrite (Hrun _ _ Hw Hl eq_refl), <- Hleave.
    unfold bind at 1, colon_quit, get. cbn [c_force c_cmd]. unfold bind at 1. rewrite Hm. cbn [negb Z.eqb]. cbv zeta.
    rewrite Hargc. replace (0 <? 0 - vi_optind s - 1) with false by lia. done.
  - destruct (Hq (str "q!")) as [Hw Hl]; [simpl; tauto|]. rewrite (Hrun _ _ Hw Hl eq_refl), <- Hleave. done.
  - intros Hm. destruct (Hq (str "n")) as [Hw Hl]; [simpl; tauto|]. rewrite (Hrun _ _ Hw Hl eq_refl), <- Hmsg.
    unfold bind at 1, colon_quit, get. cbn [c_force]. unfold bind at 1. replace (modified_count s =? 0) with false by lia. done.
  - intros Hm. destruct (Hq (str "n")) as [Hw Hl]; [simpl; tauto|]. rewrite (Hrun _ _ Hw Hl eq_refl), <- Hmsg.
    unfold bind at 1, colon_quit, get. cbn [c_force c_cmd]. unfold bind at 1. rewrite Hm. cbn [negb Z.eqb]. cbv zeta.
    rewrite Hargc. replace (0 - vi_optind s - 1 <=? 0) with true by lia.
    replace (0 <? 0 - vi_optind s - 1) with false by lia. done.
Qed.
Lemma colon_quit_witness : colon (str "q!") demo = Ok tt (set_editing 0 demo).
Proof. apply (colon_quit_guard demo); [exact demo_wf|at_demo|reflexivity|at_demo]. Defined.

(** ** Writing *)
(** file_write() of the whole buffer into a file that takes it *)
Definition file_takes (s : Ed) (fn : list Z) : Prop :=
  match find_file fn (files s) with
  | Some f => f_writable f = true /\ endp s - text s <= f_accept f
  | None => can_create (env s) = true /\ endp s - text s <= 2 ^ 31
  end.
Lemma file_write_all s fn : wf s -> text s < endp s -> file_takes s fn ->
  exists n, file_write (Some fn) (text s) (endp s - 1) s = Ok (endp s - text s) (set_files (write_file fn (contents s) n (files s)) s).
Proof.
  intros Hwf Hne Hacc. unfold file_write, bind, get. replace (endp s - 1 - text s + 1) with (endp s - text s) by lia.
  assert (Hrd : rd_n (text s) (endp s - text s) s = Ok (contents s) s) by (apply (rd_n_ok s Hwf); [txt|lia|lia]).
  unfold file_takes in Hacc. destruct (find_file fn (files s)) as [f|].
  - destruct Hacc as [-> Ha]. rewrite Z.min_l by lia. rewrite Hrd. exists (f_accept f). cbn. by rewrite Z.eqb_refl.
  - destruct Hacc as [-> Ha]. rewrite Z.min_l by lia. rewrite Hrd. exists (2 ^ 31). cbn. by rewrite Z.eqb_refl.
Qed.
Lemma find_written fn bs n fs : exists f, find_file fn (write_file fn bs n fs) = Some f /\ f_read f = Some bs /\ f_size f = zlen bs.
Proof. exists (mkFile fn (zlen bs) true (Some bs) true n). unfold find_file, write_file. simpl. by rewrite decide_True. Qed.

Lemma wpe_eq {A} E (m m' : EM A) Q s : m s = m' s -> wpe E m' Q s -> wpe E m Q s.
Proof. unfold wpe. by intros ->. Qed.
(** the message of a written file fits in so many columns *)
Definition message_room (fn : list Z) : Z := zlen fn + 27.
(** what a complete ":w" leaves; ":wq" leaves the editor too *)
Definition written (fn : list Z) (n : Z) (s s' : Ed) : Prop := exists b, (zlen (contents s) < 10 ^ 10 -> zlen b <= message_room fn) /\
  s' = set_last_modified_count (-1) (set_modified_count 0 (set_have_status_msg 1 (set_status_buffer b
         (set_files (write_file fn (contents s) n (files s)) s)))).
Definition write_word (quit : bool) : list Z := if quit then str "wq" else str "w".
Definition maybe_left (quit : bool) (s : Ed) : Ed := if quit then set_editing 0 s else s.

Lemma nls_bound s a b : wf s -> in_text s a -> a <= b <= endp s -> nls s a b <= b - a.
Proof.
  intros Hwf Ha Hb. unfold nls, cnt, zlen. pose proof (length_filter (fun x => x = 10) (bytes_at s a (b - a))) as H.
  rewrite (length_bytes_at s Hwf) in H by (done || lia). lia.
Qed.
Lemma wp_write_done E a l s (Q : unit -> Ed -> Prop) quit : c_cmd a = write_word quit -> c_q a = text s -> c_q a + l = endp s ->
  (quit = true -> argc s - vi_optind s <= 1) ->
  Q tt (maybe_left quit (set_last_modified_count (-1) (set_modified_count 0 s))) -> wpe E (write_done a l) Q s.
Proof.
  intros Hc Hq Hl Harg HQ. unfold write_done. do 2 wp_step. rewrite Hc, <- Hq, <- Hl.
  replace ((c_q a =? c_q a) && (c_q a + l =? c_q a + l)) with true by lia. unfold when. do 2 wp_step.
  destruct quit; cbv iota.
  - change (nth0 1 (str "wq") =? 110) with false. change ((hd0 (str "wq") =? 120) || (nth0 1 (str "wq") =? 113)) with true. cbv iota zeta.
    replace (0 <? argc s - vi_optind s - 1) with false by (specialize (Harg eq_refl); lia). by wp_step.
  - change (nth0 1 (str "w") =? 110) with false. change ((hd0 (str "w") =? 120) || (nth0 1 (str "w") =? 113)) with false. cbv iota.
    by wp_step.
Qed.
Lemma wp_colon_write E s fn quit (Q : unit -> Ed -> Prop) : wf s -> text s <= dot s < endp s ->
  current_filename s = Some fn -> file_takes s fn -> (quit = true -> argc s - vi_optind s <= 1) ->
  (forall n s', written fn n s s' -> Q tt (maybe_left quit s')) -> wpe E (colon (write_word quit)) Q s.
Proof.
  intros Hwf Hd Hfn Htk Harg HQ. assert (Hne : text s < endp s) by lia. assert (Hin : in_text s (dot s)) by txt.
  destruct (file_write_all s fn Hwf Hne Htk) as (n & Hw). set (s1 := set_files _ s) in Hw.
  assert (Hwf1 : wf s1) by (by apply (wf_same s)).
  destruct (wp_elim (count_lines (text s) (endp s - 1)) (fun _ s' => s' = s) s) as (li & s' & Hcl & ->).
  { by apply (wp_count_lines s Hwf); [txt|txt|]. }
  eapply (wpe_eq _ _ (ok <- (colon_write (mkColon (write_word quit) [] false (-1) (-1) 0 (text s) (endp s - 1) li) ;; ret true) ;;
    if (ok : bool) then d <- gets dot ;; d <- bound_dot d ;; modify (set_dot d) else ret tt)).
  { destruct quit; rewrite colon_word by (done || (repeat split; vm_compute; intuition discriminate)); by rewrite Hcl. }
  do 2 wp_step. unfold colon_write. do 2 wp_step. cbv zeta. cbn [c_args c_force c_q c_r c_cmd]. rewrite Hfn.
  change (negb (zlen [] =? 0)) with false. cbn [andb]. unfold when at 1. wp_step. wp_step. wp_step.
  replace (hd0 (write_word quit) =? 120) with false by (by destruct quit). rewrite orb_true_r. wp_step. apply (wpe_ok _ _ _ _ _ _ Hw). wp_step.
  replace (endp s - 1 - text s + 1) with (endp s - text s) by lia. replace (endp s - text s <? 0) with false by lia.
  wp_step. replace (text s + (endp s - text s) - 1) with (endp s - 1) by lia.
  apply (wp_count_lines s1 Hwf1); [split; [apply Z.le_refl|exact (wf_le _ Hwf)]|split; simpl; lia|]. intros e (He & _).
  set (nl := nls _ _ _).
  assert (Hnl : 0 <= nl <= endp s - text s).
  { split; [apply nls_nonneg|]. unfold nl. pose proof (nls_bound s1 (Z.min (text s) (endp s - 1)) (Z.min (e + 1) (endp s1)) Hwf1) as H.
    change (in_text s1) with (in_text s) in H. change (endp s1) with (endp s) in *. specialize (H ltac:(txt) ltac:(lia)). lia. }
  wp_step. unfold status_line. wp_step. rewrite Z.eqb_refl.
  set (b := take (Z.to_nat (STATUS_BUFFER_LEN - 1)) _).
  assert (Hb : zlen (contents s) < 10 ^ 10 -> zlen b <= message_room fn).
  { intros Hsz. rewrite (length_contents s Hwf) in Hsz. pose proof (dec_length nl 9 ltac:(lia)). pose proof (dec_length (endp s - text s) 9 ltac:(lia)). unfold b, zlen, message_room.
    rewrite length_take. unfold zlen. change (default (str "(null)") (Some fn)) with fn. cbn [length]. rewrite !length_app. cbn [length]. lia. }
  clearbody b. apply (wp_write_done _ _ _ _ _ quit); [done|done|cbn [c_q]; simpl; lia|done|]. wp_step.
  eapply wpe_ok; [apply (colon_end s); [done|by destruct quit..]|]. apply (HQ n). by exists b.
Qed.

(** ":w" saves the buffer: with a file name that can be written, the file
    then holds exactly the text, the buffer counts as unmodified, and the
    text, the cursor and the undo stack stay as they are. *)
Theorem colon_write_all s fn : wf s -> text s <= dot s < endp s -> current_filename s = Some fn -> file_takes s fn ->
  exists s' f, colon (str "w") s = Ok tt s' /\ find_file fn (files s') = Some f /\ f_read f = Some (contents s) /\
    modified_count s' = 0 /\ contents s' = contents s /\ dot s' = dot s /\ undo_stack_tail s' = undo_stack_tail s /\
    editing s' = editing s.
Proof.
  intros Hwf Hd Hfn Htk.
  destruct (wp_elim (colon (str "w")) (fun _ s' => exists n, written fn n s s') s) as ([] & s' & Hr & n & b & _ & ->).
  { apply (wp_colon_write _ s fn false); [done..|]. intros n s' H. by exists n. }
  destruct (find_written fn (contents s) n (files s)) as (f & Hf & Hr1 & _).
  eexists _, f. split; [exact Hr|]. repeat split; done.
Qed.
Lemma colon_write_witness :
  exists s' f, colon (str "w") (set_current_filename (Some (str "f")) demo) = Ok tt s' /\ find_file (str "f") (files s') = Some f /\
    f_read f = Some (contents demo).
Proof.
  destruct (colon_write_all (set_current_filename (Some (str "f")) demo) (str "f")) as (s' & f & H1 & H2 & H3 & _);
    [apply (wf_same demo); try reflexivity; exact demo_wf|at_demo|reflexivity|split; [reflexivity|at_demo]|].
  exists s', f. split; [exact H1|]. split; [exact H2|exact H3].
Defined.
