(* ===== verification/EvimTurn.v ===== *)
(** * evim: the rules of do_cmd()

    What a whole command does around the switch: the status line it shows
    first, the dispatch of the key to the mode, and what finish_cmd() makes of
    dot, the marks and the count. *)
From S2P Require Import Prelude EvimState EvimLine EvimSyntax EvimInput EvimTerm EvimEdit EvimEx EvimCmd.
From S2P Require Import EvimNav EvimHole EvimUndo EvimColor EvimFormat EvimRefresh EvimDisplay EvimStatus.
From S2P Require Import EvimMotion EvimWalk.

(** ** The end of a command *)
(** the cursor is not on the newline of a line that holds characters *)
Definition on_char (s : Ed) : Prop := getb s (dot s) = 10 -> line_start s (dot s).

Lemma wp_leave E l s (Q : unit -> Ed -> Prop) : l = Dc1 \/ l = Dc6 -> at_ease s -> normal s ->
  (forall s', moved s s' -> cmdcnt s' = cmdcnt s -> Q tt s') -> wpe E (leave l) Q s.
Proof.
  intros [-> | ->] Hs [_ Ha] HQ; [by apply steady_ret|]. unfold leave, end_cmd_q. wp_step. apply HQ; [|done].
  apply moved_vars; try done. by rewrite <- Ha.
Qed.
Lemma wp_set_mark_at E i p s (Q : unit -> Ed -> Prop) : 0 <= i < 28 -> length (mark s) = 28%nat ->
  Q tt (set_mark (<[Z.to_nat i := p]> (mark s)) s) -> wpe E (set_mark_at i p) Q s.
Proof.
  intros Hi Hl HQ. unfold wpe, set_mark_at, zlen. rewrite Hl.
  by rewrite (proj2 (Z.leb_le _ _)), (proj2 (Z.ltb_lt _ _)) by lia.
Qed.
Lemma wp_check_context E c s (Q : unit -> Ed -> Prop) : length (mark s) = 28%nat ->
  (forall m, length m = 28%nat -> Q tt (set_mark m s)) -> wpe E (check_context c) Q s.
Proof.
  intros Hl HQ. unfold check_context. wp_step; [|by apply (HQ (mark s))].
  destruct (lookup_lt_is_Some_2 (mark s) 26) as [m Hm]; [lia|].
  wp_step. unfold wpe at 1, get_mark. cbn [Z.leb Z.compare]. change (Z.to_nat 26) with 26%nat. rewrite Hm.
  wp_step. apply wp_set_mark_at; [lia|done|]. do 2 wp_step. apply wp_set_mark_at; [lia|simpl; by rewrite length_insert|].
  apply HQ. simpl. by rewrite !length_insert.
Qed.
(** where do_cmd() leaves a cursor that stood at [p]: there, or in normal mode
    one character back when [p] is the newline of a line that holds characters *)
Record landed (s : Ed) (p d : Z) : Prop := mkLanded {
  la_near : p - 1 <= d <= p;
  la_line : exists b, bol_of s p b /\ bol_of s d b;
  la_char : cmd_mode s = 0 -> getb s d = 10 -> line_start s d;
  la_mode : cmd_mode s <> 0 -> d = p;
  la_same : (getb s p = 10 -> line_start s p) -> d = p
}.
Lemma wp_off_newline E s (Q : unit -> Ed -> Prop) : wf s -> text s <= dot s < endp s ->
  (forall d, landed s (dot s) d -> Q tt (set_dot d s)) -> wpe E
  (b <- begin_line (dot s) ;;
   x <- rd (dot s) ;;
   s' <- get ;;
   when ((x =? 10) && (0 <? dot s - b) && (cmd_mode s' =? 0)) (modify (set_dot (dot s - 1)))) Q s.
Proof.
  intros Hwf Hd HQ. assert (Hin : in_text s (dot s)) by txt.
  wp_step. apply (wp_begin_line s Hwf); [done|]. intros b Hb. destruct (Hb) as (Hb1 & Hb2 & Hbn). wp_step.
  apply (wp_rd s Hwf); [done|]. do 2 wp_step. wp_step.
  - assert (H0 : getb s (dot s - 1) <> 10) by (apply (Hbn (dot s - 1)); lia).
    wp_step. apply HQ. split; [lia| |by intros _ ?|lia|].
    + exists b. split; [done|]. split; [lia|]. split; [done|]. intros i Hi. apply Hbn. lia.
    + intros Hls. pose proof (bol_of_inj _ _ _ _ Hb (Hls ltac:(lia))). lia.
  - apply (HQ (dot s)). split; [lia|by exists b| |done|done]. intros H0 H10.
    rewrite H10, H0 in H. cbn [andb Z.eqb Pos.eqb] in H.
    assert (b = dot s) as -> by (destruct (Z.ltb_spec 0 (dot s - b)); [done|lia]). done.
Qed.
(** finish_cmd() leaves a buffer that is not empty alone *)
Lemma wp_finish_cmd E c orig s (Q : unit -> Ed -> Prop) : wf s -> text s <= dot s < endp s -> length (mark s) = 28%nat ->
  (forall d n m, landed s (dot s) d -> n = (if isdigit c then cmdcnt s else 0) -> length m = 28%nat ->
     Q tt (set_dot d (set_cmdcnt n (set_mark m s)))) -> wpe E (finish_cmd c orig) Q s.
Proof.
  intros Hwf Hd Hmk HQ. unfold finish_cmd. do 2 wp_step.
  replace (endp s =? text s) with false by lia. do 4 wp_step.
  replace (negb (dot s =? endp s)) with true by (destruct (Z.eqb_spec (dot s) (endp s)); [lia|done]).
  unfold set_dot_from. do 2 wp_step. eapply wpe_ok; [apply bound_dot_ok; lia|]. do 4 wp_step.
  change (set_dot (dot s) s) with s.
  assert (Hctx : forall m, length m = 28%nat -> wpe E
    (when (negb (isdigit c)) (modify (set_cmdcnt 0)) ;;
     b <- begin_line (dot s) ;;
     x <- rd (dot s) ;;
     s' <- get ;;
     when ((x =? 10) && (0 <? dot s - b) && (cmd_mode s' =? 0)) (modify (set_dot (dot s - 1)))) Q (set_mark m s)).
  { intros m Hm. set (n := if isdigit c then cmdcnt s else 0). do 2 wp_step; [wp_step|].
    - assert (Hn : n = 0) by (unfold n; by apply negb_true_iff in H as ->).
      change (dot s) with (dot (set_cmdcnt 0 (set_mark m s))). apply wp_off_newline; [by apply (wf_same s)|done|].
      intros d []. by apply (HQ d 0 m).
    - assert (Hn : n = cmdcnt s) by (unfold n; by apply negb_false_iff in H as ->).
      change (dot s) with (dot (set_mark m s)). apply wp_off_newline; [by apply (wf_same s)|done|].
      intros d []. by apply (HQ d (cmdcnt s) m). }
  wp_step.
  - apply wp_check_context; [done|]. intros m Hm. by apply Hctx.
  - by apply (Hctx (mark s)).
Qed.
(** the same between at-ease states *)
Lemma wp_finish_ease E c orig s (Q : unit -> Ed -> Prop) : at_ease s ->
  (forall s', moved s s' -> landed s (dot s) (dot s') -> cmdcnt s' = (if isdigit c then cmdcnt s else 0) -> Q tt s') ->
  wpe E (finish_cmd c orig) Q s.
Proof.
  intros Hs HQ. pose proof (ease_dot s Hs). pose proof (ease_sb s Hs). pose proof (ease_geo s Hs) as [].
  destruct (Hs) as [_ _ _ _ Hmk _ _ Hse].
  apply wp_finish_cmd; [by apply ease_wf|done|done|]. intros d n m Hl Hn Hm.
  apply HQ; [|done|done]. destruct (Hl) as [Hnear (b & Hb & Hb') _ _ _]. destruct Hb'. apply moved_same; try done. simpl. lia.
Qed.

(** a key of normal mode, without a selection, goes to the switch *)
Lemma wp_key_cmd_mode E rec c s (Q : label -> Ed -> Prop) : at_ease s ->
  wpe E (cmd_switch rec c) Q s -> wpe E (key_cmd_mode rec c) Q s.
Proof.
  intros Hs HQ. unfold key_cmd_mode, visual_key. do 3 wp_step. rewrite (ae_vis s Hs). cbn [Z.eqb negb andb]. by wp_step.
Qed.
Lemma wp_dispatch_key E rec c s (Q : label -> Ed -> Prop) : at_ease s -> cmd_mode s = 0 ->
  wpe E (cmd_switch rec c) Q s -> wpe E (dispatch_key rec c) Q s.
Proof.
  intros Hs Hmode HQ. unfold dispatch_key. do 2 wp_step. rewrite Hmode. cbn [Z.eqb].
  destruct (is_key c cursor_keys); by apply wp_key_cmd_mode.
Qed.
(** what do_cmd() does before the dispatch *)
Lemma wp_do_cmd_key E rec c s (Q : unit -> Ed -> Prop) : at_ease s ->
  (forall s1, moved s s1 -> lframe s1 = lframe (set_cmd_error false (set_keep_index false s)) -> wpe E (dispatch_key rec c) (fun l s2 =>
     wpe E (leave l ;; d <- gets dot ;; finish_cmd c (match l with Dc1_here => d | _ => dot s end)) Q s2) s1) ->
  wpe E (do_cmd_with rec c) Q s.
Proof.
  intros Hs HQ. unfold do_cmd_with. do 4 wp_step. set (s0 := set_cmd_error _ _).
  assert (Hm0 : moved s s0) by (by apply moved_vars). pose proof (moved_ease _ _ Hm0) as Hs0. wp_step.
  apply wp_ease_status; [done|]. intros s1 Hm1 Hl1. wp_step. apply HQ; [exact (moved_trans _ _ _ Hm0 Hm1)|exact Hl1].
Qed.
Lemma wp_do_cmd_begin E rec c s (Q : unit -> Ed -> Prop) : at_ease s -> cmd_mode s = 0 ->
  (forall s1, moved s s1 -> lframe s1 = lframe (set_cmd_error false (set_keep_index false s)) -> wpe E (cmd_switch rec c) (fun l s2 =>
     wpe E (leave l ;; d <- gets dot ;; finish_cmd c (match l with Dc1_here => d | _ => dot s end)) Q s2) s1) ->
  wpe E (do_cmd_with rec c) Q s.
Proof.
  intros Hs Hmode HQ. apply wp_do_cmd_key; [done|]. intros s1 Hm Hl. apply wp_dispatch_key; [by eapply moved_ease| |by apply HQ].
  by rewrite (f_equal cmd_mode Hl : cmd_mode s1 = cmd_mode s).
Qed.
(** a command that only walks *)
Lemma wp_do_cmd_walks E rec c s (Q : unit -> Ed -> Prop) : at_ease s -> normal s -> counted s ->
  (forall E s1 (R : label -> Ed -> Prop), at_ease s1 -> cmdcnt s1 = cmdcnt s ->
     (forall l s', moved s1 s' -> l = Dc1 \/ l = Dc6 ->
        (isdigit c = true -> cmdcnt s' = cmdcnt s * 10 + (c - 48)) -> R l s') ->
     wpe E (cmd_switch rec c) R s1) ->
  (forall s', moved s s' -> on_char s' -> cmdcnt s' = (if isdigit c then cmdcnt s * 10 + (c - 48) else 0) -> Q tt s') ->
  wpe E (do_cmd_with rec c) Q s.
Proof.
  intros Hs Hn Hc Hsw HQ. apply wp_do_cmd_begin; [done|by destruct Hn|]. intros s1 Hm1 Hl1. pose proof (f_equal cmdcnt Hl1 : cmdcnt s1 = cmdcnt s) as Hc1.
  apply Hsw; [by eapply moved_ease|done|]. intros l s2 Hm2 Hl Hdig. wp_step.
  pose proof (moved_normal _ _ Hm2 (moved_normal _ _ Hm1 Hn)) as Hn2.
  apply wp_leave; [done|by eapply moved_ease|done|]. intros s3 Hm3 Hc3. do 2 wp_step.
  apply wp_finish_ease; [by eapply moved_ease|]. intros s4 Hm4 Hla Hc4.
  apply HQ; [| |rewrite Hc4; destruct (isdigit c); [rewrite Hc3; auto|done]].
  - exact (moved_trans _ _ _ Hm1 (moved_trans _ _ _ Hm2 (moved_trans _ _ _ Hm3 Hm4))).
  - destruct Hla as [_ _ Hch _ _]. intros H10. apply (line_start_moved s3); [done|].
    apply Hch; [rewrite (moved_mode s2 s3) by done; by destruct Hn2|].
    by rewrite <- (getb_moved s3 s4).
Qed.
