(* ===== verification/EvimCmdProps.v ===== *)
(** * evim: correctness of the commands of normal mode

    The theorems about do_cmd() itself: what a whole command does, from the
    status line it shows first to the bounds it puts on dot at the end. *)
From S2P Require Import Prelude EvimState EvimLine EvimSyntax EvimInput EvimTerm EvimEdit EvimEx EvimCmd EvimMain.
From S2P Require Import EvimNav EvimHole EvimUndo EvimColor EvimFormat EvimRefresh EvimDisplay EvimStatus.
From S2P Require Import EvimPop EvimDemo EvimEditProps EvimLineProps EvimExProps EvimMotion EvimWalk EvimErase EvimTurn.

(** ** Motions *)
(** the commands that only move and take no further character; "b", "B" and
    "%" are left out: they read outside the text (see [back_word_underrun]
    and [percent_nul]) *)
Definition motion_keys : list Z :=
  [KEYCODE_UP; KEYCODE_DOWN; KEYCODE_LEFT; KEYCODE_RIGHT; KEYCODE_HOME; KEYCODE_END; KEYCODE_PAGEUP; KEYCODE_PAGEDOWN;
   0; 2; 4; 5; 6; 7; 8; 10; 12; 13; 18; 21; 25; 127] ++ str " $+,-;EGHLMW^ehjklw{|}".

Create HintDb walks discriminated.
#[export] Hint Constants Opaque : walks.
#[export] Hint Resolve walks_seq walks_Dc1 walks_do_cmdcnt walks_cmd_down walks_cmd_up walks_cmd_dollar walks_cmd_G walks_cmd_H
  walks_cmd_L walks_cmd_M walks_to_char walks_cmd_paragraph walks_cmd_blank_word walks_cmd_e walks_cmd_w
  steady_dot_scroll : walks.

Lemma walks_motion rec c : In c motion_keys -> walks (cmd_switch rec c).
Proof.
  intros Hc. apply walks_get. intros s Hs Hcnt E Q HQ.
  assert (Hw : forall m, walks m -> wpe E m Q s) by (intros m Hm; by apply Hm). clear HQ.
  assert (Hcol : wpe E (set_dot_from (move_to_col (dot s) (cmdcnt s - 1)) ;; ret Dc1) Q s).
  { apply (Hw (s <- get ;; set_dot_from (move_to_col (dot s) (cmdcnt s - 1)) ;; ret Dc1)), walks_cmd_column. }
  assert (Hck : steady (modify (set_last_status_cksum 0))) by steady_var.
  unfold motion_keys in Hc. cbn [app In] in Hc.
  repeat (destruct Hc as [<-|Hc]; [
    cbv beta iota zeta delta [cmd_switch is_key existsb Z.eqb Pos.eqb orb andb isdigit Z.leb Z.compare Pos.compare Pos.compare_cont
      KEYCODE_UP KEYCODE_DOWN KEYCODE_LEFT KEYCODE_RIGHT KEYCODE_HOME KEYCODE_END KEYCODE_PAGEUP KEYCODE_PAGEDOWN KEYCODE_INSERT KEYCODE_DELETE];
    first [exact Hcol|apply Hw; auto 6 with walks steady]|]).
  done.
Qed.

Lemma motion_no_digit c : In c motion_keys -> isdigit c = false.
Proof. unfold motion_keys. cbn [app In]. intros H. repeat (destruct H as [<-|H]; [done|]). done. Qed.
Lemma cmd_switch_digit rec c : isdigit c = true -> cmd_switch rec c = (s <- get ;; cmd_digit c).
Proof.
  intros H. assert (Hc : In c (str "0123456789")).
  { unfold isdigit in H. cbn [In]. lia. }
  cbn [In] in Hc. repeat (destruct Hc as [<-|Hc]; [done|]). done.
Qed.

(** ** One key *)
(** one key of a motion or of its count *)
Lemma wp_motion_key E c s (Q : unit -> Ed -> Prop) : at_ease s -> normal s -> counted s ->
  (isdigit c = true /\ cmdcnt s < 10 ^ 8) \/ In c motion_keys ->
  (forall s', moved s s' -> on_char s' -> cmdcnt s' = (if isdigit c then cmdcnt s * 10 + (c - 48) else 0) -> Q tt s') ->
  wpe E (do_cmd c) Q s.
Proof.
  intros Hs Hmode Hc Hk HQ. apply wp_do_cmd_walks; [done|done|done| |done]. intros E1 s1 R Hs1 Hc1 HR.
  assert (Hc1' : counted s1) by (unfold counted in *; lia). destruct Hk as [[Hd Hlt]|Hk].
  - rewrite cmd_switch_digit by done. do 2 wp_step. apply wp_cmd_digit; [done|done|done|lia|].
    intros s' Hm Hn. apply HR; [done|by left|]. by rewrite Hn, Hc1.
  - apply walks_motion; [done|done|done|]. intros l s' Hm Hl. apply HR; [done|done|]. by rewrite motion_no_digit.
Qed.

(** the commands of a sequence of keys, as the loop of edit_file() runs them *)
Fixpoint run_keys (cs : list Z) : EM unit :=
  match cs with [] => ret tt | c :: cs => do_cmd c ;; run_keys cs end.
(** motions with counts of up to nine digits; [n] digits came before [cs] *)
Fixpoint motion_input (n : nat) (cs : list Z) : bool :=
  match cs with
  | [] => true
  | c :: cs =>
      if isdigit c then (n <? 9)%nat && motion_input (S n) cs
      else is_key c motion_keys && motion_input 0 cs
  end.

Lemma wp_run_motions E cs n s (Q : unit -> Ed -> Prop) : at_ease s -> normal s -> 0 <= cmdcnt s < 10 ^ Z.of_nat n -> (n <= 9)%nat ->
  motion_input n cs = true -> (forall s', moved s s' -> (on_char s \/ cs <> [] -> on_char s') -> Q tt s') -> wpe E (run_keys cs) Q s.
Proof.
  revert n s. induction cs as [|c cs IH]; intros n s Hs Hmode Hc Hn Hin HQ; cbn [run_keys].
  { wp_step. apply HQ; [by apply moved_refl|by intros []]. }
  assert (Hcnt : counted s).
  { unfold counted. pose proof (Z.pow_le_mono_r 10 (Z.of_nat n) 9). lia. }
  wp_step. cbn [motion_input] in Hin.
  assert (Hnext : forall s' k, moved s s' -> on_char s' -> 0 <= cmdcnt s' < 10 ^ Z.of_nat k -> (k <= 9)%nat ->
    motion_input k cs = true -> wpe E (run_keys cs) Q s').
  { intros s' k Hm Ho Hk Hk9 Hin'. apply (IH k); [by eapply moved_ease|by eapply moved_normal|done|done|done|]. intros s2 Hm2 Ho2.
    apply HQ; [by eapply moved_trans|]. intros _. apply Ho2. by left. }
  destruct (isdigit c) eqn:Hd; apply andb_true_iff in Hin as [Hk Hin].
  - assert (Hn9 : (n < 9)%nat) by (by apply Nat.ltb_lt). pose proof (Z.pow_le_mono_r 10 (Z.of_nat n) 8).
    apply wp_motion_key; [done|done|done|left; split; [done|lia]|]. intros s' Hm Ho Hcs. rewrite Hd in Hcs.
    apply (Hnext s' (S n)); [done|done| |lia|done]. unfold isdigit in Hd. rewrite Nat2Z.inj_succ, Z.pow_succ_r by lia. lia.
  - apply wp_motion_key; [done|done|done|right|].
    { unfold is_key in Hk. apply existsb_exists in Hk as (x & Hx & Hcx). apply Z.eqb_eq in Hcx. by subst x. }
    intros s' Hm Ho Hcs. rewrite Hd in Hcs. apply (Hnext s' 0%nat); [done|done|rewrite Hcs; done|lia|done].
Qed.

(** C3: Motions only move. Typed in normal mode, with the buffer ending in a
    newline, nothing selected or queued, and a pending message that fits on
    the status line ([at_ease]), any sequence of the keys of [motion_keys]
    with counts of up to nine digits runs without a fault and reads no key of
    its own; the state is at ease again, and the text, the undo data, the
    registers, the modes, the files and the input are what they were
    ([moved]).  The cursor is on a character of the text, and never on the
    newline of a line that holds characters. *)
Theorem motions_only_move s cs : at_ease s -> normal s -> cmdcnt s = 0 -> motion_input 0 cs = true -> cs <> [] ->
  exists s', run_keys cs s = Ok tt s' /\ moved s s' /\ text s' <= dot s' < endp s' /\ on_char s'.
Proof.
  intros Hs Hmode Hc Hin Hne.
  destruct (wp_elim (run_keys cs) (fun _ s' => moved s s' /\ on_char s') s) as ([] & s' & Hr & Hm & Ho).
  - apply (wp_run_motions _ _ 0); [done|done|rewrite Hc; done|lia|done|auto].
  - exists s'. split; [done|]. split; [done|]. split; [|done]. apply ease_dot. by eapply moved_ease.
Qed.
Lemma demo_ease : at_ease demo.
Proof. split; [exact demo_drawable|at_demo..|by left]. Qed.
Lemma motions_only_move_witness : exists s', run_keys (str "jwl3$12kH") demo = Ok tt s' /\ moved demo s'.
Proof.
  destruct (motions_only_move demo (str "jwl3$12kH")) as (s' & Hr & Hm & _).
  - exact demo_ease.
  - split; reflexivity.
  - reflexivity.
  - reflexivity.
  - discriminate.
  - exists s'. split; [exact Hr|exact Hm].
Defined.

(** "b" over the first word of the buffer reads the byte in front of it; so
    does "X" at the start, and "%" on a NUL reads past its table of brackets *)
Example back_word_underrun : do_cmd (ch "b") (set_dot 1001 demo) = Err OutOfBounds.
Proof. vm_compute. reflexivity. Qed.
Example delete_back_underrun : do_cmd (ch "X") demo = Err OutOfBounds.
Proof. vm_compute. reflexivity. Qed.
Example percent_nul : do_cmd (ch "%") (demo_of [97; 0; 10] [] []) = Err OutOfBounds.
Proof. vm_compute. reflexivity. Qed.

(** ** Going to a line *)
Lemma wp_run_app E a b s (Q : unit -> Ed -> Prop) :
  wpe E (run_keys a) (fun _ s' => wpe E (run_keys b) Q s') s -> wpe E (run_keys (a ++ b)) Q s.
Proof.
  revert s. induction a as [|c a IH]; intros s; cbn [app run_keys]; [done|]. intros H. wp_step.
  unfold wpe, bind in H |- *. destruct (do_cmd c s) as [[] s'|f]; [|done]. by apply IH.
Qed.
(** typing the digits of a count *)
Lemma wp_type_count E ds s (Q : unit -> Ed -> Prop) : Forall (fun d => 48 <= d <= 57) ds -> at_ease s -> normal s -> 0 <= cmdcnt s ->
  digits_val (cmdcnt s) ds < 10 ^ 9 ->
  (forall s', moved s s' -> cmdcnt s' = digits_val (cmdcnt s) ds -> Q tt s') -> wpe E (run_keys ds) Q s.
Proof.
  intros Hds. revert s. induction Hds as [|d ds Hd Hds IH]; intros s Hs Hmode Hc Hv HQ; cbn [run_keys].
  { wp_step. apply HQ; [by apply moved_refl|done]. }
  assert (Hdig : isdigit d = true) by (unfold isdigit; lia).
  assert (Hmono : cmdcnt s * 10 + (d - 48) <= digits_val (cmdcnt s) (d :: ds)).
  { apply (digits_val_mono ds Hds (cmdcnt s * 10 + (d - 48))). lia. }
  wp_step. apply wp_motion_key; [done|done|unfold counted; lia|left; split; [done|lia]|]. rewrite Hdig.
  intros s1 Hm _ Hc1. assert (Hval : digits_val (cmdcnt s1) ds = digits_val (cmdcnt s) (d :: ds)) by (by rewrite Hc1).
  apply IH; [by eapply moved_ease|by eapply moved_normal|lia|by rewrite Hval|]. intros s2 Hm2 Hc2.
  apply HQ; [by eapply moved_trans|congruence].
Qed.

(** [d] is where a command puts the cursor that goes to the line at [q]: the
    first character that is no blank, or the last of the line *)
Definition line_home (s : Ed) (q d : Z) : Prop :=
  bol_of s d q /\ (forall i, q <= i < d -> isspace (getb s i) = true) /\
  (isspace (getb s d) = false \/ eol_of s q d \/ eol_of s q (d + 1)).

(** from the first nonblank of the line at [q], or its newline *)
Lemma line_home_landed s q d d' : ends_nl s -> in_text s q -> line_start s q -> q <= d < endp s ->
  (forall i, q <= i < d -> isspace (getb s i) = true /\ getb s i <> 10) ->
  (isspace (getb s d) = false \/ getb s d = 10 \/ d = endp s - 1) -> landed s d d' -> line_home s q d'.
Proof.
  intros [_ Hnl] Hq Hls Hd Hsp Hend [Hnear (b & Hb & Hb') _ _ Hsame].
  assert (Hbq : bol_of s d q).
  { destruct Hls as (? & Hl & _). split; [lia|]. split; [done|]. intros i Hi. by apply Hsp. }
  rewrite (bol_of_inj _ _ _ _ Hb Hbq) in Hb'. destruct (Hb') as (Hr & _). split; [done|]. split; [intros i Hi; apply Hsp; lia|].
  destruct (Z.eq_dec (getb s d) 10) as [H10|H10].
  - right. assert (Heol : eol_of s q d).
    { split; [lia|]. split; [by destruct Hbq as (_ & _ & Hn)|done]. }
    destruct (Z.eq_dec d' d) as [->|]; [by left|]. right. by replace (d' + 1) with d by lia.
  - rewrite Hsame by done. left. destruct Hend as [?|[?|He]]; [done|done|]. rewrite He in H10. done.
Qed.
Lemma line_home_moved s s' q d : moved s s' -> line_home s q d -> line_home s' q d.
Proof.
  intros H (H1 & H2 & H3). split; [by apply (bol_of_moved s)|]. split; [intros i Hi; rewrite (getb_moved s) by done; by apply H2|].
  rewrite (getb_moved s) by done. destruct H3 as [?|[?|?]]; [by left|right; left|right; right]; by apply (eol_of_moved s).
Qed.
Lemma wp_count_G E rec s (Q : label -> Ed -> Prop) : at_ease s -> 1 <= cmdcnt s <= nls s (text s) (endp s) ->
  (forall q d, line_start s q -> text s <= q -> ln s q = cmdcnt s - 1 -> q <= d < endp s ->
     (forall i, q <= i < d -> isspace (getb s i) = true /\ getb s i <> 10) ->
     (isspace (getb s d) = false \/ getb s d = 10 \/ d = endp s - 1) -> Q Dc1 (set_dot d s)) ->
  wpe E (cmd_switch rec (ch "G")) Q s.
Proof.
  intros Hs Hn HQ. change (cmd_switch rec (ch "G")) with (s <- get ;; cmd_G). pose proof (ease_dot s Hs).
  pose proof (ease_wf s Hs) as Hwf. do 2 wp_step. unfold cmd_G. do 4 wp_step. set (s1 := set_dot _ s).
  replace (0 <? cmdcnt s) with true by lia. assert (Hwf1 : wf s1) by (by apply (wf_same s)).
  destruct (find_line_ends s1 (cmdcnt s) Hwf1) as (q & r & Hq & Hqin & Hqe & Hqb & Hqn & _);
    [change (text s < endp s); lia|exact (ease_nl s Hs)|done|].
  change (line_start s q) in Hqb. change (in_text s q) in Hqin. change (q < endp s) in Hqe.
  unfold set_dot_from. do 2 wp_step. apply (wpe_ok _ _ _ _ _ _ Hq). do 2 wp_step.
  change (set_dot q s1) with (set_dot q s). unfold dot_begin. wp_step. apply wp_undo_queue_commit.
  { change (undo_q s <= VI_UNDO_QUEUE_MAX). by rewrite (ae_queue s Hs). }
  unfold committed. change (undo_q (set_dot q s)) with (undo_q s). rewrite (ae_queue s Hs). change (0 <? 0) with false. cbv iota.
  unfold dot_to. do 3 wp_step. assert (Hwf2 : wf (set_dot q s)) by (by apply (wf_same s)).
  apply (wp_begin_line _ Hwf2); [done|]. intros b Hb. change (bol_of s q b) in Hb. rewrite (bol_of_inj _ _ _ _ Hb Hqb).
  do 2 wp_step. change (set_dot q (set_dot q s)) with (set_dot q s).
  apply wp_skip_over_ws; [done|done|done|]. intros d Hd Hsp Hend. wp_step.
  apply (HQ q d); [done|txt|exact Hqn|exact Hd|exact Hsp|exact Hend].
Qed.

(** Typing a number and "G" goes to that line: in an at-ease state with no
    count, the decimal digits of [n] followed by "G" move the cursor to the
    line with [n - 1] newlines in front of it, when the buffer has it, to its
    first character that is no blank or else to its last one; nothing but the
    cursor, the marks and the display changes. *)
Theorem typed_line_number s n : at_ease s -> normal s -> cmdcnt s = 0 -> 1 <= n < 10 ^ 9 -> n <= nls s (text s) (endp s) ->
  exists s' q, run_keys (dec n ++ [ch "G"]) s = Ok tt s' /\ moved s s' /\ cmdcnt s' = 0 /\
    line_start s' q /\ ln s' q = n - 1 /\ line_home s' q (dot s').
Proof.
  intros Hs Hmode Hc Hn Hle. destruct (dec_spec n) as (d0 & ds & Hdec & Hds & Hv); [lia|].
  destruct (wp_elim (run_keys (dec n ++ [ch "G"])) (fun _ s' => exists q, moved s s' /\ cmdcnt s' = 0 /\
    line_start s' q /\ ln s' q = n - 1 /\ line_home s' q (dot s')) s) as ([] & s' & Hr & q & H).
  2:{ by exists s', q. }
  rewrite Hdec. apply wp_run_app, wp_type_count; [done|done|done|lia|rewrite Hc, Hv; lia|].
  intros s1 Hm1 Hc1. rewrite Hc, Hv in Hc1. cbn [run_keys]. wp_step.
  apply wp_do_cmd_begin; [by eapply moved_ease|rewrite (moved_mode s) by done; by destruct Hmode|]. intros s2 Hm2 Hl2. pose proof (f_equal cmdcnt Hl2 : cmdcnt s2 = cmdcnt s1) as Hc2.
  pose proof (moved_trans _ _ _ Hm1 Hm2) as Hm. pose proof (moved_ease _ _ Hm) as Hs2.
  apply wp_count_G; [done|rewrite (nls_moved s), (moved_text s), (moved_endp s) by done; lia|].
  intros q d Hq Hqt Hln Hd Hsp Hend. unfold leave. do 4 wp_step.
  assert (Hmd : moved s2 (set_dot d s2)) by (apply moved_dot; [done|lia]).
  apply wp_finish_ease; [by eapply moved_ease|]. intros s3 Hm3 Hla Hc3. wp_step. exists q.
  pose proof (moved_trans _ _ _ Hmd Hm3) as Hm23.
  split; [by eapply moved_trans|]. split; [done|]. split; [by apply (line_start_moved s2)|].
  split; [unfold ln in *; rewrite (nls_moved s2), (moved_text s2) by done; lia|].
  apply (line_home_moved s2); [done|]. apply (line_home_landed s2 q d); [by apply ae_nl|txt|done|done|done|done|].
  destruct Hla. by split.
Qed.
Lemma typed_line_witness : exists s' q, run_keys (str "3G") demo = Ok tt s' /\ ln s' q = 2 /\ line_home s' q (dot s').
Proof.
  destruct (typed_line_number demo 3) as (s' & q & Hr & _ & _ & _ & Hl & Hh).
  - exact demo_ease.
  - split; reflexivity.
  - reflexivity.
  - lia.
  - at_demo.
  - exists s', q. split; [exact Hr|]. split; [exact Hl|exact Hh].
Defined.

(** ** Erasing, and undoing it *)
Lemma cut_moved s p k s1 s2 : moved s1 s2 -> cut s p k s1 -> cut s p k s2.
Proof.
  intros Hm [Hwf Ht He Hts Hc Hst Hmc Hq]. destruct (Hm) as [Hs2 H]. split.
  - by apply ease_wf.
  - by rewrite (moved_text s1).
  - by rewrite (moved_endp s1).
  - by rewrite (f_equal text_size H : text_size s2 = text_size s1).
  - rewrite <- Hc. apply contents_same; [by apply moved_text|by apply moved_endp|by apply moved_mem].
  - by rewrite (f_equal undo_stack_tail H : undo_stack_tail s2 = undo_stack_tail s1).
  - by rewrite (f_equal modified_count H : modified_count s2 = modified_count s1).
  - by rewrite (f_equal undo_q H : undo_q s2 = undo_q s1).
Qed.
(** the state after "x": at ease again, when the top line is not below the cursor *)
Lemma erased_ease s k s' d n m : at_ease s -> screenbegin s <= dot s -> erased s (dot s) k s' -> text s <= d < endp s' ->
  length m = 28%nat ->
  let s1 := set_dot d (set_cmdcnt n (set_mark m (set_adding2q false (set_YDreg 26 s')))) in
  at_ease s1 /\ cut s (dot s) k s1.
Proof.
  intros Hs Hsb [Hcut Hregs Hf Hk Hn _] Hd Hm s1. pose proof (ease_dot s Hs) as Hd0. pose proof (ease_wf s Hs) as Hwf.
  pose proof (none_in_room s Hs k Hn) as Hroom. pose proof (ease_sb s Hs).
  assert (Hlast : getb s' (endp s' - 1) = 10).
  { pose proof (cu_end _ _ _ _ Hcut) as He. pose proof (cu_text _ _ _ _ Hcut) as Ht.
    rewrite (cut_getb s (dot s) Hwf ltac:(lia) k s') by (done || lia). replace (endp s' - 1 <? dot s) with false by lia.
    replace (endp s' - 1 + Z.of_nat k) with (endp s - 1) by lia. by apply ease_nl. }
  destruct Hcut as [Hwf' Ht He Hts Hc Hst Hmc Hq]. destruct Hs as [[_ Hg _ _ Hsz] _ _ _ _ Hvis _ Hse].
  assert (Hsb' : screenbegin s1 = screenbegin s) by exact (f_equal screenbegin Hf).
  assert (Ht1 : text s1 = text s) by done. assert (He1 : endp s1 = endp s') by done. split.
  - split.
    + split; unfold in_text; rewrite ?Ht1, ?He1, ?Hsb'; try lia; [by apply (wf_same s')| |simpl; lia].
      apply (geometry_same s); [exact (f_equal rows Hf)|exact (f_equal columns Hf)|exact (f_equal tabstop Hf)|
        exact (f_equal offset Hf)|exact (f_equal screen Hf)|done].
    + rewrite He1. simpl. lia.
    + rewrite He1, Hsb'. lia.
    + split; [rewrite Ht1, He1; lia|exact Hlast].
    + done.
    + exact (eq_trans (f_equal vi_visual Hf) Hvis).
    + done.
    + apply (settled_pframe_msg s); [exact (f_equal have_status_msg Hf)|exact (f_equal status_buffer Hf)|exact (f_equal columns Hf)|done].
  - by split; [apply (wf_same s')|..].
Qed.
(** "x", from the state at ease [s] to one at ease *)
Lemma wp_cmd_x E s (Q : unit -> Ed -> Prop) : at_ease s -> counted s -> regs_ok s -> getb s (dot s) <> 10 ->
  screenbegin s <= dot s ->
  (forall k s1, at_ease s1 -> cmd_mode s1 = cmd_mode s -> cut s (dot s) k s1 -> 1 <= Z.of_nat k <= Z.max 1 (cmdcnt s) ->
     none_in s 10 (dot s) (dot s + Z.of_nat k) -> (Z.of_nat k = Z.max 1 (cmdcnt s) \/ getb s (dot s + Z.of_nat k) = 10) -> Q tt s1) ->
  forall rec orig, wpe E (cmd_switch rec (ch "x")) (fun l s2 =>
    wpe E (leave l ;; d <- gets dot ;; finish_cmd (ch "x") (match l with Dc1_here => d | _ => orig end)) Q s2) s.
Proof.
  intros Hs Hc Hr H10 Hsb HQ rec orig. change (cmd_switch rec (ch "x")) with (s <- get ;; cmd_x (ch "x")). unfold cmd_x.
  do 3 wp_step. apply wp_x_loop; [done..|]. intros k r s' Her. wp_step. unfold end_cmd_q. do 2 wp_step.
  change (if ch "x" =? 115 then Dc_i else Dc1) with Dc1. unfold leave. do 4 wp_step. set (s2 := set_adding2q _ _).
  destruct (Her) as [Hcut _ Hf Hk Hn Hall]. pose proof (ease_dot s Hs). pose proof (none_in_room s Hs k Hn).
  assert (Hd2 : dot s2 = dot s) by exact (f_equal dot Hf). assert (Ht2 : text s2 = text s) by exact (f_equal text Hf).
  assert (He2 : endp s2 = endp s - Z.of_nat k) by exact (cu_end _ _ _ _ Hcut).
  apply wp_finish_cmd.
  - apply (wf_same s'); try done. by destruct Hcut.
  - lia.
  - transitivity (length (mark s)); [exact (f_equal (fun x => length (mark x)) Hf)|by apply ae_marks].
  - intros d n m [Hnear (b & _ & (Hb & _)) _ _ _] _ Hm.
    destruct (erased_ease s k s' d n m Hs Hsb Her) as [He Hcut2]; [|done|apply (HQ k); try done; exact (f_equal cmd_mode Hf)].
    change (endp s') with (endp s2). lia.
Qed.

(** "u" after "x" *)
Lemma cut_objs_length s p k : length (cut_objs s p k) = k.
Proof. induction k as [|k IH]; [done|]. simpl. by rewrite IH. Qed.
Lemma cut_marked s p k s1 d n m : cut s p k s1 -> cut s p k (set_dot d (set_cmdcnt n (set_mark m s1))).
Proof. intros []. by split; [apply (wf_same s1)|..]. Qed.
Lemma wp_cmd_u E rec s p k s1 (Q : unit -> Ed -> Prop) : wf s -> text s <= p -> endp s - text s < 2 ^ 25 -> getb s p <> 10 ->
  0 < Z.of_nat k -> p + Z.of_nat k < endp s -> at_ease s1 -> cmd_mode s1 = 0 -> cut s p k s1 ->
  (forall s2, cut s p 0 s2 -> dot s2 = p -> Q tt s2) -> wpe E (do_cmd_with rec (ch "u")) Q s1.
Proof.
  intros Hwf Hp Hsz H10 Hk Hroom Hs1 Hmode Hcut1 HQ. apply wp_do_cmd_begin; [done..|]. intros s2 Hm _.
  pose proof (moved_ease _ _ Hm) as Hs2. pose proof (cut_moved s p k _ _ Hm Hcut1) as Hcut2.
  change (cmd_switch rec (ch "u")) with (s <- get ;; (undo_pop ;; ret Dc1)). do 3 wp_step. unfold undo_pop. do 2 wp_step.
  rewrite (cu_stk _ _ _ _ Hcut2), length_app, cut_objs_length. pose proof (ease_sb s2 Hs2).
  apply (wp_uncut_all s p Hwf Hp Hsz E k); [lia|lia|done|by apply ease_geo| |].
  { rewrite <- (cu_text _ _ _ _ Hcut2). pose proof (cu_end _ _ _ _ Hcut2). lia. }
  intros s3 Hcut3 Hd3 Hz. wp_step. unfold leave. do 4 wp_step.
  assert (H10' : getb s3 (dot s3) <> 10).
  { rewrite Hd3, (cut_getb s p Hwf Hp 0 s3) by (rewrite ?(cu_text _ _ _ _ Hcut3), ?(cu_end _ _ _ _ Hcut3); done || lia).
    by rewrite Z.ltb_irrefl, Z.add_0_r. }
  apply wp_finish_cmd; [by destruct Hcut3| | |].
  - rewrite Hd3, (cu_text _ _ _ _ Hcut3), (cu_end _ _ _ _ Hcut3). lia.
  - transitivity (length (mark s2)); [exact (f_equal (fun x => length (mark x)) Hz)|by apply ae_marks].
  - intros d n m [_ _ _ _ Hsame] _ _. apply HQ; [by apply cut_marked|].
    change (d = p). rewrite Hsame by (intros ?; done). done.
Qed.

(** C2: "x" erases and "u" gives back: in normal mode, with the cursor on a character that is
    no newline, "x" with a count erases that many characters, or all up to the
    end of the line when there are fewer; then "u" alone restores the text,
    the undo stack and the count of modifications, and puts the cursor back
    on the first character it erased. *)
Theorem erase_and_undo s : at_ease s -> cmd_mode s = 0 -> counted s -> regs_ok s -> getb s (dot s) <> 10 -> screenbegin s <= dot s ->
  exists s1 s2 k, do_cmd (ch "x") s = Ok tt s1 /\ at_ease s1 /\
    1 <= k <= Z.max 1 (cmdcnt s) /\ none_in s 10 (dot s) (dot s + k) /\
    (k = Z.max 1 (cmdcnt s) \/ getb s (dot s + k) = 10) /\
    contents s1 = take (off s (dot s)) (contents s) ++ drop (off s (dot s + k)) (contents s) /\
    do_cmd (ch "u") s1 = Ok tt s2 /\ contents s2 = contents s /\ dot s2 = dot s /\
    undo_stack_tail s2 = undo_stack_tail s /\ i32 (modified_count s2) = i32 (modified_count s).
Proof.
  intros Hs Hmode Hc Hr H10 Hsb.
  assert (Hwp : wp (do_cmd (ch "x")) (fun _ s1 => exists s0 k, moved s s0 /\ dot s0 = dot s /\ at_ease s1 /\ cmd_mode s1 = cmd_mode s0 /\
     cut s0 (dot s0) k s1 /\ 1 <= Z.of_nat k <= Z.max 1 (cmdcnt s) /\ none_in s0 10 (dot s0) (dot s0 + Z.of_nat k) /\
     (Z.of_nat k = Z.max 1 (cmdcnt s) \/ getb s0 (dot s0 + Z.of_nat k) = 10)) s).
  { apply wp_do_cmd_begin; [done..|]. intros s0 Hm Hl. pose proof (moved_ease _ _ Hm) as Hs0.
    pose proof (f_equal dot Hl : dot s0 = dot s) as Hd0. pose proof (f_equal cmdcnt Hl : cmdcnt s0 = cmdcnt s) as Hc0.
    pose proof (f_equal screenbegin Hl : screenbegin s0 = screenbegin s) as Hsb0.
    apply wp_cmd_x; [done|unfold counted; rewrite Hc0; exact Hc| |by rewrite (getb_moved s), Hd0|lia|].
    - destruct Hr as (H1 & H2 & H3). unfold regs_ok. rewrite (f_equal reg Hl : reg s0 = reg s).
      by rewrite (f_equal regtype Hl : regtype s0 = regtype s), (f_equal YDreg Hl : YDreg s0 = YDreg s).
    - intros k s1 Hs1 Hmode1 Hcut Hk Hn Hall. exists s0, k. by rewrite <- Hc0. }
  apply wp_elim in Hwp as ([] & s1 & Hx & s0 & k & Hm & Hd0 & Hs1 & Hmode1 & Hcut & Hk & Hn & Hall).
  pose proof (moved_ease _ _ Hm) as Hs0. pose proof (ease_dot s0 Hs0).
  assert (Hwu : wp (do_cmd (ch "u")) (fun _ s2 => cut s0 (dot s0) 0 s2 /\ dot s2 = dot s0) s1).
  { unfold do_cmd. cbn [do_cmd_depth].
    apply (wp_cmd_u _ _ s0 (dot s0) k); [by apply ease_wf|lia|by destruct (ae_draw s0 Hs0)| |lia|by apply none_in_room|exact Hs1|by rewrite Hmode1, (moved_mode s)|exact Hcut|].
    - by rewrite (getb_moved s), Hd0.
    - intros s2 H1 H2. by split. }
  apply wp_elim in Hwu as ([] & s2 & Hu & Hcut2 & Hd2). destruct (Hm) as [_ Hf].
  assert (Hcon : contents s0 = contents s) by (apply contents_same; [by apply moved_text|by apply moved_endp|by apply moved_mem]).
  assert (Hoff : forall q, off s0 q = off s q) by (intros q; unfold off; by rewrite (moved_text s)).
  exists s1, s2, (Z.of_nat k). split; [done|]. split; [done|]. split; [done|]. rewrite Hd0 in *.
  split; [intros i Hi; rewrite <- (getb_moved s s0) by done; by apply Hn|]. split; [by rewrite <- (getb_moved s s0)|].
  split; [|split; [done|split; [|split; [done|split]]]].
  - rewrite (cu_con _ _ _ _ Hcut), Hcon, !Hoff. do 2 f_equal. pose proof (moved_text _ _ Hm). unfold off. lia.
  - by rewrite (cu_con _ _ _ _ Hcut2), Hcon, !Hoff, Nat.add_0_r, take_drop.
  - rewrite (cu_stk _ _ _ _ Hcut2). exact (f_equal undo_stack_tail Hf).
  - rewrite (cu_mc _ _ _ _ Hcut2), Z.add_0_r. by rewrite (f_equal modified_count Hf : modified_count s0 = modified_count s).
Qed.
Lemma erase_and_undo_witness : exists s1 s2, do_cmd (ch "x") (set_cmdcnt 9 demo) = Ok tt s1 /\
  do_cmd (ch "u") s1 = Ok tt s2 /\ contents s2 = contents demo /\ dot s2 = dot demo.
Proof.
  destruct (erase_and_undo (set_cmdcnt 9 demo)) as (s1 & s2 & k & Hx & _ & _ & _ & _ & _ & Hu & Hcon & Hd & _).
  - apply (moved_ease demo). apply moved_cnt. exact demo_ease.
  - reflexivity.
  - at_demo.
  - at_demo.
  - at_demo.
  - at_demo.
  - exists s1, s2. split; [exact Hx|]. split; [exact Hu|]. split; [exact Hcon|exact Hd].
Defined.
