(* ===== verification/EvimTyping.v ===== *)
(** * evim: insert mode

    From the "i" that starts it to the ESC that ends it: [entered] is the state
    in which some bytes were typed, [begun] and [wp_typed_key] make one such
    state of the other, and [wp_escape_key] goes back to normal mode. *)
From S2P Require Import Prelude EvimState EvimLine EvimSyntax EvimInput EvimTerm EvimEdit EvimEx EvimCmd EvimMain.
From S2P Require Import EvimNav EvimHole EvimUndo EvimColor EvimFormat EvimRefresh EvimDisplay EvimStatus.
From S2P Require Import EvimPop EvimDemo EvimEditProps EvimMotion EvimWalk EvimErase EvimTurn EvimFileProps EvimCmdProps.

(** all that typing leaves alone *)
Definition tyframe (s : Ed) : Ed :=
  set_indentcol 0 (set_cmd_mode 0 (set_adding2q false (set_dotcnt 0 (frame (loframe s))))).
(** the options that make typing more than the insertion of the byte *)
Definition plain_options (s : Ed) : Prop := showmatch s = false /\ autoindent s = false /\ expandtab s = false.
(** [bs] was typed in front of the cursor of [s] *)
Record entered (s : Ed) (bs : list Z) (s' : Ed) : Prop := mkEntered {
  en_ease : at_ease s';
  en_mode : cmd_mode s' = 1;
  en_con : inserted (off s (dot s)) bs s s';
  en_dot : (off s' (dot s') = off s (dot s) + length bs)%nat;
  en_frame : tyframe s' = tyframe s
}.

(** what comes next from the keyboard, and the registers *)
Definition keysof (s : Ed) := (readbuffer s, input s, ioq_start s, reg s, regtype s).
Lemma keysof_moved s s' : moved s s' -> keysof s' = keysof s.
Proof. intros [_ H]. exact (f_equal keysof H). Qed.

Lemma tyframe_mvframe s s' : mvframe s' = mvframe s -> tyframe s' = tyframe s.
Proof.
  intros H. exact (f_equal (fun x => tyframe x) H).
Qed.
Lemma contents_moved s s' : moved s s' -> contents s' = contents s.
Proof. intros [_ H]. apply contents_same; [exact (f_equal text H)|exact (f_equal endp H)|exact (f_equal mem H)]. Qed.
Lemma entered_moved s bs s1 s2 : entered s bs s1 -> moved s1 s2 -> dot s2 = dot s1 -> entered s bs s2.
Proof.
  intros [He Hm Hc Hd Hf] Hmv Hdot. split; [by eapply moved_ease|by rewrite (moved_mode s1)| | |].
  - unfold inserted in *. by rewrite (contents_moved s1).
  - unfold off in *. by rewrite Hdot, (moved_text s1).
  - rewrite <- Hf. apply tyframe_mvframe. by destruct Hmv.
Qed.

(** an insertion in front of the last byte keeps the newline at the end *)
Lemma inserted_last s s' p bs : wf s -> wf s' -> text s <= p < endp s -> inserted (off s p) bs s s' ->
  text s' < endp s' /\ getb s' (endp s' - 1) = getb s (endp s - 1) /\ endp s' - text s' = endp s - text s + zlen bs.
Proof.
  intros Hwf Hwf' Hp Hins. unfold inserted in Hins. pose proof (length_contents s Hwf) as Hl. pose proof (length_contents s' Hwf') as Hl'.
  rewrite Hins in Hl'. unfold zlen in *. rewrite !length_app, length_take, length_drop in Hl'.
  assert (Hi : (off s p < length (contents s))%nat) by (unfold off; lia).
  assert (Hlt : text s' < endp s') by lia. split; [done|]. split; [|lia].
  pose proof (getb_contents s' (endp s' - 1) Hwf' ltac:(lia)) as Hg'. pose proof (getb_contents s (endp s - 1) Hwf ltac:(lia)) as Hg.
  rewrite Hins in Hg'. apply (f_equal (default 0)) in Hg', Hg. simpl in Hg', Hg. rewrite <- Hg', <- Hg. f_equal.
  rewrite app_assoc, lookup_app_r by (rewrite length_app, length_take; unfold off in *; lia).
  rewrite lookup_drop. f_equal. rewrite length_app, length_take. unfold off in *. lia.
Qed.
Lemma ease_inserted s s' bias c : at_ease s -> wf s' -> rebased bias s s' -> frame s' = frame (set_indentcol 0 s) ->
  endp s' = endp s + 1 + bias -> inserted (off s (dot s)) [c] s s' -> endp s - text s + 1 < 2 ^ 25 ->
  at_ease (set_dot (dot s + 1 + bias) s').
Proof.
  intros Hs Hwf' (Ht & Hd & Hsb & Hmk & _) Hfr He Hins Hsz. pose proof (ease_dot s Hs). pose proof (ease_sb s Hs).
  destruct (inserted_last s s' (dot s) [c] (ease_wf s Hs) Hwf') as (Hne & Hnl & Hlen); [done|done|]. change (zlen [c]) with 1 in Hlen.
  destruct Hs as [[_ Hg _ _ _] _ _ [_ Hnl0] Hmk0 Hvis Hq Hse]. split; simpl; try lia.
  - split; unfold in_text; simpl; try lia; [by apply (wf_same s')|].
    apply (geometry_same s); [exact (f_equal rows Hfr)|exact (f_equal columns Hfr)|exact (f_equal tabstop Hfr)|
      exact (f_equal offset Hfr)|exact (f_equal screen Hfr)|done].
  - split; [done|]. rewrite <- Hnl0. exact Hnl.
  - by rewrite Hmk, length_map.
  - by rewrite (f_equal vi_visual Hfr : vi_visual s' = vi_visual s).
  - by rewrite (f_equal undo_q Hfr : undo_q s' = undo_q s).
  - apply (settled_pframe_msg s); [exact (f_equal have_status_msg Hfr)|exact (f_equal status_buffer Hfr)|exact (f_equal columns Hfr)|done].
Qed.
Lemma inserted_snoc i s bs c s1 s2 : (i <= length (contents s))%nat -> inserted i bs s s1 -> inserted (i + length bs) [c] s1 s2 ->
  inserted i (bs ++ [c]) s s2.
Proof.
  unfold inserted. intros Hi H1 H2. assert (Ht : length (take i (contents s) ++ bs) = (i + length bs)%nat).
  { rewrite length_app, length_take. lia. }
  rewrite H2, H1, (app_assoc (take i (contents s)) bs), <- Ht, take_app_length, drop_app_length.
  by rewrite <- !app_assoc.
Qed.

(** ** Typing *)
Section typing.
Context (s : Ed) (Hs : at_ease s) (Hal : good_alloc s) (Hopt : plain_options s).

Lemma entered_size bs s1 : entered s bs s1 -> endp s1 - text s1 = endp s - text s + zlen bs.
Proof using Hs.
  intros [He _ Hc _ _]. by destruct (inserted_last s s1 (dot s) bs (ease_wf s Hs) (ease_wf s1 He)) as (_ & _ & H); [apply ease_dot|done|].
Qed.
Lemma wp_insert_plain E c bs s1 (Q : label -> Ed -> Prop) : entered s bs s1 -> plain_key c ->
  endp s - text s + zlen bs + 1 < 2 ^ 25 -> (forall s2, entered s (bs ++ [typed c]) s2 -> keysof s2 = keysof s1 -> Q Dc1 s2) -> wpe E (insert_key c) Q s1.
Proof using Hs Hal Hopt.
  intros Hen Hk Hsz HQ. pose proof (entered_size bs s1 Hen) as Hlen. destruct (Hen) as [He Hm Hcon Hdot Hf].
  pose proof (ease_dot s1 He) as Hd1. pose proof (ease_dot s Hs) as Hd.
  assert (Hset : vi_setops s1 = vi_setops s) by exact (f_equal vi_setops Hf).
  destruct Hopt as (Hsm & Hai & Htab). destruct (Hk) as [Hc _]. unfold insert_key. replace (c =? KEYCODE_INSERT) with false by (unfold KEYCODE_INSERT; lia).
  replace (1 <=? c) with true by lia. cbn [orb]. do 3 wp_step. unfold set_dot_from. wp_step.
  apply wp_type_char; [by apply ease_wf|by apply (good_alloc_same s); [exact (f_equal env Hf)|]|txt|done|left; by apply ae_queue|
    left; unfold showmatch in *; by rewrite Hset|left; unfold autoindent in *; by rewrite Hset|left; unfold expandtab in *; by rewrite Hset|].
  intros bias s2 Hwf2 Hre Hfr He2 Hins. do 2 wp_step. apply HQ; [|exact (f_equal keysof Hfr)]. destruct (Hre) as (Ht2 & _). split.
  - by apply (ease_inserted s1 s2 bias (typed c)); [..|lia].
  - exact (eq_trans (f_equal cmd_mode Hfr) Hm).
  - apply (inserted_snoc _ s bs (typed c) s1); [|done|].
    + pose proof (length_contents s (ease_wf s Hs)) as Hl. unfold zlen, off in *. lia.
    + rewrite <- Hdot. exact Hins.
  - rewrite length_app. change (off s2 (dot s1 + 1 + bias) = (off s (dot s) + (length bs + 1))%nat). unfold off in *. lia.
  - rewrite <- Hf. exact (f_equal (fun x => tyframe x) Hfr).
Qed.
(** a typed byte *)
Lemma wp_typed_key E rec c bs s1 (Q : unit -> Ed -> Prop) : entered s bs s1 -> plain_key c ->
  endp s - text s + zlen bs + 1 < 2 ^ 25 -> (forall s2, entered s (bs ++ [typed c]) s2 -> keysof s2 = keysof s1 -> Q tt s2) -> wpe E (do_cmd_with rec c) Q s1.
Proof using Hs Hal Hopt.
  intros Hen Hk Hsz HQ. destruct (Hk) as [Hc _]. apply wp_do_cmd_key; [by destruct Hen|]. intros s2 Hm2 Hl2.
  assert (Hen2 : entered s bs s2) by (apply (entered_moved s bs s1); [done|done|exact (f_equal dot Hl2)]).
  unfold dispatch_key. do 2 wp_step. assert (Hcur : is_key c cursor_keys = false).
  { apply not_true_iff_false. intros H. apply existsb_exists in H as (x & Hx & Hcx). apply Z.eqb_eq in Hcx. subst x.
    assert (Hall : forallb (fun x => x <? 1) cursor_keys = true) by done. rewrite forallb_forall in Hall. specialize (Hall c Hx). lia. }
  rewrite Hcur, (en_mode _ _ _ Hen2). cbn [Z.eqb Pos.eqb]. apply (wp_insert_plain E c bs); [done..|].
  intros s3 Hen3 Hk3. unfold leave. do 4 wp_step. destruct (Hen3) as [He3 Hm3 _ _ _].
  apply wp_finish_ease; [done|]. intros s4 Hm4 [_ _ _ Hmode _] _.
  apply HQ; [|by rewrite (keysof_moved s3), Hk3, (keysof_moved s1)].
  apply (entered_moved s _ s3); [done|done|]. apply Hmode. by rewrite Hm3.
Qed.
Lemma wp_type_keys E cs bs s1 (Q : unit -> Ed -> Prop) : entered s bs s1 -> Forall plain_key cs ->
  endp s - text s + zlen bs + zlen cs < 2 ^ 25 -> (forall s2, entered s (bs ++ map typed cs) s2 -> Q tt s2) ->
  wpe E (run_keys cs) Q s1.
Proof using Hs Hal Hopt.
  intros Hen Hcs. revert bs s1 Hen. induction Hcs as [|c cs Hc Hcs IH]; intros bs s1 Hen Hsz HQ; cbn [run_keys].
  { wp_step. apply HQ. by rewrite app_nil_r. }
  assert (Hcl : zlen (c :: cs) = 1 + zlen cs) by (unfold zlen; cbn [length]; lia).
  assert (0 <= zlen cs) by (unfold zlen; lia). wp_step.
  change (do_cmd c) with (do_cmd_with (do_cmd_depth 1) c). apply (wp_typed_key E _ c bs s1); [done|done|lia|]. intros s2 Hen2 _.
  assert (Hb : zlen (bs ++ [typed c]) = zlen bs + 1) by (unfold zlen; rewrite length_app; cbn [length]; lia).
  apply (IH (bs ++ [typed c])); [done|lia|].
  intros s3 Hen3. apply HQ. by rewrite <- app_assoc in Hen3.
Qed.
End typing.

(** ** "i" and ESC *)
Lemma wp_commit_none E s (Q : unit -> Ed -> Prop) : undo_q s = 0 -> Q tt s -> wpe E undo_queue_commit Q s.
Proof. intros Hq HQ. apply wp_undo_queue_commit; [by rewrite Hq|]. unfold committed. by rewrite Hq. Qed.

(** "i" starts to insert in front of the cursor *)
Lemma wp_begin_insert E rec s (Q : unit -> Ed -> Prop) : at_ease s -> cmd_mode s = 0 ->
  (forall s', entered s [] s' -> keysof s' = keysof s -> Q tt s') -> wpe E (do_cmd_with rec (ch "i")) Q s.
Proof.
  intros Hs Hmode HQ. apply wp_do_cmd_begin; [done..|]. intros s1 Hm1 Hl1. pose proof (moved_ease _ _ Hm1) as Hs1.
  change (cmd_switch rec (ch "i")) with (bind (get : EM Ed) (fun _ => ret Dc_i)). do 3 wp_step. unfold leave. do 3 wp_step.
  set (s2 := set_cmd_mode 1 s1). assert (Hs2 : at_ease s2) by (by apply (ease_vars s1)).
  apply wp_commit_none; [by apply ae_queue|]. do 2 wp_step. apply wp_finish_ease; [done|].
  intros s3 Hm3 [_ _ _ Hsame _] _. apply HQ; [|by rewrite (keysof_moved s2), <- (keysof_moved s s1)]. apply (entered_moved s [] s2); [|done|by apply Hsame].
  pose proof (moved_text s s1 Hm1) as Ht1. pose proof (f_equal dot Hl1 : dot s1 = dot s) as Hd1. split; [done|done| | |].
  - unfold inserted. simpl. rewrite take_drop. exact (contents_moved s s1 Hm1).
  - unfold off. change (dot s2) with (dot s1). change (text s2) with (text s1). simpl. lia.
  - destruct Hm1 as [_ H1]. exact (f_equal (fun x => tyframe x) H1).
Qed.

(** where ESC leaves the cursor, of the text [bs]: on the byte typed last, but
    for a newline *)
Definition esc_off (j : nat) (bs : list Z) : nat :=
  if (0 <? j)%nat && negb (nth0 (j - 1) bs =? 10) then (j - 1)%nat else j.
(** back in normal mode, with [bs] inserted in front of the cursor of [s] *)
Record inserted_text (s : Ed) (bs : list Z) (s' : Ed) : Prop := mkInsertedText {
  it_ease : at_ease s';
  it_normal : normal s';
  it_cnt : cmdcnt s' = 0;
  it_con : inserted (off s (dot s)) bs s s';
  it_dot : off s' (dot s') = esc_off (off s (dot s) + length bs) (contents s');
  it_frame : tyframe s' = tyframe s
}.
Lemma getb_nth s p : wf s -> text s <= p < endp s -> nth0 (off s p) (contents s) = getb s p.
Proof. intros Hwf Hp. unfold nth0. by rewrite (getb_contents s p). Qed.

(** ESC, up to the end of the key *)
Lemma wp_insert_esc E s1 (Q : label -> Ed -> Prop) : at_ease s1 -> autoindent s1 = false ->
  (forall s2, at_ease s2 -> normal s2 -> cmdcnt s2 = 0 -> contents s2 = contents s1 -> text s2 = text s1 ->
     off s2 (dot s2) = esc_off (off s1 (dot s1)) (contents s1) -> (getb s2 (dot s2) = 10 -> line_start s2 (dot s2)) ->
     tyframe s2 = tyframe s1 -> keysof s2 = keysof s1 -> Q Dc1 s2) ->
  wpe E (insert_key 27) Q s1.
Proof.
  intros Hs Hai HQ. pose proof (ease_dot s1 Hs) as Hd. pose proof (ease_wf s1 Hs) as Hwf.
  change (insert_key 27) with (d <- gets dot ;; set_dot_from (char_insert d 27 ALLOW_UNDO_QUEUED) ;; ret Dc1).
  do 2 wp_step. unfold set_dot_from, char_insert. cbv zeta. change (u8 27) with 27. wp_step. wp_step. wp_step.
  apply (wp_begin_line s1 Hwf); [txt|]. intros bol _. do 2 wp_step. cbn [Z.eqb Pos.eqb andb]. wp_step. wp_step.
  unfold char_insert_esc. do 3 wp_step. apply wp_commit_none; [exact (ae_queue s1 Hs)|]. do 2 wp_step.
  unfold end_cmd_q. do 6 wp_step. set (s2 := set_last_status_cksum 0 _).
  assert (Hs2 : at_ease s2) by (by apply (ease_vars s1)).
  assert (Hend : forall d, text s1 <= d < endp s1 -> off s1 d = esc_off (off s1 (dot s1)) (contents s1) ->
    (getb s1 d = 10 -> line_start s1 d) -> Q Dc1 (set_dot d (set_indentcol 0 s2))).
  { intros d Hdd Ho Hls. apply HQ; try done. apply (moved_ease (set_indentcol 0 s2)), moved_dot; [by apply (ease_vars s1)|done]. }
  rewrite (Hai : autoindent s2 = false). wp_step. wp_step.
  - apply Z.ltb_lt in H. change (text s1 < dot s1) in H. wp_step.
    apply (wp_rd s2 (ease_wf s2 Hs2)); [change (in_text s1 (dot s1 - 1)); txt|].
    change (getb s2 (dot s1 - 1)) with (getb s1 (dot s1 - 1)). do 7 wp_step. unfold esc_off in Hend.
    assert (Hn : nth0 (off s1 (dot s1) - 1) (contents s1) = getb s1 (dot s1 - 1)).
    { rewrite <- getb_nth by (done || lia). f_equal. unfold off. lia. }
    replace (0 <? off s1 (dot s1))%nat with true in Hend by (symmetry; apply Nat.ltb_lt; unfold off; lia).
    rewrite Hn in Hend. cbn [andb] in Hend.
    destruct (Z.eqb_spec (getb s1 (dot s1 - 1)) 10) as [H10|H10]; cbn [negb] in *; apply Hend; try lia.
    + intros _. split; [lia|]. split; [by right|]. intros i Hi. lia.
    + unfold off. lia.
  - apply Z.ltb_ge in H. change (dot s1 <= text s1) in H. do 6 wp_step. apply Hend; [done|..].
    + unfold esc_off, off. replace (Z.to_nat (dot s1 - text s1)) with 0%nat by lia. done.
    + intros _. split; [lia|]. split; [left; lia|]. intros i Hi. lia.
Qed.
(** ESC as a whole command *)
Lemma wp_escape_key E rec s bs s1 (Q : unit -> Ed -> Prop) : plain_options s -> entered s bs s1 ->
  (forall s2, inserted_text s bs s2 -> keysof s2 = keysof s1 -> Q tt s2) -> wpe E (do_cmd_with rec 27) Q s1.
Proof.
  intros (_ & Hai & _) Hen HQ. apply wp_do_cmd_key; [by destruct Hen|]. intros s2 Hm2 Hl2.
  assert (Hen2 : entered s bs s2) by (apply (entered_moved s bs s1); [done|done|exact (f_equal dot Hl2)]).
  destruct (Hen2) as [He2 Hmode Hcon Hdot Hf]. unfold dispatch_key. do 2 wp_step.
  change (is_key 27 cursor_keys) with false. rewrite Hmode. cbn [Z.eqb Pos.eqb].
  assert (Hset : vi_setops s2 = vi_setops s) by exact (f_equal vi_setops Hf).
  apply wp_insert_esc; [done|by unfold autoindent in *; rewrite Hset|].
  intros s3 He3 Hn3 Hc3 Hcon3 Ht3 Hd3 Hls3 Hf3 Hk3. unfold leave. do 4 wp_step.
  apply wp_finish_ease; [done|]. intros s4 Hm4 [_ _ _ _ Hsame] Hc4. specialize (Hsame Hls3).
  apply HQ; [|by rewrite (keysof_moved s3), Hk3, (keysof_moved s1)]. split.
  - by eapply moved_ease.
  - by eapply moved_normal.
  - done.
  - unfold inserted in *. by rewrite (contents_moved s3), Hcon3.
  - rewrite (contents_moved s3), Hcon3 by done. rewrite <- Hdot, <- Hd3. unfold off. by rewrite Hsame, (moved_text s3).
  - rewrite <- Hf, <- Hf3. apply tyframe_mvframe. by destruct Hm4.
Qed.

(** Insert mode inserts: from normal mode, "i", any bytes that stand for
    themselves and ESC put exactly these bytes in front of the cursor, a
    carriage return as a newline, wherever the block has to move; the cursor
    ends on the last of them, the editor is at ease in normal mode, and
    neither the undo stack nor the count of modifications has changed. *)
Theorem typed_text s cs : at_ease s -> normal s -> good_alloc s -> plain_options s -> Forall plain_key cs ->
  endp s - text s + zlen cs < 2 ^ 25 ->
  exists s', run_keys (ch "i" :: cs ++ [27]) s = Ok tt s' /\ at_ease s' /\ normal s' /\
    contents s' = take (off s (dot s)) (contents s) ++ map typed cs ++ drop (off s (dot s)) (contents s) /\
    off s' (dot s') = esc_off (off s (dot s) + length cs) (contents s') /\
    modified_count s' = modified_count s /\ undo_stack_tail s' = undo_stack_tail s.
Proof.
  intros Hs [Hmode _] Hal Hopt Hcs Hsz.
  destruct (wp_elim (run_keys (ch "i" :: cs ++ [27])) (fun _ s' => inserted_text s (map typed cs) s') s) as ([] & s' & Hr & Hit).
  - cbn [run_keys]. wp_step. apply wp_begin_insert; [done..|]. intros s1 Hen _. apply wp_run_app.
    apply (wp_type_keys s Hs Hal Hopt no_fault cs []); [done|done|change (zlen []) with 0; lia|]. intros s2 Hen2.
    cbn [run_keys app] in *. wp_step. change (do_cmd 27) with (do_cmd_with (do_cmd_depth 1) 27).
    apply (wp_escape_key _ _ s (map typed cs) s2); [done|done|]. intros s3 Hit _. by wp_step.
  - exists s'. destruct Hit as [He Hn _ Hcon Hdot Hf]. rewrite length_map in Hdot. repeat (split; [done|]).
    split; [exact (f_equal modified_count Hf)|exact (f_equal undo_stack_tail Hf)].
Qed.
Lemma typed_text_witness : exists s', run_keys (ch "i" :: (str "a}" ++ [13]) ++ [27]) (set_dot 1008 demo) = Ok tt s' /\
  contents s' = take 8 (contents demo) ++ (str "a}" ++ [10]) ++ drop 8 (contents demo) /\ modified_count s' = 0.
Proof.
  destruct (typed_text (set_dot 1008 demo) (str "a}" ++ [13])) as (s' & Hr & _ & _ & Hc & _ & Hm & _).
  - apply (moved_ease demo), moved_dot; [exact demo_ease|at_demo].
  - split; reflexivity.
  - exact demo_good_alloc.
  - repeat split; reflexivity.
  - repeat constructor; try lia; vm_compute; intuition discriminate.
  - at_demo.
  - exists s'. split; [exact Hr|]. split; [rewrite Hc; reflexivity|rewrite Hm; reflexivity].
Defined.
