(* ===== verification/EvimLoop.v ===== *)
(** * evim: the rules of the editing loop

    One turn of the loop of edit_file(): reading a key from the bytes of the
    terminal, the copy of the current line, the command, the display.
    [listening] is the state in which the loop waits for a key, [prompt] the
    same in normal mode; [next_key] says what key comes next and [awaits] what
    is left of the input. *)
From S2P Require Import Prelude EvimState EvimLine EvimSyntax EvimInput EvimTerm EvimEdit EvimEx EvimCmd EvimMain.
From S2P Require Import EvimNav EvimHole EvimUndo EvimColor EvimFormat EvimRefresh EvimDisplay EvimStatus.
From S2P Require Import EvimPop EvimDemo EvimEditProps EvimMotion EvimWalk EvimErase EvimTurn EvimInputProps EvimCmdProps.

(** ** The state of the loop *)
Record listening (s : Ed) : Prop := mkListening {
  li_ease : at_ease s;
  li_replay : ioq_start s = false;
  li_reg : zlen (reg s) = 28;
  li_regtype : zlen (regtype s) = 28
}.
Definition prompt (s : Ed) : Prop := listening s /\ normal s.
(** nothing is saved of an earlier key, and the input is still to be read *)
Definition awaits (rest : list key) (s : Ed) : Prop := fresh_keys s /\ input s = rest.
(** the key that comes next, and the input after it *)
Definition next_key (c : Z) (rest : list key) (s : Ed) : Prop := exists s', readit s = Ok c s' /\ after_key rest s s'.
(** what reading a key and saving the line leave alone *)
Definition quiet (s : Ed) : Ed :=
  set_input [] (set_readbuffer [] (set_lmc_len 0 (set_last_modifying_cmd [] (set_adding2q false
    (set_reg [] (set_regtype [] (set_reg_next 0%nat (set_edit_file_cur_line 0 s)))))))).
(** a turn in normal mode that only moves *)
Definition went (s s' : Ed) : Prop := prompt s' /\ loframe s' = loframe s.

Lemma went_refl s : prompt s -> went s s.
Proof. by split. Qed.
Lemma went_trans s1 s2 s3 : went s1 s2 -> went s2 s3 -> went s1 s3.
Proof. intros [_ H1] [H2 H3]. split; congruence. Qed.
Lemma prompt_ease s : prompt s -> at_ease s.
Proof. by intros [[] _]. Qed.

Lemma listening_moved s s' : listening s -> moved s s' -> listening s'.
Proof.
  intros [_ Hq Hr Ht] [He H]. split; [done|by rewrite (f_equal ioq_start H : ioq_start s' = _)| |].
  - by rewrite (f_equal reg H : reg s' = _).
  - by rewrite (f_equal regtype H : regtype s' = _).
Qed.
Lemma went_moved s s' : prompt s -> moved s s' -> went s s'.
Proof.
  intros [Hl Hn] Hm. split; [split; [by eapply listening_moved|by eapply moved_normal]|]. destruct Hm as [_ H]. exact (f_equal loframe H).
Qed.
Lemma awaits_moved rest s s' : moved s s' -> awaits rest s -> awaits rest s'.
Proof.
  intros [_ H] [[Hf1 Hf2] Hi]. split; [split|]; by rewrite ?(f_equal readbuffer H : readbuffer s' = _), ?(f_equal input H : input s' = _).
Qed.
Lemma listening_quiet s s' : listening s -> quiet s' = quiet s -> zlen (reg s') = 28 -> zlen (regtype s') = 28 -> listening s'.
Proof.
  intros [He Hq _ _] H Hr Ht. split; [|by rewrite (f_equal ioq_start H : ioq_start s' = _)|done|done].
  apply (ease_vars s); [done|exact (f_equal core H)|exact (f_equal dot H)|exact (f_equal screenbegin H)|exact (f_equal offset H)|
    exact (f_equal screen H)|exact (f_equal mark H)|exact (f_equal have_status_msg H)|exact (f_equal status_buffer H)].
Qed.
Lemma went_quiet s s' : normal s -> listening s' -> quiet s' = quiet s -> adding2q s' = adding2q s -> went s s'.
Proof.
  intros [Hm Ha] Hl H Ha'. split; [split; [done|]|].
  - split; [by rewrite (f_equal cmd_mode H : cmd_mode s' = _)|by rewrite Ha'].
  - exact (f_equal2 (fun a x => set_adding2q a (loframe x)) Ha' H).
Qed.

(** ** Keys *)
(** the bytes a terminal sends for a key *)
Inductive keystroke : Z -> list Z -> Prop :=
  | plain_stroke c : 0 <= c < 256 -> c <> 27 -> keystroke c [c]
  | escape_stroke k bs : In (bs, k) esc_keys -> keystroke k (27 :: bs).

Lemma next_stroke k bs rest s : keystroke k bs -> awaits (map Key bs ++ rest) s -> next_key k rest s.
Proof. intros [c Hc H27|k' bs' Hin] [Hf Hi]; [by apply readit_plain|by apply (readit_escape s bs')]. Qed.
Lemma next_byte c rest s : 0 <= c < 256 -> c <> 27 -> awaits (Key c :: rest) s -> next_key c rest s.
Proof. intros Hc H27 [Hf Hi]. by apply readit_plain. Qed.
(** a byte that read_key() has read already *)
Definition saved (c : Z) (rest : list key) (s : Ed) : Prop :=
  length (readbuffer s) = 16%nat /\ readbuffer s !! 0%nat = Some 1 /\ readbuffer s !! 1%nat = Some c /\ input s = rest.
Lemma next_saved c rest s : c <> 27 -> saved c rest s -> next_key c rest s.
Proof. intros H27 (Hl & H0 & H1 & <-). by apply readit_saved. Qed.
(** ESC with a byte behind it that starts no sequence *)
Lemma wp_read_esc E s c rest (Q : Z -> Ed -> Prop) : 0 <= c < 256 -> ~ In c esc_firsts -> awaits (Key 27 :: Key c :: rest) s ->
  (forall s', saved c rest s' -> set_readbuffer [] (set_input [] s') = set_readbuffer [] (set_input [] s) -> Q 27 s') ->
  wpe E readit Q s.
Proof.
  intros Hc Hn [Hf Hi] HQ. destruct (readit_escape_other s c rest) as (s' & Hr & Hl & H0 & H1 & Hi' & Hs'); [done| |done|done|].
  { apply in_map_iff. exists (Z.to_nat c). split; [lia|]. apply in_seq. lia. }
  apply (wpe_ok _ _ _ _ _ _ Hr). by apply HQ.
Qed.

(** get_one_char() in normal mode *)
Lemma wp_get_key E s c rest (Q : Z -> Ed -> Prop) : prompt s -> next_key c rest s ->
  (forall s', went s s' -> awaits rest s' -> cmdcnt s' = cmdcnt s -> Q c s') -> wpe E get_one_char Q s.
Proof.
  intros [Hl Hn] (s' & Hr & Hf & Hi & H) HQ. destruct (Hl) as [_ Hq Hreg Hrt]. destruct (Hn) as [_ Ha].
  unfold get_one_char. do 2 wp_step. rewrite Ha, Hq. cbn [negb]. apply (wpe_ok _ _ _ _ _ _ Hr).
  apply HQ; [|by split|exact (f_equal cmdcnt H)]. apply went_quiet; [done| |exact (f_equal quiet H)|exact (f_equal adding2q H)].
  apply (listening_quiet s); [done|exact (f_equal quiet H)| |].
  - by rewrite (f_equal reg H : reg s' = _).
  - by rewrite (f_equal regtype H : regtype s' = _).
Qed.
(** get_one_char() in any mode: it may add the key to the recorded command *)
Lemma wp_get_recorded E s (P : Z -> Ed -> Prop) (Q : Z -> Ed -> Prop) : ioq_start s = false -> wpe E readit P s ->
  (forall c s1 s2, P c s1 -> readbuffer s2 = readbuffer s1 -> input s2 = input s1 -> reg s2 = reg s1 -> regtype s2 = regtype s1 ->
     quiet s2 = quiet s1 -> Q c s2) -> wpe E get_one_char Q s.
Proof.
  intros Hq HP HQ. unfold get_one_char. do 2 wp_step. rewrite Hq. wp_step.
  - eapply wpe_mono; [exact HP|]. intros c s1 H1. by apply (HQ c s1).
  - wp_step. eapply wpe_mono; [exact HP|]. intros c s1 H1. do 2 wp_step. wp_step.
    destruct (MAX_INPUT_LEN - 2 <=? lmc_len s1); do 2 wp_step; by apply (HQ c s1).
Qed.

(** ** Around the command *)
(** save_line() only changes the U register *)
Lemma wp_save_line E s (Q : unit -> Ed -> Prop) : listening s ->
  (forall s', listening s' -> quiet s' = quiet s -> adding2q s' = adding2q s -> readbuffer s' = readbuffer s -> input s' = input s -> Q tt s') ->
  wpe E save_line Q s.
Proof.
  intros Hp HQ. pose proof (li_ease s Hp) as Hs. pose proof (ease_dot s Hs). unfold save_line. do 3 wp_step.
  apply (wp_begin_line s (ease_wf s Hs)); [txt|]. intros b (Hb & _). wp_step.
  2:{ wp_step. by apply HQ. }
  do 3 wp_step. set (s1 := set_edit_file_cur_line b s).
  assert (Hs1 : at_ease s1) by (by apply (ease_vars s)).
  apply (wp_end_line s1 (ease_wf s1 Hs1)); [change (in_text s (dot s)); txt|]. intros e (He & _). change (endp s1) with (endp s) in He.
  destruct (Hp) as [_ Hq Hr Ht]. wp_step.
  apply wp_yank_to; [by apply ease_wf|done|done|done|exact (proj1 Hb)|change (b <= e < endp s); lia|]. wp_step.
  apply HQ; try done. apply (listening_quiet s); try done; unfold zlen in *; simpl; by rewrite length_insert.
Qed.
Lemma awaits_same rest s s' : readbuffer s' = readbuffer s -> input s' = input s -> awaits rest s -> awaits rest s'.
Proof. intros H1 H2 [[Hf1 Hf2] Hi]. by split; [split|]; rewrite ?H1, ?H2. Qed.
Lemma wp_save_prompt E s (Q : unit -> Ed -> Prop) : prompt s ->
  (forall s', went s s' -> cmdcnt s' = cmdcnt s -> (forall r, awaits r s -> awaits r s') -> Q tt s') -> wpe E save_line Q s.
Proof.
  intros [Hl Hn] HQ. apply wp_save_line; [done|]. intros s' Hl' H Ha Hrb Hi.
  apply HQ; [by apply went_quiet|exact (f_equal cmdcnt H)|]. intros r. by apply awaits_same.
Qed.
(** what remember_cmd() does not record *)
Definition unrecorded (c : Z) : bool := negb ((0 <? c) && (c <? 0x7f) && strchr_in modifying_cmds c).
Lemma wp_remember_none E s c (Q : unit -> Ed -> Prop) : unrecorded c = true -> Q tt s -> wpe E (remember_cmd c) Q s.
Proof.
  intros Hc HQ. unfold remember_cmd. do 2 wp_step. rewrite <- !andb_assoc.
  apply negb_true_iff in Hc. rewrite <- andb_assoc in Hc. rewrite Hc, !andb_false_r. by wp_step.
Qed.
Lemma unrecorded_motion c : isdigit c = true \/ In c motion_keys -> unrecorded c = true.
Proof.
  intros [Hd|Hc].
  - assert (Hc : In c (str "0123456789")) by (unfold isdigit in Hd; cbn [In]; lia).
    assert (Hall : forallb unrecorded (str "0123456789") = true) by done. rewrite forallb_forall in Hall. auto.
  - assert (Hall : forallb unrecorded motion_keys = true) by done. rewrite forallb_forall in Hall. auto.
Qed.
(** nothing is selected: the screen is drawn or not *)
Lemma wp_update_display E s (Q : unit -> Ed -> Prop) : at_ease s ->
  (forall s', moved s s' -> pframe s' = pframe s -> Q tt s') -> wpe E (update_display None) Q s.
Proof.
  intros Hs HQ. unfold update_display. do 2 wp_step. rewrite orb_false_r. wp_step.
  - rewrite (ae_vis s Hs). cbn [negb Z.eqb]. do 2 wp_step.
    by apply (displays_seq (refresh false) show_status_line); [auto with steady..|].
  - wp_step. by apply HQ; [apply moved_refl|].
Qed.

(** ** Turns *)
(** a turn in normal mode whose key is not recorded, up to its command *)
Lemma wp_turn E c rest s (Q : unit -> Ed -> Prop) : prompt s -> next_key c rest s -> unrecorded c = true ->
  (forall s', went s s' -> awaits rest s' -> cmdcnt s' = cmdcnt s -> wpe E (do_cmd c ;; update_display None) Q s') ->
  wpe E edit_turn Q s.
Proof.
  intros Hp Hk Hun HQ. unfold edit_turn. wp_step. apply (wp_get_key _ _ c rest); [done..|].
  intros s1 Hw1 Ha1 Hc1. destruct (Hw1) as [Hp1 _].
  wp_step. apply wp_save_prompt; [done|]. intros s2 Hw2 Hc2 Ha2. destruct (Hw2) as [Hp2 _].
  wp_step. apply wp_remember_none; [done|]. do 2 wp_step.
  rewrite (ae_vis s2 (prompt_ease s2 Hp2)). cbn [negb Z.eqb]. cbv zeta.
  apply HQ; [by eapply went_trans|auto|congruence].
Qed.
(** a turn whose key is one of a motion or of its count *)
Lemma wp_motion_turn E c rest s (Q : unit -> Ed -> Prop) : prompt s -> counted s ->
  (isdigit c = true /\ cmdcnt s < 10 ^ 8) \/ In c motion_keys -> next_key c rest s ->
  (forall s', went s s' -> awaits rest s' -> cmdcnt s' = (if isdigit c then cmdcnt s * 10 + (c - 48) else 0) -> Q tt s') ->
  wpe E edit_turn Q s.
Proof.
  intros Hp Hc Hk Hn HQ. apply (wp_turn _ c rest); [done|done|apply unrecorded_motion; tauto|].
  intros s1 Hw1 Ha1 Hc1. destruct (Hw1) as [[Hl1 Hn1] _]. wp_step.
  apply wp_motion_key; [by apply li_ease|done|unfold counted in *; lia|by rewrite Hc1|].
  intros s2 Hm2 _ Hc2. destruct (went_moved _ _ (proj1 Hw1) Hm2) as [Hp2 Hl2].
  apply wp_update_display; [by apply prompt_ease|]. intros s3 Hm3 Hf3. pose proof (f_equal cmdcnt Hf3 : cmdcnt s3 = cmdcnt s2) as Hc3.
  apply HQ; [|exact (awaits_moved _ _ _ Hm3 (awaits_moved _ _ _ Hm2 Ha1))|by rewrite Hc3, Hc2, Hc1].
  eapply went_trans; [exact Hw1|]. eapply went_trans; [by apply went_moved|]. by apply went_moved.
Qed.

(** ** Quitting *)
(** "ZZ" of an unmodified buffer, with no file left *)
Definition quitting (s s' : Ed) : Prop := went (set_editing 0 s) s'.
Lemma prompt_editing s n : prompt s -> prompt (set_editing n s).
Proof. intros [[He ? ? ?] ?]. split; [|done]. split; [|done..]. by apply (ease_vars s). Qed.
Lemma went_quitting s1 s2 s3 : went s1 s2 -> quitting s2 s3 -> quitting s1 s3.
Proof. intros [_ H1] [H2 H3]. split; [done|]. rewrite H3. exact (f_equal (set_editing 0) H1). Qed.
Lemma wp_cmd_Z E s rest (Q : label -> Ed -> Prop) : prompt s -> modified_count s = 0 -> argc s - vi_optind s <= 1 ->
  next_key 90 rest s -> (forall s', quitting s s' -> awaits rest s' -> Q Dc1 s') -> wpe E cmd_Z Q s.
Proof.
  intros Hp Hm Hj Hk HQ. unfold cmd_Z. wp_step. apply (wp_get_key _ _ 90 rest); [done|done|].
  intros s1 Hw Ha1 _. cbn [Z.eqb Pos.eqb negb]. do 2 wp_step. destruct (Hw) as [Hp1 H1].
  rewrite (f_equal modified_count H1 : modified_count s1 = modified_count s), Hm. cbn [Z.eqb negb]. do 4 wp_step.
  change (argc (set_editing 0 s1)) with (argc s1). change (vi_optind (set_editing 0 s1)) with (vi_optind s1).
  rewrite (f_equal argc H1 : argc s1 = argc s), (f_equal vi_optind H1 : vi_optind s1 = vi_optind s).
  replace (0 <? argc s - vi_optind s - 1) with false by lia. rewrite andb_false_r. unfold when. do 2 wp_step.
  apply HQ; [|by apply (awaits_same rest s1)]. apply (went_quitting _ s1); [done|]. by apply went_refl, prompt_editing.
Qed.
Lemma wp_quit_turn E rest s (Q : unit -> Ed -> Prop) : prompt s -> modified_count s = 0 -> argc s - vi_optind s <= 1 ->
  next_key 90 (Key 90 :: rest) s -> (forall s', quitting s s' -> awaits rest s' -> Q tt s') -> wpe E edit_turn Q s.
Proof.
  intros Hp Hm Hj Hk HQ. apply (wp_turn _ 90 (Key 90 :: rest)); [done..|]. intros s2 Hw2 Ha2 _. destruct (Hw2) as [Hp2 _]. wp_step.
  apply wp_do_cmd_begin; [by apply prompt_ease|by destruct Hp2 as [_ []]|]. intros s3 Hm3 _.
  pose proof (went_trans _ _ _ Hw2 (went_moved _ _ Hp2 Hm3)) as Hw3. destruct (Hw3) as [Hp3 Hl].
  change (cmd_switch _ 90) with (bind (get : EM Ed) (fun _ => cmd_Z)). do 2 wp_step. apply (wp_cmd_Z _ s3 rest); [done| | | |].
  - by rewrite (f_equal modified_count Hl : modified_count s3 = modified_count s).
  - by rewrite (f_equal argc Hl : argc s3 = argc s), (f_equal vi_optind Hl : vi_optind s3 = vi_optind s).
  - apply next_byte; [lia|lia|exact (awaits_moved _ _ _ Hm3 Ha2)].
  - intros s4 Hq4 Ha4. unfold leave. do 4 wp_step. destruct (Hq4) as [Hp4 _].
    apply wp_finish_ease; [by apply prompt_ease|]. intros s5 Hm5 _ _. pose proof (went_moved _ _ Hp4 Hm5) as Hw5. destruct (Hw5) as [Hp5 _].
    apply wp_update_display; [by apply prompt_ease|]. intros s6 Hm6 _. apply HQ; [|exact (awaits_moved _ _ _ Hm6 (awaits_moved _ _ _ Hm5 Ha4))].
    apply (went_quitting _ s3); [done|]. exact (went_trans _ _ _ Hq4 (went_trans _ _ _ Hw5 (went_moved _ _ Hp5 Hm6))).
Qed.
