(* ===== verification/EvimTypeLoop.v ===== *)
(** * evim: insert mode in the editing loop

    The turns of edit_file() from "i" to ESC, and the turn of ":wq": the keys
    come from the bytes of the terminal and are recorded for the "."
    command. *)
From S2P Require Import Prelude EvimState EvimLine EvimSyntax EvimInput EvimTerm EvimEdit EvimEx EvimCmd EvimMain.
From S2P Require Import EvimNav EvimHole EvimUndo EvimColor EvimFormat EvimRefresh EvimDisplay EvimStatus.
From S2P Require Import EvimPop EvimDemo EvimEditProps EvimMotion EvimWalk EvimErase EvimTurn EvimInputProps EvimFileProps.
From S2P Require Import EvimExProps EvimCmdProps EvimTyping EvimLoop.

(** ** Typing *)
(** in insert mode, [bs] typed since [s] *)
Definition typing (s : Ed) (bs : list Z) (s1 : Ed) : Prop := entered s bs s1 /\ listening s1.

Lemma entered_quiet s bs s1 s2 : entered s bs s1 -> quiet s2 = quiet s1 -> at_ease s2 -> entered s bs s2.
Proof.
  intros [He Hm Hc Hd Hf] H Hs2. split; [done|by rewrite (f_equal cmd_mode H : cmd_mode s2 = cmd_mode s1)| | |].
  - unfold inserted in *. rewrite <- Hc. apply contents_same; [exact (f_equal text H)|exact (f_equal endp H)|exact (f_equal mem H)].
  - unfold off in *. by rewrite (f_equal dot H : dot s2 = dot s1), (f_equal text H : text s2 = text s1).
  - rewrite <- Hf. exact (f_equal tyframe H).
Qed.
Lemma entered_from s0 s bs s1 : contents s0 = contents s -> off s0 (dot s0) = off s (dot s) -> tyframe s0 = tyframe s ->
  entered s0 bs s1 -> entered s bs s1.
Proof. intros Hc Hd Hf []. unfold inserted in *. split; unfold inserted; congruence. Qed.
Lemma listening_keysof s s' : listening s -> at_ease s' -> keysof s' = keysof s -> listening s'.
Proof. intros [_ Hq Hr Ht] He [= _ _ Eq Er Et]. by split; rewrite ?Eq, ?Er, ?Et. Qed.
Lemma awaits_keysof rest s s' : keysof s' = keysof s -> awaits rest s -> awaits rest s'.
Proof. intros [= Erb Ei _ _ _]. by apply awaits_same. Qed.

(** get_one_char() and save_line() in any mode *)
Lemma wp_read_turn E c s (P : Ed -> Prop) (k : Z -> EM unit) (Q : unit -> Ed -> Prop) : listening s ->
  wpe E readit (fun c' s' => c' = c /\ set_readbuffer [] (set_input [] s') = set_readbuffer [] (set_input [] s) /\ P s') s ->
  (forall s1 s2, P s1 -> readbuffer s2 = readbuffer s1 -> input s2 = input s1 -> P s2) ->
  (forall s', listening s' -> quiet s' = quiet s -> P s' -> wpe E (k c) Q s') ->
  wpe E (c <- get_one_char ;; save_line ;; k c) Q s.
Proof.
  intros Hl Hr HP HQ. wp_step. eapply wp_get_recorded; [by apply li_replay|exact Hr|].
  intros c' s1 s2 (-> & H & Hp) Hrb Hi Hreg Hrt Hqu. wp_step.
  assert (Hq1 : quiet s2 = quiet s) by (rewrite Hqu; exact (f_equal quiet H)).
  assert (Hl2 : listening s2).
  { apply (listening_quiet s); [done|done| |].
    - rewrite Hreg, (f_equal reg H : reg s1 = reg s). by apply li_reg.
    - rewrite Hrt, (f_equal regtype H : regtype s1 = regtype s). by apply li_regtype. }
  apply wp_save_line; [done|]. intros s3 Hl3 Hq3 _ Hrb3 Hi3. apply HQ; [done|congruence|].
  apply (HP s2); [by apply (HP s1)|done|done].
Qed.
Lemma wp_read_next E c rest s : next_key c rest s ->
  wpe E readit (fun c' s' => c' = c /\ set_readbuffer [] (set_input [] s') = set_readbuffer [] (set_input [] s) /\ awaits rest s') s.
Proof. intros (s' & Hr & Hf & Hi & H). by apply (wpe_ok _ _ _ _ _ _ Hr). Qed.

Lemma wp_start_turn E rest s (Q : unit -> Ed -> Prop) : prompt s -> next_key (ch "i") rest s ->
  (forall s', typing s [] s' -> awaits rest s' -> Q tt s') -> wpe E edit_turn Q s.
Proof.
  intros [Hl [Hmode _]] Hk HQ. unfold edit_turn.
  apply (wp_read_turn E (ch "i") s (awaits rest)); [done|by apply wp_read_next|by intros; eapply awaits_same|].
  intros s1 Hl1 Hq1 Ha1. wp_step. unfold remember_cmd. do 2 wp_step.
  assert (Hcmd : forall s2, quiet (set_dotcnt 0 s2) = quiet (set_dotcnt 0 s1) -> keysof s2 = keysof s1 ->
    wpe E (s <- get ;;
      let vis := if negb (vi_visual s =? 0) then Some (order (vi_visual_anchor s) (dot s)) else None in
      do_cmd (ch "i") ;; update_display vis) Q s2).
  { intros s2 Hq2 Hk2. assert (He2 : at_ease s2).
    { apply (ease_vars s1); [by apply li_ease|exact (f_equal core Hq2)|exact (f_equal dot Hq2)|exact (f_equal screenbegin Hq2)|
        exact (f_equal offset Hq2)|exact (f_equal screen Hq2)|exact (f_equal mark Hq2)|exact (f_equal have_status_msg Hq2)|
        exact (f_equal status_buffer Hq2)]. }
    assert (Hq : quiet (set_dotcnt 0 s2) = quiet (set_dotcnt 0 s)) by (rewrite Hq2; exact (f_equal (set_dotcnt 0) Hq1)).
    do 2 wp_step. rewrite (ae_vis s2 He2). cbn [negb Z.eqb]. cbv zeta. wp_step.
    change (do_cmd (ch "i")) with (do_cmd_with (do_cmd_depth 1) (ch "i")).
    apply wp_begin_insert; [done|by rewrite (f_equal cmd_mode Hq : cmd_mode s2 = cmd_mode s)|].
    intros s3 Hen3 Hk3. apply wp_update_display; [by destruct Hen3|]. intros s4 Hm4 Hf4.
    assert (Hk4 : keysof s4 = keysof s1) by (by rewrite (keysof_moved s3), Hk3).
    pose proof (moved_ease _ _ Hm4) as He4.
    apply HQ; [|by apply (awaits_keysof rest s1)]. split; [|by apply (listening_keysof s1)].
    apply (entered_moved s [] s3); [|done|exact (f_equal dot Hf4)].
    apply (entered_from s2); [|unfold off|exact (f_equal tyframe Hq)|done].
    - apply contents_same; [exact (f_equal text Hq)|exact (f_equal endp Hq)|exact (f_equal mem Hq)].
    - by rewrite (f_equal dot Hq : dot s2 = dot s), (f_equal text Hq : text s2 = text s). }
  wp_step.
  - unfold start_new_cmd_q. wp_step. by apply Hcmd.
  - by apply Hcmd.
Qed.
(** a turn in insert mode, up to its command *)
Lemma wp_typing_turn E c s bs s1 (P : Ed -> Prop) (Q : unit -> Ed -> Prop) : typing s bs s1 ->
  wpe E readit (fun c' s' => c' = c /\ set_readbuffer [] (set_input [] s') = set_readbuffer [] (set_input [] s1) /\ P s') s1 ->
  (forall s1 s2, P s1 -> readbuffer s2 = readbuffer s1 -> input s2 = input s1 -> P s2) ->
  (forall s2, typing s bs s2 -> P s2 -> wpe E (do_cmd c ;; update_display None) Q s2) -> wpe E edit_turn Q s1.
Proof.
  intros [Hen Hl] Hr HP HQ. unfold edit_turn. apply (wp_read_turn E c s1 P); [done..|].
  intros s2 Hl2 Hq2 Hp2. pose proof (entered_quiet s bs s1 s2 Hen Hq2 (li_ease s2 Hl2)) as Hen2.
  wp_step. unfold remember_cmd. do 2 wp_step. rewrite (en_mode _ _ _ Hen2). change (1 =? 0) with false.
  rewrite !andb_false_r. cbn [andb]. unfold when. do 3 wp_step.
  rewrite (ae_vis s2 (li_ease s2 Hl2)). cbn [negb Z.eqb]. cbv zeta. by apply HQ.
Qed.
Lemma wp_type_turn E c rest s bs s1 (Q : unit -> Ed -> Prop) : at_ease s -> good_alloc s -> plain_options s -> typing s bs s1 ->
  plain_key c -> endp s - text s + zlen bs + 1 < 2 ^ 25 -> next_key c rest s1 ->
  (forall s', typing s (bs ++ [typed c]) s' -> awaits rest s' -> Q tt s') -> wpe E edit_turn Q s1.
Proof.
  intros Hs Hal Hopt Hty Hc Hsz Hk HQ. apply (wp_typing_turn E c s bs s1 (awaits rest)); [done|by apply wp_read_next|by intros; eapply awaits_same|].
  intros s2 [Hen2 Hl2] Ha2. wp_step. change (do_cmd c) with (do_cmd_with (do_cmd_depth 1) c).
  apply (wp_typed_key s Hs Hal Hopt E _ c bs s2); [done..|]. intros s3 Hen3 Hk3.
  apply wp_update_display; [by destruct Hen3|]. intros s4 Hm4 Hf4. pose proof (moved_ease _ _ Hm4).
  assert (Hk4 : keysof s4 = keysof s2) by (by rewrite (keysof_moved s3), Hk3).
  apply HQ; [|by apply (awaits_keysof rest s2)]. split; [|by apply (listening_keysof s2)].
  apply (entered_moved s _ s3); [done|done|exact (f_equal dot Hf4)].
Qed.
(** ESC with the next byte [c] already behind it *)
Lemma wp_escape_turn E c rest s bs s1 (Q : unit -> Ed -> Prop) : plain_options s -> typing s bs s1 ->
  0 <= c < 256 -> ~ In c esc_firsts -> awaits (Key 27 :: Key c :: rest) s1 ->
  (forall s', inserted_text s bs s' -> prompt s' -> saved c rest s' -> Q tt s') -> wpe E edit_turn Q s1.
Proof.
  intros Hopt Hty Hc Hn Ha HQ. apply (wp_typing_turn E 27 s bs s1 (saved c rest)); [done| | |].
  - by apply (wp_read_esc _ _ c rest).
  - intros s2 s3 (Hl & H0 & H1 & Hi) Hrb Hi'. unfold saved. by rewrite Hrb, Hi'.
  - intros s2 [Hen2 Hl2] Hs2. wp_step. change (do_cmd 27) with (do_cmd_with (do_cmd_depth 1) 27).
    apply (wp_escape_key E _ s bs s2); [done..|]. intros s3 [He3 Hn3 Hc3 Hcon3 Hd3 Hf3] Hk3.
    apply wp_update_display; [done|]. intros s4 Hm4 Hf4. pose proof (moved_ease _ _ Hm4) as He4.
    assert (Hk4 : keysof s4 = keysof s2) by (by rewrite (keysof_moved s3), Hk3). apply HQ.
    + split; [done|by eapply moved_normal|by rewrite (f_equal cmdcnt Hf4 : cmdcnt s4 = cmdcnt s3)| | |].
      * unfold inserted in *. by rewrite (contents_moved s3).
      * rewrite (contents_moved s3) by done. rewrite <- Hd3. unfold off. by rewrite (f_equal dot Hf4 : dot s4 = dot s3), (moved_text s3).
      * rewrite <- Hf3. apply tyframe_mvframe. by destruct Hm4.
    + split; [by apply (listening_keysof s2)|by eapply moved_normal].
    + injection Hk4 as Erb Ei _ _ _. unfold saved in *. by rewrite Erb, Ei.
Qed.

(** ** Leaving with ":wq" *)
(** characters of a command line, and the return that ends it *)
Definition line_char (c : Z) : Prop := 32 <= c < 127.
Lemma went_vars s s' : prompt s -> core s' = core s -> dot s' = dot s -> screenbegin s' = screenbegin s -> offset s' = offset s ->
  screen s' = screen s -> mark s' = mark s -> have_status_msg s' = have_status_msg s -> status_buffer s' = status_buffer s ->
  loframe s' = loframe s -> keysof s' = keysof s -> went s s'.
Proof.
  intros [Hl [Hm Ha]] ? ? ? ? ? ? ? ? H Hk. split; [|done]. split.
  - apply (listening_keysof s); [done| |done]. apply (ease_vars s); try done. by apply li_ease.
  - by split; [rewrite (f_equal cmd_mode H : cmd_mode s' = _)|rewrite (f_equal adding2q H : adding2q s' = _)].
Qed.
Lemma went_status s n : prompt s -> went s (set_last_status_cksum n s).
Proof. intros Hp. apply went_vars; first [exact Hp|reflexivity]. Qed.
Lemma loframe_oframe s s' : oframe s' = oframe s -> loframe s' = loframe s.
Proof. intros H. exact (f_equal loframe (mvframe_pframe _ _ (pframe_lframe _ _ (lframe_oframe _ _ H)))). Qed.
Lemma went_puts s bs : prompt s -> went s (set_out (out s ++ bs) s).
Proof. intros Hp. apply went_vars; [exact Hp| | | | | | | | |by apply loframe_oframe|]; reflexivity. Qed.
Lemma wp_went_puts E s bs rest (Q : unit -> Ed -> Prop) : prompt s -> awaits rest s ->
  (forall s', went s s' -> awaits rest s' -> Q tt s') -> wpe E (puts_no_eol bs) Q s.
Proof. intros Hp Ha HQ. apply wp_puts. apply HQ; [by apply went_puts|by apply (awaits_same rest s)]. Qed.
Lemma wp_went_bottom E s rest (Q : unit -> Ed -> Prop) : prompt s -> awaits rest s ->
  (forall s', went s s' -> awaits rest s' -> Q tt s') -> wpe E go_bottom_and_clear_to_eol Q s.
Proof.
  intros Hp Ha HQ. unfold go_bottom_and_clear_to_eol, clear_to_eol, place_cursor. do 5 wp_step. cbv zeta.
  apply (wp_went_puts _ _ _ rest); [done..|]. intros s1 Hw1 Ha1. destruct (Hw1) as [Hp1 _].
  apply (wp_went_puts _ _ _ rest); [done..|]. intros s2 Hw2 Ha2. apply HQ; [by eapply went_trans|done].
Qed.
Lemma wp_input_char E buf c rest s (Q : list Z + list Z -> Ed -> Prop) : prompt s -> zlen buf < MAX_INPUT_LEN - 1 ->
  line_char c \/ c = 13 -> awaits (Key c :: rest) s ->
  (forall s', went s s' -> awaits rest s' -> Q (if c =? 13 then inr buf else inl (buf ++ [c])) s') -> wpe E (input_line_body buf) Q s.
Proof.
  intros Hp Hl Hc Ha HQ. unfold line_char in Hc. unfold input_line_body. replace (zlen buf <? MAX_INPUT_LEN - 1) with true by lia. wp_step.
  apply (wp_get_key _ _ c rest); [done|by apply next_byte; [lia|lia|]|]. intros s1 Hw1 Ha1 _.
  destruct (Z.eqb_spec c 13) as [->|]; [cbn [Z.eqb Pos.eqb orb]; wp_step; by apply HQ|].
  replace ((c =? 10) || false || (c =? 27)) with false by lia. replace ((c =? 8) || (c =? 127)) with false by lia.
  replace ((0 <? c) && (c <? 256)) with true by lia. wp_step. unfold putchar. apply wp_puts. wp_step.
  destruct (Hw1) as [Hp1 _]. apply HQ; [|by apply (awaits_same rest s1)]. eapply went_trans; [exact Hw1|by apply went_puts].
Qed.
Lemma wp_input_line_loop E cs : Forall line_char cs -> forall buf rest fuel s (Q : list Z -> Ed -> Prop), prompt s ->
  awaits (map Key (cs ++ [13]) ++ rest) s -> (length buf + length cs < 127)%nat -> (length cs < fuel)%nat ->
  (forall s', went s s' -> awaits rest s' -> Q (buf ++ cs) s') -> wpe E (iter fuel input_line_body buf) Q s.
Proof.
  induction 1 as [|c cs Hc Hcs IH]; intros buf rest fuel s Q Hp Ha Hlen Hfuel HQ;
    (destruct fuel as [|fuel]; [simpl in Hfuel; lia|]); cbn [iter length app map] in *; wp_step.
  - apply (wp_input_char _ _ 13 rest); [done|unfold zlen, MAX_INPUT_LEN; lia|by right|done|].
    intros s1 Hw1 Ha1. cbn [Z.eqb Pos.eqb]. wp_step. rewrite app_nil_r in HQ. by apply HQ.
  - apply (wp_input_char _ _ c (map Key (cs ++ [13]) ++ rest)); [done|unfold zlen, MAX_INPUT_LEN; lia|by left|done|].
    intros s1 Hw1 Ha1. unfold line_char in Hc. replace (c =? 13) with false by lia. destruct (Hw1) as [Hp1 _].
    apply (IH _ rest); [done|done|rewrite length_app; simpl; lia|lia|]. intros s2 Hw2 Ha2.
    rewrite <- app_assoc. apply HQ; [by eapply went_trans|done].
Qed.
Lemma wp_get_input_line E cs rest prompt0 s (Q : list Z -> Ed -> Prop) : prompt s -> Forall line_char cs ->
  (length prompt0 + length cs < 127)%nat -> awaits (map Key (cs ++ [13]) ++ rest) s ->
  (forall s', went s s' -> awaits rest s' -> Q (prompt0 ++ cs) s') -> wpe E (get_input_line prompt0) Q s.
Proof.
  intros Hp Hcs Hlen Ha HQ. unfold get_input_line. do 3 wp_step. set (s1 := set_last_status_cksum 0 s).
  assert (Hw1 : went s s1) by (by apply went_status). destruct (Hw1) as [Hp1 _].
  apply (wp_went_bottom _ s1 (map Key (cs ++ [13]) ++ rest)); [done|by apply (awaits_same _ s)|]. intros s2 Hw2 Ha2. destruct (Hw2) as [Hp2 _].
  wp_step. apply (wp_went_puts _ s2 _ (map Key (cs ++ [13]) ++ rest)); [done..|]. intros s3 Hw3 Ha3. destruct (Hw3) as [Hp3 _].
  do 3 wp_step. apply (wp_input_line_loop _ cs Hcs _ rest); [done|done|done| |].
  { unfold chars_left. destruct Ha3 as [_ ->]. rewrite length_app, length_map, length_app. lia. }
  intros s4 Hw4 Ha4. destruct (Hw4) as [Hp4 _]. wp_step. apply displays_refresh; [by apply prompt_ease|]. intros s5 Hm5 _. wp_step.
  apply HQ; [|by eapply awaits_moved].
  exact (went_trans _ _ _ Hw1 (went_trans _ _ _ Hw2 (went_trans _ _ _ Hw3 (went_trans _ _ _ Hw4 (went_moved _ _ Hp4 Hm5))))).
Qed.

(** the state that left with ":wq" *)
Definition saving (fn : list Z) (s s' : Ed) : Prop := exists n,
  went (set_editing 0 (set_modified_count 0 (set_files (write_file fn (contents s) n (files s)) s))) s'.
Lemma saving_trans fn s1 s2 s3 : went s1 s2 -> saving fn s2 s3 -> saving fn s1 s3.
Proof.
  intros [_ H1] (n & H2 & H3). exists n. split; [done|]. rewrite H3.
  assert (Hc : contents s2 = contents s1) by (apply contents_same; [exact (f_equal text H1)|exact (f_equal endp H1)|exact (f_equal mem H1)]).
  rewrite Hc, (f_equal files H1 : files s2 = files s1).
  exact (f_equal (fun x => set_editing 0 (set_modified_count 0 (set_files (write_file fn (contents s1) n (files s1)) x))) H1).
Qed.
Lemma ease_written s b F : at_ease s -> zlen b < columns s ->
  at_ease (set_editing 0 (set_last_modified_count (-1) (set_modified_count 0 (set_have_status_msg 1 (set_status_buffer b (set_files F s)))))).
Proof.
  intros Hs Hb. pose proof (ease_dot s Hs). pose proof (ease_sb s Hs). pose proof (ease_geo s Hs) as [_ Hcols _ ? _].
  apply (ease_same s); [done|reflexivity|done|done|done|reflexivity|by apply (ae_marks s)|].
  right. simpl. assert (0 <= zlen b) by (unfold zlen; lia). change (MAX_SCR_COLS) with 4096 in Hcols. rewrite u32_small by lia. lia.
Qed.
Lemma wp_colon_save E s fn (Q : unit -> Ed -> Prop) : prompt s -> current_filename s = Some fn -> file_takes s fn ->
  argc s - vi_optind s <= 1 -> message_room fn < columns s ->
  (forall s', saving fn s s' -> keysof s' = keysof s -> Q tt s') -> wpe E (colon (58 :: str "wq")) Q s.
Proof.
  intros Hp Hfn Htk Hj Hroom HQ. pose proof (prompt_ease s Hp) as Hs. pose proof (ease_wf s Hs) as Hwf.
  change (colon (58 :: str "wq")) with (colon (write_word true)).
  apply (wp_colon_write E s fn true); [done|by apply ease_dot|done|done|done|].
  intros n s' (b & Hb & ->). assert (Hlen : zlen (contents s) < 10 ^ 10).
  { rewrite (length_contents s Hwf). destruct (ae_draw s Hs). lia. }
  specialize (Hb Hlen). unfold maybe_left. apply HQ; [|reflexivity]. exists n. destruct Hp as [Hl Hn].
  set (s2 := set_editing 0 _). split; [|reflexivity]. split; [|exact Hn].
  apply (listening_keysof s); [done| |reflexivity]. apply ease_written; [done|lia].
Qed.
Lemma saving_went fn s1 s2 s3 : saving fn s1 s2 -> went s2 s3 -> saving fn s1 s3.
Proof. intros (n & H1) H2. exists n. by eapply went_trans. Qed.
Lemma wp_save_turn E s fn rest (Q : unit -> Ed -> Prop) : prompt s -> current_filename s = Some fn -> file_takes s fn ->
  argc s - vi_optind s <= 1 -> message_room fn < columns s -> next_key 58 (map Key (str "wq" ++ [13]) ++ rest) s ->
  (forall s', saving fn s s' -> awaits rest s' -> Q tt s') -> wpe E edit_turn Q s.
Proof.
  intros Hp Hfn Htk Hj Hroom Hk HQ. apply (wp_turn _ 58 (map Key (str "wq" ++ [13]) ++ rest)); [done..|].
  intros s1 Hw1 Ha1 _. destruct (Hw1) as [Hp1 _]. wp_step.
  change (do_cmd 58) with (do_cmd_with (do_cmd_depth 1) 58).
  apply wp_do_cmd_begin; [by apply prompt_ease|by destruct Hp1 as [_ []]|]. intros s2 Hm2 _.
  pose proof (went_trans _ _ _ Hw1 (went_moved _ _ Hp1 Hm2)) as Hw2. destruct (Hw2) as [Hp2 _].
  change (cmd_switch _ 58) with (bind (get : EM Ed) (fun _ => cmd_colon)). do 2 wp_step. unfold cmd_colon. wp_step.
  apply (wp_get_input_line _ (str "wq") rest); [done|repeat constructor; unfold line_char; lia|simpl; lia|by eapply awaits_moved|].
  intros s3 Hw3 Ha3. pose proof (went_trans _ _ _ Hw2 Hw3) as Hw13. destruct (Hw13) as [Hp3 Hl3]. wp_step.
  change ([58] ++ str "wq") with (58 :: str "wq"). apply (wp_colon_save _ s3 fn); [done| | | | |].
  - by rewrite (f_equal current_filename Hl3 : current_filename s3 = current_filename s).
  - unfold file_takes in *. by rewrite (f_equal files Hl3 : files s3 = files s), (f_equal env Hl3 : env s3 = env s),
      (f_equal text Hl3 : text s3 = text s), (f_equal endp Hl3 : endp s3 = endp s).
  - by rewrite (f_equal argc Hl3 : argc s3 = argc s), (f_equal vi_optind Hl3 : vi_optind s3 = vi_optind s).
  - by rewrite (f_equal columns Hl3 : columns s3 = columns s).
  - intros s4 Hs4 Hk4. assert (Ha4 : awaits rest s4) by (by apply (awaits_keysof rest s3)).
    pose proof Hs4 as (n & Hp4 & _). wp_step. apply wp_ease_status; [by apply prompt_ease|]. intros s5 Hm5 _.
    destruct (went_moved _ _ Hp4 Hm5) as [Hp5 _]. wp_step. unfold leave. do 4 wp_step.
    apply wp_finish_ease; [by apply prompt_ease|]. intros s6 Hm6 _ _. destruct (went_moved _ _ Hp5 Hm6) as [Hp6 _].
    apply wp_update_display; [by apply prompt_ease|]. intros s7 Hm7 _.
    apply HQ; [|exact (awaits_moved _ _ _ Hm7 (awaits_moved _ _ _ Hm6 (awaits_moved _ _ _ Hm5 Ha4)))].
    apply (saving_trans fn s s3); [done|]. apply (saving_went fn s3 s4); [done|].
    exact (went_trans _ _ _ (went_moved _ _ Hp4 Hm5) (went_trans _ _ _ (went_moved _ _ Hp5 Hm6) (went_moved _ _ Hp6 Hm7))).
Qed.
