(* ===== verification/EvimSession.v ===== *)
(** * evim: whole sessions

    The theorems about the loop of edit_file() and about main(): a session is
    the bytes of its keystrokes, and the loop reads, decodes and runs them one
    turn at a time, from a fresh buffer to the command that leaves it. *)
From S2P Require Import Prelude EvimState EvimLine EvimSyntax EvimInput EvimTerm EvimEdit EvimEx EvimCmd EvimMain.
From S2P Require Import EvimNav EvimHole EvimUndo EvimColor EvimFormat EvimRefresh EvimDisplay EvimStatus.
From S2P Require Import EvimPop EvimDemo EvimEditProps EvimMotion EvimWalk EvimErase EvimTurn EvimInputProps EvimFileProps.
From S2P Require Import EvimExProps EvimCmdProps EvimTyping EvimLoop EvimTypeLoop.

(** ** The loop *)
Lemma wp_more_turn E fuel s (Q : unit -> Ed -> Prop) : 0 < editing s ->
  wpe E edit_turn (fun _ s' => wpe E (iter fuel edit_body tt) Q s') s -> wpe E (iter (S fuel) edit_body tt) Q s.
Proof.
  intros Hed HQ. cbn [iter]. wp_step. unfold edit_body at 1. do 2 wp_step. replace (0 <? editing s) with true by lia. wp_step.
  eapply wpe_mono; [exact HQ|]. intros [] s' H. by wp_step.
Qed.
Lemma wp_last_turn E fuel s (Q : unit -> Ed -> Prop) : 0 < editing s ->
  wpe E edit_turn (fun _ s' => editing s' = 0 /\ Q tt s') s -> wpe E (iter (S (S fuel)) edit_body tt) Q s.
Proof.
  intros Hed HQ. apply wp_more_turn; [done|]. eapply wpe_mono; [exact HQ|]. intros [] s' [He H].
  cbn [iter]. wp_step. unfold edit_body at 1. do 2 wp_step. rewrite He. cbn [Z.ltb Z.compare]. do 2 wp_step. exact H.
Qed.

(** motions and counts, one list of bytes for each key *)
Definition viewing (cs : list Z) (strokes : list (list Z)) : Prop :=
  motion_input 0 cs = true /\ Forall2 keystroke cs strokes.
Lemma wp_motion_turns E cs strokes : Forall2 keystroke cs strokes -> forall n s fuel rest (Q : unit -> Ed -> Prop),
  prompt s -> 0 <= cmdcnt s < 10 ^ Z.of_nat n -> (n <= 9)%nat -> motion_input n cs = true -> 0 < editing s ->
  awaits (map Key (concat strokes) ++ rest) s ->
  (forall s', went s s' -> awaits rest s' -> wpe E (iter fuel edit_body tt) Q s') ->
  wpe E (iter (length cs + fuel) edit_body tt) Q s.
Proof.
  induction 1 as [|c bs cs strokes Hst Hsts IH]; intros n s fuel rest Q Hp Hn Hn9 Hin Hed Ha HQ; cbn [length Nat.add concat map app] in *.
  { apply HQ; [by apply went_refl|done]. }
  apply wp_more_turn; [done|]. rewrite map_app, <- app_assoc in Ha.
  assert (Hcnt : counted s) by (unfold counted; pose proof (Z.pow_le_mono_r 10 (Z.of_nat n) 9); lia).
  pose proof (next_stroke c bs _ s Hst Ha) as Hk. cbn [motion_input] in Hin.
  assert (Hnext : forall s' k, went s s' -> awaits (map Key (concat strokes) ++ rest) s' -> 0 <= cmdcnt s' < 10 ^ Z.of_nat k -> (k <= 9)%nat ->
    motion_input k cs = true -> wpe E (iter (length cs + fuel) edit_body tt) Q s').
  { intros s' k Hw Ha' Hk' Hk9 Hin'. destruct (Hw) as [Hp' Hl]. apply (IH k s' fuel rest); [done..| |done|].
    - by rewrite (f_equal editing Hl : editing s' = editing s).
    - intros s'' Hw'. apply HQ. by eapply went_trans. }
  destruct (isdigit c) eqn:Hd; apply andb_true_iff in Hin as [Hk1 Hin].
  - assert (n < 9)%nat by (by apply Nat.ltb_lt). pose proof (Z.pow_le_mono_r 10 (Z.of_nat n) 8).
    apply (wp_motion_turn _ c (map Key (concat strokes) ++ rest)); [done|done|left; split; [done|lia]|done|].
    intros s' Hw Ha' Hc'. rewrite Hd in Hc'. apply (Hnext s' (S n)); [done|done| |lia|done].
    unfold isdigit in Hd. rewrite Nat2Z.inj_succ, Z.pow_succ_r by lia. lia.
  - apply (wp_motion_turn _ c (map Key (concat strokes) ++ rest)); [done|done|right|done|].
    { unfold is_key in Hk1. apply existsb_exists in Hk1 as (x & Hx & Hcx). apply Z.eqb_eq in Hcx. by subst x. }
    intros s' Hw Ha' Hc'. rewrite Hd in Hc'. apply (Hnext s' 0%nat); [done|done|rewrite Hc'; done|lia|done].
Qed.
Lemma wp_type_turns E s cs : at_ease s -> good_alloc s -> plain_options s -> Forall plain_key cs ->
  forall bs s1 fuel rest (Q : unit -> Ed -> Prop), typing s bs s1 -> 0 < editing s -> endp s - text s + zlen bs + zlen cs < 2 ^ 25 ->
  awaits (map Key cs ++ rest) s1 ->
  (forall s', typing s (bs ++ map typed cs) s' -> awaits rest s' -> wpe E (iter fuel edit_body tt) Q s') ->
  wpe E (iter (length cs + fuel) edit_body tt) Q s1.
Proof.
  intros Hs Hal Hopt. induction 1 as [|c cs Hc Hcs IH]; intros bs s1 fuel rest Q Hty Hed Hsz Ha HQ; cbn [length Nat.add map app] in *.
  { rewrite app_nil_r in HQ. by apply HQ. }
  assert (Hcl : zlen (c :: cs) = 1 + zlen cs) by (unfold zlen; cbn [length]; lia).
  assert (0 <= zlen cs) by (unfold zlen; lia). destruct (Hty) as [[_ _ _ _ Hf] _].
  apply wp_more_turn; [by rewrite (f_equal editing Hf : editing s1 = editing s)|].
  assert (Hk : next_key c (map Key cs ++ rest) s1).
  { destruct Hc as [Hr Hn]. simpl in Hn. apply next_byte; [lia|lia|done]. }
  apply (wp_type_turn E c (map Key cs ++ rest) s bs s1); [done..|lia|done|]. intros s2 Hty2 Ha2.
  assert (Hb : zlen (bs ++ [typed c]) = zlen bs + 1) by (unfold zlen; rewrite length_app; cbn [length]; lia).
  apply (IH (bs ++ [typed c]) s2 fuel rest); [done|done|lia|done|]. intros s3 Hty3. rewrite <- app_assoc in Hty3. by apply HQ.
Qed.
(** ** Opening a file *)
(** what a session of moving and quitting never changes *)
Definition outside (s : Ed) := (rows s, columns s, tabstop s, files s, env s, argc s, vi_optind s).
(** ready to open a file *)
Record ready (s : Ed) : Prop := mkReady {
  rd_rows : 2 <= rows s <= MAX_SCR_ROWS;
  rd_cols : 2 <= columns s <= MAX_SCR_COLS;
  rd_tab : 2 <= tabstop s <= MAX_TABSTOP;
  rd_msg : settled s;
  rd_queue : undo_q s = 0;
  rd_qwf : qwf s;
  rd_alloc : good_alloc s;
  rd_keys : fresh_keys s;
  rd_reg : zlen (reg s) = 28;
  rd_regtype : zlen (regtype s) = 28
}.
(** a file that can be read and ends in a newline *)
Definition viewable (fs : list file) (fn data : list Z) : Prop :=
  exists f, find_file fn fs = Some f /\ f_readable f = true /\ f_read f = Some data /\ f_size f = zlen data /\
    zlen data < 2 ^ 25 /\ exists d, data = d ++ [10].

Lemma wp_new_screen E ro co s (Q : unit -> Ed -> Prop) : 2 <= ro -> 2 <= co ->
  (forall sc, zlen sc = ro * co + 8 -> Q tt (set_screen sc s)) -> wpe E (new_screen ro co) Q s.
Proof.
  intros Hr Hc HQ. unfold new_screen. do 2 wp_step.
  eapply wpe_mono; [apply (wpe_repeat E (fun _ s' => exists sc, zlen sc = ro * co + 8 /\ s' = set_screen sc s))|].
  - intros j ? Hj (sc & Hsc & ->). unfold wpe, wr_screen. simpl screen. change (zlen [126]) with 1.
    rewrite (proj2 (Z.leb_le _ _)), (proj2 (Z.leb_le _ _)) by nia. cbn [andb]. eexists. split; [|reflexivity].
    rewrite <- Hsc. unfold zlen. f_equal. apply length_splice. unfold zlen in *. simpl. nia.
  - eexists. split; [|reflexivity]. unfold zlen. rewrite length_replicate. nia.
  - intros [] ? (sc & Hsc & ->). by apply HQ.
Qed.
Lemma loaded_last d s : wf s -> contents s = d ++ [10] -> getb s (endp s - 1) = 10.
Proof.
  intros Hwf Hc. pose proof (length_contents s Hwf) as Hl. rewrite Hc in Hl. unfold zlen in Hl. rewrite length_app in Hl. simpl in Hl.
  pose proof (getb_contents s (endp s - 1) Hwf ltac:(lia)) as Hg. rewrite Hc in Hg.
  replace (off s (endp s - 1)) with (length d) in Hg by (unfold off; lia).
  rewrite lookup_app_r, Nat.sub_diag in Hg by done. by injection Hg.
Qed.

(** the state when the file is loaded, before it is drawn *)
Lemma opened_prompt s d s1 m : ready s -> loaded (d ++ [10]) s1 -> zlen (d ++ [10]) < 2 ^ 25 -> bframe s1 = bframe s -> undo_q s1 = undo_q s ->
  zlen (screen s1) = rows s1 * columns s1 + 8 -> length m = 28%nat ->
  prompt (set_crow 0 (set_ccol 0 (set_cmd_mode 0 (set_vi_visual 0 (set_vi_visual_anchor 0 (set_cmdcnt 0 (set_offset 0
    (set_ioq_start false (set_adding2q false (set_mark m (set_YDreg 26 s1))))))))))).
Proof.
  intros [Hr Hc Ht Hmsg Hq _ _ Hk Hreg Hrt] (Hwf & _ & Hcon & Hd & Hsb & _) Hsz Hb Huq Hsc Hm.
  pose proof (length_contents s1 Hwf) as Hl. rewrite Hcon in Hl.
  assert (Hpos : 0 < zlen (d ++ [10])) by (unfold zlen; rewrite length_app; simpl; lia).
  assert (Hwf' : forall x, text x = text s1 -> endp x = endp s1 -> text_size x = text_size s1 -> mem x = mem s1 -> wf x).
  { intros x ? ? ? ?. by apply (wf_same s1). }
  split; [split|by split]; [|done|simpl; by rewrite (f_equal reg Hb : reg s1 = reg s)|simpl; by rewrite (f_equal regtype Hb : regtype s1 = regtype s)].
  split; try done.
  - split; [by apply Hwf'| | | |]; unfold in_text; simpl; try lia.
    split; simpl; [| | |lia|done]; by rewrite ?(f_equal rows Hb : rows s1 = rows s), ?(f_equal columns Hb : columns s1 = columns s),
      ?(f_equal tabstop Hb : tabstop s1 = tabstop s).
  - simpl. lia.
  - simpl. lia.
  - split; [simpl; lia|]. exact (loaded_last d s1 Hwf Hcon).
  - simpl. congruence.
  - unfold settled in *. simpl.
    by rewrite (f_equal have_status_msg Hb : have_status_msg s1 = have_status_msg s),
      (f_equal status_buffer Hb : status_buffer s1 = status_buffer s), (f_equal columns Hb : columns s1 = columns s).
Qed.
Lemma outside_moved s s' : moved s s' -> outside s' = outside s.
Proof. intros [_ H]. exact (f_equal outside H). Qed.
Lemma outside_went s s' : went s s' -> outside s' = outside s.
Proof. intros [_ H]. exact (f_equal outside H). Qed.

Lemma ready_again s s' : ready s -> outside s' = outside s -> settled s' -> undo_q s' = 0 -> qwf s' -> fresh_keys s' ->
  zlen (reg s') = 28 -> zlen (regtype s') = 28 -> ready s'.
Proof.
  intros [Hr Hc Ht _ _ _ Hal _ _ _] [= Er Ec Et _ Ee _ _] ? ? ? ? ? ?. split; rewrite ?Er, ?Ec, ?Et; try done.
  by apply (good_alloc_same s).
Qed.
Lemma ready_out o s : ready s -> ready (set_out o s).
Proof.
  intros Hr. destruct (Hr) as [_ _ _ ? ? Hq _ ? ? ?]. apply (ready_again s); try done. by apply (qwf_same s).
Qed.
(** the file is loaded, the cursor at its start *)
Record opened (s : Ed) (fn data : list Z) (s' : Ed) : Prop := mkOpened {
  op_prompt : prompt s';
  op_qwf : qwf s';
  op_con : contents s' = data;
  op_dot : dot s' = text s';
  op_outside : outside s' = outside s;
  op_awaits : forall rest, awaits rest s -> awaits rest s';
  op_cnt : cmdcnt s' = 0;
  op_editing : editing s' = 1;
  op_modified : modified_count s' = 0;
  op_name : current_filename s' = Some fn;
  op_options : vi_setops s' = vi_setops s
}.
Lemma wp_edit_file_init E s fn data (Q : unit -> Ed -> Prop) : ready s -> viewable (files s) fn data ->
  (forall s', opened s fn data s' -> Q tt s') -> wpe E (edit_file_init (Some fn)) Q s.
Proof.
  intros Hr (f & Hff & Hrd & Hdata & Hsz & Hlt & d & Hd) HQ. unfold edit_file_init. do 5 wp_step.
  apply wp_new_screen; [by destruct Hr; simpl; lia..|]. intros sc Hsc. set (s0 := set_screen sc (set_editing 1 s)).
  assert (Hr0 : ready s0).
  { destruct (Hr) as [_ _ _ ? ? Hqw _ ? ? ?]. apply (ready_again s); try done. by apply (qwf_same s). }
  wp_step. apply (wp_init_text_buffer E s0 fn f data); [by apply rd_qwf|by apply rd_alloc|done|done|done|done|lia|].
  intros s1 Hl Hb Hq Hname. rewrite Hd in Hl, Hlt. destruct (Hl) as (_ & Hqw & Hcon & _ & _ & Hmc & _ & _ & Hmk).
  do 5 wp_step. apply wp_set_mark_at; [lia|simpl; by rewrite Hmk|]. wp_step.
  apply wp_set_mark_at; [lia|simpl; by rewrite Hmk|]. wp_step. wp_step.
  assert (Hscr : zlen (screen s1) = rows s1 * columns s1 + 8).
  { by rewrite (f_equal screen Hb : screen s1 = sc), (f_equal rows Hb : rows s1 = rows s),
      (f_equal columns Hb : columns s1 = columns s). }
  match goal with |- wpe _ _ _ (set_crow 0 (set_ccol 0 (set_cmd_mode 0 (set_vi_visual 0 (set_vi_visual_anchor 0 (set_cmdcnt 0
    (set_offset 0 (set_ioq_start false (set_adding2q false ?x))))))))) => set (s2 := x) end.
  assert (Hp : prompt (set_crow 0 (set_ccol 0 (set_cmd_mode 0 (set_vi_visual 0 (set_vi_visual_anchor 0 (set_cmdcnt 0
    (set_offset 0 (set_ioq_start false (set_adding2q false s2)))))))))).
  { apply (opened_prompt s0 d s1); try done. simpl. by rewrite !length_insert, Hmk. }
  match goal with |- wpe _ _ _ ?x => set (s3 := x) in * end.
  apply displays_redraw; [by apply prompt_ease|]. intros s4 Hm4 Hf4. destruct (went_moved _ _ Hp Hm4) as [Hp4 _].
  pose proof (outside_moved _ _ Hm4) as Ho4. destruct Hm4 as [_ Hm4]. apply HQ. split.
  - done.
  - apply (qwf_same s1); [exact (f_equal undo_q Hm4)|exact (f_equal undo_queue Hm4)|exact (f_equal undo_queue_state Hm4)|done].
  - rewrite Hd, <- Hcon. apply contents_same; [exact (f_equal text Hm4)|exact (f_equal endp Hm4)|exact (f_equal mem Hm4)].
  - destruct Hl as (_ & _ & _ & Hdot & _). rewrite (f_equal text Hm4 : text s4 = text s1), <- Hdot. exact (f_equal dot Hf4).
  - rewrite Ho4. exact (f_equal outside Hb).
  - intros rest. apply awaits_same; [rewrite (f_equal readbuffer Hf4 : readbuffer s4 = readbuffer s1); exact (f_equal readbuffer Hb)|].
    rewrite (f_equal input Hf4 : input s4 = input s1). exact (f_equal input Hb).
  - exact (f_equal cmdcnt Hf4).
  - rewrite (f_equal editing Hm4 : editing s4 = editing s1). exact (f_equal editing Hb).
  - by rewrite (f_equal modified_count Hm4 : modified_count s4 = modified_count s1).
  - rewrite (f_equal current_filename Hm4 : current_filename s4 = current_filename s1). exact Hname.
  - rewrite (f_equal vi_setops Hm4 : vi_setops s4 = vi_setops s1). exact (f_equal vi_setops Hb).
Qed.

(** ** edit_file() *)
Lemma ready_session s s1 s2 fn data : ready s -> opened s fn data s1 -> prompt s2 -> fresh_keys s2 ->
  outside s2 = outside s1 -> undo_queue s2 = undo_queue s1 -> undo_queue_state s2 = undo_queue_state s1 -> ready s2.
Proof.
  intros Hr Hop [[Hs2 _ Hreg Hrt] _] Hf Ho Hqu Hqs.
  apply (ready_again s); [done|rewrite Ho; by apply (op_outside _ _ _ _ Hop)|by apply ae_msg|by apply ae_queue| |done..].
  apply (qwf_same s1); [rewrite (ae_queue s2 Hs2); symmetry; apply (ae_queue s1), prompt_ease, (op_prompt _ _ _ _ Hop)|done|done|apply (op_qwf _ _ _ _ Hop)].
Qed.
Lemma wp_edit_file E turns s fn data (Q : unit -> Ed -> Prop) : ready s -> viewable (files s) fn data ->
  (forall s1, opened s fn data s1 -> wpe E (iter turns edit_body tt) (fun _ s2 => forall o, Q tt (set_out o s2)) s1) ->
  wpe E (edit_file turns (Some fn)) Q s.
Proof.
  intros Hr Hv HQ. unfold edit_file. wp_step. apply (wp_edit_file_init _ _ fn data); [done..|]. intros s1 Hop. wp_step.
  eapply wpe_mono; [by apply HQ|]. intros [] s2 H. unfold go_bottom_and_clear_to_eol, place_cursor, clear_to_eol.
  do 5 wp_step. cbv zeta. apply wp_puts. apply wp_puts. apply H.
Qed.

(** looking at a file: motions, then "ZZ" *)
Lemma wp_look E turns s fn data cs strokes rest (Q : unit -> Ed -> Prop) : ready s -> viewable (files s) fn data ->
  argc s - vi_optind s <= 1 -> viewing cs strokes -> input s = map Key (concat strokes ++ str "ZZ") ++ rest -> (length cs + 1 < turns)%nat ->
  (forall s', ready s' -> outside s' = outside s -> contents s' = data -> awaits rest s' -> Q tt s') ->
  wpe E (edit_file turns (Some fn)) Q s.
Proof.
  intros Hr Hv Hj (Hin & Hst) Hi Hturns HQ. apply (wp_edit_file _ _ _ _ data); [done..|]. intros s1 Hop.
  destruct (Hop) as [Hp1 Hq1 Hc1 _ Ho1 Ha1 Hn1 He1 Hm1 _ _].
  pose proof (Ha1 (input s) ltac:(by split; [apply rd_keys|])) as Haw. rewrite Hi, map_app, <- app_assoc in Haw.
  replace turns with (length cs + S (S (turns - length cs - 2)))%nat by lia. injection Ho1 as _ _ _ _ _ Harg Hopt.
  apply (wp_motion_turns E cs strokes Hst 0%nat s1 _ (map Key (str "ZZ") ++ rest)); [done|by rewrite Hn1|lia|done|lia|done|].
  intros s2 Hw2 Ha2. destruct (Hw2) as [Hp2 Hl2]. apply wp_last_turn; [by rewrite (f_equal editing Hl2 : editing s2 = editing s1), He1|].
  apply (wp_quit_turn E rest s2); [done| | |by apply next_byte|].
  - by rewrite (f_equal modified_count Hl2 : modified_count s2 = modified_count s1).
  - by rewrite (f_equal argc Hl2 : argc s2 = argc s1), (f_equal vi_optind Hl2 : vi_optind s2 = vi_optind s1), Harg, Hopt.
  - intros s3 Hq3 Ha3. pose proof (went_quitting _ _ _ Hw2 Hq3) as [Hp3 Hl3]. split; [exact (f_equal editing Hl3)|]. intros o.
    assert (Ho3 : outside s3 = outside s1) by exact (f_equal outside Hl3).
    assert (Hr3 : ready s3).
    { apply (ready_session s s1 s3 fn data); [done|done|done|by destruct Ha3|done|exact (f_equal undo_queue Hl3)|exact (f_equal undo_queue_state Hl3)]. }
    apply HQ; [by apply ready_out|rewrite <- (op_outside _ _ _ _ Hop); exact Ho3| |by apply (awaits_same rest s3)].
    rewrite <- Hc1. apply contents_same; [exact (f_equal text Hl3)|exact (f_equal endp Hl3)|exact (f_equal mem Hl3)].
Qed.

(** ** Typing a text *)
(** "i", what is typed, ESC, up to the byte behind the ESC *)
Lemma wp_type_session E s cs c fuel rest (Q : unit -> Ed -> Prop) : prompt s -> good_alloc s -> plain_options s -> Forall plain_key cs ->
  0 < editing s -> endp s - text s + zlen cs < 2 ^ 25 -> 0 <= c < 256 -> ~ In c esc_firsts ->
  awaits (Key (ch "i") :: map Key cs ++ Key 27 :: Key c :: rest) s ->
  (forall s', inserted_text s (map typed cs) s' -> prompt s' -> saved c rest s' -> wpe E (iter fuel edit_body tt) Q s') ->
  wpe E (iter (S (length cs + S fuel)) edit_body tt) Q s.
Proof.
  intros Hp Hal Hopt Hcs Hed Hsz Hc Hn Ha HQ. pose proof (prompt_ease s Hp) as Hs. apply wp_more_turn; [done|].
  apply (wp_start_turn _ (map Key cs ++ Key 27 :: Key c :: rest)); [done|by apply next_byte|]. intros s1 Hty1 Ha1.
  apply (wp_type_turns E s cs Hs Hal Hopt Hcs [] s1 _ (Key 27 :: Key c :: rest)); [done|done|change (zlen []) with 0; lia|done|].
  intros s2 Hty2 Ha2. destruct (Hty2) as [[_ _ _ _ Hf] _].
  apply wp_more_turn; [by rewrite (f_equal editing Hf : editing s2 = editing s)|].
  by apply (wp_escape_turn _ c rest s (map typed cs)).
Qed.
(** the text [cs] was typed into the file [fn] with the text [data] *)
Record typed_in (s : Ed) (fn data cs : list Z) (s' : Ed) : Prop := mkTypedIn {
  ti_prompt : prompt s';
  ti_con : contents s' = map typed cs ++ data;
  ti_outside : outside s' = outside s;
  ti_editing : editing s' = 1;
  ti_modified : modified_count s' = 0;
  ti_name : current_filename s' = Some fn
}.
Lemma opened_typed s fn data cs s1 s2 : opened s fn data s1 -> inserted_text s1 (map typed cs) s2 -> prompt s2 -> typed_in s fn data cs s2.
Proof.
  intros [_ _ Hc1 Hd1 Ho1 _ _ He1 Hm1 Hn1 _] [_ _ _ Hins _ Hf] Hp2. split; [done| | | | |].
  - unfold inserted, off in Hins. by rewrite Hins, Hd1, Z.sub_diag, Hc1.
  - rewrite <- Ho1. exact (f_equal outside Hf).
  - rewrite <- He1. exact (f_equal editing Hf).
  - rewrite <- Hm1. exact (f_equal modified_count Hf).
  - rewrite <- Hn1. exact (f_equal current_filename Hf).
Qed.
Lemma wp_type_file E s fn data cs c fuel rest (Q : unit -> Ed -> Prop) : ready s -> viewable (files s) fn data ->
  plain_options s -> Forall plain_key cs -> zlen data + zlen cs < 2 ^ 25 -> 0 <= c < 256 -> ~ In c esc_firsts ->
  awaits (Key (ch "i") :: map Key cs ++ Key 27 :: Key c :: rest) s ->
  (forall s', typed_in s fn data cs s' -> saved c rest s' -> wpe E (iter fuel edit_body tt) (fun _ s'' => forall o, Q tt (set_out o s'')) s') ->
  wpe E (edit_file (S (length cs + S fuel)) (Some fn)) Q s.
Proof.
  intros Hr Hv Hopt Hcs Hsz Hc Hn Ha HQ. apply (wp_edit_file _ _ _ _ data); [done..|]. intros s1 Hop. destruct (Hop) as [Hp1 _ Hc1 _ Ho1 Ha1 _ He1 _ _ Hv1].
  apply (wp_type_session _ _ _ c _ rest); [done| | |done|by rewrite He1| |done|done|by apply Ha1|].
  - apply (good_alloc_same s); [exact (f_equal (fun o => snd (fst (fst o))) Ho1)|by apply rd_alloc].
  - unfold plain_options, showmatch, autoindent, expandtab in *. by rewrite Hv1.
  - pose proof (length_contents s1 (ease_wf s1 (prompt_ease s1 Hp1))) as Hl. rewrite Hc1 in Hl. lia.
  - intros s2 Hit Hp2 Hs2. apply HQ; [|done]. by eapply opened_typed.
Qed.

(** ** main() *)
(** the size of the screen is known without asking the terminal *)
Definition sized (tty0 tty1 : bool) (winsz : option (Z * Z)) : Prop :=
  tty0 && tty1 = false \/ exists r c, tty0 = true /\ winsz = Some (r, c) /\ 0 < r /\ 0 < c.
(** the size that main() then takes, rows and columns *)
Definition screen_size (tty0 : bool) (winsz : option (Z * Z)) : Z * Z :=
  match (if tty0 then winsz else None) with
  | Some (r, c) => if (0 <? r) && (0 <? c) then (Z.min MAX_SCR_ROWS (Z.max 2 r), Z.min MAX_SCR_COLS (Z.max 2 c)) else (24, 80)
  | None => (24, 80)
  end.
Lemma wp_screen_size E s tty0 tty1 winsz (Q : Z * Z -> Ed -> Prop) : sized tty0 tty1 winsz ->
  (let '(r, c) := screen_size tty0 winsz in 2 <= c <= MAX_SCR_COLS -> 2 <= r <= MAX_SCR_ROWS -> Q (c, r) s) ->
  wpe E (get_screen_xy tty0 tty1 winsz) Q s.
Proof.
  intros Hz. unfold get_screen_xy, screen_size. cbv zeta. unfold MAX_SCR_COLS, MAX_SCR_ROWS, VI_MAX_SCREEN_LEN in *.
  assert (Hlim : forall r c, Q (Z.min 4096 (Z.max 2 c), Z.min 4096 (Z.max 2 r)) s -> wpe E (let '(rows, cols) := (r, c) : Z * Z in
      let cols := if cols <? 2 then 2 else cols in
      let rows := if rows <? 2 then 2 else rows in
      let cols := if 4096 <? cols then 4096 else cols in
      let rows := if 4096 <? rows then 4096 else rows in ret (cols, rows)) Q s).
  { intros r c H. cbv zeta. wp_step.
    assert (Hclamp : forall n, (if 4096 <? (if n <? 2 then 2 else n) then 4096 else (if n <? 2 then 2 else n)) = Z.min 4096 (Z.max 2 n))
      by (intros n; repeat case_match; lia). by rewrite !Hclamp. }
  intros HQ. wp_step. destruct Hz as [Hz|(r & c & -> & -> & Hr & Hc)].
  - rewrite Hz. destruct tty0; [destruct winsz as [[r c]|]; [destruct ((0 <? r) && (0 <? c))|]|]; wp_step; apply Hlim; apply HQ; lia.
  - replace ((0 <? r) && (0 <? c)) with true in * by lia. wp_step. apply Hlim. apply HQ; lia.
Qed.

(** main() around the loop over the files *)
Record started (e : environment) (fs : list file) (keys : list key) (cols : Z) (s : Ed) : Prop := mkStarted {
  st_ready : ready s;
  st_awaits : awaits keys s;
  st_files : files s = fs;
  st_env : env s = e;
  st_argc : argc s = 0;
  st_optind : vi_optind s = 1;
  st_columns : columns s = cols;
  st_options : vi_setops s = 0
}.
Lemma ready_optind n s : ready s -> ready (set_vi_optind n s).
Proof. intros [? ? ? ? ? Hq ? ? ? ?]. split; try done. by apply (qwf_same s). Qed.
Lemma ready_sized e fs keys c r s' : (forall k, 0 < alloc_addr e k) -> 2 <= c <= MAX_SCR_COLS -> 2 <= r <= MAX_SCR_ROWS ->
  s' = set_last_search_pattern [] (set_tabstop 8 (set_undo_queue_state UNDO_EMPTY (set_columns c (set_rows r
    (set_last_modified_count (-1) (initial_state e fs keys)))))) -> ready s'.
Proof.
  intros Hal Hc Hr ->. split; first [done|by left|by split].
Qed.
Lemma wp_main (P : list file -> list key -> Prop) e fs keys turns argv tty0 tty1 winsz :
  (forall k, 0 < alloc_addr e k) -> sized tty0 tty1 winsz -> 2 <= zlen argv ->
  (forall s, started e fs keys (snd (screen_size tty0 winsz)) s ->
     wpe no_fault (iter turns (files_body turns argv) tt) (fun _ s' => P (files s') (input s')) s) ->
  exists s', main_ turns argv tty0 tty1 winsz None (initial_state e fs keys) = Ok tt s' /\ P (files s') (input s').
Proof.
  intros Hal Hz Hlen HP. destruct (wp_elim (main_ turns argv tty0 tty1 winsz None)
    (fun _ s' => P (files s') (input s')) (initial_state e fs keys)) as ([] & s' & H); [|by exists s'].
  unfold main_, main_setup. do 3 wp_step. wp_step. apply wp_screen_size; [done|].
  destruct (screen_size tty0 winsz) as [r c] eqn:Hsize. intros Hc Hr. do 4 wp_step.
  wp_step. wp_step. wp_step. apply wp_puts. apply wp_puts. do 2 wp_step.
  replace (zlen argv <? 2) with false by lia. wp_step. do 2 wp_step. eapply wpe_mono; [apply HP|].
  - split; try done. apply ready_optind. apply ready_optind. do 2 apply ready_out. by apply (ready_sized e fs keys c r).
  - intros [] s1 H1. unfold flush_undo_data. do 3 wp_step. unfold show_cursor. do 2 wp_step.
    assert (Hout : forall s2, P (files s2) (input s2) -> wpe no_fault
      (puts_no_eol (27 :: str "[H") ;; puts_no_eol (27 :: str "[2J")) (fun _ s' => P (files s') (input s')) s2).
    { intros s2 H2. wp_step. apply wp_puts. by apply wp_puts. }
    destruct (cursor_hidden _); [do 2 wp_step; apply wp_puts|wp_step]; by apply Hout.
Qed.

(** the files of the command line one after the other *)
Lemma wp_next_file E turns pre fn post fuel s (Q : unit -> Ed -> Prop) : vi_optind s = zlen pre ->
  wpe E (edit_file turns (Some fn)) (fun _ s' => wpe E (iter fuel (files_body turns (pre ++ Some fn :: post)) tt) Q
    (set_vi_optind (vi_optind s' + 1) s')) s ->
  wpe E (iter (S fuel) (files_body turns (pre ++ Some fn :: post)) tt) Q s.
Proof.
  intros Ho HQ. assert (0 <= zlen pre) by (unfold zlen; lia). cbn [iter]; wp_step; unfold files_body at 1; do 2 wp_step; rewrite Ho.
  replace (zlen pre <? zlen (pre ++ Some fn :: post)) with true
    by (symmetry; apply Z.ltb_lt; unfold zlen; rewrite length_app; cbn [length]; lia).
  replace (0 <=? zlen pre) with true by lia. wp_step.
  apply (wpe_lift _ _ _ (Some fn)); [unfold zlen; rewrite Nat2Z.id; by apply list_lookup_middle|].
  wp_step. eapply wpe_mono; [exact HQ|]. intros [] s1 H1. by do 3 wp_step.
Qed.
Lemma wp_no_file E turns argv fuel s (Q : unit -> Ed -> Prop) : vi_optind s = zlen argv -> Q tt s ->
  wpe E (iter (S fuel) (files_body turns argv) tt) Q s.
Proof.
  intros Ho HQ. cbn [iter]; wp_step; unfold files_body at 1; do 2 wp_step. rewrite Ho, Z.ltb_irrefl. by do 2 wp_step.
Qed.

(** ** Looking at files *)
(** a file looked at: its name, its text, the keys and their bytes *)
Record visit := mkVisit { v_file : list Z; v_text : list Z; v_keys : list Z; v_strokes : list (list Z) }.
(** the bytes of a session: the keystrokes of each file, then "ZZ" *)
Definition visits_keys (vs : list visit) (rest : list key) : list key :=
  foldr (fun v l => map Key (concat (v_strokes v) ++ str "ZZ") ++ l) rest vs.
Definition visited (fs : list file) (turns : nat) (v : visit) : Prop :=
  viewable fs (v_file v) (v_text v) /\ viewing (v_keys v) (v_strokes v) /\ (length (v_keys v) + 1 < turns)%nat.

Lemma wp_files_loop E fs turns vs : Forall (visited fs turns) vs -> forall pre fuel rest s (Q : unit -> Ed -> Prop),
  ready s -> files s = fs -> argc s = 0 -> vi_optind s = zlen pre -> 0 < zlen pre ->
  input s = visits_keys vs rest -> (length vs < fuel)%nat ->
  (forall s', files s' = fs -> input s' = rest -> Q tt s') ->
  wpe E (iter fuel (files_body turns (pre ++ map (fun v => Some (v_file v)) vs)) tt) Q s.
Proof.
  induction 1 as [|v vs (Hv & Hview & Ht) Hvs IH]; intros pre fuel rest s Q Hr Hfs Ha Ho Hpos Hi Hfuel HQ;
    (destruct fuel as [|fuel]; [simpl in Hfuel; lia|]); cbn [map].
  - rewrite app_nil_r. apply wp_no_file; [done|by apply HQ].
  - apply wp_next_file; [done|]. subst fs.
    apply (wp_look _ _ _ _ (v_text v) (v_keys v) (v_strokes v) (visits_keys vs rest)); [done|done|lia|done|done|done|].
    intros s1 Hr1 Ho1 _ [_ Hi1]. injection Ho1 as _ _ _ Hf1 _ Ha1 Hop1. rewrite cons_middle, app_assoc.
    assert (Hl : zlen (pre ++ [Some (v_file v)]) = zlen pre + 1) by (unfold zlen; rewrite length_app; simpl; lia).
    apply (IH _ _ rest); [by apply ready_optind|exact Hf1|exact (eq_trans Ha1 Ha)| |lia|exact Hi1|simpl in Hfuel; lia|].
    + simpl. by rewrite Hop1, Ho, Hl.
    + intros s2 Hf2 Hi2. apply HQ; congruence.
Qed.

(** C4: A session of looking at files runs to its end: started on files that
    can be read and end in a newline, with for each of them the keys of
    motions with counts up to nine digits, typed as the terminal sends them,
    and then "ZZ", main() reads exactly those keys, returns without a fault,
    and leaves every file as it was. *)
Theorem main_views_files e fs prog vs rest turns tty0 tty1 winsz :
  (forall k, 0 < alloc_addr e k) -> sized tty0 tty1 winsz -> vs <> [] -> Forall (visited fs turns) vs -> (length vs < turns)%nat ->
  exists s', main_ turns (prog :: map (fun v => Some (v_file v)) vs) tty0 tty1 winsz None
      (initial_state e fs (visits_keys vs rest)) = Ok tt s' /\
    files s' = fs /\ input s' = rest.
Proof.
  intros Hal Hz Hne Hvs Hlen. apply (wp_main (fun f i => f = fs /\ i = rest)); [done|done| |].
  - destruct vs; [done|]. unfold zlen. cbn [map length]. lia.
  - intros s [Hr [_ Hi] Hf _ Ha Ho _ _]. by apply (wp_files_loop no_fault fs turns vs Hvs [prog] turns rest).
Qed.
(** two files; "3j", the down key and "$" in the first, "G" in the second *)
Definition demo_visits : list visit :=
  [mkVisit (str "f") (str "one" ++ [10] ++ str "two" ++ [10]) [ch "3"; ch "j"; KEYCODE_DOWN; ch "$"]
     [str "3"; str "j"; 27 :: str "[B"; str "$"];
   mkVisit (str "g.c") (str "int x;" ++ [10]) [ch "G"] [str "G"]].
Definition demo_files : list file :=
  [mkFile (str "f") 8 true (Some (str "one" ++ [10] ++ str "two" ++ [10])) true 0;
   mkFile (str "g.c") 7 true (Some (str "int x;" ++ [10])) false 0].
Lemma main_views_witness :
  exists s', main_ 9 [None; Some (str "f"); Some (str "g.c")] true true (Some (4, 10)) None
      (initial_state demo_env demo_files (visits_keys demo_visits [Pause])) = Ok tt s' /\
    files s' = demo_files /\ input s' = [Pause].
Proof.
  apply (main_views_files demo_env demo_files None demo_visits [Pause] 9).
  - exact demo_good_alloc.
  - right. exists 4, 10. repeat split; reflexivity.
  - discriminate.
  - assert (Hp : forall c, 0 <= c < 27 \/ 27 < c < 256 -> keystroke c [c]) by (intros c Hc; apply plain_stroke; lia).
    apply List.Forall_cons; [|apply List.Forall_cons; [|apply List.Forall_nil]].
    + split; [|split; [split; [reflexivity|]|simpl; lia]].
      * eexists. repeat split; [reflexivity..|]. by exists (str "one" ++ [10] ++ str "two").
      * do 2 (apply Forall2_cons; [apply Hp; simpl; lia|]). apply Forall2_cons; [apply escape_stroke; vm_compute; tauto|].
        apply Forall2_cons; [apply Hp; simpl; lia|apply Forall2_nil].
    + split; [|split; [split; [reflexivity|]|simpl; lia]].
      * eexists. repeat split; [reflexivity..|]. by exists (str "int x;").
      * apply Forall2_cons; [apply Hp; simpl; lia|apply Forall2_nil].
  - simpl. lia.
Defined.

(** ** Typing into a file *)
Lemma find_other fn bs n fs fn' : fn' <> fn -> find_file fn' (write_file fn bs n fs) = find_file fn' fs.
Proof.
  intros Hne. unfold find_file, write_file. cbn [list_find f_name]. rewrite decide_False by done.
  induction fs as [|f fs IH]; [done|]. rewrite filter_cons. cbn [list_find]. destruct (decide (f_name f <> fn)) as [Hf|Hf].
  - cbn [list_find]. destruct (decide (f_name f = fn')); [done|].
    destruct (list_find _ (filter _ fs)) as [[]|], (list_find _ fs) as [[]|]; simpl in *; congruence.
  - rewrite (decide_False (P := f_name f = fn')) by (intros ?; apply Hf; congruence).
    destruct (list_find _ (filter _ fs)) as [[]|], (list_find _ fs) as [[]|]; simpl in *; congruence.
Qed.
(** the file can be written, up to [len] bytes *)
Definition accepts (fs : list file) (fn : list Z) (len : Z) : Prop :=
  exists f, find_file fn fs = Some f /\ f_writable f = true /\ len <= f_accept f.
Lemma accepts_takes s fn len : accepts (files s) fn len -> endp s - text s <= len -> file_takes s fn.
Proof. intros (f & Hf & Hw & Ha) Hl. unfold file_takes. rewrite Hf. split; [done|lia]. Qed.

(** the keys that end the session, and what they leave of the files *)
Definition leave_keys (save : bool) : list Z := if save then 58 :: str "wq" ++ [13] else str "ZZ".
Definition left_files (save : bool) (fn bs : list Z) (fs fs' : list file) : Prop :=
  if save then (exists f, find_file fn fs' = Some f /\ f_read f = Some bs) /\
               (forall fn', fn' <> fn -> find_file fn' fs' = find_file fn' fs)
  else fs' = fs.
Lemma wp_leave_turn E (save : bool) s fn data cs s1 rest fuel (Q : unit -> Ed -> Prop) : typed_in s fn data cs s1 ->
  saved (hd0 (leave_keys save)) (map Key (tail (leave_keys save)) ++ rest) s1 -> argc s - vi_optind s <= 1 ->
  (save = true -> accepts (files s) fn (zlen data + zlen cs) /\ message_room fn < columns s) ->
  (forall s', outside (set_files [] s') = outside (set_files [] s) -> awaits rest s' ->
     left_files save fn (map typed cs ++ data) (files s) (files s') -> Q tt s') ->
  wpe E (iter (S (S fuel)) edit_body tt) Q s1.
Proof.
  intros [Hp1 Hc1 Ho1 He1 Hm1 Hn1] Hs1 Harg Hsave HQ. apply wp_last_turn; [by rewrite He1|].
  assert (Hoo : outside (set_files [] s1) = outside (set_files [] s))
    by exact (f_equal (fun o => let '(r, c, t, _, e, a, v) := o in (r, c, t, [], e, a, v)) Ho1).
  pose proof Ho1 as Ho1'. injection Ho1' as _ Ecols _ Ef _ Ea Eo. destruct save.
  - destruct (Hsave eq_refl) as [Hacc Hroom]. apply (wp_save_turn _ _ fn rest); [done|done| |by rewrite Ea, Eo|by rewrite Ecols| |].
    + apply (accepts_takes _ _ (zlen data + zlen cs)); [by rewrite Ef|].
      rewrite <- (length_contents s1 (ease_wf s1 (prompt_ease s1 Hp1))), Hc1. unfold zlen. rewrite length_app, length_map. lia.
    + apply next_saved; [done|exact Hs1].
    + intros s2 (n & _ & H) Ha. split; [exact (f_equal editing H)|]. apply HQ; [|done|].
      * exact (eq_trans (f_equal (fun x => outside (set_files [] x)) H) Hoo).
      * rewrite (f_equal files H : files s2 = write_file fn (contents s1) n (files s1)), Ef, Hc1. split; [|by apply find_other].
        destruct (find_written fn (map typed cs ++ data) n (files s)) as (f & ? & ? & _). by exists f.
  - apply (wp_quit_turn _ rest); [done|done|by rewrite Ea, Eo|by apply next_saved|].
    intros s2 [_ H] Ha. split; [exact (f_equal editing H)|]. apply HQ; [|done|].
    + exact (eq_trans (f_equal (fun x => outside (set_files [] x)) H) Hoo).
    + change (files s2 = files s). by rewrite (f_equal files H : files s2 = files s1).
Qed.

(** C5: A session of typing: main() started on one file that can be read and
    ends in a newline, with the keys "i", any bytes that stand for themselves,
    and ESC, then ":wq" and return, reads exactly those keys and returns
    without a fault; if the file takes the new length, it then holds what was
    typed in front of its old text, and no other file has changed.  With "ZZ"
    in the place of ":wq" the session ends as well, but no file has changed:
    typed text does not count as a modification, and is lost. *)
Theorem main_types_text e fs prog fn data cs (save : bool) rest turns tty0 tty1 winsz :
  (forall k, 0 < alloc_addr e k) -> sized tty0 tty1 winsz -> viewable fs fn data -> Forall plain_key cs ->
  zlen data + zlen cs < 2 ^ 25 -> (length cs + 4 <= turns)%nat ->
  (save = true -> accepts fs fn (zlen data + zlen cs) /\ message_room fn < snd (screen_size tty0 winsz)) ->
  exists s', main_ turns [prog; Some fn] tty0 tty1 winsz None
      (initial_state e fs (map Key (ch "i" :: cs ++ [27] ++ leave_keys save) ++ rest)) = Ok tt s' /\
    left_files save fn (map typed cs ++ data) fs (files s') /\ input s' = rest.
Proof.
  intros Hal Hz Hv Hcs Hsz Ht Hsave.
  apply (wp_main (fun f i => left_files save fn (map typed cs ++ data) fs f /\ i = rest)); [done|done|done|].
  intros s [Hr Ha Hf _ Harg Hopt Hcol Hset]. subst fs. destruct turns as [|[|turns]]; [lia..|].
  apply (wp_next_file _ _ [prog] fn []); [done|].
  replace (S (S turns)) with (S (length cs + S (S (S (turns - length cs - 2)))))%nat by lia.
  apply (wp_type_file _ s fn data cs (hd0 (leave_keys save)) _ (map Key (tail (leave_keys save)) ++ rest)); [done|done| |done|done| | | |].
  - unfold plain_options, showmatch, autoindent, expandtab. by rewrite Hset.
  - by destruct save.
  - destruct save; vm_compute; intuition discriminate.
  - replace (Key (ch "i") :: map Key cs ++ Key 27 :: Key (hd0 (leave_keys save)) :: map Key (tail (leave_keys save)) ++ rest)
      with (map Key (ch "i" :: cs ++ [27] ++ leave_keys save) ++ rest); [done|].
    cbn [map app]. rewrite map_app, <- app_assoc. by destruct save.
  - intros s1 Hti Hs1. apply (wp_leave_turn _ save s fn data cs s1 rest); [done|done|lia|by rewrite Hcol|].
    intros s2 Ho2 [_ Hi2] Hl2 o. injection Ho2 as _ _ _ _ _ Eo2. apply wp_no_file; [simpl; by rewrite Eo2, Hopt|by split].
Qed.
Lemma main_types_witness :
  exists s', main_ 9 [None; Some (str "g.c")] true true (Some (4, 40)) None
      (initial_state demo_env [mkFile (str "g.c") 7 true (Some (str "int x;" ++ [10])) true 99]
         (map Key (ch "i" :: (str "a}" ++ [13]) ++ [27] ++ leave_keys true) ++ [Pause])) = Ok tt s' /\
    left_files true (str "g.c") (map typed (str "a}" ++ [13]) ++ str "int x;" ++ [10])
      [mkFile (str "g.c") 7 true (Some (str "int x;" ++ [10])) true 99] (files s') /\ input s' = [Pause].
Proof.
  apply (main_types_text demo_env _ None (str "g.c") (str "int x;" ++ [10])).
  - exact demo_good_alloc.
  - right. exists 4, 40. repeat split; reflexivity.
  - eexists. repeat split; [reflexivity..|]. by exists (str "int x;").
  - repeat constructor; try lia; vm_compute; intuition discriminate.
  - reflexivity.
  - simpl. lia.
  - intros _. split; [|reflexivity]. eexists. repeat split. simpl. vm_compute. discriminate.
Defined.
