(* ===== verification/TetrisState.v ===== *)
(** * sdl_tetris: data and state (definitions.h, input.h, the globals of game.c
    and graphics.c)

    The globals of the game are a record; SDL is seen through the calls the
    program makes of it (a list of [sdl_call], in order) and through what it
    answers (the [sdl_world]); rand() is a stream of numbers. *)
From S2P Require Import Prelude.

Definition BLOCK_SIZE : Z := 14.
Definition GRID_WIDTH : Z := 10.
Definition GRID_HEIGHT : Z := 20.

(** enum InputEvent *)
Definition QUIT : Z := -1.
Definition NO_INPUT : Z := 0.
Definition ANY_INPUT : Z := 99.
Definition LEFT : Z := 2.
Definition RIGHT : Z := 3.
Definition DOWN : Z := 4.
Definition ROTATE : Z := 5.
Definition SOFT_DROP : Z := 6.
Definition HARD_DROP : Z := 7.

(** the constants of game.c *)
Definition MAX_LEVEL_FREQ : Z := 15.
Definition LEVEL_FREQS : list Z := [48; 43; 38; 33; 28; 23; 18; 13; 8; 6; 5; 4; 3; 2; 1].
Definition SOFT_FREQ : Z := 3.
Definition HARD_FREQ : Z := 1.
Definition N_COLORS : Z := 14.
Definition COLORS : list Z :=
  [0x111111; 0xFFC82E; 0xFEFB34; 0x53DA3F; 0x01EDFA; 0xDD0AB2; 0xEA141C; 0xFE4819; 0xFF910C;
   0x39892F; 0x0077D3; 0x78256F; 0x2E2E84; 0x485DC5].
Definition N_SHAPES : Z := 7.
(** each pair of numbers is the shift of a block from the position of the
    shape over the x and y axis *)
Definition SHAPES : list (list Z) :=
  [[0; 0; 1; 0; 0; 1; 1; 1];
   [0; 0; -1; 0; 1; 0; 0; 1];
   [0; 0; 0; -1; 0; 1; 1; 1];
   [0; 0; 0; -1; 0; 1; -1; 1];
   [0; 0; 0; -1; 0; 1; 0; 2];
   [0; 0; 1; 0; 0; 1; -1; 1];
   [0; 0; -1; 0; 0; 1; 1; 1]].
Definition FRAME_DELAY : Z := 16.
Definition RESTART_DELAY : Z := 300.
Definition SCORE_SINGLE : Z := 1.
Definition SCORE_LINE : Z := 100.

(** the keys that handle_key_down() tells apart *)
Inductive SDL_Keycode :=
  | SDLK_ESCAPE | SDLK_LEFT | SDLK_RIGHT | SDLK_UP | SDLK_a | SDLK_RETURN | SDLK_DOWN | SDLK_SPACE
  | SDLK_other.
Inductive sdl_event :=
  | SDL_QUIT
  | SDL_WINDOWEVENT (close : bool)  (** SDL_WINDOWEVENT_CLOSE or another one *)
  | SDL_KEYDOWN (sym : SDL_Keycode)
  | SDL_other.

Inductive font := font_small | font_big.
(** The calls of SDL, of SDL_ttf and of the resource library. [RenderText]
    stands for the calls that render a string in a font and a colour and copy
    it to a rectangle of the window. *)
Inductive sdl_call :=
  | SDL_Init | SDL_CreateWindow (w h : Z) | SDL_CreateRenderer | SDL_CreateRGBSurface (w h : Z)
  | TTF_Init | TTF_OpenFont (f : font) (size : Z)
  | TTF_CloseFont (f : font) | TTF_Quit | SDL_DestroyRenderer | SDL_DestroyWindow | SDL_Quit
  | SDL_LogError
  | SDL_SetRenderDrawColor (r g b a : Z)
  | SDL_RenderClear
  | SDL_RenderFillRect (x y w h : Z)
  | SDL_RenderDrawRect (x y w h : Z)
  | RenderText (text : list Z) (f : font) (r g b : Z) (x y w h : Z)
  | SDL_RenderPresent
  | SDL_Delay (ms : Z).

(** What the libraries answer: the numbers of rand(), whether each resource can
    be had, the size of the window, the size of a rendered text. *)
Record sdl_world := mkWorld {
  w_rand : nat -> Z;
  w_init : bool;
  w_window : bool;
  w_renderer : bool;
  w_ttf : bool;
  w_font : font -> bool;
  w_size : Z * Z;
  w_text : list Z -> font -> Z * Z
}.

(** ** The globals *)
Set Primitive Projections.
Record Game := mkGame {
  grid : list (list Z);  (** [grid[x][y]], columns first; 0 or an index into COLORS *)
  to_destroy : list Z;  (** rows that need to be destroyed *)
  game_over : Z;
  score : Z;  (** uint32_t *)
  iteration : Z;  (** uint8_t *)
  lines_cleared : Z;  (** uint8_t *)
  current_level : Z;  (** uint8_t *)
  fall_freq : Z;  (** uint8_t *)
  state_changed : Z;
  current_shape : list Z;  (** 4 pairs of int8_t *)
  current_shape_color : Z;
  current_shape_type : Z;
  current_x : Z;  (** int8_t *)
  current_y : Z;  (** int8_t *)
  xoff : Z;  (** graphics.c *)
  yoff : Z;  (** graphics.c *)
  events : list (option sdl_event);  (** what SDL_PollEvent answers next; None: nothing pending *)
  rnd : nat;  (** calls of rand() so far *)
  calls : list sdl_call;  (** the calls of SDL so far *)
  world : sdl_world  (** what SDL and libc answer, constant *)
}.
Unset Primitive Projections.

Ltac game_setter target :=
  intros v s;
  let r := build_record mkGame (tt,
    grid, to_destroy, game_over, score, iteration, lines_cleared, current_level,
    fall_freq, state_changed, current_shape, current_shape_color, current_shape_type,
    current_x, current_y, xoff, yoff, events, rnd, calls, world) target v s in
  exact r.
Definition set_grid : list (list Z) -> Game -> Game := ltac:(game_setter grid).
Definition set_to_destroy : list Z -> Game -> Game := ltac:(game_setter to_destroy).
Definition set_game_over : Z -> Game -> Game := ltac:(game_setter game_over).
Definition set_score : Z -> Game -> Game := ltac:(game_setter score).
Definition set_iteration : Z -> Game -> Game := ltac:(game_setter iteration).
Definition set_lines_cleared : Z -> Game -> Game := ltac:(game_setter lines_cleared).
Definition set_current_level : Z -> Game -> Game := ltac:(game_setter current_level).
Definition set_fall_freq : Z -> Game -> Game := ltac:(game_setter fall_freq).
Definition set_state_changed : Z -> Game -> Game := ltac:(game_setter state_changed).
Definition set_current_shape : list Z -> Game -> Game := ltac:(game_setter current_shape).
Definition set_current_shape_color : Z -> Game -> Game := ltac:(game_setter current_shape_color).
Definition set_current_shape_type : Z -> Game -> Game := ltac:(game_setter current_shape_type).
Definition set_current_x : Z -> Game -> Game := ltac:(game_setter current_x).
Definition set_current_y : Z -> Game -> Game := ltac:(game_setter current_y).
Definition set_xoff : Z -> Game -> Game := ltac:(game_setter xoff).
Definition set_yoff : Z -> Game -> Game := ltac:(game_setter yoff).
Definition set_events : list (option sdl_event) -> Game -> Game := ltac:(game_setter events).
Definition set_rnd : nat -> Game -> Game := ltac:(game_setter rnd).
Definition set_calls : list sdl_call -> Game -> Game := ltac:(game_setter calls).
Definition set_world : sdl_world -> Game -> Game := ltac:(game_setter world).

(** a program of the game *)
Abbreviation GM := (prog Game).

Definition call (c : sdl_call) : GM unit := modify (fun s => set_calls (calls s ++ [c]) s).
Definition rand : GM Z :=
  s <- get ;; modify (set_rnd (S (rnd s))) ;; ret (w_rand (world s) (rnd s)).
(** SDL_PollEvent() *)
Definition poll_event : GM (option sdl_event) :=
  s <- get ;;
  match events s with
  | [] => ret None
  | e :: es => modify (set_events es) ;; ret e
  end.

(** ** Array accesses *)
Definition grid_get (x y : Z) : GM Z :=
  s <- get ;; col <- lift OutOfBounds (idx (grid s) x) ;; lift OutOfBounds (idx col y).
Definition grid_set (x y v : Z) : GM unit :=
  s <- get ;;
  col <- lift OutOfBounds (idx (grid s) x) ;;
  col <- lift OutOfBounds (upd col y v) ;;
  g <- lift OutOfBounds (upd (grid s) x col) ;;
  modify (set_grid g).
Definition shape_get (i : Z) : GM Z := s <- get ;; lift OutOfBounds (idx (current_shape s) i).
Definition shape_set (i v : Z) : GM unit :=
  s <- get ;; l <- lift OutOfBounds (upd (current_shape s) i v) ;; modify (set_current_shape l).
Definition to_destroy_get (j : Z) : GM Z := s <- get ;; lift OutOfBounds (idx (to_destroy s) j).
Definition to_destroy_set (j v : Z) : GM unit :=
  s <- get ;; l <- lift OutOfBounds (upd (to_destroy s) j v) ;; modify (set_to_destroy l).

(** the program at its start *)
Definition initial_game (w : sdl_world) (evs : list (option sdl_event)) : Game :=
  mkGame (replicate 10 (replicate 20 0)) (replicate 20 0) 0 0 0 0 0 48 0 (replicate 8 0) 0 0 0 0 0 0
    evs 0 [] w.
