(* ===== verification/TetrisGraphics.v ===== *)
(** * sdl_tetris: drawing (graphics.c)

    Every function is the sequence of the calls it makes; the local buffers of
    the texts have the sizes of the source, so snprintf() cuts what it prints. *)
From S2P Require Import Prelude TetrisState.

Definition SCORE_SIZE : Z := 7.
Definition LEVEL_SIZE : Z := 3.
Definition PANEL_WIDTH : Z := (GRID_WIDTH + 5) * BLOCK_SIZE.
Definition PANEL_HEIGHT : Z := (GRID_HEIGHT + 2) * BLOCK_SIZE.
Definition White : Z * Z * Z := (0xff, 0xff, 0xff).
Definition Gray : Z * Z * Z := (0xcc, 0xcc, 0xcc).

(** printf("%0*d") with the width [w] *)
Definition pad0 (w : Z) (n : Z) : list Z :=
  let zeros (d : list Z) k := replicate (Z.to_nat (k - zlen d)) 48 ++ d in
  if n <? 0 then 45 :: zeros (dec (- n)) (w - 1) else zeros (dec n) w.

Definition init_fonts : GM Z :=
  w <- gets world ;;
  call TTF_Init ;;
  if negb (w_ttf w) then call SDL_LogError ;; ret (-1)
  else
    call (TTF_OpenFont font_small 10) ;;
    if negb (w_font w font_small) then call SDL_LogError ;; call TTF_Quit ;; ret (-1)
    else
      call (TTF_OpenFont font_big 14) ;;
      if negb (w_font w font_big) then
        call SDL_LogError ;; call (TTF_CloseFont font_small) ;; call TTF_Quit ;; ret (-1)
      else ret 0.

Definition init_graphics : GM Z :=
  w <- gets world ;;
  call SDL_Init ;;
  if negb (w_init w) then call SDL_LogError ;; ret (-1)
  else
    call (SDL_CreateWindow (PANEL_WIDTH + 20) (PANEL_HEIGHT + 20)) ;;
    if negb (w_window w) then call SDL_LogError ;; call SDL_Quit ;; ret (-1)
    else
      call SDL_CreateRenderer ;;
      if negb (w_renderer w) then
        call SDL_LogError ;; call SDL_DestroyWindow ;; call SDL_Quit ;; ret (-1)
      else
        call (SDL_CreateRGBSurface PANEL_WIDTH PANEL_HEIGHT) ;;
        modify (set_xoff (Z.quot (fst (w_size w) - PANEL_WIDTH) 2)) ;;
        modify (set_yoff (Z.quot (snd (w_size w) - PANEL_HEIGHT) 2)) ;;
        f <- init_fonts ;;
        if negb (f =? 0) then call SDL_DestroyWindow ;; call SDL_Quit ;; ret (-1)
        else ret 0.

Definition render_right_text (text : list Z) (y : Z) (f : font) : GM unit :=
  s <- get ;;
  let '(w, h) := w_text (world s) text f in
  let '(r, g, b) := Gray in
  call (RenderText text f r g b (xoff s + (GRID_WIDTH + 3) * BLOCK_SIZE - Z.quot w 2) (yoff s + y) w h).
Definition render_score (score level : Z) : GM unit :=
  let score_str := snprintf SCORE_SIZE (pad0 (SCORE_SIZE - 1) score) in
  render_right_text (str "SCORE") BLOCK_SIZE font_small ;;
  render_right_text score_str (BLOCK_SIZE * 2) font_big ;;
  let level_str := snprintf 3 (pad0 (LEVEL_SIZE - 1) level) in
  render_right_text (str "LEVEL") (BLOCK_SIZE * 6) font_small ;;
  render_right_text level_str (BLOCK_SIZE * 7) font_big.
Definition render_game_over_text (text : list Z) (y : Z) (f : font) : GM unit :=
  s <- get ;;
  let '(w, h) := w_text (world s) text f in
  let '(r, g, b) := White in
  call (RenderText text f r g b (xoff s + Z.quot (PANEL_WIDTH - w) 2) (yoff s + y) w h).
Definition render_game_over_message (score : Z) : GM unit :=
  let score_str := snprintf SCORE_SIZE (dec score) in
  render_game_over_text (str "GAME OVER") (Z.quot PANEL_HEIGHT 2 - BLOCK_SIZE * 3) font_big ;;
  render_game_over_text (str "YOU SCORED:") (Z.quot PANEL_HEIGHT 2 - BLOCK_SIZE * 2) font_big ;;
  render_game_over_text score_str (Z.quot PANEL_HEIGHT 2) font_big ;;
  render_game_over_text (str "Press any key to restart...") (Z.quot PANEL_HEIGHT 2 + BLOCK_SIZE * 2) font_small ;;
  call SDL_RenderPresent.

Definition draw_block (x y color : Z) : GM unit :=
  s <- get ;;
  let ox := xoff s + (x + 1) * BLOCK_SIZE in
  let oy := yoff s + (y + 1) * BLOCK_SIZE in
  call (SDL_SetRenderDrawColor 0x0c 0x0c 0x0c 0xff) ;;
  call (SDL_RenderFillRect ox oy BLOCK_SIZE BLOCK_SIZE) ;;
  let r := Z.land (Z.shiftr color 16) 0xff in
  let g := Z.land (Z.shiftr color 8) 0xff in
  let b := Z.land color 0xff in
  call (SDL_SetRenderDrawColor r g b 0xff) ;;
  call (SDL_RenderFillRect (ox + 1) (oy + 1) (BLOCK_SIZE - 2) (BLOCK_SIZE - 2)).
Definition clear_screen : GM unit :=
  call (SDL_SetRenderDrawColor 0 0 0 0xff) ;;
  call SDL_RenderClear.
Definition render_frame (score level : Z) : GM unit :=
  s <- get ;;
  call (SDL_SetRenderDrawColor 0x44 0x44 0x44 0xff) ;;
  call (SDL_RenderDrawRect (xoff s) (yoff s) PANEL_WIDTH PANEL_HEIGHT) ;;
  render_score score level ;;
  call SDL_RenderPresent.
Definition release_resources : GM unit :=
  call SDL_DestroyRenderer ;;
  call SDL_DestroyWindow ;;
  call (TTF_CloseFont font_small) ;;
  call (TTF_CloseFont font_big) ;;
  call TTF_Quit ;;
  call SDL_Quit.
