(* ===== verification/TetrisGame.v ===== *)
(** * sdl_tetris: the game (game.c, input.c, main.c)

    One definition per function.  The loops of the source that leave their
    function are [for_return]; the blocks of the falling shape are computed
    with the int8_t arithmetic of the source. *)
From S2P Require Import Prelude TetrisState TetrisGraphics.

(** ** Speed and level *)
Definition get_curr_fall_freq : GM Z :=
  s <- get ;;
  if MAX_LEVEL_FREQ <=? current_level s then lift OutOfBounds (idx LEVEL_FREQS (MAX_LEVEL_FREQ - 1))
  else lift OutOfBounds (idx LEVEL_FREQS (current_level s)).
Definition reset_fall_freq : GM unit := f <- get_curr_fall_freq ;; modify (set_fall_freq f).
Definition update_fall_freq (new : Z) : GM unit :=
  calculated <- get_curr_fall_freq ;;
  if calculated <? new then modify (set_fall_freq calculated)
  else modify (set_fall_freq (u8 new)).

Definition end_game : GM unit := modify (set_game_over 1) ;; clear_screen.

(** block [i] of the current shape, shifted by [dx] and [dy] *)
Definition block_at (i dx dy : Z) : GM (Z * Z) :=
  s <- get ;;
  sx <- shape_get (i * 2) ;;
  sy <- shape_get (i * 2 + 1) ;;
  ret (i8 (sx + current_x s + dx), i8 (sy + current_y s + dy)).

(** ** A new shape *)
(** does a block of the shape, one row lower, meet an occupied cell? *)
Definition spawn_blocked : GM (option unit) :=
  for_return 4 0 (fun i =>
    let* (x, y) := block_at i 0 1 in
    if 0 <=? y then
      c <- grid_get x y ;;
      ret (if negb (c =? 0) then Some tt else None)
    else ret None).
Definition spawn_shape : GM unit :=
  modify (set_state_changed 1) ;;
  r <- rand ;; modify (set_current_shape_type (u8 (Z.rem r N_SHAPES))) ;;
  r <- rand ;; modify (set_current_shape_color (u8 (Z.rem r (N_COLORS - 1) + 1))) ;;
  repeat_ 8 0 (fun i =>
    s <- get ;;
    sh <- lift OutOfBounds (idx SHAPES (current_shape_type s)) ;;
    v <- lift OutOfBounds (idx sh i) ;;
    shape_set i v) ;;
  modify (set_current_x (GRID_WIDTH / 2)) ;;
  modify (set_current_y (-2)) ;;
  for_return 2 (-2) (fun _ =>
    b <- spawn_blocked ;;
    match b with
    | Some _ => ret (Some tt)
    | None => modify (fun s => set_current_y (i8 (current_y s + 1)) s) ;; ret None
    end) ;;
  ret tt.

Definition restart_game : GM unit :=
  repeat_ 10 0 (fun i => repeat_ 20 0 (fun j => grid_set i j 0)) ;;
  modify (set_game_over 0) ;;
  modify (set_current_level 0) ;;
  modify (set_lines_cleared 0) ;;
  modify (set_score 0) ;;
  spawn_shape ;;
  call (SDL_Delay RESTART_DELAY).

(** ** Full rows *)
(** the inner loop of destroy_row() *)
Definition copy_row (j : Z) : GM unit :=
  repeat_ 10 0 (fun i => c <- grid_get i (j - 1) ;; grid_set i j c).
Definition destroy_row (row : Z) : GM unit :=
  repeat_ (Z.to_nat row) 0 (fun k => copy_row (row - k)) ;;
  modify (fun s => set_lines_cleared (u8 (lines_cleared s + 1)) s) ;;
  s <- get ;;
  when (Z.rem (lines_cleared s) 10 =? 0)
    (modify (fun s => set_current_level (u8 (current_level s + 1)) s)).

Definition clean_row (j count : Z) : GM Z :=
  d <- to_destroy_get j ;;
  if negb (d =? 0) then
    to_destroy_set j 0 ;;
    repeat_ 10 0 (fun i => grid_set i j 0) ;;
    destroy_row j ;;
    ret (count + 1)
  else ret count.
Definition clean_destroyed_blocks : GM unit :=
  count <- fold_i 20 0 clean_row 0 ;;
  when (negb (count =? 0))
    (modify (fun s => set_score (u32 (score s + SCORE_LINE * (1 + 2 * (count - 1)))) s)).

Definition row_is_full (y : Z) : GM bool :=
  full <- (if y <? 0 then ret true else d <- to_destroy_get y ;; ret (negb (d =? 0))) ;;
  if full : bool then ret true
  else
    r <- for_return 10 0 (fun i => c <- grid_get i y ;; ret (if c =? 0 then Some tt else None)) ;;
    match r with
    | Some _ => ret false
    | None => to_destroy_set y 1 ;; ret true
    end.

(** ** The falling shape *)
Definition lock_block (i n : Z) : GM Z :=
  let* (x, y) := block_at i 0 0 in
  s <- get ;;
  when ((0 <=? x) && (x <? GRID_WIDTH) && (0 <=? y) && (y <? GRID_HEIGHT))
    (grid_set x y (current_shape_color s)) ;;
  full <- row_is_full y ;;
  if full : bool then ret (u8 (n + 1))
  else when (y <=? 0) end_game ;; ret n.
Definition lock_shape : GM unit :=
  n <- fold_i 4 0 lock_block 0 ;;
  when (negb (n =? 0)) clean_destroyed_blocks ;;
  modify (set_iteration 0) ;;
  modify (fun s => set_score (u32 (score s + SCORE_SINGLE)) s) ;;
  reset_fall_freq ;;
  spawn_shape.

Definition detect_collision (x y : Z) : GM bool :=
  if (x <? 0) || (GRID_WIDTH <=? x) then ret true
  else if GRID_HEIGHT <=? y then ret true
  else if 0 <=? y then c <- grid_get x y ;; ret (negb (c =? 0))
  else ret false.

(** does a block of the shape, shifted by [dx] and [dy], collide? *)
Definition shape_collides (dx dy : Z) : GM (option unit) :=
  for_return 4 0 (fun i =>
    let* (x, y) := block_at i dx dy in
    b <- detect_collision x y ;;
    ret (if b : bool then Some tt else None)).

(** the loop of rotate_shape() that fills [temp], None when a block collides *)
Fixpoint rotate_blocks (n : nat) (i : Z) (temp : list Z) : GM (option (list Z)) :=
  match n with
  | O => ret (Some temp)
  | S n =>
      s <- get ;;
      tx <- shape_get (i * 2 + 1) ;;
      temp <- lift OutOfBounds (upd temp (i * 2) tx) ;;
      sx <- shape_get (i * 2) ;;
      let ty := i8 (- sx) in
      temp <- lift OutOfBounds (upd temp (i * 2 + 1) ty) ;;
      b <- detect_collision (i8 (tx + current_x s)) (i8 (ty + current_y s)) ;;
      if b : bool then ret None else rotate_blocks n (i + 1) temp
  end.
Definition rotate_shape : GM unit :=
  reset_fall_freq ;;
  s <- get ;;
  if current_shape_type s =? 0 then ret tt
  else
    modify (set_state_changed 1) ;;
    t <- rotate_blocks 4 0 (replicate 8 0) ;;
    match t with
    | None => ret tt
    | Some temp => repeat_ 8 0 (fun i => v <- lift OutOfBounds (idx temp i) ;; shape_set i v)
    end.

Definition move_side (direction : Z) : GM unit :=
  reset_fall_freq ;;
  c <- shape_collides direction 0 ;;
  match c with
  | Some _ => ret tt
  | None =>
      modify (fun s => set_current_x (i8 (current_x s + direction)) s) ;;
      modify (set_state_changed 1)
  end.

Definition fall : GM unit :=
  modify (fun s => set_iteration (u8 (iteration s + 1)) s) ;;
  s <- get ;;
  if iteration s <? fall_freq s then ret tt
  else
    modify (set_iteration 0) ;;
    c <- shape_collides 0 1 ;;
    match c with
    | Some _ => lock_shape
    | None =>
        modify (fun s => set_current_y (i8 (current_y s + 1)) s) ;;
        modify (set_state_changed 1)
    end.

(** ** A frame *)
Definition handle_input_event (event : Z) : GM unit :=
  if event =? LEFT then move_side (-1)
  else if event =? RIGHT then move_side 1
  else if event =? ROTATE then rotate_shape
  else if event =? HARD_DROP then update_fall_freq HARD_FREQ
  else if event =? SOFT_DROP then update_fall_freq SOFT_FREQ
  else ret tt.

Definition draw_grid : GM unit :=
  repeat_ 10 0 (fun i => repeat_ 20 0 (fun j =>
    c <- grid_get i j ;; color <- lift OutOfBounds (idx COLORS c) ;; draw_block i j color)).
Definition draw_shape : GM unit :=
  repeat_ 4 0 (fun i =>
    let* (x, y) := block_at i 0 0 in
    s <- get ;;
    when (0 <=? y) (color <- lift OutOfBounds (idx COLORS (current_shape_color s)) ;; draw_block x y color)).
Definition update_frame : GM unit :=
  s <- get ;;
  if negb (game_over s =? 0) then render_game_over_message (i32 (score s))
  else if state_changed s =? 0 then ret tt
  else
    clear_screen ;;
    draw_grid ;;
    draw_shape ;;
    render_frame (i32 (score s)) (current_level s) ;;
    modify (set_state_changed 0).

Definition handle_key_down (key_code : SDL_Keycode) : Z :=
  match key_code with
  | SDLK_ESCAPE => QUIT
  | SDLK_LEFT => LEFT
  | SDLK_RIGHT => RIGHT
  | SDLK_UP | SDLK_a | SDLK_RETURN => ROTATE
  | SDLK_DOWN => SOFT_DROP
  | SDLK_SPACE => HARD_DROP
  | SDLK_other => ANY_INPUT
  end.
(** one turn of the polling loop *)
Definition listen_body (_ : unit) : GM (unit + Z) :=
  e <- poll_event ;;
  match e with
  | None => ret (inr NO_INPUT)
  | Some SDL_QUIT => ret (inr QUIT)
  | Some (SDL_WINDOWEVENT true) => ret (inr QUIT)
  | Some (SDL_KEYDOWN k) => ret (inr (handle_key_down k))
  | Some _ => ret (inl tt)
  end.
Definition listen_for_input : GM Z :=
  s <- get ;; iter (S (length (events s))) listen_body tt.

Definition game_loop : GM Z :=
  event <- listen_for_input ;;
  if event =? QUIT then ret 1
  else
    s <- get ;;
    (if negb (game_over s =? 0) then when (0 <? event) restart_game
     else
       handle_input_event event ;;
       fall ;;
       update_frame ;;
       call (SDL_Delay FRAME_DELAY)) ;;
    ret 0.

(** ** The program *)
Definition init_game : GM Z := spawn_shape ;; init_graphics.
Definition terminate_game : GM Z := release_resources ;; ret 0.
Definition main_body (_ : unit) : GM (unit + unit) :=
  res <- game_loop ;;
  if negb (res =? 0) then when (res <? 0) (call SDL_LogError) ;; ret (inr tt) else ret (inl tt).
(** main() with at most [turns] frames *)
Definition tetris_main (turns : nat) : GM Z :=
  r <- init_game ;;
  if negb (r =? 0) then call SDL_LogError ;; ret 1
  else
    iter turns main_body tt ;;
    t <- terminate_game ;;
    when (negb (t =? 0)) (call SDL_LogError) ;;
    ret 0.
