(* ===== verification/TetrisGrid.v ===== *)
(** * sdl_tetris: the grid

    The accesses to the grid, destroy_row() and clean_destroyed_blocks() as
    equations: what the loops over the cells of the source compute is stated
    per column ([shift_down], [collapse]). *)
From S2P Require Import Prelude TetrisState TetrisGraphics TetrisGame.

(** ** The grid as a function of the cell *)
Definition gcell (g : list (list Z)) (x y : Z) : Z := nth0 (Z.to_nat y) (default [] (g !! Z.to_nat x)).
Definition gput (x y v : Z) (g : list (list Z)) : list (list Z) := alter (<[Z.to_nat y := v]>) (Z.to_nat x) g.
Definition col_wf (c : list Z) : Prop := length c = 20%nat /\ Forall (fun v => 0 <= v < 14) c.
Definition grid_wf (g : list (list Z)) : Prop := length g = 10%nat /\ Forall col_wf g.

Lemma col_lookup c y : col_wf c -> 0 <= y < 20 -> idx c y = Some (nth0 (Z.to_nat y) c).
Proof.
  intros [H _] Hy. unfold nth0. destruct (idx_lt c y) as [v Hv]; [unfold zlen; lia|]. rewrite Hv.
  unfold idx in Hv. replace (y <? 0) with false in Hv by lia. by rewrite Hv.
Qed.
Lemma grid_lookup g x : grid_wf g -> 0 <= x < 10 ->
  exists c, idx g x = Some c /\ g !! Z.to_nat x = Some c /\ col_wf c.
Proof.
  intros [H Hc] Hx. destruct (idx_lt g x) as [c E]; [unfold zlen; lia|]. exists c. split; [done|].
  unfold idx in E. replace (x <? 0) with false in E by lia. split; [done|]. by eapply Forall_lookup_1.
Qed.
Lemma grid_get_ok s x y : grid_wf (grid s) -> 0 <= x < 10 -> 0 <= y < 20 ->
  grid_get x y s = Ok (gcell (grid s) x y) s.
Proof.
  intros Hg Hx Hy. destruct (grid_lookup _ x Hg Hx) as (c & E1 & E2 & Hc).
  unfold grid_get, bind, get, gcell. rewrite E1, E2. simpl. by rewrite col_lookup.
Qed.
Lemma grid_set_ok s x y v : grid_wf (grid s) -> 0 <= x < 10 -> 0 <= y < 20 ->
  grid_set x y v s = Ok tt (set_grid (gput x y v (grid s)) s).
Proof.
  intros Hg Hx Hy. destruct (grid_lookup _ x Hg Hx) as (c & E1 & E2 & Hc).
  unfold grid_set, bind, get, gput. rewrite E1. simpl. rewrite upd_lt by (destruct Hc; unfold zlen; lia). simpl.
  rewrite upd_lt by (destruct Hg; unfold zlen; lia). simpl. unfold modify. do 2 f_equal.
  rewrite (list_alter_insert_lookup _ _ _ _ E2) || (apply list_eq; intros i; destruct (decide (i = Z.to_nat x)) as [->|Hn];
    [rewrite list_lookup_insert_eq, list_lookup_alter_eq, E2 by (destruct Hg; lia); done
    |by rewrite list_lookup_insert_ne, list_lookup_alter_ne]).
Qed.
Lemma alter_wf g x f : grid_wf g -> (forall c, col_wf c -> col_wf (f c)) -> grid_wf (alter f x g).
Proof.
  intros [H Hc] Hf. split; [by rewrite length_alter|]. apply Forall_lookup. intros i c Hi.
  destruct (decide (i = x)) as [->|Hn].
  - rewrite list_lookup_alter_eq in Hi. destruct (g !! x) as [c0|] eqn:E; [|done]. injection Hi as <-.
    apply Hf. by eapply Forall_lookup_1.
  - rewrite list_lookup_alter_ne in Hi by done. by eapply Forall_lookup_1.
Qed.
Lemma insert_col_wf c i v : col_wf c -> 0 <= v < 14 -> col_wf (<[i := v]> c).
Proof. intros [H Hc] Hv. split; [by rewrite length_insert|by apply Forall_insert]. Qed.
Lemma nth0_col c i : col_wf c -> (i < 20)%nat -> 0 <= nth0 i c < 14.
Proof.
  intros [Hl Hv] Hi. unfold nth0. destruct (lookup_lt_is_Some_2 c i) as [v E]; [lia|]. rewrite E.
  exact (Forall_lookup_1 _ _ _ _ Hv E).
Qed.
(** column update [f]: the cell [j] gets the value of the cell [i] *)
Lemma copy_col_wf c i j : col_wf c -> (i < 20)%nat -> col_wf (<[j := nth0 i c]> c).
Proof. intros Hc Hi. by apply insert_col_wf, nth0_col. Qed.
Lemma gput_wf g x y v : grid_wf g -> 0 <= v < 14 -> grid_wf (gput x y v g).
Proof. intros Hg Hv. apply alter_wf; [done|]. intros c Hc. by apply insert_col_wf. Qed.
Lemma gcell_range g x y : grid_wf g -> 0 <= x < 10 -> 0 <= y < 20 -> 0 <= gcell g x y < 14.
Proof.
  intros Hg Hx Hy. destruct (grid_lookup _ x Hg Hx) as (c & _ & E2 & Hc). unfold gcell. rewrite E2.
  apply nth0_col; [done|lia].
Qed.
Lemma gcell_gput g x y v x' y' : grid_wf g -> 0 <= x < 10 -> 0 <= y < 20 -> 0 <= x' -> 0 <= y' ->
  gcell (gput x y v g) x' y' = if decide (x' = x /\ y' = y) then v else gcell g x' y'.
Proof.
  intros Hg Hx Hy Hx' Hy'. destruct (grid_lookup _ x Hg Hx) as (c & _ & E2 & Hc1 & _). unfold gcell, gput.
  destruct (decide (x' = x)) as [->|Hn].
  - rewrite list_lookup_alter_eq, E2. simpl. unfold nth0. destruct (decide (y' = y)) as [->|Hn'].
    + rewrite decide_True by done. by rewrite list_lookup_insert_eq by lia.
    + rewrite decide_False by tauto. by rewrite list_lookup_insert_ne by lia.
  - rewrite decide_False by tauto. by rewrite list_lookup_alter_ne by lia.
Qed.

(** ** Loops over the columns *)
Lemma repeat_columns (f : list Z -> list Z) body n i s :
  (forall c, col_wf c -> col_wf (f c)) -> grid_wf (grid s) -> 0 <= i -> i + Z.of_nat n = 10 ->
  (forall j s', 0 <= j < 10 -> grid_wf (grid s') -> body j s' = Ok tt (set_grid (alter f (Z.to_nat j) (grid s')) s')) ->
  repeat_ n i body s = Ok tt (set_grid (take (Z.to_nat i) (grid s) ++ map f (drop (Z.to_nat i) (grid s))) s).
Proof.
  intros Hf. revert i s. induction n as [|n IH]; intros i s Hg Hi Hn Hb; cbn [repeat_].
  { destruct Hg as [Hl _]. rewrite take_ge, drop_ge by lia. simpl. rewrite app_nil_r. done. }
  unfold bind. rewrite Hb by (done || lia). rewrite IH; try done; [|by apply alter_wf|lia|lia].
  f_equal. change (set_grid ?a (set_grid ?b s)) with (set_grid a s). f_equal. simpl.
  destruct (grid_lookup _ i Hg ltac:(lia)) as (c & _ & E & _). replace (Z.to_nat (i + 1)) with (S (Z.to_nat i)) by lia.
  rewrite (drop_S _ _ _ E). cbn [map]. rewrite (take_S_r _ _ (f c)) by (by rewrite list_lookup_alter_eq, E).
  rewrite take_alter_ge, drop_alter_lt by lia. by rewrite <- app_assoc.
Qed.
Lemma columns_ok f body s : (forall c, col_wf c -> col_wf (f c)) -> grid_wf (grid s) ->
  (forall j s', 0 <= j < 10 -> grid_wf (grid s') -> body j s' = Ok tt (set_grid (alter f (Z.to_nat j) (grid s')) s')) ->
  repeat_ 10 0 body s = Ok tt (set_grid (map f (grid s)) s).
Proof. intros Hf Hg Hb. by rewrite (repeat_columns f). Qed.
Lemma map_wf f g : (forall c, col_wf c -> col_wf (f c)) -> grid_wf g -> grid_wf (map f g).
Proof.
  intros Hf [H Hc]. split; [by rewrite length_map|]. apply Forall_map. eapply Forall_impl; [exact Hf|exact Hc].
Qed.

(** ** destroy_row() *)
(** move the first [j] cells of a column one row down; the top one stays too *)
Fixpoint shift_down (j : nat) (c : list Z) : list Z :=
  match j with
  | O => c
  | S j' => shift_down j' (<[j := nth0 j' c]> c)
  end.
Lemma lookup_shift_down j c i : (j < length c)%nat ->
  shift_down j c !! i = if decide (0 < i <= j)%nat then c !! (i - 1)%nat else c !! i.
Proof.
  revert c i. induction j as [|j IH]; intros c i Hj; cbn [shift_down]; [by rewrite decide_False by lia|].
  rewrite IH by (rewrite length_insert; lia).
  assert (Hv : c !! j = Some (nth0 j c)).
  { unfold nth0. destruct (lookup_lt_is_Some_2 c j) as [v Hv]; [lia|]. by rewrite Hv. }
  destruct (decide (0 < i <= j)%nat) as [H|H].
  - rewrite decide_True by lia. by rewrite list_lookup_insert_ne by lia.
  - destruct (decide (i = S j)) as [->|Hn].
    + rewrite list_lookup_insert_eq, decide_True by lia. by replace (S j - 1)%nat with j by lia.
    + rewrite list_lookup_insert_ne by lia. by rewrite decide_False by lia.
Qed.
Lemma shift_down_wf j c : (j < 20)%nat -> col_wf c -> col_wf (shift_down j c).
Proof.
  revert c. induction j as [|j IH]; intros c Hj Hc; cbn [shift_down]; [done|]. apply IH; [lia|].
  apply copy_col_wf; [done|lia].
Qed.

(** one more line was cleared: the counter is a byte, and so is the level *)
Definition add_line (s : Game) : Game :=
  let l := u8 (lines_cleared s + 1) in
  let s := set_lines_cleared l s in
  if Z.rem l 10 =? 0 then set_current_level (u8 (current_level s + 1)) s else s.

Lemma copy_row_ok s j : grid_wf (grid s) -> 0 < j < 20 ->
  copy_row j s = Ok tt (set_grid (map (fun c => <[Z.to_nat j := nth0 (Z.to_nat (j - 1)) c]> c) (grid s)) s).
Proof.
  intros Hg Hj. apply columns_ok; [|done|].
  - intros c Hc. apply copy_col_wf; [done|lia].
  - intros i s' Hi Hg'. unfold bind. rewrite grid_get_ok, grid_set_ok by (done || lia). do 2 f_equal. unfold gput.
    destruct (grid_lookup _ i Hg' Hi) as (c & _ & E & _). apply list_eq. intros k.
    destruct (decide (k = Z.to_nat i)) as [->|Hn]; [|by rewrite !list_lookup_alter_ne].
    rewrite !list_lookup_alter_eq, E. simpl. unfold gcell. by rewrite E.
Qed.
Lemma copy_rows_ok n row s : grid_wf (grid s) -> 0 <= row < 20 -> Z.of_nat n <= row ->
  repeat_ n (row - Z.of_nat n) (fun k => copy_row (row - k)) s =
  Ok tt (set_grid (map (shift_down n) (grid s)) s).
Proof.
  revert s. induction n as [|n IH]; intros s Hg Hr Hn; cbn [repeat_]; [by rewrite map_id|].
  cbv zeta. replace (row - (row - Z.of_nat (S n))) with (Z.of_nat (S n)) by lia. unfold bind at 1.
  rewrite copy_row_ok by (done || lia). replace (row - Z.of_nat (S n) + 1) with (row - Z.of_nat n) by lia.
  rewrite IH; [|apply map_wf; [|done]|done|lia].
  - change (set_grid ?a (set_grid ?b s)) with (set_grid a s). cbn [grid set_grid]. rewrite map_map.
    do 2 f_equal. apply map_ext. intros c. rewrite Nat2Z.id.
    by replace (Z.to_nat (Z.of_nat (S n) - 1)) with n by lia.
  - intros c Hc. apply copy_col_wf; [done|lia].
Qed.
Lemma destroy_row_ok s row : grid_wf (grid s) -> 0 <= row < 20 ->
  destroy_row row s = Ok tt (add_line (set_grid (map (shift_down (Z.to_nat row)) (grid s)) s)).
Proof.
  intros Hg Hr. unfold destroy_row, bind at 1. pose proof (copy_rows_ok (Z.to_nat row) row s Hg Hr ltac:(lia)) as H.
  replace (row - Z.of_nat (Z.to_nat row)) with 0 in H by lia. rewrite H.
  unfold bind, modify, get, when, add_line. cbn [lines_cleared current_level set_lines_cleared set_grid].
  by destruct (Z.rem _ 10 =? 0).
Qed.

(** ** clean_destroyed_blocks() *)
(** the number of marked rows, and the cells of a column in the other rows *)
Fixpoint marked (m : list Z) : nat :=
  match m with [] => O | d :: m => if d =? 0 then marked m else S (marked m) end.
Fixpoint kept (m c : list Z) : list Z :=
  match m, c with
  | d :: m, v :: c => if d =? 0 then v :: kept m c else kept m c
  | _, _ => []
  end.
(** what comes down from above *)
Definition top (m c : list Z) : Z := if hd0 m =? 0 then hd0 c else 0.
(** a column without its marked cells *)
Definition collapse (m c : list Z) : list Z := replicate (marked m) (top m c) ++ kept m c.

Lemma marked_app a b : marked (a ++ b) = (marked a + marked b)%nat.
Proof. induction a as [|d a IH]; simpl; [done|]. rewrite IH. by destruct (d =? 0). Qed.
Lemma kept_app a b c d : length a = length c -> kept (a ++ b) (c ++ d) = kept a c ++ kept b d.
Proof.
  revert c. induction a as [|x a IH]; intros [|y c] H; try done. simpl. injection H as H.
  rewrite IH by done. by destruct (x =? 0).
Qed.
Lemma length_kept m c : length m = length c -> (marked m + length (kept m c))%nat = length m.
Proof.
  revert c. induction m as [|d m IH]; intros [|v c] H; try done. simpl. injection H as H.
  destruct (d =? 0); simpl; specialize (IH c H); lia.
Qed.
Lemma shift_down_app a v b : shift_down (length a) (a ++ v :: b) = hd v a :: a ++ b.
Proof.
  apply list_eq. intros i. rewrite lookup_shift_down by (rewrite length_app; simpl; lia).
  destruct i as [|i].
  - rewrite decide_False by lia. by destruct a.
  - simpl. destruct (decide _) as [H|H].
    + rewrite Nat.sub_0_r, !lookup_app_l by lia. done.
    + rewrite !lookup_app_r by lia. by replace (S i - length a)%nat with (S (i - length a)) by lia.
Qed.

(** the column after [j] turns of the loop *)
Fixpoint cleaned (m : list Z) (j : nat) (c : list Z) : list Z :=
  match j with
  | O => c
  | S j => let c := cleaned m j c in if nth0 j m =? 0 then c else shift_down j (<[j := 0]> c)
  end.
Lemma cleaned_spec m c j : length m = length c -> (j <= length c)%nat ->
  cleaned m j c = replicate (marked (take j m)) (top m c) ++ kept (take j m) (take j c) ++ drop j c.
Proof.
  intros Hl. induction j as [|j IH]; intros Hj; [done|]. cbn [cleaned]. cbv zeta. rewrite IH by lia.
  destruct (lookup_lt_is_Some_2 m j) as [d Hd]; [lia|]. destruct (lookup_lt_is_Some_2 c j) as [v Hv]; [lia|].
  unfold nth0. rewrite Hd. cbn [default]. rewrite (take_S_r _ _ _ Hd), (take_S_r _ _ _ Hv), marked_app.
  rewrite kept_app by (rewrite !length_take; lia). rewrite (drop_S _ _ _ Hv). cbn [marked kept].
  set (a := replicate (marked (take j m)) (top m c)) in *. set (b := kept (take j m) (take j c)) in *.
  simpl. destruct (Z.eqb_spec d 0) as [->|Hn]; [rewrite Nat.add_0_r; fold a; by rewrite <- !app_assoc|].
  assert (Hab : length (a ++ b) = j).
  { unfold a, b. rewrite length_app, length_replicate, length_kept by (rewrite !length_take; lia). rewrite length_take. lia. }
  rewrite (app_assoc a b). rewrite <- Hab at 1 2. rewrite insert_app_r_alt, Nat.sub_diag by lia. cbn [insert list_insert].
  rewrite shift_down_app, app_nil_r. replace (marked (take j m) + 1)%nat with (S (marked (take j m))) by lia.
  cbn [replicate app]. fold a. rewrite <- app_assoc. f_equal. unfold a, b, top.
  destruct m as [|m0 m]; [done|]. destruct c as [|c0 c]; [done|]. destruct j as [|j].
  - simpl in Hd. injection Hd as ->. simpl. by rewrite (proj2 (Z.eqb_neq _ _) Hn).
  - simpl. unfold hd0. simpl. destruct (m0 =? 0); [|done]. by destruct (marked (take j m)).
Qed.
Lemma cleaned_all m c : length m = length c -> cleaned m (length c) c = collapse m c.
Proof.
  intros H. rewrite cleaned_spec by lia. rewrite (firstn_all c), drop_ge, app_nil_r by lia.
  rewrite <- H. by rewrite (firstn_all m).
Qed.
Lemma cleaned_wf m j c : (j <= 20)%nat -> col_wf c -> col_wf (cleaned m j c).
Proof.
  intros Hj Hc. induction j as [|j IH]; cbn [cleaned]; [done|]. specialize (IH ltac:(lia)). cbv zeta.
  destruct (nth0 j m =? 0); [done|]. apply shift_down_wf; [lia|]. by apply insert_col_wf.
Qed.

(** the state after [n] cleared lines *)
Definition add_lines (n : nat) (s : Game) : Game := Nat.iter n add_line s.
(** what the score gains for [n] rows at once *)
Definition row_score (n : Z) : Z := if n =? 0 then 0 else SCORE_LINE * (1 + 2 * (n - 1)).

Lemma add_line_frame s : exists l v, add_line s = set_current_level v (set_lines_cleared l s).
Proof. unfold add_line. cbv zeta. destruct (_ =? 0); [by eexists _, _|]. by exists (u8 (lines_cleared s + 1)), (current_level s). Qed.
Lemma add_lines_frame n s : exists l v, add_lines n s = set_current_level v (set_lines_cleared l s).
Proof.
  induction n as [|n (l & v & E)]; [by exists (lines_cleared s), (current_level s)|].
  change (add_lines (S n) s) with (add_line (add_lines n s)). rewrite E.
  destruct (add_line_frame (set_current_level v (set_lines_cleared l s))) as (l' & v' & ->). by exists l', v'.
Qed.
Lemma add_lines_range n s : 0 <= current_level s < 256 -> 0 <= lines_cleared s < 256 ->
  0 <= current_level (add_lines n s) < 256 /\ 0 <= lines_cleared (add_lines n s) < 256.
Proof.
  intros Hv Hl. induction n as [|n [IH1 IH2]]; [done|]. change (add_lines (S n) s) with (add_line (add_lines n s)).
  unfold add_line. cbv zeta. pose proof (u8_range (lines_cleared (add_lines n s) + 1)).
  pose proof (u8_range (current_level (add_lines n s) + 1)). by destruct (_ =? 0).
Qed.
Lemma add_line_grid g s : add_line (set_grid g s) = set_grid g (add_line s).
Proof. unfold add_line. cbn. by destruct (_ =? 0). Qed.
Lemma add_line_marks m s : add_line (set_to_destroy m s) = set_to_destroy m (add_line s).
Proof. unfold add_line. cbn. by destruct (_ =? 0). Qed.

(** the state before turn [j] of the loop *)
Definition cleaning (s : Game) (j : nat) : Game :=
  set_grid (map (cleaned (to_destroy s) j) (grid s))
    (set_to_destroy (replicate j 0 ++ drop j (to_destroy s)) (add_lines (marked (take j (to_destroy s))) s)).

Lemma zero_row_ok s j : grid_wf (grid s) -> 0 <= j < 20 ->
  repeat_ 10 0 (fun i => grid_set i j 0) s = Ok tt (set_grid (map (<[Z.to_nat j := 0]>) (grid s)) s).
Proof.
  intros Hg Hj. apply columns_ok; [|done|].
  - intros c Hc. by apply insert_col_wf.
  - intros i s' Hi Hg'. by rewrite grid_set_ok.
Qed.
Lemma clean_row_ok s (j : nat) count : grid_wf (grid s) -> length (to_destroy s) = 20%nat -> (j < 20)%nat ->
  clean_row (Z.of_nat j) count (cleaning s j) =
  Ok (if nth0 j (to_destroy s) =? 0 then count else count + 1) (cleaning s (S j)).
Proof.
  intros Hg Hm Hj. set (m := to_destroy s) in *. destruct (lookup_lt_is_Some_2 m j) as [d Hd]; [lia|].
  assert (Hn : nth0 j m = d) by (unfold nth0; by rewrite Hd). rewrite Hn. unfold clean_row, to_destroy_get, to_destroy_set.
  assert (Ht : to_destroy (cleaning s j) = replicate j 0 ++ drop j m) by done.
  assert (Hlen : length (replicate j 0 ++ drop j m) = 20%nat) by (rewrite length_app, length_replicate, length_drop; lia).
  assert (Hid : idx (replicate j 0 ++ drop j m) (Z.of_nat j) = Some d).
  { unfold idx. replace (Z.of_nat j <? 0) with false by lia. rewrite Nat2Z.id, lookup_app_r by (rewrite length_replicate; lia).
    by rewrite length_replicate, Nat.sub_diag, lookup_drop, Nat.add_0_r. }
  unfold bind at 1 2, get. rewrite Ht, Hid. cbn [lift ret].
  assert (Hins : forall v, <[j := v]> (replicate j 0 ++ drop j m) = replicate j 0 ++ v :: drop (S j) m).
  { intros v. rewrite (drop_S _ _ _ Hd), insert_app_r_alt by (rewrite length_replicate; lia).
    by rewrite length_replicate, Nat.sub_diag. }
  assert (Hrep : replicate j 0 ++ 0 :: drop (S j) m = replicate (S j) 0 ++ drop (S j) m).
  { change (0 :: drop (S j) m) with ([0] ++ drop (S j) m). rewrite app_assoc. f_equal. change [0] with (replicate 1 0). by rewrite <- replicate_add, Nat.add_1_r. }
  destruct (Z.eqb_spec d 0) as [->|Hd0]; cbn [negb].
  - unfold ret. f_equal. unfold cleaning. fold m. rewrite (take_S_r _ _ _ Hd), marked_app. cbn [marked Z.eqb].
    rewrite Nat.add_0_r. rewrite <- Hrep, <- (Hins 0), list_insert_id.
    + f_equal. apply map_ext. intros c. cbn [cleaned]. by rewrite Hn.
    + unfold idx in Hid. replace (Z.of_nat j <? 0) with false in Hid by lia. by rewrite Nat2Z.id in Hid.
  - unfold bind at 1 2, get. rewrite Ht, upd_lt by (unfold zlen; lia). cbn [lift ret]. rewrite Nat2Z.id, Hins, Hrep.
    unfold modify, bind at 1 2. unfold ret at 1.
    set (s1 := set_to_destroy (replicate (S j) 0 ++ drop (S j) m) (cleaning s j)).
    assert (Hg1 : grid_wf (grid s1)) by (apply map_wf; [|done]; intros c Hc; apply cleaned_wf; [lia|done]).
    rewrite zero_row_ok by (done || lia). unfold bind at 1. rewrite destroy_row_ok.
    2:{ apply map_wf; [|exact Hg1]. intros c Hc. by apply insert_col_wf. } 2: lia.
    unfold ret. f_equal. rewrite Nat2Z.id. unfold s1, cleaning. fold m. cbn [grid set_grid set_to_destroy].
    rewrite (take_S_r _ _ _ Hd), marked_app. cbn [marked]. replace (d =? 0) with false by lia. rewrite Nat.add_1_r.
    change (add_lines (S ?n) s) with (add_line (add_lines n s)).
    rewrite <- add_line_marks, <- add_line_grid. f_equal. rewrite !map_map.
    change (set_grid ?a (set_grid ?b ?c)) with (set_grid a c).
    change (set_grid ?a (set_to_destroy ?x (set_grid ?b ?c))) with (set_grid a (set_to_destroy x c)).
    change (set_to_destroy ?a (set_to_destroy ?b ?c)) with (set_to_destroy a c).
    f_equal. apply map_ext. intros c. cbn [cleaned]. cbv zeta. by rewrite Hn, (proj2 (Z.eqb_neq d 0) Hd0).
Qed.
Lemma clean_rows_ok s n j count : grid_wf (grid s) -> length (to_destroy s) = 20%nat -> (j + n = 20)%nat ->
  fold_i n (Z.of_nat j) clean_row count (cleaning s j) =
  Ok (count + Z.of_nat (marked (drop j (to_destroy s)))) (cleaning s 20).
Proof.
  intros Hg Hm. revert j count. induction n as [|n IH]; intros j count Hj; cbn [fold_i].
  { replace j with 20%nat by lia. rewrite drop_ge by lia. by rewrite Z.add_0_r. }
  unfold bind. rewrite clean_row_ok by (done || lia). replace (Z.of_nat j + 1) with (Z.of_nat (S j)) by lia.
  rewrite IH by lia. f_equal. destruct (lookup_lt_is_Some_2 (to_destroy s) j) as [d Hd]; [lia|].
  rewrite (drop_S _ _ _ Hd). unfold nth0. rewrite Hd. simpl. destruct (d =? 0); simpl; lia.
Qed.
(** the state after clean_destroyed_blocks() *)
Definition cleared (s : Game) : Game :=
  let n := marked (to_destroy s) in
  set_score (u32 (score s + row_score (Z.of_nat n)))
    (set_grid (map (collapse (to_destroy s)) (grid s)) (set_to_destroy (replicate 20 0) (add_lines n s))).
Lemma clean_destroyed_blocks_ok s : grid_wf (grid s) -> length (to_destroy s) = 20%nat -> 0 <= score s < 4294967296 ->
  clean_destroyed_blocks s = Ok tt (cleared s).
Proof.
  intros Hg Hm Hs. unfold clean_destroyed_blocks, bind at 1. pose proof (clean_rows_ok s 20 0 0 Hg Hm eq_refl) as H.
  assert (H0 : cleaning s 0 = s).
  { unfold cleaning. simpl. by rewrite map_id. }
  change (Z.of_nat 0) with 0 in H. rewrite H0 in H. rewrite H, Z.add_0_l. change (drop 0 (to_destroy s)) with (to_destroy s).
  assert (H20 : cleaning s 20 = set_grid (map (collapse (to_destroy s)) (grid s))
    (set_to_destroy (replicate 20 0) (add_lines (marked (to_destroy s)) s))).
  { unfold cleaning. rewrite drop_ge, take_ge, app_nil_r by lia. f_equal. apply map_ext_in. intros c Hc.
    destruct Hg as [_ Hg]. rewrite List.Forall_forall in Hg. specialize (Hg c Hc). destruct Hg as [Hl _].
    rewrite <- Hl at 1. apply cleaned_all. lia. }
  rewrite H20. set (n := marked (to_destroy s)). set (s1 := set_grid _ _). unfold cleared. fold n s1.
  assert (Hsc : score s1 = score s).
  { unfold s1. cbn [score set_grid set_to_destroy]. by destruct (add_lines_frame n s) as (l & v & ->). }
  unfold when, row_score. destruct (Z.eqb_spec (Z.of_nat n) 0); cbn [negb].
  - rewrite Z.add_0_r, u32_small, <- Hsc by lia. done.
  - unfold modify. by rewrite Hsc.
Qed.
Lemma collapse_wf m c : length m = 20%nat -> col_wf c -> col_wf (collapse m c).
Proof. intros Hm Hc. rewrite <- cleaned_all by (destruct Hc; lia). destruct (Hc) as [-> _]. by apply cleaned_wf. Qed.
