(* ===== verification/TetrisShape.v ===== *)
(** * sdl_tetris: the falling shape

    Where the blocks of the shape are, and what move_side(), rotate_shape(),
    fall() and spawn_shape() do with it, as equations: each function answers
    [Ok] with a state that is written down. *)
From S2P Require Import Prelude TetrisState TetrisGraphics TetrisGame TetrisGrid.

(** ** Orientations *)
(** the rotation of rotate_shape(): (x, y) becomes (y, -x) *)
Definition rot (l : list Z) : list Z :=
  match l with
  | [a; b; c; d; e; f; g; h] => [b; - a; d; - c; f; - e; h; - g]
  | _ => l
  end.
Definition base_shape (ty : Z) : list Z := default [] (SHAPES !! Z.to_nat ty).
Definition orientations (ty : Z) : list (list Z) :=
  let l := base_shape ty in
  if ty =? 0 then [l] else [l; rot l; rot (rot l); rot (rot (rot l))].
(** a property of every orientation of every shape, by evaluation *)
Definition all_shapes (p : list Z -> bool) : bool := forallb (fun ty => forallb p (orientations ty)) (seqZ 0 7).
Lemma all_shapes_spec p ty l : all_shapes p = true -> 0 <= ty < 7 -> In l (orientations ty) -> p l = true.
Proof.
  intros H Hty Hl. unfold all_shapes in H. rewrite forallb_forall in H. specialize (H ty).
  rewrite forallb_forall in H. apply H; [|done]. apply in_seqZ. lia.
Qed.
Lemma orientation_range ty l : 0 <= ty < 7 -> In l (orientations ty) ->
  length l = 8%nat /\ forall i, 0 <= i < 8 -> -2 <= nth0 (Z.to_nat i) l <= 2.
Proof.
  intros Hty Hl. pose proof (all_shapes_spec (fun l => (length l =? 8)%nat && forallb (fun v => (-2 <=? v) && (v <=? 2)) l)
    ty l eq_refl Hty Hl) as H. apply andb_true_iff in H as [H1 H2]. apply Nat.eqb_eq in H1. split; [done|].
  intros i Hi. rewrite forallb_forall in H2. unfold nth0. destruct (lookup_lt_is_Some_2 l (Z.to_nat i)) as [v Hv]; [lia|].
  rewrite Hv. simpl. specialize (H2 v ltac:(apply list_elem_of_In; by eapply list_elem_of_lookup_2)). lia.
Qed.
Lemma rot_orientation ty l : 0 <= ty < 7 -> ty <> 0 -> In l (orientations ty) -> In (rot l) (orientations ty).
Proof.
  intros Hty Hne Hl. unfold orientations in *. rewrite (proj2 (Z.eqb_neq _ _) Hne) in *. cbv zeta in *.
  assert (H4 : rot (rot (rot (rot (base_shape ty)))) = base_shape ty).
  { assert (Hc : In ty [0; 1; 2; 3; 4; 5; 6]) by (simpl; lia). simpl in Hc.
    repeat (destruct Hc as [<-|Hc]; [reflexivity|]). done. }
  simpl in Hl. destruct Hl as [<-|[<-|[<-|[<-|[]]]]]; simpl; rewrite ?H4; tauto.
Qed.

(** ** Blocks *)
Definition shape_ok (s : Game) : Prop :=
  0 <= current_shape_type s < 7 /\ In (current_shape s) (orientations (current_shape_type s)).
Definition placed (s : Game) : Prop := shape_ok s /\ 0 <= current_x s < 10 /\ -2 <= current_y s < 20.
Definition block (s : Game) (i : Z) : Z * Z :=
  (nth0 (Z.to_nat (i * 2)) (current_shape s) + current_x s, nth0 (Z.to_nat (i * 2 + 1)) (current_shape s) + current_y s).
Definition blocks (s : Game) : list (Z * Z) := map (block s) (seqZ 0 4).

Lemma shape_entry s i : shape_ok s -> 0 <= i < 8 ->
  idx (current_shape s) i = Some (nth0 (Z.to_nat i) (current_shape s)) /\ -2 <= nth0 (Z.to_nat i) (current_shape s) <= 2.
Proof.
  intros [Hty Hl] Hi. destruct (orientation_range _ _ Hty Hl) as [H1 H2]. split; [|by apply H2].
  unfold nth0. destruct (idx_lt (current_shape s) i) as [v Hv]; [unfold zlen; lia|]. rewrite Hv.
  unfold idx in Hv. replace (i <? 0) with false in Hv by lia. by rewrite Hv.
Qed.
Lemma shape_get_ok s i : shape_ok s -> 0 <= i < 8 -> shape_get i s = Ok (nth0 (Z.to_nat i) (current_shape s)) s.
Proof. intros Hs Hi. destruct (shape_entry s i Hs Hi) as [H _]. unfold shape_get, bind, get. by rewrite H. Qed.
Lemma block_range s i : shape_ok s -> 0 <= i < 4 ->
  current_x s - 2 <= fst (block s i) <= current_x s + 2 /\ current_y s - 2 <= snd (block s i) <= current_y s + 2.
Proof.
  intros Hs Hi. destruct (shape_entry s (i * 2) Hs ltac:(lia)) as [_ H1].
  destruct (shape_entry s (i * 2 + 1) Hs ltac:(lia)) as [_ H2]. unfold block. simpl. lia.
Qed.
Lemma block_at_ok s i dx dy : placed s -> 0 <= i < 4 -> -1 <= dx <= 1 -> 0 <= dy <= 1 ->
  block_at i dx dy s = Ok (fst (block s i) + dx, snd (block s i) + dy) s.
Proof.
  intros (Hs & Hx & Hy) Hi Hdx Hdy. destruct (block_range s i Hs Hi) as [H1 H2]. unfold block in *. simpl in *.
  unfold block_at, bind, get. rewrite !shape_get_ok by (done || lia). unfold ret. by rewrite !i8_small by lia.
Qed.
Lemma in_blocks s b : In b (blocks s) <-> exists i, 0 <= i < 4 /\ b = block s i.
Proof.
  unfold blocks. rewrite in_map_iff. split.
  - intros (i & <- & Hi). apply in_seqZ in Hi. exists i. split; [lia|done].
  - intros (i & Hi & ->). exists i. split; [done|]. apply in_seqZ. lia.
Qed.

(** ** Collisions *)
(** may a block be at this cell? Above the grid it may. *)
Definition free (g : list (list Z)) (x y : Z) : bool :=
  (0 <=? x) && (x <? 10) && (y <? 20) && ((y <? 0) || (gcell g x y =? 0)).
(** the shape at its place shifted by [dx] and [dy] *)
Definition fits (s : Game) (dx dy : Z) : bool :=
  forallb (fun b => free (grid s) (fst b + dx) (snd b + dy)) (blocks s).

Lemma detect_collision_ok s x y : grid_wf (grid s) -> detect_collision x y s = Ok (negb (free (grid s) x y)) s.
Proof.
  intros Hg. unfold detect_collision, free, GRID_WIDTH, GRID_HEIGHT.
  destruct (Z.ltb_spec x 0), (Z.leb_spec 10 x); cbn [orb].
  1-3: replace ((0 <=? x) && (x <? 10)) with false by lia; done.
  replace ((0 <=? x) && (x <? 10)) with true by lia. destruct (Z.leb_spec 20 y).
  - replace (y <? 20) with false by lia. done.
  - replace (y <? 20) with true by lia. destruct (Z.leb_spec 0 y); cbn [andb].
    + replace (y <? 0) with false by lia. unfold bind. rewrite grid_get_ok by (done || lia). done.
    + replace (y <? 0) with true by lia. done.
Qed.
Lemma shape_collides_ok s dx dy : grid_wf (grid s) -> placed s -> -1 <= dx <= 1 -> 0 <= dy <= 1 ->
  shape_collides dx dy s = Ok (if fits s dx dy then None else Some tt) s.
Proof.
  intros Hg Hp Hdx Hdy. unfold shape_collides.
  rewrite (for_return_all (fun i => free (grid s) (fst (block s i) + dx) (snd (block s i) + dy)) tt).
  - unfold fits, blocks. by rewrite forallb_map.
  - intros i Hi. unfold bind. rewrite block_at_ok by (done || lia). rewrite detect_collision_ok by done. unfold ret.
    by destruct (free _ _ _).
Qed.
Lemma fits_spec s dx dy : fits s dx dy = true <-> forall i, 0 <= i < 4 -> free (grid s) (fst (block s i) + dx) (snd (block s i) + dy) = true.
Proof.
  unfold fits. rewrite forallb_forall. split.
  - intros H i Hi. apply (H (block s i)). apply in_blocks. by exists i.
  - intros H b Hb. apply in_blocks in Hb as (i & Hi & ->). by apply H.
Qed.

(** ** Speed *)
Definition curr_freq (s : Game) : Z := if 15 <=? current_level s then 1 else nth0 (Z.to_nat (current_level s)) LEVEL_FREQS.
Lemma curr_freq_ok s : 0 <= current_level s -> get_curr_fall_freq s = Ok (curr_freq s) s.
Proof.
  intros H. unfold get_curr_fall_freq, bind, get, curr_freq, MAX_LEVEL_FREQ. destruct (Z.leb_spec 15 (current_level s)); [done|].
  destruct (idx_lt LEVEL_FREQS (current_level s)) as [v Hv]; [unfold zlen; simpl; lia|]. rewrite Hv.
  unfold idx in Hv. replace (current_level s <? 0) with false in Hv by lia. unfold nth0. by rewrite Hv.
Qed.
Lemma curr_freq_range s : 0 <= current_level s -> 1 <= curr_freq s <= 48.
Proof.
  intros H. unfold curr_freq. destruct (Z.leb_spec 15 (current_level s)); [lia|].
  assert (Hall : forallb (fun v => (1 <=? v) && (v <=? 48)) LEVEL_FREQS = true) by done.
  rewrite forallb_forall in Hall. unfold nth0.
  destruct (lookup_lt_is_Some_2 LEVEL_FREQS (Z.to_nat (current_level s))) as [v Hv]; [simpl; lia|]. rewrite Hv. simpl.
  specialize (Hall v ltac:(apply list_elem_of_In; by eapply list_elem_of_lookup_2)). lia.
Qed.
(** the state after reset_fall_freq() *)
Definition reset (s : Game) : Game := set_fall_freq (curr_freq s) s.
Lemma reset_ok s : 0 <= current_level s -> reset_fall_freq s = Ok tt (reset s).
Proof. intros H. unfold reset_fall_freq, bind. by rewrite curr_freq_ok. Qed.
Lemma update_fall_freq_ok s new : 0 <= current_level s -> 0 <= new < 256 ->
  update_fall_freq new s = Ok tt (set_fall_freq (Z.min (curr_freq s) new) s).
Proof.
  intros H Hn. unfold update_fall_freq, bind. rewrite curr_freq_ok by done. destruct (Z.ltb_spec (curr_freq s) new).
  - by rewrite Z.min_l by lia.
  - by rewrite u8_small, Z.min_r by lia.
Qed.

(** ** Moving and turning *)
Definition moved (d : Z) (s : Game) : Game := set_state_changed 1 (set_current_x (current_x s + d) s).
Lemma move_side_ok s d : grid_wf (grid s) -> placed s -> 0 <= current_level s -> -1 <= d <= 1 ->
  move_side d s = Ok tt (if fits s d 0 then moved d (reset s) else reset s).
Proof.
  intros Hg Hp Hl Hd. unfold move_side, bind at 1. rewrite reset_ok by done. unfold bind at 1.
  rewrite shape_collides_ok by (done || lia). change (fits (reset s) d 0) with (fits s d 0).
  destruct (fits s d 0); [|done]. unfold bind, modify, moved. destruct Hp as (_ & Hx & _).
  cbn [current_x reset set_fall_freq]. by rewrite i8_small by lia.
Qed.
(** the blocks of the turned shape *)
Definition turned (s : Game) : Game := set_current_shape (rot (current_shape s)) s.
Lemma rotate_block_step s n i temp : grid_wf (grid s) -> placed s -> 0 <= i < 4 -> length temp = 8%nat ->
  rotate_blocks (S n) i temp s =
  let tx := nth0 (Z.to_nat (i * 2 + 1)) (current_shape s) in
  let ty := - nth0 (Z.to_nat (i * 2)) (current_shape s) in
  if free (grid s) (tx + current_x s) (ty + current_y s)
  then rotate_blocks n (i + 1) (<[Z.to_nat (i * 2 + 1) := ty]> (<[Z.to_nat (i * 2) := tx]> temp)) s
  else Ok None s.
Proof.
  intros Hg (Hs & Hx & Hy) Hi Hl. cbn [rotate_blocks]. cbv zeta.
  destruct (shape_entry s (i * 2) Hs ltac:(lia)) as [_ H1]. destruct (shape_entry s (i * 2 + 1) Hs ltac:(lia)) as [_ H2].
  pose proof (shape_get_ok s (i * 2) Hs ltac:(lia)) as E1. pose proof (shape_get_ok s (i * 2 + 1) Hs ltac:(lia)) as E2.
  unfold bind at 1, get. unfold bind at 1. rewrite E2. rewrite upd_lt by (unfold zlen; lia). unfold bind at 1. cbn [lift ret].
  unfold bind at 1. rewrite E1. rewrite upd_lt by (unfold zlen; rewrite length_insert; lia).
  unfold bind at 1. cbn [lift ret]. rewrite (i8_small (- _)), !i8_small by lia. unfold bind at 1. rewrite detect_collision_ok by done.
  by destruct (free _ _ _).
Qed.
(** evaluate the constant array indices of the goal *)
Ltac eval_indices := repeat match goal with
  | |- context [Z.to_nat ?e] => let v := eval vm_compute in (Z.to_nat e) in change (Z.to_nat e) with v
  end.
Lemma rotate_blocks_ok s a b c d e f g h : current_shape s = [a; b; c; d; e; f; g; h] -> grid_wf (grid s) -> placed s ->
  rotate_blocks 4 0 (replicate 8 0) s = Ok (if fits (turned s) 0 0 then Some (rot (current_shape s)) else None) s.
Proof.
  intros Hs Hg Hp. unfold fits, blocks, block, turned. cbn [current_shape set_current_shape current_x current_y grid].
  change (seqZ 0 4) with [0; 1; 2; 3]. cbn [map forallb fst snd].
  do 4 (rewrite (rotate_block_step s) by (done || lia); cbv zeta). rewrite Hs. eval_indices. cbn [nth0 lookup list_lookup default from_option id rot]. rewrite !Z.add_0_r.
  destruct (free _ (b + _) _); [|done]. destruct (free _ (d + _) _); [|done].
  destruct (free _ (f + _) _); [|done]. by destruct (free _ (h + _) _).
Qed.
Lemma shape_eight s : shape_ok s -> exists a b c d e f g h, current_shape s = [a; b; c; d; e; f; g; h].
Proof.
  intros [Hty Hl]. destruct (orientation_range _ _ Hty Hl) as [H _].
  destruct (current_shape s) as [|a [|b [|c [|d [|e [|f [|g [|h [|]]]]]]]]]; try done. by exists a, b, c, d, e, f, g, h.
Qed.
(** a loop that copies the eight numbers of [l] to the current shape *)
Lemma copy_shape_loop l body s n i cs : length l = 8%nat -> length cs = 8%nat -> 0 <= i -> i + Z.of_nat n = 8 ->
  (forall j cs, 0 <= j < 8 -> length cs = 8%nat ->
     body j (set_current_shape cs s) = Ok tt (set_current_shape (<[Z.to_nat j := nth0 (Z.to_nat j) l]> cs) s)) ->
  repeat_ n i body (set_current_shape cs s) = Ok tt (set_current_shape (take (Z.to_nat i) cs ++ drop (Z.to_nat i) l) s).
Proof.
  intros Hl. revert i cs. induction n as [|n IH]; intros i cs Hc Hi Hn Hb; cbn [repeat_].
  { rewrite take_ge, drop_ge, app_nil_r by lia. done. }
  unfold bind. rewrite Hb by (done || lia). rewrite IH; try done; [|by rewrite length_insert|lia|lia].
  do 2 f_equal. destruct (lookup_lt_is_Some_2 l (Z.to_nat i)) as [v Hv]; [lia|].
  rewrite (drop_S _ _ _ Hv). unfold nth0. rewrite Hv. simpl. replace (Z.to_nat (i + 1)) with (S (Z.to_nat i)) by lia.
  rewrite (take_S_r _ _ v) by (rewrite list_lookup_insert_eq by lia; done). rewrite take_insert_ge by lia.
  by rewrite <- app_assoc.
Qed.
Lemma copy_shape_ok l body s : length l = 8%nat -> length (current_shape s) = 8%nat ->
  (forall j cs, 0 <= j < 8 -> length cs = 8%nat ->
     body j (set_current_shape cs s) = Ok tt (set_current_shape (<[Z.to_nat j := nth0 (Z.to_nat j) l]> cs) s)) ->
  repeat_ 8 0 body s = Ok tt (set_current_shape l s).
Proof.
  intros Hl Hc Hb. pose proof (copy_shape_loop l body s 8 0 (current_shape s) Hl Hc ltac:(lia) ltac:(lia) Hb) as H. exact H.
Qed.
Lemma rotate_shape_ok s : grid_wf (grid s) -> placed s -> 0 <= current_level s ->
  rotate_shape s = Ok tt (
    if current_shape_type s =? 0 then reset s
    else if fits (turned s) 0 0 then turned (set_state_changed 1 (reset s)) else set_state_changed 1 (reset s)).
Proof.
  intros Hg Hp Hl. unfold rotate_shape, bind at 1. rewrite reset_ok by done. unfold bind at 1, get.
  change (current_shape_type (reset s)) with (current_shape_type s). destruct (current_shape_type s =? 0); [done|].
  unfold bind at 1, modify. set (s1 := set_state_changed 1 (reset s)). unfold bind at 1.
  destruct (shape_eight s1) as (a & b & c & d & e & f & g & h & Es); [apply Hp|].
  rewrite (rotate_blocks_ok s1 a b c d e f g h Es Hg Hp). change (fits (turned s1) 0 0) with (fits (turned s) 0 0).
  destruct (fits (turned s) 0 0); [|done]. apply copy_shape_ok; [by rewrite Es|by rewrite Es|].
  intros j cs Hj Hcs. rewrite Es. cbn [rot]. destruct (idx_lt [b; - a; d; - c; f; - e; h; - g] j) as [v Hv]; [done|].
  unfold bind, shape_set, get. rewrite Hv. cbn. rewrite upd_lt by (unfold zlen; lia). cbn.
  unfold idx in Hv. replace (j <? 0) with false in Hv by lia. unfold nth0. by rewrite Hv.
Qed.

(** ** A new shape *)
Definition rand_ok (w : sdl_world) : Prop := forall k, 0 <= w_rand w k.
(** the shape that the next two numbers of rand() choose, two rows above the grid *)
Definition entering (s : Game) : Game :=
  let ty := Z.rem (w_rand (world s) (rnd s)) 7 in
  let color := Z.rem (w_rand (world s) (S (rnd s))) 13 + 1 in
  set_current_y (-2) (set_current_x 5 (set_current_shape (base_shape ty)
    (set_current_shape_color color (set_current_shape_type ty (set_rnd (S (S (rnd s))) (set_state_changed 1 s)))))).
(** it comes down as far as it fits, but to row 0 at most *)
Definition spawned (s : Game) : Game :=
  let s := entering s in
  if fits s 0 1 then
    let s := set_current_y (-1) s in
    if fits s 0 1 then set_current_y 0 s else s
  else s.

Lemma base_shape_in ty : In (base_shape ty) (orientations ty).
Proof. unfold orientations. cbv zeta. destruct (ty =? 0); left; done. Qed.
Lemma rem_range a n : 0 <= a -> 0 < n -> 0 <= Z.rem a n < n.
Proof. intros Ha Hn. apply Z.rem_bound_pos; lia. Qed.
(** the new shape is there, and no row below the first two of the grid matters *)
Definition entered (s : Game) : Prop :=
  placed s /\ current_x s = 5 /\ current_y s <= 0 /\ current_shape s = base_shape (current_shape_type s).
Lemma entering_placed s : rand_ok (world s) -> entered (entering s).
Proof.
  intros Hw. pose proof (rem_range (w_rand (world s) (rnd s)) 7 (Hw _) ltac:(lia)) as H.
  split; [|split; [done|split; [cbn; lia|done]]]. split; [split|]; cbn -[orientations]; [done|apply base_shape_in|lia].
Qed.
Lemma base_columns ty i : 0 <= ty < 7 -> 0 <= i < 4 -> -1 <= nth0 (Z.to_nat (i * 2)) (base_shape ty) <= 1.
Proof.
  intros Hty Hi.
  assert (H : forallb (fun ty => forallb (fun i => let v := nth0 (Z.to_nat (i * 2)) (base_shape ty) in
    (-1 <=? v) && (v <=? 1)) (seqZ 0 4)) (seqZ 0 7) = true) by done.
  rewrite forallb_seqZ in H. specialize (H ty ltac:(lia)). rewrite forallb_seqZ in H. specialize (H i ltac:(lia)).
  cbv beta zeta in H. lia.
Qed.
Lemma spawn_blocked_ok s : grid_wf (grid s) -> entered s ->
  spawn_blocked s = Ok (if fits s 0 1 then None else Some tt) s.
Proof.
  intros Hg (Hp & Hx & Hy & Hb). unfold spawn_blocked.
  rewrite (for_return_all (fun i => free (grid s) (fst (block s i) + 0) (snd (block s i) + 1)) tt).
  - unfold fits, blocks. by rewrite forallb_map.
  - intros i Hi. pose proof (base_columns (current_shape_type s) i ltac:(apply Hp) ltac:(lia)) as Hc.
    destruct (block_range s i ltac:(apply Hp) ltac:(lia)) as [_ Hr]. unfold bind. rewrite block_at_ok by (done || lia).
    assert (Hbx : 4 <= fst (block s i) <= 6) by (unfold block; cbn [fst]; rewrite Hb, Hx; lia).
    set (x := fst (block s i)) in *. set (y := snd (block s i)) in *. unfold free.
    replace ((0 <=? x + 0) && (x + 0 <? 10) && (y + 1 <? 20)) with true by lia. cbn [andb].
    destruct (Z.leb_spec 0 (y + 1)).
    + replace (y + 1 <? 0) with false by lia. rewrite grid_get_ok by (done || lia). unfold ret. cbn [orb].
      by destruct (gcell _ _ _ =? 0).
    + by replace (y + 1 <? 0) with true by lia.
Qed.
Lemma entered_y s y : entered s -> -2 <= y <= 0 -> entered (set_current_y y s).
Proof. intros ((Hs & Hx & Hy) & H1 & H2 & H3) H. split; [split; [exact Hs|cbn; lia]|]. cbn. split; [done|]. split; [lia|done]. Qed.
Lemma choose_shape_ok s : length (current_shape s) = 8%nat -> 0 <= current_shape_type s < 7 ->
  repeat_ 8 0 (fun i =>
    s <- get ;;
    sh <- lift OutOfBounds (idx SHAPES (current_shape_type s)) ;;
    v <- lift OutOfBounds (idx sh i) ;;
    shape_set i v) s = Ok tt (set_current_shape (base_shape (current_shape_type s)) s).
Proof.
  intros Hl Hty. pose proof (base_shape_in (current_shape_type s)) as Hin.
  destruct (orientation_range _ _ Hty Hin) as [H8 _]. apply copy_shape_ok; [done|done|].
  intros j cs Hj Hcs. unfold bind, get. cbn [current_shape_type set_current_shape].
  destruct (idx_lt SHAPES (current_shape_type s)) as [sh Hsh]; [done|]. rewrite Hsh.
  assert (Hb : base_shape (current_shape_type s) = sh).
  { unfold idx in Hsh. replace (current_shape_type s <? 0) with false in Hsh by lia. unfold base_shape. by rewrite Hsh. }
  rewrite Hb in *. cbn [lift ret]. destruct (idx_lt sh j) as [v Hv]; [unfold zlen; lia|]. unfold ret. rewrite Hv. cbn [lift].
  unfold shape_set, bind, get, ret. cbn [current_shape set_current_shape]. rewrite upd_lt by (unfold zlen; lia). cbn.
  unfold idx in Hv. replace (j <? 0) with false in Hv by lia. unfold nth0. by rewrite Hv.
Qed.
Lemma spawn_shape_ok s : grid_wf (grid s) -> length (current_shape s) = 8%nat -> rand_ok (world s) ->
  spawn_shape s = Ok tt (spawned s).
Proof.
  intros Hg Hl Hw. pose proof (rem_range (w_rand (world s) (rnd s)) 7 (Hw _) ltac:(lia)) as Hty.
  pose proof (rem_range (w_rand (world s) (S (rnd s))) 13 (Hw _) ltac:(lia)) as Hco.
  pose proof (entering_placed s Hw) as He. unfold spawn_shape, rand, bind at 1, modify at 1.
  unfold bind at 1 2 3, get at 1, modify at 1, ret at 1. unfold bind at 1, modify at 1.
  unfold bind at 1 2 3, get at 1, modify at 1, ret at 1. unfold bind at 1, modify at 1.
  cbn [world rnd set_state_changed set_rnd set_current_shape_type]. unfold N_SHAPES, N_COLORS.
  change (14 - 1) with 13. rewrite !u8_small by lia. unfold bind at 1. rewrite choose_shape_ok by (cbn; done || lia).
  unfold bind at 1, modify at 1. change (GRID_WIDTH / 2) with 5. unfold bind at 1, modify at 1.
  change (set_current_y (-2) _) with (entering s). unfold spawned. cbv zeta. cbn [for_return].
  unfold bind at 1 2 3. rewrite spawn_blocked_ok by done. destruct (fits (entering s) 0 1); [|done].
  unfold bind, modify, ret. change (i8 (current_y (entering s) + 1)) with (-1).
  rewrite spawn_blocked_ok by (done || (apply entered_y; [done|lia])).
  by destruct (fits (set_current_y (-1) (entering s)) 0 1).
Qed.
