(* ===== verification/TetrisLock.v ===== *)
(** * sdl_tetris: locking the shape

    What lock_shape() does when the shape cannot fall: its blocks are placed
    in the grid, the full rows are marked and removed, and the game is over
    when a block reached row 0. *)
From S2P Require Import Prelude TetrisState TetrisGraphics TetrisGame TetrisGrid TetrisShape.

(** ** Placing blocks *)
Definition place1 (color : Z) (g : list (list Z)) (b : Z * Z) : list (list Z) :=
  if 0 <=? snd b then gput (fst b) (snd b) color g else g.
Definition place (color : Z) (bs : list (Z * Z)) (g : list (list Z)) : list (list Z) := foldl (place1 color) g bs.
(** the cells that blocks may take *)
Definition in_grid (b : Z * Z) : Prop := 0 <= fst b < 10 /\ snd b < 20.
Definition taken (bs : list (Z * Z)) (x y : Z) : bool := existsb (fun b => (fst b =? x) && (snd b =? y)) bs.

Lemma place_snoc color bs b g : place color (bs ++ [b]) g = place1 color (place color bs g) b.
Proof. unfold place. by rewrite foldl_app. Qed.
Lemma place_wf color bs g : 0 <= color < 14 -> grid_wf g -> grid_wf (place color bs g).
Proof.
  intros Hc Hg. induction bs as [|b bs IH] using rev_ind; [done|]. rewrite place_snoc. unfold place1.
  destruct (0 <=? snd b); [by apply gput_wf|done].
Qed.
Lemma gcell_place color bs g x y : 0 <= color < 14 -> grid_wf g -> Forall in_grid bs -> 0 <= x < 10 -> 0 <= y < 20 ->
  gcell (place color bs g) x y = if taken bs x y then color else gcell g x y.
Proof.
  intros Hc Hg Hbs Hx Hy. induction bs as [|b bs IH] using rev_ind; [done|].
  apply Forall_app in Hbs as [H1 H2]. inversion_clear H2 as [|? ? [Hb1 Hb2] _]. specialize (IH H1).
  rewrite place_snoc. unfold place1, taken in *. rewrite existsb_app. cbn [existsb]. rewrite orb_false_r.
  destruct (Z.leb_spec 0 (snd b)) as [Hb|Hb].
  - rewrite gcell_gput by (try lia; by apply place_wf). rewrite IH. destruct (decide _) as [[-> ->]|Hn].
    + by rewrite !Z.eqb_refl, orb_true_r.
    + replace ((fst b =? x) && (snd b =? y)) with false by lia. by rewrite orb_false_r.
  - rewrite IH. replace (snd b =? y) with false by lia. by rewrite andb_false_r, orb_false_r.
Qed.

(** ** Full rows *)
Definition full_row (g : list (list Z)) (y : Z) : bool := forallb (fun x => negb (gcell g x y =? 0)) (seqZ 0 10).
Definition empty_row (g : list (list Z)) (y : Z) : Prop := forall x, 0 <= x < 10 -> gcell g x y = 0.
Definition no_full (g : list (list Z)) : Prop := forall y, 0 <= y < 20 -> full_row g y = false.
(** the marks of the rows that [p] holds of *)
Definition marks (p : Z -> bool) : list Z := map (fun y => if p y then 1 else 0) (seqZ 0 20).
Definition full_marks (g : list (list Z)) : list Z := marks (full_row g).

Lemma full_row_ext g g' y y' : (forall x, 0 <= x < 10 -> gcell g x y = gcell g' x y') -> full_row g y = full_row g' y'.
Proof.
  intros H. apply eq_iff_eq_true. unfold full_row. rewrite !forallb_seqZ. split; intros Hf x Hx; specialize (Hf x Hx).
  - by rewrite <- H by lia.
  - by rewrite H by lia.
Qed.
Lemma length_marks p : length (marks p) = 20%nat.
Proof. unfold marks. by rewrite length_map, length_seqZ. Qed.
Lemma lookup_marks p y : 0 <= y < 20 -> marks p !! Z.to_nat y = Some (if p y then 1 else 0).
Proof.
  intros Hy. unfold marks. rewrite list_lookup_fmap_alt || rewrite list_lookup_fmap.
  rewrite lookup_seqZ_lt by lia. simpl. by replace (0 + Z.of_nat (Z.to_nat y)) with y by lia.
Qed.
Lemma marks_ext p q : (forall y, 0 <= y < 20 -> p y = q y) -> marks p = marks q.
Proof. intros H. apply map_ext_in. intros y Hy. apply in_seqZ in Hy. by rewrite H by lia. Qed.
Lemma marks_insert p q y : 0 <= y < 20 -> q y = true -> (forall z, 0 <= z < 20 -> z <> y -> q z = p z) ->
  <[Z.to_nat y := 1]> (marks p) = marks q.
Proof.
  intros Hy Hq Hz. apply list_eq. intros i. destruct (decide (i < 20)%nat) as [Hi|Hi].
  2:{ rewrite !lookup_ge_None_2; [done|..]; rewrite ?length_insert, length_marks; lia. }
  replace i with (Z.to_nat (Z.of_nat i)) by lia. rewrite (lookup_marks q) by lia.
  destruct (decide (Z.of_nat i = y)) as [->|Hn].
  - rewrite list_lookup_insert_eq by (rewrite length_marks; lia). by rewrite Hq.
  - rewrite list_lookup_insert_ne by lia. rewrite lookup_marks by lia. by rewrite Hz by lia.
Qed.
Lemma no_marks : marks (fun _ => false) = replicate 20 0.
Proof. done. Qed.

Lemma row_is_full_ok s p y : grid_wf (grid s) -> to_destroy s = marks p -> y < 20 ->
  row_is_full y s =
  if (y <? 0) || p y then Ok true s
  else if full_row (grid s) y then Ok true (set_to_destroy (<[Z.to_nat y := 1]> (marks p)) s)
  else Ok false s.
Proof.
  intros Hg Hm Hy. unfold row_is_full. destruct (Z.ltb_spec y 0) as [Hlt|Hge]; cbn [orb]; [done|].
  unfold to_destroy_get, bind at 1 2 3, get. rewrite Hm. unfold idx at 1.
  replace (y <? 0) with false by lia. rewrite lookup_marks by lia. cbn [lift ret]. unfold ret at 1 2.
  destruct (p y); [done|]. cbn [negb Z.eqb]. unfold bind at 1.
  rewrite (for_return_all (fun i => negb (gcell (grid s) i y =? 0)) tt).
  - unfold full_row. change (Z.of_nat 10) with 10. destruct (forallb _ _); [|done].
    unfold to_destroy_set, bind, get. rewrite Hm, upd_lt by (unfold zlen; rewrite length_marks; lia). done.
  - intros j Hj. unfold bind. rewrite grid_get_ok by (done || lia). unfold ret. by destruct (gcell _ _ _ =? 0).
Qed.

(** a row that was empty is not filled by four blocks *)
Lemma full_needs_ten color bs g y : 0 <= color < 14 -> grid_wf g -> Forall in_grid bs -> (length bs < 10)%nat ->
  0 <= y < 20 -> empty_row g y -> full_row (place color bs g) y = false.
Proof.
  intros Hc Hg Hbs Hl Hy He. destruct (full_row _ y) eqn:Hf; [|done]. exfalso.
  unfold full_row in Hf. rewrite forallb_seqZ in Hf.
  assert (Hincl : List.incl (seqZ 0 10) (map fst bs)).
  { intros x Hx. apply in_seqZ in Hx. specialize (Hf x ltac:(lia)). rewrite gcell_place in Hf by (done || lia).
    destruct (taken bs x y) eqn:Ht; [|rewrite He in Hf by lia; done]. unfold taken in Ht.
    apply existsb_exists in Ht as (b & Hb & Hxy). apply in_map_iff. exists b. split; [lia|done]. }
  apply NoDup_incl_length in Hincl; [|apply NoDup_ListNoDup, NoDup_seqZ]. rewrite length_map in Hincl. simpl in Hincl. lia.
Qed.
(** a block keeps its row from becoming less full, and leaves the others *)
Lemma full_row_place1 color b g y : 0 < color < 14 -> grid_wf g -> in_grid b -> 0 <= y < 20 ->
  (full_row g y = true -> full_row (place1 color g b) y = true) /\
  (snd b <> y -> full_row (place1 color g b) y = full_row g y).
Proof.
  intros Hc Hg [Hb1 Hb2] Hy. unfold place1, full_row. destruct (Z.leb_spec 0 (snd b)); [|done]. split.
  - rewrite !forallb_seqZ. intros Hf x Hx. rewrite gcell_gput by (done || lia). destruct (decide _); [lia|]. by apply Hf.
  - intros Hn. apply full_row_ext. intros x Hx. rewrite gcell_gput by (done || lia). by rewrite decide_False by lia.
Qed.

(** ** lock_shape() *)
(** the rows with a block of [bs] that are full *)
Definition touched (bs : list (Z * Z)) (g : list (list Z)) (y : Z) : bool := existsb (fun b => snd b =? y) bs && full_row g y.
(** did a block of [bs] come to row 0? *)
Definition at_top (bs : list (Z * Z)) : bool := existsb (fun b => snd b =? 0) bs.
(** what the loop of lock_shape() has done when it has seen the blocks [bs] *)
Definition locking (s : Game) (bs : list (Z * Z)) (c : list sdl_call) : Game :=
  let g := place (current_shape_color s) bs (grid s) in
  set_calls (calls s ++ c) (set_game_over (if at_top bs then 1 else game_over s)
    (set_to_destroy (marks (touched bs g)) (set_grid g s))).

Record lockable (s : Game) : Prop := mkLockable {
  lk_grid : grid_wf (grid s);
  lk_placed : placed s;
  lk_fits : fits s 0 0 = true;
  lk_color : 0 < current_shape_color s < 14;
  lk_marks : to_destroy s = replicate 20 0;
  lk_top : empty_row (grid s) 0;
  lk_rows : no_full (grid s);
  lk_over : game_over s = 0
}.
Lemma lockable_blocks s : lockable s -> Forall in_grid (blocks s).
Proof.
  intros H. pose proof (lk_fits _ H) as Hf. rewrite fits_spec in Hf. apply Forall_forall. intros b Hb.
  apply in_blocks in Hb as (i & Hi & ->). specialize (Hf i Hi). unfold free in Hf. rewrite !Z.add_0_r in Hf.
  unfold in_grid. lia.
Qed.
Lemma touched_snoc color bs b g y : 0 < color < 14 -> grid_wf g -> Forall in_grid (bs ++ [b]) -> 0 <= y < 20 ->
  touched (bs ++ [b]) (place color (bs ++ [b]) g) y =
  touched bs (place color bs g) y || ((snd b =? y) && full_row (place color (bs ++ [b]) g) y).
Proof.
  intros Hc Hg Hbs Hy. apply Forall_app in Hbs as [H1 H2]. inversion_clear H2 as [|? ? Hb _].
  rewrite place_snoc. destruct (full_row_place1 color b (place color bs g) y) as [Hm Hn]; [done|by apply place_wf; [lia|]|done|done|].
  unfold touched. rewrite existsb_app. cbn [existsb]. rewrite orb_false_r.
  destruct (Z.eqb_spec (snd b) y) as [E|E].
  - rewrite orb_true_r. cbn [andb]. destruct (existsb _ bs); [|done]. destruct (full_row (place color bs g) y); [|done]. by rewrite Hm.
  - rewrite orb_false_r. cbn [andb]. rewrite orb_false_r. by rewrite Hn.
Qed.

(** row_is_full() of the row of the block that was just placed *)
Lemma lock_row_ok s bs b c : lockable s -> Forall in_grid (bs ++ [b]) ->
  let color := current_shape_color s in
  let s1 := set_grid (place color (bs ++ [b]) (grid s)) (locking s bs c) in
  let full := (snd b <? 0) || full_row (place color (bs ++ [b]) (grid s)) (snd b) in
  row_is_full (snd b) s1 = Ok full (set_to_destroy (marks (touched (bs ++ [b]) (place color (bs ++ [b]) (grid s)))) s1) /\
  (full = false -> forall y, 0 <= y < 20 -> touched (bs ++ [b]) (place color (bs ++ [b]) (grid s)) y = touched bs (place color bs (grid s)) y).
Proof.
  intros Hl Hbs color s1 full. pose proof (lk_color _ Hl) as Hc. pose proof (lk_grid _ Hl) as Hg.
  pose proof (fun y => touched_snoc color bs b (grid s) y Hc Hg Hbs) as Hsn.
  assert (Hb : in_grid b) by (apply Forall_app in Hbs as [_ H]; by inversion_clear H).
  assert (Hmono : 0 <= snd b -> touched bs (place color bs (grid s)) (snd b) = true ->
    full_row (place color (bs ++ [b]) (grid s)) (snd b) = true).
  { intros Hy Ht. apply andb_true_iff in Ht as [_ Ht]. rewrite place_snoc.
    apply full_row_place1; [done|apply place_wf; [lia|done]|done|destruct Hb; lia|done]. }
  rewrite (row_is_full_ok s1 (touched bs (place color bs (grid s))) (snd b)); [|by apply place_wf; [lia|]|done|apply Hb].
  change (grid s1) with (place color (bs ++ [b]) (grid s)). unfold full. destruct Hb as [Hb1 Hb2]. split.
  - destruct (Z.ltb_spec (snd b) 0) as [Hneg|Hpos]; cbn [orb].
    + f_equal. rewrite (marks_ext (touched (bs ++ [b]) _) (touched bs (place color bs (grid s)))); [done|].
      intros y Hy. rewrite Hsn by done. replace (snd b =? y) with false by lia. apply orb_false_r.
    + destruct (touched bs (place color bs (grid s)) (snd b)) eqn:Ht.
      * rewrite (Hmono Hpos eq_refl). f_equal. rewrite (marks_ext (touched (bs ++ [b]) _) (touched bs (place color bs (grid s)))); [done|].
        intros y Hy. rewrite Hsn by done. destruct (Z.eqb_spec (snd b) y) as [<-|]; [by rewrite Ht|apply orb_false_r].
      * destruct (full_row _ (snd b)) eqn:Hf.
        -- f_equal. rewrite (marks_insert _ (touched (bs ++ [b]) (place color (bs ++ [b]) (grid s)))); [done|lia| |].
           ++ rewrite Hsn by lia. rewrite Hf, Z.eqb_refl. apply orb_true_r.
           ++ intros z Hz Hne. rewrite Hsn by done. replace (snd b =? z) with false by lia. apply orb_false_r.
        -- f_equal. rewrite (marks_ext (touched (bs ++ [b]) _) (touched bs (place color bs (grid s)))); [done|].
           intros y Hy. rewrite Hsn by done. destruct (Z.eqb_spec (snd b) y) as [<-|]; [by rewrite Hf, Ht|apply orb_false_r].
  - intros Hf y Hy. apply orb_false_iff in Hf as [H1 H2]. rewrite Hsn by done.
    destruct (Z.eqb_spec (snd b) y) as [<-|]; [by rewrite H2, orb_false_r|apply orb_false_r].
Qed.

Lemma lock_block_ok s bs b rest c n : lockable s -> blocks s = bs ++ b :: rest ->
  let i := zlen bs in 0 <= n <= i -> b = block s i ->
  exists n' c', lock_block i n (locking s bs c) = Ok n' (locking s (bs ++ [b]) c') /\ n <= n' <= n + 1 /\
    (n' = n -> forall y, 0 <= y < 20 ->
       touched (bs ++ [b]) (place (current_shape_color s) (bs ++ [b]) (grid s)) y =
       touched bs (place (current_shape_color s) bs (grid s)) y).
Proof.
  intros Hl Hbl i Hn Hbi. pose proof (lockable_blocks s Hl) as Hall. rewrite Hbl in Hall.
  assert (H4 : (length bs + S (length rest))%nat = 4%nat).
  { pose proof (f_equal length Hbl) as H. unfold blocks in H. rewrite length_map, length_seqZ, length_app in H. simpl in H. lia. }
  assert (Hbs : Forall in_grid (bs ++ [b])).
  { apply Forall_app in Hall as [H1 H2]. apply Forall_app. split; [done|]. inversion_clear H2. by constructor. }
  destruct (lock_row_ok s bs b c Hl Hbs) as [Hrow Hsame]. set (color := current_shape_color s) in *.
  assert (Hb : in_grid b) by (apply Forall_app in Hbs as [_ H]; by inversion_clear H). destruct Hb as [Hb1 Hb2].
  assert (Htop : snd b = 0 -> full_row (place color (bs ++ [b]) (grid s)) (snd b) = false).
  { intros ->. apply full_needs_ten; [pose proof (lk_color _ Hl); unfold color; lia|apply Hl|done|rewrite length_app; simpl; lia|lia|apply Hl]. }
  unfold lock_block, bind at 1. rewrite block_at_ok; [|apply (lk_placed _ Hl)|unfold i, zlen in *; lia|lia|lia].
  change (block (locking s bs c) i) with (block s i). rewrite <- Hbi, !Z.add_0_r. unfold bind at 1 2, get.
  unfold GRID_WIDTH, GRID_HEIGHT. replace ((0 <=? fst b) && (fst b <? 10) && (0 <=? snd b) && (snd b <? 20)) with (0 <=? snd b) by lia.
  assert (Hset : when (0 <=? snd b) (grid_set (fst b) (snd b) (current_shape_color (locking s bs c))) (locking s bs c) =
    Ok tt (set_grid (place color (bs ++ [b]) (grid s)) (locking s bs c))).
  { rewrite place_snoc. unfold place1. destruct (Z.leb_spec 0 (snd b)); [|done]. unfold when.
    rewrite grid_set_ok; [done| |lia|lia]. apply place_wf; [pose proof (lk_color _ Hl); unfold color; lia|apply Hl]. }
  rewrite Hset. unfold bind at 1. rewrite Hrow.
  assert (Hat : at_top (bs ++ [b]) = at_top bs || (snd b =? 0)) by (unfold at_top; rewrite existsb_app; simpl; by rewrite orb_false_r).
  set (full := (snd b <? 0) || _) in *. destruct full eqn:Hf.
  - exists (u8 (n + 1)), c. rewrite u8_small by (unfold i, zlen in *; lia). split; [|split; [lia|intros; lia]].
    unfold ret. f_equal. unfold locking. fold color. rewrite Hat. replace (snd b =? 0) with false; [by rewrite orb_false_r|].
    unfold full in Hf. destruct (Z.eqb_spec (snd b) 0) as [E|]; [|done]. rewrite (Htop E), E in Hf. done.
  - apply orb_false_iff in Hf as Hf'. destruct Hf' as [Hge _]. destruct (Z.eqb_spec (snd b) 0) as [E|E].
    + exists n, (c ++ [SDL_SetRenderDrawColor 0 0 0 0xff; SDL_RenderClear]). rewrite E. split; [|split; [lia|intros _; by apply Hsame]].
      unfold when, bind, ret. cbn. f_equal. unfold locking. fold color. rewrite Hat, orb_true_r. cbn. by rewrite <- !app_assoc.
    + exists n, c. replace (snd b <=? 0) with false by lia. split; [|split; [lia|intros _; by apply Hsame]].
      unfold when, bind, ret. f_equal. unfold locking. fold color. by rewrite Hat, orb_false_r.
Qed.

(** the loop of lock_shape() *)
Lemma lock_blocks_ok s rest bs c n : lockable s -> blocks s = bs ++ rest -> 0 <= n <= zlen bs ->
  (n = 0 -> forall y, 0 <= y < 20 -> touched bs (place (current_shape_color s) bs (grid s)) y = false) ->
  exists n' c', fold_i (length rest) (zlen bs) lock_block n (locking s bs c) = Ok n' (locking s (blocks s) c') /\ 0 <= n' /\
    (n' = 0 -> forall y, 0 <= y < 20 -> touched (blocks s) (place (current_shape_color s) (blocks s) (grid s)) y = false).
Proof.
  intros Hl. revert bs c n. induction rest as [|b rest IH]; intros bs c n Hbl Hn H0; cbn [length fold_i].
  { rewrite app_nil_r in Hbl. subst bs. exists n, c. split; [done|]. split; [lia|done]. }
  assert (Hb : b = block s (zlen bs)).
  { assert (H : blocks s !! length bs = Some b) by (rewrite Hbl, lookup_app_r, Nat.sub_diag; [done|lia]).
    unfold blocks in H. change (map (block s) (seqZ 0 4)) with (block s <$> seqZ 0 4) in H. rewrite list_lookup_fmap in H.
    destruct (decide (length bs < 4)%nat) as [Hlt|Hge].
    - rewrite lookup_seqZ_lt in H by lia. simpl in H. injection H as <-. f_equal.
    - rewrite lookup_seqZ_ge in H by lia. done. }
  destruct (lock_block_ok s bs b rest c n Hl Hbl Hn Hb) as (n1 & c1 & Hr & Hn1 & Hsame). unfold bind. rewrite Hr.
  assert (Hz : zlen (bs ++ [b]) = zlen bs + 1) by (unfold zlen; rewrite length_app; simpl; lia). rewrite <- Hz. apply IH.
  - by rewrite <- app_assoc.
  - rewrite Hz. lia.
  - intros -> y Hy. rewrite Hsame by (lia || done). apply H0; [lia|done].
Qed.

(** the grid with the blocks of the shape in it *)
Definition placed_grid (s : Game) : list (list Z) := place (current_shape_color s) (blocks s) (grid s).
(** the state when the shape is in the grid and its full rows are marked *)
Definition locked (s : Game) (c : list sdl_call) : Game :=
  set_calls (calls s ++ c) (set_game_over (if at_top (blocks s) then 1 else 0)
    (set_to_destroy (full_marks (placed_grid s)) (set_grid (placed_grid s) s))).
(** the score for the shape, the speed of the level, the next shape *)
Definition finish_lock (s : Game) : Game :=
  spawned (reset (set_score (u32 (score s + SCORE_SINGLE)) (set_iteration 0 s))).

Lemma touched_all s y : lockable s -> 0 <= y < 20 -> touched (blocks s) (placed_grid s) y = full_row (placed_grid s) y.
Proof.
  intros Hl Hy. pose proof (lk_color _ Hl) as Hc. pose proof (lk_grid _ Hl) as Hg. pose proof (lockable_blocks s Hl) as Hin.
  unfold touched. destruct (existsb _ (blocks s)) eqn:He; [done|]. cbn [andb]. symmetry.
  assert (E : forall x, 0 <= x < 10 -> gcell (placed_grid s) x y = gcell (grid s) x y).
  { intros x Hx. unfold placed_grid. rewrite gcell_place by (done || lia). unfold taken.
    destruct (existsb (fun b => (fst b =? x) && (snd b =? y)) (blocks s)) eqn:Ht; [|done].
    apply existsb_exists in Ht as (b & Hb & Hxy). exfalso. rewrite <- not_true_iff_false in He. apply He.
    apply existsb_exists. exists b. split; [done|lia]. }
  rewrite <- (lk_rows _ Hl y Hy). by apply full_row_ext.
Qed.
Lemma cleared_id s : to_destroy s = replicate 20 0 -> grid_wf (grid s) -> 0 <= score s < 4294967296 -> cleared s = s.
Proof.
  intros Hm [Hg1 Hg2] Hs. unfold cleared. rewrite Hm. change (marked (replicate 20 0)) with 0%nat. cbv zeta. cbn [add_lines Nat.iter].
  change (row_score (Z.of_nat 0)) with 0. rewrite Z.add_0_r, u32_small by done.
  assert (Hmap : map (collapse (replicate 20 0)) (grid s) = grid s).
  { rewrite <- (map_id (grid s)) at 2. apply map_ext_in. intros c Hc. rewrite List.Forall_forall in Hg2.
    destruct (Hg2 c Hc) as [Hl _]. unfold collapse. change (marked (replicate 20 0)) with 0%nat. cbn [replicate app].
    do 20 (destruct c as [|? c]; [done|]). by destruct c. }
  rewrite Hmap, <- Hm. done.
Qed.
Lemma lock_shape_ok s : lockable s -> 0 <= score s < 4294967296 -> 0 <= current_level s < 256 ->
  0 <= lines_cleared s < 256 -> rand_ok (world s) ->
  exists c, lock_shape s = Ok tt (finish_lock (cleared (locked s c))).
Proof.
  intros Hl Hs Hlev Hli Hw. pose proof (lk_color _ Hl) as Hc.
  assert (H0 : locking s [] [] = s).
  { unfold locking, touched. cbn [existsb andb place foldl at_top]. rewrite no_marks, app_nil_r, <- (lk_marks _ Hl). done. }
  destruct (lock_blocks_ok s (blocks s) [] [] 0 Hl eq_refl) as (n & c & Hr & Hn & Hnone); [unfold zlen; simpl; lia|done|].
  rewrite H0 in Hr. change (length (blocks s)) with 4%nat in Hr. change (zlen []) with 0 in Hr. exists c.
  unfold lock_shape, bind at 1. rewrite Hr.
  assert (Hk : locking s (blocks s) c = locked s c).
  { unfold locking, locked, full_marks. fold (placed_grid s). rewrite (lk_over _ Hl).
    rewrite (marks_ext _ (full_row (placed_grid s))) by (intros y Hy; by apply touched_all). done. }
  assert (Hg : grid_wf (grid (locked s c))) by (apply place_wf; [lia|apply Hl]).
  rewrite Hk. unfold bind at 1.
  assert (Hcl : when (negb (n =? 0)) clean_destroyed_blocks (locked s c) = Ok tt (cleared (locked s c))).
  { destruct (Z.eqb_spec n 0) as [->|]; cbn [negb when]; [|by apply clean_destroyed_blocks_ok; [|apply length_marks|]].
    rewrite cleared_id; [done| |done|done]. unfold locked, full_marks. cbn [to_destroy set_to_destroy set_calls set_game_over].
    rewrite <- no_marks. apply marks_ext. intros y Hy. rewrite <- touched_all by done. by apply Hnone. }
  rewrite Hcl. set (s1 := cleared (locked s c)).
  assert (Hfr : exists sc g m l v, s1 = set_score sc (set_grid g (set_to_destroy m (set_current_level v (set_lines_cleared l (locked s c)))))
    /\ 0 <= v /\ grid_wf g).
  { unfold s1, cleared. destruct (add_lines_frame (marked (to_destroy (locked s c))) (locked s c)) as (l & v & E).
    pose proof (add_lines_range (marked (to_destroy (locked s c))) (locked s c) Hlev Hli) as [Hv _]. rewrite E in Hv.
    rewrite E. do 5 eexists. split; [reflexivity|]. split; [apply Hv|]. apply map_wf; [|done]. intros col Hcol.
    by apply collapse_wf; [apply length_marks|]. }
  destruct Hfr as (sc & g & m & l & v & E & Hv & Hgw). rewrite E.
  unfold bind at 1 2 3, modify. rewrite reset_ok by done. unfold finish_lock.
  rewrite spawn_shape_ok; [done|done| |done]. destruct (shape_eight s) as (? & ? & ? & ? & ? & ? & ? & ? & E8); [apply Hl|]. cbn. by rewrite E8.
Qed.
