(* ===== verification/TetrisInv.v ===== *)
(** * sdl_tetris: the invariant of the game

    Every frame keeps [inv]: the grid holds colours, the shape is one of the
    orientations of its kind at a place in the grid, and while the game is
    played the shape overlaps nothing, row 0 is empty and no row is full. *)
From S2P Require Import Prelude TetrisState TetrisGraphics TetrisGame TetrisGrid TetrisShape TetrisLock.

(** ** The rows after clean_destroyed_blocks() *)
(** from which row each row of the cleaned grid comes *)
Definition sources (p : Z -> bool) : list Z :=
  replicate (marked (marks p)) 0 ++ List.filter (fun y => negb (p y)) (seqZ 0 20).

Lemma kept_marks p n i c : length c = n ->
  kept (map (fun y => if p y : bool then 1 else 0) (seqZ i (Z.of_nat n))) c =
  map (fun y => nth0 (Z.to_nat (y - i)) c) (List.filter (fun y => negb (p y)) (seqZ i (Z.of_nat n))).
Proof.
  revert i c. induction n as [|n IH]; intros i c Hc; [done|]. destruct c as [|v c]; [done|]. injection Hc as Hc.
  rewrite seqZ_cons by lia. replace (Z.pred (Z.of_nat (S n))) with (Z.of_nat n) by lia. cbn [map kept List.filter].
  rewrite (IH (Z.succ i) c Hc).
  assert (E : map (fun y => nth0 (Z.to_nat (y - Z.succ i)) c) (List.filter (fun y => negb (p y)) (seqZ (Z.succ i) (Z.of_nat n))) =
    map (fun y => nth0 (Z.to_nat (y - i)) (v :: c)) (List.filter (fun y => negb (p y)) (seqZ (Z.succ i) (Z.of_nat n)))).
  { apply map_ext_in. intros y Hy. apply List.filter_In in Hy as [Hy _]. apply in_seqZ in Hy.
    by replace (Z.to_nat (y - i)) with (S (Z.to_nat (y - Z.succ i))) by lia. }
  destruct (p i); cbn [Z.eqb negb map]; rewrite E; [done|]. by rewrite Z.sub_diag.
Qed.
Lemma kept_rows p c : length c = 20%nat ->
  kept (marks p) c = map (fun y => nth0 (Z.to_nat y) c) (List.filter (fun y => negb (p y)) (seqZ 0 20)).
Proof.
  intros Hc. pose proof (kept_marks p 20 0 c Hc) as H. change (Z.of_nat 20) with 20 in H. unfold marks. rewrite H.
  apply map_ext. intros y. by rewrite Z.sub_0_r.
Qed.
Lemma collapse_sources p c : length c = 20%nat -> p 0 = false ->
  collapse (marks p) c = map (fun y => nth0 (Z.to_nat y) c) (sources p).
Proof.
  intros Hc H0. unfold collapse, sources. rewrite map_app. f_equal.
  - change (map ?f (replicate ?n 0)) with (f <$> replicate n 0). rewrite fmap_replicate. f_equal. unfold top, marks. rewrite seqZ_cons by lia. cbn [map hd0]. unfold hd0. cbn [hd]. rewrite H0. by destruct c.
  - by apply kept_rows.
Qed.
Lemma length_sources p : length (sources p) = 20%nat.
Proof.
  unfold sources. rewrite length_app, length_replicate.
  pose proof (length_kept (marks p) (replicate 20 0) (length_marks p)) as H.
  by rewrite kept_rows, length_map, length_marks in H.
Qed.
(** a row of the new grid is one that was not full *)
Lemma sources_spec p y : p 0 = false -> 0 <= y < 20 ->
  0 <= nth0 (Z.to_nat y) (sources p) < 20 /\ p (nth0 (Z.to_nat y) (sources p)) = false.
Proof.
  intros H0 Hy. unfold nth0. destruct (lookup_lt_is_Some_2 (sources p) (Z.to_nat y)) as [k Hk]; [rewrite length_sources; lia|].
  rewrite Hk. simpl. apply list_elem_of_lookup_2, list_elem_of_In in Hk. unfold sources in Hk. apply in_app_iff in Hk as [Hk|Hk].
  - rewrite <- list_elem_of_In in Hk. apply elem_of_replicate in Hk as [-> _]. split; [lia|done].
  - apply List.filter_In in Hk as [Hk Hp]. apply in_seqZ in Hk. split; [lia|]. by apply negb_true_iff in Hp.
Qed.
Lemma sources_head p : p 0 = false -> nth0 0 (sources p) = 0.
Proof.
  intros H0. unfold sources. destruct (marked (marks p)); [|done]. cbn [replicate app].
  change (seqZ 0 20) with (0 :: seqZ 1 19). generalize (seqZ 1 19). intros l. cbn [List.filter]. by rewrite H0.
Qed.
Lemma gcell_collapse g p x y : grid_wf g -> p 0 = false -> 0 <= x < 10 -> 0 <= y < 20 ->
  gcell (map (collapse (marks p)) g) x y = gcell g x (nth0 (Z.to_nat y) (sources p)).
Proof.
  intros Hg H0 Hx Hy. destruct (grid_lookup g x Hg Hx) as (c & _ & E & Hc & _). unfold gcell.
  change (map (collapse (marks p)) g) with (collapse (marks p) <$> g). rewrite list_lookup_fmap, E. simpl.
  rewrite collapse_sources by done.
  destruct (lookup_lt_is_Some_2 (sources p) (Z.to_nat y)) as [k Hk]; [rewrite length_sources; lia|].
  assert (Hn : nth0 (Z.to_nat y) (sources p) = k) by (unfold nth0; by rewrite Hk). rewrite Hn. unfold nth0 at 1.
  change (map ?f (sources p)) with (f <$> sources p). by rewrite list_lookup_fmap, Hk.
Qed.
Lemma full_row_collapse g p y : grid_wf g -> p 0 = false -> 0 <= y < 20 ->
  full_row (map (collapse (marks p)) g) y = full_row g (nth0 (Z.to_nat y) (sources p)).
Proof.
  intros Hg H0 Hy. apply full_row_ext. intros x Hx. by apply gcell_collapse.
Qed.

(** ** The invariant *)
(** what holds at any time *)
Record inv0 (s : Game) : Prop := mkInv0 {
  inv_grid : grid_wf (grid s);
  inv_marks : to_destroy s = replicate 20 0;
  inv_placed : placed s;
  inv_color : 0 < current_shape_color s < 14;
  inv_freq : 1 <= fall_freq s <= 48;
  inv_iter : 0 <= iteration s < 48;
  inv_level : 0 <= current_level s < 256;
  inv_lines : 0 <= lines_cleared s < 256;
  inv_score : 0 <= score s < 4294967296;
  inv_over : game_over s = 0 \/ game_over s = 1;
  inv_rand : rand_ok (world s)
}.
(** what holds while the game is played *)
Record playing (s : Game) : Prop := mkPlaying {
  pl_over : game_over s = 0;
  pl_fits : fits s 0 0 = true;
  pl_top : empty_row (grid s) 0;
  pl_rows : no_full (grid s)
}.
Definition inv (s : Game) : Prop := inv0 s /\ (game_over s = 0 -> playing s).

Lemma inv_lockable s : inv0 s -> playing s -> lockable s.
Proof. intros [] []. by constructor. Qed.

(** ** The new shape *)
Lemma base_rows ty i : 0 <= ty < 7 -> 0 <= i < 4 -> nth0 (Z.to_nat (i * 2 + 1)) (base_shape ty) <= 2.
Proof.
  intros Hty Hi.
  assert (H : forallb (fun ty => forallb (fun i => nth0 (Z.to_nat (i * 2 + 1)) (base_shape ty) <=? 2) (seqZ 0 4)) (seqZ 0 7) = true) by done.
  rewrite forallb_seqZ in H. specialize (H ty ltac:(lia)). rewrite forallb_seqZ in H. specialize (H i ltac:(lia)).
  cbv beta in H. lia.
Qed.
(** two rows above the grid a new shape fits when row 0 is empty *)
Lemma entering_fits s : rand_ok (world s) -> empty_row (grid s) 0 -> fits (entering s) 0 0 = true.
Proof.
  intros Hw H0. destruct (entering_placed s Hw) as (Hp & Hx & _ & Hb). apply fits_spec. intros i Hi.
  pose proof (base_columns (current_shape_type (entering s)) i ltac:(apply Hp) Hi) as Hc.
  pose proof (base_rows (current_shape_type (entering s)) i ltac:(apply Hp) Hi) as Hr.
  unfold block. cbn [fst snd]. rewrite Hb, Hx. change (current_y (entering s)) with (-2).
  set (dx := nth0 (Z.to_nat (i * 2)) _) in *. set (dy := nth0 (Z.to_nat (i * 2 + 1)) _) in *. unfold free. change (grid (entering s)) with (grid s).
  replace ((0 <=? dx + 5 + 0) && (dx + 5 + 0 <? 10) && (dy + -2 + 0 <? 20)) with true by lia. cbn [andb].
  destruct (Z.ltb_spec (dy + -2 + 0) 0); [done|]. replace (dy + -2 + 0) with 0 by lia. rewrite H0 by lia. done.
Qed.
(** the state of a shape one row lower *)
Lemma fits_lower s y : fits s 0 1 = true -> y = current_y s + 1 -> fits (set_current_y y s) 0 0 = true.
Proof.
  rewrite !fits_spec. intros H -> i Hi.
  replace (snd (block (set_current_y (current_y s + 1) s) i) + 0) with (snd (block s i) + 1) by (unfold block; simpl; lia).
  exact (H i Hi).
Qed.
(** the fields that spawn_shape() sets *)
Lemma spawned_frame s : exists y, -2 <= y <= 0 /\ spawned s = set_current_y y (entering s).
Proof.
  unfold spawned. cbv zeta. destruct (fits (entering s) 0 1); [|by exists (-2)].
  destruct (fits (set_current_y (-1) (entering s)) 0 1); [by exists 0|by exists (-1)].
Qed.
Lemma spawned_inv0 s : inv0 s -> inv0 (spawned s).
Proof.
  intros []. destruct (spawned_frame s) as (y & Hy & ->). destruct (entering_placed s inv_rand0) as (Hp & Hx & _ & Hb).
  pose proof (rem_range (w_rand (world s) (S (rnd s))) 13 (inv_rand0 _) ltac:(lia)).
  constructor; try done; [|cbn; lia]. destruct Hp as (Hs & H1 & H2). split; [exact Hs|]. cbn in *. lia.
Qed.
Lemma spawned_playing s : rand_ok (world s) -> game_over s = 0 -> empty_row (grid s) 0 -> no_full (grid s) -> playing (spawned s).
Proof.
  intros Hi Hov H0 Hn. pose proof (entering_fits s Hi H0) as Hf. unfold spawned. cbv zeta.
  destruct (fits (entering s) 0 1) eqn:F1; [|by constructor].
  pose proof (fits_lower (entering s) (-1) F1 eq_refl) as Hf1.
  destruct (fits (set_current_y (-1) (entering s)) 0 1) eqn:F2; [|by constructor].
  pose proof (fits_lower (set_current_y (-1) (entering s)) 0 F2 eq_refl) as Hf2. by constructor.
Qed.
Lemma spawned_inv s : inv0 s -> (game_over s = 0 -> empty_row (grid s) 0 /\ no_full (grid s)) -> inv (spawned s).
Proof.
  intros Hi Hr. split; [by apply spawned_inv0|]. intros Hov.
  assert (Ho : game_over s = 0) by (destruct (spawned_frame s) as (y & _ & E); by rewrite E in Hov).
  destruct (Hr Ho). apply spawned_playing; [apply Hi|done|done|done].
Qed.

(** ** After a lock *)
(** every row between two blocks of a shape has a block of it *)
Definition rows_of (l : list Z) : list Z := map (fun i => nth0 (Z.to_nat (i * 2 + 1)) l) (seqZ 0 4).
Definition contiguous (l : list Z) : bool :=
  forallb (fun a => forallb (fun b => forallb (fun k => existsb (Z.eqb k) (rows_of l)) (seqZ a (b - a + 1))) (rows_of l)) (rows_of l).
Lemma rows_between s i j y : shape_ok s -> 0 <= i < 4 -> 0 <= j < 4 -> snd (block s i) <= y <= snd (block s j) ->
  exists k, 0 <= k < 4 /\ snd (block s k) = y.
Proof.
  intros [Hty Hl] Hi Hj Hy. pose proof (all_shapes_spec contiguous _ _ eq_refl Hty Hl) as H. unfold contiguous in H.
  assert (Hin : forall k, 0 <= k < 4 -> In (nth0 (Z.to_nat (k * 2 + 1)) (current_shape s)) (rows_of (current_shape s))).
  { intros k Hk. apply in_map_iff. exists k. split; [done|]. apply in_seqZ. lia. }
  rewrite forallb_forall in H. specialize (H _ (Hin i Hi)). rewrite forallb_forall in H. specialize (H _ (Hin j Hj)).
  unfold block in Hy. cbn [snd] in Hy. rewrite forallb_seqZ in H. specialize (H (y - current_y s) ltac:(lia)).
  apply existsb_exists in H as (v & Hv & Hev). apply in_map_iff in Hv as (k & Hk & Hkin). apply in_seqZ in Hkin.
  exists k. split; [lia|]. unfold block. cbn [snd]. lia.
Qed.
(** a shape that cannot fall is in the grid, if only in part *)
Lemma collided_low s : lockable s -> fits s 0 1 = false -> exists i, 0 <= i < 4 /\ 0 <= snd (block s i).
Proof.
  intros Hl Hf. destruct (existsb (fun i => 0 <=? snd (block s i)) (seqZ 0 4)) eqn:He.
  - apply existsb_exists in He as (i & Hi & Hy). apply in_seqZ in Hi. exists i. lia.
  - exfalso. apply not_true_iff_false in Hf. apply Hf. apply fits_spec. intros i Hi.
    assert (Hy : snd (block s i) < 0).
    { apply Z.nle_gt. intros Hy. apply not_true_iff_false in He. apply He. apply existsb_exists. exists i.
      split; [apply in_seqZ; lia|lia]. }
    pose proof (lk_fits _ Hl) as H0. rewrite fits_spec in H0. specialize (H0 i Hi). unfold free in *. rewrite !Z.add_0_r in *.
    replace ((0 <=? fst (block s i)) && (fst (block s i) <? 10) && (snd (block s i) + 1 <? 20)) with true by lia.
    destruct (Z.ltb_spec (snd (block s i) + 1) 0); [done|]. replace (snd (block s i) + 1) with 0 by lia.
    rewrite (lk_top _ Hl) by lia. done.
Qed.
(** the game ends when a locked shape reaches row 0 or higher *)
Lemma at_top_spec s : lockable s -> fits s 0 1 = false ->
  at_top (blocks s) = true <-> exists i, 0 <= i < 4 /\ snd (block s i) <= 0.
Proof.
  intros Hl Hf. unfold at_top. rewrite existsb_exists. split.
  - intros (b & Hb & Hy). apply in_blocks in Hb as (i & Hi & ->). exists i. lia.
  - intros (i & Hi & Hy). destruct (collided_low s Hl Hf) as (j & Hj & Hyj).
    destruct (rows_between s i j 0) as (k & Hk & Hyk); [apply Hl|done|done|lia|]. exists (block s k).
    split; [apply in_blocks; by exists k|lia].
Qed.
Section lock.
Context (s : Game) (Hl : lockable s).
Let color_range : 0 <= current_shape_color s < 14. Proof. pose proof (lk_color _ Hl). lia. Qed.

Lemma placed_grid_wf : grid_wf (placed_grid s).
Proof. apply place_wf; [exact color_range|apply Hl]. Qed.
Lemma placed_top_not_full : full_row (placed_grid s) 0 = false.
Proof.
  apply full_needs_ten; [exact color_range|apply Hl|by apply lockable_blocks|simpl; lia|lia|apply Hl].
Qed.
Lemma placed_top_empty : at_top (blocks s) = false -> empty_row (placed_grid s) 0.
Proof.
  intros Ht x Hx. unfold placed_grid. rewrite gcell_place; [|exact color_range|apply Hl|by apply lockable_blocks|lia|lia].
  destruct (taken (blocks s) x 0) eqn:E; [|by apply (lk_top _ Hl)]. exfalso. apply not_true_iff_false in Ht. apply Ht.
  unfold taken, at_top in *. apply existsb_exists in E as (b & Hb & H). apply existsb_exists. exists b. split; [done|lia].
Qed.
(** the grid after clean_destroyed_blocks() *)
Definition cleared_grid : list (list Z) := map (collapse (full_marks (placed_grid s))) (placed_grid s).
Lemma cleared_grid_wf : grid_wf cleared_grid.
Proof. apply map_wf; [|exact placed_grid_wf]. intros c Hc. by apply collapse_wf; [apply length_marks|]. Qed.
Lemma cleared_grid_no_full : no_full cleared_grid.
Proof.
  intros y Hy. unfold cleared_grid, full_marks. rewrite full_row_collapse; [|exact placed_grid_wf|exact placed_top_not_full|done].
  by apply sources_spec; [exact placed_top_not_full|].
Qed.
Lemma cleared_grid_top : at_top (blocks s) = false -> empty_row cleared_grid 0.
Proof.
  intros Ht x Hx. unfold cleared_grid, full_marks.
  rewrite gcell_collapse; [|exact placed_grid_wf|exact placed_top_not_full|done|lia].
  change (Z.to_nat 0) with 0%nat. rewrite sources_head by exact placed_top_not_full. by apply placed_top_empty.
Qed.
End lock.

(** the fields after a lock, before the next shape *)
Lemma cleared_locked s c : exists l v, cleared (locked s c) =
  set_score (u32 (score s + row_score (Z.of_nat (marked (full_marks (placed_grid s)))))) (set_grid (cleared_grid s)
    (set_to_destroy (replicate 20 0) (set_current_level v (set_lines_cleared l (locked s c))))) /\
  v = current_level (add_lines (marked (full_marks (placed_grid s))) s) /\
  l = lines_cleared (add_lines (marked (full_marks (placed_grid s))) s).
Proof.
  unfold cleared. change (to_destroy (locked s c)) with (full_marks (placed_grid s)). set (n := marked _).
  destruct (add_lines_frame n (locked s c)) as (l & v & E). exists l, v. cbv zeta. split; [by rewrite E|].
  assert (H : forall k, current_level (add_lines k (locked s c)) = current_level (add_lines k s) /\
    lines_cleared (add_lines k (locked s c)) = lines_cleared (add_lines k s)).
  { induction k as [|k [IH1 IH2]]; [done|]. change (add_lines (S k) ?a) with (add_line (add_lines k a)).
    unfold add_line. cbv zeta. rewrite IH2. by destruct (_ =? 0); simpl; rewrite ?IH1. }
  destruct (H n) as [<- <-]. by rewrite E.
Qed.
Lemma lock_inv s c : inv0 s -> playing s -> fits s 0 1 = false -> inv (finish_lock (cleared (locked s c))).
Proof.
  intros Hi Hp Hf. pose proof (inv_lockable s Hi Hp) as Hl. destruct (cleared_locked s c) as (l & v & E & Hv & Hli).
  destruct (add_lines_range (marked (full_marks (placed_grid s))) s (inv_level _ Hi) (inv_lines _ Hi)) as [H1 H2].
  rewrite <- Hv in H1. rewrite <- Hli in H2.
  unfold finish_lock. rewrite E. apply spawned_inv.
  - destruct Hi. constructor; try done; cbn.
    + by apply cleared_grid_wf.
    + apply curr_freq_range. cbn. lia.
    + apply u32_range.
    + destruct (at_top (blocks s)); tauto.
  - cbn -[at_top blocks cleared_grid empty_row no_full]. intros Hov. assert (Ht : at_top (blocks s) = false) by (by destruct (at_top (blocks s))).
    split; [by apply cleared_grid_top|by apply cleared_grid_no_full].
Qed.
