(* ===== verification/TetrisFrame.v ===== *)
(** * sdl_tetris: what is drawn

    The drawing functions leave the game alone: each one is [emit] of the
    calls it makes.  [picture] is the picture that a list of calls paints. *)
From S2P Require Import Prelude TetrisState TetrisGraphics TetrisGame TetrisGrid TetrisShape TetrisLock TetrisInv.

Definition emit (cs : list sdl_call) (s : Game) : Game := set_calls (calls s ++ cs) s.
Lemma emit_nil s : emit [] s = s.
Proof. unfold emit. by rewrite app_nil_r. Qed.
Lemma emit_emit a b s : emit b (emit a s) = emit (a ++ b) s.
Proof. unfold emit. simpl. by rewrite <- app_assoc. Qed.
(** a program that only draws, and does not look at what was drawn *)
Definition draws (m : GM unit) (s : Game) (cs : list sdl_call) : Prop := forall pre, m (emit pre s) = Ok tt (emit (pre ++ cs) s).

Lemma draws_call c s : draws (call c) s [c].
Proof. intros pre. unfold call, modify. by rewrite <- emit_emit. Qed.
Lemma draws_bind m k s a b : draws m s a -> draws k s b -> draws (m ;; k) s (a ++ b).
Proof. intros Hm Hk pre. unfold bind. by rewrite Hm, Hk, app_assoc. Qed.
Lemma draws_ret s : draws (ret tt) s [].
Proof. intros pre. by rewrite app_nil_r. Qed.
Lemma draws_repeat body s (f : Z -> list sdl_call) n i :
  (forall j, i <= j < i + Z.of_nat n -> draws (body j) s (f j)) ->
  draws (repeat_ n i body) s (concat (map f (seqZ i (Z.of_nat n)))).
Proof.
  revert i. induction n as [|n IH]; intros i Hb; cbn [repeat_]; [apply draws_ret|].
  rewrite seqZ_cons by lia. cbn [map concat]. apply draws_bind; [apply Hb; lia|].
  replace (Z.pred (Z.of_nat (S n))) with (Z.of_nat n) by lia. apply IH. intros j Hj. apply Hb. lia.
Qed.
Lemma draws_ok m s cs : draws m s cs -> m s = Ok tt (emit cs s).
Proof. intros H. specialize (H []). by rewrite emit_nil in H. Qed.
(** sequences of calls, for auto *)
Create HintDb draws.
#[export] Hint Resolve draws_call draws_ret draws_bind : draws.

(** ** The calls of each drawing function *)
Definition block_calls (xo yo x y color : Z) : list sdl_call :=
  [SDL_SetRenderDrawColor 12 12 12 255;
   SDL_RenderFillRect (xo + (x + 1) * 14) (yo + (y + 1) * 14) 14 14;
   SDL_SetRenderDrawColor (Z.land (Z.shiftr color 16) 255) (Z.land (Z.shiftr color 8) 255) (Z.land color 255) 255;
   SDL_RenderFillRect (xo + (x + 1) * 14 + 1) (yo + (y + 1) * 14 + 1) 12 12].
Lemma draw_block_draws s x y color : draws (draw_block x y color) s (block_calls (xoff s) (yoff s) x y color).
Proof.
  intros pre. unfold draw_block, bind at 1, get. cbv zeta.
  change (xoff (emit pre s)) with (xoff s). change (yoff (emit pre s)) with (yoff s).
  assert (H : draws (call (SDL_SetRenderDrawColor 12 12 12 255) ;;
    call (SDL_RenderFillRect (xoff s + (x + 1) * 14) (yoff s + (y + 1) * 14) 14 14) ;;
    call (SDL_SetRenderDrawColor (Z.land (Z.shiftr color 16) 255) (Z.land (Z.shiftr color 8) 255) (Z.land color 255) 255) ;;
    call (SDL_RenderFillRect (xoff s + (x + 1) * 14 + 1) (yoff s + (y + 1) * 14 + 1) 12 12)) s
    ([SDL_SetRenderDrawColor 12 12 12 255] ++ [SDL_RenderFillRect (xoff s + (x + 1) * 14) (yoff s + (y + 1) * 14) 14 14] ++
     [SDL_SetRenderDrawColor (Z.land (Z.shiftr color 16) 255) (Z.land (Z.shiftr color 8) 255) (Z.land color 255) 255] ++
     [SDL_RenderFillRect (xoff s + (x + 1) * 14 + 1) (yoff s + (y + 1) * 14 + 1) 12 12])) by auto 10 with draws.
  exact (H pre).
Qed.
Definition color_of (c : Z) : Z := nth0 (Z.to_nat c) COLORS.
Lemma color_lookup c : 0 <= c < 14 -> idx COLORS c = Some (color_of c).
Proof.
  intros Hc. unfold color_of, nth0. destruct (idx_lt COLORS c) as [v Hv]; [done|]. rewrite Hv.
  unfold idx in Hv. replace (c <? 0) with false in Hv by lia. by rewrite Hv.
Qed.
(** the calls for the cells of the grid, and for the shape *)
Definition grid_calls (s : Game) : list sdl_call :=
  concat (map (fun i => concat (map (fun j => block_calls (xoff s) (yoff s) i j (color_of (gcell (grid s) i j))) (seqZ 0 20))) (seqZ 0 10)).
Definition shape_calls (s : Game) : list sdl_call :=
  concat (map (fun i => let '(x, y) := block s i in
    if 0 <=? y then block_calls (xoff s) (yoff s) x y (color_of (current_shape_color s)) else []) (seqZ 0 4)).

Lemma draw_grid_draws s : grid_wf (grid s) -> draws draw_grid s (grid_calls s).
Proof.
  intros Hg. unfold draw_grid, grid_calls. apply (draws_repeat _ s _ 10 0). intros i Hi.
  apply (draws_repeat _ s (fun j => block_calls (xoff s) (yoff s) i j (color_of (gcell (grid s) i j))) 20 0). intros j Hj pre.
  unfold bind. rewrite grid_get_ok by (done || lia). change (grid (emit pre s)) with (grid s).
  rewrite color_lookup by (apply gcell_range; done || lia). apply (draw_block_draws s i j).
Qed.
Lemma draw_shape_draws s : placed s -> 0 < current_shape_color s < 14 -> draws draw_shape s (shape_calls s).
Proof.
  intros Hp Hc. unfold draw_shape, shape_calls. apply (draws_repeat _ s _ 4 0). intros i Hi pre.
  unfold bind at 1. rewrite (block_at_ok (emit pre s) i 0 0) by (exact Hp || lia). change (block (emit pre s) i) with (block s i).
  rewrite !Z.add_0_r. destruct (block s i) as [x y]. cbn [fst snd]. unfold bind at 1, get.
  destruct (0 <=? y); cbn [when]; [|by rewrite app_nil_r].
  change (current_shape_color (emit pre s)) with (current_shape_color s). unfold bind. rewrite color_lookup by lia.
  apply (draw_block_draws s x y).
Qed.

(** ** The texts *)
Definition text_call (s : Game) (t : list Z) (x y : Z) (f : font) (right : bool) : sdl_call :=
  let '(w, h) := w_text (world s) t f in
  if right then RenderText t f 204 204 204 (xoff s + x - Z.quot w 2) (yoff s + y) w h
  else RenderText t f 255 255 255 (xoff s + Z.quot (x - w) 2) (yoff s + y) w h.
Lemma right_text_draws s t y f : draws (render_right_text t y f) s [text_call s t 182 y f true].
Proof.
  intros pre. unfold render_right_text, text_call, bind, get, Gray. change (world (emit pre s)) with (world s).
  destruct (w_text (world s) t f) as [w h]. apply draws_call.
Qed.
Lemma over_text_draws s t y f : draws (render_game_over_text t y f) s [text_call s t 210 y f false].
Proof.
  intros pre. unfold render_game_over_text, text_call, bind, get, White. change (world (emit pre s)) with (world s).
  destruct (w_text (world s) t f) as [w h]. apply draws_call.
Qed.
#[export] Hint Resolve right_text_draws over_text_draws : draws.
Definition frame_calls (s : Game) (score level : Z) : list sdl_call :=
  [SDL_SetRenderDrawColor 68 68 68 255; SDL_RenderDrawRect (xoff s) (yoff s) 210 308;
   text_call s (str "SCORE") 182 14 font_small true;
   text_call s (snprintf 7 (pad0 6 score)) 182 28 font_big true;
   text_call s (str "LEVEL") 182 84 font_small true;
   text_call s (snprintf 3 (pad0 2 level)) 182 98 font_big true;
   SDL_RenderPresent].
Lemma render_frame_draws s score level : draws (render_frame score level) s (frame_calls s score level).
Proof.
  intros pre. unfold render_frame, bind at 1, get. change (xoff (emit pre s)) with (xoff s). change (yoff (emit pre s)) with (yoff s).
  assert (H : draws (call (SDL_SetRenderDrawColor 68 68 68 255) ;; call (SDL_RenderDrawRect (xoff s) (yoff s) 210 308) ;;
    render_score score level ;; call SDL_RenderPresent) s
    ([SDL_SetRenderDrawColor 68 68 68 255] ++ [SDL_RenderDrawRect (xoff s) (yoff s) 210 308] ++
     ([text_call s (str "SCORE") 182 14 font_small true] ++ [text_call s (snprintf 7 (pad0 6 score)) 182 28 font_big true] ++
      [text_call s (str "LEVEL") 182 84 font_small true] ++ [text_call s (snprintf 3 (pad0 2 level)) 182 98 font_big true]) ++
     [SDL_RenderPresent])).
  { unfold render_score. cbv zeta. auto 12 with draws. }
  exact (H pre).
Qed.
Definition over_calls (s : Game) (score : Z) : list sdl_call :=
  [text_call s (str "GAME OVER") 210 112 font_big false; text_call s (str "YOU SCORED:") 210 126 font_big false;
   text_call s (snprintf 7 (dec score)) 210 154 font_big false;
   text_call s (str "Press any key to restart...") 210 182 font_small false; SDL_RenderPresent].
Lemma game_over_draws s score : draws (render_game_over_message score) s (over_calls s score).
Proof.
  unfold render_game_over_message. cbv zeta.
  change (over_calls s score) with ([text_call s (str "GAME OVER") 210 112 font_big false] ++
    [text_call s (str "YOU SCORED:") 210 126 font_big false] ++ [text_call s (snprintf 7 (dec score)) 210 154 font_big false] ++
    [text_call s (str "Press any key to restart...") 210 182 font_small false] ++ [SDL_RenderPresent]).
  auto 12 with draws.
Qed.

(** ** update_frame() *)
Definition cell_calls (s : Game) : list sdl_call :=
  [SDL_SetRenderDrawColor 0 0 0 255; SDL_RenderClear] ++ grid_calls s ++ shape_calls s.
Definition updated (s : Game) : Game :=
  if negb (game_over s =? 0) then emit (over_calls s (i32 (score s))) s
  else if state_changed s =? 0 then s
  else set_state_changed 0 (emit (cell_calls s ++ frame_calls s (i32 (score s)) (current_level s)) s).
Lemma update_frame_ok s : inv0 s -> update_frame s = Ok tt (updated s).
Proof.
  intros Hi. unfold update_frame, updated, bind at 1, get. destruct (game_over s =? 0); cbn [negb].
  2:{ by apply draws_ok, game_over_draws. }
  destruct (state_changed s =? 0); [done|]. unfold cell_calls.
  pose proof (draws_ok _ _ _ (draws_bind _ _ s _ _ (draws_call (SDL_SetRenderDrawColor 0 0 0 255) s) (draws_call SDL_RenderClear s))) as H1.
  unfold bind at 1. change clear_screen with (call (SDL_SetRenderDrawColor 0 0 0 255) ;; call SDL_RenderClear). rewrite H1.
  unfold bind at 1. rewrite (draw_grid_draws s (inv_grid _ Hi)). unfold bind at 1.
  rewrite (draw_shape_draws s (inv_placed _ Hi) (inv_color _ Hi)). unfold bind at 1.
  set (cs := (([_] ++ [_]) ++ _) ++ _). rewrite (render_frame_draws s (i32 (score s)) (current_level s) cs).
  unfold modify. unfold cs. by rewrite <- !app_assoc.
Qed.

(** ** sdl_tetris: one frame

    What listen_for_input(), handle_input_event(), fall(), restart_game() and
    game_loop() answer, and that they keep the invariant. *)

(** ** Input *)
Fixpoint first_input (es : list (option sdl_event)) : Z * list (option sdl_event) :=
  match es with
  | [] => (NO_INPUT, [])
  | None :: es => (NO_INPUT, es)
  | Some SDL_QUIT :: es => (QUIT, es)
  | Some (SDL_WINDOWEVENT true) :: es => (QUIT, es)
  | Some (SDL_KEYDOWN k) :: es => (handle_key_down k, es)
  | Some _ :: es => first_input es
  end.
Lemma listen_loop n s : (length (events s) < n)%nat ->
  iter n listen_body tt s = Ok (fst (first_input (events s))) (set_events (snd (first_input (events s))) s).
Proof.
  revert s. induction n as [|n IH]; intros s Hn; [lia|]. cbn [iter]. unfold bind at 1, listen_body, poll_event, bind, get.
  destruct (events s) as [|[e|] es] eqn:E.
  - cbn. by rewrite <- E.
  - assert (Hes : (length (events (set_events es s)) < n)%nat) by (simpl in *; lia).
    destruct e as [|[|]|k|]; try reflexivity; exact (IH (set_events es s) Hes).
  - done.
Qed.
Lemma listen_ok s : listen_for_input s = Ok (fst (first_input (events s))) (set_events (snd (first_input (events s))) s).
Proof. unfold listen_for_input, bind, get. apply listen_loop. lia. Qed.

(** ** Moves keep the invariant *)
(** every shape has a block at its position *)
Lemma centre_block s : shape_ok s -> exists i, 0 <= i < 4 /\ block s i = (current_x s, current_y s).
Proof.
  intros [Hty Hl].
  pose proof (all_shapes_spec (fun l => existsb (fun i => (nth0 (Z.to_nat (i * 2)) l =? 0) && (nth0 (Z.to_nat (i * 2 + 1)) l =? 0)) (seqZ 0 4))
    _ _ eq_refl Hty Hl) as H. apply existsb_exists in H as (i & Hi & H). apply in_seqZ in Hi. exists i. split; [lia|].
  unfold block. f_equal; lia.
Qed.
Lemma fits_position s : shape_ok s -> fits s 0 0 = true -> 0 <= current_x s < 10 /\ current_y s < 20.
Proof.
  intros Hs Hf. destruct (centre_block s Hs) as (i & Hi & E). rewrite fits_spec in Hf. specialize (Hf i Hi).
  rewrite E in Hf. unfold free in Hf. cbn [fst snd] in Hf. lia.
Qed.
(** the fields that the moves change *)
Definition repositioned (s : Game) (sh : list Z) (x y f i ch : Z) : Game :=
  set_current_shape sh (set_current_x x (set_current_y y (set_fall_freq f (set_iteration i (set_state_changed ch s))))).
Lemma repositioned_inv s sh x y f i ch : inv0 s -> playing s ->
  In sh (orientations (current_shape_type s)) -> -2 <= y -> 1 <= f <= 48 -> 0 <= i < 48 ->
  fits (repositioned s sh x y f i ch) 0 0 = true ->
  inv0 (repositioned s sh x y f i ch) /\ playing (repositioned s sh x y f i ch).
Proof.
  intros Hi Hp Hsh Hy Hf Hit Hfit. assert (Hso : shape_ok (repositioned s sh x y f i ch)) by (split; [apply Hi|exact Hsh]).
  destruct (fits_position _ Hso Hfit) as [H1 H2]. split; [|destruct Hp; by constructor].
  destruct Hi. by constructor.
Qed.
Lemma fits_move s d : fits s d 0 = true -> fits (moved d s) 0 0 = true.
Proof.
  rewrite !fits_spec. intros H i Hi. replace (fst (block (moved d s) i) + 0) with (fst (block s i) + d) by (unfold block; simpl; lia).
  exact (H i Hi).
Qed.

(** the state after handle_input_event() *)
Definition handled (e : Z) (s : Game) : Game :=
  if e =? LEFT then (if fits s (-1) 0 then moved (-1) (reset s) else reset s)
  else if e =? RIGHT then (if fits s 1 0 then moved 1 (reset s) else reset s)
  else if e =? ROTATE then
    (if current_shape_type s =? 0 then reset s
     else if fits (turned s) 0 0 then turned (set_state_changed 1 (reset s)) else set_state_changed 1 (reset s))
  else if e =? HARD_DROP then set_fall_freq (Z.min (curr_freq s) HARD_FREQ) s
  else if e =? SOFT_DROP then set_fall_freq (Z.min (curr_freq s) SOFT_FREQ) s
  else s.
Lemma handle_ok e s : inv0 s -> handle_input_event e s = Ok tt (handled e s).
Proof.
  intros Hi. pose proof (inv_grid _ Hi). pose proof (inv_placed _ Hi). pose proof (inv_level _ Hi).
  unfold handle_input_event, handled. destruct (e =? LEFT); [by apply move_side_ok; [..|lia|lia]|].
  destruct (e =? RIGHT); [by apply move_side_ok; [..|lia|lia]|].
  destruct (e =? ROTATE); [by apply rotate_shape_ok; [..|lia]|].
  destruct (e =? HARD_DROP); [by apply update_fall_freq_ok; [lia|]|].
  destruct (e =? SOFT_DROP); [by apply update_fall_freq_ok; [lia|]|done].
Qed.
(** [handled] changes the position, the speed and the redraw flag only *)
Lemma handled_inv e s : inv0 s -> playing s -> inv0 (handled e s) /\ playing (handled e s).
Proof.
  intros Hi Hp. destruct (Hi) as [_ _ [[Hty Hsh] [Hx Hy]] _ Hf Hit Hlev _ _ _ _]. pose proof (pl_fits _ Hp) as Hfit.
  pose proof (curr_freq_range s ltac:(lia)) as Hcf.
  assert (Hsame : forall f ch, 1 <= f <= 48 -> inv0 (repositioned s (current_shape s) (current_x s) (current_y s) f (iteration s) ch) /\
    playing (repositioned s (current_shape s) (current_x s) (current_y s) f (iteration s) ch)).
  { intros f ch Hf'. apply repositioned_inv; try done. lia. }
  unfold handled. destruct (e =? LEFT).
  { destruct (fits s (-1) 0) eqn:F; [|exact (Hsame (curr_freq s) (state_changed s) Hcf)].
    apply (repositioned_inv s (current_shape s) (current_x s + -1) (current_y s) (curr_freq s) (iteration s) 1); try done; [lia|exact (fits_move s _ F)]. }
  destruct (e =? RIGHT).
  { destruct (fits s 1 0) eqn:F; [|exact (Hsame (curr_freq s) (state_changed s) Hcf)].
    apply (repositioned_inv s (current_shape s) (current_x s + 1) (current_y s) (curr_freq s) (iteration s) 1); try done; [lia|exact (fits_move s _ F)]. }
  destruct (e =? ROTATE).
  { destruct (Z.eqb_spec (current_shape_type s) 0); [exact (Hsame (curr_freq s) (state_changed s) Hcf)|].
    destruct (fits (turned s) 0 0) eqn:F; [|exact (Hsame (curr_freq s) 1 Hcf)].
    apply (repositioned_inv s (rot (current_shape s)) (current_x s) (current_y s) (curr_freq s) (iteration s) 1); try done; [|lia].
    by apply rot_orientation. }
  destruct (e =? HARD_DROP); [apply (Hsame (Z.min (curr_freq s) HARD_FREQ) (state_changed s)); unfold HARD_FREQ; lia|].
  destruct (e =? SOFT_DROP); [apply (Hsame (Z.min (curr_freq s) SOFT_FREQ) (state_changed s)); unfold SOFT_FREQ; lia|done].
Qed.

(** ** Falling *)
Definition fallen (c : list sdl_call) (s : Game) : Game :=
  if iteration s + 1 <? fall_freq s then set_iteration (iteration s + 1) s
  else if fits s 0 1 then set_state_changed 1 (set_current_y (current_y s + 1) (set_iteration 0 s))
  else finish_lock (cleared (locked (set_iteration 0 s) c)).
Lemma zero_iteration s : inv0 s -> playing s -> inv0 (set_iteration 0 s) /\ playing (set_iteration 0 s).
Proof. intros [] []. split; by constructor. Qed.
Lemma fall_ok s : inv0 s -> playing s -> exists c, fall s = Ok tt (fallen c s).
Proof.
  intros Hi Hp. destruct (zero_iteration s Hi Hp) as [Hi0 Hp0]. pose proof (inv_iter _ Hi) as Hit.
  unfold fall, fallen, bind at 1, modify at 1. rewrite u8_small by lia. unfold bind at 1, get.
  change (iteration (set_iteration ?v s)) with v. change (fall_freq (set_iteration ?v s)) with (fall_freq s).
  destruct (iteration s + 1 <? fall_freq s); [by exists []|]. unfold bind at 1, modify at 1. unfold bind at 1.
  change (set_iteration 0 (set_iteration ?v s)) with (set_iteration 0 s).
  rewrite shape_collides_ok by (apply Hi0 || lia). change (fits (set_iteration 0 s) 0 1) with (fits s 0 1).
  destruct (fits s 0 1) eqn:F.
  - exists []. unfold bind, modify. destruct (inv_placed _ Hi) as (_ & _ & Hy).
    cbn [current_y set_iteration]. by rewrite i8_small by lia.
  - apply lock_shape_ok; [by apply inv_lockable|apply Hi|apply Hi|apply Hi|apply Hi].
Qed.
Lemma fallen_inv c s : inv0 s -> playing s -> inv (fallen c s).
Proof.
  intros Hi Hp. destruct (zero_iteration s Hi Hp) as [Hi0 Hp0].
  destruct (Hi) as [_ _ [[Hty Hsh] [Hx Hy]] _ Hf Hit Hlev _ _ _ _]. unfold fallen.
  destruct (Z.ltb_spec (iteration s + 1) (fall_freq s)).
  { destruct (repositioned_inv s (current_shape s) (current_x s) (current_y s) (fall_freq s) (iteration s + 1) (state_changed s)) as [H1 H2];
      [done|done|done|lia|done|lia|apply Hp|]. by split. }
  destruct (fits s 0 1) eqn:F.
  - destruct (repositioned_inv s (current_shape s) (current_x s) (current_y s + 1) (fall_freq s) 0 1) as [H1 H2];
      [done|done|done|lia|done|lia|exact (fits_lower s _ F eq_refl)|]. by split.
  - by apply lock_inv.
Qed.

(** ** A new game *)
Definition empty_grid : list (list Z) := replicate 10 (replicate 20 0).
Lemma empty_grid_wf : grid_wf empty_grid.
Proof. split; [done|]. apply Forall_replicate. split; [done|]. by apply Forall_replicate. Qed.
Lemma gcell_empty x y : gcell empty_grid x y = 0.
Proof.
  unfold gcell, empty_grid. destruct (decide (Z.to_nat x < 10)%nat) as [Hx|Hx].
  - rewrite lookup_replicate_2 by done. cbn [from_option id]. unfold nth0. destruct (decide (Z.to_nat y < 20)%nat) as [Hy|Hy].
    + by rewrite lookup_replicate_2.
    + by rewrite lookup_ge_None_2 by (rewrite length_replicate; lia).
  - by rewrite lookup_ge_None_2 by (rewrite length_replicate; lia).
Qed.
Lemma empty_grid_no_full : no_full empty_grid.
Proof.
  intros y Hy. unfold full_row. apply not_true_iff_false. rewrite forallb_seqZ. intros H. specialize (H 0 ltac:(lia)).
  by rewrite gcell_empty in H.
Qed.
Lemma clear_column_ok n i j s : grid_wf (grid s) -> 0 <= i < 10 -> 0 <= j -> j + Z.of_nat n = 20 ->
  repeat_ n j (fun j => grid_set i j 0) s =
  Ok tt (set_grid (alter (fun c => take (Z.to_nat j) c ++ replicate n 0) (Z.to_nat i) (grid s)) s).
Proof.
  revert j s. induction n as [|n IH]; intros j s Hg Hi Hj Hn; cbn [repeat_].
  - destruct (grid_lookup _ i Hg Hi) as (c & _ & E & Hc & _).
    rewrite (list_alter_ext _ id (grid s) (grid s) (Z.to_nat i)), list_alter_id; [done|done| |done].
    intros c' Hc'. rewrite E in Hc'. injection Hc' as <-. by rewrite take_ge, app_nil_r by lia.
  - unfold bind. rewrite grid_set_ok by (done || lia). rewrite IH; [|by apply gput_wf|done|lia|lia].
    change (set_grid ?a (set_grid ?b s)) with (set_grid a s). do 2 f_equal. unfold gput. cbn [grid set_grid].
    rewrite list_alter_alter_eq. destruct (grid_lookup _ i Hg Hi) as (c & _ & E & Hc & _). apply list_alter_ext; [|done].
    intros c' Hc'. rewrite E in Hc'. injection Hc' as <-. cbn. replace (Z.to_nat (j + 1)) with (S (Z.to_nat j)) by lia.
    rewrite (take_S_r _ _ 0) by (rewrite list_lookup_insert_eq by lia; done). rewrite take_insert_ge by lia.
    by rewrite <- app_assoc.
Qed.
Lemma clear_grid_ok s : grid_wf (grid s) ->
  repeat_ 10 0 (fun i => repeat_ 20 0 (fun j => grid_set i j 0)) s = Ok tt (set_grid empty_grid s).
Proof.
  intros Hg. rewrite (columns_ok (fun _ => replicate 20 0)); [|by intros; split; [|apply Forall_replicate]|done|].
  - do 2 f_equal. destruct Hg as [H _]. revert H. generalize (grid s). intros g H.
    do 10 (destruct g as [|? g]; [done|]). by destruct g.
  - intros i s' Hi Hg'. by rewrite (clear_column_ok 20 i 0).
Qed.
(** the state after restart_game(), without the delay *)
Definition restarted (s : Game) : Game :=
  spawned (set_score 0 (set_lines_cleared 0 (set_current_level 0 (set_game_over 0 (set_grid empty_grid s))))).
Lemma restart_game_ok s : inv0 s -> restart_game s = Ok tt (emit [SDL_Delay 300] (restarted s)).
Proof.
  intros Hi. unfold restart_game, bind at 1. rewrite clear_grid_ok by apply Hi.
  unfold bind at 1 2 3 4 5, modify at 1 2 3 4. rewrite spawn_shape_ok; [done|exact empty_grid_wf| |apply Hi].
  destruct (shape_eight s) as (? & ? & ? & ? & ? & ? & ? & ? & E); [apply Hi|]. cbn. by rewrite E.
Qed.
Lemma restarted_inv s : inv0 s -> inv (restarted s).
Proof.
  intros Hi. set (k := set_score 0 (set_lines_cleared 0 (set_current_level 0 (set_game_over 0 (set_grid empty_grid s))))).
  assert (Hk : inv0 k) by (destruct Hi; constructor; try done; [exact empty_grid_wf|by left]).
  apply spawned_inv; [done|]. intros _. split; [intros x Hx; apply gcell_empty|exact empty_grid_no_full].
Qed.

(** ** game_loop() *)
(** the invariant does not look at the drawing *)
Lemma emit_inv cs s : inv s -> inv (emit cs s).
Proof. intros [[] Hp]. split; [by constructor|]. intros H. destruct (Hp H). by constructor. Qed.
Lemma changed_inv ch s : inv s -> inv (set_state_changed ch s).
Proof. intros [[] Hp]. split; [by constructor|]. intros H. destruct (Hp H). by constructor. Qed.
Lemma events_inv es s : inv s -> inv (set_events es s).
Proof. intros [[] Hp]. split; [by constructor|]. intros H. destruct (Hp H). by constructor. Qed.
Lemma updated_inv s : inv s -> inv (updated s).
Proof.
  intros H. unfold updated. destruct (negb _); [by apply emit_inv|]. destruct (state_changed s =? 0); [done|].
  by apply changed_inv, emit_inv.
Qed.
(** a frame while the game is played *)
Definition played (e : Z) (c : list sdl_call) (s : Game) : Game := emit [SDL_Delay 16] (updated (fallen c (handled e s))).
Lemma game_loop_ok s : inv s ->
  let e := fst (first_input (events s)) in
  let s1 := set_events (snd (first_input (events s))) s in
  (e = QUIT -> game_loop s = Ok 1 s1) /\
  (e <> QUIT -> game_over s = 0 -> exists c, game_loop s = Ok 0 (played e c s1)) /\
  (e <> QUIT -> game_over s <> 0 -> game_loop s = Ok 0 (if 0 <? e then emit [SDL_Delay 300] (restarted s1) else s1)).
Proof.
  intros Hi e s1. pose proof (events_inv (snd (first_input (events s))) s Hi) as Hi1. fold s1 in Hi1.
  unfold game_loop. rewrite (bind_ok _ _ _ _ _ (listen_ok s)). fold e s1. repeat split; intros H.
  - rewrite H. done.
  - intros Hov. rewrite (proj2 (Z.eqb_neq _ _) H). destruct Hi1 as [H0 Hpl]. specialize (Hpl Hov).
    destruct (handled_inv e s1 H0 Hpl) as [Hh Hhp]. destruct (fall_ok _ Hh Hhp) as [c Hc]. exists c.
    unfold bind at 1, get. change (game_over s1) with (game_over s). rewrite Hov. cbn [Z.eqb negb].
    unfold bind at 1 2. rewrite handle_ok by done. unfold bind at 1. rewrite Hc. unfold bind at 1.
    rewrite update_frame_ok by (apply fallen_inv; done). done.
  - intros Hov. rewrite (proj2 (Z.eqb_neq _ _) H). unfold bind at 1 2, get. change (game_over s1) with (game_over s).
    rewrite (proj2 (Z.eqb_neq _ _) Hov). cbn [negb]. destruct (0 <? e); [|done]. cbn [when]. by rewrite restart_game_ok by apply Hi1.
Qed.
Lemma game_loop_inv s : inv s -> exists r s', game_loop s = Ok r s' /\ (r = 0 \/ r = 1) /\ inv s'.
Proof.
  intros Hi. destruct (game_loop_ok s Hi) as (H1 & H2 & H3). set (e := fst _) in *. set (s1 := set_events _ s) in *.
  assert (Hi1 : inv s1) by (by apply events_inv).
  destruct (decide (e = QUIT)) as [He|He]; [exists 1, s1; split; [by apply H1|by split; [right|]]|].
  destruct (decide (game_over s = 0)) as [Hov|Hov].
  - destruct (H2 He Hov) as [c Hc]. eexists 0, _. split; [exact Hc|]. split; [by left|]. destruct Hi1 as [H0 Hpl].
    apply emit_inv, updated_inv, fallen_inv; by apply handled_inv, Hpl.
  - eexists 0, _. split; [exact (H3 He Hov)|]. split; [by left|]. destruct (0 <? e); [|done].
    by apply emit_inv, restarted_inv, Hi1.
Qed.

(** ** Reachable states *)
(** the states at the start of a frame; events may come in at any time *)
Inductive reachable (w : sdl_world) : Game -> Prop :=
  | reach_init evs s : init_game (initial_game w evs) = Ok 0 s -> reachable w s
  | reach_events s evs : reachable w s -> reachable w (set_events (events s ++ evs) s)
  | reach_frame s s' : reachable w s -> game_loop s = Ok 0 s' -> reachable w s'.

Lemma offsets_inv x y s : inv s -> inv (set_yoff y (set_xoff x s)).
Proof. intros [[] Hp]. split; [by constructor|]. intros H. destruct (Hp H). by constructor. Qed.
Lemma call_emit c cs s : call c (emit cs s) = Ok tt (emit (cs ++ [c]) s).
Proof. unfold call, modify. by rewrite <- emit_emit. Qed.
Lemma init_fonts_ok s : exists cs r, init_fonts s = Ok r (emit cs s).
Proof.
  assert (H : exists cs r, init_fonts (emit [] s) = Ok r (emit cs s)); [|by rewrite emit_nil in H].
  unfold init_fonts, gets, bind. change (world (emit [] s)) with (world s).
  rewrite call_emit. destruct (w_ttf (world s)); cbn [negb].
  2:{ rewrite call_emit. by eexists _, _. }
  rewrite call_emit. destruct (w_font (world s) font_small); cbn [negb].
  2:{ rewrite call_emit, call_emit. by eexists _, _. }
  rewrite call_emit. destruct (w_font (world s) font_big); cbn [negb]; [by eexists _, _|].
  rewrite call_emit, call_emit, call_emit. by eexists _, _.
Qed.
Lemma init_graphics_inv s : inv s -> exists r s', init_graphics s = Ok r s' /\ inv s'.
Proof.
  intros Hi. assert (H : exists r s', init_graphics (emit [] s) = Ok r s' /\ inv s'); [|by rewrite emit_nil in H].
  unfold init_graphics, gets, bind, modify. change (world (emit [] s)) with (world s).
  rewrite call_emit. destruct (w_init (world s)); cbn [negb].
  2:{ rewrite call_emit. eexists _, _. split; [reflexivity|]. by apply emit_inv. }
  rewrite call_emit. destruct (w_window (world s)); cbn [negb].
  2:{ rewrite !call_emit. eexists _, _. split; [reflexivity|]. by apply emit_inv. }
  rewrite call_emit. destruct (w_renderer (world s)); cbn [negb].
  2:{ rewrite !call_emit. eexists _, _. split; [reflexivity|]. by apply emit_inv. }
  rewrite call_emit. match goal with |- context [init_fonts ?s1] => destruct (init_fonts_ok s1) as (cs & r & ->); assert (Hi1 : inv s1) end.
  { by apply offsets_inv, emit_inv. }
  destruct (negb (r =? 0)); [rewrite !call_emit|]; (eexists _, _; split; [reflexivity|]; by apply emit_inv).
Qed.
Lemma initial_inv w evs : rand_ok w -> inv (spawned (initial_game w evs)).
Proof.
  intros Hw. set (s := initial_game w evs). destruct (entering_placed s Hw) as (Hp & Hx & _ & Hb).
  pose proof (rem_range (w_rand w 1%nat) 13 (Hw _) ltac:(lia)) as Hc. destruct (spawned_frame s) as (y & Hy & E). split.
  - rewrite E. destruct Hp as (Hs & H1 & H2). constructor; try done; cbn; try lia; [exact empty_grid_wf|].
    split; [exact Hs|]. cbn. lia.
  - intros _. apply spawned_playing; [done|done|intros x _; apply gcell_empty|exact empty_grid_no_full].
Qed.
Lemma init_game_inv w evs : rand_ok w -> exists r s, init_game (initial_game w evs) = Ok r s /\ inv s.
Proof.
  intros Hw. unfold init_game, bind. rewrite spawn_shape_ok; [|exact empty_grid_wf|done|done].
  by apply init_graphics_inv, initial_inv.
Qed.
Lemma reachable_inv w s : rand_ok w -> reachable w s -> inv s.
Proof.
  intros Hw. induction 1 as [evs s H|s evs _ IH|s s' _ IH H].
  - destruct (init_game_inv w evs Hw) as (r & s1 & H1 & Hi). rewrite H1 in H. by injection H as _ ->.
  - by apply events_inv.
  - destruct (game_loop_inv s IH) as (r & s1 & H1 & _ & Hi). rewrite H1 in H. by injection H as _ ->.
Qed.
