(* ===== verification/TetrisProps.v ===== *)
(** * sdl_tetris: the theorems

    Safety of every reachable state, the rules of lock_shape(), that a shape
    lands, what a frame paints, and what a restart keeps. *)
From S2P Require Import Prelude TetrisState TetrisGraphics TetrisGame TetrisGrid TetrisShape TetrisLock TetrisInv TetrisFrame.

(** a world in which everything can be had *)
Definition demo_world : sdl_world :=
  mkWorld (fun k => Z.of_nat (k * k * 7 + 3 * k + 1)) true true true true (fun _ => true) (230, 328) (fun _ _ => (40, 12)).
Definition demo_game : Game :=
  match init_game (initial_game demo_world []) with Ok _ s => s | Err _ => initial_game demo_world [] end.
Lemma demo_rand : rand_ok demo_world.
Proof. intros k. simpl. lia. Qed.
Lemma demo_reachable : reachable demo_world demo_game.
Proof. apply (reach_init _ []). vm_compute. reflexivity. Qed.
Lemma demo_inv : inv demo_game.
Proof. exact (reachable_inv _ _ demo_rand demo_reachable). Qed.

(** ** Safety *)
(** C29: The game never goes wrong: whatever rand() and the events are, in
    every state that can be reached a frame ends without an access outside
    an array; every block of the falling shape is in a column of the grid and
    above its floor, and while the game is played it is on no occupied cell,
    row 0 is empty and no row is full. *)
Theorem tetris_safe w s : rand_ok w -> reachable w s ->
  (exists r s', game_loop s = Ok r s' /\ (r = 0 \/ r = 1)) /\ grid_wf (grid s) /\
  (forall i, 0 <= i < 4 -> game_over s = 0 ->
     let '(x, y) := block s i in 0 <= x < GRID_WIDTH /\ y < GRID_HEIGHT /\ (0 <= y -> gcell (grid s) x y = 0)) /\
  (game_over s = 0 -> empty_row (grid s) 0 /\ no_full (grid s)).
Proof.
  intros Hw Hr. pose proof (reachable_inv w s Hw Hr) as Hi. destruct (game_loop_inv s Hi) as (r & s' & H1 & H2 & _).
  destruct Hi as [H0 Hp]. split; [by exists r, s'|]. split; [apply H0|]. split.
  - intros i Hi Hov. pose proof (pl_fits _ (Hp Hov)) as Hf. rewrite fits_spec in Hf. specialize (Hf i Hi).
    destruct (block s i) as [x y]. unfold free in Hf. cbn [fst snd] in Hf. rewrite !Z.add_0_r in Hf. unfold GRID_WIDTH, GRID_HEIGHT.
    split; [lia|]. split; [lia|]. intros Hy. lia.
  - intros Hov. split; apply (Hp Hov).
Qed.
Lemma tetris_safe_witness : exists r s', game_loop demo_game = Ok r s' /\ (r = 0 \/ r = 1).
Proof. exact (proj1 (tetris_safe demo_world demo_game demo_rand demo_reachable)). Defined.

(** ** A shape lands *)
(** [n] frames, or fewer when the player quits *)
Fixpoint frames (n : nat) : GM Z :=
  match n with
  | O => ret 0
  | S n => r <- game_loop ;; if negb (r =? 0) then ret r else frames n
  end.
Definition time_left (s : Game) : Z := (20 - current_y s) * 48 + (48 - iteration s).

(** a frame without input: time passes, or the shape is locked *)
Lemma quiet_frame s : inv s -> game_over s = 0 -> events s = [] ->
  exists s', game_loop s = Ok 0 s' /\ inv s' /\ events s' = [] /\
    ((game_over s' = 0 /\ rnd s' = rnd s /\ score s' = score s /\ time_left s' < time_left s) \/
     (rnd s' = S (S (rnd s)) /\ exists n, 0 <= n /\ score s' = u32 (u32 (score s + row_score n) + SCORE_SINGLE))).
Proof.
  intros Hi Hov He. destruct (game_loop_ok s Hi) as (_ & H2 & _). rewrite He in H2. cbn [first_input fst snd] in H2.
  destruct (H2 ltac:(done) Hov) as [c Hc]. clear H2.
  assert (Hs1 : set_events [] s = s) by (by rewrite <- He). rewrite Hs1 in Hc. change (handled NO_INPUT s) with s in Hc.
  unfold played in Hc. change (handled NO_INPUT s) with s in Hc. destruct Hi as [H0 Hp]. specialize (Hp Hov).
  eexists. split; [exact Hc|]. split; [by apply emit_inv, updated_inv, fallen_inv|].
  assert (Hup : forall t, let t' := emit [SDL_Delay 16] (updated t) in events t' = events t /\ game_over t' = game_over t /\
    rnd t' = rnd t /\ score t' = score t /\ current_y t' = current_y t /\ iteration t' = iteration t).
  { intros t. unfold updated. destruct (negb _); [done|]. by destruct (state_changed t =? 0). }
  destruct (Hup (fallen c s)) as (E1 & E2 & E3 & E4 & E5 & E6). unfold time_left. rewrite E1, E2, E3, E4, E5, E6. clear E1 E2 E3 E4 E5 E6 Hup Hc.
  pose proof (inv_iter _ H0) as Hit. unfold fallen. destruct (iteration s + 1 <? fall_freq s).
  { split; [done|]. left. split; [done|]. split; [done|]. split; [done|]. cbn. lia. }
  destruct (fits s 0 1).
  { split; [done|]. left. split; [done|]. split; [done|]. split; [done|]. cbn. lia. }
  destruct (cleared_locked (set_iteration 0 s) c) as (l & v & E & _). rewrite E. unfold finish_lock.
  match goal with |- context [spawned ?k] => destruct (spawned_frame k) as (y & _ & ->) end. split; [exact He|]. right.
  split; [done|]. eexists. split; [|reflexivity]. lia.
Qed.

(** C31: A shape lands: without input from the player, from any state of a
    running game, at most 1104 frames later the shape was locked in the grid,
    the score counted it and the next shape was drawn. *)
Theorem shape_lands s : inv s -> game_over s = 0 -> events s = [] ->
  exists n s' k, (n <= 1104)%nat /\ frames n s = Ok 0 s' /\ inv s' /\ rnd s' = S (S (rnd s)) /\ 0 <= k /\
    score s' = u32 (u32 (score s + row_score k) + SCORE_SINGLE).
Proof.
  intros Hi Hov He. destruct (Hi) as [H0 _]. destruct (inv_placed _ H0) as (_ & _ & Hy). pose proof (inv_iter _ H0) as Hit.
  assert (Hm : time_left s <= 1104) by (unfold time_left; lia).
  assert (Hgen : forall m s, inv s -> game_over s = 0 -> events s = [] -> time_left s <= Z.of_nat m ->
    exists n s' k, (n <= m)%nat /\ frames n s = Ok 0 s' /\ inv s' /\ rnd s' = S (S (rnd s)) /\ 0 <= k /\
      score s' = u32 (u32 (score s + row_score k) + SCORE_SINGLE)).
  { clear. induction m as [|m IH]; intros s Hi Hov He Hm.
    { destruct Hi as [H0 _]. destruct (inv_placed _ H0) as (_ & _ & Hy). pose proof (inv_iter _ H0). unfold time_left in Hm. lia. }
    destruct (quiet_frame s Hi Hov He) as (s1 & Hf & Hi1 & He1 & [(Hov1 & Hr & Hs & Ht)|(Hr & k & Hk & Hs)]).
    - destruct (IH s1 Hi1 Hov1 He1 ltac:(lia)) as (n & s' & k & Hn & Hfr & Hi' & Hr' & Hk & Hs'). exists (S n), s', k.
      split; [lia|]. cbn [frames]. unfold bind. rewrite Hf. cbn [Z.eqb negb]. rewrite <- Hr, <- Hs. done.
    - exists 1%nat, s1, k. split; [lia|]. cbn [frames]. unfold bind. rewrite Hf. done. }
  by apply (Hgen 1104%nat s).
Qed.
Lemma shape_lands_witness : exists n s', (n <= 1104)%nat /\ frames n demo_game = Ok 0 s' /\ rnd s' = 4%nat.
Proof.
  destruct (shape_lands demo_game demo_inv) as (n & s' & k & Hn & Hf & _ & Hr & _); [reflexivity|reflexivity|].
  exists n, s'. split; [exact Hn|]. split; [exact Hf|]. rewrite Hr. reflexivity.
Defined.

(** ** Locking *)
(** the grid row by row *)
Definition row_of (g : list (list Z)) (y : Z) : list Z := map (fun x => gcell g x y) (seqZ 0 10).
Definition board (g : list (list Z)) : list (list Z) := map (row_of g) (seqZ 0 20).
Definition is_full (r : list Z) : bool := forallb (fun v => negb (v =? 0)) r.

Lemma empty_row_list g y : empty_row g y -> row_of g y = replicate 10 0.
Proof.
  intros He. unfold row_of. apply list_eq. intros i. change (map ?f ?l) with (f <$> l). rewrite list_lookup_fmap.
  destruct (decide (i < 10)%nat) as [Hi|Hi].
  - rewrite lookup_seqZ_lt, lookup_replicate_2 by lia. cbn. f_equal. apply He. lia.
  - rewrite lookup_seqZ_ge by lia. by rewrite lookup_ge_None_2 by (rewrite length_replicate; lia).
Qed.
Lemma is_full_row g y : is_full (row_of g y) = full_row g y.
Proof. unfold is_full, row_of, full_row. by rewrite forallb_map. Qed.
Lemma filter_map {A B} (f : A -> B) p l : List.filter p (map f l) = map f (List.filter (fun a => p (f a)) l).
Proof. induction l as [|a l IH]; [done|]. cbn [map List.filter]. rewrite IH. by destruct (p (f a)). Qed.
Lemma marked_count p l : marked (map (fun y : Z => if p y : bool then 1 else 0) l) = length (List.filter p l).
Proof. induction l as [|y l IH]; [done|]. cbn [map marked List.filter]. rewrite IH. by destruct (p y). Qed.
Lemma full_rows_count g : length (List.filter is_full (board g)) = marked (full_marks g).
Proof.
  unfold board. rewrite filter_map, length_map. unfold full_marks, marks. rewrite marked_count.
  apply f_equal, List.filter_ext. intros y. by rewrite is_full_row.
Qed.
Lemma board_collapse g : grid_wf g -> full_row g 0 = false ->
  board (map (collapse (full_marks g)) g) =
  replicate (length (List.filter is_full (board g))) (row_of g 0) ++ List.filter (fun r => negb (is_full r)) (board g).
Proof.
  intros Hg H0. assert (H : board (map (collapse (full_marks g)) g) = map (row_of g) (sources (full_row g))).
  { apply list_eq. intros i. unfold board. change (map ?f ?l) with (f <$> l). rewrite !list_lookup_fmap.
    destruct (decide (i < 20)%nat) as [Hi|Hi].
    - rewrite lookup_seqZ_lt by lia. destruct (lookup_lt_is_Some_2 (sources (full_row g)) i) as [k Hk]; [rewrite length_sources; lia|].
      rewrite Hk. cbn. f_equal. apply map_ext_in. intros x Hx. apply in_seqZ in Hx. unfold full_marks.
      rewrite gcell_collapse by (done || lia). f_equal. unfold nth0. replace (Z.to_nat (0 + Z.of_nat i)) with i by lia. by rewrite Hk.
    - rewrite lookup_seqZ_ge by lia. by rewrite lookup_ge_None_2 by (rewrite length_sources; lia). }
  rewrite H. unfold sources. rewrite map_app. f_equal.
  - rewrite full_rows_count. change (map ?f (replicate ?n 0)) with (f <$> replicate n 0). by rewrite fmap_replicate.
  - unfold board. rewrite filter_map. apply f_equal, List.filter_ext. intros y. by rewrite is_full_row.
Qed.
(** the counters after [n] lines *)
Lemma lines_mod n s : 0 <= lines_cleared s < 256 -> lines_cleared (add_lines n s) = (lines_cleared s + Z.of_nat n) mod 256.
Proof.
  intros Hl. induction n as [|n IH]; [rewrite Z.add_0_r, Z.mod_small by lia; done|].
  change (add_lines (S n) s) with (add_line (add_lines n s)).
  assert (E : lines_cleared (add_line (add_lines n s)) = u8 (lines_cleared (add_lines n s) + 1)).
  { unfold add_line. cbv zeta. by destruct (_ =? 0). }
  rewrite E, IH. unfold u8. rewrite Zplus_mod_idemp_l. f_equal. lia.
Qed.

(** C30: lock_shape() plays by the rules.  From a running game whose shape
    cannot fall: the blocks of the shape are put in the grid in its colour;
    every full row is removed and the rows above come down (in terms of the
    list of rows: the full ones are filtered out and as many copies of the top
    row, which is empty unless the game is over, are put on top); the score
    gains 100 for one row and 200 more for each further one, plus 1; and the
    game is over exactly when a block of the shape is in row 0 or above. *)
Theorem lock_shape_spec s : inv0 s -> playing s -> fits s 0 1 = false ->
  let g := placed_grid s in
  let n := length (List.filter is_full (board g)) in
  (forall x y, 0 <= x < 10 -> 0 <= y < 20 ->
     gcell g x y = if taken (blocks s) x y then current_shape_color s else gcell (grid s) x y) /\
  exists s', lock_shape s = Ok tt s' /\ inv s' /\
    board (grid s') = replicate n (row_of g 0) ++ List.filter (fun r => negb (is_full r)) (board g) /\
    score s' = u32 (u32 (score s + (if (n =? 0)%nat then 0 else 100 + 200 * (Z.of_nat n - 1))) + 1) /\
    lines_cleared s' = (lines_cleared s + Z.of_nat n) mod 256 /\
    (game_over s' = 1 <-> exists i, 0 <= i < 4 /\ snd (block s i) <= 0) /\
    (game_over s' = 0 -> row_of g 0 = replicate 10 0) /\
    iteration s' = 0 /\ fall_freq s' = curr_freq s'.
Proof.
  intros Hi Hp Hf g n. pose proof (inv_lockable s Hi Hp) as Hl. pose proof (lk_color _ Hl) as Hc. split.
  { intros x y Hx Hy. apply gcell_place; [lia|apply Hl|by apply lockable_blocks|done|done]. }
  destruct (lock_shape_ok s Hl (inv_score _ Hi) (inv_level _ Hi) (inv_lines _ Hi) (inv_rand _ Hi)) as [c Hr].
  eexists. split; [exact Hr|]. split; [by apply lock_inv|]. destruct (cleared_locked s c) as (l & v & E & Hv & Hli). rewrite E.
  unfold finish_lock. match goal with |- context [spawned ?k] => destruct (spawned_frame k) as (y & _ & ->) end.
  pose proof (placed_top_not_full s Hl) as H0. pose proof (placed_grid_wf s Hl) as Hgw.
  split; [exact (board_collapse g Hgw H0)|]. split; [|split; [|split; [|split; [|split; [done|done]]]]].
  - cbn [score set_current_y entering set_score set_iteration reset]. unfold n. rewrite full_rows_count. fold g. unfold row_score, SCORE_LINE.
    change (marked (full_marks (placed_grid s))) with (marked (full_marks g)). cbn -[u32 Z.mul].
    destruct (marked (full_marks g)) as [|k]; [done|]. change (Z.of_nat (S k) =? 0) with false.
    cbn [Nat.eqb]. do 4 f_equal. lia.
  - cbn. rewrite Hli, lines_mod by apply Hi. unfold n. by rewrite full_rows_count.
  - rewrite <- (at_top_spec s Hl Hf). cbn -[at_top blocks]. by destruct (at_top (blocks s)).
  - cbn -[at_top blocks replicate row_of]. destruct (at_top (blocks s)) eqn:Ht; [done|]. intros _.
    by apply empty_row_list, placed_top_empty.
Qed.
(** a row that the shape of [demo_game] fills *)
Definition demo_lock : Game :=
  set_grid (map (fun x => replicate 19 0 ++ [if x =? 5 then 0 else 3]) (seqZ 0 10)) (set_current_y 18 demo_game).
Lemma demo_lock_inv : inv0 demo_lock /\ playing demo_lock.
Proof.
  destruct demo_inv as [[] _]. split.
  - constructor; try assumption.
    split; [reflexivity|]. repeat constructor; discriminate.
  - constructor; [reflexivity|reflexivity| |].
    + intros x Hx. assert (H : forallb (fun x => gcell (grid demo_lock) x 0 =? 0) (seqZ 0 10) = true) by reflexivity.
      rewrite forallb_seqZ in H. specialize (H x ltac:(lia)). lia.
    + intros y Hy. assert (H : forallb (fun y => negb (full_row (grid demo_lock) y)) (seqZ 0 20) = true) by reflexivity.
      rewrite forallb_seqZ in H. specialize (H y ltac:(lia)). by apply negb_true_iff in H.
Qed.
Lemma lock_shape_witness : exists s', lock_shape demo_lock = Ok tt s' /\ score s' = 101 /\ lines_cleared s' = 1.
Proof.
  destruct (lock_shape_spec demo_lock) as [_ (s' & Hr & _ & _ & Hs & Hl & _)]; [apply demo_lock_inv|apply demo_lock_inv|reflexivity|].
  exists s'. split; [exact Hr|]. rewrite Hs, Hl. split; reflexivity.
Defined.

(** ** Drawing *)
(** a picture: the colour of the pen and of every pixel of the window *)
Record canvas := mkCanvas { pen : Z * Z * Z; px : Z -> Z -> Z * Z * Z }.
Definition in_rect (x y w h u v : Z) : bool := (x <=? u) && (u <? x + w) && (y <=? v) && (v <? y + h).
(** what a call paints; the texts are left to SDL_ttf *)
Definition picture1 (c : canvas) (k : sdl_call) : canvas :=
  match k with
  | SDL_SetRenderDrawColor r g b _ => mkCanvas (r, g, b) (px c)
  | SDL_RenderClear => mkCanvas (pen c) (fun _ _ => pen c)
  | SDL_RenderFillRect x y w h => mkCanvas (pen c) (fun u v => if in_rect x y w h u v then pen c else px c u v)
  | _ => c
  end.
Definition picture (cs : list sdl_call) (c : canvas) : canvas := foldl picture1 c cs.
Definition rgb (color : Z) : Z * Z * Z := (Z.land (Z.shiftr color 16) 255, Z.land (Z.shiftr color 8) 255, Z.land color 255).

(** a pixel of the inner square of the cell (i, j) *)
Definition cell_pixel (xo yo i j u v : Z) : Prop :=
  xo + (i + 1) * 14 + 1 <= u < xo + (i + 1) * 14 + 13 /\ yo + (j + 1) * 14 + 1 <= v < yo + (j + 1) * 14 + 13.
Lemma paint_block xo yo x y color c i j u v : cell_pixel xo yo i j u v ->
  px (picture (block_calls xo yo x y color) c) u v = if (x =? i) && (y =? j) then rgb color else px c u v.
Proof.
  intros (Hu & Hv). unfold picture, block_calls, in_rect. cbn. unfold in_rect.
  destruct (Z.eqb_spec x i) as [->|Hx]; cbn [andb]; [destruct (Z.eqb_spec y j) as [->|Hy]|].
  - rewrite (proj2 (Z.leb_le _ u)), (proj2 (Z.leb_le _ v)) by lia.
    rewrite (proj2 (Z.ltb_lt u _)), (proj2 (Z.ltb_lt v _)) by lia. done.
  - replace ((yo + (y + 1) * 14 + 1 <=? v) && (v <? yo + (y + 1) * 14 + 1 + 12)) with false by lia.
    rewrite <- !andb_assoc. replace ((yo + (y + 1) * 14 + 1 <=? v) && (v <? yo + (y + 1) * 14 + 1 + 12)) with false by lia.
    replace ((yo + (y + 1) * 14 <=? v) && (v <? yo + (y + 1) * 14 + 14)) with false by lia. by rewrite !andb_false_r.
  - replace ((xo + (x + 1) * 14 + 1 <=? u) && (u <? xo + (x + 1) * 14 + 1 + 12)) with false by lia.
    replace ((xo + (x + 1) * 14 <=? u) && (u <? xo + (x + 1) * 14 + 14)) with false by lia. done.
Qed.
(** after a list of blocks the last one on the cell counts *)
Lemma paint_blocks {A} (f : A -> list sdl_call) (on : A -> bool) (color : Z) l c u v :
  (forall a c, In a l -> px (picture (f a) c) u v = if on a then rgb color else px c u v) ->
  px (picture (concat (map f l)) c) u v = if existsb on l then rgb color else px c u v.
Proof.
  revert c. induction l as [|a l IH]; intros c Hf; [done|]. cbn [map concat existsb]. unfold picture in *. rewrite foldl_app.
  rewrite IH by (intros; apply Hf; by right). rewrite Hf by (by left). destruct (on a); [|done]. by destruct (existsb on l).
Qed.
Lemma existsb_seqZ_eq i m n : m <= i < m + n -> existsb (fun x => x =? i) (seqZ m n) = true.
Proof. intros Hi. apply existsb_exists. exists i. split; [by apply in_seqZ|apply Z.eqb_refl]. Qed.
Lemma existsb_map {A B} (f : A -> B) p l : existsb p (map f l) = existsb (fun a => p (f a)) l.
Proof. induction l as [|a l IH]; [done|]. cbn [map existsb]. by rewrite IH. Qed.
Lemma paint_grid s c i j u v : 0 <= i < 10 -> 0 <= j < 20 -> cell_pixel (xoff s) (yoff s) i j u v ->
  px (picture (grid_calls s) c) u v = rgb (color_of (gcell (grid s) i j)).
Proof.
  intros Hi Hj Hp. unfold grid_calls. rewrite (paint_blocks _ (fun x => x =? i) (color_of (gcell (grid s) i j))).
  - by rewrite existsb_seqZ_eq.
  - intros x c1 _. rewrite (paint_blocks _ (fun y => (x =? i) && (y =? j)) (color_of (gcell (grid s) i j))).
    + destruct (x =? i); cbn [andb]; [by rewrite existsb_seqZ_eq|]. by destruct (existsb _ _) eqn:E; [apply existsb_exists in E as (? & _ & ?)|].
    + intros y c2 _. rewrite (paint_block _ _ _ _ _ _ i j) by done.
      destruct (Z.eqb_spec x i) as [->|]; cbn [andb]; [|done]. by destruct (Z.eqb_spec y j) as [->|].
Qed.
Lemma paint_shape s c i j u v : 0 <= i < 10 -> 0 <= j < 20 -> cell_pixel (xoff s) (yoff s) i j u v ->
  px (picture (shape_calls s) c) u v = if taken (blocks s) i j then rgb (color_of (current_shape_color s)) else px c u v.
Proof.
  intros Hi Hj Hp. unfold shape_calls. rewrite (paint_blocks _ (fun k => (fst (block s k) =? i) && (snd (block s k) =? j)) (color_of (current_shape_color s))).
  - unfold taken, blocks. by rewrite existsb_map.
  - intros k c1 _. destruct (block s k) as [x y]. cbn [fst snd]. destruct (Z.leb_spec 0 y); [by apply paint_block|].
    replace (y =? j) with false by lia. by rewrite andb_false_r.
Qed.

(** C32: What a frame shows: when something changed, update_frame() paints the
    whole window anew, and in the picture every cell of the grid has the
    colour of the falling shape where one of its blocks is and the colour of
    the grid elsewhere; then the panel, the score and the level are drawn and
    the frame is presented.  When nothing changed nothing is drawn. *)
Theorem update_frame_picture s : inv0 s -> game_over s = 0 ->
  (state_changed s = 0 -> update_frame s = Ok tt s) /\
  (state_changed s <> 0 -> exists s' cs, update_frame s = Ok tt s' /\ state_changed s' = 0 /\ grid s' = grid s /\
     calls s' = calls s ++ cs ++ frame_calls s (i32 (score s)) (current_level s) /\
     forall canvas i j u v, 0 <= i < GRID_WIDTH -> 0 <= j < GRID_HEIGHT -> cell_pixel (xoff s) (yoff s) i j u v ->
       px (picture cs canvas) u v =
       rgb (color_of (if taken (blocks s) i j then current_shape_color s else gcell (grid s) i j))).
Proof.
  intros Hi Hov. rewrite (update_frame_ok s Hi). unfold updated. rewrite Hov. cbn [Z.eqb negb]. split.
  - by intros ->.
  - intros Hch. rewrite (proj2 (Z.eqb_neq _ _) Hch). eexists _, (cell_calls s). split; [reflexivity|]. split; [done|]. split; [done|].
    split; [done|]. intros c i j u v Hi' Hj Hp. unfold cell_calls, picture. rewrite !foldl_app. fold (picture (grid_calls s)).
    change (foldl picture1 ?c (shape_calls s)) with (picture (shape_calls s) c). rewrite (paint_shape s _ i j) by done.
    destruct (taken (blocks s) i j); [done|]. change (foldl picture1 ?c (grid_calls s)) with (picture (grid_calls s) c). by rewrite (paint_grid s _ i j).
Qed.
Lemma update_frame_witness : exists s' cs, update_frame demo_game = Ok tt s' /\ calls s' = calls demo_game ++ cs ++ frame_calls demo_game 0 0.
Proof.
  destruct (update_frame_picture demo_game (proj1 demo_inv)) as [_ H]; [reflexivity|].
  destruct H as (s' & cs & H1 & _ & _ & H2 & _); [discriminate|]. exists s', cs. split; [exact H1|exact H2].
Defined.

(** ** A new game *)
(** Any key but ESC starts a new game when the old one is over: the grid is
    empty, score, lines and level are 0 and a shape enters.  The speed is not
    reset: [fall_freq] stays the one of the level the old game ended in until
    the next move or lock. *)
Theorem restart_spec s : inv s -> game_over s <> 0 -> 0 < fst (first_input (events s)) ->
  exists s', game_loop s = Ok 0 s' /\ inv s' /\ game_over s' = 0 /\ board (grid s') = replicate 20 (replicate 10 0) /\
    score s' = 0 /\ lines_cleared s' = 0 /\ current_level s' = 0 /\ current_x s' = 5 /\ fall_freq s' = fall_freq s.
Proof.
  intros Hi Hov He. destruct (game_loop_ok s Hi) as (_ & _ & H3). set (e := fst _) in *. set (s1 := set_events _ s) in *.
  specialize (H3 ltac:(unfold QUIT; lia) Hov). replace (0 <? e) with true in H3 by lia. eexists. split; [exact H3|].
  assert (Hi1 : inv s1) by (by apply events_inv). split; [by apply emit_inv, restarted_inv, Hi1|].
  unfold restarted. match goal with |- context [spawned ?k] => destruct (spawned_frame k) as (y & _ & ->) end. repeat split.
Qed.
(** a game that ended with the speed of level 14 *)
Definition demo_over : Game :=
  set_events [Some (SDL_KEYDOWN SDLK_other)] (set_fall_freq 1 (set_current_level 14 (set_game_over 1 demo_game))).
Lemma demo_over_inv : inv demo_over.
Proof. destruct demo_inv as [[] _]. split; [|discriminate]. constructor; try assumption; try (by right); cbn; lia. Qed.
Lemma restart_witness : exists s', game_loop demo_over = Ok 0 s' /\ current_level s' = 0 /\ fall_freq s' = 1.
Proof.
  destruct (restart_spec demo_over demo_over_inv) as (s' & H1 & _ & _ & _ & _ & _ & H2 & _ & H3); [discriminate|reflexivity|].
  exists s'. split; [exact H1|]. split; [exact H2|exact H3].
Defined.
