(* ===== verification/CurlState.v ===== *)
(** * curl shim: data and state (curl/curl.h, the structures of curl_compat.c)

    The structures live in stores: a CURL, CURLM, message node or curl_slist
    is the entry of a finite map at its address, and reading an address that
    is not there (NULL, freed, dangling) is the fault [NullDeref].  The strings
    of a handle are private copies and are kept in it; the caller's blocks
    (post data, error buffers) are in a map of their own, since the handle
    only points at them.  malloc() asks the world whether it succeeds, so the
    paths of a failed allocation are part of the model, and [live] counts the
    blocks that are not freed.  The HTTP client tinyhttpsc, which is not in the
    repository, and the caller's callbacks are functions of the world: they
    answer from the history of what happened so far. *)
From S2P Require Import Prelude.
From stdpp Require Export gmap.
#[global] Open Scope prog_scope.
#[global] Open Scope Z_scope.

Definition CURL_ERROR_SIZE : Z := 256.
Definition SIZE_MAX : Z := 18446744073709551615.
Definition LIBCURL_VERSION : list Z := str "7.66.0-ewokos-tinyhttpsc".

(** CURLcode and CURLMcode *)
Definition CURLE_OK : Z := 0.
Definition CURLE_UNSUPPORTED_PROTOCOL : Z := 1.
Definition CURLE_FAILED_INIT : Z := 2.
Definition CURLE_URL_MALFORMAT : Z := 3.
Definition CURLE_NOT_BUILT_IN : Z := 4.
Definition CURLE_COULDNT_RESOLVE_PROXY : Z := 5.
Definition CURLE_COULDNT_RESOLVE_HOST : Z := 6.
Definition CURLE_COULDNT_CONNECT : Z := 7.
Definition CURLE_FTP_COULDNT_RETR_FILE : Z := 19.
Definition CURLE_HTTP_RETURNED_ERROR : Z := 22.
Definition CURLE_WRITE_ERROR : Z := 23.
Definition CURLE_READ_ERROR : Z := 26.
Definition CURLE_OUT_OF_MEMORY : Z := 27.
Definition CURLE_OPERATION_TIMEDOUT : Z := 28.
Definition CURLE_SSL_CONNECT_ERROR : Z := 35.
Definition CURLE_FILE_COULDNT_READ_FILE : Z := 37.
Definition CURLE_TOO_MANY_REDIRECTS : Z := 47.
Definition CURLE_SSL_CERTPROBLEM : Z := 58.
Definition CURLE_SSL_PINNEDPUBKEYNOTMATCH : Z := 90.
Definition CURLM_OK : Z := 0.
Definition CURLM_CALL_MULTI_PERFORM : Z := -1.
Definition CURLM_BAD_HANDLE : Z := 1.
Definition CURLM_BAD_EASY_HANDLE : Z := 2.
Definition CURLM_OUT_OF_MEMORY : Z := 3.
Inductive CURLoption :=
  | CURLOPT_URL | CURLOPT_WRITEDATA | CURLOPT_WRITEFUNCTION | CURLOPT_HEADERDATA | CURLOPT_HEADERFUNCTION
  | CURLOPT_READDATA | CURLOPT_READFUNCTION | CURLOPT_INFILE | CURLOPT_INFILESIZE |
  CURLOPT_INFILESIZE_LARGE | CURLOPT_SEEKFUNCTION | CURLOPT_SEEKDATA | CURLOPT_POST | CURLOPT_POSTFIELDS
  | CURLOPT_POSTFIELDSIZE | CURLOPT_POSTFIELDSIZE_LARGE | CURLOPT_NOBODY | CURLOPT_UPLOAD |
  CURLOPT_HTTPGET | CURLOPT_CUSTOMREQUEST | CURLOPT_HTTPHEADER | CURLOPT_USERAGENT | CURLOPT_RANGE |
  CURLOPT_ENCODING | CURLOPT_FAILONERROR | CURLOPT_FOLLOWLOCATION | CURLOPT_MAXREDIRS | CURLOPT_POSTREDIR
  | CURLOPT_ERRORBUFFER | CURLOPT_USERPWD | CURLOPT_USERNAME | CURLOPT_PASSWORD | CURLOPT_HTTPAUTH |
  CURLOPT_NETRC | CURLOPT_COOKIEFILE | CURLOPT_COOKIEJAR | CURLOPT_RESOLVE | CURLOPT_SSL_VERIFYPEER |
  CURLOPT_SSL_VERIFYHOST | CURLOPT_SSLVERSION | CURLOPT_SSL_CIPHER_LIST | CURLOPT_SSLCERT |
  CURLOPT_SSLCERTTYPE | CURLOPT_SSLKEY | CURLOPT_SSLKEYTYPE | CURLOPT_KEYPASSWD | CURLOPT_CAPATH |
  CURLOPT_CAINFO | CURLOPT_PINNEDPUBLICKEY | CURLOPT_SSL_OPTIONS | CURLOPT_LOW_SPEED_LIMIT |
  CURLOPT_LOW_SPEED_TIME | CURLOPT_HTTP_VERSION | CURLOPT_GSSAPI_DELEGATION | CURLOPT_TCP_KEEPALIVE |
  CURLOPT_SOCKOPTFUNCTION | CURLOPT_VERBOSE | CURLOPT_DEBUGFUNCTION | CURLOPT_DEBUGDATA | CURLOPT_USE_SSL
  | CURLOPT_FTP_USE_EPSV | CURLOPT_PROXY | CURLOPT_PROXYTYPE | CURLOPT_PROXYUSERNAME |
  CURLOPT_PROXYPASSWORD | CURLOPT_PROXYHEADER | CURLOPT_PROXYAUTH | CURLOPT_PROXY_SSLCERT |
  CURLOPT_PROXY_SSLKEY | CURLOPT_PROXY_KEYPASSWD | CURLOPT_PROXY_CAINFO | CURLOPT_NOPROXY |
  CURLOPT_PROTOCOLS | CURLOPT_REDIR_PROTOCOLS | CURLOPT_IPRESOLVE.
(** the numbers of the enumeration *)
Definition opt_value (o : CURLoption) : Z :=
  match o with
  | CURLOPT_URL => 1 | CURLOPT_WRITEDATA => 2 | CURLOPT_WRITEFUNCTION => 3 | CURLOPT_HEADERDATA => 4 |
  CURLOPT_HEADERFUNCTION => 5 | CURLOPT_READDATA => 6 | CURLOPT_READFUNCTION => 7 | CURLOPT_INFILE => 8 |
  CURLOPT_INFILESIZE => 9 | CURLOPT_INFILESIZE_LARGE => 10 | CURLOPT_SEEKFUNCTION => 11 |
  CURLOPT_SEEKDATA => 12 | CURLOPT_POST => 13 | CURLOPT_POSTFIELDS => 14 | CURLOPT_POSTFIELDSIZE => 15 |
  CURLOPT_POSTFIELDSIZE_LARGE => 16 | CURLOPT_NOBODY => 17 | CURLOPT_UPLOAD => 18 | CURLOPT_HTTPGET => 19
  | CURLOPT_CUSTOMREQUEST => 20 | CURLOPT_HTTPHEADER => 21 | CURLOPT_USERAGENT => 22 | CURLOPT_RANGE =>
  23 | CURLOPT_ENCODING => 24 | CURLOPT_FAILONERROR => 25 | CURLOPT_FOLLOWLOCATION => 26 |
  CURLOPT_MAXREDIRS => 27 | CURLOPT_POSTREDIR => 28 | CURLOPT_ERRORBUFFER => 29 | CURLOPT_USERPWD => 30 |
  CURLOPT_USERNAME => 31 | CURLOPT_PASSWORD => 32 | CURLOPT_HTTPAUTH => 33 | CURLOPT_NETRC => 34 |
  CURLOPT_COOKIEFILE => 35 | CURLOPT_COOKIEJAR => 36 | CURLOPT_RESOLVE => 37 | CURLOPT_SSL_VERIFYPEER =>
  38 | CURLOPT_SSL_VERIFYHOST => 39 | CURLOPT_SSLVERSION => 40 | CURLOPT_SSL_CIPHER_LIST => 41 |
  CURLOPT_SSLCERT => 42 | CURLOPT_SSLCERTTYPE => 43 | CURLOPT_SSLKEY => 44 | CURLOPT_SSLKEYTYPE => 45 |
  CURLOPT_KEYPASSWD => 46 | CURLOPT_CAPATH => 47 | CURLOPT_CAINFO => 48 | CURLOPT_PINNEDPUBLICKEY => 49 |
  CURLOPT_SSL_OPTIONS => 50 | CURLOPT_LOW_SPEED_LIMIT => 51 | CURLOPT_LOW_SPEED_TIME => 52 |
  CURLOPT_HTTP_VERSION => 53 | CURLOPT_GSSAPI_DELEGATION => 54 | CURLOPT_TCP_KEEPALIVE => 55 |
  CURLOPT_SOCKOPTFUNCTION => 56 | CURLOPT_VERBOSE => 57 | CURLOPT_DEBUGFUNCTION => 58 | CURLOPT_DEBUGDATA
  => 59 | CURLOPT_USE_SSL => 60 | CURLOPT_FTP_USE_EPSV => 61 | CURLOPT_PROXY => 62 | CURLOPT_PROXYTYPE =>
  63 | CURLOPT_PROXYUSERNAME => 64 | CURLOPT_PROXYPASSWORD => 65 | CURLOPT_PROXYHEADER => 66 |
  CURLOPT_PROXYAUTH => 67 | CURLOPT_PROXY_SSLCERT => 68 | CURLOPT_PROXY_SSLKEY => 69 |
  CURLOPT_PROXY_KEYPASSWD => 70 | CURLOPT_PROXY_CAINFO => 71 | CURLOPT_NOPROXY => 72 | CURLOPT_PROTOCOLS
  => 73 | CURLOPT_REDIR_PROTOCOLS => 74 | CURLOPT_IPRESOLVE => 75
  end.

(** CURLINFO: the kinds of debug data, and what curl_easy_getinfo() tells *)
Definition CURLINFO_HEADER_IN : Z := 1.
Definition CURLINFO_HEADER_OUT : Z := 2.
Definition CURLINFO_DATA_IN : Z := 3.
Definition CURLINFO_DATA_OUT : Z := 4.
Definition CURLINFO_RESPONSE_CODE : Z := 100.
Definition CURLINFO_HTTPAUTH_AVAIL : Z := 101.
Definition CURLINFO_HTTP_CONNECTCODE : Z := 102.
Definition CURLINFO_CONTENT_TYPE : Z := 103.
Definition CURLINFO_EFFECTIVE_URL : Z := 104.

Definition CURLAUTH_BASIC : Z := 1.
Definition CURLAUTH_DIGEST : Z := 2.
Definition CURLAUTH_GSSNEGOTIATE : Z := 4.
Definition CURLAUTH_NTLM : Z := 8.
Definition CURLPROTO_HTTP : Z := 1.
Definition CURLPROTO_HTTPS : Z := 2.
Definition CURL_IPRESOLVE_V6 : Z := 2.
Definition CURL_REDIR_POST_301 : Z := 1.
Definition CURL_REDIR_POST_302 : Z := 2.
Definition CURL_HTTP_VERSION_1_1 : Z := 2.
Definition CURLSSLSET_OK : Z := 0.
Definition CURLSSLSET_UNKNOWN_BACKEND : Z := 1.

(** ** The structures; pointers are addresses, NULL is 0 *)
Set Primitive Projections.
Record CURL := mkCURL {
  h_url : option (list Z);
  h_custom_request : option (list Z);
  h_user_agent : option (list Z);
  h_range : option (list Z);
  h_username : option (list Z);
  h_password : option (list Z);
  h_userpwd : option (list Z);
  h_proxy : option (list Z);
  h_cookie_file : option (list Z);
  h_content_type : option (list Z);
  h_effective_url : option (list Z);
  h_headers : Z;
  h_resolve : Z;
  h_post_fields : Z;
  h_post_size : Z;
  h_infile_size : Z;
  h_write_data : Z;
  h_header_data : Z;
  h_read_data : Z;
  h_seek_data : Z;
  h_error_buffer : Z;
  h_debug_data : Z;
  h_write_callback : Z;
  h_header_callback : Z;
  h_read_callback : Z;
  h_seek_callback : Z;
  h_debug_callback : Z;
  h_httpauth : Z;
  h_protocols : Z;
  h_redir_protocols : Z;
  h_maxredirs : Z;
  h_postredir : Z;
  h_response_code : Z;
  h_auth_avail : Z;
  h_connect_code : Z;
  h_post : Z;
  h_upload : Z;
  h_nobody : Z;
  h_failonerror : Z;
  h_followlocation : Z;
  h_ssl_verifypeer : Z;
  h_ssl_verifyhost : Z;
  h_verbose : Z;
  h_unsupported_option : Z;
  h_added : Z;
  h_completed : Z;
  h_result : Z;
  h_next : Z
}.
(** CURLMsg (its only kind is CURLMSG_DONE), the nodes of its queue, CURLM *)
Record CURLMsg := mkMsg { msg_handle : Z; msg_result : Z }.
Record CurlMessageNode := mkNode { node_message : CURLMsg; node_next : Z }.
Record CURLM := mkMulti { m_handles : Z; m_head : Z; m_tail : Z }.
(** CurlBuffer: the bytes of [data] that were written, [size], [capacity] *)
Record CurlBuffer := mkBuffer { b_data : list Z; b_size : Z; b_capacity : Z }.

(** ** tinyhttpsc *)
Record request := mkRequest {
  q_url : list Z; q_max_redirections : Z; q_timeout : Z; q_method : list Z;
  q_headers : list (list Z * list Z); q_body : option (list Z)
}.
(** what the accessors of a response answer; a chunk of the body is None when
    reading it fails, and [r_end_error] is HttpsResponseError() at the end *)
Record response := mkResponse {
  r_error : bool; r_error_code : Z; r_error_msg : option (list Z); r_status : Z;
  r_headers : list (option (list Z) * option (list Z)); r_location : option (list Z);
  r_chunks : list (option (list Z)); r_end_error : bool
}.
(** what happened outside of the shim, in order; NewRequest and GotResponse are
    the calls that did not answer NULL *)
Inductive event :=
  | NewRequest (url : list Z) | FreeRequest | Fetch (q : request) | GotResponse (resp : response) | FreeResponse
  | ReadCallback (want : Z) | WriteCallback (data : list Z) | Stdout (data : list Z)
  | HeaderCallback (data : list Z) | DebugCallback (type : Z) (data : list Z).
Record curl_world := mkCurlWorld {
  w_malloc : nat -> bool;
  w_request : list event -> bool;  (** NewHttpsRequest() did not answer NULL *)
  w_fetch : list event -> request -> option response;
  w_read : list event -> Z -> Z * list Z;  (** the number answered, the bytes stored *)
  w_write : list event -> list Z -> Z;  (** the number of bytes taken *)
  w_header : list event -> list Z -> Z;
  w_rounds : nat  (** a bound on the calls of the read callback that the model follows *)
}.

Record Curl := mkCurl {
  handles : gmap Z CURL;  (** the handles that curl_easy_init() made *)
  multis : gmap Z CURLM;
  nodes : gmap Z CurlMessageNode;
  slists : gmap Z (list Z * Z);  (** data and next of each curl_slist *)
  cmem : gmap Z (list Z);  (** the caller's blocks: post data, error buffers *)
  brk : Z;  (** the next address that malloc() answers *)
  mallocs : nat;  (** calls of malloc() so far *)
  live : Z;  (** blocks that are allocated and not yet freed *)
  history : list event;
  net : curl_world  (** constant *)
}.
Unset Primitive Projections.

Ltac curl_setter target :=
  intros v s;
  let r := build_record mkCURL (tt,
    h_url, h_custom_request, h_user_agent, h_range, h_username, h_password, h_userpwd,
    h_proxy, h_cookie_file, h_content_type, h_effective_url, h_headers, h_resolve,
    h_post_fields, h_post_size, h_infile_size, h_write_data, h_header_data, h_read_data,
    h_seek_data, h_error_buffer, h_debug_data, h_write_callback, h_header_callback,
    h_read_callback, h_seek_callback, h_debug_callback, h_httpauth, h_protocols,
    h_redir_protocols, h_maxredirs, h_postredir, h_response_code, h_auth_avail,
    h_connect_code, h_post, h_upload, h_nobody, h_failonerror, h_followlocation,
    h_ssl_verifypeer, h_ssl_verifyhost, h_verbose, h_unsupported_option, h_added,
    h_completed, h_result, h_next) target v s in
  exact r.
Definition set_h_url : option (list Z) -> CURL -> CURL := ltac:(curl_setter h_url).
Definition set_h_custom_request : option (list Z) -> CURL -> CURL := ltac:(curl_setter h_custom_request).
Definition set_h_user_agent : option (list Z) -> CURL -> CURL := ltac:(curl_setter h_user_agent).
Definition set_h_range : option (list Z) -> CURL -> CURL := ltac:(curl_setter h_range).
Definition set_h_username : option (list Z) -> CURL -> CURL := ltac:(curl_setter h_username).
Definition set_h_password : option (list Z) -> CURL -> CURL := ltac:(curl_setter h_password).
Definition set_h_userpwd : option (list Z) -> CURL -> CURL := ltac:(curl_setter h_userpwd).
Definition set_h_proxy : option (list Z) -> CURL -> CURL := ltac:(curl_setter h_proxy).
Definition set_h_cookie_file : option (list Z) -> CURL -> CURL := ltac:(curl_setter h_cookie_file).
Definition set_h_content_type : option (list Z) -> CURL -> CURL := ltac:(curl_setter h_content_type).
Definition set_h_effective_url : option (list Z) -> CURL -> CURL := ltac:(curl_setter h_effective_url).
Definition set_h_headers : Z -> CURL -> CURL := ltac:(curl_setter h_headers).
Definition set_h_resolve : Z -> CURL -> CURL := ltac:(curl_setter h_resolve).
Definition set_h_post_fields : Z -> CURL -> CURL := ltac:(curl_setter h_post_fields).
Definition set_h_post_size : Z -> CURL -> CURL := ltac:(curl_setter h_post_size).
Definition set_h_infile_size : Z -> CURL -> CURL := ltac:(curl_setter h_infile_size).
Definition set_h_write_data : Z -> CURL -> CURL := ltac:(curl_setter h_write_data).
Definition set_h_header_data : Z -> CURL -> CURL := ltac:(curl_setter h_header_data).
Definition set_h_read_data : Z -> CURL -> CURL := ltac:(curl_setter h_read_data).
Definition set_h_seek_data : Z -> CURL -> CURL := ltac:(curl_setter h_seek_data).
Definition set_h_error_buffer : Z -> CURL -> CURL := ltac:(curl_setter h_error_buffer).
Definition set_h_debug_data : Z -> CURL -> CURL := ltac:(curl_setter h_debug_data).
Definition set_h_write_callback : Z -> CURL -> CURL := ltac:(curl_setter h_write_callback).
Definition set_h_header_callback : Z -> CURL -> CURL := ltac:(curl_setter h_header_callback).
Definition set_h_read_callback : Z -> CURL -> CURL := ltac:(curl_setter h_read_callback).
Definition set_h_seek_callback : Z -> CURL -> CURL := ltac:(curl_setter h_seek_callback).
Definition set_h_debug_callback : Z -> CURL -> CURL := ltac:(curl_setter h_debug_callback).
Definition set_h_httpauth : Z -> CURL -> CURL := ltac:(curl_setter h_httpauth).
Definition set_h_protocols : Z -> CURL -> CURL := ltac:(curl_setter h_protocols).
Definition set_h_redir_protocols : Z -> CURL -> CURL := ltac:(curl_setter h_redir_protocols).
Definition set_h_maxredirs : Z -> CURL -> CURL := ltac:(curl_setter h_maxredirs).
Definition set_h_postredir : Z -> CURL -> CURL := ltac:(curl_setter h_postredir).
Definition set_h_response_code : Z -> CURL -> CURL := ltac:(curl_setter h_response_code).
Definition set_h_auth_avail : Z -> CURL -> CURL := ltac:(curl_setter h_auth_avail).
Definition set_h_connect_code : Z -> CURL -> CURL := ltac:(curl_setter h_connect_code).
Definition set_h_post : Z -> CURL -> CURL := ltac:(curl_setter h_post).
Definition set_h_upload : Z -> CURL -> CURL := ltac:(curl_setter h_upload).
Definition set_h_nobody : Z -> CURL -> CURL := ltac:(curl_setter h_nobody).
Definition set_h_failonerror : Z -> CURL -> CURL := ltac:(curl_setter h_failonerror).
Definition set_h_followlocation : Z -> CURL -> CURL := ltac:(curl_setter h_followlocation).
Definition set_h_ssl_verifypeer : Z -> CURL -> CURL := ltac:(curl_setter h_ssl_verifypeer).
Definition set_h_ssl_verifyhost : Z -> CURL -> CURL := ltac:(curl_setter h_ssl_verifyhost).
Definition set_h_verbose : Z -> CURL -> CURL := ltac:(curl_setter h_verbose).
Definition set_h_unsupported_option : Z -> CURL -> CURL := ltac:(curl_setter h_unsupported_option).
Definition set_h_added : Z -> CURL -> CURL := ltac:(curl_setter h_added).
Definition set_h_completed : Z -> CURL -> CURL := ltac:(curl_setter h_completed).
Definition set_h_result : Z -> CURL -> CURL := ltac:(curl_setter h_result).
Definition set_h_next : Z -> CURL -> CURL := ltac:(curl_setter h_next).
Ltac state_setter target :=
  intros v s;
  let r := build_record mkCurl (tt,
    handles, multis, nodes, slists, cmem, brk, mallocs, live, history, net) target v s in
  exact r.
Definition set_handles : gmap Z CURL -> Curl -> Curl := ltac:(state_setter handles).
Definition set_multis : gmap Z CURLM -> Curl -> Curl := ltac:(state_setter multis).
Definition set_nodes : gmap Z CurlMessageNode -> Curl -> Curl := ltac:(state_setter nodes).
Definition set_slists : gmap Z (list Z * Z) -> Curl -> Curl := ltac:(state_setter slists).
Definition set_cmem : gmap Z (list Z) -> Curl -> Curl := ltac:(state_setter cmem).
Definition set_brk : Z -> Curl -> Curl := ltac:(state_setter brk).
Definition set_mallocs : nat -> Curl -> Curl := ltac:(state_setter mallocs).
Definition set_live : Z -> Curl -> Curl := ltac:(state_setter live).
Definition set_history : list event -> Curl -> Curl := ltac:(state_setter history).
Definition set_net : curl_world -> Curl -> Curl := ltac:(state_setter net).

(** a program of the shim *)
Abbreviation CM := (prog Curl).

(** ** Memory *)
Definition malloc : CM bool :=
  s <- get ;;
  modify (set_mallocs (S (mallocs s))) ;;
  if w_malloc (net s) (mallocs s) then modify (fun s => set_live (live s + 1) s) ;; ret true else ret false.
(** free() of a block; free(NULL) does nothing *)
Definition free_if (b : bool) : CM unit := when b (modify (fun s => set_live (live s - 1) s)).
Definition is_some {A} (o : option A) : bool := match o with Some _ => true | None => false end.
Definition free_str (o : option (list Z)) : CM unit := free_if (is_some o).
(** the address of a new structure *)
Definition new_address : CM Z := s <- get ;; modify (set_brk (brk s + 1)) ;; ret (brk s).
Definition log (e : event) : CM unit := modify (fun s => set_history (history s ++ [e]) s).

Definition handle_get (p : Z) : CM CURL := s <- get ;; lift NullDeref (handles s !! p).
Definition handle_set (p : Z) (f : CURL -> CURL) : CM unit :=
  h <- handle_get p ;; modify (fun s => set_handles (<[p := f h]> (handles s)) s).
Definition multi_get (p : Z) : CM CURLM := s <- get ;; lift NullDeref (multis s !! p).
Definition multi_set (p : Z) (m : CURLM) : CM unit := multi_get p ;; modify (fun s => set_multis (<[p := m]> (multis s)) s).
Definition node_get (p : Z) : CM CurlMessageNode := s <- get ;; lift NullDeref (nodes s !! p).
Definition mem_get (p : Z) : CM (list Z) := s <- get ;; lift NullDeref (cmem s !! p).
(** the write of [bs] at the start of the caller's block [p] *)
Definition mem_set (p : Z) (bs : list Z) : CM unit :=
  block <- mem_get p ;;
  if zlen block <? zlen bs then oob
  else modify (fun s => set_cmem (<[p := splice 0 bs block]> (cmem s)) s).
(** the data of the nodes of a curl_slist, in order *)
Fixpoint slist_items (fuel : nat) (p : Z) : CM (list (list Z)) :=
  if p =? 0 then ret []
  else
    match fuel with
    | O => raise NoFuel
    | S fuel =>
        s <- get ;;
        n <- lift NullDeref (slists s !! p) ;;
        rest <- slist_items fuel (snd n) ;;
        ret (fst n :: rest)
    end.
Definition slist_data (p : Z) : CM (list (list Z)) := s <- get ;; slist_items (S (size (slists s))) p.

(** a structure that calloc() cleared *)
Definition zero_handle : CURL :=
  mkCURL None None None None None None None None None None None 0 0 0 0 0 0 0 0 0 0 0 0 0 0 0 0 0 0 0 0 0 0 0 0 0 0 0 0 0 0 0 0 0 0 0 0 0.
