(* ===== verification/CurlUrl.v ===== *)
(** * curl shim: URLs, headers and encodings (curl_compat.c)

    A [char *] that is not NULL is the list of its bytes; a pointer into a
    string is the suffix it points at, so that a difference of pointers is a
    difference of lengths. *)
From S2P Require Import Prelude CurlState.

(** ** Strings *)
Definition curl_strdup (value : option (list Z)) : CM (option (list Z)) :=
  match value with
  | None => ret None
  | Some s => ok <- malloc ;; ret (if ok : bool then Some s else None)
  end.
(** curl_replace_string() of the field of handle [p] that [get] reads and
    [set] writes; true is the answer -1 *)
Definition curl_replace_string (get : CURL -> option (list Z)) (set : option (list Z) -> CURL -> CURL)
    (p : Z) (value : option (list Z)) : CM bool :=
  copy <- curl_strdup value ;;
  if is_some value && negb (is_some copy) then ret true
  else
    h <- handle_get p ;;
    free_str (get h) ;;
    handle_set p (set copy) ;;
    ret false.
Definition curl_set_error (p code : Z) (message : option (list Z)) : CM unit :=
  handle_set p (set_h_result code) ;;
  h <- handle_get p ;;
  match message with
  | Some m =>
      (** strncpy() pads with zeros *)
      when (negb (h_error_buffer h =? 0))
        (mem_set (h_error_buffer h) (resize (Z.to_nat CURL_ERROR_SIZE) 0 (snprintf CURL_ERROR_SIZE m)))
  | None => ret tt
  end.
Definition curl_memory_error (p : Z) : CM Z :=
  curl_set_error p CURLE_OUT_OF_MEMORY (Some (str "out of memory")) ;; ret CURLE_OUT_OF_MEMORY.

(** ** URLs *)
Definition https : list Z := str "https://".
Definition http : list Z := str "http://".
Definition sep : list Z := str "://".
Definition curl_scheme_allowed (url : list Z) (protocols : Z) : bool :=
  if prefixcaseb https url then negb (Z.land protocols CURLPROTO_HTTPS =? 0)
  else if prefixcaseb http url then negb (Z.land protocols CURLPROTO_HTTP =? 0)
  else false.

(** the host part of what follows "://": up to the next '/' *)
Definition host_len (host : list Z) : nat :=
  match strchr host 47 with Some e => length host - length e | None => length host end.
Definition curl_same_origin (a b : list Z) : bool :=
  match strstr a sep, strstr b sep with
  | Some a_host, Some b_host =>
      let a_scheme := (length a - length a_host)%nat in
      let b_scheme := (length b - length b_host)%nat in
      let a_host := drop 3 a_host in
      let b_host := drop 3 b_host in
      (a_scheme =? b_scheme)%nat && (host_len a_host =? host_len b_host)%nat &&
      ncaseeq a_scheme a b && ncaseeq (host_len a_host) a_host b_host
  | _, _ => true
  end.

(** strpbrk(s, "?#") as a suffix *)
Fixpoint find_query (s : list Z) : option (list Z) :=
  match s with [] => None | c :: s' => if (c =? 63) || (c =? 35) then Some s else find_query s' end.
(** the loop that looks for the last '/' of [p] in front of [end_], a suffix of it *)
Fixpoint last_slash (p end_ : list Z) (last : option (list Z)) : option (list Z) :=
  if (length p <=? length end_)%nat then last
  else match p with
       | [] => last
       | c :: p' => last_slash p' end_ (if c =? 47 then Some p else last)
       end.
(** how many bytes of [base] are in front of its suffix [p] *)
Definition before (base p : list Z) : nat := length base - length p.
Definition curl_redirect_url (base location : list Z) : CM (option (list Z)) :=
  if is_some (strstr location sep) then curl_strdup (Some location)
  else
    match strstr base sep with
    | None => ret None
    | Some scheme =>
        let needed := zlen base + zlen location + 3 in
        ok <- malloc ;;
        if negb ok then ret None
        else if (nth0 0 location =? 47) && (nth0 1 location =? 47) then
          ret (Some (snprintf needed (take (before base scheme) base ++ [58] ++ location)))
        else
          let host := drop 3 scheme in
          let path := strchr host 47 in
          let origin_end := match path with Some p => p | None => [] end in
          if nth0 0 location =? 47 then
            ret (Some (snprintf needed (take (before base origin_end) base ++ location)))
          else
            let query := match path with Some p => find_query p | None => None end in
            let end_ := match query with Some q => q | None => [] end in
            if nth0 0 location =? 63 then
              ret (Some (snprintf needed (take (before base end_) base ++ location)))
            else
              let last := match path with Some p => last_slash p end_ None | None => None end in
              let prefix := match last with
                            | Some l => (before base l + 1)%nat
                            | None => before base origin_end
                            end in
              ret (Some (snprintf needed (take prefix base ++ location)))
    end.

(** ** Headers *)
Definition curl_header_name_is (line : list Z) (len : nat) (name : list Z) : bool :=
  (length name <? len)%nat && (nth0 (length name) line =? 58) && ncaseeq (length name) line name.
Definition curl_headers_contain (p : Z) (name : list Z) : CM bool :=
  h <- handle_get p ;;
  items <- slist_data (h_headers h) ;;
  ret (existsb (fun line => curl_header_name_is line (length line) name) items).

(** ** Base64 *)
Definition b64_table : list Z := str "ABCDEFGHIJKLMNOPQRSTUVWXYZabcdefghijklmnopqrstuvwxyz0123456789+/".
Definition b64_char (v : Z) : Z := nth0 (Z.to_nat (Z.land v 63)) b64_table.
(** one group of four characters: [n] bytes are left, at least one *)
Definition b64_group (n a b c : Z) : list Z :=
  let value := Z.lor (Z.lor (u32 (Z.shiftl a 16)) (u32 (Z.shiftl b 8))) c in
  [b64_char (Z.shiftr value 18); b64_char (Z.shiftr value 12);
   if 1 <? n then b64_char (Z.shiftr value 6) else 61; if 2 <? n then b64_char value else 61].
Fixpoint b64_encode (s : list Z) : list Z :=
  match s with
  | [] => []
  | [a] => b64_group 1 a 0 0
  | [a; b] => b64_group 2 a b 0
  | a :: b :: c :: s => b64_group (zlen s + 3) a b c ++ b64_encode s
  end.
Definition curl_basic_auth (p : Z) : CM (option (list Z)) :=
  h <- handle_get p ;;
  combined <- (match h_username h, h_userpwd h with
               | None, Some up => curl_strdup (Some up)
               | Some user, _ =>
                   let password := match h_password h with Some pw => pw | None => [] end in
                   let len := zlen user + zlen password + 2 in
                   ok <- malloc ;;
                   ret (if ok : bool then Some (snprintf len (user ++ [58] ++ password)) else None)
               | None, None => ret None
               end) ;;
  match combined with
  | None => ret None
  | Some combined =>
      let len := zlen combined in
      let out_len := (len + 2) / 3 * 4 in
      ok <- malloc ;;
      if negb ok then free_if true ;; ret None
      else
        let out := str "Basic " ++ b64_encode combined in
        if out_len + 16 <=? zlen out then oob
        else free_if true ;; ret (Some out)
  end.

(** ** Percent encoding *)
Definition unreserved (c : Z) : bool := isalnum c || (c =? 45) || (c =? 95) || (c =? 46) || (c =? 126).
Definition hex_digit (n : Z) : Z := nth0 (Z.to_nat n) (str "0123456789ABCDEF").
Definition escape_char (c : Z) : list Z :=
  if unreserved c then [c] else [37; hex_digit (Z.shiftr c 4); hex_digit (Z.land c 15)].
(** [length] 0 stands for the length of the string; reading past its end faults *)
Definition curl_easy_escape (string : option (list Z)) (len : Z) : CM (option (list Z)) :=
  match string with
  | None => ret None
  | Some s =>
      let len := if len =? 0 then zlen s else len in
      ok <- malloc ;;
      if negb ok then ret None
      else if zlen s + 1 <? len then oob
      else ret (Some (concat (map escape_char (take (Z.to_nat len) (s ++ [0])))))
  end.
