(* ===== verification/CurlEasy.v ===== *)
(** * curl shim: the easy interface (curl_compat.c)

    Handles, their options, one transfer and what it tells afterwards.  The
    local variables of curl_perform() that its loop changes are the record
    [transfer]. *)
From S2P Require Import Prelude CurlState CurlUrl.

(** ** Buffers *)
Definition empty_buffer : CurlBuffer := mkBuffer [] 0 0.
(** the doubling loop of curl_buffer_append(); it ends within 65 turns *)
Fixpoint grow (fuel : nat) (capacity needed : Z) : CM Z :=
  match fuel with
  | O => raise NoFuel
  | S fuel =>
      if capacity <? needed then
        if SIZE_MAX / 2 <? capacity then ret needed else grow fuel (capacity * 2) needed
      else ret capacity
  end.
(** the new buffer, None for the answer -1 *)
Definition curl_buffer_append (b : CurlBuffer) (data : list Z) : CM (option CurlBuffer) :=
  let size := zlen data in
  if size =? 0 then ret (Some b)
  else if SIZE_MAX - b_size b <? size then ret None
  else
    let needed := b_size b + size in
    let store cap := mkBuffer (splice (Z.to_nat (b_size b)) data (b_data b)) needed cap in
    if b_capacity b <? needed then
      capacity <- grow 65 (if b_capacity b =? 0 then 16384 else b_capacity b) needed ;;
      ok <- malloc ;;
      if negb ok then ret None
      else free_if (negb (b_capacity b =? 0)) ;; ret (Some (store capacity))
    else ret (Some (store (b_capacity b))).
Definition free_buffer (b : CurlBuffer) : CM unit := free_if (negb (b_capacity b =? 0)).

(** ** The library *)
(** curl_global_sslset(): true when the backend is known *)
Definition curl_global_sslset (name : option (list Z)) : Z :=
  match name with
  | Some n => if caseeq n (str "bearssl") then CURLSSLSET_OK else CURLSSLSET_UNKNOWN_BACKEND
  | None => CURLSSLSET_OK
  end.
Definition curl_global_init (flags : Z) : Z := CURLE_OK.
Definition curl_global_cleanup : CM unit := ret tt.
Definition curl_version : list Z := LIBCURL_VERSION.
Record curl_version_info_data := mkVersionInfo {
  age : Z; version : list Z; version_num : Z; host : list Z; features : Z; ssl_version : list Z
}.
Definition curl_version_info : curl_version_info_data :=
  mkVersionInfo 0 LIBCURL_VERSION 475648 (str "ewokos-aarch64") 0 (str "BearSSL/tinyhttpsc").
(** curl_free() of what curl_easy_escape() answered *)
Definition curl_free (ptr : option (list Z)) : CM unit := free_str ptr.
Definition curl_easy_strerror (code : Z) : list Z :=
  if code =? CURLE_OK then str "no error"
  else if code =? CURLE_UNSUPPORTED_PROTOCOL then str "unsupported protocol"
  else if code =? CURLE_NOT_BUILT_IN then str "feature not supported by tinyhttpsc backend"
  else if code =? CURLE_URL_MALFORMAT then str "malformed URL"
  else if code =? CURLE_COULDNT_RESOLVE_HOST then str "could not resolve host"
  else if code =? CURLE_COULDNT_CONNECT then str "could not connect"
  else if code =? CURLE_HTTP_RETURNED_ERROR then str "HTTP returned an error"
  else if code =? CURLE_WRITE_ERROR then str "response write failed"
  else if code =? CURLE_READ_ERROR then str "transfer read failed"
  else if code =? CURLE_OUT_OF_MEMORY then str "out of memory"
  else if code =? CURLE_OPERATION_TIMEDOUT then str "operation timed out"
  else if code =? CURLE_SSL_CONNECT_ERROR then str "TLS connection failed"
  else if code =? CURLE_SSL_CERTPROBLEM then str "TLS certificate problem"
  else if code =? CURLE_TOO_MANY_REDIRECTS then str "too many redirects"
  else str "HTTP transfer failed".

(** ** Handles *)
Definition new_handle : CURL :=
  set_h_ssl_verifyhost 2 (set_h_ssl_verifypeer 1
    (set_h_redir_protocols (Z.lor CURLPROTO_HTTP CURLPROTO_HTTPS) (set_h_protocols (Z.lor CURLPROTO_HTTP CURLPROTO_HTTPS)
      (set_h_maxredirs 20 (set_h_infile_size (-1) (set_h_post_size (-1) zero_handle)))))).
Definition curl_easy_init : CM Z :=
  ok <- malloc ;;
  if negb ok then ret 0
  else
    p <- new_address ;;
    modify (fun s => set_handles (<[p := new_handle]> (handles s)) s) ;;
    ret p.
(** the strings of a handle, in the order of the source *)
Definition handle_strings : list ((CURL -> option (list Z)) * (option (list Z) -> CURL -> CURL)) :=
  [(h_url, set_h_url); (h_custom_request, set_h_custom_request); (h_user_agent, set_h_user_agent);
   (h_range, set_h_range); (h_username, set_h_username); (h_password, set_h_password); (h_userpwd, set_h_userpwd);
   (h_proxy, set_h_proxy); (h_cookie_file, set_h_cookie_file); (h_content_type, set_h_content_type);
   (h_effective_url, set_h_effective_url)].
Fixpoint free_strings (l : list ((CURL -> option (list Z)) * (option (list Z) -> CURL -> CURL))) (h : CURL) : CM unit :=
  match l with
  | [] => ret tt
  | (get, _) :: l => free_str (get h) ;; free_strings l h
  end.
Definition curl_easy_cleanup (p : Z) : CM unit :=
  if p =? 0 then ret tt
  else
    h <- handle_get p ;;
    free_strings handle_strings h ;;
    free_if true ;;
    modify (fun s => set_handles (delete p (handles s)) s).
(** DUP_STRING of each string; the copy is cleaned up when one fails *)
Fixpoint dup_strings (l : list ((CURL -> option (list Z)) * (option (list Z) -> CURL -> CURL))) (h : CURL) (copy : Z) : CM Z :=
  match l with
  | [] => ret copy
  | (get, set) :: l =>
      match get h with
      | None => dup_strings l h copy
      | Some s =>
          c <- curl_strdup (Some s) ;;
          handle_set copy (set c) ;;
          if is_some c then dup_strings l h copy else curl_easy_cleanup copy ;; ret 0
      end
  end.
Fixpoint clear_strings (l : list ((CURL -> option (list Z)) * (option (list Z) -> CURL -> CURL))) (h : CURL) : CURL :=
  match l with [] => h | (_, set) :: l => clear_strings l (set None h) end.
Definition curl_easy_duphandle (p : Z) : CM Z :=
  if p =? 0 then ret 0
  else
    h <- handle_get p ;;
    copy <- curl_easy_init ;;
    if copy =? 0 then ret 0
    else
      handle_set copy (fun _ => clear_strings handle_strings (set_h_completed 0 (set_h_added 0 (set_h_next 0 h)))) ;;
      dup_strings handle_strings h copy.
Definition curl_clear_transfer_results (p : Z) : CM unit :=
  h <- handle_get p ;;
  free_str (h_content_type h) ;;
  handle_set p (set_h_content_type None) ;;
  free_str (h_effective_url h) ;;
  handle_set p (fun h => set_h_completed 0 (set_h_result CURLE_OK (set_h_connect_code 0 (set_h_auth_avail 0
    (set_h_response_code 0 (set_h_effective_url None h)))))) ;;
  when (negb (h_error_buffer h =? 0)) (mem_set (h_error_buffer h) [0]).

(** ** Options *)
Definition bool_of (value : Z) : Z := if value =? 0 then 0 else 1.
Definition not_built_in (p : Z) (option : CURLoption) : CM Z :=
  handle_set p (set_h_unsupported_option (opt_value option)) ;; ret CURLE_NOT_BUILT_IN.
Definition curl_set_long_option (p : Z) (option : CURLoption) (value : Z) : CM Z :=
  let assign f := handle_set p f ;; ret CURLE_OK in
  match option with
  | CURLOPT_INFILESIZE => assign (set_h_infile_size value)
  | CURLOPT_POSTFIELDSIZE => assign (set_h_post_size value)
  | CURLOPT_POST =>
      assign (fun h => let h := set_h_post (bool_of value) h in
        if value =? 0 then h else set_h_nobody 0 (set_h_upload 0 h))
  | CURLOPT_NOBODY => assign (set_h_nobody (bool_of value))
  | CURLOPT_UPLOAD =>
      assign (fun h => let h := set_h_upload (bool_of value) h in
        if value =? 0 then h else set_h_nobody 0 (set_h_post 0 h))
  | CURLOPT_HTTPGET =>
      assign (fun h => if value =? 0 then h else set_h_nobody 0 (set_h_upload 0 (set_h_post 0 h)))
  | CURLOPT_FAILONERROR => assign (set_h_failonerror (bool_of value))
  | CURLOPT_FOLLOWLOCATION => assign (set_h_followlocation (bool_of value))
  | CURLOPT_MAXREDIRS => assign (set_h_maxredirs value)
  | CURLOPT_POSTREDIR => assign (set_h_postredir value)
  | CURLOPT_HTTPAUTH => assign (set_h_httpauth value)
  | CURLOPT_SSL_VERIFYPEER => assign (set_h_ssl_verifypeer (bool_of value))
  | CURLOPT_SSL_VERIFYHOST => assign (set_h_ssl_verifyhost (i32 value))
  | CURLOPT_PROTOCOLS => assign (set_h_protocols value)
  | CURLOPT_REDIR_PROTOCOLS => assign (set_h_redir_protocols value)
  | CURLOPT_VERBOSE => assign (set_h_verbose (bool_of value))
  | CURLOPT_NETRC | CURLOPT_TCP_KEEPALIVE | CURLOPT_PROXYTYPE | CURLOPT_PROXYAUTH => ret CURLE_OK
  | CURLOPT_IPRESOLVE => if value =? CURL_IPRESOLVE_V6 then not_built_in p option else ret CURLE_OK
  | CURLOPT_HTTP_VERSION =>
      if negb (value =? 0) && negb (value =? CURL_HTTP_VERSION_1_1) then not_built_in p option else ret CURLE_OK
  | CURLOPT_SSLVERSION | CURLOPT_SSL_OPTIONS | CURLOPT_LOW_SPEED_LIMIT | CURLOPT_LOW_SPEED_TIME
  | CURLOPT_GSSAPI_DELEGATION | CURLOPT_USE_SSL | CURLOPT_FTP_USE_EPSV =>
      if negb (value =? 0) then not_built_in p option else ret CURLE_OK
  | _ => not_built_in p option
  end.

(** the argument of curl_easy_setopt(); va_arg of another type is a fault *)
Inductive opt_arg := ArgLong (z : Z) | ArgString (s : option (list Z)) | ArgPtr (p : Z).
Definition arg_string (a : opt_arg) : CM (option (list Z)) :=
  match a with ArgString s => ret s | _ => oob end.
Definition arg_ptr (a : opt_arg) : CM Z := match a with ArgPtr p => ret p | _ => oob end.
Definition arg_long (a : opt_arg) : CM Z := match a with ArgLong z => ret z | _ => oob end.
Definition set_string (get : CURL -> option (list Z)) (set : option (list Z) -> CURL -> CURL) (p : Z) (a : opt_arg) : CM Z :=
  s <- arg_string a ;;
  failed <- curl_replace_string get set p s ;;
  if failed : bool then curl_memory_error p else ret CURLE_OK.
Definition set_ptr (set : Z -> CURL -> CURL) (p : Z) (a : opt_arg) : CM Z :=
  v <- arg_ptr a ;; handle_set p (set v) ;; ret CURLE_OK.
Definition set_off_t (set : Z -> CURL -> CURL) (p : Z) (a : opt_arg) : CM Z :=
  v <- arg_long a ;; handle_set p (set v) ;; ret CURLE_OK.
(** an option that is refused unless its string is empty *)
Definition refuse_string (p : Z) (option : CURLoption) (a : opt_arg) : CM Z :=
  s <- arg_string a ;;
  match s with Some (_ :: _) => not_built_in p option | _ => ret CURLE_OK end.
Definition curl_easy_setopt (p : Z) (option : CURLoption) (a : opt_arg) : CM Z :=
  if p =? 0 then ret CURLE_FAILED_INIT
  else
    match option with
    | CURLOPT_URL => set_string h_url set_h_url p a
    | CURLOPT_CUSTOMREQUEST => set_string h_custom_request set_h_custom_request p a
    | CURLOPT_USERAGENT => set_string h_user_agent set_h_user_agent p a
    | CURLOPT_RANGE => set_string h_range set_h_range p a
    | CURLOPT_USERNAME => set_string h_username set_h_username p a
    | CURLOPT_PASSWORD => set_string h_password set_h_password p a
    | CURLOPT_USERPWD => set_string h_userpwd set_h_userpwd p a
    | CURLOPT_PROXY => set_string h_proxy set_h_proxy p a
    | CURLOPT_COOKIEFILE => set_string h_cookie_file set_h_cookie_file p a
    | CURLOPT_POSTFIELDS => set_ptr set_h_post_fields p a
    | CURLOPT_POSTFIELDSIZE_LARGE => set_off_t set_h_post_size p a
    | CURLOPT_INFILESIZE_LARGE => set_off_t set_h_infile_size p a
    | CURLOPT_HTTPHEADER => set_ptr set_h_headers p a
    | CURLOPT_RESOLVE => set_ptr set_h_resolve p a
    | CURLOPT_WRITEDATA => set_ptr set_h_write_data p a
    | CURLOPT_HEADERDATA => set_ptr set_h_header_data p a
    | CURLOPT_INFILE | CURLOPT_READDATA => set_ptr set_h_read_data p a
    | CURLOPT_SEEKDATA => set_ptr set_h_seek_data p a
    | CURLOPT_ERRORBUFFER => set_ptr set_h_error_buffer p a
    | CURLOPT_DEBUGDATA => set_ptr set_h_debug_data p a
    | CURLOPT_WRITEFUNCTION => set_ptr set_h_write_callback p a
    | CURLOPT_HEADERFUNCTION => set_ptr set_h_header_callback p a
    | CURLOPT_READFUNCTION => set_ptr set_h_read_callback p a
    | CURLOPT_SEEKFUNCTION => set_ptr set_h_seek_callback p a
    | CURLOPT_DEBUGFUNCTION => set_ptr set_h_debug_callback p a
    | CURLOPT_PROXYHEADER =>
        v <- arg_ptr a ;; if negb (v =? 0) then not_built_in p option else ret CURLE_OK
    | CURLOPT_ENCODING | CURLOPT_SSL_CIPHER_LIST | CURLOPT_CAPATH | CURLOPT_CAINFO | CURLOPT_SSLCERT
    | CURLOPT_SSLCERTTYPE | CURLOPT_SSLKEY | CURLOPT_SSLKEYTYPE | CURLOPT_KEYPASSWD | CURLOPT_PINNEDPUBLICKEY
    | CURLOPT_COOKIEJAR | CURLOPT_PROXYUSERNAME | CURLOPT_PROXYPASSWORD | CURLOPT_PROXY_SSLCERT
    | CURLOPT_PROXY_SSLKEY | CURLOPT_PROXY_KEYPASSWD | CURLOPT_PROXY_CAINFO => refuse_string p option a
    | CURLOPT_NOPROXY => arg_string a ;; ret CURLE_OK
    | CURLOPT_SOCKOPTFUNCTION => arg_ptr a ;; ret CURLE_OK
    | _ => v <- arg_long a ;; curl_set_long_option p option v
    end.
