(* ===== verification/CurlPerform.v ===== *)
(** * curl shim: one transfer (curl_compat.c)

    The request that is sent, what the response is turned into, the loop of
    redirects and retries, and what a handle tells afterwards.  A request
    under construction is the list of the headers added to it; the local
    variables that the loop of curl_perform() changes are the record
    [transfer]. *)
From S2P Require Import CurlState CurlUrl CurlEasy Prelude.

(** ** The callbacks: the world answers from what happened before the call *)
Definition curl_debug (p type : Z) (data : list Z) : CM unit :=
  h <- handle_get p ;;
  when (negb (h_verbose h =? 0) && negb (h_debug_callback h =? 0)) (log (DebugCallback type data)).
(** the read callback that is asked for [want] bytes; answering more bytes
    than it stored, or storing more than asked for, is a fault *)
Definition call_read (want : Z) : CM (Z * list Z) :=
  s <- get ;;
  log (ReadCallback want) ;;
  let got := fst (w_read (net s) (history s) want) mod (SIZE_MAX + 1) in
  let stored := snd (w_read (net s) (history s) want) in
  if (want <? zlen stored) || ((got <=? want) && (zlen stored <? got)) then oob
  else ret (got, take (Z.to_nat got) stored).
(** the write callback, or fwrite() to stdout *)
Definition call_write (p : Z) (data : list Z) : CM Z :=
  h <- handle_get p ;;
  s <- get ;;
  log (if h_write_callback h =? 0 then Stdout data else WriteCallback data) ;;
  ret (w_write (net s) (history s) data).
Definition call_header (data : list Z) : CM Z :=
  s <- get ;;
  log (HeaderCallback data) ;;
  ret (w_header (net s) (history s) data).

(** ** The request *)
(** the headers of the list that are sent; None is the answer -1 *)
Fixpoint add_items (p : Z) (same_origin : bool) (items : list (list Z)) (request : list (list Z * list Z)) :
    CM (option (list (list Z * list Z))) :=
  match items with
  | [] => ret (Some request)
  | data :: items =>
      match strchr data 58 with
      | None => add_items p same_origin items request
      | Some colon =>
          let key_len := before data colon in
          let value := skip_while (fun c => (c =? 32) || (c =? 9)) (drop 1 colon) in
          if match value with [] => true | _ => false end then add_items p same_origin items request
          else if negb same_origin && (curl_header_name_is data (key_len + 1) (str "Authorization") ||
                                       curl_header_name_is data (key_len + 1) (str "Cookie"))
          then add_items p same_origin items request
          else if 128 <=? Z.of_nat key_len then ret None
          else
            let key := take key_len data in
            curl_debug p CURLINFO_HEADER_OUT (snprintf 512 (key ++ str ": " ++ value ++ [13; 10])) ;;
            add_items p same_origin items (request ++ [(key, value)])
      end
  end.
(** a header that a string of the handle gives, unless the list has it *)
Definition add_default (p : Z) (name : list Z) (value : option (list Z)) (request : list (list Z * list Z)) :
    CM (list (list Z * list Z)) :=
  match value with
  | None => ret request
  | Some v =>
      present <- curl_headers_contain p name ;;
      ret (if present : bool then request else request ++ [(name, v)])
  end.
Definition curl_add_request_headers (p : Z) (url original_url : list Z) : CM (option (list (list Z * list Z))) :=
  let same_origin := curl_same_origin url original_url in
  h <- handle_get p ;;
  items <- slist_data (h_headers h) ;;
  added <- add_items p same_origin items [] ;;
  match added with
  | None => ret None
  | Some request =>
      request <- add_default p (str "User-Agent") (h_user_agent h) request ;;
      request <- add_default p (str "Range") (h_range h) request ;;
      if same_origin && negb (Z.land (h_httpauth h) CURLAUTH_BASIC =? 0) then
        present <- curl_headers_contain p (str "Authorization") ;;
        if present : bool then ret (Some request)
        else
          auth <- curl_basic_auth p ;;
          match auth with
          | None => ret (Some request)
          | Some value => free_if true ;; ret (Some (request ++ [(str "Authorization", value)]))
          end
      else ret (Some request)
  end.

(** the loop that reads the body from the callback *)
Definition collect_step (p infile_size : Z) (body : CurlBuffer) : CM (CurlBuffer + Z * CurlBuffer) :=
  if (0 <=? infile_size) && (infile_size <=? b_size body) then ret (inr (CURLE_OK, body))
  else
    let want := if (0 <=? infile_size) && (infile_size - b_size body <? 16384) then infile_size - b_size body else 16384 in
    r <- call_read want ;;
    let got := fst r in
    if got =? 0 then ret (inr (CURLE_OK, body))
    else
      let failed := curl_set_error p CURLE_READ_ERROR (Some (str "failed to buffer request body")) ;;
                    ret (inr (CURLE_READ_ERROR, body)) in
      if want <? got then failed
      else
        appended <- curl_buffer_append body (snd r) ;;
        match appended with
        | None => failed
        | Some body => curl_debug p CURLINFO_DATA_OUT (snd r) ;; ret (inl body)
        end.
Definition curl_collect_request_body (p : Z) (body : CurlBuffer) : CM (Z * CurlBuffer) :=
  h <- handle_get p ;;
  s <- get ;;
  if negb (h_post_fields h =? 0) then
    block <- mem_get (h_post_fields h) ;;
    if (h_post_size h <? 0) && negb (existsb (fun c => c =? 0) block) then oob
    else
      let size := if 0 <=? h_post_size h then h_post_size h else zlen (cstr block) in
      if zlen block <? size then oob
      else
        appended <- curl_buffer_append body (take (Z.to_nat size) block) ;;
        match appended with
        | None => r <- curl_memory_error p ;; ret (r, body)
        | Some body => ret (CURLE_OK, body)
        end
  else if h_read_callback h =? 0 then ret (CURLE_OK, body)
  else
    iter (Nat.max (w_rounds (net s)) (S (Z.to_nat (h_infile_size h)))) (collect_step p (h_infile_size h)) body.

(** ** The response *)
(** true is the answer -1 *)
Definition curl_deliver_header (p : Z) (data : list Z) : CM bool :=
  curl_debug p CURLINFO_HEADER_IN data ;;
  h <- handle_get p ;;
  if h_header_callback h =? 0 then ret false
  else written <- call_header data ;; ret (negb (written =? zlen data)).
Definition auth_bits (value : list Z) : Z :=
  let bit name b := if ncaseeq (length name) value name then b else 0 in
  Z.lor (bit (str "Basic") CURLAUTH_BASIC) (Z.lor (bit (str "Digest") CURLAUTH_DIGEST)
    (Z.lor (bit (str "NTLM") CURLAUTH_NTLM) (bit (str "Negotiate") CURLAUTH_GSSNEGOTIATE))).
Definition process_header (p : Z) (key value : list Z) : CM bool :=
  let line_size := zlen key + zlen value + 5 in
  ok <- malloc ;;
  if negb ok then ret true
  else
    failed <- curl_deliver_header p (snprintf line_size (key ++ str ": " ++ value ++ [13; 10])) ;;
    free_if true ;;
    if failed : bool then ret true
    else if caseeq key (str "Content-Type") then curl_replace_string h_content_type set_h_content_type p (Some value)
    else if caseeq key (str "WWW-Authenticate") then
      handle_set p (fun h => set_h_auth_avail (Z.lor (h_auth_avail h) (auth_bits value)) h) ;; ret false
    else ret false.
Fixpoint process_headers (p : Z) (headers : list (option (list Z) * option (list Z))) : CM bool :=
  match headers with
  | [] => ret false
  | (Some key, Some value) :: headers =>
      failed <- process_header p key value ;;
      if failed : bool then ret true else process_headers p headers
  | _ :: headers => process_headers p headers
  end.
Definition curl_process_response_headers (p : Z) (resp : response) : CM bool :=
  failed <- curl_deliver_header p (snprintf 64 (str "HTTP/1.1 " ++ dec (r_status resp) ++ [13; 10])) ;;
  if failed : bool then ret true
  else
    failed <- process_headers p (r_headers resp) ;;
    if failed : bool then ret true else curl_deliver_header p [13; 10].

(** the loop of HttpsResponseReadBodyChunk(); a chunk that is larger than the
    buffer it is read to is a fault *)
Fixpoint read_chunks (p : Z) (resp : response) (chunks : list (option (list Z))) (body : CurlBuffer) :
    CM (Z * CurlBuffer) :=
  let failed := curl_set_error p CURLE_READ_ERROR (r_error_msg resp) ;; ret (CURLE_READ_ERROR, body) in
  match chunks with
  | None :: _ => failed
  | [] | Some [] :: _ => if r_end_error resp then failed else ret (CURLE_OK, body)
  | Some data :: chunks =>
      if 16384 <? zlen data then oob
      else
        curl_debug p CURLINFO_DATA_IN data ;;
        appended <- curl_buffer_append body data ;;
        match appended with
        | None => r <- curl_memory_error p ;; ret (r, body)
        | Some body => read_chunks p resp chunks body
        end
  end.
Definition curl_deliver_body (p : Z) (resp : response) (body : CurlBuffer) : CM (Z * CurlBuffer) :=
  h <- handle_get p ;;
  if negb (h_nobody h =? 0) then ret (CURLE_OK, body)
  else
    let body := mkBuffer (b_data body) 0 (b_capacity body) in
    r <- read_chunks p resp (r_chunks resp) body ;;
    let body := snd r in
    if negb (fst r =? CURLE_OK) then ret (fst r, body)
    else
      written <- call_write p (take (Z.to_nat (b_size body)) (b_data body)) ;;
      if negb (written =? b_size body) then
        curl_set_error p CURLE_WRITE_ERROR (Some (str "HTTP response callback failed")) ;;
        ret (CURLE_WRITE_ERROR, body)
      else ret (CURLE_OK, body).
Definition curl_map_response_error (p : Z) (resp : response) : CM Z :=
  h <- handle_get p ;;
  let code := r_error_code resp in
  let is_https := match h_url h with Some url => ncaseeq 8 url https | None => false end in
  let timeout := match r_error_msg resp with Some m => is_some (strstr m (str "timeout")) | None => false end in
  let result :=
    if code =? 2 then CURLE_URL_MALFORMAT
    else if code =? 8 then CURLE_OUT_OF_MEMORY
    else if (code =? 10) || (code =? 11) then CURLE_COULDNT_RESOLVE_HOST
    else if (code =? 6) || (code =? 15) || (code =? 16) || (code =? 20) then CURLE_READ_ERROR
    else if ((code =? 17) || (code =? 18)) && is_https then CURLE_SSL_CONNECT_ERROR
    else if timeout then CURLE_OPERATION_TIMEDOUT
    else CURLE_COULDNT_CONNECT in
  curl_set_error p result (Some (match r_error_msg resp with Some m => m | None => str "tinyhttpsc request failed" end)) ;;
  ret result.

(** ** curl_perform() *)
Record transfer := mkTransfer {
  t_url : list Z;  (** current_url *)
  t_redirects : Z;
  t_retries : Z;
  t_method : list Z;
  t_has_body : bool;
  t_body : CurlBuffer;
  t_response : CurlBuffer  (** response_body *)
}.
Definition set_t_retries (n : Z) (t : transfer) : transfer :=
  mkTransfer (t_url t) (t_redirects t) n (t_method t) (t_has_body t) (t_body t) (t_response t).
Definition set_t_redirects (n : Z) (t : transfer) : transfer :=
  mkTransfer (t_url t) n (t_retries t) (t_method t) (t_has_body t) (t_body t) (t_response t).
Definition set_t_response (b : CurlBuffer) (t : transfer) : transfer :=
  mkTransfer (t_url t) (t_redirects t) (t_retries t) (t_method t) (t_has_body t) (t_body t) b.

(** what is refused before anything is sent: a code and a message *)
Definition nonempty (s : option (list Z)) : bool := match s with Some (_ :: _) => true | _ => false end.
Definition refusal (h : CURL) (url : list Z) : option (Z * list Z) :=
  if negb (h_unsupported_option h =? 0) then
    Some (CURLE_NOT_BUILT_IN, str "requested curl option is not supported by tinyhttpsc")
  else if nonempty (h_proxy h) then Some (CURLE_NOT_BUILT_IN, str "HTTP proxy is not supported by tinyhttpsc")
  else if nonempty (h_cookie_file h) || negb (h_resolve h =? 0) then
    Some (CURLE_NOT_BUILT_IN, str "cookie files and custom DNS resolution are not supported")
  else if negb (curl_scheme_allowed url (h_protocols h)) then
    Some (CURLE_UNSUPPORTED_PROTOCOL, str "only HTTP and HTTPS are supported")
  else if ncaseeq 8 url https && ((h_ssl_verifypeer h =? 0) || (h_ssl_verifyhost h =? 0)) then
    Some (CURLE_SSL_CERTPROBLEM, str "disabling TLS certificate verification is not supported by tinyhttpsc")
  else None.

(** the request of one turn: the response, or the code the loop ends with *)
Definition send_request (p : Z) (url0 : list Z) (t : transfer) : CM (Z + response) :=
  s <- get ;;
  if negb (w_request (net s) (history s)) then r <- curl_memory_error p ;; ret (inl r)
  else
    log (NewRequest (t_url t)) ;;
    headers <- curl_add_request_headers p (t_url t) url0 ;;
    match headers with
    | None => log FreeRequest ;; r <- curl_memory_error p ;; ret (inl r)
    | Some headers =>
        let body := if t_has_body t then Some (take (Z.to_nat (b_size (t_body t))) (b_data (t_body t))) else None in
        let q := mkRequest (t_url t) 0 4000 (t_method t) headers body in
        s <- get ;;
        log (Fetch q) ;;
        let answer := w_fetch (net s) (history s) q in
        match answer with Some resp => log (GotResponse resp) | None => ret tt end ;;
        log FreeRequest ;;
        match answer with
        | None =>
            curl_set_error p CURLE_COULDNT_CONNECT (Some (str "tinyhttpsc returned no response")) ;;
            ret (inl CURLE_COULDNT_CONNECT)
        | Some resp => ret (inr resp)
        end
    end.
(** the end of a turn with [result]: another turn, or the end of the loop *)
Definition retry_or_stop (result : Z) (t : transfer) : transfer + Z * transfer :=
  if (streq (t_method t) (str "GET") || streq (t_method t) (str "POST")) && (t_retries t <? 1) &&
     ((result =? CURLE_COULDNT_CONNECT) || (result =? CURLE_READ_ERROR) ||
      (result =? CURLE_SSL_CONNECT_ERROR) || (result =? CURLE_OPERATION_TIMEDOUT))
  then inl (set_t_retries (t_retries t + 1) t)
  else inr (result, t).
Definition is_redirect (status : Z) : bool :=
  (status =? 301) || (status =? 302) || (status =? 303) || (status =? 307) || (status =? 308).
(** the method and the body that follow a redirect *)
Definition to_get (status postredir : Z) : bool :=
  (status =? 303) ||
  (((status =? 301) || (status =? 302)) &&
   (Z.land postredir (if status =? 301 then CURL_REDIR_POST_301 else CURL_REDIR_POST_302) =? 0)).
Definition follow_redirect (p status : Z) (location : list Z) (t : transfer) : CM (transfer + Z * transfer) :=
  h <- handle_get p ;;
  let redirects := t_redirects t in
  let t := set_t_redirects (redirects + 1) t in
  if h_maxredirs h <=? redirects then
    log FreeResponse ;;
    curl_set_error p CURLE_TOO_MANY_REDIRECTS (Some (str "too many HTTP redirects")) ;;
    ret (inr (CURLE_TOO_MANY_REDIRECTS, t))
  else
    next_url <- curl_redirect_url (t_url t) location ;;
    match next_url with
    | None => log FreeResponse ;; r <- curl_memory_error p ;; ret (inr (r, t))
    | Some next =>
        if negb (curl_scheme_allowed next (h_redir_protocols h)) then
          free_if true ;;
          log FreeResponse ;;
          curl_set_error p CURLE_UNSUPPORTED_PROTOCOL (Some (str "redirect protocol is not allowed")) ;;
          ret (inr (CURLE_UNSUPPORTED_PROTOCOL, t))
        else
          let get := to_get status (h_postredir h) in
          let body := t_body t in
          free_if true ;;
          log FreeResponse ;;
          ret (inl (mkTransfer next (t_redirects t) (t_retries t) (if get then str "GET" else t_method t)
                      (if get then false else t_has_body t)
                      (if get then mkBuffer (b_data body) 0 (b_capacity body) else body) (t_response t)))
    end.
(** a response without an error *)
Definition handle_response (p : Z) (resp : response) (t : transfer) : CM (transfer + Z * transfer) :=
  handle_set p (set_h_response_code (r_status resp)) ;;
  failed <- curl_replace_string h_effective_url set_h_effective_url p (Some (t_url t)) ;;
  if failed : bool then log FreeResponse ;; r <- curl_memory_error p ;; ret (inr (r, t))
  else
    failed <- curl_process_response_headers p resp ;;
    if failed : bool then log FreeResponse ;; r <- curl_memory_error p ;; ret (inr (r, t))
    else
      h <- handle_get p ;;
      let status := i32 (h_response_code h) in
      match (if negb (h_followlocation h =? 0) && is_redirect status then r_location resp else None) with
      | Some location => follow_redirect p status location t
      | None =>
          if negb (h_failonerror h =? 0) && (400 <=? status) then
            curl_set_error p CURLE_HTTP_RETURNED_ERROR (Some (str "HTTP server returned an error")) ;;
            log FreeResponse ;;
            ret (retry_or_stop CURLE_HTTP_RETURNED_ERROR t)
          else
            r <- curl_deliver_body p resp (t_response t) ;;
            log FreeResponse ;;
            ret (retry_or_stop (fst r) (set_t_response (snd r) t))
      end.
Definition perform_step (p : Z) (url0 : list Z) (t : transfer) : CM (transfer + Z * transfer) :=
  sent <- send_request p url0 t ;;
  match sent with
  | inl result => ret (inr (result, t))
  | inr resp =>
      if r_error resp then
        result <- curl_map_response_error p resp ;;
        log FreeResponse ;;
        ret (retry_or_stop result t)
      else handle_response p resp t
  end.
Definition choose_method (h : CURL) : list Z :=
  match h_custom_request h with
  | Some m => m
  | None => if negb (h_upload h =? 0) then str "PUT" else if negb (h_post h =? 0) then str "POST"
            else if negb (h_nobody h =? 0) then str "HEAD" else str "GET"
  end.
(** every turn but the last follows a redirect, at most [maxredirs] of them,
    or is the one retry *)
Definition perform_fuel (maxredirs : Z) : nat := Z.to_nat maxredirs + 3.
Definition curl_perform (p : Z) : CM Z :=
  h <- handle_get p ;;
  match h_url h with
  | None => ret CURLE_URL_MALFORMAT
  | Some url =>
      match refusal h url with
      | Some (code, message) => curl_set_error p code (Some message) ;; ret code
      | None =>
          r <- curl_collect_request_body p empty_buffer ;;
          let body := snd r in
          if negb (fst r =? CURLE_OK) then free_buffer body ;; ret (fst r)
          else
            copy <- curl_strdup (Some url) ;;
            match copy with
            | None => free_buffer body ;; curl_memory_error p
            | Some current_url =>
                let has_body := negb (h_post_fields h =? 0) || negb (h_read_callback h =? 0) in
                r <- iter (perform_fuel (h_maxredirs h)) (perform_step p url)
                       (mkTransfer current_url 0 0 (choose_method h) has_body body empty_buffer) ;;
                free_buffer (t_response (snd r)) ;;
                free_if true ;;
                free_buffer (t_body (snd r)) ;;
                ret (fst r)
            end
      end
  end.
Definition curl_easy_perform (p : Z) : CM Z :=
  if p =? 0 then ret CURLE_FAILED_INIT
  else
    curl_clear_transfer_results p ;;
    result <- curl_perform p ;;
    handle_set p (set_h_result result) ;;
    handle_set p (set_h_completed 1) ;;
    ret result.

(** ** curl_easy_getinfo(): the code and the value that is stored *)
Inductive info_value := InfoLong (v : Z) | InfoString (v : option (list Z)).
Definition curl_easy_getinfo (p info : Z) : CM (Z * option info_value) :=
  if p =? 0 then ret (CURLE_FAILED_INIT, None)
  else
    h <- handle_get p ;;
    ret (if info =? CURLINFO_RESPONSE_CODE then (CURLE_OK, Some (InfoLong (h_response_code h)))
         else if info =? CURLINFO_HTTPAUTH_AVAIL then (CURLE_OK, Some (InfoLong (h_auth_avail h)))
         else if info =? CURLINFO_HTTP_CONNECTCODE then (CURLE_OK, Some (InfoLong (h_connect_code h)))
         else if info =? CURLINFO_CONTENT_TYPE then (CURLE_OK, Some (InfoString (h_content_type h)))
         else if info =? CURLINFO_EFFECTIVE_URL then
           (CURLE_OK, Some (InfoString (match h_effective_url h with Some u => Some u | None => h_url h end)))
         else (CURLE_NOT_BUILT_IN, None)).
