(* ===== verification/CurlMulti.v ===== *)
(** * curl shim: the multi interface and curl_slist (curl_compat.c)

    The handles of a multi handle are linked through [h_next], its messages
    through [node_next], a header list through the second component of its
    entry.  A walk along such a list is bounded by the number of structures in
    the store, plus one: a longer walk has met a structure twice. *)
From S2P Require Import CurlState CurlUrl CurlEasy CurlPerform Prelude.

Definition curl_multi_init : CM Z :=
  ok <- malloc ;;
  if negb ok then ret 0
  else
    m <- new_address ;;
    modify (fun s => set_multis (<[m := mkMulti 0 0 0]> (multis s)) s) ;;
    ret m.
Definition free_node (n : Z) : CM unit := free_if true ;; modify (fun s => set_nodes (delete n (nodes s)) s).
(** frees the messages from [n] on *)
Definition free_messages_step (n : Z) : CM (Z + unit) :=
  if n =? 0 then ret (inr tt) else node <- node_get n ;; free_node n ;; ret (inl (node_next node)).
Definition curl_multi_cleanup (m : Z) : CM Z :=
  if m =? 0 then ret CURLM_BAD_HANDLE
  else
    multi <- multi_get m ;;
    s <- get ;;
    iter (S (size (nodes s))) free_messages_step (m_head multi) ;;
    free_if true ;;
    modify (fun s => set_multis (delete m (multis s)) s) ;;
    ret CURLM_OK.

Definition curl_multi_add_handle (m p : Z) : CM Z :=
  if (m =? 0) || (p =? 0) then ret CURLM_BAD_EASY_HANDLE
  else
    h <- handle_get p ;;
    if negb (h_added h =? 0) then ret CURLM_OK
    else
      handle_set p (fun h => set_h_completed 0 (set_h_added 1 h)) ;;
      multi <- multi_get m ;;
      handle_set p (set_h_next (m_handles multi)) ;;
      multi_set m (mkMulti p (m_head multi) (m_tail multi)) ;;
      ret CURLM_OK.

(** [link]: None is &multi->handles, Some q is &q->next *)
Definition link_get (m : Z) (link : option Z) : CM Z :=
  match link with
  | None => multi <- multi_get m ;; ret (m_handles multi)
  | Some q => h <- handle_get q ;; ret (h_next h)
  end.
Definition link_set (m : Z) (link : option Z) (v : Z) : CM unit :=
  match link with
  | None => multi <- multi_get m ;; multi_set m (mkMulti v (m_head multi) (m_tail multi))
  | Some q => handle_set q (set_h_next v)
  end.
Definition find_link_step (m p : Z) (link : option Z) : CM (option Z + option Z) :=
  v <- link_get m link ;;
  if (v =? 0) || (v =? p) then ret (inr link) else ret (inl (Some v)).
Definition curl_multi_remove_handle (m p : Z) : CM Z :=
  if (m =? 0) || (p =? 0) then ret CURLM_BAD_EASY_HANDLE
  else
    s <- get ;;
    link <- iter (S (size (handles s))) (find_link_step m p) None ;;
    found <- link_get m link ;;
    h <- handle_get p ;;
    when (negb (found =? 0)) (link_set m link (h_next h)) ;;
    handle_set p (fun h => set_h_added 0 (set_h_next 0 h)) ;;
    ret CURLM_OK.

Definition curl_queue_done (m p : Z) : CM Z :=
  ok <- malloc ;;
  if negb ok then ret CURLM_OUT_OF_MEMORY
  else
    n <- new_address ;;
    h <- handle_get p ;;
    modify (fun s => set_nodes (<[n := mkNode (mkMsg p (h_result h)) 0]> (nodes s)) s) ;;
    multi <- multi_get m ;;
    (if negb (m_tail multi =? 0) then
       tail <- node_get (m_tail multi) ;;
       modify (fun s => set_nodes (<[m_tail multi := mkNode (node_message tail) n]> (nodes s)) s) ;;
       multi_set m (mkMulti (m_handles multi) (m_head multi) n)
     else multi_set m (mkMulti (m_handles multi) n n)) ;;
    ret CURLM_OK.

(** the first loop of curl_multi_perform(): the code it returns, if it does *)
Definition perform_handle_step (m p : Z) : CM (Z + option Z) :=
  if p =? 0 then ret (inr None)
  else
    h <- handle_get p ;;
    if negb (h_completed h =? 0) then ret (inl (h_next h))
    else
      curl_easy_perform p ;;
      result <- curl_queue_done m p ;;
      if negb (result =? CURLM_OK) then ret (inr (Some result))
      else h <- handle_get p ;; ret (inl (h_next h)).
(** the second one counts *)
Definition count_running_step (pr : Z * Z) : CM (Z * Z + Z) :=
  let (p, running) := pr in
  if p =? 0 then ret (inr running)
  else
    h <- handle_get p ;;
    ret (inl (h_next h, if h_completed h =? 0 then running + 1 else running)).
(** the code and what is stored in running_handles *)
Definition curl_multi_perform (m : Z) : CM (Z * option Z) :=
  if m =? 0 then ret (CURLM_BAD_HANDLE, None)
  else
    multi <- multi_get m ;;
    s <- get ;;
    r <- iter (S (size (handles s))) (perform_handle_step m) (m_handles multi) ;;
    match r with
    | Some code => ret (code, None)
    | None =>
        multi <- multi_get m ;;
        running <- iter (S (size (handles s))) count_running_step (m_handles multi, 0) ;;
        ret (CURLM_OK, Some running)
    end.

Definition count_messages_step (nc : Z * Z) : CM (Z * Z + Z) :=
  let (n, count) := nc in
  if n =? 0 then ret (inr count) else node <- node_get n ;; ret (inl (node_next node, count + 1)).
(** the message, and what is stored in messages_in_queue; for NULL nothing is *)
Definition curl_multi_info_read (m : Z) : CM (option CURLMsg * option Z) :=
  if m =? 0 then ret (None, None)
  else
    multi <- multi_get m ;;
    let n := m_head multi in
    (if negb (n =? 0) then
       node <- node_get n ;;
       multi_set m (mkMulti (m_handles multi) (node_next node) (if node_next node =? 0 then 0 else m_tail multi))
     else ret tt) ;;
    multi <- multi_get m ;;
    s <- get ;;
    count <- iter (S (size (nodes s))) count_messages_step (m_head multi, 0) ;;
    if n =? 0 then ret (None, Some count)
    else node <- node_get n ;; free_node n ;; ret (Some (node_message node), Some count).
Definition curl_multi_timeout (m : Z) : Z * option Z :=
  if m =? 0 then (CURLM_BAD_HANDLE, None) else (CURLM_OK, Some 0).
(** the code and max_fd *)
Definition curl_multi_fdset : Z * Z := (CURLM_OK, -1).
Definition curl_multi_strerror (code : Z) : list Z :=
  if code =? CURLM_OK then str "no error" else str "curl multi interface error".

(** ** curl_slist *)
Definition slist_get (p : Z) : CM (list Z * Z) := s <- get ;; lift NullDeref (slists s !! p).
Definition slist_tail_step (p : Z) : CM (Z + Z) :=
  n <- slist_get p ;; if snd n =? 0 then ret (inr p) else ret (inl (snd n)).
Definition curl_slist_append (l : Z) (data : option (list Z)) : CM Z :=
  ok <- malloc ;;
  if negb ok then ret 0
  else
    copy <- curl_strdup data ;;
    match copy with
    | None => free_if true ;; ret 0
    | Some d =>
        node <- new_address ;;
        modify (fun s => set_slists (<[node := (d, 0)]> (slists s)) s) ;;
        if l =? 0 then ret node
        else
          s <- get ;;
          tail <- iter (S (size (slists s))) slist_tail_step l ;;
          n <- slist_get tail ;;
          modify (fun s => set_slists (<[tail := (fst n, node)]> (slists s)) s) ;;
          ret l
    end.
Definition free_slist_step (p : Z) : CM (Z + unit) :=
  if p =? 0 then ret (inr tt)
  else
    n <- slist_get p ;;
    free_if true ;;
    free_if true ;;
    modify (fun s => set_slists (delete p (slists s)) s) ;;
    ret (inl (snd n)).
Definition curl_slist_free_all (l : Z) : CM unit :=
  s <- get ;; iter (S (size (slists s))) free_slist_step l.
