(* ===== verification/CurlFrame.v ===== *)
(** * curl shim: linked lists in a store

    [path next p l]: the addresses that the links [next] visit from [p] up to
    NULL are [l].  A path is determined by where it starts, meets no address
    twice, and so is not longer than the store is large, which is what the
    bounds of the walks of CurlMulti and [slist_data] rest on. *)
From S2P Require Import CurlState CurlUrl CurlEasy CurlPerform CurlMulti Prelude.

Section path.
Context (next : Z -> option Z).
Fixpoint path (p : Z) (l : list Z) : Prop :=
  match l with
  | [] => p = 0
  | a :: l => p = a /\ a <> 0 /\ exists n, next a = Some n /\ path n l
  end.

Lemma path_det p l1 l2 : path p l1 -> path p l2 -> l1 = l2.
Proof.
  revert p l2. induction l1 as [|a l1 IH]; intros p [|b l2]; simpl; try done.
  - intros -> (<- & Hb & _). done.
  - intros (-> & Ha & _) ->. done.
  - intros (-> & _ & n & Hn & H1) (<- & _ & n' & Hn' & H2). f_equal. simplify_eq. eauto.
Qed.
Lemma path_suffix p l1 a l2 : path p (l1 ++ a :: l2) -> path a (a :: l2).
Proof.
  revert p. induction l1 as [|b l1 IH]; intros p; cbn [app].
  - intros (-> & H). by split.
  - intros (_ & _ & n & _ & H). eauto.
Qed.
Lemma path_NoDup p l : path p l -> NoDup l.
Proof.
  revert p. induction l as [|a l IH]; intros p; [constructor|].
  intros H. pose proof H as (-> & _ & n & Hn & Hl). constructor; [|eauto].
  intros (l1 & l2 & ->)%list_elem_of_split.
  pose proof (path_det _ _ _ H (path_suffix n l1 a l2 Hl)) as E.
  apply (f_equal length) in E. simpl in E. rewrite length_app in E. simpl in E. lia.
Qed.
Lemma path_nonzero p l : path p l -> Forall (fun a => a <> 0) l.
Proof. revert p. induction l as [|a l IH]; intros p; [constructor|]. intros (_ & Ha & n & _ & H). constructor; eauto. Qed.
Lemma path_defined p l : path p l -> Forall (fun a => is_Some (next a)) l.
Proof. revert p. induction l as [|a l IH]; intros p; [constructor|]. intros (_ & _ & n & Hn & H). constructor; eauto. Qed.
Lemma path_head p l : path p l -> p = hd 0 l.
Proof. destruct l; simpl; [done|]. by intros (-> & _). Qed.
End path.

(** a path only depends on the links of its addresses *)
Lemma path_ext next next' p l :
  Forall (fun a => next' a = next a) l -> path next p l -> path next' p l.
Proof.
  intros H. revert p. induction H as [|a l Ha _ IH]; intros p; [done|].
  intros (-> & Hz & n & Hn & Hl). split; [done|]. split; [done|]. exists n. rewrite Ha. eauto.
Qed.
(** a new address is put behind the last one *)
Lemma path_snoc next next' p l t a :
  path next p (l ++ [t]) -> a <> 0 -> next' t = Some a -> next' a = Some 0 ->
  Forall (fun b => next' b = next b) l -> path next' p (l ++ [t; a]).
Proof.
  intros H Ha Ht Hn Hl. revert p H. induction Hl as [|b l Hb _ IH]; intros p; cbn [app].
  - intros (-> & Hz & _). split; [done|]. split; [done|]. exists a. split; [done|].
    split; [done|]. split; [done|]. by exists 0.
  - intros (-> & Hz & n & Hbn & H). split; [done|]. split; [done|]. exists n. rewrite Hb. eauto.
Qed.

Section store.
Context {A : Type} (m : gmap Z A) (link : A -> Z).
Definition links (a : Z) : option Z := link <$> m !! a.
Lemma path_size p l : path links p l -> (length l <= size m)%nat.
Proof.
  intros H. pose proof (path_NoDup _ _ _ H) as Hd. pose proof (path_defined _ _ _ H) as Hs.
  rewrite <- (size_dom m).
  rewrite <- (size_list_to_set (C := gset Z) l) by done. apply subseteq_size.
  intros a Ha%elem_of_list_to_set. rewrite Forall_forall in Hs. specialize (Hs a (proj1 (list_elem_of_In _ _) Ha)).
  apply elem_of_dom. unfold links in Hs. destruct (m !! a); [done|]. by destruct Hs.
Qed.
End store.

(** ** curl shim: what a transfer may change

    [track p h0 s0 k tr s]: since [s0], where the handle [p] was [h0], only the
    results of [p] and the bytes of its error buffer have changed, the shim
    owns [k] blocks besides the strings of the handle, and the calls of the
    HTTP client and the bodies written so far are [tr].  The rules below carry it through the
    operations of CurlUrl and the small ones of CurlPerform. *)

(** the strings that a handle owns *)
Definition count_some (o : option (list Z)) : Z := if is_some o then 1 else 0.
Definition owned (h : CURL) : Z := fold_right (fun gs n => count_some (fst gs h) + n) 0 handle_strings.
(** a handle without the results of its transfers but the response code *)
Definition config (h : CURL) : CURL :=
  set_h_result 0 (set_h_completed 0 (set_h_auth_avail 0 (set_h_connect_code 0
    (set_h_content_type None (set_h_effective_url None h))))).
#[global] Arguments owned : simpl never.
#[global] Arguments config : simpl never.
#[global] Arguments count_some : simpl never.
(** the response code is known from when it is set *)
Definition with_code (v : Z) (h0 : CURL) : CURL := set_h_response_code v h0.
(** [same f Hc]: the field [f] of handles with the same configuration *)
Ltac same f Hc :=
  match type of Hc with
  | config ?h = config (with_code _ ?h0) => rewrite (f_equal f Hc : f h = f h0)
  | config ?h = config ?h0 => rewrite (f_equal f Hc : f h = f h0)
  end.
(** the calls that make, send and free requests and responses, and the bodies
    that are written *)
Definition visible (e : event) : bool :=
  match e with NewRequest _ | FreeRequest | Fetch _ | GotResponse _ | FreeResponse
  | WriteCallback _ | Stdout _ => true | _ => false end.

(** what tinyhttpsc and the read callback promise: a chunk fits the buffer it
    is read to, and so does what the callback stores, which is at least what it
    answers *)
Class sane_world (w : curl_world) : Prop := {
  sane_chunks hist q r : w_fetch w hist q = Some r ->
    Forall (fun c => match c with Some d => zlen d <= 16384 | None => True end) (r_chunks r);
  sane_read hist want : 0 < want -> zlen (snd (w_read w hist want)) <= want /\
    (fst (w_read w hist want) mod (SIZE_MAX + 1) <= want ->
     fst (w_read w hist want) mod (SIZE_MAX + 1) <= zlen (snd (w_read w hist want)))
}.

Section frame.
Context (p : Z) (h0 : CURL) (s0 : Curl).

Record track (k : Z) (tr : list event) (s : Curl) : Prop := {
  track_handle : exists h, handles s = <[p := h]> (handles s0) /\ config h = config h0 /\
    live s - owned h = live s0 - owned h0 + k;
  track_same : multis s = multis s0 /\ nodes s = nodes s0 /\ slists s = slists s0 /\ brk s = brk s0 /\ net s = net s0;
  track_mem : length <$> cmem s = length <$> cmem s0 /\
    forall q, q <> h_error_buffer h0 -> cmem s !! q = cmem s0 !! q;
  track_net : List.filter visible (history s) = List.filter visible (history s0) ++ tr
}.

(** what the caller has to provide: an error buffer of the size that libcurl
    asks for, a header list that ends, post data that is as long as its size
    says or else a string; a body from a callback of which the size is known *)
Record usable : Prop := {
  us_error : h_error_buffer h0 <> 0 -> exists b, cmem s0 !! h_error_buffer h0 = Some b /\ CURL_ERROR_SIZE <= zlen b;
  us_headers : exists l, path (links (slists s0) snd) (h_headers h0) l;
  us_post : h_post_fields h0 <> 0 -> h_post_fields h0 <> h_error_buffer h0 /\
    exists b, cmem s0 !! h_post_fields h0 = Some b /\
      if h_post_size h0 <? 0 then existsb (fun c => c =? 0) b = true else h_post_size h0 <= zlen b;
  us_body : h_post_fields h0 <> 0 \/ h_read_callback h0 = 0 \/ 0 <= h_infile_size h0
}.
Hypothesis Hus : usable.

Lemma track_refl : handles s0 !! p = Some h0 -> track 0 [] s0.
Proof.
  intros Hp. split; [|done|done|by rewrite app_nil_r].
  exists h0. rewrite insert_id by done. split; [done|]. split; [done|]. lia.
Qed.

Lemma track_eq k k' tr tr' s : track k tr s -> k = k' -> tr = tr' -> track k' tr' s.
Proof. by intros ? -> ->. Qed.
Lemma track_mem_get k tr s q b : track k tr s -> q <> h_error_buffer h0 -> cmem s0 !! q = Some b -> cmem s !! q = Some b.
Proof. intros [_ _ [_ H] _] Hq <-. by apply H. Qed.
Lemma track_world k tr s : track k tr s -> net s = net s0.
Proof. by intros [_ (_ & _ & _ & _ & H) _ _]. Qed.

(** ** Rules *)
Section rules.
Context (k : Z) (tr : list event) (s : Curl).
Hypothesis Ht : track k tr s.

Lemma wp_handle_get (Q : CURL -> Curl -> Prop) :
  (forall h, handles s !! p = Some h -> config h = config h0 -> Q h s) -> wp (handle_get p) Q s.
Proof.
  intros HQ. destruct Ht as [(h & E & Hc & _) _ _ _]. unfold handle_get. wp_go.
  assert (Hl : handles s !! p = Some h) by by rewrite E, lookup_insert_eq.
  eapply wpe_lift; [exact Hl|]. by apply HQ.
Qed.
Lemma wp_handle_set f (Q : unit -> Curl -> Prop) :
  (forall h, config (f h) = config h) -> (forall h, owned (f h) = owned h) ->
  (forall s', track k tr s' -> handles s' !! p = f <$> handles s !! p -> Q tt s') -> wp (handle_set p f) Q s.
Proof.
  intros Hf Ho HQ. unfold handle_set. apply wpe_bind, wp_handle_get. intros h Hh Hc.
  wp_go. apply HQ; [|by cbn; rewrite Hh, lookup_insert_eq].
  destruct Ht as [(h' & E & Hc' & Hl) Hs Hm Hn].
  assert (h' = h) as -> by (rewrite E, lookup_insert_eq in Hh; congruence).
  split; [|done|done|done]. exists (f h). cbn. rewrite E, insert_insert_eq, Hf, Ho. done.
Qed.
(** a call of malloc() that fails *)
Definition out_of_memory : Prop := exists n, w_malloc (net s0) n = false.
Lemma wp_malloc (Q : bool -> Curl -> Prop) :
  (forall (ok : bool) s', track (k + (if ok then 1 else 0)) tr s' -> (ok = false -> out_of_memory) -> Q ok s') ->
  wp malloc Q s.
Proof.
  intros HQ. pose proof (track_world _ _ _ Ht) as Hn. unfold malloc. wp_go; apply HQ; try done.
  3: intros _; exists (mallocs s); by rewrite <- Hn.
  all: destruct Ht as [(h & E & Hc & Hl) Hs Hm Hv]; split; [exists h; cbn; split_and!; try done; lia|done|done|done].
Qed.
Lemma wp_free_if (b : bool) (Q : unit -> Curl -> Prop) :
  (forall s', track (k - (if b then 1 else 0)) tr s' -> handles s' = handles s -> Q tt s') -> wp (free_if b) Q s.
Proof.
  intros HQ. unfold free_if. destruct b; cbn [when]; wp_go; apply HQ; try done.
  all: destruct Ht as [(h & E & Hc & Hl) Hs Hm Hn]; split; [exists h; cbn; split_and!; try done; lia|done|done|done].
Qed.
Lemma wp_log e (Q : unit -> Curl -> Prop) :
  (forall s', track k (tr ++ if visible e then [e] else []) s' -> handles s' = handles s -> Q tt s') -> wp (log e) Q s.
Proof.
  intros HQ. unfold log. wp_go. apply HQ; [|done].
  destruct Ht as [(h & E & Hc & Hl) Hs Hm Hn]. split; [by exists h|done|done|].
  cbn. rewrite List.filter_app, Hn, <- app_assoc. done.
Qed.
Lemma wp_mem_set bs (Q : unit -> Curl -> Prop) :
  h_error_buffer h0 <> 0 -> zlen bs <= CURL_ERROR_SIZE -> (forall s', track k tr s' -> Q tt s') ->
  wp (mem_set (h_error_buffer h0) bs) Q s.
Proof.
  intros Hz Hbs HQ. destruct (us_error Hus Hz) as (b0 & Hb0 & Hlen).
  destruct Ht as [Hh Hs [Hm Hq] Hn].
  assert (exists b, cmem s !! h_error_buffer h0 = Some b /\ length b = length b0) as (b & Hb & Eb).
  { apply (f_equal (fun m : gmap Z nat => m !! h_error_buffer h0)) in Hm. rewrite !lookup_fmap, Hb0 in Hm.
    destruct (cmem s !! h_error_buffer h0) as [b|]; [|done]. simplify_eq/=. eauto. }
  unfold mem_set, mem_get. wp_go. eapply wpe_lift; [exact Hb|].
  replace (zlen b <? zlen bs) with false by (unfold zlen in *; lia).
  wp_go. apply HQ. split; [done|done| |done]. cbn. split.
  - rewrite fmap_insert, length_splice, Eb, Hm by (unfold zlen in *; lia).
    apply insert_id. by rewrite lookup_fmap, Hb0.
  - intros q Hqe. rewrite lookup_insert_ne by done. by apply Hq.
Qed.
End rules.

(** the error buffer that a handle names is the one it started with *)
Lemma config_error_buffer h : config h = config h0 -> h_error_buffer h = h_error_buffer h0.
Proof. intros E. exact (f_equal h_error_buffer E). Qed.

Section derived.
Context (k : Z) (tr : list event) (s : Curl).
Hypothesis Ht : track k tr s.

Lemma wp_set_error code message (Q : unit -> Curl -> Prop) :
  (forall s', track k tr s' -> Q tt s') -> wp (curl_set_error p code message) Q s.
Proof.
  intros HQ. unfold curl_set_error. apply wpe_bind. eapply wp_handle_set; [exact Ht|done|done|].
  intros s1 H1 _. apply wpe_bind. eapply wp_handle_get; [exact H1|]. intros h _ Hc.
  destruct message as [m|]; [|wp_go; by apply HQ].
  rewrite (config_error_buffer h Hc). apply wpe_when; intros Hb; [|by apply HQ].
  eapply wp_mem_set; [exact H1|lia| |done]. unfold zlen. by rewrite length_resize.
Qed.
Lemma wp_memory_error (Q : Z -> Curl -> Prop) :
  (forall s', track k tr s' -> Q CURLE_OUT_OF_MEMORY s') -> wp (curl_memory_error p) Q s.
Proof. intros HQ. unfold curl_memory_error. apply wpe_bind, wp_set_error. intros s' H. wp_go. by apply HQ. Qed.
Lemma wp_debug type data (Q : unit -> Curl -> Prop) :
  (forall s', track k tr s' -> handles s' = handles s -> Q tt s') -> wp (curl_debug p type data) Q s.
Proof.
  intros HQ. unfold curl_debug. apply wpe_bind. eapply wp_handle_get; [exact Ht|]. intros h _ _.
  apply wpe_when; intros _; [|by apply HQ].
  eapply wp_log; [exact Ht|]. cbn [visible]. rewrite app_nil_r. done.
Qed.
Lemma wp_strdup v (Q : option (list Z) -> Curl -> Prop) :
  (forall r s', track (k + count_some r) tr s' -> r = v \/ r = None /\ out_of_memory -> Q r s') ->
  wp (curl_strdup v) Q s.
Proof.
  intros HQ. unfold curl_strdup. destruct v as [v|].
  - apply wpe_bind. eapply wp_malloc; [exact Ht|]. intros [] s' H Ho; wp_go; apply HQ; auto.
  - wp_go. apply HQ; [|by left]. by rewrite Z.add_0_r.
Qed.
Lemma wp_replace_string get set value (Q : bool -> Curl -> Prop) :
  (forall v h, config (set v h) = config h) ->
  (forall v h, owned (set v h) = owned h - count_some (get h) + count_some v) ->
  (forall (b : bool) s', track k tr s' -> (b = true -> out_of_memory) -> Q b s') -> wp (curl_replace_string get set p value) Q s.
Proof.
  intros Hc Ho HQ. unfold curl_replace_string. apply wpe_bind, wp_strdup. intros copy s1 H1 Hcopy.
  apply wpe_if; intros Hf.
  { wp_go. apply HQ; [by destruct copy, value; rewrite ?Z.add_0_r in H1|]. intros _. destruct Hcopy as [->|[_ Ho']]; [|done].
    by destruct value. }
  apply wpe_bind. eapply wp_handle_get; [exact H1|]. intros h Hh _.
  apply wpe_bind. eapply (wp_free_if _ _ _ H1). intros s2 H2 E2. unfold handle_set.
  do 2 apply wpe_bind. eapply wp_handle_get; [exact H2|]. intros h2 Hh2 _. wp_go. apply HQ; [|done].
  rewrite E2, Hh in Hh2. injection Hh2 as <-.
  destruct H2 as [(h' & E & C & L) Hs Hm Hn].
  assert (h' = h) as -> by (rewrite E2 in E; rewrite E, lookup_insert_eq in Hh; congruence).
  split; [|done|done|done]. exists (set copy h). cbn [handles set_handles live].
  rewrite E, insert_insert_eq, Hc, Ho. split_and!; [done|done|].
  assert (count_some copy = count_some value) by (by destruct Hcopy as [-> | [-> _]], value).
  unfold count_some at 1 in H1. unfold count_some in *. destruct (is_some (get h)); lia.
Qed.
End derived.
End frame.
Lemma usable_with_code h0 s0 v : usable h0 s0 -> usable (with_code v h0) s0.
Proof. by intros [H1 H2 H3 H4]. Qed.
Lemma wp_set_response_code p h0 s0 k tr s v (Q : unit -> Curl -> Prop) : track p h0 s0 k tr s ->
  (forall s', track p (with_code v h0) s0 k tr s' -> Q tt s') -> wp (handle_set p (set_h_response_code v)) Q s.
Proof.
  intros Ht HQ. unfold handle_set. apply wpe_bind. eapply wp_handle_get; [exact Ht|]. intros h Hh Hc. wp_go. apply HQ.
  destruct Ht as [(h' & E & Hc' & Hl) Hs Hm Hn].
  assert (h' = h) as -> by (rewrite E, lookup_insert_eq in Hh; congruence).
  split; [|done|done|done]. exists (set_h_response_code v h). cbn [handles set_handles live].
  rewrite E, insert_insert_eq. split_and!; [done| |exact Hl].
  change (config (set_h_response_code v h)) with (set_h_response_code v (config h)). by rewrite Hc.
Qed.
(** [tracked H]: the block count of [H], computed *)
Ltac tracked H := eapply track_eq; [exact H|unfold count_some; cbn [is_some]; lia|done].

(** free() of a block of the handle, and the change [f] of the handle that
    forgets it *)
Lemma wp_free_set p h0 h0' s0 k tr s h o f (K : unit -> CM unit) (Q : unit -> Curl -> Prop) :
  track p h0 s0 k tr s -> handles s !! p = Some h ->
  config (f h) = config h0' -> owned (f h) = owned h - count_some o -> owned h0' = owned h0 ->
  h_error_buffer h0' = h_error_buffer h0 ->
  (forall s', track p h0' s0 k tr s' -> handles s' !! p = Some (f h) -> wp (K tt) Q s') ->
  wp (free_str o ;; u <- handle_set p f ;; K u) Q s.
Proof.
  intros Ht Hh Hc Ho Ho' He HQ. apply wpe_bind. eapply wp_free_if; [exact Ht|]. intros s1 H1 E1.
  apply wpe_bind. unfold handle_set. apply wpe_bind. eapply wp_handle_get; [exact H1|]. intros h1 Hh1 _.
  assert (h1 = h) as -> by congruence. wp_go. apply HQ; [|by cbn; rewrite lookup_insert_eq].
  destruct H1 as [(h' & E & C & L) Hs Hm Hn].
  assert (h' = h) as -> by (rewrite E, lookup_insert_eq in Hh1; congruence).
  split; [|done|by rewrite He|done]. exists (f h). cbn [handles set_handles live].
  rewrite E, insert_insert_eq. split_and!; [done|done|]. rewrite Ho, Ho'. unfold count_some. lia.
Qed.
