(* ===== verification/CurlCodec.v ===== *)
(** * curl shim: the encodings, read back

    Reference decoders for base64 and percent encoding, and that they undo
    curl_basic_auth() and curl_easy_escape(). *)
From S2P Require Import CurlState CurlUrl CurlEasy CurlPerform CurlMulti CurlFrame Prelude.

Definition is_byte (c : Z) : Prop := 0 <= c < 256.

(** ** Base64 *)
Definition b64_value (c : Z) : Z :=
  if isupper c then c - 65 else if islower c then c - 71 else if isdigit c then c + 4
  else if c =? 43 then 62 else 63.
Fixpoint b64_decode (s : list Z) : list Z :=
  match s with
  | a :: b :: c :: d :: s =>
      let v := ((b64_value a * 64 + b64_value b) * 64 + b64_value c) * 64 + b64_value d in
      if c =? 61 then [v / 65536]
      else if d =? 61 then [v / 65536; v / 256 mod 256]
      else [v / 65536; v / 256 mod 256; v mod 256] ++ b64_decode s
  | _ => []
  end.

Lemma b64_char_ok v : b64_value (b64_char v) = v mod 64 /\ b64_char v <> 61.
Proof.
  unfold b64_char. change 63 with (Z.ones 6). rewrite Z.land_ones by lia. change (2 ^ 6) with 64.
  pose proof (Z.mod_pos_bound v 64 eq_refl) as Hv. revert Hv. generalize (v mod 64). intros n Hn.
  assert (H : forallb (fun n => (b64_value (nth0 (Z.to_nat n) b64_table) =? n) && negb (nth0 (Z.to_nat n) b64_table =? 61))
                (seqZ 0 64) = true) by by vm_compute.
  rewrite forallb_seqZ in H. specialize (H n ltac:(lia)). lia.
Qed.
(** the low bits are free: or is plus *)
Lemma lor_low x k y : 0 <= k -> 0 <= y < 2 ^ k -> Z.lor (x * 2 ^ k) y = x * 2 ^ k + y.
Proof.
  intros Hk Hy. pose proof (Z.add_lor_land (x * 2 ^ k) y) as E.
  replace (Z.land (x * 2 ^ k) y) with 0 in E; [lia|].
  rewrite <- (Z.mod_small y (2 ^ k)), <- Z.land_ones by lia.
  rewrite (Z.land_comm y), Z.land_assoc, Z.land_ones, Z.mod_mul by lia. done.
Qed.
Lemma b64_word a b c : is_byte a -> is_byte b -> is_byte c ->
  Z.lor (Z.lor (u32 (Z.shiftl a 16)) (u32 (Z.shiftl b 8))) c = a * 65536 + b * 256 + c.
Proof.
  unfold is_byte. intros Ha Hb Hc. rewrite !Z.shiftl_mul_pow2 by lia. rewrite !u32_small by lia.
  rewrite (lor_low a 16) by lia.
  replace (a * 2 ^ 16 + b * 2 ^ 8) with ((a * 256 + b) * 2 ^ 8) by lia. rewrite lor_low by lia. lia.
Qed.
(** a group read back: what is added behind it is read next *)
Lemma b64_group_decode n a b c s : is_byte a -> is_byte b -> is_byte c -> 1 <= n ->
  b64_decode (b64_group n a b c ++ s) =
    if n =? 1 then [a] else if n =? 2 then [a; b] else [a; b; c] ++ b64_decode s.
Proof.
  intros Ha Hb Hc Hn. unfold b64_group. rewrite b64_word by done. rewrite !Z.shiftr_div_pow2 by lia.
  unfold is_byte in *. remember (a * 65536 + b * 256 + c) as w eqn:Ew.
  destruct (b64_char_ok (w / 2 ^ 18)) as [V1 _], (b64_char_ok (w / 2 ^ 12)) as [V2 _],
    (b64_char_ok (w / 2 ^ 6)) as [V3 N3], (b64_char_ok w) as [V4 N4].
  assert (E : w = ((w / 2 ^ 18 mod 64 * 64 + w / 2 ^ 12 mod 64) * 64 + w / 2 ^ 6 mod 64) * 64 + w mod 64)
    by (Z.to_euclidean_division_equations; lia).
  destruct (Z.eq_dec n 1) as [->|]; [|destruct (Z.eq_dec n 2) as [->|]].
  - cbn -[Z.mul Z.add Z.div]. rewrite V1, V2. change (b64_value 61) with 63. f_equal.
    Z.to_euclidean_division_equations. lia.
  - cbn -[Z.mul Z.add Z.div Z.modulo]. rewrite (proj2 (Z.eqb_neq _ _) N3), V1, V2, V3. change (b64_value 61) with 63.
    f_equal; [|f_equal]; Z.to_euclidean_division_equations; lia.
  - replace (1 <? n) with true by lia. replace (2 <? n) with true by lia.
    replace (n =? 1) with false by lia. replace (n =? 2) with false by lia.
    cbn -[Z.mul Z.add Z.div Z.modulo]. rewrite (proj2 (Z.eqb_neq _ _) N3), (proj2 (Z.eqb_neq _ _) N4), V1, V2, V3, V4, <- E.
    f_equal; [|f_equal; [|f_equal]]; Z.to_euclidean_division_equations; lia.
Qed.
(** bytes, three at a time *)
Lemma bytes_ind3 (P : list Z -> Prop) : P [] -> (forall a, P [a]) -> (forall a b, P [a; b]) ->
  (forall a b c s, P s -> P (a :: b :: c :: s)) -> forall s, P s.
Proof.
  intros H0 H1 H2 H3. fix IH 1. intros [|a [|b [|c s]]]; [done|done|done|]. apply H3, IH.
Qed.
Lemma b64_roundtrip s : Forall is_byte s -> b64_decode (b64_encode s) = s.
Proof.
  induction s as [|a|a b|a b c s IH] using bytes_ind3; intros H; [done|..]; rewrite ?Forall_cons_iff in H; cbn [b64_encode].
  - rewrite <- (app_nil_r (b64_group _ _ _ _)), b64_group_decode by (try (unfold is_byte; lia); tauto). done.
  - rewrite <- (app_nil_r (b64_group _ _ _ _)), b64_group_decode by (try (unfold is_byte; lia); tauto). done.
  - assert (0 <= zlen s) by (unfold zlen; lia). rewrite b64_group_decode by (try lia; tauto).
    replace (zlen s + 3 =? 1) with false by lia. replace (zlen s + 3 =? 2) with false by lia.
    rewrite IH by tauto. done.
Qed.
Lemma b64_length s : zlen (b64_encode s) = (zlen s + 2) / 3 * 4.
Proof.
  induction s as [|a|a b|a b c s IH] using bytes_ind3; [done|done|done|].
  cbn [b64_encode]. unfold zlen in *. rewrite length_app. cbn [length b64_group].
  Z.to_euclidean_division_equations. lia.
Qed.

(** ** Percent encoding *)
Definition hex_value (c : Z) : Z := if isdigit c then c - 48 else c - 55.
Fixpoint percent_decode (s : list Z) : list Z :=
  match s with
  | [] => []
  | c :: s' =>
      if c =? 37 then match s' with a :: b :: s'' => hex_value a * 16 + hex_value b :: percent_decode s'' | _ => [c] end
      else c :: percent_decode s'
  end.
Lemma escape_char_ok c s : is_byte c ->
  (percent_decode (escape_char c ++ s) = c :: percent_decode s) /\ (length (escape_char c) <= 3)%nat /\
  Forall (fun d => unreserved d = true \/ d = 37) (escape_char c).
Proof.
  intros Hc. unfold escape_char. destruct (unreserved c) eqn:E.
  - split_and!; [|simpl; lia|by constructor; [left|constructor]]. cbn [app percent_decode].
    destruct (Z.eqb_spec c 37) as [->|]; [done|]. done.
  - assert (H : forallb (fun c => (hex_value (hex_digit (Z.shiftr c 4)) * 16 + hex_value (hex_digit (Z.land c 15)) =? c) &&
                 unreserved (hex_digit (Z.shiftr c 4)) && unreserved (hex_digit (Z.land c 15))) (seqZ 0 256) = true) by by vm_compute.
    rewrite forallb_seqZ in H. specialize (H c Hc). rewrite !andb_true_iff in H. destruct H as [[H1 H2] H3].
    split_and!; [|simpl; lia|].
    + cbn [app percent_decode]. rewrite Z.eqb_refl. f_equal. lia.
    + constructor; [by right|]. constructor; [by left|]. constructor; [by left|constructor].
Qed.
Lemma escape_roundtrip s : Forall is_byte s ->
  percent_decode (concat (map escape_char s)) = s /\ zlen (concat (map escape_char s)) <= 3 * zlen s /\
  Forall (fun d => unreserved d = true \/ d = 37) (concat (map escape_char s)).
Proof.
  induction 1 as [|c s Hc _ (IH1 & IH2 & IH3)]; [done|].
  destruct (escape_char_ok c (concat (map escape_char s)) Hc) as (H1 & H2 & H3).
  cbn [map concat]. split_and!; [by rewrite H1, IH1| |by apply Forall_app_2].
  unfold zlen in *. rewrite length_app. simpl. lia.
Qed.

(** ** curl shim: origins and header names

    [origin url] is the scheme and the authority of an http or https URL, in
    lower case: what credentials belong to.  curl_same_origin() decides
    whether two URLs that may be fetched have the same one. *)

Definition not_slash (c : Z) : bool := negb (c =? 47).
Definition origin (url : list Z) : list Z :=
  let k := if prefixcaseb https url then 8%nat else 7%nat in
  map tolower (take k url ++ take_while not_slash (drop k url)).
(** the scheme of a URL, in any case, and what a mask of CURLPROTO_* bits
    permits: bit 0 is HTTP, bit 1 is HTTPS *)
Definition has_scheme (scheme url : list Z) : Prop := map tolower (take (length scheme) url) = scheme.
Definition permitted (mask : Z) (url : list Z) : Prop :=
  has_scheme (str "http://") url /\ Z.testbit mask 0 = true \/
  has_scheme (str "https://") url /\ Z.testbit mask 1 = true.
(** a header line: the name is what is before the colon, the value what is
    behind it and the blanks; a line without one of them is not sent *)
Abbreviation header := (list Z * list Z)%type.
Definition not_colon (c : Z) : bool := negb (c =? 58).
Definition line_blank (c : Z) : bool := (c =? 32) || (c =? 9).
Definition line_name (line : list Z) : option (list Z) :=
  match skip_while not_colon line with [] => None | _ => Some (take_while not_colon line) end.
Definition line_value (line : list Z) : list Z := skip_while line_blank (drop 1 (skip_while not_colon line)).
Definition line_header (line : list Z) : option header :=
  match line_name line, line_value line with
  | Some name, (_ :: _) as value => Some (name, value)
  | _, _ => None
  end.
(** some line has this name, however it is spelled *)
Definition has_line (lines : list (list Z)) (name : list Z) : bool :=
  existsb (fun line => match line_name line with Some n => caseeq n name | None => false end) lines.
(** the headers that carry credentials *)
Definition credential (name : list Z) : bool :=
  caseeq name (str "Authorization") || caseeq name (str "Cookie").

(** ** Comparing without case *)
Lemma ncaseeq_spec n a b : ncaseeq n a b = true -> map tolower (take n a) = map tolower (take n b).
Proof.
  revert a b. induction n as [|n IH]; intros [|x a] [|y b]; simpl; try done.
  rewrite andb_true_iff. intros [Hx Hn]. f_equal; [lia|by apply IH].
Qed.
Lemma ncaseeq_complete n a b : map tolower (take n a) = map tolower (take n b) -> ncaseeq n a b = true.
Proof.
  revert a b. induction n as [|n IH]; intros [|x a] [|y b]; simpl; try done.
  intros [= Hx Hn]. rewrite andb_true_iff. split; [lia|by apply IH].
Qed.
Lemma caseeq_spec a b : caseeq a b = true -> map tolower a = map tolower b.
Proof.
  revert b. induction a as [|x a IH]; intros [|y b]; simpl; try done.
  rewrite andb_true_iff. intros [Hx Hn]. f_equal; [lia|by apply IH].
Qed.
Lemma prefixcase_step x a u : prefixcaseb (x :: a) u = true ->
  exists y u', u = y :: u' /\ tolower y = tolower x /\ prefixcaseb a u' = true.
Proof.
  destruct u as [|y u]; simpl; [done|]. rewrite andb_true_iff. intros [Hx Hp]. exists y, u. split; [done|]. split; [lia|done].
Qed.
(** a letter is no colon; a colon or a slash has one case *)
Lemma tolower_letter x c : tolower x = c -> 97 <= c <= 122 -> x <> 58.
Proof. unfold tolower, isupper. intros H Hc. destruct ((65 <=? x) && (x <=? 90)) eqn:E; lia. Qed.
Lemma tolower_sign x c : tolower x = c -> 46 < c < 65 -> x = c.
Proof. unfold tolower, isupper. intros H Hc. destruct ((65 <=? x) && (x <=? 90)) eqn:E; lia. Qed.

(** ** The parts of a URL *)
Lemma strstr_skip x u : x <> 58 -> strstr (x :: u) sep = strstr u sep.
Proof.
  intros H. cbn [strstr]. change (prefixb sep (x :: u)) with ((58 =? x) && prefixb [47; 47] u).
  by rewrite (proj2 (Z.eqb_neq 58 x)) by congruence.
Qed.
Ltac prefix_letters H :=
  repeat (let y := fresh "y" in let u := fresh "u" in let E := fresh "E" in
    apply prefixcase_step in H as (y & u & -> & E & H)).
Lemma scheme_split url protocols : curl_scheme_allowed url protocols = true ->
  let n := if prefixcaseb https url then 5%nat else 4%nat in
  strstr url sep = Some (drop n url) /\ take 3 (drop n url) = sep /\ (n + 3 <= length url)%nat.
Proof.
  unfold curl_scheme_allowed. destruct (prefixcaseb https url) eqn:H1; [|destruct (prefixcaseb http url) eqn:H2; [|done]].
  all: intros _.
  - change https with [104; 116; 116; 112; 115; 58; 47; 47] in H1. prefix_letters H1.
    rewrite !strstr_skip by (eapply tolower_letter; [eassumption|by vm_compute]).
    apply tolower_sign in E4, E5, E6; [|by vm_compute..]. cbn in E4, E5, E6. subst. split_and!; [done|done|simpl; lia].
  - change http with [104; 116; 116; 112; 58; 47; 47] in H2. clear H1. prefix_letters H2.
    rewrite !strstr_skip by (eapply tolower_letter; [eassumption|by vm_compute]).
    apply tolower_sign in E3, E4, E5; [|by vm_compute..]. cbn in E3, E4, E5. subst. split_and!; [done|done|simpl; lia].
Qed.
Lemma host_len_spec h : take (host_len h) h = take_while not_slash h /\ (host_len h <= length h)%nat.
Proof.
  unfold host_len. induction h as [|c h [IH1 IH2]]; [done|]. cbn [strchr take_while]. unfold not_slash at 1.
  destruct (Z.eqb_spec c 47) as [->|Hc]; cbn [negb].
  { rewrite Nat.sub_diag. split; [done|lia]. }
  assert (match strchr h 47 with Some e => length (c :: h) - length e | None => length (c :: h) end =
    S (match strchr h 47 with Some e => length h - length e | None => length h end))%nat as ->.
  { destruct (strchr h 47) as [e|] eqn:E; [|done].
    assert (length e <= length h)%nat; [|simpl; lia].
    clear IH1 IH2. revert e E. induction h as [|d h IH]; intros e; cbn; [done|].
    destruct (d =? 47); [intros [= <-]; simpl; lia|]. intros E. specialize (IH e E). lia. }
  cbn [take]. by rewrite IH1; split; [|simpl; lia].
Qed.
Lemma same_origin_spec a b pa pb : curl_scheme_allowed a pa = true -> curl_scheme_allowed b pb = true ->
  curl_same_origin a b = true -> origin a = origin b.
Proof.
  intros Ha Hb. apply scheme_split in Ha as (Ea & Sa & La), Hb as (Eb & Sb & Lb).
  unfold curl_same_origin, origin. rewrite Ea, Eb.
  replace (if prefixcaseb https a then 8%nat else 7%nat) with ((if prefixcaseb https a then 5 else 4) + 3)%nat
    by by destruct (prefixcaseb https a).
  replace (if prefixcaseb https b then 8%nat else 7%nat) with ((if prefixcaseb https b then 5 else 4) + 3)%nat
    by by destruct (prefixcaseb https b).
  revert Sa La Sb Lb. generalize (if prefixcaseb https a then 5%nat else 4%nat), (if prefixcaseb https b then 5%nat else 4%nat).
  intros n m Sa La Sb Lb. rewrite !andb_true_iff, !length_drop. intros [[[Hn Hl] Hs] Hh].
  apply Nat.eqb_eq in Hn, Hl. assert (m = n) as -> by lia.
  replace (length a - (length a - n))%nat with n in Hs by lia.
  apply ncaseeq_spec in Hs, Hh. rewrite Hl in Hh at 2.
  rewrite !drop_drop in *. rewrite (proj1 (host_len_spec _)), (proj1 (host_len_spec _)) in Hh.
  rewrite <- !take_take_drop, Sa, Sb, !map_app, Hs, Hh. done.
Qed.

Lemma has_scheme_spec scheme url : map tolower scheme = scheme -> prefixcaseb scheme url = true <-> has_scheme scheme url.
Proof.
  unfold has_scheme. revert url. induction scheme as [|x a IH]; intros url; [done|]. cbn [map length]. intros [= Hx Ha].
  destruct url as [|y u]; cbn [prefixcaseb take map]; [done|]. rewrite andb_true_iff, Z.eqb_eq, IH by done. rewrite Hx.
  split; [intros [-> ->]; done|intros [= -> ->]; done].
Qed.
Lemma testbit_land mask n : 0 <= n -> negb (Z.land mask (2 ^ n) =? 0) = Z.testbit mask n.
Proof.
  intros Hn. destruct (Z.testbit mask n) eqn:E.
  - apply negb_true_iff, Z.eqb_neq. intros H. apply (f_equal (fun z => Z.testbit z n)) in H.
    by rewrite Z.land_spec, E, Z.pow2_bits_true, Z.bits_0 in H by done.
  - apply negb_false_iff, Z.eqb_eq, Z.bits_inj. intros k. rewrite Z.land_spec, Z.bits_0.
    destruct (Z.eq_dec n k) as [<-|Hk]; [by rewrite E|]. by rewrite Z.pow2_bits_false, andb_false_r.
Qed.
(** a URL has one scheme *)
Lemma one_scheme url : has_scheme (str "http://") url -> has_scheme (str "https://") url -> False.
Proof.
  unfold has_scheme. intros H1 H2. apply (f_equal (fun l => nth 4 l 0)) in H1, H2. revert H1 H2.
  destruct url as [|a [|b [|c [|d [|e url]]]]]; cbn; intros; lia.
Qed.
Lemma scheme_permitted url mask : curl_scheme_allowed url mask = true <-> permitted mask url.
Proof.
  unfold curl_scheme_allowed, permitted.
  change CURLPROTO_HTTPS with (2 ^ 1). change CURLPROTO_HTTP with (2 ^ 0). rewrite !testbit_land by done.
  pose proof (has_scheme_spec https url eq_refl) as Hs. pose proof (has_scheme_spec http url eq_refl) as Hh.
  pose proof (one_scheme url) as Hone. change https with (str "https://") in *. change http with (str "http://") in *.
  destruct (prefixcaseb (str "https://") url), (prefixcaseb (str "http://") url); intuition discriminate.
Qed.

(** equal origins are found equal *)
Lemma origin_scheme a b pa pb : curl_scheme_allowed a pa = true -> curl_scheme_allowed b pb = true ->
  origin a = origin b -> prefixcaseb https a = prefixcaseb https b.
Proof.
  intros Ha%scheme_permitted Hb%scheme_permitted E.
  assert (H : forall u p, permitted p u -> nth 4 (origin u) 0 = if prefixcaseb https u then 115 else 58).
  { intros u p Hp. unfold origin. destruct (prefixcaseb https u) eqn:Es.
    - apply (has_scheme_spec https u eq_refl) in Es. unfold has_scheme in Es. rewrite map_app.
      change (length https) with 8%nat in Es. by rewrite Es.
    - destruct Hp as [[Hs _]|[Hs _]]; [|apply (has_scheme_spec https u eq_refl) in Hs; congruence].
      unfold has_scheme in Hs. rewrite map_app. change (length (str "http://")) with 7%nat in Hs. by rewrite Hs. }
  pose proof (H a _ Ha) as H1. rewrite E, (H b _ Hb) in H1. by destruct (prefixcaseb https a), (prefixcaseb https b).
Qed.
Lemma same_origin_complete a b pa pb : curl_scheme_allowed a pa = true -> curl_scheme_allowed b pb = true ->
  origin a = origin b -> curl_same_origin a b = true.
Proof.
  intros Ha Hb Ho. pose proof (origin_scheme a b pa pb Ha Hb Ho) as Es.
  apply scheme_split in Ha as (Ea & Sa & La), Hb as (Eb & Sb & Lb).
  unfold curl_same_origin. rewrite Ea, Eb. unfold origin in Ho. rewrite Es in *.
  replace (if prefixcaseb https b then 8%nat else 7%nat) with ((if prefixcaseb https b then 5 else 4) + 3)%nat in Ho
    by by destruct (prefixcaseb https b).
  revert Sa La Sb Lb Ho. generalize (if prefixcaseb https b then 5%nat else 4%nat). intros n Sa La Sb Lb Ho.
  rewrite !map_app in Ho. assert (length (take (n + 3) a) = length (take (n + 3) b)) as El by (rewrite !length_take; lia).
  apply app_inj_1 in Ho as [Hs Hh]; [|by rewrite !length_map].
  rewrite <- !take_take_drop, Sa, Sb, !map_app in Hs. apply app_inv_tail in Hs.
  rewrite !length_drop, !drop_drop. replace (length a - (length a - n))%nat with n by lia.
  replace (length b - (length b - n))%nat with n by lia.
  destruct (host_len_spec (drop (n + 3) a)) as [T1 L1], (host_len_spec (drop (n + 3) b)) as [T2 L2].
  assert (host_len (drop (n + 3) a) = host_len (drop (n + 3) b)) as Hl.
  { apply (f_equal length) in Hh. rewrite !length_map, <- T1, <- T2, !length_take in Hh. lia. }
  rewrite Nat.eqb_refl, Hl, Nat.eqb_refl, !andb_true_l, andb_true_iff. split; apply ncaseeq_complete; [done|].
  rewrite <- Hl at 1. by rewrite T1, T2.
Qed.
(** same_origin is equality of origins *)
Lemma same_origin_iff a b pa pb : curl_scheme_allowed a pa = true -> curl_scheme_allowed b pb = true ->
  curl_same_origin a b = bool_decide (origin a = origin b).
Proof.
  intros Ha Hb. destruct (curl_same_origin a b) eqn:E; symmetry.
  - apply bool_decide_eq_true. by eapply same_origin_spec.
  - apply bool_decide_eq_false. intros Ho. rewrite (same_origin_complete a b pa pb) in E by done. done.
Qed.

(** ** The names of headers *)
Lemma strchr_split s c e : strchr s c = Some e ->
  exists k, k = before s e /\ s = take k s ++ e /\ k = length (take k s) /\ nth0 k s = c.
Proof.
  unfold before. revert e. induction s as [|x s IH]; intros e; cbn [strchr]; [done|].
  destruct (Z.eqb_spec x c) as [->|Hx].
  - intros [= <-]. exists 0%nat. rewrite Nat.sub_diag. done.
  - intros H. destruct (IH e H) as (k & -> & E & L & N). exists (S (length s - length e)).
    assert (length e <= length s)%nat by (rewrite E, length_app; lia).
    split_and!; [simpl; lia|simpl; congruence|simpl; congruence|done].
Qed.
Lemma colon_split line : match strchr line 58 with
  | Some colon => skip_while not_colon line = colon /\ exists v, colon = 58 :: v /\ line_value line = skip_while line_blank v /\
      take (before line colon) line = take_while not_colon line /\ line_name line = Some (take_while not_colon line)
  | None => skip_while not_colon line = [] /\ line_name line = None
  end.
Proof.
  unfold line_value, line_name.
  assert (E : match strchr line 58 with Some c => skip_while not_colon line = c /\ exists v, c = 58 :: v | None => skip_while not_colon line = [] end).
  { induction line as [|x line IH]; [done|]. cbn [strchr skip_while]. destruct (Z.eqb_spec x 58) as [->|Hx]; [by eauto|].
    replace (not_colon x) with true by (unfold not_colon; by rewrite (proj2 (Z.eqb_neq _ _) Hx)). exact IH. }
  destruct (strchr line 58) as [colon|]; [|by rewrite E]. destruct E as [E [v ->]]. split; [done|]. exists v. rewrite E.
  split_and!; [done|done| |done]. pose proof (take_skip_while not_colon line) as Es. rewrite E in Es.
  unfold before. rewrite <- Es at 1 2. rewrite length_app. replace (_ + _ - _)%nat with (length (take_while not_colon line)) by lia.
  apply take_app_length.
Qed.
Lemma no_colon_while line name : Forall (fun c => c <> 58) name -> nth0 (length name) line = 58 ->
  map tolower (take (length name) line) = map tolower name -> take_while not_colon line = take (length name) line.
Proof.
  revert line. induction name as [|c name IH]; intros line Hn H58 Hp; cbn [length take] in *.
  - destruct line as [|x line]; [done|]. cbn in H58. subst x. done.
  - destruct line as [|x line]; [done|]. cbn [take map take_while] in *. injection Hp as Hx Hp.
    inversion_clear Hn as [|? ? Hc Hn']. assert (x <> 58) as Hx58.
    { intros ->. apply Hc. symmetry in Hx. change (tolower 58) with 58 in Hx.
      unfold tolower, isupper in Hx. destruct ((65 <=? c) && (c <=? 90)) eqn:E; lia. }
    unfold not_colon at 1. rewrite (proj2 (Z.eqb_neq _ _) Hx58). cbn [negb]. f_equal. by apply IH.
Qed.
(** curl_header_name_is() compares the name of a line *)
Lemma caseeq_complete a b : map tolower a = map tolower b -> caseeq a b = true.
Proof.
  revert b. induction a as [|x a IH]; intros [|y b]; simpl; try done. intros [= Hx Ha].
  rewrite andb_true_iff. split; [lia|by apply IH].
Qed.
Lemma header_name_is line len name : Forall (fun c => c <> 58) name ->
  (match strchr line 58 with Some colon => (before line colon < len)%nat | None => True end) ->
  curl_header_name_is line len name = match line_name line with Some n => caseeq n name | None => false end.
Proof.
  intros Hn Hlen. pose proof (colon_split line) as Hs. unfold curl_header_name_is.
  set (l := (_ && _ && _)).
  assert (Hl : l = true -> line_name line = Some (take_while not_colon line) /\
    map tolower (take_while not_colon line) = map tolower name).
  { unfold l. rewrite !andb_true_iff, Z.eqb_eq. intros [[_ H58] Hp%ncaseeq_spec]. rewrite firstn_all in Hp.
    rewrite (no_colon_while line name Hn H58 Hp). split; [|done].
    destruct (strchr line 58) as [colon|]; [destruct Hs as (_ & v & _ & _ & _ & ->); f_equal; by apply no_colon_while|].
    destruct Hs as [Hs _]. pose proof (take_skip_while not_colon line) as Es. rewrite Hs, app_nil_r in Es.
    rewrite (no_colon_while line name Hn H58 Hp) in Es. rewrite <- Es in H58. exfalso. revert H58. unfold nth0.
    rewrite lookup_take_ge by lia. done. }
  destruct (strchr line 58) as [colon|] eqn:Ec.
  - destruct Hs as (_ & v & _ & _ & Ht & Hname). rewrite Hname in *. apply strchr_split in Ec as (k & Hk & E & L & N).
    rewrite <- Hk in *. destruct (caseeq (take_while not_colon line) name) eqn:Ecase.
    + apply caseeq_spec in Ecase. rewrite <- Ht in Ecase. assert (Hln : length name = k).
      { apply (f_equal length) in Ecase. rewrite !length_map in Ecase. congruence. }
      unfold l. rewrite Hln, N, !andb_true_iff. split_and!; [apply Nat.ltb_lt; lia|done|].
      apply ncaseeq_complete. by rewrite Ecase, <- Hln, firstn_all.
    + apply not_true_iff_false. intros H. apply Hl in H as [_ H]. apply caseeq_complete in H. congruence.
  - destruct Hs as [_ Hs]. rewrite Hs in *. apply not_true_iff_false. intros H. apply Hl in H as [H _]. done.
Qed.
