(* ===== verification/CurlRedirect.v ===== *)
(** * curl shim: where a redirect leads

    [resolve base location] splits the base into scheme, authority, path and
    query and puts the location in the place of the parts it replaces.
    curl_redirect_url(), which works with pointers into the base and a buffer
    of a computed size, answers just that; nothing is cut off. *)
From S2P Require Import CurlState CurlUrl CurlEasy CurlPerform CurlMulti CurlFrame CurlCodec Prelude.

Definition not_query (c : Z) : bool := negb ((c =? 63) || (c =? 35)).
Definition is_slash (c : Z) : bool := c =? 47.
(** a path up to its last slash, which is kept *)
Fixpoint dirname (path : list Z) : list Z :=
  match path with
  | [] => []
  | c :: path' => if existsb is_slash path then c :: dirname path' else []
  end.
Definition resolve (base location : list Z) : list Z :=
  let n := if prefixcaseb https base then 5%nat else 4%nat in
  let scheme := take n base in
  let host := drop 3 (drop n base) in
  let authority := take_while not_slash host in
  let path := skip_while not_slash host in
  let file := take_while not_query path in
  if is_some (strstr location sep) then location
  else if prefixb (str "//") location then scheme ++ [58] ++ location
  else if prefixb (str "/") location then scheme ++ sep ++ authority ++ location
  else if prefixb (str "?") location then scheme ++ sep ++ authority ++ file ++ location
  else scheme ++ sep ++ authority ++ dirname file ++ location.

(** ** The searches, as splits *)
Lemma strchr_path h : strchr h 47 = (match skip_while not_slash h with [] => None | p => Some p end).
Proof.
  induction h as [|c h IH]; [done|]. cbn [strchr skip_while]. unfold not_slash at 1.
  by destruct (c =? 47); cbn [negb].
Qed.
Lemma find_query_split p : 
  p = take_while not_query p ++ (match find_query p with Some q => q | None => [] end).
Proof.
  induction p as [|c p IH]; [done|]. cbn [find_query take_while]. unfold not_query at 1.
  destruct ((c =? 63) || (c =? 35)); cbn [negb app]; [done|by f_equal].
Qed.
Lemma last_slash_spec body e last : last_slash (body ++ e) e last =
  if existsb is_slash body then Some (drop (length (dirname body) - 1) (body ++ e)) else last.
Proof.
  revert last. induction body as [|c body IH]; intros last; cbn [app].
  { destruct e; cbn [last_slash]; by rewrite Nat.leb_refl. }
  cbn [last_slash]. rewrite (proj2 (Nat.leb_gt _ _)) by (simpl; rewrite length_app; lia).
  rewrite IH. cbn [existsb dirname]. change (c =? 47) with (is_slash c).
  destruct (existsb is_slash body) eqn:E.
  - rewrite orb_true_r. cbn [length]. 
    assert (0 < length (dirname body))%nat by (destruct body; [done|]; cbn [dirname]; rewrite E; simpl; lia).
    replace (S (length (dirname body)) - 1)%nat with (S (length (dirname body) - 1)) by lia. done.
  - rewrite orb_false_r. destruct (is_slash c); [|done].
    assert (dirname body = []) as -> by (destruct body; [done|]; cbn [dirname]; by rewrite E). done.
Qed.
Lemma dirname_prefix p : take (length (dirname p)) p = dirname p.
Proof. induction p as [|c p IH]; [done|]. cbn [dirname]. destruct (existsb _ _); [|done]. simpl. by f_equal. Qed.
Lemma dirname_slash p : existsb is_slash p = true -> (0 < length (dirname p) <= length p)%nat.
Proof.
  intros H. split.
  - destruct p; [done|]. cbn [dirname]. rewrite H. simpl. lia.
  - rewrite <- dirname_prefix, length_take. lia.
Qed.
Lemma before_app a b : before (a ++ b) b = length a.
Proof. unfold before. rewrite length_app. lia. Qed.
Lemma snprintf_all n s : zlen s < n -> snprintf n s = s.
Proof. unfold snprintf, zlen. intros H. apply take_ge. lia. Qed.

Lemma prefixb_1 c l : c <> 0 -> prefixb [c] l = (nth0 0 l =? c).
Proof. intros Hc. destruct l as [|d l]; cbn; [by destruct c|]. by rewrite andb_true_r, Z.eqb_sym. Qed.
Lemma prefixb_2 c l : c <> 0 -> prefixb [c; c] l = (nth0 0 l =? c) && (nth0 1 l =? c).
Proof.
  intros Hc. destruct l as [|d [|e l]]; cbn; [by destruct c|by destruct c; rewrite ?andb_false_r|]. by rewrite andb_true_r, !(Z.eqb_sym c).
Qed.

(** ** The prefixes of the base that curl_redirect_url() computes *)
Definition path_of (host : list Z) : list Z := skip_while not_slash host.
Definition path_ptr (host : list Z) : option (list Z) := strchr host 47.
Definition origin_end (host : list Z) : list Z := match path_ptr host with Some q => q | None => [] end.
Definition query_end (host : list Z) : list Z :=
  match match path_ptr host with Some q => find_query q | None => None end with Some q => q | None => [] end.
Lemma path_ptr_spec host : path_ptr host = match path_of host with [] => None | q => Some q end.
Proof. apply strchr_path. Qed.
Lemma origin_end_path host : origin_end host = path_of host.
Proof. unfold origin_end. rewrite path_ptr_spec. by destruct (path_of host). Qed.
Lemma path_split host : path_of host = take_while not_query (path_of host) ++ query_end host.
Proof.
  unfold query_end. rewrite path_ptr_spec. pose proof (find_query_split (path_of host)) as E.
  destruct (path_of host); [done|exact E].
Qed.
Lemma path_slash host c q : path_of host = c :: q -> c = 47.
Proof.
  unfold path_of. induction host as [|d h IH]; cbn [skip_while]; [done|].
  unfold not_slash at 1. destruct (Z.eqb_spec d 47); cbn [negb]; [by intros [= <- <-]|done].
Qed.

Section prefixes.
Context (scheme host base : list Z).
Hypothesis Hbase : base = scheme ++ sep ++ host.
Abbreviation authority := (take_while not_slash host).
Abbreviation file := (take_while not_query (path_of host)).

Lemma base_path : base = (scheme ++ sep ++ authority) ++ path_of host.
Proof. rewrite Hbase, <- !app_assoc. unfold path_of. by rewrite take_skip_while. Qed.
Lemma base_split : base = (scheme ++ sep ++ authority) ++ file ++ query_end host.
Proof. rewrite <- path_split. apply base_path. Qed.
Lemma take_origin : take (before base (origin_end host)) base = scheme ++ sep ++ authority.
Proof. rewrite origin_end_path, base_path, before_app. apply take_app_length. Qed.
Lemma take_file : take (before base (query_end host)) base = scheme ++ sep ++ authority ++ file.
Proof.
  pose proof base_split as E. rewrite app_assoc in E. rewrite E, before_app, take_app_length.
  by rewrite <- !app_assoc.
Qed.
Lemma take_dir :
  take (match match path_ptr host with Some q => last_slash q (query_end host) None | None => None end with
        | Some l => before base l + 1 | None => before base (origin_end host) end) base =
    scheme ++ sep ++ authority ++ dirname file.
Proof.
  rewrite path_ptr_spec. destruct (path_of host) as [|c q] eqn:Ep.
  { by rewrite take_origin, app_nil_r. }
  rewrite <- Ep. assert (existsb is_slash file = true) as Ef.
  { pose proof (path_slash host c q Ep) as ->. by rewrite Ep. }
  rewrite path_split at 1. rewrite last_slash_spec, Ef. destruct (dirname_slash file Ef) as [Hp Hl].
  rewrite base_split. unfold before. rewrite !length_app, length_drop, length_app.
  rewrite take_app, take_ge by (rewrite !length_app; lia). rewrite <- !app_assoc. do 3 f_equal.
  rewrite take_app_le by (rewrite !length_app; lia).
  etransitivity; [|apply dirname_prefix]. f_equal. rewrite !length_app. lia.
Qed.
End prefixes.

Section redirect.
Context (p : Z) (h0 : CURL) (s0 : Curl) (k : Z) (tr : list event) (s : Curl).
Hypothesis Ht : track p h0 s0 k tr s.

Lemma wp_redirect_url base location protocols (Q : option (list Z) -> Curl -> Prop) :
  curl_scheme_allowed base protocols = true ->
  (forall r s', track p h0 s0 (k + count_some r) tr s' ->
     r = Some (resolve base location) \/ r = None /\ out_of_memory s0 -> Q r s') ->
  wp (curl_redirect_url base location) Q s.
Proof.
  intros Ha HQ. unfold curl_redirect_url, resolve in *.
  destruct (is_some (strstr location sep)) eqn:Es; [by eapply wp_strdup|].
  destruct (scheme_split base protocols Ha) as (Eb & Es3 & Ln). rewrite Eb. cbv beta zeta in HQ.
  revert Eb Es3 Ln HQ. generalize (if prefixcaseb https base then 5%nat else 4%nat). intros n Eb Es3 Ln HQ.
  apply wpe_bind. eapply wp_malloc; [exact Ht|]. intros ok s1 H1 Hoom.
  destruct ok; cbn [negb]; [|wp_go; apply HQ; auto].
  assert (base = take n base ++ sep ++ drop 3 (drop n base)) as E by by rewrite <- Es3, !take_drop.
  assert (before base (drop n base) = n) as -> by (unfold before; rewrite length_drop; lia).
  assert (Hall : forall m mid, zlen mid <= 1 -> snprintf (zlen base + zlen location + 3) (take m base ++ mid ++ location) =
    take m base ++ mid ++ location).
  { intros m mid Hm. apply snprintf_all. unfold zlen in *. rewrite !length_app, length_take. lia. }
  pose proof (fun m => Hall m [] ltac:(done)) as Hall0. cbn [app] in Hall0.
  rewrite (Hall n [58]), !Hall0 by done.
  rewrite (prefixb_2 47), (prefixb_1 47), (prefixb_1 63) in HQ by done.
  pose proof (take_origin _ _ _ E) as To. pose proof (take_file _ _ _ E) as Tf. pose proof (take_dir _ _ _ E) as Td.
  unfold origin_end, query_end, path_ptr in To, Tf, Td. rewrite To, Tf. cbv zeta in Td. rewrite Td.
  rewrite <- !app_assoc. wp_go; apply HQ; try done; left.
  all: repeat lazymatch goal with H : ?b = _ |- context [if ?b then _ else _] => rewrite H end; done.
Qed.
End redirect.

(** Two redirects that lead astray: behind a host without a path, and with a
    URL in the query *)
Example resolve_no_path : resolve (str "http://a.org") (str "x") = str "http://a.orgx".
Proof. by vm_compute. Qed.
Example resolve_nested_url :
  resolve (str "http://a.org/y") (str "/login?to=http://b.org") = str "/login?to=http://b.org".
Proof. by vm_compute. Qed.
