(* ===== verification/CurlBody.v ===== *)
(** * curl shim: buffers and bodies

    A buffer is sound when its bytes and its capacity reach its size; then
    curl_buffer_append() adds exactly the new bytes or, when it fails, leaves
    it alone.  The body of a request is what the caller gave; the body of a
    response is delivered once and whole. *)
From S2P Require Import CurlState CurlUrl CurlEasy CurlPerform CurlMulti CurlFrame Prelude.

Record sound (b : CurlBuffer) : Prop := {
  sound_size : 0 <= b_size b <= zlen (b_data b);
  sound_capacity : b_size b <= b_capacity b <= SIZE_MAX
}.
Definition content (b : CurlBuffer) : list Z := take (Z.to_nat (b_size b)) (b_data b).
(** the blocks that a buffer holds *)
Definition held (b : CurlBuffer) : Z := if b_capacity b =? 0 then 0 else 1.
#[global] Arguments held : simpl never.
#[global] Arguments content : simpl never.

Lemma sound_empty : sound empty_buffer.
Proof. by split; cbn; unfold zlen, SIZE_MAX; simpl; lia. Qed.
Definition reset (b : CurlBuffer) : CurlBuffer := mkBuffer (b_data b) 0 (b_capacity b).
Lemma sound_reset b : sound b -> sound (reset b).
Proof. intros [H1 H2]. split; cbn; lia. Qed.
Lemma held_reset b : held (reset b) = held b.
Proof. done. Qed.

(** the doubling loop reaches the size that is needed *)
Lemma grow_ok fuel capacity needed s : 0 < capacity <= SIZE_MAX -> 0 < needed <= SIZE_MAX ->
  SIZE_MAX < capacity * 2 ^ Z.of_nat fuel ->
  exists c, grow (S fuel) capacity needed s = Ok c s /\ needed <= c <= SIZE_MAX.
Proof.
  revert capacity. induction fuel as [|fuel IH]; intros c Hc Hn Hf; cbn [grow];
    (destruct (Z.ltb_spec c needed); [|exists c; split; [done|lia]]);
    (destruct (Z.ltb_spec (SIZE_MAX / 2) c); [exists needed; split; [done|lia]|]).
  - unfold SIZE_MAX in *. simpl in Hf. lia.
  - apply IH; [unfold SIZE_MAX in *; Z.to_euclidean_division_equations; lia|done|].
    replace (Z.of_nat (S fuel)) with (Z.succ (Z.of_nat fuel)) in Hf by lia. rewrite Z.pow_succ_r in Hf; lia.
Qed.

Section body.
Context (p : Z) (h0 : CURL) (s0 : Curl).
Hypothesis Hus : usable h0 s0.
Context `{Hw : sane_world (net s0)}.
Abbreviation track := (track p h0 s0).

(** why [n] bytes may not fit a buffer *)
Definition no_room (n : Z) : Prop := out_of_memory s0 \/ SIZE_MAX < n.
Lemma wp_append b data k tr s (Q : option CurlBuffer -> Curl -> Prop) : track k tr s -> sound b ->
  (forall s', track k tr s' -> no_room (b_size b + zlen data) -> Q None s') ->
  (forall b' s', track (k + held b' - held b) tr s' -> sound b' -> content b' = content b ++ data -> Q (Some b') s') ->
  wp (curl_buffer_append b data) Q s.
Proof.
  intros Ht [Hs Hc] Hfail Hok. unfold curl_buffer_append.
  assert (Hstore : forall cap, b_size b + zlen data <= cap <= SIZE_MAX ->
    let b' := mkBuffer (splice (Z.to_nat (b_size b)) data (b_data b)) (b_size b + zlen data) cap in
    sound b' /\ content b' = content b ++ data).
  { intros cap Hcap. unfold zlen in *. split.
    - split; cbn; [|lia]. unfold splice, zlen. rewrite !length_app, length_take, length_drop. lia.
    - unfold content. cbn [b_size b_data]. rewrite Z2Nat.inj_add, Nat2Z.id by lia. apply splice_full. lia. }
  destruct (Z.eqb_spec (zlen data) 0) as [E|Hd].
  { wp_go. apply Hok; [tracked Ht|done|]. destruct data; [by rewrite app_nil_r|done]. }
  assert (0 < zlen data) by (unfold zlen in *; lia).
  apply wpe_if; intros Hover; [wp_go; apply Hfail; [done|right; lia]|]. apply wpe_if; intros Hcap.
  - edestruct (grow_ok 64 (if b_capacity b =? 0 then 16384 else b_capacity b) (b_size b + zlen data) s) as (c & Hg & Hc').
    1-3: unfold SIZE_MAX in *; destruct (b_capacity b =? 0) eqn:?; lia.
    apply wpe_bind. eapply wpe_ok; [exact Hg|]. apply wpe_bind. eapply wp_malloc; [exact Ht|].
    intros [] s1 H1 Hoom; cbn [negb]; [|wp_go; apply Hfail; [tracked H1|left; auto]].
    apply wpe_bind. eapply wp_free_if; [exact H1|]. intros s2 H2 _. wp_go.
    destruct (Hstore c) as [Hb' Hcont]; [lia|]. apply Hok; [|done|done].
    eapply track_eq; [exact H2| |done]. unfold held. cbn [b_capacity].
    rewrite (proj2 (Z.eqb_neq c 0)) by lia. destruct (b_capacity b =? 0); cbn [negb]; lia.
  - wp_go. destruct (Hstore (b_capacity b)) as [Hb' Hcont]; [unfold SIZE_MAX in *; lia|].
    apply Hok; [|done|done]. eapply track_eq; [exact Ht|unfold held; cbn [b_capacity]; lia|done].
Qed.

(** ** The request body *)
Definition post_data : list Z :=
  match cmem s0 !! h_post_fields h0 with
  | Some b => if h_post_size h0 <? 0 then cstr b else take (Z.to_nat (h_post_size h0)) b
  | None => []
  end.
Lemma cstr_take b : take (length (cstr b)) b = cstr b /\ (length (cstr b) <= length b)%nat.
Proof.
  induction b as [|c b [IH1 IH2]]; [done|]. cbn [cstr]. destruct (c =? 0); [split; simpl; [done|lia]|].
  split; simpl; [by rewrite IH1|lia].
Qed.

(** the read callback answers more than it was asked for *)
Definition misread : Prop := exists hist want, want < fst (w_read (net s0) hist want) mod (SIZE_MAX + 1).
Lemma wp_call_read want k tr s (Q : Z * list Z -> Curl -> Prop) : track k tr s -> 0 < want ->
  (forall got data s', track k tr s' -> 0 <= got -> (got <= want -> zlen data = got) -> (want < got -> misread) -> Q (got, data) s') ->
  wp (call_read want) Q s.
Proof.
  intros Ht Hwant HQ. unfold call_read. wp_go. eapply wp_log; [exact Ht|]. intros s1 H1 _. cbn [visible] in H1.
  rewrite app_nil_r in H1.
  rewrite (track_world _ _ _ _ _ _ Ht). destruct (sane_read (history s) want Hwant) as [R1 R2].
  assert (Hmis : want < fst (w_read (net s0) (history s) want) mod (SIZE_MAX + 1) -> misread) by (intros; by exists (history s), want).
  destruct (w_read (net s0) (history s) want) as [got data]. cbn [fst snd] in *.
  pose proof (Z.mod_pos_bound got (SIZE_MAX + 1) eq_refl) as Hg.
  replace (want <? zlen data) with false by lia. cbn [orb].
  destruct (Z.leb_spec (got mod (SIZE_MAX + 1)) want) as [Hle|]; cbn [andb].
  - replace (zlen data <? _) with false by lia. wp_go. apply HQ; [done|lia| |lia].
    intros _. unfold zlen in *. rewrite length_take. lia.
  - wp_go. apply HQ; [done|lia|lia|done].
Qed.

Definition read_end (code : Z) : Prop :=
  code = CURLE_OK \/ code = CURLE_READ_ERROR /\ (misread \/ no_room (h_infile_size h0)).
(** one turn of the loop over the read callback *)
Lemma wp_collect_step b k0 k tr s : track (k + held b - k0) tr s -> sound b -> 0 <= h_infile_size h0 ->
  wp (collect_step p (h_infile_size h0) b) (fun r s' => match r with
    | inl b' => (track (k + held b' - k0) tr s' /\ sound b') /\
                Z.max 0 (h_infile_size h0 - b_size b') < Z.max 0 (h_infile_size h0 - b_size b)
    | inr (code, b') => (track (k + held b' - k0) tr s' /\ sound b') /\ read_end code
    end) s.
Proof.
  intros Ht Hb Hi. unfold collect_step. apply wpe_if; intros Hd; [wp_go; by split; [|left]|].
  set (want := if (0 <=? h_infile_size h0) && (h_infile_size h0 - b_size b <? 16384) then _ else _).
  assert (Hwant : 0 < want <= h_infile_size h0 - b_size b).
  { unfold want. destruct ((0 <=? _) && (_ <? 16384)) eqn:?; lia. }
  apply wpe_bind. eapply wp_call_read; [exact Ht|lia|]. intros got data s1 H1 Hg Hlen Hmis. cbn [fst snd].
  apply wpe_if; intros E; [wp_go; by split; [|left]|].
  assert (Hfail : forall s, track (k + held b - k0) tr s -> misread \/ no_room (h_infile_size h0) -> wp
    (curl_set_error p CURLE_READ_ERROR (Some (str "failed to buffer request body")) ;; ret (inr (CURLE_READ_ERROR, b)))
    (fun r s' => match r with
      | inl b' => (track (k + held b' - k0) tr s' /\ sound b') /\
                  Z.max 0 (h_infile_size h0 - b_size b') < Z.max 0 (h_infile_size h0 - b_size b)
      | inr (code, b') => (track (k + held b' - k0) tr s' /\ sound b') /\ read_end code
      end) s).
  { intros s2 H2 Hwhy. apply wpe_bind. eapply wp_set_error; [done|exact H2|]. intros s3 H3. wp_go. by split; [|right]. }
  apply wpe_if; intros Hw'; [apply Hfail; [done|left; apply Hmis; lia]|].
  apply wpe_bind. eapply wp_append; [exact H1|done| |].
  { intros s2 H2 Hwhy. apply Hfail; [done|right]. destruct Hwhy as [?|Hwhy]; [by left|right]. rewrite Hlen in Hwhy by lia. lia. }
  intros b' s2 H2 Hb' Hcont.
  apply wpe_bind. eapply wp_debug; [exact H2|]. intros s3 H3 _. wp_go.
  split; [split; [tracked H3|done]|].
  apply (f_equal zlen) in Hcont. unfold content, zlen in *. rewrite length_app, !length_take in Hcont.
  destruct Hb as [Hb1 _], Hb' as [Hb2 _]. unfold zlen in *. lia.
Qed.
(** how the read of the request body may end *)
Definition collected (code : Z) : Prop :=
  if h_post_fields h0 =? 0 then if h_read_callback h0 =? 0 then code = CURLE_OK else read_end code
  else code = CURLE_OK \/ code = CURLE_OUT_OF_MEMORY /\ no_room (zlen post_data).
(** The read of the request body ends, and post data is what the caller gave *)
Lemma wp_collect b k tr s (Q : Z * CurlBuffer -> Curl -> Prop) : track k tr s -> sound b -> content b = [] ->
  (forall code b' s', track (k + held b' - held b) tr s' -> sound b' ->
     collected code -> (code = CURLE_OK -> h_post_fields h0 <> 0 -> content b' = post_data) -> Q (code, b') s') ->
  wp (curl_collect_request_body p b) Q s.
Proof.
  intros Ht Hb Hempty HQ. unfold curl_collect_request_body. apply wpe_bind. eapply wp_handle_get; [exact Ht|].
  intros h _ Hc. apply wpe_bind, wpe_get.
  same h_post_fields Hc. same h_post_size Hc. same h_read_callback Hc. same h_infile_size Hc.
  unfold collected in HQ.
  apply wpe_if; intros Hpost; [|apply wpe_if; intros Hread].
  - replace (h_post_fields h0 =? 0) with false in HQ by lia. destruct (us_post _ _ Hus) as (Hne & block & Hblock & Hsize); [lia|].
    apply wpe_bind. unfold mem_get. apply wpe_bind, wpe_get.
    eapply wpe_lift; [eapply track_mem_get; eassumption|].
    assert (Hdata : take (Z.to_nat (if 0 <=? h_post_size h0 then h_post_size h0 else zlen (cstr block))) block = post_data /\
      (if 0 <=? h_post_size h0 then h_post_size h0 else zlen (cstr block)) <= zlen block).
    { unfold post_data. rewrite Hblock. destruct (Z.ltb_spec (h_post_size h0) 0).
      - rewrite (proj2 (Z.leb_gt _ _)) by lia. unfold zlen. rewrite Nat2Z.id.
        destruct (cstr_take block). split; [done|lia].
      - rewrite (proj2 (Z.leb_le _ _)) by lia. done. }
    destruct Hdata as [Hd Hle]. rewrite Hd.
    assert ((h_post_size h0 <? 0) && negb (existsb (fun c => c =? 0) block) = false) as ->.
    { destruct (h_post_size h0 <? 0); [by rewrite Hsize|done]. }
    rewrite (proj2 (Z.ltb_ge _ _)) by exact Hle.
    apply wpe_bind. eapply wp_append; [exact Ht|done| |].
    + intros s' H' Hwhy. apply wpe_bind. eapply wp_memory_error; [done|exact H'|]. intros s2 H2. wp_go.
      apply HQ; [tracked H2|done| |done]. right. split; [done|]. replace (b_size b) with 0 in Hwhy; [exact Hwhy|].
      apply (f_equal zlen) in Hempty. destruct Hb as [Hsz _]. unfold content, zlen in *. rewrite length_take in Hempty. simpl in Hempty. lia.
    + intros b' s' H' Hb' Hcont. wp_go. apply HQ; [done|done|by left|]. by rewrite Hcont, Hempty.
  - replace (h_post_fields h0 =? 0) with true in HQ by lia. rewrite Hread in HQ. wp_go. apply HQ; [tracked Ht|done|done|]. intros _ ?. lia.
  - replace (h_post_fields h0 =? 0) with true in HQ by lia. rewrite Hread in HQ. destruct (us_body _ _ Hus) as [|[|Hi]]; [lia|lia|].
    eapply (wpe_iter no_fault (fun b' s' => track (k + held b' - held b) tr s' /\ sound b')
              (fun b' _ => Z.max 0 (h_infile_size h0 - b_size b'))).
    + intros b' s' [H' Hb']. split; [lia|]. eapply wpe_mono; [by apply wp_collect_step|].
      intros [b2|[code b2]] s2; [done|]. intros [[H2 Hb2] Hcode]. apply HQ; [done|done|exact Hcode|intros _ ?; lia].
    + split; [tracked Ht|done].
    + destruct Hb as [Hb1 _]. lia.
Qed.

(** ** The response body *)
(** the bytes that the chunks carry, up to the end of the body *)
Fixpoint delivered (chunks : list (option (list Z))) : list Z :=
  match chunks with Some (c :: data) :: chunks => (c :: data) ++ delivered chunks | _ => [] end.
Definition body_event (data : list Z) : event :=
  if h_write_callback h0 =? 0 then Stdout data else WriteCallback data.
(** reading the chunks fails before the end of the body *)
Fixpoint breaks_off (chunks : list (option (list Z))) (end_error : bool) : bool :=
  match chunks with
  | None :: _ => true
  | Some (_ :: _) :: chunks => breaks_off chunks end_error
  | _ => end_error
  end.
(** the code of curl_deliver_body() and what it has written: nothing if no body
    was asked for or reading it failed, else all of it, and the code says
    whether all of it was taken *)
Inductive delivery (W : curl_world) (resp : response) : Z -> list event -> Prop :=
  | delivery_nobody : h_nobody h0 <> 0 -> delivery W resp CURLE_OK []
  | delivery_broken : h_nobody h0 = 0 -> breaks_off (r_chunks resp) (r_end_error resp) = true ->
      delivery W resp CURLE_READ_ERROR []
  | delivery_memory : h_nobody h0 = 0 -> (exists n, w_malloc W n = false) \/ SIZE_MAX < zlen (delivered (r_chunks resp)) ->
      delivery W resp CURLE_OUT_OF_MEMORY []
  | delivery_written hist data : h_nobody h0 = 0 -> breaks_off (r_chunks resp) (r_end_error resp) = false ->
      data = delivered (r_chunks resp) ->
      delivery W resp (if w_write (W) hist data =? zlen data then CURLE_OK else CURLE_WRITE_ERROR) [body_event data].

Lemma wp_read_chunks resp chunks b k tr s (Q : Z * CurlBuffer -> Curl -> Prop) : track k tr s -> sound b ->
  Forall (fun c => match c with Some d => zlen d <= 16384 | None => True end) chunks ->
  (forall code b' s', track (k + held b' - held b) tr s' -> sound b' ->
     code = CURLE_OK /\ content b' = content b ++ delivered chunks /\ breaks_off chunks (r_end_error resp) = false \/
     code = CURLE_READ_ERROR /\ breaks_off chunks (r_end_error resp) = true \/
     code = CURLE_OUT_OF_MEMORY /\ no_room (b_size b + zlen (delivered chunks)) -> Q (code, b') s') ->
  wp (read_chunks p resp chunks b) Q s.
Proof.
  intros Ht Hb Hc HQ. revert b k s Ht Hb HQ.
  assert (Hfail : forall b k s, track k tr s -> sound b ->
    (forall s', track k tr s' -> Q (CURLE_READ_ERROR, b) s') ->
    wp (curl_set_error p CURLE_READ_ERROR (r_error_msg resp) ;; ret (CURLE_READ_ERROR, b)) Q s).
  { intros b k s Ht Hb HQ. apply wpe_bind. eapply wp_set_error; [done|exact Ht|]. intros s' H'. wp_go. by apply HQ. }
  induction Hc as [|[[|c data]|] chunks Hc _ IH]; intros b k s Ht Hb HQ; cbn [read_chunks].
  1-2: apply wpe_if; intros E; [eapply Hfail; [done|done|]; intros s' H'|wp_go]; apply HQ; try done;
      [by eapply track_eq; [exact H'|lia|]|auto|tracked Ht|by rewrite app_nil_r; left].
  - rewrite (proj2 (Z.ltb_ge _ _)) by exact Hc.
    apply wpe_bind. eapply wp_debug; [exact Ht|]. intros s1 H1 _.
    apply wpe_bind. eapply wp_append; [exact H1|done| |].
    + intros s2 H2 Hwhy. apply wpe_bind. eapply wp_memory_error; [done|exact H2|]. intros s3 H3. wp_go.
      apply HQ; [tracked H3|done|right; right]. split; [done|]. cbn [delivered]. destruct Hwhy as [?|Hwhy]; [by left|right].
      unfold zlen in *. rewrite length_app. lia.
    + intros b2 s2 H2 Hb2 Hcont. eapply IH; [exact H2|done|]. intros code b3 s3 H3 Hb3 Hcode.
      apply HQ; [tracked H3|done|].
      rewrite Hcont, <- app_assoc in Hcode. replace (b_size b2) with (b_size b + zlen (c :: data)) in Hcode.
      * cbn [delivered]. unfold zlen in *. rewrite length_app. rewrite <- Z.add_assoc, <- Nat2Z.inj_add in Hcode. exact Hcode.
      * apply (f_equal zlen) in Hcont. destruct Hb as [Hs1 _], Hb2 as [Hs2 _]. unfold content, zlen in *.
        rewrite length_app, !length_take in Hcont. lia.
  - eapply Hfail; [done|done|]. intros s' H'. apply HQ; [eapply track_eq; [exact H'|lia|done]|done|auto].
Qed.
Lemma wp_call_write data k tr s (Q : Z -> Curl -> Prop) : track k tr s ->
  (forall hist s', track k (tr ++ [body_event data]) s' -> Q (w_write (net s0) hist data) s') ->
  wp (call_write p data) Q s.
Proof.
  intros Ht HQ. unfold call_write. apply wpe_bind. eapply wp_handle_get; [exact Ht|]. intros h _ Hc.
  same h_write_callback Hc. apply wpe_bind, wpe_get, wpe_bind. eapply wp_log; [exact Ht|]. intros s1 H1 _.
  wp_go. rewrite (track_world _ _ _ _ _ _ Ht). apply HQ. unfold body_event. by destruct (h_write_callback h0 =? 0).
Qed.
Lemma wp_deliver_body resp b k tr s (Q : Z * CurlBuffer -> Curl -> Prop) : track k tr s -> sound b ->
  Forall (fun c => match c with Some d => zlen d <= 16384 | None => True end) (r_chunks resp) ->
  (forall code b' ws s', track (k + held b' - held b) (tr ++ ws) s' -> sound b' -> delivery (net s0) resp code ws -> Q (code, b') s') ->
  wp (curl_deliver_body p resp b) Q s.
Proof.
  intros Ht Hb Hc HQ. unfold curl_deliver_body. apply wpe_bind. eapply wp_handle_get; [exact Ht|]. intros h _ Hcf.
  same h_nobody Hcf. destruct (Z.eqb_spec (h_nobody h0) 0) as [Hn|Hn]; cbn [negb].
  2: { wp_go. apply (HQ _ _ []); [|done|by constructor]. rewrite app_nil_r. tracked Ht. }
  change (mkBuffer (b_data b) 0 (b_capacity b)) with (reset b).
  apply wpe_bind. eapply wp_read_chunks; [exact Ht|by apply sound_reset|done|].
  rewrite held_reset. change (content (reset b)) with (@nil Z). intros code b' s1 H1 Hb' Hcode. cbn [fst snd].
  destruct Hcode as [(-> & Hcont & Hbr)|Hcode]; cbn [Z.eqb negb CURLE_OK].
  2: { apply wpe_if; intros E; [wp_go; apply (HQ _ _ []); [by rewrite app_nil_r|done|]|].
       - destruct Hcode as [[-> Hbr]|[-> Hwhy]]; by constructor.
       - by destruct Hcode as [[-> _]|[-> _]]. }
  cbn [app] in Hcont. assert (zlen (delivered (r_chunks resp)) = b_size b') as Hlen.
  { rewrite <- Hcont. destruct Hb' as [Hs _]. unfold content, zlen in *. rewrite length_take. lia. }
  unfold content in Hcont. rewrite Hcont.
  apply wpe_bind. eapply wp_call_write; [exact H1|]. intros hist s2 H2.
  pose proof (delivery_written (net s0) resp hist _ Hn Hbr eq_refl) as Hd. rewrite Hlen in Hd. apply wpe_if; intros E.
  - apply negb_true_iff in E. rewrite E in Hd.
    apply wpe_bind. eapply wp_set_error; [done|exact H2|]. intros s3 H3. wp_go. by eapply HQ; [exact H3|..].
  - apply negb_false_iff in E. rewrite E in Hd. wp_go. by eapply HQ; [exact H2|..].
Qed.
End body.
