(* ===== verification/CurlRequest.v ===== *)
(** * curl shim: the request and the headers of the response

    The headers of a request are those of [request_headers]: the lines of the
    caller's list, without credentials for another origin than that of the URL
    the caller gave, and the defaults that the list does not have.
    curl_process_response_headers() changes the results of the handle only; a
    failed request is reported as [failure] says. *)
From S2P Require Import CurlState CurlUrl CurlEasy CurlPerform CurlMulti CurlFrame CurlCodec.
From S2P Require Import CurlBody Prelude.

(** the user and the password of a handle, as HTTP Basic sends them *)
Definition credentials (h : CURL) : option (list Z) :=
  match h_username h with
  | Some user => Some (user ++ [58] ++ match h_password h with Some pw => pw | None => [] end)
  | None => h_userpwd h
  end.

(** a header list is read to its end *)
Definition header_lines (sl : gmap Z (list Z * Z)) (q : Z) (lines : list (list Z)) : Prop :=
  exists l, path (links sl snd) q l /\ Forall2 (fun a d => fst <$> sl !! a = Some d) l lines.
Lemma slist_items_ok sl q l lines fuel s : slists s = sl -> path (links sl snd) q l ->
  Forall2 (fun a d => fst <$> sl !! a = Some d) l lines -> (length l <= fuel)%nat ->
  slist_items fuel q s = Ok lines s.
Proof.
  intros Hs Hp Hl. revert q fuel Hp. induction Hl as [|a d l lines Ha _ IH]; intros q fuel; cbn [path].
  { intros -> _. by destruct fuel. }
  intros (-> & Hz & n & Hn & Hl) Hf. destruct fuel as [|fuel]; [simpl in Hf; lia|]. cbn [slist_items].
  rewrite (proj2 (Z.eqb_neq _ _) Hz). unfold links in Hn. destruct (sl !! a) as [[d' n']|] eqn:E; [|done].
  injection Hn as <-. injection Ha as <-. unfold bind, get. rewrite Hs, E. cbn.
  rewrite (IH n' fuel Hl) by (simpl in Hf; lia). done.
Qed.
Lemma header_lines_exist sl q l : path (links sl snd) q l -> exists lines, header_lines sl q lines.
Proof.
  intros Hp. assert (exists lines, Forall2 (fun a d => fst <$> sl !! a = Some d) l lines) as [lines Hl]; [|by exists lines, l].
  revert q Hp. induction l as [|a l IH]; intros q; cbn [path]; [by exists []|].
  intros (-> & Ha & n & Hn & Hl). unfold links in Hn. destruct (sl !! a) as [[d n']|] eqn:E; [|done].
  destruct (IH n Hl) as [lines Hf]. exists (d :: lines). constructor; [by rewrite E|done].
Qed.

(** ** The headers that a request has *)
(** a header that the list of the caller does not have *)
Definition extra (lines : list (list Z)) (name : list Z) (value : option (list Z)) : list header :=
  match value with Some v => if has_line lines name then [] else [(name, v)] | None => [] end.
Lemma extra_new lines name v : has_line lines name = false -> extra lines name (Some v) = [(name, v)].
Proof. intros H. unfold extra. by rewrite H. Qed.
(** those for a URL of the [same] origin as the first one, or of another *)
Definition may_send (same : bool) (kv : header) : bool := same || negb (credential (fst kv)).
Definition request_headers (h : CURL) (lines : list (list Z)) (same : bool) (auth : option (list Z)) : list header :=
  List.filter (may_send same) (omap line_header lines) ++
  extra lines (str "User-Agent") (h_user_agent h) ++
  extra lines (str "Range") (h_range h) ++
  (if same && Z.testbit (h_httpauth h) 0 then extra lines (str "Authorization") auth else []).
(** the value of the Authorization header *)
Definition authorizes (h : CURL) (s : Curl) (auth : option (list Z)) : Prop :=
  match auth with
  | None => credentials h = None \/ out_of_memory s
  | Some v => exists c e, credentials h = Some c /\ v = str "Basic " ++ e /\ (Forall is_byte c -> b64_decode e = c)
  end.
Lemma authorizes_some h s : exists auth, authorizes h s auth.
Proof.
  destruct (credentials h) as [c|] eqn:E; [|by exists None; left].
  exists (Some (str "Basic " ++ b64_encode c)), c, (b64_encode c). split_and!; [done|done|apply b64_roundtrip].
Qed.
Lemma request_headers_discreet h lines auth : Forall (fun kv => credential (fst kv) = false) (request_headers h lines false auth).
Proof.
  unfold request_headers. cbn [andb]. rewrite app_nil_r. apply Forall_app_2; [|apply Forall_app_2].
  - apply Forall_forall. intros kv Hin. apply List.filter_In in Hin as [_ Hc]. by apply negb_true_iff.
  - unfold extra. destruct (h_user_agent h); [|constructor]. destruct (has_line _ _); [constructor|]. by repeat constructor.
  - unfold extra. destruct (h_range h); [|constructor]. destruct (has_line _ _); [constructor|]. by repeat constructor.
Qed.

Section request.
Context (p : Z) (h0 : CURL) (s0 : Curl).
Hypothesis Hus : usable h0 s0.
Context `{Hw : sane_world (net s0)}.
Abbreviation track := (track p h0 s0).

(** the lines of the caller's list *)
Context (lines : list (list Z)).
Hypothesis Hlines : header_lines (slists s0) (h_headers h0) lines.

Lemma wp_slist_data k tr s (Q : list (list Z) -> Curl -> Prop) : track k tr s ->
  Q lines s -> wp (slist_data (h_headers h0)) Q s.
Proof.
  intros Ht HQ. destruct Hlines as (l & Hl & Hd). destruct Ht as [_ (_ & _ & Hs & _) _ _]. rewrite <- Hs in Hl, Hd.
  unfold slist_data. apply wpe_bind, wpe_get. eapply wpe_ok; [|exact HQ].
  eapply slist_items_ok; [reflexivity|exact Hl|exact Hd|]. pose proof (path_size _ _ _ _ Hl). lia.
Qed.
Lemma wp_headers_contain name k tr s (Q : bool -> Curl -> Prop) : track k tr s -> Forall (fun c => c <> 58) name ->
  Q (has_line lines name) s -> wp (curl_headers_contain p name) Q s.
Proof.
  intros Ht Hn HQ. unfold curl_headers_contain. apply wpe_bind. eapply wp_handle_get; [exact Ht|]. intros h _ Hc.
  same h_headers Hc. apply wpe_bind. eapply wp_slist_data; [exact Ht|]. wp_go.
  replace (existsb _ lines) with (has_line lines name); [done|]. unfold has_line. clear HQ Hlines.
  induction lines as [|line ls IH]; [done|]. cbn [existsb]. rewrite IH. f_equal. symmetry. apply header_name_is; [done|].
  destruct (strchr line 58) as [colon|] eqn:E; [|done]. apply strchr_split in E as (k' & <- & E & L & N).
  apply (f_equal length) in E. rewrite length_app in E. destruct (drop k' line) eqn:Ed.
  - unfold nth0 in N. rewrite (proj2 (lookup_ge_None _ _)) in N; [done|]. apply (f_equal length) in Ed. rewrite length_drop in Ed. simpl in Ed. lia.
  - apply (f_equal length) in Ed. rewrite length_drop in Ed. simpl in Ed. lia.
Qed.

(** The Authorization header is the credentials of the handle in base64; there
    is none without them or without memory *)
Lemma wp_basic_auth k tr s (Q : option (list Z) -> Curl -> Prop) : track k tr s ->
  (forall r s', track (k + count_some r) tr s' ->
     match r with
     | None => credentials h0 = None \/ out_of_memory s0
     | Some v => exists c, credentials h0 = Some c /\ v = str "Basic " ++ b64_encode c
     end -> Q r s') ->
  wp (curl_basic_auth p) Q s.
Proof.
  intros Ht HQ. unfold curl_basic_auth. apply wpe_bind. eapply wp_handle_get; [exact Ht|]. intros h _ Hc.
  same h_username Hc. same h_userpwd Hc. same h_password Hc. apply wpe_bind.
  eapply (wpe_mono _ _ (fun r s' => track (k + count_some r) tr s' /\
    (r = credentials h0 \/ r = None /\ out_of_memory s0))).
  { unfold credentials. destruct (h_username h0) as [user|].
    - apply wpe_bind. eapply wp_malloc; [exact Ht|]. intros [] s1 H1 Ho; wp_go; [|by auto]. split; [done|]. left.
      f_equal. unfold snprintf. apply take_ge. destruct (h_password h0); unfold zlen; rewrite !length_app; cbn [length]; lia.
    - destruct (h_userpwd h0); [eapply wp_strdup; [exact Ht|]; intros r s1 H1 [-> | [-> Ho]]; auto|].
      wp_go. split; [|by left]. tracked Ht. }
  intros [c|] s1 [H1 Hr].
  2: { wp_go. apply HQ; [done|]. destruct Hr as [<-|[_ Ho]]; auto. }
  assert (credentials h0 = Some c) as Ecred by by destruct Hr as [<-|[? _]].
  cbv zeta. apply wpe_bind. eapply wp_malloc; [exact H1|]. intros [] s2 H2 Ho; cbn [negb].
  - rewrite (proj2 (Z.leb_gt _ _)).
    + apply wpe_bind. eapply wp_free_if; [exact H2|]. intros s3 H3 _. wp_go. apply HQ; [tracked H3|eauto].
    + pose proof (b64_length c) as E. unfold zlen in *. rewrite length_app, Nat2Z.inj_add, E. cbn [length]. lia.
  - apply wpe_bind. eapply wp_free_if; [exact H2|]. intros s3 H3 _. wp_go. apply HQ; [tracked H3|auto].
Qed.

(** ** The headers of the request *)
(** the name of some header does not fit the buffer of curl_add_request_headers() *)
Definition long_name (items : list (list Z)) : Prop :=
  Exists (fun line => exists name, line_name line = Some name /\ 128 <= zlen name) items.
Lemma wp_add_items same items acc k tr s (Q : option (list header) -> Curl -> Prop) : track k tr s ->
  (forall r s', track k tr s' -> r = None /\ long_name items \/
     r = Some (acc ++ List.filter (may_send same) (omap line_header items)) -> Q r s') ->
  wp (add_items p same items acc) Q s.
Proof.
  intros Ht HQ. revert acc s Ht HQ. induction items as [|data items IH]; intros acc s Ht HQ; cbn [add_items].
  { wp_go. apply HQ; [done|right]. by rewrite app_nil_r. }
  pose proof (colon_split data) as Hs. unfold omap, list_omap in HQ. fold (omap line_header items) in HQ.
  assert (Hmore : long_name items -> long_name (data :: items)) by (intros; by apply Exists_cons_tl).
  destruct (strchr data 58) as [colon|] eqn:Ec.
  2: { unfold line_header in HQ at 1. destruct Hs as [_ E]. rewrite E in HQ. apply IH; [done|].
       intros r s' H' [[-> Hr]|Hr]; apply HQ; auto. }
  destruct Hs as (_ & v & -> & Hv & Htake & Hname). cbv zeta. change (drop 1 (58 :: v)) with v. fold line_blank.
  change (skip_while _ v) with (skip_while line_blank v). rewrite <- Hv, Htake.
  destruct (line_value data) as [|c value] eqn:Eval.
  { unfold line_header in HQ at 1. rewrite Hname, Eval in HQ. apply IH; [done|].
    intros r s' H' [[-> Hr]|Hr]; apply HQ; auto. }
  unfold line_header in HQ at 1. rewrite Hname, Eval in HQ. cbn [List.filter] in HQ. unfold may_send at 1, credential in HQ. cbn [fst] in HQ.
  pose proof (fun name Hn => header_name_is data (before data (58 :: v) + 1) name Hn) as Hflag. rewrite Ec, Hname in Hflag.
  rewrite (Hflag (str "Authorization")), (Hflag (str "Cookie")) by (try lia; by repeat constructor).
  destruct same; cbn [negb andb orb] in HQ |- *.
  2: destruct (_ || _); cbn [negb] in HQ; [apply IH; [done|]; intros r s' H' [[-> Hr]|Hr]; apply HQ; auto|].
  all: apply wpe_if; intros Hlong;
    [wp_go; apply HQ; [done|left; split; [done|]]; apply Exists_cons_hd; eexists; split; [exact Hname|];
     rewrite <- Htake; unfold before, zlen in *; rewrite length_take, Nat.min_l by apply Nat.le_sub_l; by apply Z.leb_le|].
  all: apply wpe_bind; eapply wp_debug; [exact Ht|]; intros s1 H1 _; apply IH; [done|].
  all: intros r s2 H2 [[-> Hr]|Hr]; apply HQ; [done|auto|done|]; rewrite <- app_assoc in Hr; auto.
Qed.
Lemma wp_add_default name value hs k tr s (Q : list header -> Curl -> Prop) : track k tr s -> Forall (fun c => c <> 58) name ->
  Q (hs ++ extra lines name value) s -> wp (add_default p name value hs) Q s.
Proof.
  intros Ht Hn HQ. unfold add_default, extra in *. destruct value as [v|]; [|wp_go; by rewrite app_nil_r in HQ].
  apply wpe_bind. eapply wp_headers_contain; [exact Ht|done|]. destruct (has_line lines name); wp_go; by rewrite ?app_nil_r in HQ.
Qed.
Lemma wp_add_request_headers url url0 k tr s (Q : option (list header) -> Curl -> Prop) : track k tr s ->
  (forall r s', track k tr s' ->
     r = None /\ long_name lines \/ (exists auth, authorizes h0 s0 auth /\ r = Some (request_headers h0 lines (curl_same_origin url url0) auth)) -> Q r s') ->
  wp (curl_add_request_headers p url url0) Q s.
Proof.
  intros Ht HQ. unfold curl_add_request_headers. cbv zeta.
  apply wpe_bind. eapply wp_handle_get; [exact Ht|]. intros h _ Hc. same h_headers Hc. same h_user_agent Hc. same h_range Hc.
  same h_httpauth Hc.
  apply wpe_bind. eapply wp_slist_data; [exact Ht|].
  apply wpe_bind. eapply wp_add_items; [exact Ht|]. intros r s1 H1 [[-> Hr] | ->]; [wp_go; apply HQ; auto|]. cbn [app].
  apply wpe_bind. eapply wp_add_default; [exact H1|by repeat constructor|].
  apply wpe_bind. eapply wp_add_default; [exact H1|by repeat constructor|].
  unfold request_headers in HQ. set (same := curl_same_origin url url0) in *.
  change CURLAUTH_BASIC with (2 ^ 0). rewrite testbit_land by done.
  assert (Hnone : (if same && Z.testbit (h_httpauth h0) 0 then has_line lines (str "Authorization") else true) = true ->
    forall s', track k tr s' -> Q (Some ((List.filter (may_send same) (omap line_header lines) ++ extra lines (str "User-Agent") (h_user_agent h0)) ++
      extra lines (str "Range") (h_range h0))) s').
  { intros Hno s' H'. apply HQ; [done|right]. destruct (authorizes_some h0 s0) as [auth Ha]. exists auth. split; [done|]. f_equal.
    rewrite <- !app_assoc. do 3 f_equal. destruct (same && _); [|by rewrite app_nil_r].
    unfold extra. rewrite Hno. destruct auth; by rewrite app_nil_r. }
  destruct (same && Z.testbit (h_httpauth h0) 0) eqn:Eauth; [|wp_go; by apply Hnone].
  apply wpe_bind. eapply wp_headers_contain; [exact H1|by repeat constructor|].
  destruct (has_line lines (str "Authorization")) eqn:Ehas; [wp_go; by apply Hnone|].
  apply wpe_bind. eapply wp_basic_auth; [exact H1|]. intros [v|] s2 H2 Hv.
  - apply wpe_bind. eapply wp_free_if; [exact H2|]. intros s3 H3 _. wp_go.
    apply HQ; [tracked H3|right]. exists (Some v). split.
    + destruct Hv as (c & E1 & E2). exists c, (b64_encode c). split_and!; [done|done|apply b64_roundtrip].
    + f_equal. rewrite (extra_new _ _ _ Ehas). by rewrite <- !app_assoc.
  - wp_go. apply HQ; [tracked H2|right]. exists None. split; [exact Hv|]. f_equal. rewrite <- !app_assoc.
    change (extra lines _ None) with (@nil header). by rewrite app_nil_r.
Qed.

(** ** The headers of the response *)
(** why the headers may not be taken: no memory, or the header callback *)
Definition cut_short : Prop :=
  out_of_memory s0 \/ h_header_callback h0 <> 0 /\ exists hist data, w_header (net s0) hist data <> zlen data.
Lemma wp_deliver_header data k tr s (Q : bool -> Curl -> Prop) : track k tr s ->
  (forall b s', track k tr s' -> (b = true -> cut_short) -> Q b s') -> wp (curl_deliver_header p data) Q s.
Proof.
  intros Ht HQ. unfold curl_deliver_header. apply wpe_bind. eapply wp_debug; [exact Ht|]. intros s1 H1 _.
  apply wpe_bind. eapply wp_handle_get; [exact H1|]. intros h _ Hc. same h_header_callback Hc.
  apply wpe_if; intros Hcb; [wp_go; by apply HQ|].
  apply wpe_bind. unfold call_header. apply wpe_bind, wpe_get, wpe_bind. eapply wp_log; [exact H1|].
  intros s2 H2 _. wp_go. rewrite (track_world _ _ _ _ _ _ H1). apply HQ; [cbn [visible] in H2; by rewrite app_nil_r in H2|].
  intros Hne. right. split; [lia|]. exists (history s1), data. lia.
Qed.
Lemma wp_process_header key value k tr s (Q : bool -> Curl -> Prop) : track k tr s ->
  (forall b s', track k tr s' -> (b = true -> cut_short) -> Q b s') -> wp (process_header p key value) Q s.
Proof.
  intros Ht HQ. unfold process_header. cbv zeta. apply wpe_bind. eapply wp_malloc; [exact Ht|].
  intros [] s1 H1 Hoom; cbn [negb]; [|wp_go; apply HQ; [tracked H1|left; auto]].
  apply wpe_bind. eapply wp_deliver_header; [exact H1|]. intros failed s2 H2 Hshort.
  apply wpe_bind. eapply wp_free_if; [exact H2|]. intros s3 H3 _.
  assert (Ht3 : track k tr s3) by tracked H3.
  apply wpe_if; intros Hf; [wp_go; apply HQ; auto|]. apply wpe_if; intros _.
  { eapply wp_replace_string; [exact Ht3|done|intros v h; unfold owned; cbn; lia|].
    intros b s4 H4 Hoom4. apply HQ; [done|left; auto]. }
  apply wpe_if; intros _; [|wp_go; by apply HQ].
  apply wpe_bind. eapply wp_handle_set; [exact Ht3|done|done|]. intros s4 H4 _. wp_go. by apply HQ.
Qed.
Lemma wp_process_headers hs k tr s (Q : bool -> Curl -> Prop) : track k tr s ->
  (forall b s', track k tr s' -> (b = true -> cut_short) -> Q b s') -> wp (process_headers p hs) Q s.
Proof.
  intros Ht HQ. revert s Ht. induction hs as [|[[key|] [value|]] hs IH]; intros s Ht; cbn [process_headers];
    [wp_go; by apply HQ| |by apply IH..].
  apply wpe_bind. eapply wp_process_header; [exact Ht|]. intros [] s1 H1 Hs; [wp_go; apply HQ; auto|by apply IH].
Qed.
Lemma wp_process_response_headers resp k tr s (Q : bool -> Curl -> Prop) : track k tr s ->
  (forall b s', track k tr s' -> (b = true -> cut_short) -> Q b s') -> wp (curl_process_response_headers p resp) Q s.
Proof.
  intros Ht HQ. unfold curl_process_response_headers. apply wpe_bind. eapply wp_deliver_header; [exact Ht|].
  intros [] s1 H1 Hs1; [wp_go; apply HQ; auto|]. apply wpe_bind. eapply wp_process_headers; [exact H1|].
  intros [] s2 H2 Hs2; [wp_go; apply HQ; auto|]. by eapply wp_deliver_header.
Qed.
(** the codes of curl.h that the error numbers of the HTTP client stand for *)
Definition known_errors : list (Z * Z) :=
  [(2, CURLE_URL_MALFORMAT); (8, CURLE_OUT_OF_MEMORY); (10, CURLE_COULDNT_RESOLVE_HOST); (11, CURLE_COULDNT_RESOLVE_HOST);
   (6, CURLE_READ_ERROR); (15, CURLE_READ_ERROR); (16, CURLE_READ_ERROR); (20, CURLE_READ_ERROR)].
Definition tls_error (resp : response) : Prop :=
  In (r_error_code resp) [17; 18] /\ exists url, h_url h0 = Some url /\ has_scheme (str "https://") url.
Definition timed_out (resp : response) : Prop :=
  exists before after, r_error_msg resp = Some (before ++ str "timeout" ++ after).
(** [failure resp code]: the failed request [resp] is reported as [code] *)
Inductive failure (resp : response) : Z -> Prop :=
  | failure_known code : In (r_error_code resp, code) known_errors -> failure resp code
  | failure_tls : tls_error resp -> failure resp CURLE_SSL_CONNECT_ERROR
  | failure_timeout : ~ In (r_error_code resp) (map fst known_errors) -> ~ tls_error resp -> timed_out resp ->
      failure resp CURLE_OPERATION_TIMEDOUT
  | failure_connect : ~ In (r_error_code resp) (map fst known_errors) -> ~ tls_error resp -> ~ timed_out resp ->
      failure resp CURLE_COULDNT_CONNECT.
Lemma strstr_spec s sub : is_some (strstr s sub) = true <-> exists a b, s = a ++ sub ++ b.
Proof.
  induction s as [|x s IH]; cbn [strstr].
  - destruct (prefixb sub []) eqn:E.
    + split; [|done]. intros _. exists [], []. by destruct sub.
    + split; [done|]. intros (a & b & H). destruct a, sub; try done.
  - destruct (prefixb sub (x :: s)) eqn:E.
    + split; [|done]. intros _. apply prefixb_spec in E as [b ->]. by exists [], b.
    + rewrite IH. split; [intros (a & b & ->); by exists (x :: a), b|].
      intros ([|y a] & b & H); [|injection H as -> ->; eauto]. exfalso. cbn [app] in H.
      assert (prefixb sub (x :: s) = true) by (apply prefixb_spec; by exists b). congruence.
Qed.
Lemma https_spec url : ncaseeq 8 url https = true <-> has_scheme (str "https://") url.
Proof. split; [intros H; exact (ncaseeq_spec 8 url https H)|intros H; by apply ncaseeq_complete]. Qed.
Lemma failure_spec resp : let code := r_error_code resp in failure resp
  (if code =? 2 then CURLE_URL_MALFORMAT
   else if code =? 8 then CURLE_OUT_OF_MEMORY
   else if (code =? 10) || (code =? 11) then CURLE_COULDNT_RESOLVE_HOST
   else if (code =? 6) || (code =? 15) || (code =? 16) || (code =? 20) then CURLE_READ_ERROR
   else if ((code =? 17) || (code =? 18)) && match h_url h0 with Some url => ncaseeq 8 url https | None => false end
     then CURLE_SSL_CONNECT_ERROR
   else if match r_error_msg resp with Some m => is_some (strstr m (str "timeout")) | None => false end
     then CURLE_OPERATION_TIMEDOUT
   else CURLE_COULDNT_CONNECT).
Proof.
  assert (Htls : ((r_error_code resp =? 17) || (r_error_code resp =? 18)) &&
    match h_url h0 with Some url => ncaseeq 8 url https | None => false end = true <-> tls_error resp).
  { unfold tls_error. destruct (h_url h0) as [url|]; rewrite andb_true_iff; cbn [In].
    - rewrite https_spec. split; [intros [H1 H2]; split; [lia|eauto]|intros [H1 (u & [= <-] & H2)]; split; [lia|done]].
    - split; [by intros []|by intros [_ (u & H & _)]]. }
  assert (Htime : match r_error_msg resp with Some m => is_some (strstr m (str "timeout")) | None => false end = true <->
    timed_out resp).
  { unfold timed_out. destruct (r_error_msg resp) as [m|]; [|by split; [|intros (a & b & H)]].
    rewrite strstr_spec. by split; intros (a & b & H); exists a, b; [rewrite H|injection H]. }
  cbv zeta. assert (Hin : forall c, In (r_error_code resp, c) known_errors -> failure resp c) by by constructor.
  revert Htls Htime Hin. unfold known_errors. cbn [In].
  generalize (((r_error_code resp =? 17) || (r_error_code resp =? 18)) &&
    match h_url h0 with Some url => ncaseeq 8 url https | None => false end).
  generalize (match r_error_msg resp with Some m => is_some (strstr m (str "timeout")) | None => false end).
  intros time tls Htls Htime Hin.
  assert (Hknown : forall n, r_error_code resp <> 2 -> r_error_code resp <> 8 -> r_error_code resp <> 10 ->
    r_error_code resp <> 11 -> r_error_code resp <> 6 -> r_error_code resp <> 15 -> r_error_code resp <> 16 ->
    r_error_code resp <> 20 -> n = r_error_code resp -> ~ In n (map fst known_errors)).
  { intros n. cbn. intros. lia. }
  destruct (Z.eqb_spec (r_error_code resp) 2) as [E|]; [apply Hin; rewrite E; auto|].
  destruct (Z.eqb_spec (r_error_code resp) 8) as [E|]; [apply Hin; rewrite E; auto|].
  destruct ((r_error_code resp =? 10) || (r_error_code resp =? 11)) eqn:E1.
  { apply Hin. apply orb_true_iff in E1 as [->%Z.eqb_eq | ->%Z.eqb_eq]; auto 10. }
  destruct ((r_error_code resp =? 6) || (r_error_code resp =? 15) || (r_error_code resp =? 16) || (r_error_code resp =? 20)) eqn:E2.
  { apply Hin. rewrite !orb_true_iff, !Z.eqb_eq in E2. destruct E2 as [[[-> | ->]| ->]| ->]; auto 10. }
  destruct tls; [apply failure_tls; tauto|]. assert (~ tls_error resp) by (rewrite <- Htls; discriminate).
  destruct time; [apply failure_timeout|apply failure_connect]; try done; try tauto; try (apply Hknown; lia).
Qed.
Lemma wp_map_response_error resp k tr s (Q : Z -> Curl -> Prop) : track k tr s ->
  (forall code s', track k tr s' -> failure resp code -> Q code s') -> wp (curl_map_response_error p resp) Q s.
Proof.
  intros Ht HQ. unfold curl_map_response_error. apply wpe_bind. eapply wp_handle_get; [exact Ht|]. intros h _ Hc.
  same h_url Hc. cbv zeta. apply wpe_bind. eapply wp_set_error; [done|exact Ht|]. intros s1 H1. wp_go. apply HQ; [done|].
  apply failure_spec.
Qed.

(** ** Sending *)
(** a request for [url], in a transfer that began with [url0] *)
Record sent (url0 url method : list Z) (body : option (list Z)) (q : request) : Prop := {
  sent_url : q_url q = url;
  sent_method : q_method q = method;
  sent_body : q_body q = body;
  sent_limits : q_max_redirections q = 0 /\ q_timeout q = 4000;
  sent_headers : exists ls auth, header_lines (slists s0) (h_headers h0) ls /\ authorizes h0 s0 auth /\
    q_headers q = request_headers h0 ls (bool_decide (origin url = origin url0)) auth
}.
Definition body_of (t : transfer) : option (list Z) := if t_has_body t then Some (content (t_body t)) else None.
Definition asked (q : request) (r : response) : list event :=
  [NewRequest (q_url q); Fetch q; GotResponse r; FreeRequest].
Definition fits (r : response) : Prop :=
  Forall (fun c => match c with Some d => zlen d <= 16384 | None => True end) (r_chunks r).
Lemma wp_send_request url0 t k tr s pa pb (Q : Z + response -> Curl -> Prop) : track k tr s ->
  curl_scheme_allowed (t_url t) pa = true -> curl_scheme_allowed url0 pb = true ->
  (forall s', track k tr s' -> (exists hist, w_request (net s0) hist = false) -> Q (inl CURLE_OUT_OF_MEMORY) s') ->
  (forall s', track k (tr ++ [NewRequest (t_url t); FreeRequest]) s' -> long_name lines -> Q (inl CURLE_OUT_OF_MEMORY) s') ->
  (forall q s', track k (tr ++ [NewRequest (q_url q); Fetch q; FreeRequest]) s' ->
     sent url0 (t_url t) (t_method t) (body_of t) q -> Q (inl CURLE_COULDNT_CONNECT) s') ->
  (forall q r s', track k (tr ++ asked q r) s' -> sent url0 (t_url t) (t_method t) (body_of t) q -> fits r ->
     Q (inr r) s') ->
  wp (send_request p url0 t) Q s.
Proof.
  intros Ht Ha Hb Hnone Hheaders Hanswer Hok. unfold send_request. apply wpe_bind, wpe_get.
  apply wpe_if; intros Hreq.
  { apply wpe_bind. eapply wp_memory_error; [done|exact Ht|]. intros s1 H1. wp_go. apply Hnone; [done|].
    exists (history s). rewrite <- (track_world _ _ _ _ _ _ Ht). by apply negb_true_iff. }
  apply wpe_bind. eapply wp_log; [exact Ht|]. intros s1 H1 _. cbn [visible] in H1.
  apply wpe_bind. eapply wp_add_request_headers; [exact H1|]. intros r s2 H2 Hhs.
  destruct Hhs as [[-> Hlong] | (auth & Hauth & ->)].
  1: { apply wpe_bind. eapply wp_log; [exact H2|]. intros s3 H3 _. rewrite <- app_assoc in H3.
       apply wpe_bind. eapply wp_memory_error; [done|exact H3|]. intros s4 H4. wp_go. by apply Hheaders. }
  cbv zeta. set (q := mkRequest _ _ _ _ _ _).
  assert (Hq : sent url0 (t_url t) (t_method t) (body_of t) q) by (split; try done; exists lines, auth; by rewrite <- (same_origin_iff (t_url t) url0 pa pb)).
  apply wpe_bind, wpe_get, wpe_bind. eapply wp_log; [exact H2|]. intros s3 H3 _. cbn [visible] in H3.
  rewrite (track_world _ _ _ _ _ _ H2). destruct (w_fetch (net s0) (history s2) q) as [r|] eqn:Er.
  - apply wpe_bind. eapply wp_log; [exact H3|]. intros s4 H4 _.
    apply wpe_bind. eapply wp_log; [exact H4|]. intros s5 H5 _. wp_go. apply (Hok q); [|done|exact (sane_chunks _ _ _ Er)].
    by rewrite <- !app_assoc in H5.
  - wp_go. eapply wp_log; [exact H3|]. intros s5 H5 _. rewrite <- !app_assoc in H5.
    apply wpe_bind. eapply wp_set_error; [done|exact H5|]. intros s6 H6. wp_go. by apply (Hanswer q).
Qed.
End request.
