(* ===== verification/CurlSession.v ===== *)
(** * curl shim: a transfer as a session of HTTP exchanges

    [session s h url0 l tr code]: starting a leg [l] (the URL, the method and
    body, the redirects and retries so far), a client that is set up as [h] in
    the state [s] may make the calls [tr] and end with [code].  The request of a
    leg is [sent]; [comes_to] says what its response comes to: which code, and
    what is written.  The leg is tried once more exactly if the code is one of
    [transient_codes], the method GET or POST and it is the first failure; a
    redirect that is followed starts the next leg; anything else ends the
    transfer.  Every request and response is freed.  It ends for want of memory
    only when malloc() or the client fails, a buffer would outgrow size_t, a
    header has too long a name or the header callback does not take what it is
    given.  The loop of curl_perform() is such a session and ends within
    [perform_fuel] turns. *)
From S2P Require Import CurlState CurlUrl CurlEasy CurlPerform CurlMulti CurlFrame CurlCodec.
From S2P Require Import CurlRedirect CurlBody CurlRequest Prelude.

Record leg := Leg { l_url : list Z; l_method : list Z; l_body : option (list Z); l_hops : Z; l_tries : Z }.

Section session.
Context (s : Curl) (h : CURL) (url0 : list Z).

(** the redirect that a response asks for and the options follow *)
Definition redirect_of (r : response) : option (list Z) :=
  if negb (h_followlocation h =? 0) && existsb (Z.eqb (i32 (r_status r))) [301; 302; 303; 307; 308] then r_location r else None.
Definition refused (r : response) : bool := negb (h_failonerror h =? 0) && (400 <=? i32 (r_status r)).
(** the leg after a redirect: 303 asks for a GET without a body, and so do 301 and
    302 unless bit 0 or bit 1 of CURLOPT_POSTREDIR is set *)
Definition becomes_get (r : response) : bool :=
  (i32 (r_status r) =? 303) ||
  (i32 (r_status r) =? 301) && negb (Z.testbit (h_postredir h) 0) ||
  (i32 (r_status r) =? 302) && negb (Z.testbit (h_postredir h) 1).
Definition next_leg (l : leg) (r : response) (location : list Z) : leg :=
  Leg (resolve (l_url l) location) (if becomes_get r then str "GET" else l_method l)
    (if becomes_get r then None else l_body l) (l_hops l + 1) (l_tries l).
Definition retry_leg (l : leg) : leg := Leg (l_url l) (l_method l) (l_body l) (l_hops l) (l_tries l + 1).

(** what a response that is not followed comes to: the code and what is written
    before that *)
Inductive comes_to (l : leg) (r : response) : Z -> list event -> Prop :=
  | comes_error code : r_error r = true -> failure h r code -> comes_to l r code []
  | comes_memory : r_error r = false -> cut_short h s -> comes_to l r CURLE_OUT_OF_MEMORY []
  | comes_hops location : r_error r = false -> redirect_of r = Some location -> h_maxredirs h <= l_hops l ->
      comes_to l r CURLE_TOO_MANY_REDIRECTS []
  | comes_protocol location : r_error r = false -> redirect_of r = Some location -> l_hops l < h_maxredirs h ->
      ~ permitted (h_redir_protocols h) (resolve (l_url l) location) -> comes_to l r CURLE_UNSUPPORTED_PROTOCOL []
  | comes_refused : r_error r = false -> redirect_of r = None -> refused r = true ->
      comes_to l r CURLE_HTTP_RETURNED_ERROR []
  | comes_delivered code ws : r_error r = false -> redirect_of r = None -> refused r = false ->
      delivery h (net s) r code ws -> comes_to l r code ws.
(** the failures after which a GET or a POST is tried once more *)
Definition transient_codes : list Z :=
  [CURLE_COULDNT_CONNECT; CURLE_READ_ERROR; CURLE_SSL_CONNECT_ERROR; CURLE_OPERATION_TIMEDOUT].
Definition tried_again (l : leg) (code : Z) : Prop :=
  In code transient_codes /\ In (l_method l) [str "GET"; str "POST"] /\ l_tries l < 1.

Inductive session : leg -> list event -> Z -> Prop :=
  | session_no_request l hist : w_request (net s) hist = false -> session l [] CURLE_OUT_OF_MEMORY
  | session_no_headers l lines : header_lines (slists s) (h_headers h) lines -> long_name lines -> session l [NewRequest (l_url l); FreeRequest] CURLE_OUT_OF_MEMORY
  | session_no_answer l q : sent h s url0 (l_url l) (l_method l) (l_body l) q ->
      session l [NewRequest (q_url q); Fetch q; FreeRequest] CURLE_COULDNT_CONNECT
  | session_end l q r ws code : sent h s url0 (l_url l) (l_method l) (l_body l) q -> comes_to l r code ws ->
      ~ tried_again l code -> session l (asked q r ++ ws ++ [FreeResponse]) code
  | session_retry l q r result tr code : sent h s url0 (l_url l) (l_method l) (l_body l) q -> comes_to l r result [] ->
      tried_again l result -> session (retry_leg l) tr code -> session l (asked q r ++ FreeResponse :: tr) code
  | session_redirect l q r location tr code : sent h s url0 (l_url l) (l_method l) (l_body l) q ->
      r_error r = false -> redirect_of r = Some location -> l_hops l < h_maxredirs h ->
      permitted (h_redir_protocols h) (resolve (l_url l) location) ->
      session (next_leg l r location) tr code -> session l (asked q r ++ FreeResponse :: tr) code.
End session.
Lemma becomes_get_spec h r : to_get (i32 (r_status r)) (h_postredir h) = becomes_get h r.
Proof.
  unfold to_get, becomes_get. generalize (i32 (r_status r)) as st. intros st.
  change CURL_REDIR_POST_301 with (2 ^ 0). change CURL_REDIR_POST_302 with (2 ^ 1).
  destruct (Z.eqb_spec st 303) as [->|]; [done|]. rewrite <- !testbit_land, !negb_involutive by done.
  destruct (Z.eqb_spec st 301) as [->|]; cbn [orb andb]; [by rewrite orb_false_r|done].
Qed.
Lemma is_redirect_spec st : is_redirect st = existsb (Z.eqb st) [301; 302; 303; 307; 308].
Proof. unfold is_redirect. cbn [existsb]. by rewrite orb_false_r, !orb_assoc. Qed.

(** ** The loop is a session *)
Definition leg_of (t : transfer) : leg := Leg (t_url t) (t_method t) (body_of t) (t_redirects t) (t_retries t).
(** the blocks that the local variables of curl_perform() hold *)
Definition held_by (t : transfer) : Z := held (t_body t) + held (t_response t) + 1.

(** [kept H]: the block count of [H], with the buffers of the transfer *)
Ltac kept H := eapply track_eq; [exact H|unfold held_by, count_some; cbn; lia|done].

Section loop.
Context (p : Z) (h0 : CURL) (s0 : Curl) (url0 : list Z).
Hypothesis Hus : usable h0 s0.
Context `{Hw : sane_world (net s0)}.
Abbreviation track v := (track p (with_code v h0) s0).
Context (pb : Z).
Hypothesis Hurl0 : curl_scheme_allowed url0 pb = true.
Abbreviation session := (session s0 h0 url0).
Abbreviation comes_to := (comes_to s0 h0).
Abbreviation sent := (sent h0 s0).
Abbreviation cut_short := (cut_short h0 s0).

Record going (t : transfer) : Prop := {
  going_body : sound (t_body t);
  going_response : sound (t_response t);
  going_hops : 0 <= t_redirects t <= Z.max 0 (h_maxredirs h0);
  going_tries : 0 <= t_retries t <= 1;
  going_url : exists protocols, curl_scheme_allowed (t_url t) protocols = true
}.
Definition left_ (t : transfer) : Z := Z.max 0 (h_maxredirs h0) - t_redirects t + (1 - t_retries t).

(** what a turn that started with [t] and the calls [tr] does: it ends the
    session, or goes on with a session that has less to do *)
Definition turn (t : transfer) (tr : list event) (r : transfer + Z * transfer) (s : Curl) : Prop :=
  match r with
  | inl t' => exists v pre, track v (held_by t') (tr ++ pre) s /\ going t' /\ left_ t' < left_ t /\
      forall tr' code, session (leg_of t') tr' code -> session (leg_of t) (pre ++ tr') code
  | inr (code, t') => exists v tr', track v (held_by t') (tr ++ tr') s /\ sound (t_body t') /\ sound (t_response t') /\
      session (leg_of t) tr' code
  end.

(** the codes that are tried again are what the loop compares with *)
Lemma transient_spec code : (code =? CURLE_COULDNT_CONNECT) || (code =? CURLE_READ_ERROR) ||
  (code =? CURLE_SSL_CONNECT_ERROR) || (code =? CURLE_OPERATION_TIMEDOUT) = true <-> In code transient_codes.
Proof. rewrite !orb_true_iff, !Z.eqb_eq. cbn [transient_codes In]. intuition congruence. Qed.
(** nothing was written before a failure that is tried again *)
Lemma comes_quiet l r code ws : comes_to l r code ws -> In code transient_codes -> ws = [].
Proof.
  intros [| | | | |code' ws' _ _ _ Hd] Hin; try done. destruct Hd as [| | |hist data Hn Hb Hdata]; try done.
  exfalso. revert Hin. destruct (_ =? _); cbn; intuition discriminate.
Qed.
(** the end of a turn that got the response [r] and has written [ws] *)
Lemma turn_retry t t' tr q r ws code v s :
  track v (held_by t') (tr ++ asked q r ++ ws ++ [FreeResponse]) s -> going t' -> leg_of t' = leg_of t ->
  sent url0 (t_url t) (t_method t) (body_of t) q -> comes_to (leg_of t) r code ws ->
  turn t tr (retry_or_stop code t') s.
Proof.
  intros Ht [G1 G2 G3 G4 G5] El Hs Ho. pose proof El as E0. injection El as Eu Em Eb Eh Et. unfold retry_or_stop.
  destruct ((streq _ _ || _) && _ && _) eqn:E.
  - rewrite !andb_true_iff, transient_spec, orb_true_iff, !streq_spec, Z.ltb_lt, Em, Et in E.
    destruct E as [[Hm Hr] Hc]. pose proof (comes_quiet _ _ _ _ Ho Hc) as ->.
    exists v, (asked q r ++ [FreeResponse]). split_and!; [exact Ht| | |].
    + split; try done. cbn. lia.
    + unfold left_. cbn. rewrite Eh. lia.
    + intros tr' code' H. rewrite <- app_assoc. eapply session_retry; [exact Hs|exact Ho| |].
      * split_and!; [done|cbn; intuition congruence|cbn; lia].
      * unfold leg_of, retry_leg in *. cbn in *. unfold body_of in *. cbn in H. by rewrite Eu, Em, Eb, Eh, Et in H.
  - exists v, (asked q r ++ ws ++ [FreeResponse]). split_and!; [exact Ht|done|done|]. eapply session_end; [done|done|].
    intros (Hc & Hm & Hr). apply transient_spec in Hc. cbn [leg_of l_method l_tries In] in Hm, Hr.
    rewrite Hc, Et, (proj2 (Z.ltb_lt _ _) Hr), !andb_true_r, Em in E.
    apply orb_false_iff in E as [E1 E2]. rewrite <- !not_true_iff_false, !streq_spec in E1, E2. intuition congruence.
Qed.
(** a session may end after any response with a failure that is not tried again *)
Lemma turn_failed t t' tr q r code v s :
  track v (held_by t') (tr ++ asked q r ++ [FreeResponse]) s -> sound (t_body t') -> sound (t_response t') ->
  sent url0 (t_url t) (t_method t) (body_of t) q -> comes_to (leg_of t) r code [] ->
  existsb (Z.eqb code) transient_codes = false ->
  turn t tr (inr (code, t')) s.
Proof.
  intros Ht Hb Hr Hs Ho Hc. exists v, (asked q r ++ [] ++ [FreeResponse]). split_and!; try done.
  apply session_end; [done|done|]. intros [Hin _]. apply not_true_iff_false in Hc. apply Hc, existsb_exists.
  exists code. split; [done|apply Z.eqb_refl].
Qed.

(** the status that a response leaves in the handle has no part in its outcome *)
Lemma failure_with_code v r code : failure (with_code v h0) r code -> failure h0 r code.
Proof. intros []; [by apply failure_known|by apply failure_tls|by apply failure_timeout|by apply failure_connect]. Qed.
Lemma sent_with_code v url method body q : CurlRequest.sent (with_code v h0) s0 url0 url method body q -> sent url0 url method body q.
Proof. intros [H1 H2 H3 H4 H5]. by split. Qed.
Lemma delivery_with_code v r code ws : delivery (with_code v h0) (net s0) r code ws -> delivery h0 (net s0) r code ws.
Proof. intros [| | |hist data H1 H2 H3]; [by apply delivery_nobody|by apply delivery_broken|by apply delivery_memory|].
  exact (delivery_written h0 (net s0) r hist data H1 H2 H3). Qed.
Lemma wp_follow_redirect t tr q r location v s :
  track v (held_by t) (tr ++ asked q r) s -> going t -> sent url0 (t_url t) (t_method t) (body_of t) q ->
  r_error r = false -> redirect_of h0 r = Some location ->
  wp (follow_redirect p (i32 (r_status r)) location t) (turn t tr) s.
Proof.
  intros Ht G Hs Herr Hr. destruct G as [G1 G2 G3 G4 [pr G5]].
  assert (Hu : usable (with_code v h0) s0) by by apply usable_with_code.
  unfold follow_redirect. apply wpe_bind. eapply wp_handle_get; [exact Ht|]. intros h _ Hc. cbv zeta.
  same h_maxredirs Hc. same h_redir_protocols Hc. same h_postredir Hc. change (h_postredir (with_code v h0)) with (h_postredir h0).
  rewrite becomes_get_spec.
  apply wpe_if; intros Hmax.
  { apply wpe_bind. eapply wp_log; [exact Ht|]. intros s1 H1 _. rewrite <- app_assoc in H1.
    apply wpe_bind. eapply wp_set_error; [exact Hu|exact H1|]. intros s2 H2. wp_go.
    eapply turn_failed; [exact H2|done|done|exact Hs|eapply comes_hops; [done|exact Hr|cbn; lia]|done]. }
  apply wpe_bind. eapply wp_redirect_url; [exact Ht|exact G5|]. intros next s1 H1 [-> | [-> Hoom]].
  2: { apply wpe_bind. eapply wp_log; [exact H1|]. intros s2 H2 _. rewrite <- app_assoc in H2.
       apply wpe_bind. eapply wp_memory_error; [exact Hu|exact H2|]. intros s3 H3. wp_go.
       eapply turn_failed; [kept H3|done|done|exact Hs|apply comes_memory; [done|by left]|done]. }
  apply wpe_if; intros Hall.
  { apply wpe_bind. eapply wp_free_if; [exact H1|]. intros s2 H2 _.
    apply wpe_bind. eapply wp_log; [exact H2|]. intros s3 H3 _. rewrite <- app_assoc in H3.
    apply wpe_bind. eapply wp_set_error; [exact Hu|exact H3|]. intros s4 H4. wp_go.
    apply Z.leb_gt in Hmax.
    eapply turn_failed; [kept H4|done|done|exact Hs|eapply comes_protocol; [done|exact Hr|exact Hmax|]|done].
    rewrite <- scheme_permitted. cbn [leg_of l_url]. intros E. change (t_url (set_t_redirects _ _)) with (t_url t) in Hall. by rewrite E in Hall. }
  apply negb_false_iff, scheme_permitted in Hall. apply Z.leb_gt in Hmax.
  apply wpe_bind. eapply wp_free_if; [exact H1|]. intros s2 H2 _.
  apply wpe_bind. eapply wp_log; [exact H2|]. intros s3 H3 _. rewrite <- app_assoc in H3. wp_go.
  exists v, (asked q r ++ [FreeResponse]). split_and!.
  - eapply track_eq; [exact H3| |done]. unfold held_by, count_some, held. cbn. destruct (becomes_get _ _); cbn; lia.
  - split; cbn; [destruct (becomes_get _ _); [by apply sound_reset|done]|done|lia|lia|].
    eexists. by apply scheme_permitted.
  - unfold left_. cbn. lia.
  - intros tr' code H. rewrite <- app_assoc. eapply session_redirect; [exact Hs|done|exact Hr|done|done|].
    unfold leg_of, next_leg in *. cbn in *. unfold body_of in *. cbn in H.
    destruct (becomes_get _ _); exact H.
Qed.

Lemma wp_handle_response t tr q r v s :
  track v (held_by t) (tr ++ asked q r) s -> going t -> sent url0 (t_url t) (t_method t) (body_of t) q ->
  r_error r = false -> fits r -> wp (handle_response p r t) (turn t tr) s.
Proof.
  intros Ht G Hs Herr Hfit. unfold handle_response.
  apply wpe_bind. eapply wp_set_response_code; [exact Ht|]. clear s Ht. intros s Ht.
  change (with_code (r_status r) (with_code v h0)) with (with_code (r_status r) h0) in Ht.
  assert (Hu : usable (with_code (r_status r) h0) s0) by by apply usable_with_code.
  assert (Hmem : forall s, track (r_status r) (held_by t) (tr ++ asked q r) s -> cut_short ->
    wp (log FreeResponse ;; c <- curl_memory_error p ;; ret (inr (c, t))) (turn t tr) s).
  { intros s1 H1 Hcut. apply wpe_bind. eapply wp_log; [exact H1|]. intros s2 H2 _. rewrite <- app_assoc in H2.
    apply wpe_bind. eapply wp_memory_error; [exact Hu|exact H2|]. intros s3 H3. wp_go.
    by eapply turn_failed; [exact H3|apply G..|exact Hs|by apply comes_memory|done]. }
  apply wpe_bind. eapply wp_replace_string; [exact Ht|done|intros w h; unfold owned; cbn; lia|].
  intros failed s1 H1 Hoom. apply wpe_if; intros Hf; [apply Hmem; [done|left; auto]|].
  apply wpe_bind. eapply wp_process_response_headers; [exact H1|].
  intros failed' s2 H2 Hcut. apply wpe_if; intros Hf'; [apply Hmem; [done|by apply Hcut]|].
  apply wpe_bind. eapply wp_handle_get; [exact H2|]. intros h _ Hc. cbv zeta.
  same h_response_code Hc. same h_followlocation Hc. same h_failonerror Hc.
  change (h_response_code (with_code (r_status r) h0)) with (r_status r).
  rewrite is_redirect_spec.
  change (if negb (h_followlocation h0 =? 0) && existsb (Z.eqb (i32 (r_status r))) [301; 302; 303; 307; 308] then r_location r else None)
    with (redirect_of h0 r).
  destruct (redirect_of h0 r) as [location|] eqn:El; [by eapply wp_follow_redirect|].
  change (negb (h_failonerror h0 =? 0) && (400 <=? i32 (r_status r))) with (refused h0 r).
  apply wpe_if; intros Eref.
  - apply wpe_bind. eapply wp_set_error; [exact Hu|exact H2|]. intros s3 H3.
    apply wpe_bind. eapply wp_log; [exact H3|]. intros s4 H4 _. rewrite <- app_assoc in H4. wp_go.
    eapply (turn_retry _ _ _ q r []); [exact H4|done|done|done|by apply comes_refused].
  - apply wpe_bind. eapply wp_deliver_body; [exact Hu|exact H2|apply G|exact Hfit|].
    intros code b ws s3 H3 Hb Hd. apply wpe_bind. eapply wp_log; [exact H3|]. intros s4 H4 _. wp_go. cbn [fst snd].
    rewrite <- !app_assoc in H4. destruct G as [G1 G2 G3 G4 G5].
    eapply (turn_retry _ _ _ q r ws); [kept H4|by split|done|done|].
    apply comes_delivered; [done|done|done|by eapply delivery_with_code].
Qed.

Lemma wp_perform_step t tr v s : track v (held_by t) tr s -> going t -> wp (perform_step p url0 t) (turn t tr) s.
Proof.
  intros Ht G. unfold perform_step. destruct G as [G1 G2 G3 G4 G5] eqn:EG. clear EG.
  assert (Hu : usable (with_code v h0) s0) by by apply usable_with_code.
  destruct (us_headers _ _ Hu) as [hl Hhl], (header_lines_exist _ _ _ Hhl) as [lines Hlines], G5 as [pa G5].
  apply wpe_bind. eapply wp_send_request; [exact Hu|exact Hw|exact Hlines|exact Ht|exact G5|exact Hurl0|..].
  - intros s1 H1 [hist Hw']. wp_go. exists v, []. rewrite app_nil_r. split_and!; [done..|by eapply session_no_request].
  - intros s1 H1 Hlong. wp_go. exists v, [NewRequest (t_url t); FreeRequest]. split_and!; [done..|].
    by apply (session_no_headers _ _ _ (leg_of t) lines).
  - intros q s1 H1 Hq%sent_with_code. wp_go. eexists v, _. split_and!; [exact H1|done|done|]. by apply session_no_answer.
  - intros q r s1 H1 Hq%sent_with_code Hfit.
    apply wpe_if; intros Herr; [|by eapply wp_handle_response].
    apply wpe_bind. eapply wp_map_response_error; [exact Hu|exact H1|]. intros code s2 H2 Hc.
    apply wpe_bind. eapply wp_log; [exact H2|]. intros s3 H3 _. rewrite <- app_assoc in H3. wp_go.
    eapply (turn_retry _ _ _ q r []); [exact H3|exact G|done|done|apply comes_error; [done|by eapply failure_with_code]].
Qed.

(** the loop: a session, within the bound *)
Lemma wp_perform_loop n t tr v s : track v (held_by t) tr s -> going t -> left_ t < Z.of_nat n ->
  wp (iter n (perform_step p url0) t) (fun r s' => turn t tr (inr r) s') s.
Proof.
  revert t tr v s. induction n as [|n IH]; intros t tr v s Ht G Hn.
  { destruct G. unfold left_ in Hn. lia. }
  cbn [iter]. apply wpe_bind. eapply wpe_mono; [by eapply wp_perform_step|].
  intros [t'|[code t']] s1; cbn beta iota; [|by intros H; wp_go].
  intros (v1 & pre & H1 & G1 & Hlt & Hses).
  eapply wpe_mono; [eapply IH; [exact H1|exact G1|lia]|].
  intros [code t2] s2 (v2 & tr' & H2 & Hb & Hr & Hs). exists v2, (pre ++ tr').
  rewrite app_assoc. split_and!; [done..|by apply Hses].
Qed.
End loop.

(** ** curl shim: curl_easy_perform() as a whole

    A handle that is set up as libcurl asks for is taken through one transfer:
    what is refused before anything is sent, else a session that starts with
    the URL, the method and the body of the handle. *)

Section transfer.
Context (p : Z) (h0 : CURL) (s0 : Curl).
Hypothesis Hus : usable h0 s0.
Context `{Hw : sane_world (net s0)}.
Abbreviation track v := (track p (with_code v h0) s0).

Lemma wp_clear_results s (Q : unit -> Curl -> Prop) : CurlFrame.track p h0 s0 0 [] s ->
  (forall s', track 0 0 [] s' -> Q tt s') -> wp (curl_clear_transfer_results p) Q s.
Proof.
  intros Ht HQ. unfold curl_clear_transfer_results. apply wpe_bind. eapply wp_handle_get; [exact Ht|]. intros h Hh Hc.
  eapply (wp_free_set p h0 h0); [exact Ht|exact Hh|exact Hc|unfold owned; cbn; change (count_some None) with 0; lia|done|done|].
  intros s1 H1 Hh1.
  eapply (wp_free_set p h0 (with_code 0 h0)); [exact H1|exact Hh1| |unfold owned; cbn; change (count_some None) with 0; lia|done|done|].
  { exact (f_equal (fun h => set_h_response_code 0 h) Hc). }
  intros s2 H2 Hh2. same h_error_buffer Hc. apply wpe_when; intros Hb; [|by apply HQ].
  eapply (wp_mem_set p (with_code 0 h0)); [by apply usable_with_code|exact H2|cbn; lia|cbv; done|].
  done.
Qed.

(** what is refused before anything is sent *)
Definition unsupported : Prop :=
  h_unsupported_option h0 <> 0 \/ h_resolve h0 <> 0 \/
  (exists x, h_proxy h0 = Some x /\ x <> []) \/ (exists x, h_cookie_file h0 = Some x /\ x <> []).
Definition unverified (url : list Z) : Prop :=
  has_scheme (str "https://") url /\ (h_ssl_verifypeer h0 = 0 \/ h_ssl_verifyhost h0 = 0).
Inductive declined : Z -> Prop :=
  | declined_no_url : h_url h0 = None -> declined CURLE_URL_MALFORMAT
  | declined_option url : h_url h0 = Some url -> unsupported -> declined CURLE_NOT_BUILT_IN
  | declined_protocol url : h_url h0 = Some url -> ~ unsupported -> ~ permitted (h_protocols h0) url ->
      declined CURLE_UNSUPPORTED_PROTOCOL
  | declined_certificate url : h_url h0 = Some url -> ~ unsupported -> permitted (h_protocols h0) url -> unverified url ->
      declined CURLE_SSL_CERTPROBLEM.
(** the method of the first request *)
Inductive first_method : list Z -> Prop :=
  | first_custom m : h_custom_request h0 = Some m -> first_method m
  | first_put : h_custom_request h0 = None -> h_upload h0 <> 0 -> first_method (str "PUT")
  | first_post : h_custom_request h0 = None -> h_upload h0 = 0 -> h_post h0 <> 0 -> first_method (str "POST")
  | first_head : h_custom_request h0 = None -> h_upload h0 = 0 -> h_post h0 = 0 -> h_nobody h0 <> 0 ->
      first_method (str "HEAD")
  | first_get : h_custom_request h0 = None -> h_upload h0 = 0 -> h_post h0 = 0 -> h_nobody h0 = 0 ->
      first_method (str "GET").
Lemma first_method_spec : first_method (choose_method h0).
Proof.
  unfold choose_method. destruct (h_custom_request h0) as [m|] eqn:E; [by apply first_custom|].
  destruct (Z.eqb_spec (h_upload h0) 0); [|by apply first_put]. destruct (Z.eqb_spec (h_post h0) 0); [|by apply first_post].
  by destruct (Z.eqb_spec (h_nobody h0) 0); [apply first_get|apply first_head].
Qed.
(** the body that the first request has, if one is known *)
Definition first_body (body : option (list Z)) : Prop :=
  if h_post_fields h0 =? 0 then h_read_callback h0 = 0 -> body = None else body = Some (post_data h0 s0).
(** a transfer: refused, or without a body or the memory for it, or a session *)
Inductive transferred : list event -> Z -> Prop :=
  | transferred_declined code : declined code -> transferred [] code
  | transferred_no_body code : (forall c, ~ declined c) -> collected h0 s0 code -> code <> CURLE_OK -> transferred [] code
  | transferred_no_memory : (forall c, ~ declined c) -> out_of_memory s0 -> transferred [] CURLE_OUT_OF_MEMORY
  | transferred_session url method body tr code : h_url h0 = Some url -> (forall c, ~ declined c) ->
      first_method method -> first_body body -> session s0 h0 url (Leg url method body 0 0) tr code -> transferred tr code.
Lemma nonempty_spec x : nonempty x = true <-> exists y, x = Some y /\ y <> [].
Proof.
  destruct x as [[|c y]|]; cbn; split; try done; [by intros (y & [= <-] & H)|intros _; by eexists|by intros (y & H & _)].
Qed.
Lemma refusal_spec url : h_url h0 = Some url ->
  match refusal h0 url with Some (code, _) => declined code | None => permitted (h_protocols h0) url /\ forall c, ~ declined c end.
Proof.
  intros Hurl. unfold refusal.
  destruct (negb (h_unsupported_option h0 =? 0) || nonempty (h_proxy h0) || (nonempty (h_cookie_file h0) || negb (h_resolve h0 =? 0)))
    eqn:Eu.
  - assert (declined CURLE_NOT_BUILT_IN).
    { apply (declined_option url Hurl). unfold unsupported. rewrite <- (nonempty_spec (h_proxy h0)), <- (nonempty_spec (h_cookie_file h0)).
      rewrite !orb_true_iff, !negb_true_iff, !Z.eqb_neq in Eu. tauto. }
    destruct (negb (h_unsupported_option h0 =? 0)); [done|]. destruct (nonempty (h_proxy h0)); [done|].
    cbn [orb] in Eu. by rewrite Eu.
  - assert (Hns : ~ unsupported). { unfold unsupported. rewrite <- (nonempty_spec (h_proxy h0)), <- (nonempty_spec (h_cookie_file h0)).
      apply not_true_iff_false in Eu. rewrite !orb_true_iff, !negb_true_iff, !Z.eqb_neq in Eu. tauto. }
    apply orb_false_iff in Eu as [[-> ->]%orb_false_iff ->].
    destruct (curl_scheme_allowed url (h_protocols h0)) eqn:Ep; cbn [negb].
    2: { apply (declined_protocol url Hurl Hns). rewrite <- scheme_permitted. by rewrite Ep. }
    assert (Hv : ncaseeq 8 url https && ((h_ssl_verifypeer h0 =? 0) || (h_ssl_verifyhost h0 =? 0)) = true <-> unverified url).
    { unfold unverified. rewrite andb_true_iff, https_spec, orb_true_iff, !Z.eqb_eq. done. }
    destruct (ncaseeq 8 url https && _).
    + apply (declined_certificate url Hurl Hns); [by apply scheme_permitted|by apply Hv].
    + split; [by apply scheme_permitted|]. intros c Hc. destruct Hc as [Hu|u Hu Hs|u Hu Hs Hp|u Hu Hs Hp Hun]; try congruence.
      * apply Hp. assert (u = url) as -> by congruence. by apply scheme_permitted.
      * assert (u = url) as -> by congruence. by apply Hv in Hun.
Qed.

Lemma wp_free_buffer b v k tr s (Q : unit -> Curl -> Prop) : track v k tr s ->
  (forall s', track v (k - held b) tr s' -> Q tt s') -> wp (free_buffer b) Q s.
Proof.
  intros Ht HQ. unfold free_buffer. eapply wp_free_if; [exact Ht|]. intros s1 H1 _. apply HQ.
  eapply track_eq; [exact H1| |done]. unfold held. destruct (b_capacity b =? 0); cbn; lia.
Qed.
Lemma wp_perform v s (Q : Z -> Curl -> Prop) : track v 0 [] s ->
  (forall code v' tr s', track v' 0 tr s' -> transferred tr code -> Q code s') -> wp (curl_perform p) Q s.
Proof.
  intros Ht HQ. unfold curl_perform. apply wpe_bind. eapply wp_handle_get; [exact Ht|]. intros h _ Hc.
  assert (Hu : usable (with_code v h0) s0) by by apply usable_with_code.
  same h_url Hc. destruct (h_url h0) as [url|] eqn:Eurl; [|wp_go; eapply HQ; [exact Ht|by apply transferred_declined, declined_no_url]].
  replace (refusal h url) with (refusal h0 url) by (symmetry; exact (f_equal (fun h => refusal h url) Hc)).
  replace (choose_method h) with (choose_method h0) by (symmetry; exact (f_equal choose_method Hc)).
  pose proof (refusal_spec url Eurl) as Hrefusal. destruct (refusal h0 url) as [[code m]|].
  { apply wpe_bind. eapply wp_set_error; [exact Hu|exact Ht|]. intros s1 H1. wp_go.
    eapply HQ; [exact H1|]. by apply transferred_declined. }
  destruct Hrefusal as [Hperm Hnd].
  apply wpe_bind. eapply wp_collect; [exact Hu|exact Hw|exact Ht|exact sound_empty|done|].
  intros code body s1 H1 Hb Hcoll Hpost. cbn [fst snd].
  apply wpe_if; intros Ec.
  { apply wpe_bind. eapply wp_free_buffer; [exact H1|]. intros s2 H2. wp_go.
    eapply HQ; [|apply transferred_no_body; [done|exact Hcoll|lia]]. eapply track_eq; [exact H2|change (held empty_buffer) with 0; lia|done]. }
  apply negb_false_iff, Z.eqb_eq in Ec as ->. specialize (Hpost eq_refl).
  apply wpe_bind. eapply wp_strdup; [exact H1|]. intros copy s2 H2 Hcopy.
  destruct copy as [current|].
  2: { apply wpe_bind. eapply wp_free_buffer; [exact H2|]. intros s3 H3. eapply wp_memory_error; [exact Hu|exact H3|].
       intros s4 H4. eapply HQ; [|apply transferred_no_memory; [done|by destruct Hcopy as [Hcopy|[_ Hcopy]]]]. eapply track_eq; [exact H4| |done].
       change (held empty_buffer) with 0. unfold count_some. cbn [is_some]. lia. }
  assert (current = url) as -> by (destruct Hcopy as [E|[E _]]; congruence). cbv zeta.
  same h_maxredirs Hc. same h_post_fields Hc. same h_read_callback Hc.
  apply wpe_bind. eapply wpe_mono.
  { eapply (wp_perform_loop p h0 s0 url Hus (h_protocols h0) ltac:(by apply scheme_permitted) _ _ []); [| |].
    - eapply track_eq; [exact H2| |done]. unfold held_by, count_some. cbn.
      change (held empty_buffer) with 0. lia.
    - split; cbn; [done|exact sound_empty|lia|lia|].
      exists (h_protocols h0). by apply scheme_permitted.
    - unfold left_, perform_fuel. cbn. lia. }
  intros [code t'] s3 (v' & tr & H3 & Hb' & Hr' & Hses). cbn [fst snd app] in *.
  apply wpe_bind. eapply wp_free_buffer; [exact H3|]. intros s4 H4.
  apply wpe_bind. eapply wp_free_if; [exact H4|]. intros s5 H5 _.
  apply wpe_bind. eapply wp_free_buffer; [exact H5|]. intros s6 H6. wp_go.
  eapply HQ; [eapply track_eq; [exact H6|unfold held_by; lia|done]|]. apply (transferred_session url (choose_method h0) (body_of
    (mkTransfer url 0 0 (choose_method h0) (negb (h_post_fields h0 =? 0) || negb (h_read_callback h0 =? 0)) body empty_buffer)));
    [done|done|exact first_method_spec| |exact Hses].
  unfold first_body, body_of. cbn [t_has_body t_body].
  destruct (Z.eqb_spec (h_post_fields h0) 0) as [|Hne]; cbn [negb orb]; [by intros -> | by rewrite Hpost].
Qed.

(** the handle afterwards *)
Definition settings (h : CURL) : CURL := config (with_code 0 h).
Record performed (code : Z) (tr : list event) (s : Curl) : Prop := {
  pf_handle : exists h, handles s = <[p := h]> (handles s0) /\ settings h = settings h0 /\
    h_result h = code /\ h_completed h = 1 /\ live s - owned h = live s0 - owned h0;
  pf_same : multis s = multis s0 /\ nodes s = nodes s0 /\ slists s = slists s0 /\ brk s = brk s0 /\ net s = net s0;
  pf_mem : length <$> cmem s = length <$> cmem s0 /\
    forall q, q <> h_error_buffer h0 -> cmem s !! q = cmem s0 !! q;
  pf_net : List.filter visible (history s) = List.filter visible (history s0) ++ tr
}.
(** curl_easy_perform() returns, and has done one transfer *)
Lemma wp_easy_perform : p <> 0 -> handles s0 !! p = Some h0 ->
  wp (curl_easy_perform p) (fun code s' => exists tr, performed code tr s' /\ transferred tr code) s0.
Proof.
  intros Hp Hh. unfold curl_easy_perform. rewrite (proj2 (Z.eqb_neq _ _) Hp).
  apply wpe_bind. eapply wp_clear_results; [by apply track_refl|]. intros s1 H1.
  apply wpe_bind. eapply wp_perform; [exact H1|]. intros code v tr s2 H2 Htr.
  apply wpe_bind. eapply wp_handle_set; [exact H2|done|done|]. intros s3 H3 E3.
  apply wpe_bind. eapply wp_handle_set; [exact H3|done|done|]. intros s4 H4 E4. wp_go.
  exists tr. split; [|done]. destruct H4 as [(h & E & Hc & Hl) Hs Hm Hn]. split; [|exact Hs|exact Hm|exact Hn].
  exists h. split; [done|]. rewrite E, lookup_insert_eq, E3 in E4.
  destruct H2 as [(h2 & E2 & _) _ _ _]. rewrite E2, lookup_insert_eq in E4. injection E4 as ->.
  split_and!; [|done|done|by rewrite Z.add_0_r in Hl]. exact (f_equal (fun h => set_h_response_code 0 h) Hc).
Qed.
End transfer.
