(* ===== verification/CurlMany.v ===== *)
(** * curl shim: the queue of messages and the list of handles of a CURLM

    [queued s m M ns ms]: the messages of the multi handle [m] are [ms], in
    the nodes [ns].  curl_queue_done() puts one behind the others,
    curl_multi_info_read() takes the first, and curl_multi_perform() carries
    out the transfers that are not completed, in the order of the list, and
    queues one message for each, until there is no memory for a message. *)
From S2P Require Import CurlState CurlUrl CurlEasy CurlPerform CurlMulti CurlFrame CurlBody CurlRequest.
From S2P Require Import CurlSession Prelude.

Record queued (s : Curl) (m : Z) (M : CURLM) (ns : list Z) (ms : list CURLMsg) : Prop := {
  qu_multi : multis s !! m = Some M;
  qu_path : path (links (nodes s) node_next) (m_head M) ns;
  qu_tail : m_tail M = List.last ns 0;
  qu_messages : Forall2 (fun n x => node_message <$> nodes s !! n = Some x) ns ms;
  qu_fresh : 0 < brk s /\ forall n, is_Some (nodes s !! n) -> n <> 0 /\ n < brk s
}.
(** what the queue does not depend on *)
Definition same_transfers (s s' : Curl) : Prop :=
  handles s' = handles s /\ slists s' = slists s /\ cmem s' = cmem s /\ net s' = net s /\ history s' = history s.
Lemma same_transfers_trans s1 s2 s3 : same_transfers s1 s2 -> same_transfers s2 s3 -> same_transfers s1 s3.
Proof. unfold same_transfers. intros (?&?&?&?&?) (?&?&?&?&?). split_and!; congruence. Qed.

Lemma wp_multi_get m M s (Q : CURLM -> Curl -> Prop) : multis s !! m = Some M -> Q M s -> wp (multi_get m) Q s.
Proof. intros H HQ. unfold multi_get. wp_go. by eapply wpe_lift. Qed.
Lemma wp_multi_set m M M' s (Q : unit -> Curl -> Prop) : multis s !! m = Some M ->
  Q tt (set_multis (<[m := M']> (multis s)) s) -> wp (multi_set m M') Q s.
Proof. intros H HQ. unfold multi_set. apply wpe_bind. eapply wp_multi_get; [exact H|]. by wp_go. Qed.
Lemma wp_node_get n x s (Q : CurlMessageNode -> Curl -> Prop) : nodes s !! n = Some x -> Q x s -> wp (node_get n) Q s.
Proof. intros H HQ. unfold node_get. wp_go. by eapply wpe_lift. Qed.
Lemma wp_get_handle p h s (Q : CURL -> Curl -> Prop) : handles s !! p = Some h -> Q h s -> wp (handle_get p) Q s.
Proof. intros H HQ. unfold handle_get. wp_go. by eapply wpe_lift. Qed.

Lemma Forall2_snoc_fresh (N N' : gmap Z CurlMessageNode) ns ms n x :
  Forall2 (fun n x => node_message <$> N !! n = Some x) ns ms ->
  (forall k, In k ns -> node_message <$> N' !! k = node_message <$> N !! k) ->
  node_message <$> N' !! n = Some x ->
  Forall2 (fun n x => node_message <$> N' !! n = Some x) (ns ++ [n]) (ms ++ [x]).
Proof.
  intros H Hk Hn. induction H as [|a b ns ms Ha _ IH]; cbn [app]; [by repeat constructor|].
  constructor; [rewrite Hk; [done|by left]|]. apply IH. intros k' Hin. apply Hk. by right.
Qed.

(** ** A new message goes behind the others *)
Section push.
Context (N : gmap Z CurlMessageNode) (ms : list CURLMsg) (n : Z) (x : CURLMsg).
Hypothesis (Hnew : N !! n = None) (Hn : n <> 0).
Abbreviation holds N := (Forall2 (fun n x => node_message <$> N !! n = Some x)).
Abbreviation N1 := (<[n := mkNode x 0]> N).

Lemma push_empty head : path (links N node_next) head [] -> holds N [] ms ->
  path (links N1 node_next) n [n] /\ holds N1 [n] (ms ++ [x]).
Proof.
  intros _ Hm. inversion Hm. split.
  - split; [done|]. split; [done|]. exists 0. unfold links. by rewrite lookup_insert_eq.
  - constructor; [|constructor]. by rewrite lookup_insert_eq.
Qed.
Lemma push_behind head l t y : path (links N node_next) head (l ++ [t]) -> holds N (l ++ [t]) ms -> N !! t = Some y ->
  let N2 := <[t := mkNode (node_message y) n]> N1 in
  path (links N2 node_next) head (l ++ [t; n]) /\ holds N2 ((l ++ [t]) ++ [n]) (ms ++ [x]).
Proof.
  intros Hp Hm Ht N2. assert (Hne : t <> n) by congruence.
  assert (Ht2 : N2 !! t = Some (mkNode (node_message y) n)) by (unfold N2; by rewrite lookup_insert_eq).
  assert (Hn2 : N2 !! n = Some (mkNode x 0)) by (unfold N2; by rewrite lookup_insert_ne, lookup_insert_eq).
  assert (Hl : forall a, In a l -> N2 !! a = N !! a).
  { intros a Ha. unfold N2. pose proof (path_defined _ _ _ Hp) as Hd. rewrite Forall_forall in Hd.
    rewrite !lookup_insert_ne; [done| |].
    - intros <-. destruct (Hd n) as [z Hz]; [apply in_or_app; by left|]. unfold links in Hz. by rewrite Hnew in Hz.
    - intros <-. apply path_NoDup, list.NoDup_app in Hp as (_ & Hp & _). apply (Hp t); [by apply list_elem_of_In|by constructor]. }
  split.
  - eapply path_snoc; [exact Hp|done|unfold links; by rewrite Ht2|unfold links; by rewrite Hn2|].
    apply Forall_forall. intros b Hb. unfold links. by rewrite Hl.
  - eapply Forall2_snoc_fresh; [exact Hm| |by rewrite Hn2].
    intros k Hk. apply in_app_or in Hk as [Hk|[<-|[]]]; [by rewrite Hl|by rewrite Ht2, Ht].
Qed.
End push.
Lemma wp_queue_done m M ns ms p h s (Q : Z -> Curl -> Prop) : queued s m M ns ms -> handles s !! p = Some h ->
  (forall s', out_of_memory s -> queued s' m M ns ms -> same_transfers s s' -> Q CURLM_OUT_OF_MEMORY s') ->
  (forall n M' s', queued s' m M' (ns ++ [n]) (ms ++ [mkMsg p (h_result h)]) -> m_handles M' = m_handles M ->
     same_transfers s s' -> live s' = live s + 1 -> Q CURLM_OK s') ->
  wp (curl_queue_done m p) Q s.
Proof.
  intros [H1 H2 H3 H4 [H5 H6]] Hh Hfail HQ. unfold curl_queue_done, malloc, new_address.
  apply wpe_bind, wpe_bind, wpe_get, wpe_bind, wpe_modify. destruct (w_malloc (net s) (mallocs s)) eqn:Hm.
  2: { apply wpe_ret. cbn [negb]. apply wpe_ret. apply Hfail; [by exists (mallocs s)|by split|done]. }
  apply wpe_bind, wpe_modify, wpe_ret. cbn [negb]. wp_go. eapply wp_get_handle; [exact Hh|].
  wp_go. eapply wp_multi_get; [exact H1|]. cbn [nodes set_nodes brk].
  assert (Hnew : nodes s !! brk s = None).
  { destruct (nodes s !! brk s) eqn:E; [|done]. destruct (H6 (brk s)); [eauto|lia]. }
  assert (Hfresh : 0 < brk s + 1 /\ forall N : gmap Z CurlMessageNode, (forall a, a <> brk s -> is_Some (N !! a) -> is_Some (nodes s !! a)) ->
    forall a, is_Some (N !! a) -> a <> 0 /\ a < brk s + 1).
  { split; [lia|]. intros N HN a Ha. destruct (decide (a = brk s)) as [->|Hne]; [lia|].
    destruct (H6 a); [by apply HN|lia]. }
  destruct ns as [|t l _] using rev_ind.
  - destruct (push_empty (nodes s) ms (brk s) (mkMsg p (h_result h)) ltac:(lia) _ H2 H4) as [P1 P2].
    rewrite H3. cbn [List.last negb Z.eqb]. apply wpe_bind. eapply wp_multi_set; [exact H1|]. wp_go.
    eapply (HQ (brk s)); [split; [apply lookup_insert_eq|exact P1|done|exact P2|]|done|done|done].
    split; [cbn; lia|]. apply Hfresh. cbn. intros a Ha. by rewrite lookup_insert_ne by done.
  - rewrite last_last in H3.
    pose proof (path_defined _ _ _ H2) as Hd. pose proof (path_nonzero _ _ _ H2) as Hz. rewrite Forall_forall in Hd, Hz.
    assert (In t (l ++ [t])) as Hin by (apply in_or_app; right; by left).
    specialize (Hz t Hin). destruct (Hd t Hin) as [z Et]. unfold links in Et.
    destruct (nodes s !! t) as [y|] eqn:Ey; [clear z Et Hd Hin|done].
    rewrite H3, (proj2 (Z.eqb_neq _ _) Hz). cbn [negb].
    destruct (push_behind (nodes s) ms (brk s) (mkMsg p (h_result h)) Hnew ltac:(lia) _ l t y H2 H4 Ey) as [P1 P2].
    apply wpe_bind, wpe_bind. eapply wp_node_get; [cbn; rewrite lookup_insert_ne by congruence; exact Ey|].
    wp_go. eapply wp_multi_set; [exact H1|]. wp_go. eapply (HQ (brk s)); [split; [apply lookup_insert_eq|by rewrite <- app_assoc|by cbn; rewrite last_last|exact P2|]|done|done|done].
    split; [cbn; lia|]. apply Hfresh. cbn. intros a Ha. rewrite lookup_insert. case_decide; [subst; by rewrite Ey|].
    by rewrite lookup_insert_ne by done.
Qed.

(** ** The first message is taken *)
Lemma count_messages_ok N p l fuel s count : path (links N node_next) p l -> nodes s = N -> (length l < fuel)%nat ->
  iter fuel count_messages_step (p, count) s = Ok (count + zlen l) s.
Proof.
  intros Hp Hs. revert p fuel count Hp. induction l as [|a l IH]; intros p [|fuel] count Hp Hf; try (simpl in Hf; lia).
  - cbn in Hp. subst p. cbn. unfold zlen. simpl. by rewrite Z.add_0_r.
  - destruct Hp as (-> & Hz & n & Hn & Hl). unfold links in Hn. destruct (N !! a) as [x|] eqn:E; [|done].
    injection Hn as <-. cbn [iter]. unfold bind at 1, count_messages_step at 1. rewrite (proj2 (Z.eqb_neq _ _) Hz).
    unfold node_get, bind, get, lift. rewrite Hs, E. cbn. rewrite IH; [|done|simpl in Hf; lia].
    f_equal. unfold zlen. simpl. lia.
Qed.
Lemma wp_info_read m M ns ms s (Q : option CURLMsg * option Z -> Curl -> Prop) : queued s m M ns ms -> m <> 0 ->
  match ms with
  | [] => forall s', s' = s -> Q (None, Some 0) s'
  | x :: ms' => forall M' s', queued s' m M' (List.tl ns) ms' -> m_handles M' = m_handles M -> same_transfers s s' ->
      live s' = live s - 1 -> Q (Some x, Some (zlen ms')) s'
  end -> wp (curl_multi_info_read m) Q s.
Proof.
  intros [H1 H2 H3 H4 [H5 H6]] Hm HQ. unfold curl_multi_info_read. rewrite (proj2 (Z.eqb_neq _ _) Hm).
  apply wpe_bind. eapply wp_multi_get; [exact H1|]. cbv zeta. pose proof (path_NoDup _ _ _ H2) as Hnd.
  destruct H4 as [|n x ns ms Hx Hrest].
  - cbn in H2. rewrite H2. cbn [Z.eqb negb]. wp_go. eapply wp_multi_get; [exact H1|]. wp_go.
    rewrite H2. eapply wpe_ok; [apply (count_messages_ok (nodes s) 0 []); [done|done|simpl; lia]|]. wp_go. by apply HQ.
  - destruct H2 as (Eh & Hz & nx & Hn & Hl). rewrite Eh, (proj2 (Z.eqb_neq _ _) Hz). cbn [negb].
    unfold links in Hn. destruct (nodes s !! n) as [[y ny]|] eqn:En; [|done]. injection Hn as <-. injection Hx as ->.
    apply wpe_bind, wpe_bind. eapply wp_node_get; [exact En|]. cbn [node_next node_message].
    eapply wp_multi_set; [exact H1|]. apply wpe_bind. eapply wp_multi_get; [apply lookup_insert_eq|]. cbn [m_head].
    apply wpe_bind, wpe_get, wpe_bind. cbn [nodes set_multis]. eapply wpe_ok.
    { apply (count_messages_ok (nodes s) ny ns); [exact Hl|done|]. pose proof (path_size _ _ _ _ Hl). lia. }
    apply wpe_bind. eapply wp_node_get; [exact En|]. unfold free_node, free_if. cbn [when]. wp_go.
    assert (length ns = length ms) by by eapply Forall2_length. replace (0 + zlen ns) with (zlen ms) by (unfold zlen; lia).
    inversion_clear Hnd as [|? ? Hni _].
    assert (Hdel : forall a, In a ns -> delete n (nodes s) !! a = nodes s !! a).
    { intros a Ha. apply lookup_delete_ne. intros <-. by apply Hni, list_elem_of_In. }
    eapply HQ; [split; [apply lookup_insert_eq|..]|done|done|done].
    + eapply path_ext; [|exact Hl]. apply Forall_forall. intros a Ha. unfold links. cbn. by rewrite Hdel.
    + cbn. pose proof (path_head _ _ _ Hl) as ->. rewrite H3.
      destruct ns as [|b ns]; [done|]. destruct Hl as (_ & Hb & _). cbn [hd]. rewrite (proj2 (Z.eqb_neq _ _) Hb). done.
    + cbn. clear -Hrest Hdel. induction Hrest as [|a b ns ms Ha _ IH]; constructor.
      * rewrite Hdel; [done|by left].
      * apply IH. intros k Hk. apply Hdel. by right.
    + cbn. split; [done|]. intros a Ha. apply H6. destruct (decide (a = n)) as [->|]; [by rewrite lookup_delete_eq in Ha; destruct Ha|].
      by rewrite lookup_delete_ne in Ha.
Qed.

(** the loop of a client: read messages until there is none *)
Fixpoint read_messages (fuel : nat) (m : Z) : CM (list CURLMsg) :=
  match fuel with
  | O => raise NoFuel
  | S fuel =>
      r <- curl_multi_info_read m ;;
      match fst r with None => ret [] | Some x => rest <- read_messages fuel m ;; ret (x :: rest) end
  end.
Lemma wp_read_messages fuel m M ns ms s (Q : list CURLMsg -> Curl -> Prop) : queued s m M ns ms -> m <> 0 ->
  (length ms < fuel)%nat ->
  (forall M' s', queued s' m M' [] [] -> m_handles M' = m_handles M -> same_transfers s s' ->
     live s' = live s - zlen ms -> Q ms s') -> wp (read_messages fuel m) Q s.
Proof.
  intros Hq Hm Hf HQ. revert fuel M ns s Q Hq Hf HQ. induction ms as [|x ms IH]; intros [|fuel] M ns s Q Hq Hf HQ;
    try (simpl in Hf; lia); cbn [read_messages]; apply wpe_bind; (eapply wp_info_read; [exact Hq|done|]).
  - intros s' ->. wp_go. destruct Hq as [H1 H2 H3 H4 H5]. assert (ns = []) as -> by by inversion H4.
    eapply HQ; [by split|done|by repeat split|unfold zlen; simpl; lia].
  - intros M' s1 Hq1 E1 S1 L1. cbn [fst]. apply wpe_bind.
    eapply IH; [exact Hq1|simpl in Hf; lia|]. intros M2 s2 Hq2 E2 S2 L2. wp_go.
    eapply HQ; [exact Hq2|congruence|by eapply same_transfers_trans|]. rewrite L2, L1. unfold zlen. simpl. lia.
Qed.

(** ** curl shim: curl_multi_perform()

    A state is [ready] for the handles of a list when each is set up as a
    transfer needs it and no error buffer is another's post data.  Then
    curl_multi_perform() carries out every transfer that is not completed, one
    after the other, and queues their results in that order; when there is no
    memory for a message it returns at once, and that transfer is completed
    without a message. *)

(** ** Other handles keep what they need *)
Lemma settings_usable h h' s : settings h' = settings h -> usable h s -> usable h' s.
Proof.
  intros E [H1 H2 H3 H4].
  split; rewrite ?(f_equal h_error_buffer E : h_error_buffer h' = h_error_buffer h),
    ?(f_equal h_headers E : h_headers h' = h_headers h), ?(f_equal h_post_fields E : h_post_fields h' = h_post_fields h),
    ?(f_equal h_post_size E : h_post_size h' = h_post_size h),
    ?(f_equal h_read_callback E : h_read_callback h' = h_read_callback h),
    ?(f_equal h_infile_size E : h_infile_size h' = h_infile_size h); done.
Qed.
(** blocks keep their sizes, and all but [e] their bytes *)
Lemma usable_frame h e s s' : usable h s -> slists s' = slists s ->
  length <$> cmem s' = length <$> cmem s -> (forall q, q <> e -> cmem s' !! q = cmem s !! q) ->
  (h_post_fields h <> 0 -> h_post_fields h <> e) -> usable h s'.
Proof.
  intros [H1 H2 H3 H4] Hs Hl Hq He. split; [|by rewrite Hs| |done].
  - intros Hz. destruct (H1 Hz) as (b & Hb & Hlen).
    apply (f_equal (fun m : gmap Z nat => m !! h_error_buffer h)) in Hl. rewrite !lookup_fmap, Hb in Hl.
    destruct (cmem s' !! h_error_buffer h) as [b'|]; [|done]. exists b'. split; [done|].
    simplify_eq/=. unfold zlen in *. lia.
  - intros Hz. destruct (H3 Hz) as (Hne & b & Hb & Hsz). split; [done|]. exists b. rewrite Hq by by apply He. done.
Qed.

Section many.
Context (hs : list Z).
(** every handle of [hs] can be performed *)
Record ready (s : Curl) : Prop := {
  ready_handle p : In p hs -> exists h, handles s !! p = Some h /\ usable h s;
  ready_apart p q h h' : In p hs -> In q hs -> handles s !! p = Some h -> handles s !! q = Some h' ->
    h_post_fields h <> 0 -> h_post_fields h <> h_error_buffer h';
  ready_world : sane_world (net s)
}.
Definition done_of (s : Curl) (p : Z) : bool := match handles s !! p with Some h => negb (h_completed h =? 0) | None => true end.
Definition result_of (s : Curl) (p : Z) : Z := match handles s !! p with Some h => h_result h | None => 0 end.
(** the transfers of [l] that are still to do *)
Definition pending (s : Curl) (l : list Z) : list Z := List.filter (fun p => negb (done_of s p)) l.
Definition reports (s : Curl) (l : list Z) : list CURLMsg := map (fun p => mkMsg p (result_of s p)) l.

Lemma ready_performed p h code tr s s' : ready s -> In p hs -> handles s !! p = Some h ->
  performed p h s code tr s' -> ready s'.
Proof.
  intros [R1 R2 R3] Hin Hp [(h' & E & Hset & _) (_ & _ & Hsl & _ & Hnet) [Hm1 Hm2] _].
  assert (Hold : forall q k, handles s' !! q = Some k -> exists k0, handles s !! q = Some k0 /\ settings k = settings k0).
  { intros q k Hk. destruct (decide (q = p)) as [->|Hne]; rewrite E in Hk;
      [rewrite lookup_insert_eq in Hk; injection Hk as <-|rewrite lookup_insert_ne in Hk by done]; eauto. }
  split.
  - intros q Hq. destruct (R1 q Hq) as (k0 & Hk0 & Hu).
    assert (usable k0 s') as Hu' by (eapply usable_frame; [exact Hu|exact Hsl|exact Hm1|exact Hm2|by apply (R2 q p)]).
    destruct (decide (q = p)) as [->|Hne].
    + exists h'. rewrite E, lookup_insert_eq. split; [done|]. assert (k0 = h) as -> by congruence.
      eapply settings_usable; [exact Hset|exact Hu'].
    + exists k0. by rewrite E, lookup_insert_ne by done.
  - intros q1 q2 k1 k2 H1 H2 E1 E2 Hz. destruct (Hold q1 k1 E1) as (j1 & F1 & S1), (Hold q2 k2 E2) as (j2 & F2 & S2).
    rewrite (f_equal h_post_fields S1 : h_post_fields k1 = h_post_fields j1) in Hz |- *.
    rewrite (f_equal h_error_buffer S2 : h_error_buffer k2 = h_error_buffer j2). by eapply (R2 q1 q2).
  - by rewrite Hnet.
Qed.
Lemma ready_same s s' : ready s -> same_transfers s s' -> ready s'.
Proof.
  intros [R1 R2 R3] (E1 & E2 & E3 & E4 & _). split; rewrite ?E1, ?E4; try done.
  intros p Hp. destruct (R1 p Hp) as (h & Hh & [U1 U2 U3 U4]). exists h. split; [done|]. split; by rewrite ?E2, ?E3.
Qed.
(** the queue is not touched by a transfer *)
Lemma queued_performed p h code tr s s' m M ns ms : performed p h s code tr s' -> queued s m M ns ms -> queued s' m M ns ms.
Proof.
  intros [_ (E1 & E2 & _ & E3 & _) _ _] [H1 H2 H3 H4 H5]. split; rewrite ?E1, ?E2, ?E3; done.
Qed.

(** ** The loop over the handles *)
(** what the loop leaves of [l]: the transfers of [reported] are carried out and
    their messages queued; with [lost], which is at most one, it stopped for
    want of memory: that one is carried out too, but its message is not queued,
    and those of [rest] are as they were *)
Record carried_out (m : Z) (M : CURLM) (ms : list CURLMsg) (l reported : list Z) (lost : option Z) (rest : list Z)
    (s s' : Curl) : Prop := {
  co_pending : pending s l = reported ++ option_list lost ++ rest;
  co_all : lost = None -> rest = [];
  co_queue : exists M' ns', queued s' m M' ns' (ms ++ reports s' reported) /\ m_handles M' = m_handles M;
  co_ready : ready s';
  co_done p : In p l -> ~ In p rest -> done_of s' p = true;
  co_others p : ~ In p l \/ In p rest -> handles s' !! p = handles s !! p;
  co_settings p : settings <$> handles s' !! p = settings <$> handles s !! p;
  co_world : net s' = net s
}.
Lemma next_of_settings (H H' : gmap Z CURL) a : settings <$> H' !! a = settings <$> H !! a ->
  links H' h_next a = links H h_next a.
Proof.
  unfold links. intros E. destruct (H' !! a) as [h'|], (H !! a) as [h|]; try done. cbn [fmap option_fmap option_map] in *.
  apply (inj Some) in E. exact (f_equal (fun h => Some (h_next h)) E).
Qed.

(** one more transfer, performed *)
Section one_more.
Context (p : Z) (h : CURL) (l : list Z) (code : Z) (tr : list event) (s s1 s2 : Curl).
Hypothesis (Hni : ~ In p l) (Hh : handles s !! p = Some h) (Hc : h_completed h = 0).
Hypothesis (Hperf : performed p h s code tr s1) (Hsame : same_transfers s1 s2).

Lemma others_same q : q <> p -> handles s2 !! q = handles s !! q.
Proof. destruct Hperf as [(h1 & E1 & _) _ _ _], Hsame as (E2 & _). intros Hq. by rewrite E2, E1, lookup_insert_ne. Qed.
Lemma pending_cons : pending s (p :: l) = p :: pending s2 l.
Proof.
  unfold pending. cbn [List.filter]. unfold done_of at 1. rewrite Hh, Hc. cbn [Z.eqb negb]. f_equal.
  apply List.filter_ext_in. intros a Ha. unfold done_of. rewrite others_same; [done|]. by intros ->.
Qed.
Lemma performed_handle : exists h1, handles s2 !! p = Some h1 /\ settings h1 = settings h /\ h_result h1 = code /\
  h_completed h1 = 1.
Proof.
  destruct Hperf as [(h1 & E1 & Hset & Hres & Hcomp & _) _ _ _], Hsame as (E2 & _).
  exists h1. by rewrite E2, E1, lookup_insert_eq.
Qed.
Lemma settings_same q : settings <$> handles s2 !! q = settings <$> handles s !! q.
Proof.
  destruct performed_handle as (h1 & E1 & Hset & _). destruct (decide (q = p)) as [->|Hne]; [|by rewrite others_same].
  rewrite E1, Hh. cbn. by rewrite Hset.
Qed.
Lemma world_same : net s2 = net s.
Proof. destruct Hperf as [_ (_ & _ & _ & _ & E1) _ _], Hsame as (_ & _ & _ & E2 & _). congruence. Qed.

(** ... and queued, in front of the others *)
Lemma carried_cons m M ms s3 M2 reported lost rest : m_handles M2 = m_handles M ->
  carried_out m M2 (ms ++ [mkMsg p code]) l reported lost rest s2 s3 ->
  carried_out m M ms (p :: l) (p :: reported) lost rest s s3.
Proof.
  intros EM [Hpend Hall (M' & ns' & Hq' & EM') Hr Hd Ho Hs Hw].
  destruct performed_handle as (h1 & E1 & Hset & Hres & Hcomp).
  assert (Hrest : forall q, In q rest -> In q l).
  { intros q Hq. assert (In q (pending s2 l)) as Hp by (rewrite Hpend, !in_app_iff; auto).
    by apply List.filter_In in Hp as [Hp _]. }
  assert (Hp3 : handles s3 !! p = Some h1) by (rewrite Ho; [done|by left]).
  split; [by rewrite pending_cons, Hpend|done| |done| | | |by rewrite Hw, world_same].
  - exists M', ns'. split; [|congruence].
    cbn [reports map]. unfold result_of at 1. rewrite Hp3, Hres. rewrite <- app_assoc in Hq'. exact Hq'.
  - intros q [<-|Hq0] Hn; [|by apply Hd]. unfold done_of. by rewrite Hp3, Hcomp.
  - intros q Hq. assert (q <> p) as Hne.
    { intros ->. destruct Hq as [Hq|Hq]; [apply Hq; by left|by apply Hni, Hrest]. }
    rewrite Ho; [by apply others_same|]. destruct Hq as [Hq|Hq]; [left; intros H; apply Hq; by right|by right].
  - intros q. by rewrite Hs, settings_same.
Qed.
(** ... but not queued *)
Lemma carried_stop m M ns ms : queued s2 m M ns ms -> ready s2 ->
  carried_out m M ms (p :: l) [] (Some p) (pending s2 l) s s2.
Proof.
  intros Hq Hr. destruct performed_handle as (h1 & E1 & Hset & Hres & Hcomp).
  split; [by rewrite pending_cons|done| |done| | |exact settings_same|exact world_same].
  - exists M, ns. cbn. by rewrite app_nil_r.
  - intros q [<-|Hq0] Hn; [unfold done_of; by rewrite E1, Hcomp|].
    apply not_false_iff_true. intros E. apply Hn, List.filter_In. by rewrite E.
  - intros q Hq0. apply others_same. intros ->. destruct Hq0 as [Hq0|Hq0]; [apply Hq0; by left|].
    by apply List.filter_In in Hq0 as [Hq0 _].
Qed.
End one_more.
(** a transfer that was completed before is passed over *)
Lemma carried_skip m M ms p h l reported lost rest s s' : ~ In p l -> handles s !! p = Some h -> h_completed h <> 0 ->
  carried_out m M ms l reported lost rest s s' -> carried_out m M ms (p :: l) reported lost rest s s'.
Proof.
  intros Hni Hh Hc [Hpend Hall (M' & ns' & Hq & EM) Hr Hd Ho Hs Hw].
  assert (Hdone : done_of s p = true) by (unfold done_of; rewrite Hh; by rewrite (proj2 (Z.eqb_neq _ _) Hc)).
  split; [|done|by exists M', ns'|done| | |done|done].
  - unfold pending. cbn [List.filter]. by rewrite Hdone.
  - intros q [<-|Hq0] Hn; [|by apply Hd]. unfold done_of in *. rewrite Ho by by left. done.
  - intros q Hq0. apply Ho. destruct Hq0 as [Hq0|Hq0]; [left; intros H; apply Hq0; by right|by right].
Qed.
(** how the loop may end: [code] is what curl_multi_perform() returns at once *)
Definition loop_end (m : Z) (M : CURLM) (ms : list CURLMsg) (l : list Z) (s : Curl) (code : option Z) (s' : Curl) : Prop :=
  exists reported lost rest, carried_out m M ms l reported lost rest s s' /\
    match lost with
    | None => code = None
    | Some _ => code = Some CURLM_OUT_OF_MEMORY /\ out_of_memory s
    end.
Lemma wp_perform_handles m M ns ms l p fuel s (Q : option Z -> Curl -> Prop) : ready s ->
  path (links (handles s) h_next) p l -> incl l hs -> queued s m M ns ms -> (length l < fuel)%nat ->
  (forall code s', loop_end m M ms l s code s' -> Q code s') -> wp (iter fuel (perform_handle_step m) p) Q s.
Proof.
  revert p M ns ms fuel s Q. induction l as [|a l IH]; intros p M ns ms [|fuel] s Q Hr Hp Hin Hq Hf HQ;
    try (simpl in Hf; lia); cbn [iter]; apply wpe_bind; unfold perform_handle_step.
  - cbn in Hp. subst p. cbn [Z.eqb]. wp_go. apply HQ. exists [], None, []. split; [|done].
    split; try done. exists M, ns. cbn. by rewrite app_nil_r.
  - pose proof (path_NoDup _ _ _ Hp) as Hnd. inversion_clear Hnd as [|? ? Hni _]. rewrite list_elem_of_In in Hni.
    destruct Hp as (-> & Hz & n & Hn & Hl). rewrite (proj2 (Z.eqb_neq _ _) Hz).
    destruct (ready_handle s Hr a) as (h & Hh & Hu); [apply Hin; by left|].
    assert (n = h_next h) as ->. { unfold links in Hn. rewrite Hh in Hn. by injection Hn. }
    apply incl_cons_inv in Hin as [Hina Hin]. simpl in Hf.
    apply wpe_bind. eapply wp_get_handle; [exact Hh|]. apply wpe_if; intros Ec.
    { wp_go. eapply IH; [done|exact Hl|done|exact Hq|lia|]. intros code s' (reported & lost & rest & H & Hcode).
      apply HQ. exists reported, lost, rest. split; [|done]. eapply carried_skip; [done|exact Hh|lia|done]. }
    assert (h_completed h = 0) as Hc by lia. pose proof (ready_world s Hr) as Hw.
    apply wpe_bind. eapply wpe_mono; [by apply (wp_easy_perform a h)|].
    intros code s1 (tr & Hperf & _). pose proof (ready_performed a h code tr s s1 Hr Hina Hh Hperf) as Hr1.
    destruct (ready_handle s1 Hr1 a Hina) as (h1 & Hh1 & _).
    apply wpe_bind. eapply wp_queue_done; [by eapply queued_performed|exact Hh1|..].
    { intros s2 Hoom Hq2 S2. cbn [Z.eqb negb CURLM_OUT_OF_MEMORY CURLM_OK]. wp_go. apply HQ.
      exists [], (Some a), (pending s2 l). split; [eapply (carried_stop a h l code tr s s1 s2); try done; by eapply ready_same|].
      split; [done|]. destruct Hperf as [_ (_ & _ & _ & _ & E) _ _]. destruct Hoom as [k Hk]. exists k. by rewrite <- E. }
    intros n M2 s2 Hq2 EM S2 _. cbn [Z.eqb negb CURLM_OK].
    destruct (performed_handle a h code tr s s1 s2 Hperf S2) as (h2 & Hh2 & Hset2 & Hres & _).
    assert (h1 = h2) as -> by (destruct S2 as (E & _); rewrite E in Hh2; congruence).
    apply wpe_bind. eapply wp_get_handle; [exact Hh2|]. wp_go.
    rewrite (f_equal h_next Hset2 : h_next h2 = h_next h). rewrite Hres in Hq2.
    eapply IH; [by eapply ready_same| |exact Hin|exact Hq2|lia|].
    + eapply path_ext; [|exact Hl]. apply Forall_forall. intros b Hb. apply next_of_settings.
      by eapply (settings_same a h code tr s s1 s2).
    + intros code' s' (reported & lost & rest & H & Hcode). apply HQ. exists (a :: reported), lost, rest.
      split; [by eapply (carried_cons a h l code tr s s1 s2)|].
      destruct lost; [|done]. destruct Hcode as [-> [k Hk]]. split; [done|]. exists k.
      by rewrite <- (world_same a h code tr s s1 s2 Hperf S2).
Qed.
Lemma wp_count_running l p fuel s acc (Q : Z -> Curl -> Prop) : path (links (handles s) h_next) p l ->
  (length l < fuel)%nat -> (forall a, In a l -> done_of s a = true) -> Q acc s ->
  wp (iter fuel count_running_step (p, acc)) Q s.
Proof.
  revert p fuel. induction l as [|a l IH]; intros p [|fuel] Hp Hf Hd HQ; try (simpl in Hf; lia);
    cbn [iter]; apply wpe_bind; unfold count_running_step.
  - cbn in Hp. subst p. cbn [Z.eqb]. by wp_go.
  - destruct Hp as (-> & Hz & n & Hn & Hl). rewrite (proj2 (Z.eqb_neq _ _) Hz).
    unfold links in Hn. destruct (handles s !! a) as [h|] eqn:Hh; [|done]. injection Hn as <-.
    apply wpe_bind. eapply wp_get_handle; [exact Hh|]. wp_go.
    specialize (Hd a (or_introl eq_refl)) as Ha. unfold done_of in Ha. rewrite Hh in Ha.
    apply negb_true_iff in Ha. rewrite Ha. apply IH; [done|simpl in Hf; lia| |done]. intros b Hb. apply Hd. by right.
Qed.
(** all of curl_multi_perform() *)
Lemma wp_multi_perform m M ns ms s (Q : Z * option Z -> Curl -> Prop) : m <> 0 -> ready s -> queued s m M ns ms ->
  path (links (handles s) h_next) (m_handles M) hs ->
  (forall code s', loop_end m M ms hs s code s' ->
     Q (match code with Some c => (c, None) | None => (CURLM_OK, Some 0) end) s') -> wp (curl_multi_perform m) Q s.
Proof.
  intros Hm Hr Hq Hp HQ. unfold curl_multi_perform. rewrite (proj2 (Z.eqb_neq _ _) Hm).
  pose proof (path_size _ _ _ _ Hp) as Hsize.
  apply wpe_bind. eapply wp_multi_get; [apply Hq|]. apply wpe_bind, wpe_get, wpe_bind.
  eapply wp_perform_handles; [exact Hr|exact Hp|apply incl_refl|exact Hq|lia|]. intros code s1 H1.
  specialize (HQ code s1 H1). destruct code as [c|]; [by wp_go|].
  destruct H1 as (reported & lost & rest & [Hpend Hall (M' & ns' & Hq' & EM) Hr' Hd Ho Hs _] & Hlost).
  destruct lost; [by destruct Hlost|]. specialize (Hall eq_refl) as ->.
  apply wpe_bind. eapply wp_multi_get; [apply Hq'|]. rewrite EM.
  apply wpe_bind. eapply (wp_count_running hs); [|lia|intros a Ha; apply Hd; [exact Ha|by intros []]|].
  - eapply path_ext; [|exact Hp]. apply Forall_forall. intros a _. by apply next_of_settings.
  - by wp_go.
Qed.
End many.
