(* ===== verification/CurlProps.v ===== *)
(** * curl shim: a concrete transfer

    A handle that is set up through the API: a URL on one host, an
    Authorization header, redirects allowed.  The server of the first host
    answers with a redirect to another host, that of the second with a body
    in two chunks.  The witnesses apply the theorems here. *)
From S2P Require Import CurlState CurlUrl CurlEasy CurlPerform CurlMulti CurlFrame CurlCodec.
From S2P Require Import CurlRedirect CurlBody CurlRequest CurlSession CurlMany.
From S2P Require Import Prelude.

Definition demo_redirect : response :=
  mkResponse false 0 None 302 [(Some (str "Server"), Some (str "x"))] (Some (str "https://b.org/y")) [] false.
Definition demo_answer : response :=
  mkResponse false 0 None 200 [(Some (str "Content-Type"), Some (str "text/plain"))] None
    [Some (str "he"); Some (str "llo")] false.
Definition demo_world : curl_world :=
  mkCurlWorld (fun _ => true) (fun _ => true)
    (fun _ q => if streq (q_url q) (str "https://b.org/y") then Some demo_answer else Some demo_redirect)
    (fun _ _ => (0, [])) (fun _ data => zlen data) (fun _ data => zlen data) 0.
Definition demo_start : Curl := mkCurl ∅ ∅ ∅ ∅ ∅ 1000 0 0 [] demo_world.
Definition run {A} (m : CM A) (s : Curl) : Curl := match m s with Ok _ s' => s' | Err _ => s end.

(** the addresses that the setup gets *)
Definition demo_handle : Z := 1000.
Definition demo_header : Z := 1001.
Definition demo_multi : Z := 1002.
Definition demo_setup : CM Z :=
  p <- curl_easy_init ;;
  curl_easy_setopt p CURLOPT_URL (ArgString (Some (str "http://a.org/x"))) ;;
  curl_easy_setopt p CURLOPT_FOLLOWLOCATION (ArgLong 1) ;;
  curl_easy_setopt p CURLOPT_USERPWD (ArgString (Some (str "me:pw"))) ;;
  l <- curl_slist_append 0 (Some (str "Authorization: secret")) ;;
  curl_easy_setopt p CURLOPT_HTTPHEADER (ArgPtr l) ;;
  m <- curl_multi_init ;;
  curl_multi_add_handle m p.
Definition demo : Curl := Eval vm_compute in run demo_setup demo_start.
Definition demo_config : CURL := Eval vm_compute in default zero_handle (handles demo !! demo_handle).

(** ** curl shim: theorems

    A transfer is a session of HTTP exchanges; it ends, within a number of
    requests that the options bound, and frees what it has made; it never sends
    to a protocol that is not allowed nor credentials to another origin; the
    credentials it sends are readable; the multi interface reports every
    transfer once and in order. *)

(** ** What every session keeps to *)
Definition is_fetch (e : event) : bool := match e with Fetch _ => true | _ => false end.
Definition fetches (tr : list event) : Z := zlen (List.filter is_fetch tr).
(** requests and responses that were made and not freed *)
Definition open_ (e : event) : Z :=
  match e with NewRequest _ | GotResponse _ => 1 | FreeRequest | FreeResponse => -1 | _ => 0 end.
Definition still_open (tr : list event) : Z := fold_right (fun e n => open_ e + n) 0 tr.
(** what may be sent for the URL [url0] *)
Definition discreet_fetch (h : CURL) (url0 : list Z) (e : event) : Prop :=
  match e with
  | Fetch q =>
      (q_url q = url0 \/ permitted (h_redir_protocols h) (q_url q)) /\
      (origin (q_url q) <> origin url0 -> Forall (fun kv => credential (fst kv) = false) (q_headers q))
  | _ => True
  end.

Lemma fetches_app a b : fetches (a ++ b) = fetches a + fetches b.
Proof. unfold fetches, zlen. rewrite List.filter_app, length_app. lia. Qed.
Lemma still_open_app a b : still_open (a ++ b) = still_open a + still_open b.
Proof. induction a as [|e a IH]; simpl; lia. Qed.
(** what is written is neither a request nor a response *)
Lemma outcome_silent st h l r code ws : comes_to st h l r code ws -> fetches ws = 0 /\ still_open ws = 0.
Proof.
  intros [| | | | |code' ws' _ _ _ Hd]; try done. destruct Hd; try done. unfold body_event. by destruct (h_write_callback h =? 0).
Qed.
Lemma session_bounds st h url0 l tr code : session st h url0 l tr code ->
  fetches tr <= 1 + Z.max 0 (h_maxredirs h - l_hops l) + Z.max 0 (1 - l_tries l) /\ still_open tr = 0.
Proof.
  intros Hses. induction Hses as [x hist Hw|x lines Hls Hlong|x q Hs|x q r ws code Hs Ho Hn|x q r result tr code Hs Ho (_ & _ & Ht) _ [IH1 IH2]
    |x q r location tr code Hs He Hr Hh Ha _ [IH1 IH2]].
  1-3: split; [|done]; unfold fetches, zlen; simpl; lia.
  - apply outcome_silent in Ho as [F S]. rewrite !fetches_app, !still_open_app, F, S.
    split; [unfold fetches, zlen; simpl; lia|done].
  - rewrite fetches_app, still_open_app. change (FreeResponse :: tr) with ([FreeResponse] ++ tr).
    rewrite fetches_app, still_open_app, IH2. split; [|done].
    unfold fetches, zlen in *. cbn in *. lia.
  - rewrite fetches_app, still_open_app. change (FreeResponse :: tr) with ([FreeResponse] ++ tr).
    rewrite fetches_app, still_open_app, IH2. split; [|done].
    unfold fetches, zlen in *. cbn in *. lia.
Qed.
Lemma session_discreet st h url0 l tr code : session st h url0 l tr code ->
  l_url l = url0 \/ permitted (h_redir_protocols h) (l_url l) -> Forall (discreet_fetch h url0) tr.
Proof.
  assert (Hsent : forall y q, sent h st url0 (l_url y) (l_method y) (l_body y) q ->
    l_url y = url0 \/ permitted (h_redir_protocols h) (l_url y) -> discreet_fetch h url0 (Fetch q)).
  { intros y q [Eu _ _ _ (ls & auth & _ & _ & Hh)] Hl. cbn [discreet_fetch]. rewrite Eu. split; [done|]. intros Ho.
    rewrite Hh, bool_decide_eq_false_2 by done. apply request_headers_discreet. }
  assert (Hrest : forall l r code ws, comes_to st h l r code ws -> Forall (discreet_fetch h url0) ws).
  { intros l' r code' ws Ho. apply outcome_silent in Ho as [F _]. unfold fetches, zlen in F.
    apply Forall_forall. intros e Hin. destruct e as [| |q| | | | | | |]; try done. exfalso.
    assert (In (Fetch q) (List.filter is_fetch ws)) as Hi by by apply filter_In.
    destruct (List.filter is_fetch ws); [done|simpl in F; lia]. }
  intros Hses. induction Hses as [x hist Hw|x lines Hls Hlong|x q Hs|x q r ws code Hs Ho Hn|x q r result tr code Hs Ho Ht _ IH
    |x q r location tr code Hs He Hr Hh Ha _ IH]; intros Hl.
  all: assert (Hasked : forall r0 q0, sent h st url0 (l_url x) (l_method x) (l_body x) q0 ->
      Forall (discreet_fetch h url0) (asked q0 r0)) by (intros r0 q0 Hq0; specialize (Hsent _ _ Hq0 Hl); by repeat (apply Forall_cons_2 || apply Forall_nil_2)).
  - by apply Forall_nil_2.
  - by repeat (apply Forall_cons_2 || apply Forall_nil_2).
  - specialize (Hsent _ _ Hs Hl). by repeat (apply Forall_cons_2 || apply Forall_nil_2).
  - apply Forall_app_2; [by apply Hasked|]. apply Forall_app_2; [by eapply Hrest|].
    by repeat (apply Forall_cons_2 || apply Forall_nil_2).
  - apply Forall_app_2; [by apply Hasked|]. apply Forall_cons_2; [done|by apply IH].
  - apply Forall_app_2; [by apply Hasked|]. apply Forall_cons_2; [done|]. apply IH. by right.
Qed.

(** ** The theorems *)
(** C11: curl_easy_perform() of a handle that is set up refines the protocol
    [session]: it returns, and either it was declined for one of the reasons of
    [declined] or had no body or memory, and has sent nothing, or the calls it
    has made of the HTTP client and the body it has written are those of a
    session that starts with the URL, the method and the body of the handle.
    There a request has the headers of [request_headers]: the lines of the
    caller's list and the defaults, with credentials only for the origin of the
    first URL.  A response comes to the code that [comes_to] gives it: the error table
    of the client, the redirects that are refused, the status that is refused,
    a body that breaks off or is not taken.  It is asked for again exactly when
    that is a failure to connect, to read or to make the TLS connection, or a
    timeout, of a GET or a POST that was not tried again yet; so an HTTP error
    status is not.  The code is the session's and is kept in the handle;
    nothing else of the shim's state has changed. *)
Theorem easy_perform_session p h s : p <> 0 -> handles s !! p = Some h -> usable h s -> sane_world (net s) ->
  exists code s' tr, curl_easy_perform p s = Ok code s' /\ performed p h s code tr s' /\ transferred h s tr code.
Proof.
  intros Hp Hh Hu Hw. destruct (wp_elim _ _ _ (wp_easy_perform p h s Hu Hp Hh)) as (code & s' & E & tr & H1 & H2). eauto 6.
Qed.
(** C13: curl_easy_perform() ends after at most two requests more than the
    redirects that are allowed (the first one and the retry); every request and
    response it has made is freed, and so is all memory but the strings of the
    handle. *)
Theorem easy_perform_terminates p h s : p <> 0 -> handles s !! p = Some h -> usable h s -> sane_world (net s) ->
  exists code s' tr h', curl_easy_perform p s = Ok code s' /\
    List.filter visible (history s') = List.filter visible (history s) ++ tr /\
    fetches tr <= Z.max 0 (h_maxredirs h) + 2 /\ still_open tr = 0 /\
    handles s' = <[p := h']> (handles s) /\ live s' - owned h' = live s - owned h.
Proof.
  intros Hp Hh Hu Hw. destruct (wp_elim _ _ _ (wp_easy_perform p h s Hu Hp Hh)) as (code & s' & E & tr & [Hf _ _ Hn] & Ht).
  destruct Hf as (h' & Eh & _ & _ & _ & Hl). exists code, s', tr, h'.
  assert (fetches tr <= Z.max 0 (h_maxredirs h) + 2 /\ still_open tr = 0) as [? ?]; [|by split_and!].
  destruct Ht as [| | |url method body tr code _ _ _ _ Hs]; [split; [unfold fetches, zlen; simpl; lia|done]..|].
  apply session_bounds in Hs as [Hs1 Hs2]. cbn [l_hops l_tries] in Hs1. split; [lia|done].
Qed.
(** C12: Nothing is sent to a protocol that the options do not allow: the first
    URL has one of CURLOPT_PROTOCOLS, the others one of CURLOPT_REDIR_PROTOCOLS,
    where bit 0 of a mask allows http:// and bit 1 https://, in any case; and a
    request for another scheme or host than the first URL's carries no
    Authorization and no Cookie header, however it is spelled. *)
Theorem easy_perform_discreet p h s : p <> 0 -> handles s !! p = Some h -> usable h s -> sane_world (net s) ->
  exists code s' tr, curl_easy_perform p s = Ok code s' /\
    List.filter visible (history s') = List.filter visible (history s) ++ tr /\
    (tr = [] \/ exists url, h_url h = Some url /\ permitted (h_protocols h) url /\ Forall (discreet_fetch h url) tr).
Proof.
  intros Hp Hh Hu Hw. destruct (wp_elim _ _ _ (wp_easy_perform p h s Hu Hp Hh)) as (code & s' & E & tr & [_ _ _ Hn] & Ht).
  exists code, s', tr. split_and!; [done|done|].
  destruct Ht as [| | |url method body tr code Eu Hd _ _ Hs]; [by left..|right].
  assert (permitted (h_protocols h) url) as Ha.
  { pose proof (refusal_spec h url Eu) as Hr. destruct (refusal h url) as [[c m]|]; [by apply Hd in Hr|by destruct Hr]. }
  exists url. split_and!; [done|done|]. eapply session_discreet; [exact Hs|by left].
Qed.
(** C14: curl_multi_perform() carries out every transfer of its list that is not
    completed and leaves none running, unless malloc() fails for a message:
    then it returns CURLM_OUT_OF_MEMORY at once, with that transfer completed
    and not reported and those behind it as they were.  Reading messages until
    there is none then gives the messages that were there, followed by one for
    each transfer that is reported, in the order of the list and with its
    result, and empties the queue. *)
Theorem multi_perform_reports m M ns ms hs s : m <> 0 -> ready hs s -> queued s m M ns ms ->
  path (links (handles s) h_next) (m_handles M) hs ->
  exists result s1 reported, curl_multi_perform m s = Ok result s1 /\
    (result = (CURLM_OK, Some 0) /\ reported = pending s hs /\ (forall p, In p hs -> done_of s1 p = true) \/
     result = (CURLM_OUT_OF_MEMORY, None) /\ (exists n, w_malloc (net s) n = false) /\
     exists lost rest, pending s hs = reported ++ lost :: rest /\
       (forall p, In p hs -> ~ In p rest -> done_of s1 p = true) /\
       (forall p, In p rest -> handles s1 !! p = handles s !! p)) /\
    let messages := ms ++ reports s1 reported in
    exists s2 M2, read_messages (S (length messages)) m s1 = Ok messages s2 /\ queued s2 m M2 [] [] /\
      handles s2 = handles s1 /\ live s2 = live s1 - zlen messages.
Proof.
  intros Hm Hr Hq Hp.
  destruct (wp_elim _ _ _ (wp_multi_perform hs m M ns ms s
    (fun r s' => exists code, loop_end hs m M ms hs s code s' /\
       r = match code with Some c => (c, None) | None => (CURLM_OK, Some 0) end)
    Hm Hr Hq Hp (fun code s' H => ex_intro _ code (conj H eq_refl)))) as (r & s1 & E & code & (reported & lost & rest & Hc & Hlost) & ->).
  destruct Hc as [Hpend Hall (M1 & ns1 & Hq1 & _) _ Hd Ho _ _].
  exists (match code with Some c => (c, None) | None => (CURLM_OK, Some 0) end), s1, reported.
  split; [done|]. split.
  - destruct lost as [p|]; [right|left].
    + destruct Hlost as [-> Hoom]. split_and!; [done|exact Hoom|]. exists p, rest. split_and!; [done|done|]. intros q Hin.
      apply Ho. by right.
    + subst code. rewrite (Hall eq_refl) in *. rewrite Hpend, app_nil_r. split_and!; [done|done|]. intros p Hin. apply Hd; [done|by intros []].
  - cbv zeta. destruct (wp_elim _ _ _ (wp_read_messages (S (length (ms ++ reports s1 reported))) m M1 ns1 _ s1
      (fun l s' => l = ms ++ reports s1 reported /\ (exists M2, queued s' m M2 [] []) /\ handles s' = handles s1 /\
         live s' = live s1 - zlen (ms ++ reports s1 reported))
      Hq1 Hm ltac:(lia) (fun M2 s2 H1 _ (H2 : same_transfers s1 s2) H3 => conj eq_refl (conj (ex_intro _ M2 H1) (conj (proj1 H2) H3)))))
      as (l & s2 & E2 & -> & [M2 HM2] & Hh2 & Hl2).
    by exists s2, M2.
Qed.
(** C39: Unless there are no credentials or no memory, curl_basic_auth() answers
    "Basic " and a text that a base64 decoder turns back into user, colon and
    password; it allocates just that text. *)
Theorem basic_auth_decodes p h s : handles s !! p = Some h ->
  exists r s' h', curl_basic_auth p s = Ok r s' /\ handles s' = <[p := h']> (handles s) /\ config h' = config h /\
    live s' - owned h' = live s - owned h + count_some r /\
    match r with
    | None => credentials h = None \/ exists n, w_malloc (net s) n = false
    | Some v => exists c e, credentials h = Some c /\ v = str "Basic " ++ e /\ zlen e = (zlen c + 2) / 3 * 4 /\
        (Forall is_byte c -> b64_decode e = c)
    end.
Proof.
  intros Hh. pose proof (track_refl p h s Hh) as Ht.
  destruct (wp_elim _ _ _ (wp_basic_auth p h s _ _ s (fun r s' => track p h s (0 + count_some r) [] s' /\
     match r with None => credentials h = None \/ out_of_memory s
     | Some v => exists c, credentials h = Some c /\ v = str "Basic " ++ b64_encode c end) Ht
     (fun r s' H1 H2 => conj H1 H2))) as (r & s' & E & [(h' & Eh & Hc & Hl) _ _ _] & Hr).
  exists r, s', h'. split_and!; [done|done|done|lia|].
  destruct r as [v|]; [|done]. destruct Hr as (c & Ec & ->). exists c, (b64_encode c).
  split_and!; [done|done|apply b64_length|apply b64_roundtrip].
Qed.

(** ** Witnesses *)
Lemma demo_lookup : handles demo !! demo_handle = Some demo_config.
Proof. by vm_compute. Qed.
Lemma demo_headers : path (links (slists demo) snd) demo_header [demo_header].
Proof. split; [done|]. split; [done|]. exists 0. by vm_compute. Qed.
Lemma demo_usable : usable demo_config demo.
Proof.
  split; [by intros []|exists [demo_header]; exact demo_headers|by intros []|by right; left].
Qed.
#[local] Instance demo_sane : sane_world demo_world.
Proof.
  split; [|intros hist want Hw; cbn; unfold zlen; simpl; split; [lia|done]].
  intros hist q r. cbn. destruct (streq _ _); intros [= <-]; repeat constructor; by vm_compute.
Qed.
Lemma easy_perform_session_witness : exists code s' tr, curl_easy_perform demo_handle demo = Ok code s' /\
  performed demo_handle demo_config demo code tr s' /\ transferred demo_config demo tr code.
Proof. exact (easy_perform_session demo_handle demo_config demo ltac:(done) demo_lookup demo_usable demo_sane). Defined.
Lemma easy_perform_terminates_witness : exists code s' tr h', curl_easy_perform demo_handle demo = Ok code s' /\
  List.filter visible (history s') = List.filter visible (history demo) ++ tr /\
  fetches tr <= Z.max 0 (h_maxredirs demo_config) + 2 /\ still_open tr = 0 /\
  handles s' = <[demo_handle := h']> (handles demo) /\ live s' - owned h' = live demo - owned demo_config.
Proof. exact (easy_perform_terminates demo_handle demo_config demo ltac:(done) demo_lookup demo_usable demo_sane). Defined.
Lemma easy_perform_discreet_witness : exists code s' tr, curl_easy_perform demo_handle demo = Ok code s' /\
  List.filter visible (history s') = List.filter visible (history demo) ++ tr /\
  (tr = [] \/ exists url, h_url demo_config = Some url /\ permitted (h_protocols demo_config) url /\
     Forall (discreet_fetch demo_config url) tr).
Proof. exact (easy_perform_discreet demo_handle demo_config demo ltac:(done) demo_lookup demo_usable demo_sane). Defined.
(** how many requests a transfer makes, and its code, for other servers: one
    that breaks the connection once, and one that answers 500 *)
Definition served (fetch : list event -> request -> option response) (setup : CM Z) : option (Z * Z) :=
  match setup (mkCurl ∅ ∅ ∅ ∅ ∅ 1000 0 0 []
    (mkCurlWorld (fun _ => true) (fun _ => true) fetch (fun _ _ => (0, [])) (fun _ data => zlen data) (fun _ data => zlen data) 0)) with
  | Ok _ s => match curl_easy_perform demo_handle s with
              | Ok code s => Some (code, zlen (List.filter is_fetch (history s)))
              | Err _ => None
              end
  | Err _ => None
  end.
Example broken_once : served (fun hist _ => Some (if existsb is_fetch hist then demo_answer
  else mkResponse true 15 None 0 [] None [] false)) demo_setup = Some (CURLE_OK, 2).
Proof. by vm_compute. Qed.
Example refused_status : served (fun _ _ => Some (mkResponse false 0 None 500 [] None [] false))
  (demo_setup ;; curl_easy_setopt demo_handle CURLOPT_FAILONERROR (ArgLong 1)) = Some (CURLE_HTTP_RETURNED_ERROR, 1).
Proof. by vm_compute. Qed.
(** with memory for the transfer but not for its message: it succeeds, and is
    never reported *)
Example lost_message : match demo_setup (mkCurl ∅ ∅ ∅ ∅ ∅ 1000 0 0 [] (mkCurlWorld (fun n => (n <? 14)%nat) (fun _ => true)
    (w_fetch demo_world) (fun _ _ => (0, [])) (fun _ data => zlen data) (fun _ data => zlen data) 0)) with
  | Ok _ s => match curl_multi_perform demo_multi s with
              | Ok r s => r = (CURLM_OUT_OF_MEMORY, None) /\ done_of s demo_handle = true /\ result_of s demo_handle = CURLE_OK
              | Err _ => False
              end
  | Err _ => False
  end.
Proof. by vm_compute. Qed.
Lemma demo_ready : ready [demo_handle] demo.
Proof.
  split; [| |exact demo_sane].
  - intros p [<-|[]]. exists demo_config. split; [exact demo_lookup|exact demo_usable].
  - intros p q h h' [<-|[]] _ E. rewrite demo_lookup in E. injection E as <-. by intros _ [].
Qed.
Lemma demo_queued : queued demo demo_multi (mkMulti demo_handle 0 0) [] [].
Proof. split; [by vm_compute|done|done|constructor|]. split; [done|]. intros n [x Hx]. by vm_compute in Hx. Qed.
Lemma demo_list : path (links (handles demo) h_next) demo_handle [demo_handle].
Proof. split; [done|]. split; [done|]. exists 0. by vm_compute. Qed.
Lemma multi_perform_reports_witness : exists result s1 reported, curl_multi_perform demo_multi demo = Ok result s1 /\
  (result = (CURLM_OK, Some 0) /\ reported = pending demo [demo_handle] /\
     (forall p, In p [demo_handle] -> done_of s1 p = true) \/
   result = (CURLM_OUT_OF_MEMORY, None) /\ (exists n, w_malloc (net demo) n = false) /\
   exists lost rest, pending demo [demo_handle] = reported ++ lost :: rest /\
     (forall p, In p [demo_handle] -> ~ In p rest -> done_of s1 p = true) /\
     (forall p, In p rest -> handles s1 !! p = handles demo !! p)) /\
  let messages := [] ++ reports s1 reported in
  exists s2 M2, read_messages (S (length messages)) demo_multi s1 = Ok messages s2 /\ queued s2 demo_multi M2 [] [] /\
    handles s2 = handles s1 /\ live s2 = live s1 - zlen messages.
Proof.
  exact (multi_perform_reports demo_multi (mkMulti demo_handle 0 0) [] [] [demo_handle] demo ltac:(done)
    demo_ready demo_queued demo_list).
Defined.
Lemma basic_auth_decodes_witness : exists r s' h', curl_basic_auth demo_handle demo = Ok r s' /\
  handles s' = <[demo_handle := h']> (handles demo) /\ config h' = config demo_config /\
  live s' - owned h' = live demo - owned demo_config + count_some r /\
  match r with
  | None => credentials demo_config = None \/ exists n, w_malloc (net demo) n = false
  | Some v => exists c e, credentials demo_config = Some c /\ v = str "Basic " ++ e /\ zlen e = (zlen c + 2) / 3 * 4 /\
      (Forall is_byte c -> b64_decode e = c)
  end.
Proof. exact (basic_auth_decodes demo_handle demo_config demo demo_lookup). Defined.
