(* ===== verification/GitBase.v ===== *)
(** * git: bytes, bits and offsets

    What the files about git share: sizes of lists as integers, reads and
    writes by an offset, slices, the bits of words, and git's character tests. *)
From S2P Require Import Prelude.

(** ** sane-ctype.h, with the tables of ctype.c and hex-ll.c *)
Module Sane.
Definition GIT_SPACE : Z := 0x01.
Definition GIT_DIGIT : Z := 0x02.
Definition GIT_ALPHA : Z := 0x04.
Definition GIT_GLOB_SPECIAL : Z := 0x08.
Definition GIT_REGEX_SPECIAL : Z := 0x10.
Definition GIT_PATHSPEC_MAGIC : Z := 0x20.
Definition GIT_CNTRL : Z := 0x40.
Definition GIT_PUNCT : Z := 0x80.
Definition sane_ctype : list Z :=
  let S := GIT_SPACE in let A := GIT_ALPHA in let D := GIT_DIGIT in let G := GIT_GLOB_SPECIAL in
  let R := GIT_REGEX_SPECIAL in let P := GIT_PATHSPEC_MAGIC in let X := GIT_CNTRL in let U := GIT_PUNCT in
  let Z := Z.lor GIT_CNTRL GIT_SPACE in [
  X; X; X; X; X; X; X; X; X; Z; Z; X; X; Z; X; X;
  X; X; X; X; X; X; X; X; X; X; X; X; X; X; X; X;
  S; P; P; P; R; P; P; P; R; R; G; R; P; P; R; P;
  D; D; D; D; D; D; D; D; D; D; P; P; P; P; P; G;
  P; A; A; A; A; A; A; A; A; A; A; A; A; A; A; A;
  A; A; A; A; A; A; A; A; A; A; A; G; G; U; R; P;
  P; A; A; A; A; A; A; A; A; A; A; A; A; A; A; A;
  A; A; A; A; A; A; A; A; A; A; A; R; R; U; P; X ] ++ replicate 128 0.
(** hexval_table of hex-ll.c *)
Definition hexval_table : list Z :=
  replicate 48 (-1) ++ seqZ 0 10 ++ replicate 7 (-1) ++ seqZ 10 6 ++ replicate 26 (-1) ++ seqZ 10 6 ++ replicate 153 (-1).
Definition sane_istest (x mask : Z) : bool := negb (Z.land (nth0 (Z.to_nat (u8 x)) sane_ctype) mask =? 0).
Definition sane_iscase (x is_lower : Z) : bool :=
  if negb (sane_istest x GIT_ALPHA) then false
  else if negb (is_lower =? 0) then negb (Z.land x 0x20 =? 0) else Z.land x 0x20 =? 0.
Definition sane_case (x high : Z) : Z :=
  if sane_istest x GIT_ALPHA then Z.lor (Z.land x (Z.lnot 0x20)) high else x.
Definition isascii (x : Z) : bool := Z.land x (Z.lnot 0x7f) =? 0.
Definition isspace (x : Z) : bool := sane_istest x GIT_SPACE.
Definition isdigit (x : Z) : bool := sane_istest x GIT_DIGIT.
Definition isalpha (x : Z) : bool := sane_istest x GIT_ALPHA.
Definition isalnum (x : Z) : bool := sane_istest x (Z.lor GIT_ALPHA GIT_DIGIT).
Definition isprint (x : Z) : bool := (0x20 <=? x) && (x <=? 0x7e).
Definition islower (x : Z) : bool := sane_iscase x 1.
Definition isupper (x : Z) : bool := sane_iscase x 0.
Definition is_glob_special (x : Z) : bool := sane_istest x GIT_GLOB_SPECIAL.
Definition iscntrl (x : Z) : bool := sane_istest x GIT_CNTRL.
Definition ispunct (x : Z) : bool :=
  sane_istest x (Z.lor (Z.lor (Z.lor GIT_PUNCT GIT_REGEX_SPECIAL) GIT_GLOB_SPECIAL) GIT_PATHSPEC_MAGIC).
Definition isxdigit (x : Z) : bool := negb (nth0 (Z.to_nat (u8 x)) hexval_table =? -1).
Definition tolower (x : Z) : Z := sane_case (u8 x) 0x20.
Definition toupper (x : Z) : Z := sane_case (u8 x) 0.
End Sane.

(** ** Bytes *)
Definition byte (b : Z) : Prop := 0 <= b < 256.
(** a list of literals consists of bytes *)
Ltac all_bytes := repeat (apply List.Forall_cons; [unfold byte; lia|]); apply List.Forall_nil.

(** ** Comparisons: what a compare function has to keep to *)
Class comparison (cmp : Z -> Z -> Z) : Prop := {
  cmp_sym a b : 0 < cmp a b <-> cmp b a < 0;
  cmp_trans a b c : cmp a b <= 0 -> cmp b c <= 0 -> cmp a c <= 0
}.

(** ** Sizes and offsets *)
Lemma zlen_app {A} (l1 l2 : list A) : zlen (l1 ++ l2) = zlen l1 + zlen l2.
Proof. unfold zlen. rewrite length_app. lia. Qed.
Lemma zlen_cons {A} (x : A) l : zlen (x :: l) = 1 + zlen l.
Proof. unfold zlen. cbn [length]. lia. Qed.
Lemma zlen_pos {A} (l : list A) : 0 <= zlen l.
Proof. unfold zlen. lia. Qed.
Lemma zlen_slice {A} (l : list A) i n : 0 <= i -> 0 <= n -> i + n <= zlen l -> zlen (take (Z.to_nat n) (drop (Z.to_nat i) l)) = n.
Proof. intros. unfold zlen in *. rewrite length_take, length_drop. lia. Qed.
Lemma idx_bound {A} (l : list A) i x : idx l i = Some x -> 0 <= i < zlen l.
Proof. unfold idx, zlen. destruct (Z.ltb_spec i 0); [done|]. intros H1%lookup_lt_Some. lia. Qed.
Lemma idx_app {A} (l1 l2 : list A) i x : idx l1 i = Some x -> idx (l1 ++ l2) i = Some x.
Proof. unfold idx. destruct (i <? 0); [done|]. by intros H; apply lookup_app_l_Some. Qed.
Lemma idx_end {A} (l : list A) x : idx (l ++ [x]) (zlen l) = Some x.
Proof. unfold idx. pose proof (zlen_pos l). replace (zlen l <? 0) with false by lia. unfold zlen. by rewrite Nat2Z.id, list_lookup_middle. Qed.
Lemma idx_nat {A} (l : list A) j : idx l (Z.of_nat j) = l !! j.
Proof. unfold idx. destruct (Z.ltb_spec (Z.of_nat j) 0); [lia|]. by rewrite Nat2Z.id. Qed.
Lemma idx_to_nat {A} (l : list A) i y : 0 <= i -> l !! Z.to_nat i = Some y -> idx l i = Some y.
Proof. intros Hi Hl. rewrite <- (Z2Nat.id i) by done. by rewrite idx_nat. Qed.
Lemma idx_insert {A} (l : list A) i j x : 0 <= i < zlen l -> idx (<[Z.to_nat i := x]> l) j = if j =? i then Some x else idx l j.
Proof.
  intros Hi. unfold idx, zlen in *. destruct (Z.eqb_spec j i) as [->|Hne].
  - replace (i <? 0) with false by lia. apply list_lookup_insert_eq. lia.
  - destruct (Z.ltb_spec j 0); [done|]. apply list_lookup_insert_ne. lia.
Qed.
Lemma insert_mid {A} (l1 : list A) x y l2 : <[length l1 := y]> (l1 ++ x :: l2) = l1 ++ y :: l2.
Proof. induction l1 as [|z l1 IH]; [done|]. cbn [length app]. by change (<[S (length l1) := y]> (z :: l1 ++ x :: l2)) with (z :: <[length l1 := y]> (l1 ++ x :: l2)); rewrite IH. Qed.
Lemma insert_at {A} (l1 : list A) x y l2 : <[Z.to_nat (zlen l1) := y]> (l1 ++ x :: l2) = l1 ++ y :: l2.
Proof. unfold zlen. rewrite Nat2Z.id. apply insert_mid. Qed.
Lemma byte_idx l i x : Forall byte l -> idx l i = Some x -> byte x.
Proof. intros Hb Hx. unfold idx in Hx. destruct (i <? 0); [done|]. rewrite Forall_lookup in Hb. by eapply Hb. Qed.

(** ** Slices *)
Definition slice {A} (l : list A) (i n : Z) : list A := take (Z.to_nat n) (drop (Z.to_nat i) l).
Lemma slice_split {A} (l : list A) i m n : 0 <= i -> 0 <= m <= n -> slice l i n = slice l i m ++ slice l (i + m) (n - m).
Proof.
  intros Hi Hm. unfold slice. replace (Z.to_nat n) with (Z.to_nat m + Z.to_nat (n - m))%nat by lia. rewrite <- take_take_drop.
  rewrite drop_drop. do 3 f_equal. lia.
Qed.
Lemma slice_one {A} (l : list A) i : 0 <= i < zlen l -> exists x, slice l i 1 = [x] /\ idx l i = Some x.
Proof.
  intros Hi. destruct (idx_lt l i Hi) as (x & Hx). exists x. split; [|done]. unfold idx in Hx. replace (i <? 0) with false in Hx by lia.
  unfold slice. rewrite (drop_S _ _ _ Hx). done.
Qed.
Lemma slice_size {A} (l : list A) i n : 0 <= i -> 0 <= n -> i + n <= zlen l -> zlen (slice l i n) = n.
Proof. apply zlen_slice. Qed.
Lemma slice_prefix {A} (l : list A) i n : 0 <= i -> 0 <= n -> slice l 0 i ++ slice l i n = slice l 0 (i + n).
Proof. intros Hi Hn. rewrite (slice_split l 0 i (i + n)) by lia. rewrite Z.add_0_l. by replace (i + n - i) with n by lia. Qed.
Lemma slice_all {A} (l : list A) : slice l 0 (zlen l) = l.
Proof. unfold slice. rewrite drop_0. apply take_ge. unfold zlen. lia. Qed.

(** ** Buffers: an access outside is a fault *)
(** a byte of a buffer *)
Definition rd {St} (buf : list Z) (i : Z) : prog St Z := lift OutOfBounds (idx buf i).
(** memcpy() into a buffer *)
Definition memcpy {St} (buf : list Z) (i : Z) (bs : list Z) : prog St (list Z) :=
  if (0 <=? i) && (i + zlen bs <=? zlen buf) then ret (splice (Z.to_nat i) bs buf) else oob.
(** the [n] bytes of a buffer from [i] on *)
Definition rd_n {St} (buf : list Z) (i n : Z) : prog St (list Z) :=
  if (0 <=? i) && (0 <=? n) && (i + n <=? zlen buf) then ret (take (Z.to_nat n) (drop (Z.to_nat i) buf)) else oob.
Lemma rd_n_inside {St} buf i n (s : St) : 0 <= i -> 0 <= n -> i + n <= zlen buf -> rd_n buf i n s = Ok (take (Z.to_nat n) (drop (Z.to_nat i) buf)) s.
Proof. intros. unfold rd_n. by replace ((0 <=? i) && (0 <=? n) && (i + n <=? zlen buf)) with true by lia. Qed.
Lemma memcpy_ok {St} buf i bs (s : St) : 0 <= i -> i + zlen bs <= zlen buf -> memcpy buf i bs s = Ok (splice (Z.to_nat i) bs buf) s.
Proof. intros. unfold memcpy. by replace ((0 <=? i) && (i + zlen bs <=? zlen buf)) with true by lia. Qed.
Lemma rd_idx {St} buf i x (s : St) : idx buf i = Some x -> rd buf i s = Ok x s.
Proof. intros H. unfold rd. by rewrite H. Qed.

(** ** Where a pointer into a buffer is *)
(** [rest] is what is left of the buffer from [i] on *)
Definition left_at (buf : list Z) (i : Z) (rest : list Z) : Prop := exists pre, buf = pre ++ rest /\ i = zlen pre.
Lemma left_all buf : left_at buf 0 buf.
Proof. by exists []. Qed.
Lemma left_size buf i rest : left_at buf i rest -> 0 <= i <= zlen buf /\ zlen buf - i = zlen rest.
Proof. intros (pre & -> & ->). rewrite zlen_app. pose proof (zlen_pos pre). pose proof (zlen_pos rest). lia. Qed.
Lemma left_skip buf i bs rest : left_at buf i (bs ++ rest) -> left_at buf (i + zlen bs) rest.
Proof. intros (pre & -> & ->). exists (pre ++ bs). by rewrite <- app_assoc, zlen_app. Qed.
Lemma left_next buf i b rest : left_at buf i (b :: rest) -> left_at buf (i + 1) rest.
Proof. apply (left_skip buf i [b] rest). Qed.
Lemma left_rd {St} buf i b rest (s : St) : left_at buf i (b :: rest) -> rd buf i s = Ok b s.
Proof.
  intros (pre & -> & ->). unfold rd, idx. pose proof (zlen_pos pre). replace (zlen pre <? 0) with false by lia.
  unfold zlen. by rewrite Nat2Z.id, list_lookup_middle.
Qed.
Lemma left_rd_n {St} buf i bs rest (s : St) : left_at buf i (bs ++ rest) -> rd_n buf i (zlen bs) s = Ok bs s.
Proof.
  intros (pre & -> & ->). unfold rd_n. rewrite !zlen_app. pose proof (zlen_pos pre). pose proof (zlen_pos bs). pose proof (zlen_pos rest).
  replace ((0 <=? zlen pre) && (0 <=? zlen bs) && (zlen pre + zlen bs <=? zlen pre + (zlen bs + zlen rest))) with true by lia.
  unfold zlen. rewrite !Nat2Z.id, drop_app_length. by rewrite take_app_length.
Qed.

(** ** Bits *)
Lemma small_bits v n : 0 <= n -> 0 <= v < 2 ^ n -> forall i, n <= i -> Z.testbit v i = false.
Proof.
  intros Hn Hv i Hi. destruct (Z.eq_dec v 0) as [->|]; [apply Z.bits_0|]. apply Z.bits_above_log2; [lia|].
  pose proof (Z.log2_lt_pow2 v n ltac:(lia)). lia.
Qed.
Lemma bits_small v n : 0 <= n -> 0 <= v -> (forall i, n <= i -> Z.testbit v i = false) -> v < 2 ^ n.
Proof.
  intros Hn Hv Hb. destruct (Z_lt_le_dec v (2 ^ n)) as [|Hge]; [done|]. exfalso.
  assert (0 < 2 ^ n) by lia. pose proof (proj1 (Z.log2_le_pow2 v n ltac:(lia)) Hge) as H1.
  specialize (Hb (Z.log2 v) H1). by rewrite Z.bit_log2 in Hb by lia.
Qed.
Lemma u32_bits z i : 0 <= i -> Z.testbit (u32 z) i = (i <? 32) && Z.testbit z i.
Proof.
  intros Hi. unfold u32. change 4294967296 with (2 ^ 32). destruct (Z.ltb_spec i 32).
  - by rewrite Z.mod_pow2_bits_low.
  - by rewrite Z.mod_pow2_bits_high by lia.
Qed.
Lemma u32_lxor a b : u32 (Z.lxor a b) = Z.lxor (u32 a) (u32 b).
Proof.
  apply Z.bits_inj'. intros i Hi. rewrite Z.lxor_spec, !u32_bits, Z.lxor_spec by done. by destruct (i <? 32).
Qed.
Lemma lxor_range n a b : 0 <= n -> 0 <= a < 2 ^ n -> 0 <= b < 2 ^ n -> 0 <= Z.lxor a b < 2 ^ n.
Proof.
  intros Hn Ha Hb. assert (0 <= Z.lxor a b) by (apply Z.lxor_nonneg; lia). split; [done|].
  apply bits_small; [done..|]. intros i Hi. by rewrite Z.lxor_spec, !(small_bits _ n) by done.
Qed.
Lemma forallb_bytes p i : forallb p (seq 0 256) = true -> byte i -> p (Z.to_nat i) = true.
Proof. rewrite forallb_forall. unfold byte. intros H Hi. apply H, in_seq. lia. Qed.

(** ** Loops: a rule whose measure is not a function of the state *)
Lemma wpe_iter_n {St A B} E (I : Z -> A -> St -> Prop) (body : A -> prog St (A + B)) (Q : B -> St -> Prop) fuel : forall n a s,
  (forall n a s, I n a s -> 0 <= n /\ wpe E (body a) (fun r s' => match r with inl a' => exists n', n' < n /\ I n' a' s' | inr b => Q b s' end) s) ->
  I n a s -> n < Z.of_nat fuel -> wpe E (iter fuel body a) Q s.
Proof.
  induction fuel as [|fuel IH]; intros n a s Hb HI Hn.
  { destruct (Hb n a s HI) as [Hpos _]. simpl in Hn. lia. }
  destruct (Hb n a s HI) as [Hpos Hw]. cbn [iter]. apply wpe_bind. eapply wpe_mono; [exact Hw|]. intros [a'|b] s'.
  - intros (n' & Hlt & HI'). apply (IH n'); [done|done|lia].
  - intros HQ. by apply wpe_ret.
Qed.
(** one turn of a loop *)
Lemma iter_next {St A B} n (body : A -> prog St (A + B)) a a' s s' : body a s = Ok (inl a') s' -> iter (S n) body a s = iter n body a' s'.
Proof. intros H. cbn [iter]. by rewrite (bind_ok _ _ _ _ _ H). Qed.
Lemma iter_last {St A B} n (body : A -> prog St (A + B)) a b s s' : body a s = Ok (inr b) s' -> iter (S n) body a s = Ok b s'.
Proof. intros H. cbn [iter]. by rewrite (bind_ok _ _ _ _ _ H). Qed.
