(* ===== verification/GitDelta.v ===== *)
(** * git: the delta format of packs

    diff-delta.c, patch-delta.c and delta.h of src/bin/git/upstream: the index
    over the blocks of a source buffer, the delta of a target buffer against
    it, and the way back.  A buffer is the list of its bytes and a pointer into
    it an offset; reading or writing outside is a fault.  malloc() may fail at
    every call ([malloc_ok]) and its blocks hold arbitrary bytes ([junk]); the
    state counts the calls and the blocks that are not freed, and keeps what
    error() was called with. *)
From S2P Require Import Prelude GitBase.

Record Heap := mkHeap { h_calls : nat; h_live : Z; h_errors : list (list Z) }.
(** the answers of malloc(): does its k-th call with a size succeed, and what
    does the block hold *)
Class alloc_world := {
  malloc_ok : nat -> Z -> bool;
  junk : nat -> nat -> Z
}.
Abbreviation HP := (prog Heap) (only parsing).

(** ** The libraries below *)
Definition malloc `{alloc_world} (size : Z) : HP (option nat) :=
  h <- get ;;
  let k := h_calls h in
  if malloc_ok k size then modify (fun h => mkHeap (S k) (h_live h + 1) (h_errors h)) ;; ret (Some k)
  else modify (fun h => mkHeap (S k) (h_live h) (h_errors h)) ;; ret None.
Definition free : HP unit := modify (fun h => mkHeap (h_calls h) (h_live h - 1) (h_errors h)).
(** the bytes of the block of call [k], from the index [i] on *)
Definition block `{alloc_world} (k : nat) (i size : Z) : list Z :=
  map (junk k) (seq (Z.to_nat i) (Z.to_nat (size - i))).
(** realloc() of a block with the bytes [old]; NULL leaves the old one alone *)
Definition realloc `{alloc_world} (old : list Z) (size : Z) : HP (option (list Z)) :=
  h <- get ;;
  let k := h_calls h in
  modify (fun h => mkHeap (S k) (h_live h) (h_errors h)) ;;
  ret (if malloc_ok k size then Some (take (Z.to_nat size) old ++ block k (zlen old) size) else None).
Definition error (msg : list Z) : HP unit :=
  modify (fun h => mkHeap (h_calls h) (h_live h) (h_errors h ++ [msg])).
Definition die {A} : HP A := raise Died.
(** xmallocz() of wrapper.c: a block of [size] bytes and a NUL behind them *)
Definition xmallocz `{alloc_world} (size : Z) : HP (list Z) :=
  if 2 ^ 64 - 1 - size <? 1 then die
  else
    k <- malloc (size + 1) ;;
    match k with Some k => ret (block k 0 size ++ [0]) | None => die end.
(** git-compat-util.h: a shift that dies when bits are lost, but only for
    shifts below the width; C does not define the others *)
Definition st_left_shift (a shift : Z) : HP Z :=
  if shift <? 64 then
    if Z.shiftr (2 ^ 64 - 1) shift <? a then die else ret (u64 (Z.shiftl a shift))
  else raise Undefined.
(** a C flag: is a bit of the mask set *)
Definition has (x mask : Z) : bool := negb (Z.land x mask =? 0).

(** ** delta.h *)
Definition DELTA_SIZE_MIN : Z := 4.
(** the size in the header at [data], and the offset behind it *)
Definition get_delta_hdr_size (delta : list Z) (data : Z) : HP (Z * Z) :=
  iter (S (length delta)) (fun '(data, size, i) =>
    cmd <- rd delta data ;;
    part <- st_left_shift (Z.land cmd 0x7f) i ;;
    let size := Z.lor size part in
    ret (if has cmd 0x80 && (data + 1 <? zlen delta) then inl (data + 1, size, i + 7)
         else inr (size, data + 1))) (data, 0, 0).

(** ** patch-delta.c *)
(** PARSE_CP_PARAM for one parameter after the other: [None] is a delta that
    ends in the middle *)
Fixpoint parse_cp_params (delta : list Z) (cmd : Z) (params : list (Z * Z)) (data var : Z) : HP (option (Z * Z)) :=
  match params with
  | [] => ret (Some (data, var))
  | (bit, shift) :: params =>
      if has cmd bit then
        if zlen delta <=? data then ret None
        else
          b <- rd delta data ;;
          parse_cp_params delta cmd params (data + 1) (Z.lor var (u32 (Z.shiftl b shift)))
      else parse_cp_params delta cmd params data var
  end.
Definition cp_off_params : list (Z * Z) := [(0x01, 0); (0x02, 8); (0x04, 16); (0x08, 24)].
Definition cp_size_params : list (Z * Z) := [(0x10, 0); (0x20, 8); (0x40, 16)].

(** the variables of the loop of patch_delta() *)
Record patching := mkPatching { p_data : Z; p_dst : list Z; p_out : Z; p_size : Z }.
Inductive patch_end := bad_length | bad | finished (p : patching).

Definition patch_copy (src delta : list Z) (cmd : Z) (p : patching) : HP (patching + patch_end) :=
  r <- parse_cp_params delta cmd cp_off_params (p_data p) 0 ;;
  match r with
  | None => ret (inr bad_length)
  | Some (data, cp_off) =>
      r <- parse_cp_params delta cmd cp_size_params data 0 ;;
      match r with
      | None => ret (inr bad_length)
      | Some (data, cp_size) =>
          let cp_size := if cp_size =? 0 then 0x10000 else cp_size in
          if (2 ^ 64 - 1 - cp_off <? cp_size) || (zlen src <? cp_off + cp_size) || (p_size p <? cp_size)
          then ret (inr bad_length)
          else
            bs <- rd_n src cp_off cp_size ;;
            dst <- memcpy (p_dst p) (p_out p) bs ;;
            ret (inl (mkPatching data dst (p_out p + cp_size) (p_size p - cp_size)))
      end
  end.
Definition patch_insert (delta : list Z) (cmd : Z) (p : patching) : HP (patching + patch_end) :=
  if (p_size p <? cmd) || (zlen delta - p_data p <? cmd) then ret (inr bad_length)
  else
    bs <- rd_n delta (p_data p) cmd ;;
    dst <- memcpy (p_dst p) (p_out p) bs ;;
    ret (inl (mkPatching (p_data p + cmd) dst (p_out p + cmd) (p_size p - cmd))).
Definition patch_body (src delta : list Z) (p : patching) : HP (patching + patch_end) :=
  if p_data p <? zlen delta then
    cmd <- rd delta (p_data p) ;;
    let p := mkPatching (p_data p + 1) (p_dst p) (p_out p) (p_size p) in
    if has cmd 0x80 then patch_copy src delta cmd p
    else if negb (cmd =? 0) then patch_insert delta cmd p
    else error (str "unexpected delta opcode 0") ;; ret (inr bad)
  else ret (inr (finished p)).
(** the bytes of the target, or NULL *)
Definition patch_delta `{alloc_world} (src delta : list Z) : HP (option (list Z)) :=
  if zlen delta <? DELTA_SIZE_MIN then ret None
  else
    let* (size, data) := get_delta_hdr_size delta 0 in
    if negb (size =? zlen src) then ret None
    else
      let* (size, data) := get_delta_hdr_size delta data in
      dst <- xmallocz size ;;
      r <- iter (S (length delta)) (patch_body src delta) (mkPatching data dst 0 size) ;;
      let wild := error (str "delta replay has gone wild") ;; free ;; ret None in
      match r with
      | finished p =>
          if negb (p_data p =? zlen delta) || negb (p_size p =? 0) then wild
          else ret (Some (take (Z.to_nat (p_out p)) (p_dst p)))
      | bad_length => wild
      | bad => free ;; ret None
      end.

(** ** diff-delta.c: the hash of a block *)
Definition HASH_LIMIT : Z := 64.
Definition RABIN_SHIFT : Z := 23.
Definition RABIN_WINDOW : Z := 16.
Definition T : list Z := [
  0x00000000; 0xab59b4d1; 0x56b369a2; 0xfdeadd73; 0x063f6795; 0xad66d344; 0x508c0e37; 0xfbd5bae6;
  0x0c7ecf2a; 0xa7277bfb; 0x5acda688; 0xf1941259; 0x0a41a8bf; 0xa1181c6e; 0x5cf2c11d; 0xf7ab75cc;
  0x18fd9e54; 0xb3a42a85; 0x4e4ef7f6; 0xe5174327; 0x1ec2f9c1; 0xb59b4d10; 0x48719063; 0xe32824b2;
  0x1483517e; 0xbfdae5af; 0x423038dc; 0xe9698c0d; 0x12bc36eb; 0xb9e5823a; 0x440f5f49; 0xef56eb98;
  0x31fb3ca8; 0x9aa28879; 0x6748550a; 0xcc11e1db; 0x37c45b3d; 0x9c9defec; 0x6177329f; 0xca2e864e;
  0x3d85f382; 0x96dc4753; 0x6b369a20; 0xc06f2ef1; 0x3bba9417; 0x90e320c6; 0x6d09fdb5; 0xc6504964;
  0x2906a2fc; 0x825f162d; 0x7fb5cb5e; 0xd4ec7f8f; 0x2f39c569; 0x846071b8; 0x798aaccb; 0xd2d3181a;
  0x25786dd6; 0x8e21d907; 0x73cb0474; 0xd892b0a5; 0x23470a43; 0x881ebe92; 0x75f463e1; 0xdeadd730;
  0x63f67950; 0xc8afcd81; 0x354510f2; 0x9e1ca423; 0x65c91ec5; 0xce90aa14; 0x337a7767; 0x9823c3b6;
  0x6f88b67a; 0xc4d102ab; 0x393bdfd8; 0x92626b09; 0x69b7d1ef; 0xc2ee653e; 0x3f04b84d; 0x945d0c9c;
  0x7b0be704; 0xd05253d5; 0x2db88ea6; 0x86e13a77; 0x7d348091; 0xd66d3440; 0x2b87e933; 0x80de5de2;
  0x7775282e; 0xdc2c9cff; 0x21c6418c; 0x8a9ff55d; 0x714a4fbb; 0xda13fb6a; 0x27f92619; 0x8ca092c8;
  0x520d45f8; 0xf954f129; 0x04be2c5a; 0xafe7988b; 0x5432226d; 0xff6b96bc; 0x02814bcf; 0xa9d8ff1e;
  0x5e738ad2; 0xf52a3e03; 0x08c0e370; 0xa39957a1; 0x584ced47; 0xf3155996; 0x0eff84e5; 0xa5a63034;
  0x4af0dbac; 0xe1a96f7d; 0x1c43b20e; 0xb71a06df; 0x4ccfbc39; 0xe79608e8; 0x1a7cd59b; 0xb125614a;
  0x468e1486; 0xedd7a057; 0x103d7d24; 0xbb64c9f5; 0x40b17313; 0xebe8c7c2; 0x16021ab1; 0xbd5bae60;
  0x6cb54671; 0xc7ecf2a0; 0x3a062fd3; 0x915f9b02; 0x6a8a21e4; 0xc1d39535; 0x3c394846; 0x9760fc97;
  0x60cb895b; 0xcb923d8a; 0x3678e0f9; 0x9d215428; 0x66f4eece; 0xcdad5a1f; 0x3047876c; 0x9b1e33bd;
  0x7448d825; 0xdf116cf4; 0x22fbb187; 0x89a20556; 0x7277bfb0; 0xd92e0b61; 0x24c4d612; 0x8f9d62c3;
  0x7836170f; 0xd36fa3de; 0x2e857ead; 0x85dcca7c; 0x7e09709a; 0xd550c44b; 0x28ba1938; 0x83e3ade9;
  0x5d4e7ad9; 0xf617ce08; 0x0bfd137b; 0xa0a4a7aa; 0x5b711d4c; 0xf028a99d; 0x0dc274ee; 0xa69bc03f;
  0x5130b5f3; 0xfa690122; 0x0783dc51; 0xacda6880; 0x570fd266; 0xfc5666b7; 0x01bcbbc4; 0xaae50f15;
  0x45b3e48d; 0xeeea505c; 0x13008d2f; 0xb85939fe; 0x438c8318; 0xe8d537c9; 0x153feaba; 0xbe665e6b;
  0x49cd2ba7; 0xe2949f76; 0x1f7e4205; 0xb427f6d4; 0x4ff24c32; 0xe4abf8e3; 0x19412590; 0xb2189141;
  0x0f433f21; 0xa41a8bf0; 0x59f05683; 0xf2a9e252; 0x097c58b4; 0xa225ec65; 0x5fcf3116; 0xf49685c7;
  0x033df00b; 0xa86444da; 0x558e99a9; 0xfed72d78; 0x0502979e; 0xae5b234f; 0x53b1fe3c; 0xf8e84aed;
  0x17bea175; 0xbce715a4; 0x410dc8d7; 0xea547c06; 0x1181c6e0; 0xbad87231; 0x4732af42; 0xec6b1b93;
  0x1bc06e5f; 0xb099da8e; 0x4d7307fd; 0xe62ab32c; 0x1dff09ca; 0xb6a6bd1b; 0x4b4c6068; 0xe015d4b9;
  0x3eb80389; 0x95e1b758; 0x680b6a2b; 0xc352defa; 0x3887641c; 0x93ded0cd; 0x6e340dbe; 0xc56db96f;
  0x32c6cca3; 0x999f7872; 0x6475a501; 0xcf2c11d0; 0x34f9ab36; 0x9fa01fe7; 0x624ac294; 0xc9137645;
  0x26459ddd; 0x8d1c290c; 0x70f6f47f; 0xdbaf40ae; 0x207afa48; 0x8b234e99; 0x76c993ea; 0xdd90273b;
  0x2a3b52f7; 0x8162e626; 0x7c883b55; 0xd7d18f84; 0x2c043562; 0x875d81b3; 0x7ab75cc0; 0xd1eee811
].
Definition U : list Z := [
  0x00000000; 0x7eb5200d; 0x5633f4cb; 0x2886d4c6; 0x073e5d47; 0x798b7d4a; 0x510da98c; 0x2fb88981;
  0x0e7cba8e; 0x70c99a83; 0x584f4e45; 0x26fa6e48; 0x0942e7c9; 0x77f7c7c4; 0x5f711302; 0x21c4330f;
  0x1cf9751c; 0x624c5511; 0x4aca81d7; 0x347fa1da; 0x1bc7285b; 0x65720856; 0x4df4dc90; 0x3341fc9d;
  0x1285cf92; 0x6c30ef9f; 0x44b63b59; 0x3a031b54; 0x15bb92d5; 0x6b0eb2d8; 0x4388661e; 0x3d3d4613;
  0x39f2ea38; 0x4747ca35; 0x6fc11ef3; 0x11743efe; 0x3eccb77f; 0x40799772; 0x68ff43b4; 0x164a63b9;
  0x378e50b6; 0x493b70bb; 0x61bda47d; 0x1f088470; 0x30b00df1; 0x4e052dfc; 0x6683f93a; 0x1836d937;
  0x250b9f24; 0x5bbebf29; 0x73386bef; 0x0d8d4be2; 0x2235c263; 0x5c80e26e; 0x740636a8; 0x0ab316a5;
  0x2b7725aa; 0x55c205a7; 0x7d44d161; 0x03f1f16c; 0x2c4978ed; 0x52fc58e0; 0x7a7a8c26; 0x04cfac2b;
  0x73e5d470; 0x0d50f47d; 0x25d620bb; 0x5b6300b6; 0x74db8937; 0x0a6ea93a; 0x22e87dfc; 0x5c5d5df1;
  0x7d996efe; 0x032c4ef3; 0x2baa9a35; 0x551fba38; 0x7aa733b9; 0x041213b4; 0x2c94c772; 0x5221e77f;
  0x6f1ca16c; 0x11a98161; 0x392f55a7; 0x479a75aa; 0x6822fc2b; 0x1697dc26; 0x3e1108e0; 0x40a428ed;
  0x61601be2; 0x1fd53bef; 0x3753ef29; 0x49e6cf24; 0x665e46a5; 0x18eb66a8; 0x306db26e; 0x4ed89263;
  0x4a173e48; 0x34a21e45; 0x1c24ca83; 0x6291ea8e; 0x4d29630f; 0x339c4302; 0x1b1a97c4; 0x65afb7c9;
  0x446b84c6; 0x3adea4cb; 0x1258700d; 0x6ced5000; 0x4355d981; 0x3de0f98c; 0x15662d4a; 0x6bd30d47;
  0x56ee4b54; 0x285b6b59; 0x00ddbf9f; 0x7e689f92; 0x51d01613; 0x2f65361e; 0x07e3e2d8; 0x7956c2d5;
  0x5892f1da; 0x2627d1d7; 0x0ea10511; 0x7014251c; 0x5facac9d; 0x21198c90; 0x099f5856; 0x772a785b;
  0x4c921c31; 0x32273c3c; 0x1aa1e8fa; 0x6414c8f7; 0x4bac4176; 0x3519617b; 0x1d9fb5bd; 0x632a95b0;
  0x42eea6bf; 0x3c5b86b2; 0x14dd5274; 0x6a687279; 0x45d0fbf8; 0x3b65dbf5; 0x13e30f33; 0x6d562f3e;
  0x506b692d; 0x2ede4920; 0x06589de6; 0x78edbdeb; 0x5755346a; 0x29e01467; 0x0166c0a1; 0x7fd3e0ac;
  0x5e17d3a3; 0x20a2f3ae; 0x08242768; 0x76910765; 0x59298ee4; 0x279caee9; 0x0f1a7a2f; 0x71af5a22;
  0x7560f609; 0x0bd5d604; 0x235302c2; 0x5de622cf; 0x725eab4e; 0x0ceb8b43; 0x246d5f85; 0x5ad87f88;
  0x7b1c4c87; 0x05a96c8a; 0x2d2fb84c; 0x539a9841; 0x7c2211c0; 0x029731cd; 0x2a11e50b; 0x54a4c506;
  0x69998315; 0x172ca318; 0x3faa77de; 0x411f57d3; 0x6ea7de52; 0x1012fe5f; 0x38942a99; 0x46210a94;
  0x67e5399b; 0x19501996; 0x31d6cd50; 0x4f63ed5d; 0x60db64dc; 0x1e6e44d1; 0x36e89017; 0x485db01a;
  0x3f77c841; 0x41c2e84c; 0x69443c8a; 0x17f11c87; 0x38499506; 0x46fcb50b; 0x6e7a61cd; 0x10cf41c0;
  0x310b72cf; 0x4fbe52c2; 0x67388604; 0x198da609; 0x36352f88; 0x48800f85; 0x6006db43; 0x1eb3fb4e;
  0x238ebd5d; 0x5d3b9d50; 0x75bd4996; 0x0b08699b; 0x24b0e01a; 0x5a05c017; 0x728314d1; 0x0c3634dc;
  0x2df207d3; 0x534727de; 0x7bc1f318; 0x0574d315; 0x2acc5a94; 0x54797a99; 0x7cffae5f; 0x024a8e52;
  0x06852279; 0x78300274; 0x50b6d6b2; 0x2e03f6bf; 0x01bb7f3e; 0x7f0e5f33; 0x57888bf5; 0x293dabf8;
  0x08f998f7; 0x764cb8fa; 0x5eca6c3c; 0x207f4c31; 0x0fc7c5b0; 0x7172e5bd; 0x59f4317b; 0x27411176;
  0x1a7c5765; 0x64c97768; 0x4c4fa3ae; 0x32fa83a3; 0x1d420a22; 0x63f72a2f; 0x4b71fee9; 0x35c4dee4;
  0x1400edeb; 0x6ab5cde6; 0x42331920; 0x3c86392d; 0x133eb0ac; 0x6d8b90a1; 0x450d4467; 0x3bb8646a
].
(** a byte is taken into the hash *)
Definition rabin (val b : Z) : HP Z :=
  t <- rd T (Z.shiftr val RABIN_SHIFT) ;;
  ret (Z.lxor (Z.lor (u32 (Z.shiftl val 8)) b) t).

(** ** diff-delta.c: the index of a source buffer *)
Record index_entry := mkEntry { ie_ptr : Z; ie_val : Z }.
(** the links between the entries of a bucket are indices into the array *)
Record unpacked_index_entry := mkUnpacked { ue_entry : index_entry; ue_next : option Z }.
Record delta_index := mkIndex {
  di_memsize : Z;
  di_src : list Z;
  di_mask : Z;
  di_hash : list Z;
  di_entries : list index_entry
}.
(** the sizes of the structures on a machine with addresses of 64 bits *)
Definition sizeof_ptr : Z := 8.
Definition sizeof_index_entry : Z := 16.
Definition sizeof_unpacked_index_entry : Z := 24.
Definition sizeof_delta_index_header : Z := 32.

(** the variables of the loop that fills the index: the entries in use, the
    heads of the buckets, their lengths and the number of entries *)
Record unpacked_index := mkUI {
  ui_ents : list unpacked_index_entry;
  ui_hash : list (option Z);
  ui_count : list Z;
  ui_entries : Z
}.
Definition hash_window (buf : list Z) (data : Z) : HP Z :=
  fold_i (Z.to_nat RABIN_WINDOW) 1 (fun i val => b <- rd buf (data + i) ;; rabin val b) 0.
Definition populate_body (buf : list Z) (cap hmask : Z) (st : Z * Z * unpacked_index) :
    HP (Z * Z * unpacked_index + unpacked_index) :=
  let '(data, prev_val, ui) := st in
  if 0 <=? data then
    val <- hash_window buf data ;;
    let ents := ui_ents ui in
    if val =? prev_val then
      e <- lift OutOfBounds (idx ents (zlen ents - 1)) ;;
      ents <- lift OutOfBounds (upd ents (zlen ents - 1)
                (mkUnpacked (mkEntry (data + RABIN_WINDOW) (ie_val (ue_entry e))) (ue_next e))) ;;
      ret (inl (data - RABIN_WINDOW, prev_val, mkUI ents (ui_hash ui) (ui_count ui) (u32 (ui_entries ui - 1))))
    else
      let i := Z.land val hmask in
      next <- lift OutOfBounds (idx (ui_hash ui) i) ;;
      n <- lift OutOfBounds (idx (ui_count ui) i) ;;
      (if cap <=? zlen ents then oob else ret tt) ;;
      hash <- lift OutOfBounds (upd (ui_hash ui) i (Some (zlen ents))) ;;
      count <- lift OutOfBounds (upd (ui_count ui) i (u32 (n + 1))) ;;
      ret (inl (data - RABIN_WINDOW, val,
        mkUI (ents ++ [mkUnpacked (mkEntry (data + RABIN_WINDOW) val) next]) hash count (ui_entries ui)))
  else ret (inr ui).

(** an entry of a list *)
Definition deref (ents : list unpacked_index_entry) (p : option Z) : HP unpacked_index_entry :=
  i <- lift NullDeref p ;; lift OutOfBounds (idx ents i).
(** a bucket with [n] entries is left with HASH_LIMIT of them *)
Definition cull_skip (ents : list unpacked_index_entry) (v : option Z * Z) : HP (option Z * Z + option Z * Z) :=
  let '(entry, acc) := v in
  e <- deref ents entry ;;
  let acc := i32 (acc - HASH_LIMIT) in
  ret (if 0 <? acc then inl (ue_next e, acc) else inr (ue_next e, acc)).
Definition cull_body (n : Z) (v : option Z * Z * list unpacked_index_entry) :
    HP (option Z * Z * list unpacked_index_entry + list unpacked_index_entry) :=
  let '(entry, acc, ents) := v in
  let acc := i32 (acc + u32 (n - HASH_LIMIT)) in
  let* (entry, acc, ents) :=
    if 0 <? acc then
      let keep := entry in
      let* (entry, acc) := iter (S (Z.to_nat n)) (cull_skip ents) (entry, acc) in
      e <- deref ents entry ;;
      k <- deref ents keep ;;
      i <- lift NullDeref keep ;;
      ents <- lift OutOfBounds (upd ents i (mkUnpacked (ue_entry k) (ue_next e))) ;;
      ret (entry, acc, ents)
    else ret (entry, acc, ents) in
  e <- deref ents entry ;;
  ret (match ue_next e with Some _ => inl (ue_next e, acc, ents) | None => inr ents end).
Definition cull_bucket (hash : list (option Z)) (count : list Z) (i : Z)
    (v : list unpacked_index_entry * Z) : HP (list unpacked_index_entry * Z) :=
  let '(ents, entries) := v in
  n <- lift OutOfBounds (idx count i) ;;
  if n <=? HASH_LIMIT then ret (ents, entries)
  else
    let entries := u32 (entries - (n - HASH_LIMIT)) in
    entry <- lift OutOfBounds (idx hash i) ;;
    ents <- iter (S (length ents)) (cull_body n) (entry, 0, ents) ;;
    ret (ents, entries).
(** the list of a bucket is put into consecutive places of an array *)
Definition pack_body (ents : list unpacked_index_entry) (cap : Z) (v : option Z * list index_entry) :
    HP (option Z * list index_entry + list index_entry) :=
  let '(entry, packed) := v in
  match entry with
  | None => ret (inr packed)
  | Some _ =>
      e <- deref ents entry ;;
      (if cap <=? zlen packed then oob else ret tt) ;;
      ret (inl (ue_next e, packed ++ [ue_entry e]))
  end.
Definition pack_bucket (ents : list unpacked_index_entry) (hash : list (option Z)) (cap : Z) (i : Z)
    (v : list index_entry * list Z) : HP (list index_entry * list Z) :=
  let '(packed, packed_hash) := v in
  entry <- lift OutOfBounds (idx hash i) ;;
  packed' <- iter (S (length ents)) (pack_body ents cap) (entry, packed) ;;
  ret (packed', packed_hash ++ [zlen packed]).
(** the exponent of the size of the hash table *)
Definition hash_bits (hsize : Z) : HP Z :=
  iter 33 (fun i => ret (if u32 (Z.shiftl 1 i) <? hsize then inl (i + 1) else inr i)) 4.

Definition create_delta_index `{alloc_world} (buf : list Z) : HP (option delta_index) :=
  let bufsize := zlen buf in
  if bufsize =? 0 then ret None
  else
    let entries := if 0xffffffff <=? bufsize then 0xfffffffe / RABIN_WINDOW
                   else u32 ((bufsize - 1) / RABIN_WINDOW) in
    bits <- hash_bits (entries / 4) ;;
    let hsize := Z.shiftl 1 bits in
    let hmask := hsize - 1 in
    mem <- malloc (sizeof_ptr * hsize + sizeof_unpacked_index_entry * entries) ;;
    match mem with
    | None => ret None
    | Some _ =>
        mem <- malloc (4 * hsize) ;;
        match mem with
        | None => free ;; ret None
        | Some _ =>
            let hash := replicate (Z.to_nat hsize) None in
            let hash_count := replicate (Z.to_nat hsize) 0 in
            ui <- iter (S (length buf)) (populate_body buf entries hmask)
                    (entries * RABIN_WINDOW - RABIN_WINDOW, 0xffffffff, mkUI [] hash hash_count entries) ;;
            let* (ents, entries) := fold_i (Z.to_nat hsize) 0 (cull_bucket (ui_hash ui) (ui_count ui))
                                      (ui_ents ui, ui_entries ui) in
            free ;;
            let memsize := u64 (sizeof_delta_index_header + sizeof_ptr * (hsize + 1) + sizeof_index_entry * entries) in
            mem <- malloc memsize ;;
            match mem with
            | None => free ;; ret None
            | Some _ =>
                let* (packed, packed_hash) :=
                  fold_i (Z.to_nat hsize) 0 (pack_bucket ents (ui_hash ui) entries) ([], []) in
                (if zlen packed =? entries then ret tt else die) ;;
                free ;;
                ret (Some (mkIndex memsize buf hmask (packed_hash ++ [zlen packed]) packed))
            end
        end
    end.
Definition free_delta_index : HP unit := free.
Definition sizeof_delta_index (index : option delta_index) : Z :=
  match index with Some index => di_memsize index | None => 0 end.

(** ** diff-delta.c: the delta of a target buffer *)
Definition MAX_OP_SIZE : Z := 5 + 5 + 1 + RABIN_WINDOW + 7.
(** the buffer of the delta: its bytes, as many as malloc() was asked for, and
    the number of bytes in use *)
Record outbuf := mkOut { o_bytes : list Z; o_pos : Z }.
Definition o_size (o : outbuf) : Z := zlen (o_bytes o).
(** out[i] = b *)
Definition poke (o : outbuf) (i b : Z) : HP outbuf :=
  bs <- lift OutOfBounds (upd (o_bytes o) i (u8 b)) ;; ret (mkOut bs (o_pos o)).
(** out[outpos++] = b *)
Definition putb (o : outbuf) (b : Z) : HP outbuf :=
  o <- poke o (o_pos o) b ;; ret (mkOut (o_bytes o) (o_pos o + 1)).
(** outpos += n *)
Definition seek (o : outbuf) (n : Z) : outbuf := mkOut (o_bytes o) (o_pos o + n).
Definition put_size (o : outbuf) (l : Z) : HP outbuf :=
  let* (l, o) := iter 11 (fun '(l, o) =>
    if 0x80 <=? l then o <- putb o (Z.lor l 0x80) ;; ret (inl (Z.shiftr l 7, o)) else ret (inr (l, o))) (l, o) in
  putb o l.
(** the first bytes of the target, into the delta and the hash *)
Definition first_window (trg : list Z) (o : outbuf) : HP (Z * Z * outbuf) :=
  iter (S (Z.to_nat RABIN_WINDOW)) (fun '(i, val, o) =>
    if (i <? RABIN_WINDOW) && (i <? zlen trg) then
      b <- rd trg i ;;
      o <- putb o b ;;
      val <- rabin val b ;;
      ret (inl (i + 1, val, o))
    else ret (inr (i, val, o))) (0, 0, o).

(** the variables of the loop of create_delta() *)
Record diffing := mkDiffing {
  d_out : outbuf;
  d_data : Z;
  d_val : Z;
  d_inscnt : Z;
  d_moff : Z;
  d_msize : Z
}.
Section create.
Context (index : delta_index) (trg : list Z).
#[local] Abbreviation src := (di_src index) (only parsing).
#[local] Abbreviation top := (zlen trg) (only parsing).

(** while (ref_size-- && *src++ == *ref) ref++; *)
Definition extend_match (ref_size data ref : Z) : HP Z :=
  iter (S (Z.to_nat ref_size)) (fun '(n, s, ref) =>
    if n =? 0 then ret (inr ref)
    else
      a <- rd trg s ;;
      b <- rd src ref ;;
      ret (if a =? b then inl (n - 1, s + 1, ref + 1) else inr ref)) (ref_size, data, ref).
(** one entry of the bucket of the hash *)
Definition try_entry (data val last : Z) (v : Z * Z * Z) : HP (Z * Z * Z + Z * Z) :=
  let '(entry, msize, moff) := v in
  if entry <? last then
    e <- lift OutOfBounds (idx (di_entries index) entry) ;;
    let ref_size := u32 (zlen src - ie_ptr e) in
    if negb (ie_val e =? val) then ret (inl (entry + 1, msize, moff))
    else
      let ref_size := if top - data <? ref_size then u32 (top - data) else ref_size in
      if ref_size <=? msize then ret (inr (msize, moff))
      else
        ref <- extend_match ref_size data (ie_ptr e) ;;
        if msize <? ref - ie_ptr e then
          let msize := ref - ie_ptr e in
          let moff := ie_ptr e in
          ret (if 4096 <=? msize then inr (msize, moff) else inl (entry + 1, msize, moff))
        else ret (inl (entry + 1, msize, moff))
  else ret (inr (msize, moff)).
Definition find_match (data val msize moff : Z) : HP (Z * Z) :=
  let i := Z.land val (di_mask index) in
  first <- rd (di_hash index) i ;;
  last <- rd (di_hash index) (i + 1) ;;
  iter (S (length (di_entries index))) (try_entry data val last) (first, msize, moff).
(** the hash rolls on over the byte at [data] *)
Definition roll (val data : Z) : HP Z :=
  b <- rd trg (data - RABIN_WINDOW) ;;
  u <- rd U b ;;
  c <- rd trg data ;;
  rabin (Z.lxor val u) c.

(** a byte that is not copied *)
Definition put_literal (d : diffing) : HP diffing :=
  let o := if d_inscnt d =? 0 then seek (d_out d) 1 else d_out d in
  b <- rd trg (d_data d) ;;
  o <- putb o b ;;
  let inscnt := d_inscnt d + 1 in
  if inscnt =? 0x7f then
    o <- poke o (o_pos o - inscnt - 1) inscnt ;;
    ret (mkDiffing o (d_data d + 1) (d_val d) 0 (d_moff d) 0)
  else ret (mkDiffing o (d_data d + 1) (d_val d) inscnt (d_moff d) 0).

(** the match grows backwards over bytes that were put already *)
Definition match_back (d : diffing) : HP (diffing + diffing) :=
  if negb (d_moff d =? 0) then
    a <- rd src (d_moff d - 1) ;;
    b <- rd trg (d_data d - 1) ;;
    if a =? b then
      let o := seek (d_out d) (-1) in
      let inscnt := d_inscnt d - 1 in
      if negb (inscnt =? 0) then
        ret (inl (mkDiffing o (d_data d - 1) (d_val d) inscnt (d_moff d - 1) (d_msize d + 1)))
      else ret (inr (mkDiffing (seek o (-1)) (d_data d - 1) (d_val d) (inscnt - 1) (d_moff d - 1) (d_msize d + 1)))
    else ret (inr d)
  else ret (inr d).
Definition put_count (d : diffing) : HP diffing :=
  o <- poke (d_out d) (o_pos (d_out d) - d_inscnt d - 1) (d_inscnt d) ;;
  ret (mkDiffing o (d_data d) (d_val d) 0 (d_moff d) (d_msize d)).
(** a byte of a parameter, when it is not zero, and its bit in the command *)
Definition put_param (x mask shift bit : Z) (v : outbuf * Z) : HP (outbuf * Z) :=
  let '(o, i) := v in
  if has x mask then o <- putb o (Z.shiftr x shift) ;; ret (o, Z.lor i bit) else ret (o, i).
(** the copy of [msize] bytes from [moff] on *)
Definition emit_copy (o : outbuf) (moff msize : Z) : HP outbuf :=
  let op := o_pos o in
  let v := (seek o 1, 0x80) in
  v <- put_param moff 0x000000ff 0 0x01 v ;;
  v <- put_param moff 0x0000ff00 8 0x02 v ;;
  v <- put_param moff 0x00ff0000 16 0x04 v ;;
  v <- put_param moff 0xff000000 24 0x08 v ;;
  v <- put_param msize 0x00ff 0 0x10 v ;;
  v <- put_param msize 0xff00 8 0x20 v ;;
  let '(o, i) := v in
  poke o op i.
Definition put_copy (d : diffing) : HP diffing :=
  d <- (if negb (d_inscnt d =? 0) then
          d <- iter 128 match_back d ;; put_count d
        else ret d) ;;
  let left := if d_msize d <? 0x10000 then 0 else u32 (d_msize d - 0x10000) in
  let msize := d_msize d - left in
  o <- emit_copy (d_out d) (d_moff d) msize ;;
  let data := d_data d + msize in
  let moff := d_moff d + msize in
  let msize := if 0xffffffff <? moff then 0 else left in
  val <- (if msize <? 4096 then
            fold_i (Z.to_nat RABIN_WINDOW) (- RABIN_WINDOW) (fun j val => b <- rd trg (data + j) ;; rabin val b) 0
          else ret (d_val d)) ;;
  ret (mkDiffing o data val (d_inscnt d) moff msize).
Definition diff_step (d : diffing) : HP diffing :=
  d <- (if d_msize d <? 4096 then
          val <- roll (d_val d) (d_data d) ;;
          let* (msize, moff) := find_match (d_data d) val (d_msize d) (d_moff d) in
          ret (mkDiffing (d_out d) (d_data d) val (d_inscnt d) moff msize)
        else ret d) ;;
  if d_msize d <? 4 then put_literal d else put_copy d.
(** the loop goes on, stops, or the function ends without memory *)
Definition diff_body `{alloc_world} (max_size : Z) (d : diffing) : HP (diffing + option diffing) :=
  if d_data d <? top then
    d <- diff_step d ;;
    let o := d_out d in
    if o_size o - MAX_OP_SIZE <=? o_pos o then
      let outsize := u64 (o_size o * 3) / 2 in
      let outsize := if negb (max_size =? 0) && (max_size <=? outsize) then u64 (max_size + MAX_OP_SIZE + 1) else outsize in
      if negb (max_size =? 0) && (max_size <? o_pos o) then ret (inr (Some d))
      else
        bs <- realloc (o_bytes o) outsize ;;
        match bs with
        | None => free ;; ret (inr None)
        | Some bs => ret (inl (mkDiffing (mkOut bs (o_pos o)) (d_data d) (d_val d) (d_inscnt d) (d_moff d) (d_msize d)))
        end
    else ret (inl d)
  else ret (inr (Some d)).

Definition create_delta `{alloc_world} (max_size : Z) : HP (option (list Z)) :=
  if top =? 0 then ret None
  else
    let outsize := if negb (max_size =? 0) && (max_size <=? 8192) then max_size + MAX_OP_SIZE + 1 else 8192 in
    out <- malloc outsize ;;
    match out with
    | None => ret None
    | Some k =>
        o <- put_size (mkOut (block k 0 outsize) 0) (zlen src) ;;
        o <- put_size o top ;;
        let* (i, val, o) := first_window trg (seek o 1) in
        r <- iter (S (length trg)) (diff_body max_size) (mkDiffing o i val i 0 0) ;;
        match r with
        | None => ret None
        | Some d =>
            d <- (if negb (d_inscnt d =? 0) then put_count d else ret d) ;;
            if negb (max_size =? 0) && (max_size <? o_pos (d_out d)) then free ;; ret None
            else ret (Some (take (Z.to_nat (o_pos (d_out d))) (o_bytes (d_out d))))
        end
    end.
End create.

(** diff_delta() of delta.h *)
Definition diff_delta `{alloc_world} (src trg : list Z) (max_delta_size : Z) : HP (option (list Z)) :=
  index <- create_delta_index src ;;
  match index with
  | Some index =>
      delta <- create_delta index trg max_delta_size ;;
      free_delta_index ;;
      ret delta
  | None => ret None
  end.
