(* ===== verification/GitRabin.v ===== *)
(** * git: the hash of diff-delta.c

    The hash is Rabin's fingerprint: the remainder of the bytes, read as a
    polynomial over the field of two elements, by one of degree 31.  The
    tables keep it below 2^31, and taking a byte in is linear, so that rolling
    the hash on gives the hash of the next window. *)
From S2P Require Import Prelude GitBase GitDelta.

Definition hash_range (v : Z) : Prop := 0 <= v < 2 ^ 31.
(** [rabin] as a function *)
Definition rabin_step (val b : Z) : Z :=
  Z.lxor (Z.lor (u32 (Z.shiftl val 8)) b) (nth0 (Z.to_nat (Z.shiftr val 23)) T).
(** the hash of a list of bytes *)
Definition rabin_hash (val : Z) (bs : list Z) : Z := fold_left rabin_step bs val.

(** the bits that a byte is put into are empty *)
Lemma shifted_byte v b : byte b -> Z.lor (u32 (Z.shiftl v 8)) b = Z.lxor (u32 (Z.shiftl v 8)) b.
Proof.
  intros Hb. symmetry. apply Z.lxor_lor. apply Z.bits_inj'. intros i Hi. rewrite Z.land_spec, Z.bits_0, u32_bits by done.
  destruct (Z.le_gt_cases 8 i).
  - by rewrite (small_bits b 8 ltac:(lia) Hb i), andb_false_r by lia.
  - rewrite Z.shiftl_spec_low by lia. by rewrite andb_false_r.
Qed.

(** ** The tables *)
Lemma T_table i : 0 <= i < 256 -> exists t, idx T i = Some t /\ nth0 (Z.to_nat i) T = t /\ 0 <= t < 2 ^ 32 /\ Z.testbit t 31 = Z.odd i.
Proof.
  intros Hi. assert (Hall : forallb (fun i => let t := nth0 i T in (0 <=? t) && (t <? 2 ^ 32) && eqb (Z.testbit t 31) (Z.odd (Z.of_nat i)))
    (seq 0 256) = true) by (vm_compute; reflexivity).
  apply forallb_bytes with (i := i) in Hall; [|exact Hi]; cbv beta in Hall. cbv zeta in Hall.
  rewrite Z2Nat.id in Hall by lia. apply andb_true_iff in Hall as [Hall Ht]. apply andb_true_iff in Hall as [H1 H2]. apply eqb_prop in Ht.
  destruct (idx_lt T i) as [t Hidx]; [change (zlen T) with 256; lia|]. exists t. split; [done|].
  assert (E : nth0 (Z.to_nat i) T = t) by (unfold idx in Hidx; replace (i <? 0) with false in Hidx by lia; unfold nth0; by rewrite Hidx).
  rewrite E in *. repeat split; [lia|lia|done].
Qed.
Lemma T_linear i j : 0 <= i < 256 -> 0 <= j < 256 ->
  nth0 (Z.to_nat (Z.lxor i j)) T = Z.lxor (nth0 (Z.to_nat i) T) (nth0 (Z.to_nat j) T).
Proof.
  intros Hi Hj. assert (Hall : forallb (fun i => forallb (fun j =>
      nth0 (Z.to_nat (Z.lxor (Z.of_nat i) (Z.of_nat j))) T =? Z.lxor (nth0 i T) (nth0 j T)) (seq 0 256)) (seq 0 256) = true)
    by (vm_compute; reflexivity).
  apply forallb_bytes with (i := i) in Hall; [|exact Hi]; cbv beta in Hall. apply forallb_bytes with (i := j) in Hall; [|exact Hj]; cbv beta in Hall.
  rewrite !Z2Nat.id in Hall by lia. by apply Z.eqb_eq.
Qed.
(** U[b] is what a byte has become when 15 bytes have followed it *)
Lemma U_table b : byte b -> idx U b = Some (rabin_hash 0 (b :: replicate 15 0)).
Proof.
  intros Hb. assert (Hall : forallb (fun b => nth0 b U =? rabin_hash 0 (Z.of_nat b :: replicate 15 0)) (seq 0 256) = true)
    by (vm_compute; reflexivity).
  unfold byte in Hb. apply forallb_bytes with (i := b) in Hall; [|exact Hb]; cbv beta in Hall.
  rewrite Z2Nat.id in Hall by lia. apply Z.eqb_eq in Hall. rewrite <- Hall.
  destruct (idx_lt U b) as [t Hidx]; [change (zlen U) with 256; lia|]. rewrite Hidx. unfold idx in Hidx.
  replace (b <? 0) with false in Hidx by lia. unfold nth0. by rewrite Hidx.
Qed.

(** ** The hash keeps its range, and is linear *)
Lemma shiftr_range v : hash_range v -> 0 <= Z.shiftr v 23 < 256.
Proof.
  intros Hv. unfold hash_range in Hv. rewrite Z.shiftr_div_pow2 by lia.
  split; [apply Z.div_pos; lia|apply Z.div_lt_upper_bound; lia].
Qed.
Lemma rabin_step_range v b : hash_range v -> byte b -> hash_range (rabin_step v b).
Proof.
  intros Hv Hb. unfold rabin_step. rewrite shifted_byte by done. destruct (T_table _ (shiftr_range v Hv)) as (t & _ & -> & Ht & Hodd).
  assert (Hr : 0 <= Z.lxor (Z.lxor (u32 (Z.shiftl v 8)) b) t < 2 ^ 32).
  { apply lxor_range; [done| |done]. apply lxor_range; [done|apply u32_range|]. unfold byte in Hb. lia. }
  split; [lia|]. apply bits_small; [done|lia|]. intros i Hi. destruct (Z.eq_dec i 31) as [->|].
  - rewrite !Z.lxor_spec, u32_bits by lia. cbn [Z.ltb Z.compare Pos.compare Pos.compare_cont andb].
    rewrite Z.shiftl_spec, Hodd by lia. change (31 - 8) with 23. rewrite (small_bits b 8 ltac:(lia) Hb) by lia.
    rewrite <- Z.bit0_odd, Z.shiftr_spec by lia. change (0 + 23) with 23. by destruct (Z.testbit v 23).
  - apply (small_bits _ 32); [done|exact Hr|lia].
Qed.
Lemma rabin_ok v b h : hash_range v -> byte b -> rabin v b h = Ok (rabin_step v b) h.
Proof.
  intros Hv Hb. unfold rabin, RABIN_SHIFT, rd, bind. destruct (T_table _ (shiftr_range v Hv)) as (t & Hi & Ht & _).
  rewrite Hi. cbn [lift ret]. unfold rabin_step. by rewrite Ht.
Qed.
Lemma rabin_hash_cons v b bs : rabin_hash v (b :: bs) = rabin_hash (rabin_step v b) bs.
Proof. done. Qed.
Lemma rabin_hash_range bs : Forall byte bs -> forall v, hash_range v -> hash_range (rabin_hash v bs).
Proof.
  induction 1 as [|b bs Hb _ IH]; intros v Hv; [done|]. apply IH. by apply rabin_step_range.
Qed.
Lemma rabin_step_linear v w b c : hash_range v -> hash_range w -> byte b -> byte c ->
  rabin_step (Z.lxor v w) (Z.lxor b c) = Z.lxor (rabin_step v b) (rabin_step w c).
Proof.
  intros Hv Hw Hb Hc. unfold rabin_step.
  rewrite !shifted_byte; [|done|done|by apply (lxor_range 8)].
  rewrite Z.shiftl_lxor, u32_lxor, Z.shiftr_lxor, T_linear by (by apply shiftr_range).
  apply Z.bits_inj'. intros i Hi. rewrite !Z.lxor_spec.
  by destruct (Z.testbit _ i), (Z.testbit _ i), (Z.testbit _ i), (Z.testbit _ i), (Z.testbit _ i), (Z.testbit _ i).
Qed.
Lemma rabin_hash_linear bs v w : Forall byte bs -> hash_range v -> hash_range w ->
  rabin_hash (Z.lxor v w) bs = Z.lxor (rabin_hash v bs) (rabin_hash w (replicate (length bs) 0)).
Proof.
  intros Hbs. revert v w. induction Hbs as [|b bs Hb _ IH]; intros v w Hv Hw; [done|].
  cbn [length replicate]. rewrite !rabin_hash_cons.
  rewrite <- (Z.lxor_0_r b) at 1. rewrite rabin_step_linear by done.
  apply IH; by apply rabin_step_range.
Qed.

(** The hash rolls: taking the oldest byte of a window out and a new one in
    gives the hash of the next window. *)
Lemma rabin_roll b bs c : byte b -> Forall byte bs -> byte c -> length bs = 15%nat ->
  rabin_step (Z.lxor (rabin_hash 0 (b :: bs)) (rabin_hash 0 (b :: replicate 15 0))) c = rabin_hash 0 (bs ++ [c]).
Proof.
  intros Hb Hbs Hc Hl. assert (H0 : hash_range 0) by done. pose proof (rabin_step_range 0 b H0 Hb) as Hr.
  assert (E : rabin_hash 0 (b :: bs) = Z.lxor (rabin_hash 0 bs) (rabin_hash 0 (b :: replicate 15 0))).
  { rewrite !rabin_hash_cons, <- Hl, <- rabin_hash_linear by assumption. done. }
  rewrite E, Z.lxor_assoc, Z.lxor_nilpotent, Z.lxor_0_r. unfold rabin_hash. by rewrite fold_left_app.
Qed.
