(* ===== verification/GitPatch.v ===== *)
(** * git: what a delta means

    A delta is two sizes and a program of copies and insertions.  [parse_ops]
    reads the program from its bytes, [run] gives the target it describes;
    patch_delta() answers exactly that, if the sizes are right, and NULL
    otherwise. *)
From S2P Require Import Prelude GitBase GitDelta GitRabin.

Inductive dop := Copy (off size : Z) | Insert (bs : list Z).
Definition op_size (op : dop) : Z := match op with Copy _ n => n | Insert bs => zlen bs end.
Definition run_op (src : list Z) (op : dop) : list Z :=
  match op with Copy o n => take (Z.to_nat n) (drop (Z.to_nat o) src) | Insert bs => bs end.
Definition run (src : list Z) (ops : list dop) : list Z := concat (map (run_op src) ops).
(** a copy stays inside the source *)
Definition op_fits (src : list Z) (op : dop) : bool := match op with Copy o n => o + n <=? zlen src | Insert _ => true end.

(** ** Reading the program *)
Fixpoint parse_params (cmd : Z) (params : list (Z * Z)) (bytes : list Z) (var : Z) : option (Z * list Z) :=
  match params with
  | [] => Some (var, bytes)
  | (bit, shift) :: params =>
      if has cmd bit then
        match bytes with
        | [] => None
        | b :: bytes => parse_params cmd params bytes (Z.lor var (Z.shiftl b shift))
        end
      else parse_params cmd params bytes var
  end.
(** a copy command of the format: the bits 0 to 3 say which bytes of the offset
    follow, the bits 4 to 6 which bytes of the size, the lowest first *)
Definition offset_bytes : list (Z * Z) := [(0x01, 0); (0x02, 8); (0x04, 16); (0x08, 24)].
Definition size_bytes : list (Z * Z) := [(0x10, 0); (0x20, 8); (0x40, 16)].
Definition parse_op (cmd : Z) (bytes : list Z) : option (dop * list Z) :=
  if has cmd 0x80 then
    '(off, bytes) ← parse_params cmd offset_bytes bytes 0;
    '(size, bytes) ← parse_params cmd size_bytes bytes 0;
    Some (Copy off (if size =? 0 then 0x10000 else size), bytes)
  else if cmd =? 0 then None
  else if zlen bytes <? cmd then None
  else Some (Insert (take (Z.to_nat cmd) bytes), drop (Z.to_nat cmd) bytes).
Fixpoint parse_fuel (fuel : nat) (bytes : list Z) : option (list dop) :=
  match fuel, bytes with
  | _, [] => Some []
  | O, _ => None
  | S fuel, cmd :: bytes => '(op, bytes) ← parse_op cmd bytes; ops ← parse_fuel fuel bytes; Some (op :: ops)
  end.
Definition parse_ops (bytes : list Z) : option (list dop) := parse_fuel (length bytes) bytes.
(** a size of the header: groups of seven bits, the lowest first *)
Fixpoint parse_size (bytes : list Z) : option (Z * list Z) :=
  match bytes with
  | [] => None
  | b :: bytes => if b <? 128 then Some (b, bytes) else '(n, rest) ← parse_size bytes; Some (b - 128 + 128 * n, rest)
  end.
(** the target that the program describes *)
Definition replay (src : list Z) (size : Z) (bytes : list Z) : option (list Z) :=
  match parse_ops bytes with
  | Some ops => if forallb (op_fits src) ops && (zlen (run src ops) =? size) then Some (run src ops) else None
  | None => None
  end.

(** ** The parser *)
Lemma parse_params_rest cmd params bytes var v rest : parse_params cmd params bytes var = Some (v, rest) ->
  exists bs, bytes = bs ++ rest.
Proof.
  revert bytes var. induction params as [|[bit shift] params IH]; intros bytes var; cbn [parse_params].
  - intros [= <- <-]. by exists [].
  - destruct (has cmd bit); [|apply IH]. destruct bytes as [|b bytes]; [done|].
    intros (bs & ->)%IH. by exists (b :: bs).
Qed.
Lemma parse_op_rest cmd bytes op rest : parse_op cmd bytes = Some (op, rest) -> exists bs, bytes = bs ++ rest.
Proof.
  unfold parse_op. destruct (has cmd 128).
  - destruct (parse_params cmd offset_bytes bytes 0) as [[off b1]|] eqn:H1; [|done]. cbn [mbind option_bind].
    destruct (parse_params cmd size_bytes b1 0) as [[size b2]|] eqn:H2; [|done]. cbn [mbind option_bind]. intros [= _ <-].
    apply parse_params_rest in H1 as (x & ->), H2 as (y & ->). exists (x ++ y). by rewrite app_assoc.
  - destruct (cmd =? 0); [done|]. destruct (zlen bytes <? cmd); [done|]. intros [= _ <-].
    exists (take (Z.to_nat cmd) bytes). by rewrite take_drop.
Qed.
Lemma parse_fuel_enough n bytes : (length bytes <= n)%nat -> parse_fuel n bytes = parse_ops bytes.
Proof.
  unfold parse_ops. revert bytes. induction n as [n IH] using lt_wf_ind. intros bytes Hn.
  destruct bytes as [|cmd bytes]; [by destruct n|]. destruct n as [|n]; [simpl in Hn; lia|]. cbn [parse_fuel length] in *.
  destruct (parse_op cmd bytes) as [[op rest]|] eqn:H; [|done]. cbn [mbind option_bind].
  destruct (parse_op_rest _ _ _ _ H) as (bs & ->). rewrite length_app in *.
  rewrite (IH n) by lia. destruct (decide (length bs + length rest = n)%nat) as [->|Hne].
  - rewrite (IH n) by lia. done.
  - rewrite (IH (length bs + length rest)%nat) by lia. done.
Qed.
Lemma parse_ops_cons cmd bytes : parse_ops (cmd :: bytes) = ('(op, rest) ← parse_op cmd bytes; ops ← parse_ops rest; Some (op :: ops)).
Proof.
  unfold parse_ops at 1. cbn [length parse_fuel]. destruct (parse_op cmd bytes) as [[op rest]|] eqn:H; [|done]. cbn [mbind option_bind].
  destruct (parse_op_rest _ _ _ _ H) as (bs & ->). by rewrite parse_fuel_enough by (rewrite length_app; lia).
Qed.


(** ** patch_delta() reads the program *)
Lemma parse_cp_params_ok delta cmd ps s : Forall (fun p => 0 <= p.2 <= 24) ps -> forall data bytes var,
  left_at delta data bytes -> Forall byte bytes ->
  exists r, parse_cp_params delta cmd ps data var s = Ok r s /\
    match parse_params cmd ps bytes var with
    | Some (v, rest) => exists data', r = Some (data', v) /\ left_at delta data' rest /\ Forall byte rest
    | None => r = None
    end.
Proof.
  induction 1 as [|[bit shift] ps Hs _ IH]; intros data bytes var Hat Hb; cbn [parse_cp_params parse_params].
  { eexists. split; [done|]. by exists data. }
  destruct (has cmd bit); [|by apply IH]. destruct (left_size _ _ _ Hat) as [Hd Hl].
  destruct bytes as [|b bytes].
  - change (zlen []) with 0 in Hl. replace (zlen delta <=? data) with true by lia. by exists None.
  - rewrite zlen_cons in Hl. pose proof (zlen_pos bytes). replace (zlen delta <=? data) with false by lia.
    inversion_clear Hb as [|? ? Hb1 Hb2]. unfold bind. rewrite (left_rd _ _ _ _ s Hat).
    replace (u32 (Z.shiftl b shift)) with (Z.shiftl b shift); [apply IH; [by eapply left_next|done]|].
    simpl in Hs. unfold byte in Hb1. rewrite u32_small; [done|]. rewrite Z.shiftl_mul_pow2 by lia.
    pose proof (Z.pow_le_mono_r 2 shift 24 ltac:(lia) ltac:(lia)). pose proof (Z.pow_pos_nonneg 2 shift). nia.
Qed.
Lemma parse_params_nonneg cmd ps bytes var v rest : Forall byte bytes -> 0 <= var ->
  parse_params cmd ps bytes var = Some (v, rest) -> 0 <= v.
Proof.
  revert bytes var. induction ps as [|[bit shift] ps IH]; intros bytes var Hb Hv; cbn [parse_params]; [by intros [= <- <-]|].
  destruct (has cmd bit); [|by apply IH]. destruct bytes as [|b bytes]; [done|]. inversion_clear Hb as [|? ? Hb1 Hb2].
  apply IH; [done|]. apply Z.lor_nonneg. split; [done|]. apply Z.shiftl_nonneg. unfold byte in Hb1. lia.
Qed.
(** what the parser answers is a program *)
Definition op_wf (op : dop) : Prop := match op with Copy o n => 0 <= o /\ 0 < n | Insert bs => 0 < zlen bs end.
Lemma parse_op_wf cmd bytes op rest : byte cmd -> Forall byte bytes -> parse_op cmd bytes = Some (op, rest) -> op_wf op /\ Forall byte rest.
Proof.
  intros Hc Hb H. split.
  2:{ destruct (parse_op_rest _ _ _ _ H) as (bs & ->). by apply Forall_app in Hb as [_ Hb]. }
  unfold parse_op in H. destruct (has cmd 128).
  - destruct (parse_params cmd offset_bytes bytes 0) as [[off b1]|] eqn:H1; [|done]. cbn [mbind option_bind] in H.
    destruct (parse_params cmd size_bytes b1 0) as [[size b2]|] eqn:H2; [|done]. cbn [mbind option_bind] in H.
    injection H as <- <-. pose proof (parse_params_nonneg _ _ _ 0 _ _ Hb ltac:(lia) H1).
    destruct (parse_params_rest _ _ _ _ _ _ H1) as (bs & ->). apply Forall_app in Hb as [_ Hb].
    pose proof (parse_params_nonneg _ _ _ 0 _ _ Hb ltac:(lia) H2). split; [done|]. destruct (Z.eqb_spec size 0); lia.
  - destruct (Z.eqb_spec cmd 0); [done|]. destruct (Z.ltb_spec (zlen bytes) cmd); [done|]. injection H as <- <-.
    unfold byte in Hc. simpl. unfold zlen in *. rewrite length_take. lia.
Qed.
Lemma op_size_run src op : op_wf op -> op_fits src op = true -> zlen (run_op src op) = op_size op.
Proof. destruct op as [o n|bs]; simpl; [|done]. intros [Ho Hn] Hf%Z.leb_le. by apply zlen_slice; lia. Qed.
Lemma run_cons src op ops : run src (op :: ops) = run_op src op ++ run src ops.
Proof. done. Qed.
Lemma replay_nil src size : replay src size [] = if size =? 0 then Some [] else None.
Proof. unfold replay. cbn. rewrite (Z.eqb_sym 0). by destruct (size =? 0). Qed.
Lemma replay_cons src size cmd bytes : byte cmd -> Forall byte bytes -> replay src size (cmd :: bytes) =
  match parse_op cmd bytes with
  | Some (op, rest) => if op_fits src op && (op_size op <=? size) then r ← replay src (size - op_size op) rest; Some (run_op src op ++ r) else None
  | None => None
  end.
Proof.
  intros Hc Hb. unfold replay. rewrite parse_ops_cons. destruct (parse_op cmd bytes) as [[op rest]|] eqn:H; [|done].
  destruct (parse_op_wf _ _ _ _ Hc Hb H) as [Hwf _]. cbn [mbind option_bind].
  destruct (parse_ops rest) as [ops|]; cbn [mbind option_bind]; [|by destruct (_ && _)]. cbn [forallb]. rewrite run_cons, zlen_app.
  destruct (op_fits src op) eqn:Hf; [|done]. rewrite op_size_run by done. cbn [andb]. pose proof (zlen_pos (run src ops)).
  destruct (forallb (op_fits src) ops); cbn [andb].
  - destruct (Z.eqb_spec (op_size op + zlen (run src ops)) size).
    + replace (op_size op <=? size) with true by lia. by replace (zlen (run src ops) =? size - op_size op) with true by lia.
    + replace (zlen (run src ops) =? size - op_size op) with false by lia. by destruct (op_size op <=? size).
  - by destruct (op_size op <=? size).
Qed.

(** ** The sizes of the header *)
Lemma has_bit7 b : byte b -> has b 0x80 = (128 <=? b).
Proof.
  intros Hb. assert (Hall : forallb (fun b => eqb (has (Z.of_nat b) 0x80) (128 <=? Z.of_nat b)) (seq 0 256) = true) by (vm_compute; reflexivity).
  apply forallb_bytes with (i := b) in Hall; [|done]. unfold byte in Hb. rewrite Z2Nat.id in Hall by lia. by apply eqb_prop.
Qed.
Lemma low_bits b : Z.land b 0x7f = b mod 128.
Proof. change 0x7f with (Z.ones 7). rewrite Z.land_ones by lia. done. Qed.
Lemma lor_shifted a b i : 0 <= i -> 0 <= a < 2 ^ i -> Z.lor a (Z.shiftl b i) = a + b * 2 ^ i.
Proof.
  intros Hi Ha. rewrite <- Z.shiftl_mul_pow2 by done. rewrite Z.add_nocarry_lxor; [symmetry; apply Z.lxor_lor|];
    (apply Z.bits_inj'; intros k Hk; rewrite Z.land_spec, Z.bits_0; destruct (Z.le_gt_cases i k);
      [by rewrite (small_bits a i) by done|rewrite Z.shiftl_spec_low by done; apply andb_false_r]).
Qed.
Lemma parse_size_bound bytes n rest : Forall byte bytes -> parse_size bytes = Some (n, rest) -> 0 <= n /\ zlen rest < zlen bytes.
Proof.
  intros Hb. revert n. induction Hb as [|b bytes Hb Hbs IH]; intros n; cbn [parse_size]; [done|]. unfold byte in Hb.
  rewrite zlen_cons. destruct (Z.ltb_spec b 128).
  - intros [= <- <-]. lia.
  - destruct (parse_size bytes) as [[m r]|]; [|done]. cbn. intros [= <- <-]. destruct (IH m); [done|]. lia.
Qed.
Lemma seven_bits b : byte b -> b mod 128 = if b <? 128 then b else b - 128.
Proof.
  intros Hb. unfold byte in Hb. destruct (Z.ltb_spec b 128); [apply Z.mod_small; lia|].
  rewrite <- (Z.mod_small (b - 128) 128) by lia. replace b with (b - 128 + 1 * 128) at 1 by lia. apply Z.mod_add. lia.
Qed.
Lemma st_left_shift_ok a i s : 0 <= i < 64 -> 0 <= a -> a * 2 ^ i < 2 ^ 64 -> st_left_shift a i s = Ok (a * 2 ^ i) s.
Proof.
  intros Hi Ha H. unfold st_left_shift. replace (i <? 64) with true by lia. rewrite Z.shiftr_div_pow2, Z.shiftl_mul_pow2 by lia.
  replace ((2 ^ 64 - 1) / 2 ^ i <? a) with false; [unfold ret; rewrite u64_small; [done|nia]|].
  symmetry. apply Z.ltb_ge, Z.div_le_lower_bound; lia.
Qed.
(** one group: what it adds to the size, and what is left to read *)
Lemma parse_size_cons b bytes n rest : byte b -> Forall byte bytes -> parse_size (b :: bytes) = Some (n, rest) ->
  0 <= n /\ zlen rest <= zlen bytes /\ exists m, n = b mod 128 + 128 * m /\ 0 <= m /\
    if b <? 128 then m = 0 /\ rest = bytes else parse_size bytes = Some (m, rest) /\ zlen rest < zlen bytes.
Proof.
  intros Hb Hbs. rewrite seven_bits by done. unfold byte in Hb. cbn [parse_size]. destruct (Z.ltb_spec b 128).
  - intros [= <- <-]. split; [lia|]. split; [lia|]. exists 0. split; [lia|]. done.
  - destruct (parse_size bytes) as [[m r]|] eqn:Hm; [|done]. cbn [mbind option_bind]. intros [= <- <-].
    destruct (parse_size_bound _ _ _ Hbs Hm). split; [lia|]. split; [lia|]. exists m. repeat split; lia || done.
Qed.
Definition hdr_body (delta : list Z) (v : Z * Z * Z) : HP (Z * Z * Z + Z * Z) :=
  let '(data, size, i) := v in
  cmd <- rd delta data ;;
  part <- st_left_shift (Z.land cmd 0x7f) i ;;
  let size := Z.lor size part in
  ret (if has cmd 0x80 && (data + 1 <? zlen delta) then inl (data + 1, size, i + 7) else inr (size, data + 1)).
Lemma hdr_loop delta s bytes : Forall byte bytes -> forall data size k n rest fuel, left_at delta data bytes ->
  parse_size bytes = Some (n, rest) -> 0 <= k -> 0 <= size < 2 ^ (7 * k) -> size + n * 2 ^ (7 * k) < 2 ^ 64 ->
  k + (zlen bytes - zlen rest) <= 10 -> (length bytes < fuel)%nat ->
  exists data', iter fuel (hdr_body delta) (data, size, 7 * k) s = Ok (size + n * 2 ^ (7 * k), data') s /\ left_at delta data' rest.
Proof.
  induction 1 as [|b bytes Hb Hbs IH]; intros data size k n rest fuel Hat Hp Hk Hsize Hn Hlen Hfuel; [done|].
  destruct fuel as [|fuel]; [simpl in Hfuel; lia|]. cbn [iter length] in *. unfold hdr_body at 1. unfold bind at 1 2. rewrite (left_rd _ _ _ _ s Hat).
  destruct (left_size _ _ _ Hat) as [_ Hsz]. rewrite zlen_cons in *.
  destruct (parse_size_cons b bytes n rest Hb Hbs Hp) as (Hn0 & Hrest & m & -> & Hm0 & Hm).
  pose proof (Z.pow_pos_nonneg 2 (7 * k) ltac:(lia) ltac:(lia)) as Hpow. rewrite low_bits. pose proof (Z.mod_pos_bound b 128) as Ha.
  assert (Hpow7 : 2 ^ (7 * (k + 1)) = 128 * 2 ^ (7 * k)) by (replace (7 * (k + 1)) with (7 * k + 7) by lia; rewrite Z.pow_add_r by lia; lia).
  unfold bind at 1. rewrite st_left_shift_ok by nia. rewrite has_bit7 by done.
  replace (Z.lor size (b mod 128 * 2 ^ (7 * k))) with (size + b mod 128 * 2 ^ (7 * k))
    by (rewrite <- lor_shifted by lia; by rewrite Z.shiftl_mul_pow2 by lia).
  destruct (Z.ltb_spec b 128) as [Hlt|Hge]; destruct Hm as [Hm1 Hm2].
  - replace (128 <=? b) with false by lia. subst m rest. exists (data + 1). split; [|by eapply left_next].
    unfold ret. cbn [andb]. do 2 f_equal. lia.
  - replace (128 <=? b) with true by lia. pose proof (zlen_pos rest). replace (data + 1 <? zlen delta) with true by lia. cbn [andb ret].
    replace (7 * k + 7) with (7 * (k + 1)) by lia.
    destruct (IH (data + 1) (size + b mod 128 * 2 ^ (7 * k)) (k + 1) m rest fuel) as (data' & E & Hat');
      [by eapply left_next|done|lia|rewrite Hpow7; nia|rewrite Hpow7; nia|lia|lia|].
    exists data'. split; [|done]. rewrite E. do 2 f_equal. rewrite Hpow7. lia.
Qed.
Lemma get_delta_hdr_size_ok delta data bytes n rest s : left_at delta data bytes -> Forall byte bytes ->
  parse_size bytes = Some (n, rest) -> n < 2 ^ 64 -> zlen bytes - zlen rest <= 10 ->
  exists data', get_delta_hdr_size delta data s = Ok (n, data') s /\ left_at delta data' rest.
Proof.
  intros Hat Hb Hp Hn Hl. destruct (hdr_loop delta s bytes Hb data 0 0 n rest (S (length delta))) as (data' & E & Hat'); [done|done|lia|lia|lia|lia| |].
  - destruct Hat as (pre & -> & _). rewrite length_app. lia.
  - exists data'. split; [|done]. etransitivity; [exact E|]. do 2 f_equal. lia.
Qed.

(** ** The loop of patch_delta() *)
(** the state of the heap, but for the messages of error() *)
Definition same_heap (s s' : Heap) : Prop := h_calls s' = h_calls s /\ h_live s' = h_live s.
(** where the loop ends: with the target, or so that it is discarded *)
Definition patched (delta : list Z) (p : patching) (r : option (list Z)) (e : patch_end) : Prop :=
  match r, e with
  | Some r, finished p' => p_data p' = zlen delta /\ p_size p' = 0 /\ p_out p' = p_out p + zlen r /\
      take (Z.to_nat (p_out p')) (p_dst p') = take (Z.to_nat (p_out p)) (p_dst p) ++ r
  | Some _, _ => False
  | None, finished p' => p_data p' <> zlen delta \/ p_size p' <> 0
  | None, _ => True
  end.
(** the buffer has room for what is to come, and one byte more *)
Definition roomy (p : patching) : Prop := 0 <= p_out p /\ 0 <= p_size p /\ zlen (p_dst p) = p_out p + p_size p + 1.
(** [bs] was put into the target *)
Definition put_target (p : patching) (data : Z) (bs : list Z) : patching :=
  mkPatching data (splice (Z.to_nat (p_out p)) bs (p_dst p)) (p_out p + zlen bs) (p_size p - zlen bs).

Lemma take_put p data bs : roomy p -> zlen bs <= p_size p ->
  take (Z.to_nat (p_out (put_target p data bs))) (p_dst (put_target p data bs)) = take (Z.to_nat (p_out p)) (p_dst p) ++ bs.
Proof.
  intros (H1 & H2 & H3) Hb. simpl. replace (Z.to_nat (p_out p + zlen bs)) with (Z.to_nat (p_out p) + length bs)%nat by (unfold zlen in *; lia).
  apply splice_full. unfold zlen in *. lia.
Qed.
Lemma roomy_put p data bs : roomy p -> zlen bs <= p_size p -> roomy (put_target p data bs).
Proof.
  intros (H1 & H2 & H3) Hb. pose proof (zlen_pos bs). repeat split; simpl; try lia.
  unfold zlen in *. rewrite length_splice; lia.
Qed.
Lemma patched_put delta p data bs r e : roomy p -> zlen bs <= p_size p ->
  patched delta (put_target p data bs) r e -> patched delta p (r' ← r; Some (bs ++ r')) e.
Proof.
  intros Hp Hb. destruct r as [r|], e as [| |p']; cbn [mbind option_bind patched]; try done.
  rewrite (take_put p data bs Hp Hb), zlen_app. intros (H1 & H2 & H3 & H4). simpl in H3.
  rewrite app_assoc. repeat split; [done|done|lia|done].
Qed.
(** what an operation does to the loop: the parser's answer decides *)
Definition op_effect (src delta : list Z) (p : patching) (r : option (dop * list Z)) (Q : patching + patch_end -> Heap -> Prop) (s : Heap) : Prop :=
  match r with
  | Some (op, rest) =>
      if op_fits src op && (op_size op <=? p_size p) then
        forall data, left_at delta data rest -> Q (inl (put_target p data (run_op src op))) s
      else Q (inr bad_length) s
  | None => forall s', same_heap s s' -> Q (inr bad) s' /\ Q (inr bad_length) s'
  end.
Section operation.
Context (src delta : list Z) (p : patching) (bytes : list Z) (s : Heap) (Q : patching + patch_end -> Heap -> Prop).
Context (Hsrc : zlen src < 2 ^ 63) (Hat : left_at delta (p_data p) bytes) (Hb : Forall byte bytes) (Hroom : roomy p).

Lemma wp_patch_copy cmd : has cmd 0x80 = true -> op_effect src delta p (parse_op cmd bytes) Q s -> wpe no_fault (patch_copy src delta cmd p) Q s.
Proof using Hsrc Hat Hb Hroom.
  intros Hcmd HQ. destruct Hroom as (Hout & Hsize & Hdst). unfold parse_op in HQ. rewrite Hcmd in HQ. unfold patch_copy. wp_step.
  destruct (parse_cp_params_ok delta cmd cp_off_params s ltac:(repeat constructor; simpl; lia) (p_data p) bytes 0 Hat Hb) as (r & E & Hr).
  change cp_off_params with offset_bytes in Hr.
  eapply wpe_ok; [exact E|]. clear E. destruct (parse_params cmd offset_bytes bytes 0) as [[off b1]|] eqn:Hp1; cbn [mbind option_bind] in HQ.
  2:{ subst r. wp_step. by apply (HQ s). }
  destruct Hr as (data1 & -> & Hat2 & Hb1). wp_step.
  destruct (parse_cp_params_ok delta cmd cp_size_params s ltac:(repeat constructor; simpl; lia) data1 b1 0 Hat2 Hb1) as (r & E & Hr).
  change cp_size_params with size_bytes in Hr.
  eapply wpe_ok; [exact E|]. clear E. pose proof (parse_params_nonneg _ _ _ 0 _ _ Hb ltac:(lia) Hp1) as Hoff.
  destruct (parse_params cmd size_bytes b1 0) as [[size b2]|] eqn:Hp2; cbn [mbind option_bind] in HQ.
  2:{ subst r. wp_step. by apply (HQ s). }
  destruct Hr as (data2 & -> & Hat3 & Hb2). pose proof (parse_params_nonneg _ _ _ 0 _ _ Hb1 ltac:(lia) Hp2) as Hsz. cbv zeta.
  set (n := if size =? 0 then 65536 else size) in *. assert (0 < n) by (unfold n; destruct (Z.eqb_spec size 0); lia).
  cbn [op_effect op_fits op_size run_op] in HQ. apply wpe_if; intros Hbad.
  - replace ((off + n <=? zlen src) && (n <=? p_size p)) with false in HQ by lia. by wp_step.
  - apply orb_false_iff in Hbad as [[_ H1%Z.ltb_ge]%orb_false_iff H2%Z.ltb_ge].
    replace ((off + n <=? zlen src) && (n <=? p_size p)) with true in HQ by lia.
    wp_step. eapply wpe_ok; [apply rd_n_inside; lia|].
    pose proof (zlen_slice src off n Hoff ltac:(lia) ltac:(lia)) as Hbs. unfold put_target in HQ. rewrite Hbs in HQ.
    wp_step. eapply wpe_ok; [apply memcpy_ok; lia|]. wp_step. by apply HQ.
Qed.
Lemma wp_patch_insert cmd : has cmd 0x80 = false -> 0 < cmd -> op_effect src delta p (parse_op cmd bytes) Q s ->
  wpe no_fault (patch_insert delta cmd p) Q s.
Proof using Hat Hroom.
  intros Hcmd Hpos HQ. destruct Hroom as (Hout & Hsize & Hdst). unfold parse_op in HQ. rewrite Hcmd in HQ.
  replace (cmd =? 0) with false in HQ by lia. destruct (left_size _ _ _ Hat) as [Hd Hl]. unfold patch_insert. rewrite Hl.
  apply wpe_if; intros Hbad.
  - wp_step. destruct (Z.ltb_spec (zlen bytes) cmd); [by apply (HQ s)|]. rewrite orb_false_r in Hbad. apply Z.ltb_lt in Hbad.
    cbn [op_effect op_fits op_size andb] in HQ.
    destruct (Z.leb_spec (zlen (take (Z.to_nat cmd) bytes)) (p_size p)) as [Hfit|]; [exfalso|done]. unfold zlen in *. rewrite length_take in Hfit. lia.
  - apply orb_false_iff in Hbad as [H1%Z.ltb_ge H2%Z.ltb_ge]. replace (zlen bytes <? cmd) with false in HQ by lia.
    cbn [op_effect op_fits op_size run_op andb] in HQ. assert (Hbs : zlen (take (Z.to_nat cmd) bytes) = cmd) by (unfold zlen in *; rewrite length_take; lia).
    rewrite Hbs in HQ. replace (cmd <=? p_size p) with true in HQ by lia.
    pose proof Hat as Hat1. rewrite <- (take_drop (Z.to_nat cmd) bytes) in Hat1. wp_step. rewrite <- Hbs at 1.
    eapply wpe_ok; [exact (left_rd_n _ _ _ _ s Hat1)|]. wp_step. eapply wpe_ok; [apply memcpy_ok; lia|]. wp_step.
    pose proof (left_skip _ _ _ _ Hat1) as Hat2. rewrite Hbs in Hat2. specialize (HQ _ Hat2). unfold put_target in HQ. by rewrite Hbs in HQ.
Qed.
End operation.
Lemma wp_patch_body src delta p cmd bytes s (Q : patching + patch_end -> Heap -> Prop) :
  zlen src < 2 ^ 63 -> left_at delta (p_data p) (cmd :: bytes) -> byte cmd -> Forall byte bytes -> roomy p ->
  op_effect src delta p (parse_op cmd bytes) Q s -> wpe no_fault (patch_body src delta p) Q s.
Proof.
  intros Hsrc Hat Hc Hb Hroom HQ. destruct (left_size _ _ _ Hat) as [_ Hl]. rewrite zlen_cons in Hl. pose proof (zlen_pos bytes).
  unfold patch_body. replace (p_data p <? zlen delta) with true by lia. wp_step.
  eapply wpe_ok; [exact (left_rd _ _ _ _ s Hat)|]. cbv zeta. pose proof (left_next _ _ _ _ Hat) as Hat1. unfold byte in Hc.
  apply wpe_if; intros Hcmd; [by apply (wp_patch_copy src delta (mkPatching (p_data p + 1) _ _ _) bytes)|].
  destruct (Z.eqb_spec cmd 0) as [->|Hnz]; cbn [negb].
  - wp_step. apply wpe_modify. wp_step. by apply HQ.
  - apply (wp_patch_insert src delta (mkPatching (p_data p + 1) (p_dst p) (p_out p) (p_size p)) bytes); [done..|lia|done].
Qed.
Lemma wp_patch_loop src delta n : forall bytes p s fuel, length bytes = n -> zlen src < 2 ^ 63 -> left_at delta (p_data p) bytes ->
  Forall byte bytes -> roomy p -> (length bytes < fuel)%nat ->
  wp (iter fuel (patch_body src delta) p) (fun e s' => same_heap s s' /\ patched delta p (replay src (p_size p) bytes) e) s.
Proof.
  induction n as [n IH] using lt_wf_ind. intros bytes p s fuel Hn Hsrc Hat Hb Hroom Hfuel.
  destruct fuel as [|fuel]; [lia|]. cbn [iter]. wp_step. destruct bytes as [|cmd bytes].
  - destruct (left_size _ _ _ Hat) as [_ Hl]. change (zlen []) with 0 in Hl. unfold patch_body. replace (p_data p <? zlen delta) with false by lia.
    do 2 wp_step. split; [done|]. rewrite replay_nil. destruct (Z.eqb_spec (p_size p) 0); simpl; [|by right].
    rewrite app_nil_r. repeat split; [lia|lia|change (zlen []) with 0; lia].
  - inversion_clear Hb as [|? ? Hc Hb']. eapply (wp_patch_body src delta p cmd bytes); [done..|].
    rewrite replay_cons by done. destruct (parse_op cmd bytes) as [[op rest]|] eqn:Hop; cbn [op_effect].
    2:{ intros s' Hs'. by split; wp_step. }
    destruct (parse_op_wf _ _ _ _ Hc Hb' Hop) as [Hwf Hrest]. destruct (op_fits src op) eqn:Hfit; cbn [andb]; [|by wp_step].
    destruct (Z.leb_spec (op_size op) (p_size p)); [|by wp_step]. intros data Hat'. pose proof (op_size_run src op Hwf Hfit) as Hsz.
    destruct (parse_op_rest _ _ _ _ Hop) as (bs & ->). simpl length in Hn, Hfuel. rewrite length_app in Hn, Hfuel.
    eapply wpe_mono; [apply (IH (length rest)); try done; [lia|by apply roomy_put; [|lia]|lia]|].
    intros e s' [Hs' He]. split; [done|]. apply (patched_put delta p data (run_op src op)); [done|lia|]. simpl in He. by rewrite Hsz in He.
Qed.

(** ** patch_delta() *)
(** the header of a delta: two sizes of at most ten groups that fit an unsigned
    long, and the program behind them *)
Record headed (delta : list Z) (src_size trg_size : Z) (program : list Z) : Prop := mkHeaded {
  hd_bytes : Forall byte delta;
  hd_min : DELTA_SIZE_MIN <= zlen delta;
  hd_sizes : exists rest, parse_size delta = Some (src_size, rest) /\ zlen delta - zlen rest <= 10 /\
    parse_size rest = Some (trg_size, program) /\ zlen rest - zlen program <= 10;
  hd_src : src_size < 2 ^ 64;
  hd_trg : trg_size < 2 ^ 64 - 1
}.
Definition patch_result (src : list Z) (src_size trg_size : Z) (program : list Z) : option (list Z) :=
  if src_size =? zlen src then replay src trg_size program else None.
Definition held (r : option (list Z)) : Z := match r with Some _ => 1 | None => 0 end.

Lemma zlen_block `{alloc_world} k i n : 0 <= i <= n -> zlen (block k i n) = n - i.
Proof. intros Hi. unfold block, zlen. rewrite length_map, length_seq. lia. Qed.
Lemma wp_wild (s s0 : Heap) (r : HP (option (list Z))) : h_live s = h_live s0 + 1 ->
  r = (error (str "delta replay has gone wild") ;; free ;; ret None) \/ r = (free ;; ret None) ->
  wp r (fun r s' => r = None /\ h_live s' = h_live s0) s.
Proof.
  intros Hs [->| ->]; repeat first [wp_step|apply wpe_modify]; (split; [done|]); simpl; lia.
Qed.
Lemma wp_patch_delta `{alloc_world} src delta n1 n2 program s : headed delta n1 n2 program -> zlen src < 2 ^ 63 ->
  malloc_ok (h_calls s) (n2 + 1) = true ->
  wp (patch_delta src delta) (fun r s' => r = patch_result src n1 n2 program /\ h_live s' = h_live s + held r) s.
Proof.
  intros [Hb Hmin (rest & Hp1 & Hl1 & Hp2 & Hl2) Hn1 Hn2] Hsrc Hok. unfold patch_delta. replace (zlen delta <? DELTA_SIZE_MIN) with false by lia.
  destruct (get_delta_hdr_size_ok delta 0 delta n1 rest s (left_all delta) Hb Hp1 Hn1 Hl1) as (d1 & E1 & Hat1).
  assert (Hbr : Forall byte rest) by (destruct Hat1 as (pre & -> & _); by apply Forall_app in Hb as [_ Hb]).
  destruct (get_delta_hdr_size_ok delta d1 rest n2 program s Hat1 Hbr Hp2 ltac:(lia) Hl2) as (d2 & E2 & Hat2).
  assert (Hbp : Forall byte program) by (destruct Hat2 as (pre & -> & _); by apply Forall_app in Hb as [_ Hb]).
  wp_step. eapply wpe_ok; [exact E1|]. cbv beta iota. unfold patch_result. destruct (Z.eqb_spec n1 (zlen src)) as [->|]; cbn [negb].
  2:{ wp_step. split; [done|]. simpl. lia. }
  wp_step. eapply wpe_ok; [exact E2|]. cbv beta iota. wp_step. unfold xmallocz, malloc.
  replace (2 ^ 64 - 1 - n2 <? 1) with false by lia. do 2 wp_step. wp_step. rewrite Hok. wp_step. apply wpe_modify. do 3 wp_step.
  destruct (parse_size_bound _ _ _ Hbr Hp2) as [Hn20 _]. set (s1 := mkHeap _ _ _). set (p := mkPatching _ _ _ _).
  eapply wpe_mono; [apply (wp_patch_loop src delta (length program) program p s1); try done|].
  - unfold roomy, p. cbn [p_out p_size p_dst]. split; [lia|]. split; [done|]. rewrite zlen_app, zlen_block by lia. change (zlen [0]) with 1. lia.
  - destruct Hat2 as (pre & -> & _). rewrite length_app. lia.
  - change (p_size p) with n2. intros e s2 [[_ Hlive] He]. cbv zeta. change (h_live s1) with (h_live s + 1) in Hlive.
    destruct (replay src n2 program) as [r|].
    + destruct e as [| |p']; [done..|]. destruct He as (-> & -> & Hout & Htake). rewrite !Z.eqb_refl. cbn [negb orb]. wp_step.
      split; [|simpl; lia]. simpl in Htake. by rewrite Htake.
    + assert (Hwild : forall m, m = (error (str "delta replay has gone wild") ;; free ;; ret None) \/ m = (free ;; ret None) ->
        wp m (fun r s' => r = None /\ h_live s' = h_live s + held r) s2).
      { intros m Hm. eapply wpe_mono; [by apply (wp_wild s2 s)|]. intros r s3 [-> ->]. split; [done|simpl; lia]. }
      destruct e as [| |p']; [apply Hwild; tauto..|]. apply wpe_if; intros Hend; [apply Hwild; tauto|]. exfalso.
      apply orb_false_iff in Hend as [H1 H2]. apply negb_false_iff, Z.eqb_eq in H1, H2. by destruct He.
Qed.

(** ** Writing a program *)
Definition param_bytes (x mask shift : Z) : list Z := if has x mask then [u8 (Z.shiftr x shift)] else [].
Definition param_bit (x mask bit : Z) : Z := if has x mask then bit else 0.
Definition copy_cmd (off size : Z) : Z :=
  Z.lor (Z.lor (Z.lor (Z.lor (Z.lor (Z.lor 0x80 (param_bit off 0xff 0x01)) (param_bit off 0xff00 0x02)) (param_bit off 0xff0000 0x04))
    (param_bit off 0xff000000 0x08)) (param_bit size 0xff 0x10)) (param_bit size 0xff00 0x20).
Definition copy_params (off size : Z) : list Z :=
  param_bytes off 0xff 0 ++ param_bytes off 0xff00 8 ++ param_bytes off 0xff0000 16 ++ param_bytes off 0xff000000 24 ++
  param_bytes size 0xff 0 ++ param_bytes size 0xff00 8.
Definition enc_op (op : dop) : list Z :=
  match op with Copy o n => copy_cmd o n :: copy_params o n | Insert bs => zlen bs :: bs end.
Definition enc_ops (ops : list dop) : list Z := concat (map enc_op ops).
(** what the format can say *)
Definition op_ok (op : dop) : Prop :=
  match op with Copy o n => 0 <= o < 2 ^ 32 /\ 0 < n <= 0x10000 | Insert bs => 0 < zlen bs < 128 /\ Forall byte bs end.

Lemma has_lor a b m : has (Z.lor a b) m = has a m || has b m.
Proof.
  unfold has. rewrite Z.land_lor_distr_l. destruct (Z.eqb_spec (Z.land a m) 0) as [->|Ha], (Z.eqb_spec (Z.land b m) 0) as [->|Hb]; try done.
  all: cbn [negb orb]; apply negb_true_iff, Z.eqb_neq; rewrite Z.lor_eq_0_iff; tauto.
Qed.
Lemma has_param x mask bit m : has (param_bit x mask bit) m = has x mask && has bit m.
Proof. unfold param_bit. by destruct (has x mask). Qed.
Lemma has_copy_cmd off size m : has (copy_cmd off size) m =
  (((((has 0x80 m || (has off 0xff && has 0x01 m)) || (has off 0xff00 && has 0x02 m)) || (has off 0xff0000 && has 0x04 m)) ||
    (has off 0xff000000 && has 0x08 m)) || (has size 0xff && has 0x10 m)) || (has size 0xff00 && has 0x20 m).
Proof. unfold copy_cmd. by rewrite !has_lor, !has_param. Qed.
Lemma land_byte x s : 0 <= s -> Z.land x (Z.shiftl 255 s) = Z.shiftl (u8 (Z.shiftr x s)) s.
Proof.
  intros Hs. apply Z.bits_inj'. intros i Hi. rewrite Z.land_spec. destruct (Z.le_gt_cases s i) as [Hle|Hlt].
  - rewrite !Z.shiftl_spec by lia. unfold u8. change 256 with (2 ^ 8). change 255 with (Z.ones 8).
    destruct (Z.lt_ge_cases (i - s) 8).
    + rewrite Z.mod_pow2_bits_low, Z.ones_spec_low, Z.shiftr_spec by lia. replace (i - s + s) with i by lia. apply andb_true_r.
    + rewrite Z.mod_pow2_bits_high, Z.ones_spec_high by lia. apply andb_false_r.
  - rewrite !Z.shiftl_spec_low by done. apply andb_false_r.
Qed.
Lemma parse_param_bytes x shift bit cmd ps bytes var : 0 <= shift -> has cmd bit = has x (Z.shiftl 255 shift) ->
  parse_params cmd ((bit, shift) :: ps) (param_bytes x (Z.shiftl 255 shift) shift ++ bytes) var =
  parse_params cmd ps bytes (Z.lor var (Z.land x (Z.shiftl 255 shift))).
Proof.
  intros Hs Hh. cbn [parse_params]. rewrite Hh. unfold param_bytes. destruct (has x (Z.shiftl 255 shift)) eqn:E; cbn [app].
  - by rewrite land_byte.
  - apply negb_false_iff, Z.eqb_eq in E. by rewrite E, Z.lor_0_r.
Qed.
Lemma copy_cmd_bits o n : has (copy_cmd o n) 0x80 = true /\ has (copy_cmd o n) 0x40 = false /\
  has (copy_cmd o n) 0x01 = has o 0xff /\ has (copy_cmd o n) 0x02 = has o 0xff00 /\ has (copy_cmd o n) 0x04 = has o 0xff0000 /\
  has (copy_cmd o n) 0x08 = has o 0xff000000 /\ has (copy_cmd o n) 0x10 = has n 0xff /\ has (copy_cmd o n) 0x20 = has n 0xff00.
Proof.
  rewrite !has_copy_cmd. destruct (has o 0xff), (has o 0xff00), (has o 0xff0000), (has o 0xff000000), (has n 0xff), (has n 0xff00);
    repeat split; reflexivity.
Qed.
Lemma parse_params_nil cmd bytes var : parse_params cmd [] bytes var = Some (var, bytes).
Proof. done. Qed.
Lemma parse_copy_params o n rest : 0 <= o < 2 ^ 32 -> 0 < n <= 0x10000 ->
  parse_op (copy_cmd o n) (copy_params o n ++ rest) = Some (Copy o n, rest).
Proof.
  intros Ho Hn. destruct (copy_cmd_bits o n) as (H80 & H40 & H1 & H2 & H4 & H8 & H10 & H20).
  unfold parse_op, copy_params, offset_bytes, size_bytes. rewrite H80, <- !app_assoc.
  rewrite (parse_param_bytes o 0 1), (parse_param_bytes o 8 2), (parse_param_bytes o 16 4), (parse_param_bytes o 24 8) by done.
  rewrite parse_params_nil. cbn [mbind option_bind].
  rewrite (parse_param_bytes n 0 0x10), (parse_param_bytes n 8 0x20) by done. cbn [parse_params]. rewrite H40. cbn [mbind option_bind].
  rewrite !Z.lor_0_l, <- !Z.land_lor_distr_r. change (Z.lor (Z.shiftl 255 0) (Z.shiftl 255 8)) with (Z.ones 16).
  change (Z.lor (Z.lor (Z.ones 16) (Z.shiftl 255 16)) (Z.shiftl 255 24)) with (Z.ones 32). rewrite !Z.land_ones by lia.
  rewrite (Z.mod_small o) by done. do 3 f_equal. destruct (Z.eq_dec n 0x10000) as [->|]; [done|].
  rewrite Z.mod_small by lia. by replace (n =? 0) with false by lia.
Qed.
Lemma byte_lor a b : byte a -> byte b -> byte (Z.lor a b).
Proof.
  unfold byte. intros Ha Hb. assert (0 <= Z.lor a b) by (apply Z.lor_nonneg; lia). split; [done|]. change 256 with (2 ^ 8).
  apply bits_small; [done..|]. intros i Hi. by rewrite Z.lor_spec, !(small_bits _ 8) by done.
Qed.
Lemma byte_param_bit x mask bit : byte bit -> byte (param_bit x mask bit).
Proof. intros H. unfold param_bit. by destruct (has x mask). Qed.
Lemma copy_cmd_byte o n : byte (copy_cmd o n).
Proof. unfold copy_cmd. repeat apply byte_lor; try apply byte_param_bit; done. Qed.
Lemma param_bytes_byte x mask shift : Forall byte (param_bytes x mask shift).
Proof. unfold param_bytes. destruct (has x mask); [|constructor]. repeat constructor; apply u8_range. Qed.
Lemma param_bytes_size x mask shift : zlen (param_bytes x mask shift) <= 1.
Proof. unfold param_bytes. by destruct (has x mask). Qed.
Lemma copy_params_size o n : zlen (copy_params o n) <= 6.
Proof.
  unfold copy_params. rewrite !zlen_app. pose proof (param_bytes_size o 0xff 0). pose proof (param_bytes_size o 0xff00 8).
  pose proof (param_bytes_size o 0xff0000 16). pose proof (param_bytes_size o 0xff000000 24). pose proof (param_bytes_size n 0xff 0).
  pose proof (param_bytes_size n 0xff00 8). lia.
Qed.

Lemma enc_op_byte op : op_ok op -> Forall byte (enc_op op).
Proof.
  destruct op as [o n|bs]; simpl.
  - intros _. constructor; [apply copy_cmd_byte|]. unfold copy_params. repeat (apply Forall_app; split); apply param_bytes_byte.
  - intros [H1 H2]. constructor; [unfold byte; lia|done].
Qed.
Lemma parse_enc_op op rest : op_ok op -> exists cmd bytes, enc_op op ++ rest = cmd :: bytes /\ parse_op cmd bytes = Some (op, rest).
Proof.
  destruct op as [o n|bs]; simpl.
  - intros [Ho Hn]. eexists _, _. split; [done|]. by apply parse_copy_params.
  - intros [Hl Hb]. eexists _, _. split; [done|]. unfold parse_op. rewrite has_bit7 by (unfold byte; lia).
    replace (128 <=? zlen bs) with false by lia. replace (zlen bs =? 0) with false by lia. rewrite zlen_app. pose proof (zlen_pos rest).
    replace (zlen bs + zlen rest <? zlen bs) with false by lia. unfold zlen. by rewrite Nat2Z.id, take_app_length, drop_app_length.
Qed.
(** a program is read as it was written *)
Lemma parse_enc_ops ops : Forall op_ok ops -> parse_ops (enc_ops ops) = Some ops.
Proof.
  induction 1 as [|op ops Hop _ IH]; [done|]. unfold enc_ops in *. cbn [map concat].
  destruct (parse_enc_op op (concat (map enc_op ops)) Hop) as (cmd & bytes & -> & E). rewrite parse_ops_cons, E. cbn [mbind option_bind].
  by rewrite IH.
Qed.
Lemma enc_ops_byte ops : Forall op_ok ops -> Forall byte (enc_ops ops).
Proof. induction 1 as [|op ops Hop _ IH]; [constructor|]. apply Forall_app. split; [by apply enc_op_byte|done]. Qed.
