(* ===== verification/GitIndex.v ===== *)
(** * git: the index of a source buffer

    create_delta_index(): the entries of a bucket are a list of links into one
    array ([chain]); every link leads to an older entry, so that a list meets
    no entry twice.  Culling a bucket leaves exactly HASH_LIMIT of its entries
    and never runs over the end of the list, and the packed index has them all,
    bucket by bucket. *)
From S2P Require Import Prelude GitBase GitDelta GitRabin GitPatch.

(** ** The hash of a window *)
Lemma fold_window buf bs : Forall byte bs -> forall rest data i v s, left_at buf (data + i) (bs ++ rest) -> hash_range v ->
  fold_i (length bs) i (fun i val => b <- rd buf (data + i) ;; rabin val b) v s = Ok (rabin_hash v bs) s.
Proof.
  induction 1 as [|b bs Hb _ IH]; intros rest data i v s Hat Hv; [done|]. cbn [length fold_i app] in *. unfold bind at 1 2.
  rewrite (left_rd _ _ _ _ s Hat), rabin_ok by done. rewrite (IH rest); [done| |by apply rabin_step_range].
  replace (data + (i + 1)) with (data + i + 1) by lia. by eapply left_next.
Qed.
(** the bytes behind [data], as many as a window has *)
Definition window (buf : list Z) (data : Z) : list Z := take 16 (drop (Z.to_nat data) buf).
Lemma left_drop buf i : 0 <= i <= zlen buf -> left_at buf i (drop (Z.to_nat i) buf).
Proof. intros Hi. exists (take (Z.to_nat i) buf). rewrite take_drop. split; [done|]. unfold zlen in *. rewrite length_take. lia. Qed.
Lemma window_length buf i : 0 <= i -> i + 16 <= zlen buf -> length (window buf i) = 16%nat.
Proof. intros. unfold window, zlen in *. rewrite length_take, length_drop. lia. Qed.
Lemma window_bytes buf i : Forall byte buf -> Forall byte (window buf i).
Proof. intros H. by apply Forall_take, Forall_drop. Qed.
Lemma fold_window_at buf data i s : Forall byte buf -> 0 <= data + i -> data + i + 16 <= zlen buf ->
  fold_i (Z.to_nat RABIN_WINDOW) i (fun i val => b <- rd buf (data + i) ;; rabin val b) 0 s = Ok (rabin_hash 0 (window buf (data + i))) s.
Proof.
  intros Hb H1 H2. change (Z.to_nat RABIN_WINDOW) with 16%nat. rewrite <- (window_length buf (data + i)) by done.
  apply (fold_window buf _ (window_bytes _ _ Hb) (drop 16 (drop (Z.to_nat (data + i)) buf))); [|done].
  unfold window. rewrite take_drop. apply left_drop. lia.
Qed.
(** the hash of the window that ends at [ptr] *)
Definition window_hash (buf : list Z) (ptr : Z) : Z := rabin_hash 0 (window buf (ptr - 15)).
Lemma window_hash_range buf ptr : Forall byte buf -> hash_range (window_hash buf ptr).
Proof. intros Hb. apply rabin_hash_range; [by apply window_bytes|done]. Qed.
Lemma hash_window_ok buf data s : Forall byte buf -> 0 <= data -> data + 16 < zlen buf ->
  hash_window buf data s = Ok (window_hash buf (data + 16)) s.
Proof.
  intros Hb H1 H2. unfold hash_window, window_hash. replace (data + 16 - 15) with (data + 1) by lia. apply fold_window_at; [done|lia..].
Qed.

(** ** Lists of entries *)
#[local] Abbreviation entry := unpacked_index_entry (only parsing).
Fixpoint chain (ents : list entry) (p : option Z) (l : list Z) : Prop :=
  match l with
  | [] => p = None
  | a :: l => p = Some a /\ exists e, idx ents a = Some e /\ chain ents (ue_next e) l
  end.
(** a link leads to an older entry *)
Definition older (ents : list entry) : Prop := forall a e b, idx ents a = Some e -> ue_next e = Some b -> 0 <= b < a.

Lemma chain_below ents a l : older ents -> chain ents (Some a) (a :: l) -> Forall (fun b => 0 <= b < a) l.
Proof.
  intros Ho. revert a. induction l as [|b l IH]; intros a Hc; [constructor|].
  destruct Hc as (_ & e & He & Hb & e' & He' & Hl). pose proof (Ho a e b He Hb). constructor; [done|].
  eapply List.Forall_impl; [|apply (IH b); split; [done|by exists e']]. simpl. intros c Hc. lia.
Qed.
Lemma chain_defined ents p l : chain ents p l -> Forall (fun a => exists e, idx ents a = Some e) l.
Proof. revert p. induction l as [|a l IH]; intros p; [constructor|]. intros (_ & e & He & Hl). constructor; [by exists e|by eapply IH]. Qed.
Lemma chain_head ents p a l : chain ents p (a :: l) -> chain ents (Some a) (a :: l).
Proof. by intros (_ & H). Qed.
Lemma chain_tail ents p l1 a l2 : chain ents p (l1 ++ a :: l2) -> chain ents (Some a) (a :: l2).
Proof. revert p. induction l1 as [|b l1 IH]; intros p; [apply chain_head|]. intros (_ & e & _ & H). by apply (IH (ue_next e)). Qed.
Lemma chain_length ents p l : older ents -> chain ents p l -> (length l <= length ents)%nat.
Proof.
  intros Ho. destruct l as [|a l]; [simpl; lia|]. intros Hc%chain_head. assert (Ha : 0 <= a < zlen ents) by (destruct Hc as (_ & e & He & _); by apply idx_bound in He).
  enough (Z.of_nat (length l) <= a) by (unfold zlen in *; simpl; lia). clear p.
  revert a Hc Ha. induction l as [|b l IH]; intros a Hc Ha; [simpl; lia|].
  pose proof (chain_below _ _ _ Ho Hc) as Hb. inversion_clear Hb as [|? ? Hb1 _].
  destruct Hc as (_ & e & _ & Hc). apply chain_head in Hc. specialize (IH b Hc ltac:(lia)). simpl. lia.
Qed.
Lemma chain_ext ents ents' p l : Forall (fun a => exists e e', idx ents a = Some e /\ idx ents' a = Some e' /\ ue_next e' = ue_next e) l ->
  chain ents p l -> chain ents' p l.
Proof.
  intros Hl. revert p. induction Hl as [|a l (e & e' & He & He' & Hn) _ IH]; intros p; [done|]. intros (-> & e0 & He0 & Hc).
  split; [done|]. exists e'. split; [done|]. rewrite Hn. apply IH. congruence.
Qed.
Lemma chain_app_ents ents x p l : chain ents p l -> chain (ents ++ x) p l.
Proof.
  intros Hc. eapply chain_ext; [|exact Hc]. eapply List.Forall_impl; [|exact (chain_defined _ _ _ Hc)].
  intros a (e & He). exists e, e. split; [done|]. split; [by apply idx_app|done].
Qed.
(** the entries behind [a] up to [b] are taken out *)
Lemma chain_cut ents p l1 a mid b rest ea eb : older ents -> chain ents p (l1 ++ a :: mid ++ b :: rest) ->
  idx ents a = Some ea -> idx ents b = Some eb ->
  chain (<[Z.to_nat a := mkUnpacked (ue_entry ea) (ue_next eb)]> ents) p (l1 ++ a :: rest).
Proof.
  intros Ho Hc Ha Hb. pose proof (idx_bound _ _ _ Ha) as Hr. set (ents' := <[_ := _]> ents).
  assert (Htail : chain ents' (Some a) (a :: rest)).
  { split; [done|]. eexists. split; [unfold ents'; rewrite idx_insert, Z.eqb_refl by done; done|]. cbn [ue_next].
    pose proof (chain_tail ents p l1 a _ Hc) as Hca. pose proof (chain_below _ _ _ Ho Hca) as Hbelow.
    apply (chain_tail ents (Some a) (a :: mid) b) in Hca. destruct Hca as (_ & e & He & Hrest). replace e with eb in Hrest by congruence.
    eapply chain_ext; [|exact Hrest]. apply Forall_app in Hbelow as [_ Hbelow]. inversion_clear Hbelow as [|? ? _ Hbl].
    pose proof (chain_defined _ _ _ Hrest) as Hdef. apply List.Forall_forall. intros c Hc'. rewrite List.Forall_forall in Hbl, Hdef.
    destruct (Hdef c Hc') as (ec & Hec). specialize (Hbl c Hc'). simpl in Hbl. exists ec, ec. unfold ents'. rewrite idx_insert by done.
    by replace (c =? a) with false by lia. }
  revert p Hc. induction l1 as [|c l1 IH]; intros p Hc; cbn [app] in *; [by destruct Hc as (-> & _)|].
  pose proof Hc as Hc0. destruct Hc as (-> & e & He & Hc). split; [done|]. exists e.
  pose proof (chain_below _ _ _ Ho Hc0) as Hbelow. apply Forall_app in Hbelow as [_ Hbelow]. inversion_clear Hbelow as [|? ? Hac _].
  split; [|by apply IH]. unfold ents'. rewrite idx_insert by done. by replace (c =? a) with false by lia.
Qed.

(** ** The buckets *)
Definition entry_ok (src : list Z) (e : index_entry) : Prop :=
  RABIN_WINDOW <= ie_ptr e < zlen src /\ ie_ptr e <= 0xfffffffe /\ ie_val e = window_hash src (ie_ptr e).
Definition in_bucket (ents : list entry) (mask i a : Z) : Prop := exists e, idx ents a = Some e /\ Z.land (ie_val (ue_entry e)) mask = i.
(** the lists of the buckets are [chains] *)
Record buckets (src : list Z) (ents : list entry) (hash : list (option Z)) (chains : list (list Z)) : Prop := mkBuckets {
  bk_entries : Forall (fun e => entry_ok src (ue_entry e)) ents;
  bk_older : older ents;
  bk_length : length hash = length chains;
  bk_chain : forall i l, chains !! i = Some l -> exists p, hash !! i = Some p /\ chain ents p l;
  bk_bucket : forall i l, chains !! i = Some l -> Forall (in_bucket ents (zlen chains - 1) (Z.of_nat i)) l
}.
Definition total (chains : list (list Z)) : Z := Z.of_nat (sum_list_with length chains).
Lemma total_insert chains i l l' : chains !! i = Some l -> total (<[i := l']> chains) + zlen l = total chains + zlen l'.
Proof.
  unfold total, zlen. revert i. induction chains as [|c chains IH]; intros i; [done|]. destruct i as [|i].
  - intros [= ->]. change (<[0%nat := l']> (l :: chains)) with (l' :: chains). cbn [sum_list_with]. lia.
  - intros H. specialize (IH i H). change (<[S i := l']> (c :: chains)) with (c :: <[i := l']> chains). cbn [sum_list_with]. lia.
Qed.
Lemma mask_range v k : 0 <= k -> 0 <= v -> 0 <= Z.land v (2 ^ k - 1) < 2 ^ k.
Proof. intros Hk Hv. replace (2 ^ k - 1) with (Z.ones k) by (rewrite Z.ones_equiv; lia). rewrite Z.land_ones by done. apply Z.mod_pos_bound, Z.pow_pos_nonneg; lia. Qed.

(** an entry is changed, but not its hash nor its link *)
Lemma buckets_touch src ents hash chains i e e' : buckets src ents hash chains -> idx ents i = Some e -> ue_next e' = ue_next e ->
  ie_val (ue_entry e') = ie_val (ue_entry e) -> entry_ok src (ue_entry e') -> buckets src (<[Z.to_nat i := e']> ents) hash chains.
Proof.
  intros [H1 H2 H3 H4 H5] He Hn Hv Hok. pose proof (idx_bound _ _ _ He) as Hi.
  assert (Hsame : forall a x, idx ents a = Some x -> exists x', idx (<[Z.to_nat i := e']> ents) a = Some x' /\ ue_next x' = ue_next x /\
    ie_val (ue_entry x') = ie_val (ue_entry x)).
  { intros a x Hx. rewrite idx_insert by done. destruct (Z.eqb_spec a i) as [->|]; [exists e'|by exists x]. by replace x with e by congruence. }
  split; [by apply Forall_insert| |done| |].
  - intros a x b Hx Hb. rewrite idx_insert in Hx by done. destruct (Z.eqb_spec a i) as [->|]; [|by apply (H2 a x b)].
    injection Hx as <-. apply (H2 i e b); [done|congruence].
  - intros j l Hl. destruct (H4 j l Hl) as (p & Hp & Hc). exists p. split; [done|]. eapply chain_ext; [|exact Hc].
    eapply List.Forall_impl; [|exact (chain_defined _ _ _ Hc)]. intros a (x & Hx). destruct (Hsame a x Hx) as (x' & Hx' & Hn' & _).
    by exists x, x'.
  - intros j l Hl. eapply List.Forall_impl; [|exact (H5 j l Hl)]. intros a (x & Hx & Hb). destruct (Hsame a x Hx) as (x' & Hx' & _ & Hv').
    exists x'. by rewrite Hv'.
Qed.
(** a new entry at the head of its bucket *)
Lemma buckets_push src ents hash chains i l p e : buckets src ents hash chains -> chains !! i = Some l -> hash !! i = Some p ->
  entry_ok src (ue_entry e) -> ue_next e = p -> Z.land (ie_val (ue_entry e)) (zlen chains - 1) = Z.of_nat i ->
  buckets src (ents ++ [e]) (<[i := Some (zlen ents)]> hash) (<[i := zlen ents :: l]> chains).
Proof.
  intros [H1 H2 H3 H4 H5] Hl Hp Hok Hn Hb. assert (Hi : (i < length hash)%nat) by (by apply lookup_lt_Some in Hp).
  destruct (H4 i l Hl) as (p' & Hp' & Hc). replace p' with p in * by congruence. split.
  - apply Forall_app. split; [done|]. by constructor.
  - intros a x b Hx Hb'. destruct (Z.eq_dec a (zlen ents)) as [->|Hne].
    + rewrite idx_end in Hx. injection Hx as <-. rewrite Hn in Hb'. rewrite Hb' in Hc. destruct l as [|c l]; [discriminate Hc|].
      destruct Hc as ([= ->] & x & Hx & _). by apply idx_bound in Hx.
    + pose proof (idx_bound _ _ _ Hx) as Hr. rewrite zlen_app in Hr. change (zlen [e]) with 1 in Hr.
      apply (H2 a x b); [|done]. destruct (idx_lt ents a) as (y & Hy); [lia|]. rewrite (idx_app _ [e] _ _ Hy) in Hx. congruence.
  - by rewrite !length_insert.
  - intros j m. destruct (decide (i = j)) as [<-|Hij].
    + rewrite list_lookup_insert_eq by lia. intros [= <-]. exists (Some (zlen ents)). split; [by apply list_lookup_insert_eq|].
      split; [done|]. exists e. split; [apply idx_end|]. rewrite Hn. by apply chain_app_ents.
    + rewrite !list_lookup_insert_ne by done. intros Hm. destruct (H4 j m Hm) as (q & Hq & Hcq). exists q. split; [done|by apply chain_app_ents].
  - rewrite zlen_insert. assert (Hold : forall j m, chains !! j = Some m -> Forall (in_bucket (ents ++ [e]) (zlen chains - 1) (Z.of_nat j)) m).
    { intros j m Hm. eapply List.Forall_impl; [|exact (H5 j m Hm)]. intros a (x & Hx & Hv). exists x. split; [by apply idx_app|done]. }
    intros j m. destruct (decide (i = j)) as [<-|Hij].
    + rewrite list_lookup_insert_eq by lia. intros [= <-]. constructor; [|by apply Hold]. exists e. split; [apply idx_end|done].
    + rewrite list_lookup_insert_ne by done. apply Hold.
Qed.

(** ** Filling the index *)
(** [m] windows are left, [prev] is the hash of the last one *)
Record populated (src : list Z) (cap m prev : Z) (chains : list (list Z)) (ui : unpacked_index) : Prop := mkPopulated {
  pp_buckets : buckets src (ui_ents ui) (ui_hash ui) chains;
  pp_count : ui_count ui = map zlen chains;
  pp_entries : ui_entries ui = zlen (ui_ents ui) + m;
  pp_cap : ui_entries ui <= cap;
  pp_total : total chains = zlen (ui_ents ui);
  pp_prev : prev = 0xffffffff \/ exists e, idx (ui_ents ui) (zlen (ui_ents ui) - 1) = Some e /\ ie_val (ue_entry e) = prev
}.
Lemma wp_populate_body src cap k m prev chains ui s (Q : Z * Z * unpacked_index + unpacked_index -> Heap -> Prop) :
  Forall byte src -> 0 <= k -> zlen chains = 2 ^ k -> 0 < m -> 16 * m < zlen src -> 16 * m <= 0xfffffffe -> cap < 2 ^ 31 ->
  populated src cap m prev chains ui ->
  (forall prev' chains' ui', zlen chains' = 2 ^ k -> populated src cap (m - 1) prev' chains' ui' -> Q (inl (16 * (m - 1) - 16, prev', ui')) s) ->
  wpe no_fault (populate_body src cap (2 ^ k - 1) (16 * m - 16, prev, ui)) Q s.
Proof.
  intros Hb Hk Hlen Hm Hsrc Hmax Hcap [Hbk Hcnt Hent Hle Htot Hprev] HQ. unfold populate_body. replace (0 <=? 16 * m - 16) with true by lia.
  wp_step. eapply wpe_ok; [apply hash_window_ok; [done|lia..]|]. replace (16 * m - 16 + 16) with (16 * m) by lia.
  set (v := window_hash src (16 * m)). pose proof (window_hash_range src (16 * m) Hb) as Hv. fold v in Hv. unfold hash_range in Hv.
  unfold RABIN_WINDOW. replace (16 * m - 16 + 16) with (16 * m) by lia. replace (16 * m - 16 - 16) with (16 * (m - 1) - 16) by lia.
  assert (Hok : entry_ok src (mkEntry (16 * m) v)) by (unfold entry_ok, RABIN_WINDOW; simpl; repeat split; lia).
  pose proof (zlen_pos (ui_ents ui)). cbv zeta. destruct (Z.eqb_spec v prev) as [<-|Hne].
  - destruct Hprev as [Hprev|(e & He & Hev)]; [lia|]. pose proof (idx_bound _ _ _ He) as Hi. wp_step. apply (wpe_lift _ _ _ e); [done|].
    wp_step. eapply wpe_lift; [apply upd_lt; lia|]. wp_step. rewrite Hev. apply (HQ v chains); [done|].
    rewrite u32_small by lia. split; simpl; rewrite ?zlen_insert; try done; [|lia|lia|].
    + apply (buckets_touch _ _ _ _ _ e); [done..|]. exact Hok.
    + right. eexists. split; [rewrite idx_insert, Z.eqb_refl by lia; done|done].
  - pose proof (mask_range v k Hk ltac:(lia)) as Hi. set (i := Z.land v (2 ^ k - 1)) in *.
    pose proof (bk_length _ _ _ _ Hbk) as Hhl.
    destruct (lookup_lt_is_Some_2 chains (Z.to_nat i)) as [l Hl]; [unfold zlen in Hlen; lia|].
    destruct (bk_chain _ _ _ _ Hbk _ _ Hl) as (p & Hp & Hc).
    pose proof (fun A (x : list A) => idx_to_nat x i) as Hidx.
    wp_step. apply (wpe_lift _ _ _ p); [by apply Hidx; [lia|]|]. wp_step. rewrite Hcnt.
    apply (wpe_lift _ _ _ (zlen l)); [apply Hidx; [lia|]; by rewrite list_lookup_fmap, Hl|].
    replace (cap <=? zlen (ui_ents ui)) with false by lia. do 2 wp_step. wp_step. eapply wpe_lift; [apply upd_lt; unfold zlen in *; lia|].
    wp_step. eapply wpe_lift; [apply upd_lt; unfold zlen in *; rewrite length_map; lia|]. wp_step.
    pose proof (total_insert chains (Z.to_nat i) l (zlen (ui_ents ui) :: l) Hl) as Ht. rewrite zlen_cons in Ht.
    assert (zlen l <= zlen (ui_ents ui)) by (pose proof (chain_length _ _ _ (bk_older _ _ _ _ Hbk) Hc); unfold zlen; lia).
    apply (HQ v (<[Z.to_nat i := zlen (ui_ents ui) :: l]> chains)); [by rewrite zlen_insert|]. split; cbn [ui_ents ui_hash ui_count ui_entries].
    + apply (buckets_push _ _ _ _ _ _ p); try done. rewrite Hlen. cbn [ue_entry ie_val]. lia.
    + rewrite u32_small by (pose proof (zlen_pos l); lia). rewrite list_fmap_insert. f_equal. rewrite zlen_cons. lia.
    + rewrite zlen_app. change (zlen [_]) with 1. lia.
    + lia.
    + rewrite zlen_app. change (zlen [_]) with 1. lia.
    + right. rewrite zlen_app. change (zlen [_]) with 1. replace (zlen (ui_ents ui) + 1 - 1) with (zlen (ui_ents ui)) by lia.
      eexists. split; [apply idx_end|done].
Qed.

(** ** Culling a bucket *)
Lemma deref_ok ents a e s : idx ents a = Some e -> deref ents (Some a) s = Ok e s.
Proof. intros He. unfold deref, bind. cbn [lift ret]. by rewrite He. Qed.
(** the inner loop: as many entries are skipped as [acc] has room for *)
Lemma cull_skip_loop ents s rest : forall a acc fuel, chain ents (Some a) (a :: rest) -> 0 < acc <= 64 * Z.of_nat (length rest) ->
  acc < 2 ^ 31 -> (length rest <= fuel)%nat ->
  exists mid b rest' acc', rest = mid ++ b :: rest' /\ iter fuel (cull_skip ents) (Some a, acc) s = Ok (Some b, acc') s /\
    acc' = acc - 64 * (Z.of_nat (length mid) + 1) /\ -64 < acc' <= 0.
Proof.
  induction rest as [|b rest IH]; intros a acc fuel Hc Hacc Hmax Hfuel; [simpl in Hacc; lia|].
  destruct fuel as [|fuel]; [simpl in Hfuel; lia|]. cbn [iter length] in *. pose proof Hc as (_ & e & He & Hb & Hc').
  assert (Hbody : cull_skip ents (Some a, acc) s = Ok (if 0 <? acc - 64 then inl (Some b, acc - 64) else inr (Some b, acc - 64)) s).
  { unfold cull_skip, HASH_LIMIT. rewrite (bind_ok _ _ _ _ _ (deref_ok _ _ _ s He)), Hb. by rewrite i32_small by lia. }
  unfold bind. rewrite Hbody. destruct (Z.ltb_spec 0 (acc - 64)).
  - destruct (IH b (acc - 64) fuel) as (mid & c & rest' & acc' & -> & E & Ea & Hr); [by split|lia|lia|lia|].
    exists (b :: mid), c, rest', acc'. split; [done|]. split; [exact E|]. split; [simpl; lia|done].
  - exists [], b, rest, (acc - 64). repeat split; simpl; lia || done.
Qed.
(** what culling changes: links, of entries of this bucket *)
Record culled (ents ents' : list entry) (l l' : list Z) : Prop := mkCulled {
  cu_older : older ents';
  cu_size : length ents' = length ents;
  cu_entry : forall a e', idx ents' a = Some e' -> exists e, idx ents a = Some e /\ ue_entry e = ue_entry e';
  cu_other : forall a, ~ In a l -> idx ents' a = idx ents a;
  cu_sub : incl l' l
}.
Lemma culled_refl ents l : older ents -> culled ents ents l l.
Proof. intros H. split; [done..|intros a e' He; by exists e'|done|by intros a]. Qed.
Lemma culled_trans ents1 ents2 ents3 l1 l2 l3 : culled ents1 ents2 l1 l2 -> culled ents2 ents3 l2 l3 -> culled ents1 ents3 l1 l3.
Proof.
  intros [_ S1 E1 O1 I1] [H S2 E2 O2 I2]. split; [done|congruence| | |].
  - intros a e3 H3. destruct (E2 a e3 H3) as (e2 & H2 & E). destruct (E1 a e2 H2) as (e1 & H1 & E'). exists e1. split; [done|congruence].
  - intros a Ha. rewrite O2 by (intros Hin; apply Ha, I1, Hin). by apply O1.
  - intros a Ha. by apply I1, I2.
Qed.
Lemma culled_cut ents p l1 a mid b rest ea eb : older ents -> chain ents p (l1 ++ a :: mid ++ b :: rest) ->
  idx ents a = Some ea -> idx ents b = Some eb ->
  culled ents (<[Z.to_nat a := mkUnpacked (ue_entry ea) (ue_next eb)]> ents) (l1 ++ a :: mid ++ b :: rest) (l1 ++ a :: rest).
Proof.
  intros Ho Hc Ha Hb. pose proof (idx_bound _ _ _ Ha) as Hr.
  assert (Hba : b < a). { pose proof (chain_below _ _ _ Ho (chain_tail _ _ _ _ _ Hc)) as H. apply Forall_app in H as [_ H]. inversion_clear H. lia. }
  split.
  - intros x e c Hx Hn. rewrite idx_insert in Hx by done. destruct (Z.eqb_spec x a) as [->|]; [|by apply (Ho x e c)].
    injection Hx as <-. pose proof (Ho b eb c Hb Hn). lia.
  - by rewrite length_insert.
  - intros x e' Hx. rewrite idx_insert in Hx by done. destruct (Z.eqb_spec x a) as [->|]; [|by exists e']. injection Hx as <-. by exists ea.
  - intros x Hx. rewrite idx_insert by done. destruct (Z.eqb_spec x a) as [->|]; [|done]. exfalso. apply Hx, in_app_iff. right. by left.
  - intros x. rewrite !in_app_iff. intros [H|[H|H]]; [by left|right; by left|right]. right. apply in_app_iff. right. by right.
Qed.

(** the list behind an entry, and the end of the loop *)
Lemma cull_next ents b rest s (A : Type) (f : entry -> A) : chain ents (Some b) (b :: rest) ->
  exists e, idx ents b = Some e /\ (e' <- deref ents (Some b) ;; ret (f e')) s = Ok (f e) s /\
    ue_next e = match rest with [] => None | c :: _ => Some c end.
Proof.
  intros (_ & e & He & Hc). exists e. split; [done|]. split; [by rewrite (bind_ok _ _ _ _ _ (deref_ok _ _ _ s He))|].
  destruct rest; [done|]. by destruct Hc as (-> & _).
Qed.
(** the outer loop: [kept] entries are kept, [r] were skipped *)
Lemma cull_loop p n s : 64 < n < 2 ^ 31 -> forall fuel ents kept a rest acc r, older ents -> chain ents p (kept ++ a :: rest) ->
  n = zlen kept + r + 1 + zlen rest -> zlen kept < 64 -> 0 <= r -> acc = zlen kept * (n - 64) - 64 * r -> -64 < acc <= 0 ->
  (length rest < fuel)%nat ->
  exists ents' l', iter fuel (cull_body n) (Some a, acc, ents) s = Ok ents' s /\ chain ents' p l' /\ length l' = 64%nat /\
    culled ents ents' (kept ++ a :: rest) l'.
Proof.
  intros Hn. induction fuel as [|fuel IH]; intros ents kept a rest acc r Ho Hc Hlen Hk Hr Hacc Hrange Hfuel; [lia|].
  assert (Hgo : forall ents1 b rest1 acc1 r1, older ents1 -> chain ents1 p (kept ++ a :: rest1) -> chain ents1 (Some b) (b :: rest1) ->
    n = zlen kept + r1 + 1 + zlen rest1 -> (length rest1 <= length rest)%nat -> 0 <= r1 -> acc1 = (zlen kept + 1) * (n - 64) - 64 * r1 -> -64 < acc1 <= 0 ->
    culled ents ents1 (kept ++ a :: rest) (kept ++ a :: rest1) ->
    (let* (entry, acc, ents) := ret (Some b, acc1, ents1) in
     e <- deref ents entry ;;
     ret (match ue_next e with Some _ => inl (ue_next e, acc, ents) | None => inr ents end)) s = cull_body n (Some a, acc, ents) s ->
    exists ents' l', iter (S fuel) (cull_body n) (Some a, acc, ents) s = Ok ents' s /\ chain ents' p l' /\ length l' = 64%nat /\
      culled ents ents' (kept ++ a :: rest) l').
  { intros ents1 b rest1 acc1 r1 Ho1 Hc1 Hb1 Hn1 Hl1 Hr1 Ha1 Hra1 Hcut E. cbn [iter]. unfold bind at 1. rewrite <- E.
    rewrite (bind_ok _ _ _ _ _ (eq_refl (Ok (Some b, acc1, ents1) s))).
    destruct (cull_next ents1 b rest1 s _ (fun e => match ue_next e with Some _ => inl (ue_next e, acc1, ents1) | None => inr ents1 end) Hb1) as (e & _ & -> & ->).
    destruct rest1 as [|c rest1].
    - exists ents1, (kept ++ [a]). split; [done|]. split; [done|]. change (zlen []) with 0 in Hn1. split; [|done].
      assert (zlen kept + 1 = 64) by nia. unfold zlen in *. rewrite length_app. simpl. lia.
    - rewrite zlen_cons in Hn1. pose proof (zlen_pos rest1). assert (Hk1 : zlen kept + 1 < 64) by nia.
      rewrite cons_middle, app_assoc in Hc1. assert (Hka : zlen (kept ++ [a]) = zlen kept + 1) by (rewrite zlen_app; change (zlen [a]) with 1; lia).
      destruct (IH ents1 (kept ++ [a]) c rest1 acc1 r1 Ho1 Hc1) as (ents' & l' & E' & Hc' & Hl' & Hcul); [lia..|simpl in Hl1; lia|].
      exists ents', l'. split; [exact E'|]. split; [done|]. split; [done|]. rewrite <- app_assoc in Hcul. by apply (culled_trans _ ents1 _ _ (kept ++ a :: c :: rest1)). }
  pose proof (zlen_pos kept) as Hk0. pose proof (zlen_pos rest). pose proof (chain_tail _ _ _ _ _ Hc) as Hca.
  assert (Hadd : i32 (acc + u32 (n - HASH_LIMIT)) = acc + (n - 64)) by (unfold HASH_LIMIT; rewrite u32_small, i32_small by lia; done).
  destruct (Z.ltb_spec 0 (acc + (n - 64))) as [Hpos|Hneg].
  - destruct (cull_skip_loop ents s rest a (acc + (n - 64)) (S (Z.to_nat n)) Hca) as (mid & b & rest1 & acc1 & -> & E & Ea & Hra); [unfold zlen in *; nia|lia|unfold zlen in *; lia|].
    pose proof Hca as (_ & ea & Hea & _). pose proof (chain_tail ents p (kept ++ a :: mid) b rest1) as Hcb.
    rewrite <- app_assoc in Hcb. specialize (Hcb Hc). pose proof Hcb as (_ & eb & Heb & _). pose proof (idx_bound _ _ _ Hea) as Hia.
    set (ents1 := <[Z.to_nat a := mkUnpacked (ue_entry ea) (ue_next eb)]> ents).
    pose proof (culled_cut ents p kept a mid b rest1 ea eb Ho Hc Hea Heb) as Hcut. pose proof (chain_cut ents p kept a mid b rest1 ea eb Ho Hc Hea Heb) as Hc1.
    rewrite zlen_app, zlen_cons in Hlen. apply (Hgo ents1 b rest1 acc1 (r + zlen mid + 1)); try done; [by destruct Hcut| |lia|rewrite length_app; simpl; lia|pose proof (zlen_pos mid); lia|unfold zlen in *; lia|].
    + assert (Hb : b < a). { pose proof (chain_below _ _ _ Ho Hca) as H1. apply Forall_app in H1 as [_ H1]. inversion_clear H1. lia. }
      pose proof (chain_below _ _ _ Ho Hcb) as Hbelow. eapply chain_ext; [|exact Hcb]. pose proof (chain_defined _ _ _ Hcb) as Hdef.
      rewrite List.Forall_forall in Hdef, Hbelow |- *. intros c Hin. destruct (Hdef c Hin) as (ec & Hec). exists ec, ec. split; [done|]. split; [|done].
      unfold ents1. rewrite idx_insert by done. destruct (Z.eqb_spec c a) as [->|]; [|done]. exfalso. destruct Hin as [->|Hin]; [lia|]. specialize (Hbelow a Hin). simpl in Hbelow. lia.
    + unfold cull_body. rewrite Hadd. replace (0 <? acc + (n - 64)) with true by lia. unfold bind at 3. rewrite (bind_ok _ _ _ _ _ E).
      rewrite (bind_ok _ _ _ _ _ (deref_ok _ _ _ s Heb)), (bind_ok _ _ _ _ _ (deref_ok _ _ _ s Hea)).
      unfold bind at 3. cbn [lift ret]. unfold bind at 3. rewrite upd_lt by done. done.
  - apply (Hgo ents a rest (acc + (n - 64)) r); try done; [nia|lia|by apply culled_refl|]. unfold cull_body. rewrite Hadd.
    by replace (0 <? acc + (n - 64)) with false by lia.
Qed.

Lemma buckets_culled src ents ents' hash chains i l l' p : buckets src ents hash chains -> chains !! i = Some l -> hash !! i = Some p ->
  chain ents' p l' -> culled ents ents' l l' -> buckets src ents' hash (<[i := l']> chains).
Proof.
  intros [H1 H2 H3 H4 H5] Hl Hp Hc' [C1 C2 C3 C4 C5]. assert (Hi : (i < length chains)%nat) by (by apply lookup_lt_Some in Hl).
  assert (Hin : forall j m, Forall (in_bucket ents (zlen chains - 1) j) m -> Forall (in_bucket ents' (zlen chains - 1) j) m).
  { intros j m Hm. eapply List.Forall_impl; [|exact Hm]. intros a (e & He & Hv). destruct (idx_lt ents' a) as (e' & He').
    { apply idx_bound in He. unfold zlen in *. lia. }
    exists e'. split; [done|]. destruct (C3 a e' He') as (e2 & He2 & E). rewrite <- E. by replace e2 with e by congruence. }
  split; [|done|by rewrite length_insert| |].
  - apply Forall_lookup. intros j e' He'. rewrite <- idx_nat in He'. destruct (C3 _ _ He') as (e & He & <-). rewrite idx_nat in He.
    rewrite Forall_lookup in H1. by apply (H1 j).
  - intros j m. destruct (decide (i = j)) as [<-|Hij].
    + rewrite list_lookup_insert_eq by done. intros [= <-]. by exists p.
    + rewrite list_lookup_insert_ne by done. intros Hm. destruct (H4 j m Hm) as (q & Hq & Hc). exists q. split; [done|].
      eapply chain_ext; [|exact Hc]. pose proof (H5 j m Hm) as Hbm. pose proof (H5 i l Hl) as Hbl. rewrite List.Forall_forall in Hbm, Hbl |- *.
      intros a Ha. destruct (Hbm a Ha) as (e & He & Hv). exists e, e. split; [done|]. split; [|done]. rewrite C4; [done|].
      intros Hal. destruct (Hbl a Hal) as (e' & He' & Hv'). replace e' with e in * by congruence. lia.
  - rewrite zlen_insert. intros j m. destruct (decide (i = j)) as [<-|Hij].
    + rewrite list_lookup_insert_eq by done. intros [= <-]. apply Hin. pose proof (H5 i l Hl) as Hb. rewrite List.Forall_forall in Hb |- *.
      intros a Ha. by apply Hb, C5.
    + rewrite list_lookup_insert_ne by done. intros Hm. by apply Hin, (H5 j).
Qed.
(** the buckets below [i] are culled, the others as they were *)
Record culling (src : list Z) (hash : list (option Z)) (chains0 : list (list Z)) (i : Z) (v : list entry * Z) : Prop := mkCulling {
  cl_some : exists chains, buckets src v.1 hash chains /\ length chains = length chains0 /\ v.2 = total chains /\
    (forall j l, chains !! j = Some l -> Z.of_nat j < i -> zlen l <= HASH_LIMIT) /\
    (forall j, i <= Z.of_nat j -> chains !! j = chains0 !! j)
}.
Lemma wp_cull_bucket src hash chains0 i v s : total chains0 < 2 ^ 31 -> 0 <= i < zlen chains0 -> culling src hash chains0 i v -> v.2 < 2 ^ 31 ->
  wp (cull_bucket hash (map zlen chains0) i v) (fun v' s' => s' = s /\ culling src hash chains0 (i + 1) v' /\ v'.2 < 2 ^ 31) s.
Proof.
  intros Htot Hi [(chains & Hbk & Hlen & Hent & Hlow & Hhigh)] Hv. destruct v as [ents entries]. cbn [fst snd] in *.
  pose proof (fun A (x : list A) => idx_to_nat x i) as Hidx.
  destruct (lookup_lt_is_Some_2 chains0 (Z.to_nat i)) as [l Hl0]; [unfold zlen in Hi; lia|].
  assert (Hl : chains !! Z.to_nat i = Some l) by (rewrite Hhigh by lia; done). destruct (bk_chain _ _ _ _ Hbk _ _ Hl) as (p & Hp & Hc).
  unfold cull_bucket. wp_step. apply (wpe_lift _ _ _ (zlen l)); [apply Hidx; [lia|]; by rewrite list_lookup_fmap, Hl0|].
  pose proof (total_insert chains (Z.to_nat i) l [] Hl) as Hsub. change (zlen []) with 0 in Hsub.
  assert (0 <= total (<[Z.to_nat i := []]> chains)) by (unfold total; lia). apply wpe_if; intros Hbig.
  - wp_step. split; [done|]. split; [|done]. split. exists chains. do 3 (split; [done|]). split.
    + intros j m Hm Hj. destruct (decide (j = Z.to_nat i)) as [->|]; [|apply (Hlow j); [done|lia]].
      replace m with l by congruence. lia.
    + intros j Hj. apply Hhigh. lia.
  - apply Z.leb_gt in Hbig. unfold HASH_LIMIT in *. destruct l as [|a l]; [done|]. rewrite zlen_cons in *. pose proof (chain_head _ _ _ _ Hc) as Hca.
    assert (p = Some a) as -> by (by destruct Hc). cbv zeta. wp_step. apply (wpe_lift _ _ _ (Some a)); [by apply Hidx; [lia|]|]. wp_step.
    pose proof (bk_older _ _ _ _ Hbk) as Hold. pose proof (chain_length _ _ _ Hold Hc) as Hcl.
    destruct (cull_loop (Some a) (1 + zlen l) s ltac:(lia) (S (length ents)) ents [] a l 0 0 Hold Hc) as (ents' & l' & E & Hc' & Hl' & Hcul);
      [change (zlen []) with 0; lia|done|lia|change (zlen []) with 0; lia|lia|simpl in Hcl; lia|].
    eapply wpe_ok; [exact E|]. wp_step. split; [done|]. pose proof (total_insert chains (Z.to_nat i) (a :: l) l' Hl) as Hins. rewrite zlen_cons in Hins.
    assert (Hl64 : zlen l' = 64) by (unfold zlen; lia). rewrite u32_small by lia. split; [|simpl; lia]. split. exists (<[Z.to_nat i := l']> chains).
    split; [by eapply buckets_culled|]. split; [by rewrite length_insert|]. split; [simpl; lia|]. split.
    + intros j m. destruct (decide (j = Z.to_nat i)) as [->|Hne].
      * rewrite list_lookup_insert_eq by (apply lookup_lt_Some in Hl; done). intros [= <-] _. unfold HASH_LIMIT. lia.
      * rewrite list_lookup_insert_ne by done. intros Hm Hj. apply (Hlow j); [done|lia].
    + intros j Hj. rewrite list_lookup_insert_ne by lia. apply Hhigh. lia.
Qed.

(** ** Packing *)
Definition entry_of (ents : list entry) (a : Z) : index_entry := match idx ents a with Some e => ue_entry e | None => mkEntry 0 0 end.
(** the entries of the first [i] buckets *)
Definition packed_upto (ents : list entry) (chains : list (list Z)) (i : nat) : list index_entry :=
  concat (map (map (entry_of ents)) (take i chains)).
Lemma packed_succ ents chains i l : chains !! i = Some l -> packed_upto ents chains (S i) = packed_upto ents chains i ++ map (entry_of ents) l.
Proof. intros Hl. unfold packed_upto. rewrite (take_S_r _ _ l) by done. rewrite map_app, concat_app. cbn. by rewrite app_nil_r. Qed.
Lemma packed_split ents chains i : (i <= length chains)%nat ->
  packed_upto ents chains (length chains) = packed_upto ents chains i ++ concat (map (map (entry_of ents)) (drop i chains)).
Proof. intros Hi. unfold packed_upto. rewrite <- concat_app, <- map_app, take_drop. by rewrite take_ge. Qed.
Lemma packed_total ents chains : zlen (packed_upto ents chains (length chains)) = total chains.
Proof.
  unfold packed_upto, total, zlen. rewrite take_ge by done. f_equal. induction chains as [|l chains IH]; [done|].
  cbn [map concat]. rewrite length_app, length_map, IH. done.
Qed.
Lemma packed_below ents chains i : (i <= length chains)%nat -> zlen (packed_upto ents chains i) <= total chains.
Proof. intros Hi. rewrite <- (packed_total ents), (packed_split ents chains i Hi), zlen_app. pose proof (zlen_pos (concat (map (map (entry_of ents)) (drop i chains)))). lia. Qed.

Lemma pack_loop ents cap s l : forall p packed fuel, chain ents p l -> zlen packed + zlen l <= cap -> (length l < fuel)%nat ->
  iter fuel (pack_body ents cap) (p, packed) s = Ok (packed ++ map (entry_of ents) l) s.
Proof.
  induction l as [|a l IH]; intros p packed fuel Hc Hcap Hfuel; (destruct fuel as [|fuel]; [simpl in Hfuel; lia|]); cbn [iter].
  - rewrite (Hc : p = None). by rewrite app_nil_r.
  - destruct Hc as (-> & e & He & Hc). rewrite zlen_cons in Hcap. pose proof (zlen_pos l). unfold pack_body at 1. unfold bind at 1 2.
    rewrite (deref_ok _ _ _ s He). replace (cap <=? zlen packed) with false by lia. cbn [map]. unfold bind, ret.
    rewrite IH; [|done|rewrite zlen_app; change (zlen [_]) with 1; lia|simpl in Hfuel; lia].
    rewrite <- app_assoc. cbn [app]. unfold entry_of at 2. by rewrite He.
Qed.
Definition packing (ents : list entry) (chains : list (list Z)) (i : Z) (v : list index_entry * list Z) : Prop :=
  v = (packed_upto ents chains (Z.to_nat i), map (fun j => zlen (packed_upto ents chains j)) (seq 0 (Z.to_nat i))).
Lemma wp_pack_bucket src ents hash chains i v s : buckets src ents hash chains -> 0 <= i < zlen chains -> packing ents chains i v ->
  wp (pack_bucket ents hash (total chains) i v) (fun v' s' => s' = s /\ packing ents chains (i + 1) v') s.
Proof.
  intros Hbk Hi ->. destruct (lookup_lt_is_Some_2 chains (Z.to_nat i)) as [l Hl]; [unfold zlen in Hi; lia|].
  destruct (bk_chain _ _ _ _ Hbk _ _ Hl) as (p & Hp & Hc). unfold pack_bucket. wp_step. apply (wpe_lift _ _ _ p); [apply idx_to_nat; [lia|done]|].
  wp_step. pose proof (chain_length _ _ _ (bk_older _ _ _ _ Hbk) Hc). pose proof (packed_succ ents chains _ l Hl) as Hs.
  assert (Hm : zlen (map (entry_of ents) l) = zlen l) by (unfold zlen; by rewrite length_map).
  eapply wpe_ok; [apply (pack_loop _ _ _ l); [done| |lia]|].
  - pose proof (packed_below ents chains (S (Z.to_nat i)) ltac:(unfold zlen in Hi; lia)) as Hb. rewrite Hs, zlen_app, Hm in Hb. lia.
  - wp_step. split; [done|]. unfold packing. replace (Z.to_nat (i + 1)) with (S (Z.to_nat i)) by lia. rewrite Hs, seq_S, map_app. done.
Qed.

(** ** The index *)
(** what create_delta() relies on, and what the comments promise *)
Record indexed (src : list Z) (ix : delta_index) : Prop := mkIndexed {
  ix_src : di_src ix = src;
  ix_mask : exists k, 4 <= k <= 27 /\ di_mask ix = 2 ^ k - 1;
  ix_entries : Forall (entry_ok src) (di_entries ix);
  ix_first : idx (di_hash ix) 0 = Some 0;
  ix_last : idx (di_hash ix) (di_mask ix + 1) = Some (zlen (di_entries ix));
  ix_memsize : di_memsize ix = sizeof_delta_index_header + sizeof_ptr * (di_mask ix + 2) + sizeof_index_entry * zlen (di_entries ix);
  ix_bucket : forall i, 0 <= i <= di_mask ix -> exists a b, idx (di_hash ix) i = Some a /\ idx (di_hash ix) (i + 1) = Some b /\
    0 <= a <= b /\ b <= zlen (di_entries ix) /\ b - a <= HASH_LIMIT /\
    forall j e, a <= j < b -> idx (di_entries ix) j = Some e -> Z.land (ie_val e) (di_mask ix) = i
}.
Lemma entries_of_ok src ents l : Forall (fun e => entry_ok src (ue_entry e)) ents -> Forall (fun a => exists e, idx ents a = Some e) l ->
  Forall (entry_ok src) (map (entry_of ents) l).
Proof.
  intros He Hl. rewrite Forall_map. eapply List.Forall_impl; [|exact Hl]. intros a (e & Ha). unfold entry_of. rewrite Ha.
  rewrite Forall_lookup in He. pose proof (idx_bound _ _ _ Ha). unfold idx in Ha. replace (a <? 0) with false in Ha by lia. by apply (He (Z.to_nat a)).
Qed.
Lemma indexed_packed src ents hash chains k memsize : buckets src ents hash chains -> 4 <= k <= 27 -> zlen chains = 2 ^ k ->
  (forall j l, chains !! j = Some l -> zlen l <= HASH_LIMIT) ->
  memsize = sizeof_delta_index_header + sizeof_ptr * (2 ^ k + 1) + sizeof_index_entry * total chains ->
  indexed src (mkIndex memsize src (2 ^ k - 1)
    (map (fun j => zlen (packed_upto ents chains j)) (seq 0 (length chains)) ++ [zlen (packed_upto ents chains (length chains))])
    (packed_upto ents chains (length chains))).
Proof.
  intros Hbk Hk Hlen Hlim Hmem. replace (map _ (seq 0 (length chains)) ++ [zlen (packed_upto ents chains (length chains))])
    with (map (fun j => zlen (packed_upto ents chains j)) (seq 0 (S (length chains)))) by (by rewrite seq_S, map_app).
  assert (Hh : forall j, 0 <= j <= zlen chains -> idx (map (fun j => zlen (packed_upto ents chains j)) (seq 0 (S (length chains)))) j = Some (zlen (packed_upto ents chains (Z.to_nat j)))).
  { intros j Hj. apply idx_to_nat; [lia|]. rewrite list_lookup_fmap, lookup_seq_lt by (unfold zlen in Hj; lia). done. }
  split; cbn [di_src di_mask di_entries di_hash di_memsize]; [done|by exists k| | | | |].
  - unfold packed_upto. rewrite take_ge by done. apply Forall_concat. rewrite Forall_map. apply Forall_lookup. intros i l Hl.
    destruct (bk_chain _ _ _ _ Hbk _ _ Hl) as (p & _ & Hc). eapply entries_of_ok; [apply Hbk|by eapply chain_defined].
  - rewrite Hh by (pose proof (zlen_pos chains); lia). done.
  - replace (2 ^ k - 1 + 1) with (zlen chains) by lia. rewrite Hh by (pose proof (zlen_pos chains); lia). unfold zlen at 2. by rewrite Nat2Z.id.
  - rewrite packed_total, Hmem. lia.
  - intros i Hi. destruct (lookup_lt_is_Some_2 chains (Z.to_nat i)) as [l Hl]; [unfold zlen in *; lia|]. pose proof (packed_succ ents chains _ l Hl) as Hs.
    exists (zlen (packed_upto ents chains (Z.to_nat i))), (zlen (packed_upto ents chains (S (Z.to_nat i)))). rewrite !Hh by lia.
    replace (Z.to_nat (i + 1)) with (S (Z.to_nat i)) by lia. do 2 (split; [done|]).
    assert (Hm : zlen (map (entry_of ents) l) = zlen l) by (unfold zlen; by rewrite length_map).
    rewrite packed_total. pose proof (packed_below ents chains (S (Z.to_nat i)) ltac:(unfold zlen in *; lia)) as Hb.
    pose proof (zlen_pos (packed_upto ents chains (Z.to_nat i))). pose proof (zlen_pos l). rewrite Hs, zlen_app, Hm in *. pose proof (Hlim _ _ Hl).
    do 3 (split; [lia|]). intros j e Hj He. rewrite (packed_split ents chains (S (Z.to_nat i))), Hs in He by (unfold zlen in *; lia).
    rewrite <- app_assoc in He. unfold idx in He. replace (j <? 0) with false in He by lia.
    rewrite lookup_app_r, lookup_app_l in He by (rewrite ?length_map; unfold zlen in *; lia).
    rewrite list_lookup_fmap in He. apply fmap_Some in He as (a & Ha & ->). pose proof (bk_bucket _ _ _ _ Hbk _ _ Hl) as Hbl.
    rewrite Forall_lookup in Hbl. destruct (Hbl _ _ Ha) as (x & Hx & Hv). unfold entry_of. rewrite Hx. rewrite Hlen in Hv. lia.
Qed.

(** the size of the hash table *)
Lemma wp_hash_bits h s : 0 <= h <= 2 ^ 26 -> wp (hash_bits h) (fun k s' => s' = s /\ 4 <= k <= 27) s.
Proof.
  intros Hh. unfold hash_bits. apply (wpe_iter no_fault (fun i s' => s' = s /\ 4 <= i <= 27) (fun i _ => 27 - i)); [|split; [done|lia]|lia].
  intros i s' [-> Hi]. split; [lia|]. wp_step. rewrite Z.shiftl_1_l. pose proof (Z.pow_le_mono_r 2 i 27 ltac:(lia) ltac:(lia)).
  rewrite u32_small by (pose proof (Z.pow_pos_nonneg 2 i); lia). destruct (Z.ltb_spec (2 ^ i) h); [|split; [done|lia]].
  assert (i < 27) by (destruct (Z.eq_dec i 27) as [->|]; lia). split; [split; [done|lia]|lia].
Qed.
Lemma total_empty n : total (replicate n []) = 0.
Proof. unfold total. induction n as [|n IH]; [done|]. cbn [replicate sum_list_with length]. lia. Qed.
Lemma buckets_empty src n : buckets src [] (replicate n None) (replicate n []).
Proof.
  split; [constructor| |by rewrite !length_replicate| |].
  - intros a e b He. unfold idx in He. by destruct (a <? 0).
  - intros i l Hl. apply lookup_replicate in Hl as [-> Hi]. exists None. split; [by apply lookup_replicate|done].
  - intros i l Hl. apply lookup_replicate in Hl as [-> _]. constructor.
Qed.
(** the blocks of the source *)
Definition block_count (src : list Z) : Z := if 0xffffffff <=? zlen src then 0xfffffffe / RABIN_WINDOW else u32 ((zlen src - 1) / RABIN_WINDOW).
Lemma block_count_bounds src : 0 < zlen src ->
  0 <= block_count src < 2 ^ 28 /\ 16 * block_count src < zlen src /\ 16 * block_count src <= 0xfffffffe.
Proof.
  intros Hs. unfold block_count, RABIN_WINDOW. destruct (Z.leb_spec 0xffffffff (zlen src)).
  - change (0xfffffffe / 16) with 268435455. lia.
  - pose proof (Z.div_pos (zlen src - 1) 16). pose proof (Z.mul_div_le (zlen src - 1) 16).
    assert ((zlen src - 1) / 16 < 2 ^ 28) by (apply Z.div_lt_upper_bound; lia). rewrite u32_small by lia. lia.
Qed.
Lemma wp_populate src k s : Forall byte src -> 4 <= k <= 27 -> 0 < zlen src ->
  let cap := block_count src in
  wp (iter (S (length src)) (populate_body src cap (2 ^ k - 1))
       (cap * RABIN_WINDOW - RABIN_WINDOW, 0xffffffff, mkUI [] (replicate (Z.to_nat (2 ^ k)) None) (replicate (Z.to_nat (2 ^ k)) 0) cap))
     (fun ui s' => s' = s /\ exists chains prev, zlen chains = 2 ^ k /\ populated src cap 0 prev chains ui) s.
Proof.
  intros Hb Hk Hs cap. destruct (block_count_bounds src Hs) as (Hc1 & Hc2 & Hc3). fold cap in Hc1, Hc2, Hc3.
  set (I := fun (v : Z * Z * unpacked_index) (s' : Heap) => s' = s /\ exists m chains, v.1.1 = 16 * m - 16 /\ 0 <= m <= cap /\
    zlen chains = 2 ^ k /\ populated src cap m v.1.2 chains v.2).
  apply (wpe_iter no_fault I (fun v _ => v.1.1 + 16)).
  - intros [[data prev] ui] s' [-> (m & chains & Hd & Hm & Hlen & Hp)]. cbn [fst snd] in *. subst data. split; [lia|].
    destruct (Z.eq_dec m 0) as [->|Hne].
    + eapply wpe_ok; [reflexivity|]. split; [done|]. by exists chains, prev.
    + apply (wp_populate_body src cap k m prev chains); try done; [lia..|]. intros prev' chains' ui' Hlen' Hp'. split; [|simpl; lia].
      split; [done|]. exists (m - 1), chains'. cbn [fst snd]. split; [lia|]. split; [lia|]. by split.
  - split; [done|]. exists cap, (replicate (Z.to_nat (2 ^ k)) []). pose proof (Z.pow_pos_nonneg 2 k). cbn [fst snd].
    split; [unfold RABIN_WINDOW; lia|]. split; [lia|]. split; [unfold zlen; rewrite length_replicate; lia|]. split; cbn [ui_ents ui_hash ui_count ui_entries].
    + apply buckets_empty.
    + exact (eq_sym (fmap_replicate zlen _ [])).
    + done.
    + lia.
    + apply total_empty.
    + by left.
  - cbn [fst snd]. unfold RABIN_WINDOW, zlen in *. lia.
Qed.

(** a call of malloc() between two states has failed *)
Definition out_of_memory `{alloc_world} (s s' : Heap) : Prop := exists k size, (h_calls s <= k < h_calls s')%nat /\ malloc_ok k size = false.
Lemma wp_malloc_call `{alloc_world} E size s (Q : option nat -> Heap -> Prop) :
  (malloc_ok (h_calls s) size = true -> Q (Some (h_calls s)) (mkHeap (S (h_calls s)) (h_live s + 1) (h_errors s))) ->
  (out_of_memory s (mkHeap (S (h_calls s)) (h_live s) (h_errors s)) -> Q None (mkHeap (S (h_calls s)) (h_live s) (h_errors s))) ->
  wpe E (malloc size) Q s.
Proof.
  intros H1 H2. unfold malloc. do 2 wp_step. destruct (malloc_ok (h_calls s) size) eqn:Hok; wp_step; apply wpe_modify; wp_step.
  - by apply H1.
  - apply H2. exists (h_calls s), size. split; [simpl; lia|done].
Qed.
Lemma wp_free E s (Q : unit -> Heap -> Prop) : Q tt (mkHeap (h_calls s) (h_live s - 1) (h_errors s)) -> wpe E free Q s.
Proof. done. Qed.
Lemma wp_cull src hash chains s ents : buckets src ents hash chains -> zlen chains < 2 ^ 31 -> total chains < 2 ^ 31 ->
  wp (fold_i (length chains) 0 (cull_bucket hash (map zlen chains)) (ents, total chains))
    (fun v s' => s' = s /\ exists chains', buckets src v.1 hash chains' /\ length chains' = length chains /\ v.2 = total chains' /\ v.2 < 2 ^ 31 /\
       forall j l, chains' !! j = Some l -> zlen l <= HASH_LIMIT) s.
Proof.
  intros Hbk Hlen Htot.
  eapply wpe_mono; [apply (wpe_fold_i no_fault (fun i v s' => s' = s /\ culling src hash chains i v /\ v.2 < 2 ^ 31))|].
  - intros i v s' Hi (-> & Hc & Hv). apply (wp_cull_bucket src); [done|unfold zlen; lia|done|done].
  - split; [done|]. split; [|done]. split. exists chains. split; [done|]. split; [done|]. split; [done|]. split; [lia|done].
  - intros v s' (-> & [(chains' & Hb & Hl & Ht & Hlow & _)] & Hv). split; [done|]. exists chains'. repeat (split; [done|]).
    intros j l Hj. apply (Hlow j); [done|]. apply lookup_lt_Some in Hj. lia.
Qed.
Lemma wp_pack src ents hash chains s : buckets src ents hash chains ->
  wp (fold_i (length chains) 0 (pack_bucket ents hash (total chains)) ([], []))
    (fun v s' => s' = s /\ v = (packed_upto ents chains (length chains), map (fun j => zlen (packed_upto ents chains j)) (seq 0 (length chains)))) s.
Proof.
  intros Hbk. eapply wpe_mono; [apply (wpe_fold_i no_fault (fun i v s' => s' = s /\ packing ents chains i v))|].
  - intros i v s' Hi (-> & Hp). apply (wp_pack_bucket src); [done|unfold zlen; lia|done].
  - done.
  - intros v s' (-> & ->). split; [done|]. by rewrite Z.add_0_l, Nat2Z.id.
Qed.
Lemma wp_create_delta_index `{alloc_world} src s : Forall byte src -> 0 < zlen src ->
  wp (create_delta_index src) (fun r s' => (h_calls s <= h_calls s')%nat /\
    match r with Some ix => indexed src ix /\ h_live s' = h_live s + 1 | None => h_live s' = h_live s /\ out_of_memory s s' end) s.
Proof.
  intros Hb Hs. unfold create_delta_index. cbv zeta. replace (zlen src =? 0) with false by lia. change (if 4294967295 <=? zlen src then _ else _) with (block_count src).
  destruct (block_count_bounds src Hs) as (Hc1 & Hc2 & Hc3). wp_step. eapply wpe_mono; [apply wp_hash_bits|].
  { split; [apply Z.div_pos; lia|apply Z.lt_le_incl, Z.div_lt_upper_bound; lia]. }
  intros k ? [-> Hk]. rewrite Z.shiftl_1_l. pose proof (Z.pow_pos_nonneg 2 k ltac:(lia) ltac:(lia)). pose proof (Z.pow_le_mono_r 2 k 27 ltac:(lia) ltac:(lia)) as H27.
  wp_step. apply wp_malloc_call; intros Hm1; [|wp_step; simpl; split; [lia|done]]. wp_step. apply wp_malloc_call; intros Hm2.
  2:{ wp_step. apply wp_free. wp_step. simpl. split; [lia|]. split; [lia|]. destruct Hm2 as (j & z & Hj & Hz). exists j, z. simpl in *. split; [lia|done]. }
  wp_step. eapply wpe_mono; [apply wp_populate; [done|done|done]|].
  intros ui ? [-> (chains & prev & Hlen & [Hbk Hcnt Hent Hcap Htot _])]. rewrite Hcnt. rewrite Z.add_0_r in Hent.
  assert (Hnat : Z.to_nat (2 ^ k) = length chains) by (unfold zlen in Hlen; lia). rewrite Hnat. replace (ui_entries ui) with (total chains) in * by lia.
  wp_step. eapply wpe_mono; [apply (wp_cull src); [done|lia|lia]|]. intros [ents entries] ? [-> (chains' & Hbk' & Hlen' & Ht' & Hlt & Hlim)]. cbn [fst snd] in *. subst entries.
  wp_step. apply wp_free. wp_step. apply wp_malloc_call; intros Hm3.
  2:{ wp_step. apply wp_free. wp_step. simpl. split; [lia|]. split; [lia|]. destruct Hm3 as (j & z & Hj & Hz). exists j, z. simpl in *. split; [lia|done]. }
  wp_step. rewrite <- Hlen'. eapply wpe_mono; [apply (wp_pack src); done|]. intros v ? [-> ->]. rewrite packed_total, Z.eqb_refl. wp_step. wp_step. wp_step. apply wp_free. wp_step.
  simpl. split; [lia|]. split; [|lia]. rewrite <- (packed_total ents chains') at 2. apply (indexed_packed _ _ (ui_hash ui)); try done; [unfold zlen in *; lia|].
  apply u64_small. unfold sizeof_delta_index_header, sizeof_ptr, sizeof_index_entry. unfold total in *. lia.
Qed.
