(* ===== verification/GitDiff.v ===== *)
(** * git: the delta of a target buffer

    create_delta(): whatever the index answers, the bytes written so far are
    the header and a program for the part of the target that was read
    ([written]), and a match is a piece of the source that the target goes on
    with ([match_ok]). *)
From S2P Require Import Prelude GitBase GitDelta GitRabin GitPatch GitIndex.

(** ** The buffer of the delta *)
(** [bs] are the bytes in use *)
Definition holds (o : outbuf) (bs : list Z) : Prop := take (Z.to_nat (o_pos o)) (o_bytes o) = bs /\ o_pos o = zlen bs.
Lemma holds_size o bs : holds o bs -> 0 <= o_pos o <= o_size o.
Proof.
  intros [H1 H2]. pose proof (zlen_pos bs). apply (f_equal length) in H1. rewrite length_take in H1. unfold o_size, zlen in *. lia.
Qed.
Lemma holds_split o bs : holds o bs <-> exists rest, o_bytes o = bs ++ rest /\ o_pos o = zlen bs.
Proof.
  split.
  - intros [H1 H2]. exists (drop (Z.to_nat (o_pos o)) (o_bytes o)). by rewrite <- H1, take_drop, H1.
  - intros (rest & H1 & H2). split; [|done]. rewrite H1, H2. unfold zlen. by rewrite Nat2Z.id, take_app_length.
Qed.
Lemma poke_ok o l1 x l2 b s : holds o (l1 ++ x :: l2) ->
  exists o', poke o (zlen l1) b s = Ok o' s /\ holds o' (l1 ++ u8 b :: l2) /\ o_size o' = o_size o.
Proof.
  rewrite holds_split. intros (rest & Hb & Hp). unfold poke. pose proof (zlen_pos l1). pose proof (zlen_pos l2). pose proof (zlen_pos rest).
  assert (Hlt : 0 <= zlen l1 < zlen (o_bytes o)) by (rewrite Hb, !zlen_app, zlen_cons; lia).
  unfold bind. rewrite upd_lt by done. cbn [lift ret]. eexists. split; [done|]. split; [|unfold o_size; cbn [o_bytes]; apply zlen_insert].
  rewrite holds_split. exists rest. cbn [o_bytes o_pos]. rewrite Hb, <- !app_assoc. cbn [app]. rewrite insert_at. split; [done|].
  rewrite Hp, !zlen_app, !zlen_cons. lia.
Qed.
Lemma poke_behind o bs b s : holds o bs -> o_pos o < o_size o ->
  exists o', poke o (o_pos o) b s = Ok o' s /\ holds o' bs /\ o_size o' = o_size o /\ exists rest, o_bytes o' = bs ++ u8 b :: rest.
Proof.
  rewrite holds_split. intros (rest & Hb & Hp) Hlt. unfold o_size in *. pose proof (zlen_pos bs). rewrite Hb, zlen_app in Hlt.
  destruct rest as [|x rest]; [change (zlen []) with 0 in Hlt; lia|]. unfold poke, bind.
  rewrite upd_lt by (rewrite Hb, zlen_app, Hp; rewrite zlen_cons in *; pose proof (zlen_pos rest); lia). cbn [lift ret].
  eexists. split; [done|]. cbn [o_bytes o_pos]. rewrite zlen_insert. rewrite Hb, Hp, insert_at.
  split; [rewrite holds_split; by exists (u8 b :: rest)|]. split; [done|by exists rest].
Qed.
Lemma putb_ok o bs b s : holds o bs -> o_pos o < o_size o ->
  exists o', putb o b s = Ok o' s /\ holds o' (bs ++ [u8 b]) /\ o_size o' = o_size o.
Proof.
  intros Ho Hlt. destruct (poke_behind o bs b s Ho Hlt) as (o1 & E & [_ Hp] & Hsz & rest & Hb). unfold putb. rewrite (bind_ok _ _ _ _ _ E).
  eexists. split; [done|]. split; [|done]. rewrite holds_split. exists rest. cbn [o_bytes o_pos]. rewrite Hb, <- app_assoc, zlen_app, Hp. done.
Qed.
Lemma seek_slot o bs : holds o bs -> o_pos o < o_size o -> exists x, holds (seek o 1) (bs ++ [x]).
Proof.
  rewrite holds_split. intros (rest & Hb & Hp) Hlt. unfold o_size in Hlt. rewrite Hb, zlen_app in Hlt.
  destruct rest as [|x rest]; [change (zlen []) with 0 in Hlt; lia|]. exists x. rewrite holds_split. exists rest. simpl.
  rewrite Hb, <- app_assoc, zlen_app, Hp. done.
Qed.
Lemma seek_back o bs x : holds o (bs ++ [x]) -> holds (seek o (-1)) bs.
Proof.
  rewrite !holds_split. intros (rest & Hb & Hp). exists (x :: rest). simpl. rewrite Hb, <- app_assoc, Hp, zlen_app. split; [done|].
  change (zlen [x]) with 1. lia.
Qed.

(** ** The header *)
Fixpoint enc_size_fuel (fuel : nat) (l : Z) : list Z :=
  match fuel with
  | O => []
  | S fuel => if 128 <=? l then (l mod 128 + 128) :: enc_size_fuel fuel (l / 128) else [l]
  end.
Definition enc_size (l : Z) : list Z := enc_size_fuel 11 l.
Lemma continued l : 0 <= l -> u8 (Z.lor l 0x80) = l mod 128 + 128.
Proof.
  intros Hl. replace (u8 (Z.lor l 128)) with (Z.lor (u8 l) 128).
  - assert (Hall : forallb (fun b => Z.lor (Z.of_nat b) 128 =? Z.of_nat b mod 128 + 128) (seq 0 256) = true) by (vm_compute; reflexivity).
    apply forallb_bytes with (i := u8 l) in Hall; [|apply u8_range]. pose proof (u8_range l). rewrite Z2Nat.id in Hall by lia.
    apply Z.eqb_eq in Hall. rewrite Hall. f_equal. unfold u8. apply Z.mod_mod_divide. by exists 2.
  - apply Z.bits_inj'. intros i Hi. unfold u8. change 256 with (2 ^ 8). rewrite Z.lor_spec. destruct (Z.lt_ge_cases i 8).
    + by rewrite !Z.mod_pow2_bits_low, Z.lor_spec by done.
    + rewrite !Z.mod_pow2_bits_high by lia. by rewrite (small_bits 128 8) by lia.
Qed.
Lemma enc_size_parse k : forall fuel l rest, (k < fuel)%nat -> 0 <= l < 2 ^ (7 * Z.of_nat (S k)) ->
  parse_size (enc_size_fuel fuel l ++ rest) = Some (l, rest) /\ 1 <= zlen (enc_size_fuel fuel l) <= Z.of_nat (S k) /\
  Forall byte (enc_size_fuel fuel l).
Proof.
  induction k as [|k IH]; intros fuel l rest Hf Hl; (destruct fuel as [|fuel]; [lia|]); cbn [enc_size_fuel].
  - change (2 ^ (7 * Z.of_nat 1)) with 128 in Hl. replace (128 <=? l) with false by lia. cbn [app parse_size]. replace (l <? 128) with true by lia.
    split; [done|]. split; [done|]. repeat constructor; unfold byte; lia.
  - destruct (Z.leb_spec 128 l).
    + assert (Hl' : 0 <= l / 128 < 2 ^ (7 * Z.of_nat (S k))).
      { split; [apply Z.div_pos; lia|apply Z.div_lt_upper_bound; [lia|]]. replace (7 * Z.of_nat (S (S k))) with (7 + 7 * Z.of_nat (S k)) in Hl by lia.
        rewrite Z.pow_add_r in Hl by lia. change (2 ^ 7) with 128 in Hl. lia. }
      destruct (IH fuel (l / 128) rest ltac:(lia) Hl') as (E & Hz & Hb). pose proof (Z.mod_pos_bound l 128 ltac:(lia)). cbn [app parse_size].
      replace (l mod 128 + 128 <? 128) with false by lia. rewrite E. cbn [mbind option_bind]. rewrite zlen_cons.
      split; [do 2 f_equal; pose proof (Z.div_mod l 128); lia|]. split; [lia|]. constructor; [unfold byte; lia|done].
    + cbn [app parse_size]. replace (l <? 128) with true by lia. split; [done|]. split; [change (zlen [l]) with 1; lia|]. repeat constructor; unfold byte; lia.
Qed.
(** sizes below 2^35 take up to five bytes *)
Lemma enc_size_ok l rest : 0 <= l < 2 ^ 35 ->
  parse_size (enc_size l ++ rest) = Some (l, rest) /\ 1 <= zlen (enc_size l) <= 5 /\ Forall byte (enc_size l).
Proof. intros Hl. apply (enc_size_parse 4); [lia|done]. Qed.
Lemma put_size_loop s : forall fuel l o bs, 0 <= l -> holds o bs -> o_pos o + zlen (enc_size_fuel fuel l) <= o_size o ->
  (exists k, (k < fuel)%nat /\ l < 2 ^ (7 * Z.of_nat (S k))) ->
  exists o' b, (let* (l, o) := iter fuel (fun '(l, o) =>
    if 0x80 <=? l then o <- putb o (Z.lor l 0x80) ;; ret (inl (Z.shiftr l 7, o)) else ret (inr (l, o))) (l, o) in
    putb o l) s = Ok o' s /\ b = enc_size_fuel fuel l /\ holds o' (bs ++ b) /\ o_size o' = o_size o.
Proof.
  induction fuel as [|fuel IH]; intros l o bs Hl Ho Hroom (k & Hk & Hlk); [lia|]. cbn [iter enc_size_fuel] in *. unfold bind at 1 2.
  destruct (Z.leb_spec 128 l).
  - rewrite zlen_cons in Hroom. pose proof (zlen_pos (enc_size_fuel fuel (l / 128))). unfold bind at 1.
    destruct (putb_ok o bs (Z.lor l 128) s Ho ltac:(lia)) as (o1 & E & Ho1 & Hsz). rewrite E. cbn [ret]. rewrite continued in Ho1 by done.
    rewrite Z.shiftr_div_pow2 by lia. change (2 ^ 7) with 128. assert (Hpos : o_pos o1 = o_pos o + 1).
    { destruct Ho1 as [_ ->]. destruct Ho as [_ ->]. by rewrite zlen_app. }
    destruct (IH (l / 128) o1 _ ltac:(apply Z.div_pos; lia) Ho1) as (o' & b & E' & -> & Ho' & Hsz'); [lia| |].
    { destruct k as [|k]; [change (2 ^ (7 * Z.of_nat 1)) with 128 in Hlk; lia|]. exists k. split; [lia|]. apply Z.div_lt_upper_bound; [lia|].
      replace (7 * Z.of_nat (S (S k))) with (7 + 7 * Z.of_nat (S k)) in Hlk by lia. rewrite Z.pow_add_r in Hlk by lia. change (2 ^ 7) with 128 in Hlk. lia. }
    exists o', ((l mod 128 + 128) :: enc_size_fuel fuel (l / 128)). split; [exact E'|]. split; [done|]. rewrite <- app_assoc in Ho'. split; [done|congruence].
  - cbn [ret]. change (zlen [l]) with 1 in Hroom. destruct (putb_ok o bs l s Ho ltac:(lia)) as (o' & E & Ho' & Hsz). exists o', [l]. split; [exact E|].
    split; [done|]. rewrite u8_small in Ho' by lia. done.
Qed.
Lemma put_size_ok o bs l s : 0 <= l < 2 ^ 35 -> holds o bs -> o_pos o + 5 <= o_size o ->
  exists o', put_size o l s = Ok o' s /\ holds o' (bs ++ enc_size l) /\ o_size o' = o_size o.
Proof.
  intros Hl Ho Hroom. destruct (enc_size_ok l [] Hl) as (_ & Hz & _).
  destruct (put_size_loop s 11 l o bs ltac:(lia) Ho) as (o' & b & E & -> & Ho' & Hsz); [unfold enc_size in Hz; lia|exists 4%nat; split; [lia|exact (proj2 Hl)]|].
  exists o'. by split.
Qed.

(** the target goes on with [n] bytes of the source *)
Definition same_at (src trg : list Z) (data moff n : Z) : Prop :=
  0 <= moff /\ 0 <= n /\ moff + n <= zlen src /\ 0 <= data /\ data + n <= zlen trg /\ slice src moff n = slice trg data n.
Definition match_ok (src trg : list Z) (data msize moff : Z) : Prop :=
  0 <= msize < 2 ^ 32 /\ (0 < msize -> 0 <= moff < 2 ^ 32 /\ same_at src trg data moff msize).
Lemma same_snoc src trg data moff n x : same_at src trg data moff n -> idx src (moff + n) = Some x -> idx trg (data + n) = Some x ->
  same_at src trg data moff (n + 1).
Proof.
  intros (H1 & H2 & H3 & H4 & H5 & H6) Hs Ht. pose proof (idx_bound _ _ _ Hs). pose proof (idx_bound _ _ _ Ht).
  repeat split; try lia. rewrite (slice_split src moff n), (slice_split trg data n) by lia. rewrite H6. f_equal.
  replace (n + 1 - n) with 1 by lia. destruct (slice_one src (moff + n)) as (y & -> & Hy); [lia|]. destruct (slice_one trg (data + n)) as (z & -> & Hz); [lia|].
  congruence.
Qed.
Lemma same_cons src trg data moff n x : same_at src trg data moff n -> 0 < data -> 0 < moff -> idx src (moff - 1) = Some x -> idx trg (data - 1) = Some x ->
  same_at src trg (data - 1) (moff - 1) (n + 1).
Proof.
  intros (H1 & H2 & H3 & H4 & H5 & H6) Hd Hm Hs Ht. repeat split; try lia.
  rewrite (slice_split src (moff - 1) 1), (slice_split trg (data - 1) 1) by lia. replace (moff - 1 + 1) with moff by lia. replace (data - 1 + 1) with data by lia.
  replace (n + 1 - 1) with n by lia. rewrite H6. f_equal. destruct (slice_one src (moff - 1)) as (y & -> & Hy); [lia|]. destruct (slice_one trg (data - 1)) as (z & -> & Hz); [lia|].
  congruence.
Qed.
Lemma same_split src trg data moff m n : same_at src trg data moff n -> 0 <= m <= n ->
  same_at src trg data moff m /\ same_at src trg (data + m) (moff + m) (n - m).
Proof.
  intros (H1 & H2 & H3 & H4 & H5 & H6) Hm. rewrite (slice_split src moff m n), (slice_split trg data m n) in H6 by lia.
  assert (Hl : length (slice src moff m) = length (slice trg data m)).
  { pose proof (slice_size src moff m). pose proof (slice_size trg data m). unfold zlen in *. lia. }
  apply app_inj_1 in H6 as [H6 H7]; [|done]. split; repeat split; try lia; done.
Qed.

(** ** Looking for a match *)
Section create.
Context (ix : delta_index) (src trg : list Z).
Context (Hix : indexed src ix) (Hsrc : Forall byte src) (Htrg : Forall byte trg).

Lemma wp_extend_match n data ref s : 0 <= n -> 0 <= ref -> ref + n <= zlen src -> 0 <= data -> data + n <= zlen trg ->
  wp (extend_match ix trg n data ref) (fun ref' s' => s' = s /\ ref <= ref' <= ref + n /\ same_at src trg data ref (ref' - ref)) s.
Proof using Hix.
  intros Hn Hr Hrn Hd Hdn. unfold extend_match. rewrite (ix_src src ix Hix).
  apply (wpe_iter no_fault (fun (v : Z * Z * Z) s' => let '(n', d, r) := v in s' = s /\ 0 <= n' <= n /\ d = data + (n - n') /\ r = ref + (n - n') /\
    same_at src trg data ref (n - n')) (fun v _ => v.1.1)).
  - intros [[n' d] r] s' (-> & Hn' & -> & -> & Hsame). cbn [fst]. split; [lia|]. destruct (Z.eqb_spec n' 0) as [->|Hne].
    + wp_step. split; [done|]. split; [lia|]. by replace (ref + (n - 0) - ref) with (n - 0) by lia.
    + destruct (idx_lt trg (data + (n - n'))) as (a & Ha); [lia|]. destruct (idx_lt src (ref + (n - n'))) as (b & Hb); [lia|].
      wp_step. eapply wpe_ok; [by apply rd_idx|]. wp_step. eapply wpe_ok; [by apply rd_idx|]. wp_step. destruct (Z.eqb_spec a b) as [<-|].
      * split; [|cbn [fst]; lia]. split; [done|]. split; [lia|]. split; [lia|]. split; [lia|]. replace (n - (n' - 1)) with (n - n' + 1) by lia. by apply (same_snoc _ _ _ _ _ a).
      * split; [done|]. split; [lia|]. by replace (ref + (n - n') - ref) with (n - n') by lia.
  - split; [done|]. split; [lia|]. split; [lia|]. split; [lia|]. rewrite Z.sub_diag. repeat split; lia.
  - cbn [fst]. lia.
Qed.
Lemma wp_try_entry data val last entry msize moff s : 0 <= data < zlen trg -> match_ok src trg data msize moff -> 0 <= entry ->
  last <= zlen (di_entries ix) ->
  wp (try_entry ix trg data val last (entry, msize, moff)) (fun r s' => s' = s /\
    match r with
    | inl (entry', msize', moff') => entry < last /\ entry' = entry + 1 /\ match_ok src trg data msize' moff'
    | inr (msize', moff') => match_ok src trg data msize' moff'
    end) s.
Proof using Hix.
  intros Hd Hm He Hlast. unfold try_entry. rewrite (ix_src src ix Hix). apply wpe_if; intros Hlt; [|by wp_step]. apply Z.ltb_lt in Hlt.
  destruct (idx_lt (di_entries ix) entry) as (e & Hidx); [lia|]. wp_step. apply (wpe_lift _ _ _ e); [done|]. cbv zeta.
  pose proof (ix_entries src ix Hix) as Hents. unfold idx in Hidx. replace (entry <? 0) with false in Hidx by lia. rewrite Forall_lookup in Hents.
  destruct (Hents _ _ Hidx) as ((Hp1 & Hp2) & Hp3 & _). unfold RABIN_WINDOW in Hp1.
  apply wpe_if; intros _; [by wp_step|]. set (size := if zlen trg - data <? u32 (zlen src - ie_ptr e) then _ else _).
  assert (Hsize : 0 <= size < 2 ^ 32 /\ ie_ptr e + size <= zlen src /\ data + size <= zlen trg).
  { pose proof (u32_range (zlen src - ie_ptr e)). assert (u32 (zlen src - ie_ptr e) <= zlen src - ie_ptr e) by (unfold u32; apply Z.mod_le; lia).
    unfold size. destruct (Z.ltb_spec (zlen trg - data) (u32 (zlen src - ie_ptr e))); [rewrite (u32_small (zlen trg - data)) by lia|]; lia. }
  clearbody size. apply wpe_if; intros Hle; [by wp_step|]. wp_step. eapply wpe_mono; [apply wp_extend_match; lia|].
  intros ref ? (-> & Href & Hsame). assert (Hnew : match_ok src trg data (ref - ie_ptr e) (ie_ptr e)) by (split; [lia|split; [lia|done]]).
  apply wpe_if; intros Hbig; wp_step; [|done]. destruct (4096 <=? ref - ie_ptr e); [done|]. split; [done|]. split; [done|]. by split.
Qed.
Lemma wp_find_match data val msize moff s : 0 <= data < zlen trg -> 0 <= val -> match_ok src trg data msize moff ->
  wp (find_match ix trg data val msize moff) (fun r s' => s' = s /\ match_ok src trg data r.1 r.2) s.
Proof using Hix.
  intros Hd Hv Hm. unfold find_match. cbv zeta. destruct (ix_mask src ix Hix) as (k & Hk & Hmask). rewrite Hmask.
  pose proof (mask_range val k ltac:(lia) Hv) as Hi. rewrite <- Hmask in *.
  destruct (ix_bucket src ix Hix (Z.land val (di_mask ix))) as (a & b & Ha & Hb & Hab & Hbz & _); [lia|].
  wp_step. eapply wpe_ok; [by apply rd_idx|]. wp_step. eapply wpe_ok; [by apply rd_idx|].
  apply (wpe_iter no_fault (fun (v : Z * Z * Z) s' => s' = s /\ 0 <= v.1.1 <= zlen (di_entries ix) /\ match_ok src trg data v.1.2 v.2)
    (fun v _ => zlen (di_entries ix) - v.1.1)); [|split; [done|split; [cbn; lia|done]]|cbn [fst]; unfold zlen; lia].
  intros [[entry m] o] s' (-> & He & Hmo). cbn [fst snd] in *. split; [lia|].
  eapply wpe_mono; [apply (wp_try_entry data val b entry m o); [done|done|lia|done]|].
  intros [[[e' m'] o']|[m' o']] ? [-> H]; cbn [fst snd]; [|done]. destruct H as (H1 & -> & H2). split; [split; [done|split; [lia|done]]|lia].
Qed.
Lemma wp_roll val data s : hash_range val -> 16 <= data < zlen trg ->
  wp (roll trg val data) (fun v s' => s' = s /\ hash_range v) s.
Proof using Htrg.
  intros Hv Hd. unfold roll, RABIN_WINDOW. destruct (idx_lt trg (data - 16)) as (b & Hb); [lia|]. destruct (idx_lt trg data) as (c & Hc); [lia|].
  pose proof (byte_idx _ _ _ Htrg Hb) as Hbb. pose proof (byte_idx _ _ _ Htrg Hc) as Hbc.
  wp_step. eapply wpe_ok; [by apply rd_idx|]. wp_step. eapply wpe_ok; [by apply rd_idx, U_table|]. wp_step. eapply wpe_ok; [by apply rd_idx|].
  assert (Hr : hash_range (Z.lxor val (rabin_hash 0 (b :: replicate 15 0)))).
  { apply (lxor_range 31); [done|done|]. apply rabin_hash_range; [|done]. constructor; [done|]. by apply Forall_replicate. }
  eapply wpe_ok; [by apply rabin_ok|]. split; [done|]. by apply rabin_step_range.
Qed.

(** ** The program written so far *)
(** the bytes of an insertion that is not closed yet, behind their slot *)
Definition pending (slot : Z) (lits : list Z) : list Z := match lits with [] => [] | _ => slot :: lits end.
Definition op_good (op : dop) : Prop := op_ok op /\ op_fits src op = true.
Record written (hdr : list Z) (ops : list dop) (lits : list Z) (d : diffing) : Prop := mkWritten {
  wr_ops : Forall op_good ops;
  wr_run : run src ops ++ lits = slice trg 0 (d_data d);
  wr_data : 0 <= d_data d <= zlen trg;
  wr_count : zlen lits = d_inscnt d;
  wr_max : zlen lits < 127;
  wr_out : exists slot, holds (d_out d) (hdr ++ enc_ops ops ++ pending slot lits)
}.
Lemma run_snoc ops op : run src (ops ++ [op]) = run src ops ++ run_op src op.
Proof. unfold run. rewrite map_app, concat_app. cbn. by rewrite app_nil_r. Qed.
Lemma enc_snoc ops op : enc_ops (ops ++ [op]) = enc_ops ops ++ enc_op op.
Proof. unfold enc_ops. rewrite map_app, concat_app. cbn [map concat]. by rewrite app_nil_r. Qed.
Lemma lits_bytes hdr ops lits d : written hdr ops lits d -> Forall byte lits.
Proof using Htrg.
  intros [_ H _ _ _ _]. assert (Hb : Forall byte (run src ops ++ lits)) by (rewrite H; by apply Forall_take, Forall_drop).
  by apply Forall_app in Hb as [_ Hb].
Qed.
(** the count is put into its slot: the insertion is an operation *)
Lemma close_insert hdr ops slot lits o s : holds o (hdr ++ enc_ops ops ++ slot :: lits) -> 0 < zlen lits < 128 -> Forall byte lits ->
  exists o', poke o (o_pos o - zlen lits - 1) (zlen lits) s = Ok o' s /\ holds o' (hdr ++ enc_ops (ops ++ [Insert lits])) /\ o_size o' = o_size o.
Proof.
  intros Ho Hl Hb. pose proof Ho as [_ Hp]. rewrite app_assoc in Ho. destruct (poke_ok o _ _ _ (zlen lits) s Ho) as (o' & E & Ho' & Hsz).
  rewrite u8_small in Ho' by lia. exists o'. replace (o_pos o - zlen lits - 1) with (zlen (hdr ++ enc_ops ops)).
  - split; [done|]. rewrite enc_snoc. cbn [enc_op]. by rewrite <- app_assoc in Ho'.
  - rewrite Hp, !zlen_app, zlen_cons. lia.
Qed.
Definition set_out (o : outbuf) (d : diffing) : diffing := mkDiffing o (d_data d) (d_val d) (d_inscnt d) (d_moff d) (d_msize d).
Lemma wp_put_count hdr ops lits d s : written hdr ops lits d -> lits <> [] ->
  wp (put_count d) (fun d' s' => s' = s /\ exists o, d' = mkDiffing o (d_data d) (d_val d) 0 (d_moff d) (d_msize d) /\
    o_pos o = o_pos (d_out d) /\ o_size o = o_size (d_out d) /\ written hdr (ops ++ [Insert lits]) [] d') s.
Proof using Htrg.
  intros Hw Hne. pose proof (lits_bytes _ _ _ _ Hw) as Hb. destruct Hw as [H1 H2 H3 H4 H5 (slot & H6)]. destruct lits as [|b lits]; [done|].
  assert (Hl : 0 < zlen (b :: lits)) by (rewrite zlen_cons; pose proof (zlen_pos lits); lia). cbn [pending] in H6.
  unfold put_count. rewrite <- H4. destruct (close_insert _ _ _ _ _ s H6 ltac:(lia) Hb) as (o & E & Ho & Hsz). wp_step.
  eapply wpe_ok; [exact E|]. wp_step. split; [done|]. exists o. split; [done|].
  assert (Hpos : o_pos o = o_pos (d_out d)).
  { destruct H6 as [_ ->]. destruct Ho as [_ ->]. rewrite enc_snoc, !zlen_app. cbn [enc_op]. rewrite !zlen_cons. lia. }
  split; [done|]. split; [done|]. split; cbn [d_data d_inscnt d_out]; [|by rewrite app_nil_r, run_snoc|done|done|done|].
  - apply Forall_app. split; [done|]. constructor; [|constructor]. split; [split; [lia|done]|done].
  - exists 0. cbn [pending]. by rewrite app_nil_r.
Qed.

(** a byte more *)
Lemma wp_put_literal hdr ops lits d s : written hdr ops lits d -> d_data d < zlen trg -> o_pos (d_out d) + 2 <= o_size (d_out d) ->
  wp (put_literal trg d) (fun d' s' => s' = s /\ (exists ops' lits', written hdr ops' lits' d') /\ d_data d' = d_data d + 1 /\ d_val d' = d_val d /\
    d_msize d' = 0 /\ o_size (d_out d') = o_size (d_out d) /\ o_pos (d_out d') <= o_pos (d_out d) + 2) s.
Proof using Htrg.
  intros Hw Hd Hroom. pose proof (lits_bytes _ _ _ _ Hw) as Hlb. destruct Hw as [H1 H2 H3 H4 H5 (slot & H6)].
  destruct (idx_lt trg (d_data d)) as (b & Hb); [lia|]. pose proof (byte_idx _ _ _ Htrg Hb) as Hbb. unfold put_literal. cbv zeta.
  assert (Hslot : exists slot', holds (if d_inscnt d =? 0 then seek (d_out d) 1 else d_out d) (hdr ++ enc_ops ops ++ slot' :: lits)).
  { rewrite <- H4. destruct lits as [|c lits].
    - cbn [pending] in H6. rewrite app_nil_r in H6. destruct (seek_slot _ _ H6) as (x & Hx); [lia|]. exists x. by rewrite <- app_assoc in Hx.
    - rewrite zlen_cons. pose proof (zlen_pos lits). replace (1 + zlen lits =? 0) with false by lia. by exists slot. }
  destruct Hslot as (slot' & Ho). set (o0 := if d_inscnt d =? 0 then _ else _) in *.
  assert (Hsz0 : o_size o0 = o_size (d_out d) /\ o_pos o0 <= o_pos (d_out d) + 1) by (unfold o0; destruct (d_inscnt d =? 0); simpl; split; done || lia).
  wp_step. eapply wpe_ok; [by apply rd_idx|]. destruct (putb_ok o0 _ b s Ho) as (o1 & E & Ho1 & Hsz1); [lia|]. wp_step. eapply wpe_ok; [exact E|].
  rewrite u8_small in Ho1 by exact Hbb. replace ((hdr ++ enc_ops ops ++ slot' :: lits) ++ [b]) with (hdr ++ enc_ops ops ++ slot' :: lits ++ [b]) in Ho1 by (by rewrite <- !app_assoc).
  assert (Hpos1 : o_pos o1 = o_pos o0 + 1) by (destruct Ho1 as [_ ->], Ho as [_ ->]; rewrite !zlen_app, !zlen_cons, zlen_app; change (zlen [b]) with 1; lia).
  assert (Hrun : run src ops ++ lits ++ [b] = slice trg 0 (d_data d + 1)).
  { destruct (slice_one trg (d_data d)) as (x & Hx & Hi); [lia|]. rewrite <- slice_prefix, <- H2, Hx, <- app_assoc by lia. congruence. }
  assert (Hlen : zlen (lits ++ [b]) = d_inscnt d + 1) by (rewrite zlen_app, H4; done).
  assert (Hw1 : d_inscnt d + 1 <= 127 -> Forall byte (lits ++ [b])) by (intros _; apply Forall_app; repeat constructor; apply Hlb || apply Hbb).
  destruct (Z.eqb_spec (d_inscnt d + 1) 127) as [H127|Hn127].
  - pose proof (close_insert _ _ _ _ _ s Ho1 ltac:(lia) (Hw1 ltac:(lia))) as (o2 & E2 & Ho2 & Hsz2). rewrite Hlen in E2. wp_step. eapply wpe_ok; [exact E2|]. wp_step.
    split; [done|]. split; [|repeat split; cbn [d_out]; try lia]; [|destruct Ho2 as [_ ->], Ho1 as [_ Hp1]; rewrite enc_snoc, !zlen_app in *; cbn [enc_op]; rewrite !zlen_cons in *; lia].
    exists (ops ++ [Insert (lits ++ [b])]), []. split; cbn [d_data d_inscnt d_out]; [|by rewrite app_nil_r, run_snoc|lia|done|done|exists 0; cbn [pending]; by rewrite app_nil_r].
    apply Forall_app. split; [done|]. constructor; [|done]. split; [split; [lia|by apply Hw1; lia]|done].
  - wp_step. split; [done|]. split; [|repeat split; cbn [d_out]; lia]. exists ops, (lits ++ [b]).
    split; cbn [d_data d_inscnt d_out]; [done|done|lia|done|lia|]. exists slot'. by destruct lits.
Qed.

(** ** A copy *)
(** a match of [d0], taken back over some of the bytes that were put *)
Record back (d0 d : diffing) : Prop := mkBack {
  bk_same : same_at src trg (d_data d) (d_moff d) (d_msize d);
  bk_end : d_data d + d_msize d = d_data d0 + d_msize d0;
  bk_data : d_data d <= d_data d0;
  bk_moff : d_moff d <= d_moff d0;
  bk_val : d_val d = d_val d0;
  bk_size : o_size (d_out d) = o_size (d_out d0);
  bk_pos : o_pos (d_out d) <= o_pos (d_out d0)
}.
(** the state behind the loop: an insertion that is still open, or none, with
    its slot given back *)
Definition taken_back (hdr : list Z) (ops : list dop) (d : diffing) : Prop :=
  (exists lits, lits <> [] /\ written hdr ops lits d) \/
  (d_inscnt d = -1 /\ holds (d_out d) (hdr ++ enc_ops ops) /\ Forall op_good ops /\ run src ops = slice trg 0 (d_data d) /\ 0 <= d_data d <= zlen trg).
Lemma wp_match_back hdr ops lits d s : written hdr ops lits d -> lits <> [] -> same_at src trg (d_data d) (d_moff d) (d_msize d) ->
  wp (match_back ix trg d) (fun r s' => s' = s /\
    match r with
    | inl d' => back d d' /\ d_inscnt d' = d_inscnt d - 1 /\ exists lits', lits' <> [] /\ written hdr ops lits' d'
    | inr d' => back d d' /\ d_data d - d_data d' <= 1 /\ taken_back hdr ops d'
    end) s.
Proof using Hix.
  intros Hw Hne Hsame. pose proof Hsame as (S1 & S2 & S3 & S4 & S5 & S6). assert (Hrefl : back d d) by (split; done || lia).
  assert (Hstop : back d d /\ d_data d - d_data d <= 1 /\ taken_back hdr ops d) by (split; [done|split; [lia|left; by exists lits]]).
  unfold match_back. rewrite (ix_src src ix Hix). apply wpe_if; intros Hm; [|by wp_step]. apply negb_true_iff, Z.eqb_neq in Hm.
  destruct Hw as [H1 H2 H3 H4 H5 (slot & H6)]. destruct (exists_last Hne) as (lits' & b & ->). clear Hne.
  assert (Hlen : zlen (run src ops ++ lits') = d_data d - 1).
  { apply (f_equal zlen) in H2. rewrite slice_size, !zlen_app in H2 by lia. change (zlen [b]) with 1 in H2. rewrite zlen_app. lia. }
  pose proof (zlen_pos (run src ops ++ lits')). destruct (idx_lt src (d_moff d - 1)) as (x & Hx); [lia|]. destruct (idx_lt trg (d_data d - 1)) as (y & Hy); [lia|].
  wp_step. eapply wpe_ok; [by apply rd_idx|]. wp_step. eapply wpe_ok; [by apply rd_idx|]. apply wpe_if; intros Hxy; [|by wp_step].
  apply Z.eqb_eq in Hxy. subst y. pose proof (same_cons src trg _ _ _ x Hsame ltac:(lia) ltac:(lia) Hx Hy) as Hsame'.
  assert (Hrun : run src ops ++ lits' = slice trg 0 (d_data d - 1)).
  { rewrite app_assoc in H2. rewrite (slice_split trg 0 (d_data d - 1)) in H2 by lia.
    apply app_inj_1 in H2 as [H2 _]; [done|]. pose proof (slice_size trg 0 (d_data d - 1)). unfold zlen in *. lia. }
  assert (Hcnt : zlen lits' = d_inscnt d - 1) by (rewrite <- H4, zlen_app; change (zlen [b]) with 1; lia).
  assert (Hout : holds (seek (d_out d) (-1)) (hdr ++ enc_ops ops ++ slot :: lits')).
  { apply (seek_back _ _ b). rewrite <- !app_assoc. cbn [app]. by destruct lits'. }
  cbv zeta. apply wpe_if; intros Hz; wp_step; (split; [done|]).
  - apply negb_true_iff, Z.eqb_neq in Hz. split; [split; simpl; done || lia|]. split; [done|]. exists lits'. assert (lits' <> []) by (intros ->; change (zlen []) with 0 in Hcnt; lia).
    split; [done|]. split; simpl; [done|done|lia|done|lia|]. exists slot. by destruct lits'.
  - apply negb_false_iff, Z.eqb_eq in Hz. destruct lits' as [|c lits']; [|rewrite zlen_cons in Hcnt; pose proof (zlen_pos lits'); lia].
    split; [split; simpl; done || lia|]. simpl d_data. split; [lia|]. right. simpl. split; [lia|]. rewrite app_nil_r in Hrun. split; [|split; [done|split; [done|lia]]].
    apply (seek_back _ _ slot). by rewrite <- app_assoc.
Qed.
Lemma back_trans d0 d1 d2 : back d0 d1 -> back d1 d2 -> back d0 d2.
Proof. intros [] []. split; done || congruence || lia. Qed.
(** the insertion in front of a copy is closed *)
Lemma wp_close hdr ops lits d s : written hdr ops lits d -> same_at src trg (d_data d) (d_moff d) (d_msize d) ->
  o_pos (d_out d) < o_size (d_out d) ->
  wp (if negb (d_inscnt d =? 0) then d <- iter 128 (match_back ix trg) d ;; put_count d else ret d) (fun d' s' => s' = s /\
    back d d' /\ d_data d - d_data d' <= 127 /\ d_inscnt d' = 0 /\ exists ops', written hdr ops' [] d') s.
Proof using Hix Htrg.
  intros Hw Hsame Hroom. apply wpe_if; intros Hc.
  2:{ apply negb_false_iff, Z.eqb_eq in Hc. pose proof (wr_count _ _ _ _ Hw) as Hcnt. destruct lits; [|rewrite zlen_cons in Hcnt; pose proof (zlen_pos lits); lia].
      wp_step. split; [done|]. split; [split; done || lia|]. split; [lia|]. split; [done|by exists ops]. }
  apply negb_true_iff, Z.eqb_neq in Hc. pose proof (wr_count _ _ _ _ Hw) as Hcnt. pose proof (wr_max _ _ _ _ Hw) as Hmax.
  assert (Hne : lits <> []) by (intros ->; by change (zlen []) with 0 in Hcnt). wp_step.
  eapply wpe_mono; [apply (wpe_iter no_fault (fun d' s' => s' = s /\ back d d' /\ d_data d - d_data d' = d_inscnt d - d_inscnt d' /\
      exists lits', lits' <> [] /\ written hdr ops lits' d') (fun d' _ => d_inscnt d')
      _ (fun d' s' => s' = s /\ back d d' /\ d_data d - d_data d' <= 127 /\ taken_back hdr ops d'))|].
  - intros d' s' (-> & Hb & Hdd & lits' & Hne' & Hw'). pose proof (wr_count _ _ _ _ Hw') as Hcnt'. pose proof (zlen_pos lits'). split; [lia|].
    eapply wpe_mono; [apply (wp_match_back hdr ops lits' d' s Hw' Hne'), Hb|]. intros [d''|d''] s'' [-> H'].
    + destruct H' as (Hb' & Hi & Hl'). split; [|lia]. split; [done|]. split; [by eapply back_trans|]. split; [|done].
      destruct Hl' as (l2 & _ & Hw2). pose proof (wr_run _ _ _ _ Hw2) as R2. pose proof (wr_run _ _ _ _ Hw') as R1.
      pose proof (wr_count _ _ _ _ Hw2) as C2. apply (f_equal zlen) in R1, R2. rewrite zlen_app, slice_size in R1, R2 by (destruct (wr_data _ _ _ _ Hw2), (wr_data _ _ _ _ Hw'); lia). lia.
    + destruct H' as (Hb' & H1 & Ht). split; [done|]. split; [by eapply back_trans|]. split; [lia|done].
  - split; [done|]. split; [split; done || lia|]. split; [lia|by exists lits].
  - lia.
  - intros d' s' (-> & Hb & Hdd & [(lits' & Hne' & Hw')|(Hm1 & Ho & Hops & Hrun & Hdat)]).
    + eapply wpe_mono; [by apply (wp_put_count hdr ops lits')|]. intros d'' s'' (-> & o & -> & Hp & Hz & Hw''). split; [done|].
      split; [destruct Hb; split; simpl; done || congruence || lia|]. split; [done|]. split; [done|by eexists].
    + unfold put_count. rewrite Hm1. replace (o_pos (d_out d') - -1 - 1) with (o_pos (d_out d')) by lia.
      destruct (poke_behind _ _ (-1) s Ho) as (o & E & Ho' & Hz & _); [destruct Hb; lia|]. wp_step. eapply wpe_ok; [exact E|]. wp_step.
      assert (Hpo : o_pos o = o_pos (d_out d')) by (destruct Ho' as [_ ->], Ho as [_ ->]; done).
      split; [done|]. split; [destruct Hb; split; simpl; done || congruence || lia|]. split; [done|]. split; [done|]. exists ops.
      split; simpl; [done|by rewrite app_nil_r|done|done|done|]. exists 0. by rewrite app_nil_r.
Qed.

Lemma wp_put_param E o bs x mask shift bit i s (Q : outbuf * Z -> Heap -> Prop) : holds o bs -> o_pos o < o_size o ->
  (forall o', holds o' (bs ++ param_bytes x mask shift) -> o_size o' = o_size o -> o_pos o' <= o_pos o + 1 ->
    Q (o', Z.lor i (param_bit x mask bit)) s) -> wpe E (put_param x mask shift bit (o, i)) Q s.
Proof.
  intros Ho Hroom HQ.
  assert (Hpos : forall o', holds o' (bs ++ param_bytes x mask shift) -> o_pos o' <= o_pos o + 1).
  { intros o' [_ ->]. destruct Ho as [_ ->]. rewrite zlen_app. pose proof (param_bytes_size x mask shift). lia. }
  unfold put_param, param_bit, param_bytes in *. destruct (has x mask).
  - destruct (putb_ok o bs (Z.shiftr x shift) s Ho Hroom) as (o' & E1 & Ho' & Hsz). wp_step. eapply wpe_ok; [exact E1|]. wp_step. by apply HQ; [| |apply Hpos].
  - wp_step. rewrite Z.lor_0_r, app_nil_r in HQ. by apply HQ; [| |lia].
Qed.
(** a copy is put behind the program *)
Lemma wp_emit_copy hdr ops d n s : written hdr ops [] d -> same_at src trg (d_data d) (d_moff d) n -> 0 <= d_moff d < 2 ^ 32 -> 0 < n <= 0x10000 ->
  o_pos (d_out d) + 7 <= o_size (d_out d) ->
  wp (emit_copy (d_out d) (d_moff d) n) (fun o s' => s' = s /\ o_size o = o_size (d_out d) /\ o_pos o <= o_pos (d_out d) + 7 /\
    forall val moff msize, written hdr (ops ++ [Copy (d_moff d) n]) [] (mkDiffing o (d_data d + n) val 0 moff msize)) s.
Proof.
  intros [H1 H2 H3 H4 H5 (slot & H6)] (S1 & S2 & S3 & S4 & S5 & S6) Hoff Hn Hroom. cbn [pending] in H6. rewrite app_nil_r in H2, H6.
  destruct (seek_slot _ _ H6) as (x & Hx); [lia|]. assert (Hpx : o_pos (seek (d_out d) 1) = o_pos (d_out d) + 1) by done.
  assert (Hzx : o_size (seek (d_out d) 1) = o_size (d_out d)) by done.
  unfold emit_copy. cbv zeta. do 6 (wp_step; eapply wp_put_param; [eassumption|lia|]; intros ? ? ? ?).
  match goal with H : holds ?o _ |- wpe _ (poke ?o _ _) _ _ => rename o into o6; rename H into Ho end.
  replace (o_pos (d_out d)) with (zlen (hdr ++ enc_ops ops)) by (by destruct H6 as [_ ->]). rewrite <- !app_assoc in Ho. rewrite app_assoc in Ho.
  destruct (poke_ok o6 _ x _ (copy_cmd (d_moff d) n) s Ho) as (o7 & E & Ho7 & Hz7). rewrite u8_small in Ho7 by apply copy_cmd_byte.
  eapply wpe_ok; [exact E|]. change (holds o7 ((hdr ++ enc_ops ops) ++ copy_cmd (d_moff d) n :: copy_params (d_moff d) n)) in Ho7.
  split; [done|]. split; [lia|]. split.
  - destruct Ho7 as [_ ->]. pose proof (copy_params_size (d_moff d) n). rewrite !zlen_app, zlen_cons. lia.
  - intros val moff msize. split; cbn [d_data d_inscnt d_out]; [apply Forall_app; split; [done|constructor; [split; [by split|by apply Z.leb_le]|constructor]]| |lia|done|done|].
    + rewrite app_nil_r, run_snoc, H2. cbn [run_op]. change (take (Z.to_nat n) (drop (Z.to_nat (d_moff d)) src)) with (slice src (d_moff d) n).
      rewrite S6. apply slice_prefix; lia.
    + exists 0. cbn [pending]. by rewrite app_nil_r, enc_snoc, app_assoc.
Qed.
(** the loop of create_delta() between two rounds *)
Record diffed (hdr : list Z) (d : diffing) : Prop := mkDiffed {
  df_written : exists ops lits, written hdr ops lits d;
  df_data : d_data d = zlen trg \/ RABIN_WINDOW <= d_data d;
  df_val : hash_range (d_val d);
  df_match : match_ok src trg (d_data d) (d_msize d) (d_moff d);
  df_pos : o_pos (d_out d) <= 64 + 2 * d_data d
}.
Lemma wp_put_copy hdr d s : diffed hdr d -> 4 <= d_msize d -> RABIN_WINDOW <= d_data d -> o_pos (d_out d) + 7 <= o_size (d_out d) ->
  wp (put_copy ix trg d) (fun d' s' => s' = s /\ diffed hdr d' /\ d_data d < d_data d' /\ o_size (d_out d') = o_size (d_out d) /\
    o_pos (d_out d') <= o_pos (d_out d) + 7) s.
Proof using Hix Htrg.
  intros [(ops & lits & Hw) _ Hv [Hm1 Hm2] Hp] Hm Hd Hroom. destruct (Hm2 ltac:(lia)) as [Hoff Hsame]. unfold put_copy. wp_step.
  eapply wpe_mono; [apply (wp_close hdr ops lits); [done|done|lia]|]. intros d1 ? (-> & [Bs Be Bd Bm Bv Bz Bp] & Hback & Hi1 & ops1 & Hw1). cbv zeta.
  pose proof Bs as (S1 & S2 & S3 & S4 & S5 & S6). unfold RABIN_WINDOW in *.
  assert (Hleft : exists n, (if d_msize d1 <? 65536 then 0 else u32 (d_msize d1 - 65536)) = d_msize d1 - n /\ 0 < n <= 0x10000 /\ n <= d_msize d1 /\
    d_data d + 4 <= d_data d1 + n).
  { destruct (Z.ltb_spec (d_msize d1) 65536); [exists (d_msize d1); lia|]. rewrite u32_small by lia. exists 65536. lia. }
  destruct Hleft as (n & El & Hn & Hnm & Hadv). rewrite El. replace (d_msize d1 - (d_msize d1 - n)) with n by lia. clear El.
  destruct (same_split _ _ _ _ n _ Bs ltac:(lia)) as [Hcopy Hrest]. wp_step.
  eapply wpe_mono; [apply (wp_emit_copy hdr ops1 d1 n); [done|done|lia|done|lia]|]. intros o ? (-> & Hzo & Hpo & Hwo).
  set (msize := if 4294967295 <? d_moff d1 + n then 0 else d_msize d1 - n).
  assert (Hmsize : match_ok src trg (d_data d1 + n) msize (d_moff d1 + n)).
  { unfold msize. destruct (Z.ltb_spec 4294967295 (d_moff d1 + n)); split; try lia. intros _. by split; [lia|]. }
  assert (Hdone : forall val, hash_range val -> diffed hdr (mkDiffing o (d_data d1 + n) val (d_inscnt d1) (d_moff d1 + n) msize)).
  { intros val Hval. rewrite Hi1. split; cbn [d_data d_val d_msize d_moff d_out]; [by eexists _, []|right; unfold RABIN_WINDOW; lia|done|done|lia]. }
  clearbody msize. wp_step. apply wpe_if; intros _.
  - eapply wpe_ok; [apply (fold_window_at trg (d_data d1 + n) (-16)); [done|lia|lia]|]. wp_step. split; [done|]. split; [|simpl; lia].
    apply Hdone. apply rabin_hash_range; [by apply window_bytes|done].
  - wp_step. wp_step. split; [done|]. split; [|simpl; lia]. apply Hdone. by rewrite Bv.
Qed.

(** ** The loop *)
Lemma wp_diff_step hdr d s : diffed hdr d -> d_data d < zlen trg -> o_pos (d_out d) + 7 <= o_size (d_out d) ->
  wp (diff_step ix trg d) (fun d' s' => s' = s /\ diffed hdr d' /\ d_data d < d_data d' /\ o_size (d_out d') = o_size (d_out d) /\
    o_pos (d_out d') <= o_pos (d_out d) + 7) s.
Proof using Hix Htrg.
  intros Hdf Hlt Hroom. destruct (Hdf) as [(ops & lits & Hw) [Hd|Hd] Hv Hm Hp]; [lia|]. unfold RABIN_WINDOW in Hd. unfold diff_step. wp_step.
  assert (Hmain : forall val msize moff, hash_range val -> match_ok src trg (d_data d) msize moff ->
    let d1 := mkDiffing (d_out d) (d_data d) val (d_inscnt d) moff msize in
    wp (if d_msize d1 <? 4 then put_literal trg d1 else put_copy ix trg d1) (fun d' s' => s' = s /\ diffed hdr d' /\ d_data d < d_data d' /\
      o_size (d_out d') = o_size (d_out d) /\ o_pos (d_out d') <= o_pos (d_out d) + 7) s).
  { intros val msize moff Hval Hmo d1. assert (Hw1 : written hdr ops lits d1) by (destruct Hw; by split).
    apply wpe_if; intros H4.
    - eapply wpe_mono; [apply (wp_put_literal hdr ops lits d1 s Hw1); [done|simpl; lia]|]. intros d' ? (-> & Hw' & Hd' & Hv' & Hm' & Hz' & Hp').
      simpl in *. split; [done|]. split; [|lia]. split; [done|unfold RABIN_WINDOW; lia|by rewrite Hv'|rewrite Hm'; split; lia|lia].
    - apply Z.ltb_ge in H4. apply (wp_put_copy hdr d1); [split; done || by eauto|done|done|done]. }
  apply wpe_if; intros H4096.
  - wp_step. eapply wpe_mono; [apply wp_roll; [done|lia]|]. intros val ? [-> Hval]. wp_step.
    eapply wpe_mono; [apply wp_find_match; [lia|apply Hval|done]|]. intros [msize moff] ? [-> Hmo]. wp_step. by apply Hmain.
  - wp_step. destruct d. by apply Hmain.
Qed.

Lemma wp_first_window o bs s : holds o bs -> o_pos o + 16 <= o_size o ->
  wp (first_window trg o) (fun r s' => s' = s /\ let '(i, val, o') := r in i = Z.min 16 (zlen trg) /\ hash_range val /\
    holds o' (bs ++ slice trg 0 i) /\ o_size o' = o_size o) s.
Proof using Htrg.
  intros Ho Hroom. unfold first_window, RABIN_WINDOW. pose proof (zlen_pos trg).
  apply (wpe_iter no_fault (fun (v : Z * Z * outbuf) s' => let '(i, val, o') := v in s' = s /\ 0 <= i <= Z.min 16 (zlen trg) /\ hash_range val /\
    holds o' (bs ++ slice trg 0 i) /\ o_size o' = o_size o) (fun v _ => 16 - v.1.1)).
  - intros [[i val] o'] s' (-> & Hi & Hv & Ho' & Hz). cbn [fst]. split; [lia|]. apply wpe_if; intros Hc.
    + apply andb_true_iff in Hc as [H1%Z.ltb_lt H2%Z.ltb_lt]. destruct (slice_one trg i) as (b & Hsl & Hb); [lia|].
      wp_step. eapply wpe_ok; [by apply rd_idx|]. pose proof (byte_idx _ _ _ Htrg Hb) as Hbb.
      assert (Hpos : o_pos o' = o_pos o + i) by (destruct Ho' as [_ ->], Ho as [_ ->]; rewrite zlen_app, slice_size by lia; done).
      destruct (putb_ok o' _ b s Ho') as (o2 & E & Ho2 & Hz2); [lia|]. wp_step. eapply wpe_ok; [exact E|]. wp_step. eapply wpe_ok; [by apply rabin_ok|]. wp_step.
      split; [|cbn [fst]; lia]. split; [done|]. split; [lia|]. split; [by apply rabin_step_range|]. split; [|congruence].
      rewrite u8_small in Ho2 by exact Hbb. rewrite <- slice_prefix, Hsl, app_assoc by lia. done.
    + apply andb_false_iff in Hc. wp_step. split; [done|]. split; [destruct Hc as [Hc|Hc]; apply Z.ltb_ge in Hc; lia|]. done.
  - split; [done|]. split; [lia|]. split; [done|]. split; [|done]. unfold slice. cbn. by rewrite app_nil_r.
  - cbn. lia.
Qed.
(** between two rounds there is room for a literal and the longest copy *)
Record looping (hdr : list Z) (s0 : Heap) (d : diffing) (s : Heap) : Prop := mkLooping {
  lp_diffed : diffed hdr d;
  lp_room : o_pos (d_out d) + 8 <= o_size (d_out d);
  lp_size : 36 <= o_size (d_out d) <= 2 ^ 38;
  lp_live : h_live s = h_live s0;
  lp_calls : (h_calls s0 <= h_calls s)%nat
}.
Definition max_hit (max_size : Z) (o : outbuf) : Prop := max_size <> 0 /\ max_size < o_pos o.
Lemma zlen_grown `{alloc_world} (old : list Z) k n : 0 <= n -> zlen (take (Z.to_nat n) old ++ block k (zlen old) n) = n.
Proof. intros Hn. unfold block, zlen. rewrite length_app, length_take, length_map, length_seq. lia. Qed.
Lemma holds_grown `{alloc_world} o bs k n : holds o bs -> o_pos o <= n ->
  holds (mkOut (take (Z.to_nat n) (o_bytes o) ++ block k (zlen (o_bytes o)) n) (o_pos o)) bs.
Proof.
  intros Ho Hn. pose proof (holds_size o bs Ho) as Hs. destruct Ho as [H1 H2]. split; [|done]. cbn [o_pos o_bytes]. unfold o_size, zlen in Hs.
  rewrite take_app_le by (rewrite length_take; lia). rewrite take_take, Nat.min_l by lia. done.
Qed.
(** the buffer grows, unless the delta is too large already *)
Definition grown_size (o : outbuf) (max_size : Z) : Z :=
  let outsize := u64 (o_size o * 3) / 2 in
  if negb (max_size =? 0) && (max_size <=? outsize) then u64 (max_size + MAX_OP_SIZE + 1) else outsize.
Lemma grown_size_ok o max_size : 0 <= max_size -> 36 <= o_size o <= 2 ^ 38 -> o_pos o < o_size o -> o_size o <= 2 ^ 37 -> ~ max_hit max_size o ->
  o_pos o + 8 <= grown_size o max_size /\ 36 <= grown_size o max_size <= 2 ^ 38.
Proof.
  intros Hm Hs Hp Hle Hhit. unfold grown_size, max_hit, MAX_OP_SIZE, RABIN_WINDOW in *. cbv zeta. rewrite u64_small by lia.
  pose proof (Z.div_mod (o_size o * 3) 2 ltac:(lia)). pose proof (Z.mod_pos_bound (o_size o * 3) 2 ltac:(lia)).
  destruct (Z.eqb_spec max_size 0) as [->|Hne]; cbn [negb andb]; [lia|]. destruct (Z.leb_spec max_size (o_size o * 3 / 2)); [rewrite u64_small by lia|]; lia.
Qed.
Lemma wp_diff_body `{alloc_world} hdr s0 max_size d s : 0 <= max_size -> zlen trg < 2 ^ 35 -> looping hdr s0 d s ->
  wp (diff_body ix trg max_size d) (fun r s' =>
    match r with
    | inl d' => looping hdr s0 d' s' /\ d_data d < d_data d'
    | inr (Some d') => (exists ops lits, written hdr ops lits d') /\ (d_data d' = zlen trg \/ max_hit max_size (d_out d')) /\
        h_live s' = h_live s0 /\ (h_calls s0 <= h_calls s')%nat
    | inr None => h_live s' = h_live s0 - 1 /\ (h_calls s0 <= h_calls s')%nat /\ out_of_memory s0 s'
    end) s.
Proof using Hix Htrg.
  intros Hmax Htl [Hdf Hroom Hsize Hlive Hcalls]. unfold diff_body. apply wpe_if; intros Hlt.
  2:{ apply Z.ltb_ge in Hlt. wp_step. destruct Hdf as [(ops & lits & Hw) _ _ _ _]. pose proof (wr_data _ _ _ _ Hw). split; [by exists ops, lits|]. split; [left; lia|done]. }
  apply Z.ltb_lt in Hlt. wp_step. eapply wpe_mono; [apply (wp_diff_step hdr d); [done|done|lia]|]. intros d' ? (-> & Hdf' & Hadv & Hz' & Hp'). cbv zeta.
  fold (grown_size (d_out d') max_size). pose proof (df_written _ _ Hdf') as (ops & lits & Hw). pose proof (wr_data _ _ _ _ Hw) as Hdat.
  apply wpe_if; intros Hfull.
  2:{ apply Z.leb_gt in Hfull. unfold MAX_OP_SIZE, RABIN_WINDOW in Hfull. wp_step. split; [|done]. split; [done|lia|lia|done|done]. }
  apply Z.leb_le in Hfull. pose proof (df_pos _ _ Hdf') as Hp2. unfold MAX_OP_SIZE, RABIN_WINDOW in Hfull. apply wpe_if; intros Hhit.
  { wp_step. apply andb_true_iff in Hhit as [H1 H2]. split; [by exists ops, lits|]. split; [right; split; [by apply negb_true_iff, Z.eqb_neq in H1|lia]|done]. }
  assert (Hno : ~ max_hit max_size (d_out d')).
  { intros [H1 H2]. apply andb_false_iff in Hhit as [Hh|Hh]; [apply negb_false_iff, Z.eqb_eq in Hh; lia|lia]. }
  destruct (grown_size_ok (d_out d') max_size) as [G1 G2]; [done|lia|lia|lia|done|]. wp_step. unfold realloc. do 3 wp_step. apply wpe_modify. wp_step.
  destruct (malloc_ok (h_calls s) (grown_size (d_out d') max_size)) eqn:Hok.
  - wp_step. split; [|done]. destruct (wr_out _ _ _ _ Hw) as (slot & Ho).
    assert (Hz : o_size (mkOut (take (Z.to_nat (grown_size (d_out d') max_size)) (o_bytes (d_out d')) ++
      block (h_calls s) (zlen (o_bytes (d_out d'))) (grown_size (d_out d') max_size)) (o_pos (d_out d'))) = grown_size (d_out d') max_size)
      by (apply zlen_grown; lia).
    split; cbn [d_out h_live h_calls]; [|rewrite Hz; cbn [o_pos]; lia|by rewrite Hz|done|lia].
    destruct Hdf' as [_ D2 D3 D4 D5]. split; try done. exists ops, lits. destruct Hw as [W1 W2 W3 W4 W5 _]. split; try done. exists slot. apply holds_grown; [done|lia].
  - wp_step. apply wp_free. wp_step. simpl. split; [lia|]. split; [lia|]. exists (h_calls s), (grown_size (d_out d') max_size). split; [simpl; lia|done].
Qed.

(** ** create_delta() *)
(** a delta: the two sizes and a program whose value is the target *)
Definition is_delta (delta : list Z) : Prop := exists ops, Forall op_good ops /\ run src ops = trg /\
  delta = enc_size (zlen src) ++ enc_size (zlen trg) ++ enc_ops ops.
Lemma wp_diff_loop `{alloc_world} hdr s0 max_size d s : 0 <= max_size -> zlen trg < 2 ^ 35 -> looping hdr s0 d s ->
  wp (iter (S (length trg)) (diff_body ix trg max_size) d) (fun r s' => (h_calls s0 <= h_calls s')%nat /\
    match r with
    | Some d' => (exists ops lits, written hdr ops lits d') /\ (d_data d' = zlen trg \/ max_hit max_size (d_out d')) /\ h_live s' = h_live s0
    | None => h_live s' = h_live s0 - 1 /\ out_of_memory s0 s'
    end) s.
Proof using Hix Htrg.
  intros Hmax Htl Hlp. apply (wpe_iter no_fault (looping hdr s0) (fun d _ => zlen trg - d_data d)); [|done|].
  - intros d1 s1 Hlp1. pose proof (df_written _ _ (lp_diffed _ _ _ _ Hlp1)) as (ops & lits & Hw). pose proof (wr_data _ _ _ _ Hw). split; [lia|].
    eapply wpe_mono; [by apply (wp_diff_body hdr s0)|]. intros [d2|[d2|]] s2 H2; [split; [tauto|lia]|tauto|tauto].
  - pose proof (df_written _ _ (lp_diffed _ _ _ _ Hlp)) as (ops & lits & Hw). pose proof (wr_data _ _ _ _ Hw). unfold zlen in *. lia.
Qed.
Lemma wp_delta_start `{alloc_world} k n s : 36 <= n <= 2 ^ 38 -> 0 < zlen trg -> zlen trg < 2 ^ 35 -> 0 <= zlen src < 2 ^ 35 ->
  wp (o <- put_size (mkOut (block k 0 n) 0) (zlen src) ;; o <- put_size o (zlen trg) ;; first_window trg (seek o 1)) (fun r s' => s' = s /\
    let '(i, val, o) := r in looping (enc_size (zlen src) ++ enc_size (zlen trg)) s (mkDiffing o i val i 0 0) s) s.
Proof using Htrg.
  intros Hn Ht0 Htl Hsl. assert (Hz : o_size (mkOut (block k 0 n) 0) = n) by (unfold o_size; cbn [o_bytes]; rewrite zlen_block; lia).
  assert (Ho : holds (mkOut (block k 0 n) 0) []) by (by split).
  destruct (put_size_ok _ [] (zlen src) s Hsl Ho) as (o1 & E1 & Ho1 & Hz1); [rewrite Hz; cbn [o_pos]; lia|]. wp_step. eapply wpe_ok; [exact E1|].
  destruct (enc_size_ok (zlen src) [] Hsl) as (_ & Hs1 & _). destruct (enc_size_ok (zlen trg) [] ltac:(lia)) as (_ & Hs2 & _). cbn [app] in Ho1.
  assert (Hp1 : o_pos o1 <= 5) by (destruct Ho1 as [_ ->]; lia).
  destruct (put_size_ok o1 _ (zlen trg) s ltac:(lia) Ho1) as (o2 & E2 & Ho2 & Hz2); [lia|]. wp_step. eapply wpe_ok; [exact E2|].
  assert (Hp2 : o_pos o2 <= 10) by (destruct Ho2 as [_ ->]; rewrite zlen_app; lia).
  destruct (seek_slot o2 _ Ho2) as (x & Hx); [lia|]. assert (Hp3 : o_pos (seek o2 1) = o_pos o2 + 1) by done. assert (Hz3 : o_size (seek o2 1) = o_size o2) by done.
  eapply wpe_mono; [apply (wp_first_window _ _ s Hx); lia|]. intros [[i val] o] ? (-> & Hi & Hv & Ho' & Hz'). split; [done|].
  assert (Hsl' : zlen (slice trg 0 i) = i) by (apply slice_size; lia).
  assert (Hp : o_pos o = o_pos o2 + 1 + i) by (destruct Ho' as [_ ->], Ho2 as [_ ->]; rewrite !zlen_app, Hsl'; change (zlen [x]) with 1; lia).
  split; cbn [d_out]; [|lia|lia|done|done]. split; cbn [d_data d_val d_msize d_moff d_out]; [|unfold RABIN_WINDOW; lia|done|by split|lia].
  exists [], (slice trg 0 i). split; cbn [d_data d_inscnt d_out]; [done|done|lia|done|lia|]. exists x. rewrite <- !app_assoc in Ho' |- *. cbn [enc_ops map concat app] in *.
  assert (slice trg 0 i <> []) by (intros E; rewrite E in Hsl'; change (zlen []) with 0 in Hsl'; lia). rewrite <- app_assoc in Ho'. by destruct (slice trg 0 i).
Qed.
Lemma wp_create_delta `{alloc_world} max_size s : 0 <= max_size -> 0 < zlen trg -> zlen trg < 2 ^ 35 -> zlen src < 2 ^ 35 ->
  wp (create_delta ix trg max_size) (fun r s' => (h_calls s <= h_calls s')%nat /\ h_live s' = h_live s + held r /\
    match r with
    | Some delta => is_delta delta /\ (max_size <> 0 -> zlen delta <= max_size)
    | None => out_of_memory s s' \/ max_size <> 0
    end) s.
Proof using Hix Htrg.
  intros Hmax Ht0 Htl Hsl. unfold create_delta. cbv zeta. replace (zlen trg =? 0) with false by lia. rewrite (ix_src src ix Hix).
  set (n := if negb (max_size =? 0) && (max_size <=? 8192) then _ else 8192).
  assert (Hn : 36 <= n <= 2 ^ 38) by (unfold n, MAX_OP_SIZE, RABIN_WINDOW; destruct (Z.eqb_spec max_size 0), (Z.leb_spec max_size 8192); cbn [negb andb]; lia).
  clearbody n. wp_step. apply wp_malloc_call; intros Hm; [|wp_step; split; [simpl; lia|split; [simpl; lia|by left]]]. set (s1 := mkHeap _ _ _).
  assert (Hstart := wp_delta_start (h_calls s) n s1 Hn Ht0 Htl ltac:(pose proof (zlen_pos src); lia)). unfold wpe, bind in Hstart |- *.
  destruct (put_size (mkOut (block (h_calls s) 0 n) 0) (zlen src) s1) as [o1 s2|]; [|done]. destruct (put_size o1 (zlen trg) s2) as [o2 s3|]; [|done].
  destruct (first_window trg (seek o2 1) s3) as [[[i val] o] s4|]; [|done]. destruct Hstart as [-> Hlp].
  pose proof (wp_diff_loop _ s1 max_size _ s1 Hmax Htl Hlp) as Hloop. unfold wpe in Hloop.
  destruct (iter (S (length trg)) (diff_body ix trg max_size) (mkDiffing o i val i 0 0) s1) as [[d|] s5|]; [| |done].
  2:{ destruct Hloop as (Hc & Hlive & (j & z & Hj & Hz)). simpl in *. split; [lia|]. split; [lia|]. left. exists j, z. split; [lia|done]. }
  destruct Hloop as (Hc & (ops & lits & Hw) & Hend & Hlive). change (h_live s1) with (h_live s + 1) in Hlive. simpl in Hc.
  assert (Hlast : wp (if negb (d_inscnt d =? 0) then put_count d else ret d) (fun d' s' => s' = s5 /\ d_data d' = d_data d /\ o_pos (d_out d') = o_pos (d_out d) /\
    exists ops', written (enc_size (zlen src) ++ enc_size (zlen trg)) ops' [] d') s5).
  { pose proof (wr_count _ _ _ _ Hw) as Hcnt. destruct lits as [|b lits].
    - change (zlen []) with 0 in Hcnt. rewrite <- Hcnt. cbn [negb Z.eqb]. wp_step. split; [done|]. split; [done|]. split; [done|by exists ops].
    - rewrite zlen_cons in Hcnt. pose proof (zlen_pos lits). replace (negb (d_inscnt d =? 0)) with true by lia.
      eapply wpe_mono; [by apply (wp_put_count _ _ _ _ s5 Hw)|]. intros d' ? (-> & o' & -> & Hp & _ & Hw'). split; [done|]. split; [done|]. split; [done|by eexists]. }
  unfold wpe in Hlast. destruct ((if negb (d_inscnt d =? 0) then put_count d else ret d) s5) as [d' s6|]; [|done].
  destruct Hlast as (-> & Hd' & Hp' & ops' & [W1 W2 W3 W4 W5 (slot & W6)]). cbn [pending] in W6. rewrite app_nil_r in W2, W6.
  destruct (Z.eqb_spec max_size 0) as [->|Hne]; cbn [negb andb].
  - simpl. split; [lia|]. split; [lia|]. split; [|done]. exists ops'. split; [done|]. destruct Hend as [Hend|[Hend _]]; [|done].
    split; [by rewrite W2, Hd', Hend, slice_all|]. destruct W6 as [-> _]. by rewrite <- app_assoc.
  - destruct (Z.ltb_spec max_size (o_pos (d_out d'))) as [Hbig|Hsmall]; simpl.
    + split; [lia|]. split; [lia|]. by right.
    + split; [lia|]. split; [lia|]. destruct Hend as [Hend|[_ Hend]]; [|lia]. destruct W6 as [-> W6]. split; [|intros _; lia].
      exists ops'. split; [done|]. split; [by rewrite W2, Hd', Hend, slice_all|by rewrite <- app_assoc].
Qed.
End create.
