(* ===== verification/GitDeltaProps.v ===== *)
(** * git: theorems about the delta format

    Deltas are correct: what diff_delta() makes of a source and a target,
    patch_delta() turns back into the target; patch_delta() gives every other
    delta the meaning of its program; the index keeps its promises, and the
    hash that rolls over the target is the hash of its windows. *)
From S2P Require Import Prelude GitBase GitDelta GitRabin GitPatch GitIndex GitDiff.

(** ** The header of a delta *)
Lemma param_bytes_none n : 0 < n < 0x10000 -> 1 <= zlen (param_bytes n 0xff 0 ++ param_bytes n 0xff00 8).
Proof.
  intros Hn. rewrite zlen_app. unfold param_bytes. destruct (has n 0xff) eqn:H1, (has n 0xff00) eqn:H2; try done. exfalso. unfold has in H1, H2.
  apply negb_false_iff, Z.eqb_eq in H1, H2.
  assert (E : Z.land n (Z.ones 16) = 0) by (change (Z.ones 16) with (Z.lor 255 65280); rewrite Z.land_lor_distr_r, H1, H2; done).
  rewrite Z.land_ones, Z.mod_small in E by lia. lia.
Qed.
Lemma enc_op_size op : op_ok op -> 2 <= zlen (enc_op op) \/ op_size op = 0x10000 /\ 1 <= zlen (enc_op op).
Proof.
  destruct op as [o n|bs]; simpl.
  - intros [_ Hn]. rewrite zlen_cons. pose proof (zlen_pos (copy_params o n)). destruct (Z.eq_dec n 0x10000) as [->|Hne]; [right; lia|left].
    pose proof (param_bytes_none n ltac:(lia)) as Hp. unfold copy_params. rewrite !zlen_app in *. pose proof (zlen_pos (param_bytes o 255 0)).
    pose proof (zlen_pos (param_bytes o 65280 8)). pose proof (zlen_pos (param_bytes o 16711680 16)). pose proof (zlen_pos (param_bytes o 4278190080 24)). lia.
  - intros [Hl _]. rewrite zlen_cons. left. lia.
Qed.
Lemma enc_size_long l : 0x10000 <= l < 2 ^ 35 -> 3 <= zlen (enc_size l).
Proof.
  intros Hl. unfold enc_size. change (enc_size_fuel 11 l) with (if 128 <=? l then (l mod 128 + 128) :: (if 128 <=? l / 128 then
    (l / 128 mod 128 + 128) :: enc_size_fuel 9 (l / 128 / 128) else [l / 128]) else [l]).
  assert (512 <= l / 128) by (apply Z.div_le_lower_bound; lia). replace (128 <=? l) with true by lia. replace (128 <=? l / 128) with true by lia.
  rewrite !zlen_cons. assert (1 <= zlen (enc_size_fuel 9 (l / 128 / 128))); [|lia]. cbn [enc_size_fuel]. destruct (_ <=? _); [rewrite zlen_cons|done].
  pose proof (zlen_pos (enc_size_fuel 8 (l / 128 / 128 / 128))). unfold enc_size_fuel in *. lia.
Qed.
Lemma op_ok_wf op : op_ok op -> op_wf op.
Proof. destruct op; simpl; lia. Qed.
Lemma is_delta_headed src trg delta : 0 < zlen src < 2 ^ 35 -> 0 < zlen trg < 2 ^ 35 -> is_delta src trg delta ->
  exists program, headed delta (zlen src) (zlen trg) program /\ replay src (zlen trg) program = Some trg.
Proof.
  intros Hsl Htl (ops & Hgood & Hrun & ->). exists (enc_ops ops).
  assert (Hops : Forall op_ok ops) by (eapply List.Forall_impl; [|exact Hgood]; by intros op []).
  assert (Hfits : forallb (op_fits src) ops = true) by (apply forallb_forall; rewrite List.Forall_forall in Hgood; intros op Hop; by apply Hgood).
  destruct (enc_size_ok (zlen src) (enc_size (zlen trg) ++ enc_ops ops) ltac:(lia)) as (P1 & L1 & B1).
  destruct (enc_size_ok (zlen trg) (enc_ops ops) ltac:(lia)) as (P2 & L2 & B2). split.
  2:{ unfold replay. by rewrite parse_enc_ops, Hfits, Hrun, Z.eqb_refl by done. }
  split; [| | |lia|lia].
  - apply Forall_app. split; [done|]. apply Forall_app. split; [done|by apply enc_ops_byte].
  - unfold DELTA_SIZE_MIN. rewrite !zlen_app. destruct ops as [|op ops]; [rewrite <- Hrun in Htl; change (zlen (run src [])) with 0 in Htl; lia|].
    inversion_clear Hgood as [|? ? [Hok Hfit] _]. unfold enc_ops. cbn [map concat]. rewrite zlen_app. pose proof (zlen_pos (concat (map enc_op ops))).
    destruct (enc_op_size op Hok) as [H2|[H2 H3]]; [lia|]. enough (3 <= zlen (enc_size (zlen trg))) by lia. apply enc_size_long. split; [|lia].
    rewrite <- Hrun, run_cons, zlen_app, op_size_run by (done || by apply op_ok_wf). pose proof (zlen_pos (run src ops)). lia.
  - exists (enc_size (zlen trg) ++ enc_ops ops). rewrite !zlen_app in *. repeat split; [done|lia|done|lia].
Qed.

(** ** The theorems *)
Section heap.
Context `{alloc_world}.

(** C1: A delta brings back the target: for every non-empty source and
    target below 32 GiB, diff_delta() reads and writes only inside its
    buffers and ends; when memory lasts and no limit is set it answers a
    delta, with a limit one of at most that size or none, and it keeps no
    other memory. From the source and this delta patch_delta() makes exactly
    the target. *)
Theorem delta_roundtrip src trg max_size s1 s2 : Forall byte src -> Forall byte trg -> 0 < zlen src < 2 ^ 35 -> 0 < zlen trg < 2 ^ 35 -> 0 <= max_size ->
  exists r s1', diff_delta src trg max_size s1 = Ok r s1' /\ h_live s1' = h_live s1 + held r /\
    match r with
    | Some delta => (max_size <> 0 -> zlen delta <= max_size) /\
        (malloc_ok (h_calls s2) (zlen trg + 1) = true -> exists s2', patch_delta src delta s2 = Ok (Some trg) s2' /\ h_live s2' = h_live s2 + 1)
    | None => out_of_memory s1 s1' \/ max_size <> 0
    end.
Proof.
  intros Hs Ht Hsl Htl Hmax.
  destruct (wp_elim (diff_delta src trg max_size) (fun r s1' => h_live s1' = h_live s1 + held r /\
    match r with
    | Some delta => is_delta src trg delta /\ (max_size <> 0 -> zlen delta <= max_size)
    | None => out_of_memory s1 s1' \/ max_size <> 0
    end) s1) as (r & s1' & E & Hlive & Hr).
  - unfold diff_delta. wp_step. eapply wpe_mono; [apply wp_create_delta_index; [done|lia]|]. intros [ix|] s (Hc & Hr).
    2:{ wp_step. simpl. split; [lia|]. left. apply Hr. }
    destruct Hr as [Hix Hlive]. wp_step. eapply wpe_mono; [apply (wp_create_delta ix src trg Hix); done || lia|].
    intros r s' (Hc' & Hlive' & Hr). wp_step. apply wp_free. wp_step. cbn [h_live]. split; [lia|]. destruct r as [delta|]; [done|].
    destruct Hr as [(k & z & Hk & Hz)|Hr]; [left|by right]. exists k, z. simpl. split; [lia|done].
  - exists r, s1'. split; [done|]. split; [done|]. destruct r as [delta|]; [|done]. destruct Hr as [Hd Hlim]. split; [done|]. intros Hok.
    destruct (is_delta_headed src trg delta Hsl Htl Hd) as (program & Hh & Hrep).
    destruct (wp_elim _ _ _ (wp_patch_delta src delta _ _ program s2 Hh ltac:(lia) Hok)) as (r & s2' & E2 & -> & Hl2). exists s2'.
    unfold patch_result in *. rewrite Z.eqb_refl, Hrep in *. done.
Qed.

(** C15: patch_delta() interprets deltas: for every delta with two complete
    sizes in its header it reads only the source and the delta, writes only
    inside the buffer of the target, and answers the value of the program
    behind the header - if the first size is the source's, the program can be
    read to its end, its copies stay in the source and its value has exactly
    the second size - and NULL otherwise, with the buffer freed. *)
Theorem patch_delta_spec src delta src_size trg_size program s : headed delta src_size trg_size program -> zlen src < 2 ^ 63 ->
  malloc_ok (h_calls s) (trg_size + 1) = true ->
  exists s', let r := patch_result src src_size trg_size program in
    patch_delta src delta s = Ok r s' /\ h_live s' = h_live s + held r /\ forall trg, r = Some trg -> zlen trg = trg_size.
Proof.
  intros Hh Hs Hok. destruct (wp_elim _ _ _ (wp_patch_delta src delta _ _ program s Hh Hs Hok)) as (r & s' & E & -> & Hl). exists s'.
  cbv zeta. split; [done|]. split; [done|]. unfold patch_result, replay. intros trg. destruct (src_size =? zlen src); [|done].
  destruct (parse_ops program) as [ops|]; [|done]. destruct (forallb (op_fits src) ops && (zlen (run src ops) =? trg_size)) eqn:Hc; [|done].
  intros [= <-]. apply andb_true_iff in Hc as [_ Hc%Z.eqb_eq]. done.
Qed.

(** C16: The index: create_delta_index() ends for every non-empty source,
    never follows a NULL link nor leaves an array, and its assert() holds;
    without memory it answers NULL and has freed everything. The index it
    answers is a partition of its entries into buckets of at most HASH_LIMIT;
    an entry is the end of a block of the source with the hash of that block,
    and is in the bucket of the hash. *)
Theorem create_delta_index_spec src s : Forall byte src -> 0 < zlen src ->
  exists r s', create_delta_index src s = Ok r s' /\
    match r with
    | Some ix => indexed src ix /\ h_live s' = h_live s + 1
    | None => out_of_memory s s' /\ h_live s' = h_live s
    end.
Proof.
  intros Hb Hl. destruct (wp_elim _ _ _ (wp_create_delta_index src s Hb Hl)) as (r & s' & E & _ & Hr). exists r, s'. split; [done|].
  destruct r; [done|]. by destruct Hr.
Qed.
End heap.

(** The hash rolls: from the hash of the 16 bytes in front of a byte of
    the target the tables give the hash of the 16 bytes that end with it, the
    same that the index computes for a block of the source; so blocks with
    equal bytes have equal hashes. *)
Theorem roll_spec trg data s : Forall byte trg -> RABIN_WINDOW <= data < zlen trg ->
  roll trg (window_hash trg (data - 1)) data s = Ok (window_hash trg data) s /\
  (forall src p, 16 <= p < zlen src -> window src (p - 15) = window trg (data - 15) -> Forall byte src ->
    hash_window src (p - 16) s = Ok (window_hash trg data) s).
Proof.
  intros Hb Hd. unfold RABIN_WINDOW in Hd. split.
  - destruct (slice_one trg (data - 16)) as (b & Hsb & Hib); [lia|]. destruct (slice_one trg data) as (c & Hsc & Hic); [lia|].
    pose proof (byte_idx _ _ _ Hb Hib) as Hbb. pose proof (byte_idx _ _ _ Hb Hic) as Hbc. unfold roll, RABIN_WINDOW, bind.
    rewrite (rd_idx _ _ _ s Hib), (rd_idx _ _ _ s (U_table b Hbb)), (rd_idx _ _ _ s Hic). set (mid := slice trg (data - 15) 15).
    assert (Hmid : zlen mid = 15) by (apply slice_size; lia). assert (Hmb : Forall byte mid) by (by apply Forall_take, Forall_drop).
    assert (H1 : window trg (data - 1 - 15) = b :: mid).
    { change (window trg (data - 1 - 15)) with (slice trg (data - 1 - 15) 16). replace (data - 1 - 15) with (data - 16) by lia.
      rewrite (slice_split trg (data - 16) 1 16), Hsb by lia. unfold mid. cbn [app]. do 2 f_equal. lia. }
    assert (H2 : window trg (data - 15) = mid ++ [c]).
    { change (window trg (data - 15)) with (slice trg (data - 15) 16). rewrite (slice_split trg (data - 15) 15 16) by lia.
      replace (data - 15 + 15) with data by lia. change (16 - 15) with 1. by rewrite Hsc. }
    unfold window_hash. rewrite H1, H2. rewrite rabin_ok; [|apply (lxor_range 31); [done| |]; apply rabin_hash_range; try done|done].
    + rewrite rabin_roll; [done|done..|unfold zlen in Hmid; lia].
    + by constructor.
    + constructor; [done|]. by apply Forall_replicate.
  - intros src p Hp Hw Hs. rewrite hash_window_ok by (done || lia). unfold window_hash. replace (p - 16 + 16 - 15) with (p - 15) by lia. by rewrite Hw.
Qed.

(** ** What a bad header does *)
(** get_delta_hdr_size() reads its first byte before it looks for the end: a
    first size that runs to the end of the delta makes it read behind *)
Lemma header_overrun `{alloc_world} s : patch_delta [] [128; 128; 128; 128] s = Err OutOfBounds.
Proof. reflexivity. Qed.
(** st_left_shift() does not check shifts of 64 bits and more *)
Lemma header_shift `{alloc_world} s : patch_delta [] (replicate 10 128 ++ [0; 0]) s = Err Undefined.
Proof. reflexivity. Qed.

(** ** Witnesses *)
Instance ample_memory : alloc_world := {| malloc_ok := fun _ _ => true; junk := fun _ _ => 170 |}.
Definition no_heap : Heap := mkHeap 0 0 [].
Definition demo_src : list Z := str "the quick brown fox jumps over the lazy dog".
Definition demo_trg : list Z := str "look: the quick brown fox sleeps, the lazy dog too".
Lemma demo_src_bytes : Forall byte demo_src.
Proof. all_bytes. Qed.
Lemma demo_trg_bytes : Forall byte demo_trg.
Proof. all_bytes. Qed.
Lemma never_out s s' : ~ out_of_memory s s'.
Proof. by intros (k & z & _ & Hz). Qed.

Lemma delta_roundtrip_witness : exists delta s1 s2, diff_delta demo_src demo_trg 0 no_heap = Ok (Some delta) s1 /\
  patch_delta demo_src delta no_heap = Ok (Some demo_trg) s2.
Proof.
  destruct (delta_roundtrip demo_src demo_trg 0 no_heap no_heap demo_src_bytes demo_trg_bytes) as (r & s1 & E & _ & Hr); [split; reflexivity|split; reflexivity|done|].
  destruct r as [delta|].
  - destruct Hr as [_ Hp]. destruct (Hp eq_refl) as (s2 & E2 & _). exists delta, s1, s2. exact (conj E E2).
  - exfalso. destruct Hr as [Hr|Hr]; [exact (never_out _ _ Hr)|exact (Hr eq_refl)].
Defined.
(** "abcdefghi": 3 bytes from the offset 2 on, then "xy" *)
Lemma patch_delta_witness : exists s, patch_delta (str "abcdefghi") ([9; 5; 0x91; 2; 3; 2] ++ str "xy") no_heap = Ok (Some (str "cdexy")) s /\ h_live s = 1.
Proof.
  destruct (patch_delta_spec (str "abcdefghi") ([9; 5; 0x91; 2; 3; 2] ++ str "xy") 9 5 ([0x91; 2; 3; 2] ++ str "xy") no_heap) as (s & E & Hl & _).
  - split; [all_bytes|done| |done|done]. exists ([5; 0x91; 2; 3; 2] ++ str "xy"). split; [reflexivity|]. split; [vm_compute; discriminate|]. split; [reflexivity|vm_compute; discriminate].
  - done.
  - done.
  - exists s. split; [exact E|exact Hl].
Defined.
Lemma create_delta_index_witness : exists ix s, create_delta_index demo_src no_heap = Ok (Some ix) s /\ indexed demo_src ix /\ h_live s = 1.
Proof.
  destruct (create_delta_index_spec demo_src no_heap demo_src_bytes) as (r & s & E & Hr); [done|]. destruct r as [ix|].
  - exists ix, s. split; [exact E|]. exact Hr.
  - destruct Hr as [Hr _]. exfalso. exact (never_out _ _ Hr).
Defined.
Lemma roll_witness : roll demo_trg (window_hash demo_trg 21) 22 no_heap = Ok (window_hash demo_trg 22) no_heap /\
  hash_window demo_src (16 - 16) no_heap = Ok (window_hash demo_trg 22) no_heap.
Proof.
  destruct (roll_spec demo_trg 22 no_heap demo_trg_bytes) as [H1 H2]; [split; [done|reflexivity]|]. split; [exact H1|].
  apply (H2 demo_src 16); [split; [done|reflexivity]|vm_compute; reflexivity|exact demo_src_bytes].
Defined.
