(* ===== verification/GitQueue.v ===== *)
(** * git: the priority queue

    prio-queue.c and prio-queue.h of src/bin/git/upstream: a binary heap that
    is stable, since every entry carries the number of its insertion, or a
    stack when there is no comparison.  Things are addresses, the comparison
    is a function on them; the array is the list of all its allocated places,
    with arbitrary contents behind the first [q_nr]. *)
From stdpp Require Import sorting.
From S2P Require Import Prelude.

(** ** prio-queue.h *)
Record prio_queue_entry := mkQEntry { ctr : Z; thing_of : Z }.
Record prio_queue := mkQueue {
  q_compare : option (Z -> Z -> Z -> Z);
  q_insertion_ctr : Z;
  q_cb_data : Z;
  q_alloc : Z;
  q_nr : Z;
  q_array : list prio_queue_entry
}.
Abbreviation QP := (prog prio_queue) (only parsing).
Definition set_q_array (a : list prio_queue_entry) (q : prio_queue) : prio_queue :=
  mkQueue (q_compare q) (q_insertion_ctr q) (q_cb_data q) (q_alloc q) (q_nr q) a.
Definition set_q_nr (n : Z) (q : prio_queue) : prio_queue :=
  mkQueue (q_compare q) (q_insertion_ctr q) (q_cb_data q) (q_alloc q) n (q_array q).
(** what realloc() leaves in the places it adds *)
Class fresh_entries := fresh_entry : Z -> prio_queue_entry.

(** ** prio-queue.c *)
Definition q_entry (i : Z) : QP prio_queue_entry := q <- get ;; lift OutOfBounds (idx (q_array q) i).
Definition q_store (i : Z) (e : prio_queue_entry) : QP unit :=
  q <- get ;; a <- lift OutOfBounds (upd (q_array q) i e) ;; modify (set_q_array a).
Definition compare (i j : Z) : QP Z :=
  q <- get ;;
  a <- q_entry i ;;
  b <- q_entry j ;;
  f <- lift NullDeref (q_compare q) ;;
  let cmp := f (thing_of a) (thing_of b) (q_cb_data q) in
  ret (if cmp =? 0 then i32 (u32 (ctr a - ctr b)) else cmp).
Definition swap (i j : Z) : QP unit :=
  a <- q_entry i ;; b <- q_entry j ;; q_store i b ;; q_store j a.
(** BUG() ends the program *)
Definition prio_queue_reverse : QP unit :=
  q <- get ;;
  match q_compare q with
  | Some _ => raise Died
  | None =>
      iter (S (Z.to_nat (q_nr q))) (fun i =>
        q <- get ;;
        let j := (q_nr q - 1) - i in
        if i <? j then swap i j ;; ret (inl (i + 1)) else ret (inr tt)) 0
  end.
Definition clear_prio_queue : QP unit :=
  modify (fun q => mkQueue (q_compare q) 0 (q_cb_data q) 0 0 []).

(** ALLOC_GROW(queue->array, queue->nr + 1, queue->alloc); without memory
    xrealloc() ends the program *)
Definition alloc_nr (x : Z) : Z := Z.quot (i32 (i32 (x + 16) * 3)) 2.
Definition grow_array `{fresh_entries} (nr : Z) : QP unit :=
  modify (fun q =>
    if q_alloc q <? nr then
      let alloc := if alloc_nr (q_alloc q) <? nr then nr else alloc_nr (q_alloc q) in
      mkQueue (q_compare q) (q_insertion_ctr q) (q_cb_data q) alloc (q_nr q)
        (q_array q ++ map fresh_entry (seqZ (q_alloc q) (alloc - q_alloc q)))
    else q).
(** bubble up the entry at [ix] *)
Definition bubble_body (ix : Z) : QP (Z + unit) :=
  if negb (ix =? 0) then
    let parent := (ix - 1) / 2 in
    cmp <- compare parent ix ;;
    if cmp <=? 0 then ret (inr tt) else swap parent ix ;; ret (inl parent)
  else ret (inr tt).
(** append at the end *)
Definition q_append `{fresh_entries} (thing : Z) : QP unit :=
  q <- get ;;
  grow_array (q_nr q + 1) ;;
  q <- get ;;
  q_store (q_nr q) (mkQEntry (q_insertion_ctr q) thing) ;;
  modify (fun q => mkQueue (q_compare q) (u32 (q_insertion_ctr q + 1)) (q_cb_data q) (q_alloc q) (q_nr q + 1) (q_array q)).
Definition prio_queue_put `{fresh_entries} (thing : Z) : QP unit :=
  q_append thing ;;
  q <- get ;;
  match q_compare q with
  | None => ret tt
  | Some _ => iter (S (Z.to_nat (q_nr q))) bubble_body (q_nr q - 1)
  end.
(** push down the entry at [ix] *)
Definition push_body (ix : Z) : QP (Z + unit) :=
  q <- get ;;
  let child := i32 (ix * 2 + 1) in
  if child <? q_nr q then
    right <- (if child + 1 <? q_nr q then cmp <- compare child (child + 1) ;; ret (0 <=? cmp) else ret false) ;;
    let child := if right : bool then child + 1 else child in
    cmp <- compare ix child ;;
    if cmp <=? 0 then ret (inr tt) else swap child ix ;; ret (inl child)
  else ret (inr tt).
(** NULL is 0 *)
Definition prio_queue_get : QP Z :=
  q <- get ;;
  if q_nr q =? 0 then ret 0
  else
    match q_compare q with
    | None => modify (set_q_nr (q_nr q - 1)) ;; e <- q_entry (q_nr q - 1) ;; ret (thing_of e)
    | Some _ =>
        e <- q_entry 0 ;;
        let result := thing_of e in
        modify (set_q_nr (q_nr q - 1)) ;;
        if q_nr q - 1 =? 0 then ret result
        else
          last <- q_entry (q_nr q - 1) ;;
          q_store 0 last ;;
          iter (S (Z.to_nat (q_nr q))) push_body 0 ;;
          ret result
    end.
Definition prio_queue_peek : QP Z :=
  q <- get ;;
  if q_nr q =? 0 then ret 0
  else
    match q_compare q with
    | None => e <- q_entry (q_nr q - 1) ;; ret (thing_of e)
    | Some _ => e <- q_entry 0 ;; ret (thing_of e)
    end.
