(* ===== verification/GitHeap.v ===== *)
(** * git: binary heaps in lists

    What the heap order of an array says, how it is repaired along a path to
    the root or down to the leaves, and that exchanging two entries permutes
    the array. Used for the queue of prio-queue.c. *)
From S2P Require Import Prelude.

Section exchange.
Context {A : Type} `{Inhabited A}.
Implicit Types l : list A.

Definition exchange (i j : nat) l : list A := <[j := l !!! i]> (<[i := l !!! j]> l).
Lemma length_exchange i j l : length (exchange i j l) = length l.
Proof. unfold exchange. by rewrite !length_insert. Qed.
Lemma exchange_other i j k l : k <> i -> k <> j -> exchange i j l !!! k = l !!! k.
Proof. intros Hi Hj. unfold exchange. by rewrite !list_lookup_total_insert_ne by done. Qed.
Lemma exchange_snd i j l : (j < length l)%nat -> exchange i j l !!! j = l !!! i.
Proof. intros Hj. unfold exchange. by rewrite list_lookup_total_insert_eq by (by rewrite length_insert). Qed.
Lemma exchange_fst i j l : (i < length l)%nat -> (j < length l)%nat -> exchange i j l !!! i = l !!! j.
Proof.
  intros Hi Hj. destruct (decide (i = j)) as [->|Hne]; [by apply exchange_snd|]. unfold exchange.
  by rewrite list_lookup_total_insert_ne, list_lookup_total_insert_eq.
Qed.
Definition transpose (i j k : nat) : nat := if decide (k = i) then j else if decide (k = j) then i else k.
Lemma transpose_inj i j : Inj (=) (=) (transpose i j).
Proof. intros a b. unfold transpose. repeat case_decide; congruence. Qed.
Lemma exchange_permutation i j l : (i < length l)%nat -> (j < length l)%nat -> exchange i j l ≡ₚ l.
Proof.
  intros Hi Hj. apply Permutation_inj. rewrite length_exchange. split; [done|]. exists (transpose i j). split; [apply transpose_inj|].
  intros k. unfold exchange, transpose. destruct (lookup_lt_is_Some_2 l i Hi) as [a Ha], (lookup_lt_is_Some_2 l j Hj) as [b Hb].
  rewrite (list_lookup_total_correct _ _ _ Ha), (list_lookup_total_correct _ _ _ Hb).
  destruct (decide (k = j)) as [->|Hkj].
  { rewrite list_lookup_insert_eq by (by rewrite length_insert). case_decide; congruence. }
  rewrite list_lookup_insert_ne by done. destruct (decide (k = i)) as [->|Hki].
  - by rewrite list_lookup_insert_eq.
  - by rewrite list_lookup_insert_ne.
Qed.
Lemma exchange_app i j l r : (i < length l)%nat -> (j < length l)%nat -> exchange i j (l ++ r) = exchange i j l ++ r.
Proof.
  intros Hi Hj. unfold exchange. rewrite !lookup_total_app_l by done. rewrite insert_app_l by done. by rewrite insert_app_l by (by rewrite length_insert).
Qed.
End exchange.

Section heap.
Context {A : Type} `{Inhabited A} (le : A -> A -> Prop) `{!Transitive le}.
Implicit Types l : list A.

Definition parent (i : nat) : nat := ((i - 1) / 2)%nat.
Lemma parent_lt i : (0 < i)%nat -> (parent i < i)%nat.
Proof. intros Hi. unfold parent. apply Nat.Div0.div_lt_upper_bound; lia. Qed.
Lemma parent_child i k : parent k = i -> (0 < k)%nat -> k = (2 * i + 1)%nat \/ k = (2 * i + 2)%nat.
Proof. unfold parent. intros <- Hk. pose proof (Nat.div_mod (k - 1) 2 ltac:(lia)). pose proof (Nat.mod_upper_bound (k - 1) 2 ltac:(lia)). lia. Qed.
Lemma parent_left i : parent (2 * i + 1) = i.
Proof. unfold parent. replace (2 * i + 1 - 1)%nat with (i * 2)%nat by lia. apply Nat.div_mul. lia. Qed.
Lemma parent_right i : parent (2 * i + 2) = i.
Proof. unfold parent. replace (2 * i + 2 - 1)%nat with (1 + i * 2)%nat by lia. by rewrite Nat.div_add by lia. Qed.

(** the order of a heap, but for the edge above [x], or the edges below it *)
Definition heap l : Prop := forall i, (0 < i < length l)%nat -> le (l !!! parent i) (l !!! i).
Record heap_above (x : nat) l : Prop := mkAbove {
  ha_edge : forall i, (0 < i < length l)%nat -> i <> x -> le (l !!! parent i) (l !!! i);
  ha_over : forall i, (0 < i < length l)%nat -> parent i = x -> (0 < x)%nat -> le (l !!! parent x) (l !!! i)
}.
Record heap_below (x : nat) l : Prop := mkBelow {
  hb_edge : forall i, (0 < i < length l)%nat -> parent i <> x -> le (l !!! parent i) (l !!! i);
  hb_over : forall i, (0 < i < length l)%nat -> parent i = x -> (0 < x)%nat -> le (l !!! parent x) (l !!! i)
}.

Lemma heap_root l : heap l -> Reflexive le -> forall i, (i < length l)%nat -> le (l !!! 0%nat) (l !!! i).
Proof.
  intros Hh Hr i. induction (lt_wf i) as [i _ IH]. intros Hi. destruct i as [|i]; [done|].
  etransitivity; [apply (IH (parent (S i)))|apply Hh; lia]; [apply parent_lt; lia|pose proof (parent_lt (S i)); lia].
Qed.
Lemma heap_above_root l : heap_above 0 l -> heap l.
Proof. intros [He _] i Hi. apply He; lia. Qed.
Lemma heap_above_fits x l : heap_above x l -> le (l !!! parent x) (l !!! x) -> heap l.
Proof. intros [He _] Hx i Hi. destruct (decide (i = x)) as [->|]; [done|by apply He]. Qed.
Lemma heap_snoc l a : heap l -> heap_above (length l) (l ++ [a]).
Proof.
  intros Hh. assert (Hin : forall i, (i < length l)%nat -> (l ++ [a]) !!! i = l !!! i) by (intros i Hi; by apply lookup_total_app_l).
  split; rewrite length_app; simpl.
  - intros i Hi Hne. pose proof (parent_lt i). rewrite !Hin by lia. apply Hh. lia.
  - intros i Hi Hp Hx. pose proof (parent_lt i). lia.
Qed.
(** one step up *)
Lemma heap_above_up x l : heap_above x l -> (0 < x < length l)%nat -> le (l !!! x) (l !!! parent x) ->
  heap_above (parent x) (exchange (parent x) x l).
Proof.
  intros [He Ho] Hx Hle. pose proof (parent_lt x ltac:(lia)) as Hp. set (p := parent x) in *.
  split; rewrite length_exchange; intros i Hi.
  - intros Hne. destruct (decide (i = x)) as [->|Hix].
    { fold p. rewrite exchange_snd, exchange_fst by lia. done. }
    rewrite (exchange_other _ _ i) by done. destruct (decide (parent i = x)) as [Ex|Hpx].
    { rewrite Ex, exchange_snd by lia. apply Ho; [done|done|lia]. }
    destruct (decide (parent i = p)) as [Ep|Hpp].
    { rewrite Ep, exchange_fst by lia. etransitivity; [exact Hle|]. rewrite <- Ep. apply He; [done|done]. }
    rewrite exchange_other by done. by apply He.
  - intros Hpi Hpos. pose proof (parent_lt p Hpos) as Hpp. rewrite (exchange_other _ _ (parent p)) by lia.
    assert (Hgp : le (l !!! parent p) (l !!! p)) by (apply He; lia). destruct (decide (i = x)) as [->|Hix]; [by rewrite exchange_snd by lia|].
    rewrite exchange_other; [|intros ->; pose proof (parent_lt p); lia|done]. etransitivity; [exact Hgp|]. rewrite <- Hpi. apply He; done.
Qed.
(** one step down, to the least child [c] *)
Lemma heap_below_down x c l : heap_below x l -> (0 < c < length l)%nat -> parent c = x -> le (l !!! c) (l !!! x) ->
  (forall i, (0 < i < length l)%nat -> parent i = x -> le (l !!! c) (l !!! i)) ->
  heap_below c (exchange c x l).
Proof.
  intros [He Ho] Hc Hpc Hle Hleast. pose proof (parent_lt c ltac:(lia)) as Hp. rewrite Hpc in Hp.
  split; rewrite length_exchange; intros i Hi.
  - intros Hne. destruct (decide (parent i = x)) as [Ex|Hpx].
    { rewrite Ex, exchange_snd by lia. destruct (decide (i = c)) as [->|Hic]; [by rewrite exchange_fst by lia|].
      rewrite exchange_other; [by apply Hleast|done|]. intros ->. pose proof (parent_lt x). lia. }
    rewrite (exchange_other _ _ (parent i)) by done. destruct (decide (i = x)) as [->|Hix].
    { rewrite exchange_snd by lia. apply Ho; [done|done|lia]. }
    rewrite exchange_other; [by apply He| |done]. intros ->. by apply Hpx.
  - intros Hpi Hpos. rewrite Hpc, exchange_snd by lia. rewrite exchange_other;
      [|intros ->; pose proof (parent_lt c); lia|intros ->; pose proof (parent_lt x); lia].
    rewrite <- Hpi. apply He; [done|]. rewrite Hpi. lia.
Qed.
Lemma heap_below_fits x l : heap_below x l -> (forall i, (0 < i < length l)%nat -> parent i = x -> le (l !!! x) (l !!! i)) -> heap l.
Proof. intros [He _] Hx i Hi. destruct (decide (parent i = x)) as [E|]; [|by apply He]. rewrite E. by apply Hx. Qed.
(** another entry in the root *)
Lemma heap_replace_root l a : heap l -> heap_below 0 (<[0%nat := a]> l).
Proof.
  intros Hh. split; rewrite length_insert; intros i Hi; [|lia]. intros Hp.
  rewrite !list_lookup_total_insert_ne by lia. by apply Hh.
Qed.
Lemma heap_take n l : heap l -> heap (take n l).
Proof.
  intros Hh i Hi. rewrite length_take in Hi. pose proof (parent_lt i ltac:(lia)). rewrite !list_lookup_total_alt, !lookup_take_lt by lia.
  rewrite <- !list_lookup_total_alt. apply Hh. lia.
Qed.
End heap.
