(* ===== verification/GitQueueProps.v ===== *)
(** * git: theorems about the priority queue

    prio_queue_put() and prio_queue_get() implement a stable queue: what they
    answer is what a sorted list would, in which a new thing goes behind all
    that compare equal; without a comparison they implement a stack. *)
From stdpp Require Import sorting.
From S2P Require Import Prelude GitBase GitQueue GitHeap.

(** ** The reference: a list in the order of the answers *)
Fixpoint enqueue (cmp : Z -> Z -> Z) (x : Z) (l : list Z) : list Z :=
  match l with
  | [] => [x]
  | y :: l' => if cmp y x <=? 0 then y :: enqueue cmp x l' else x :: l
  end.
Inductive queue_op := Put (x : Z) | Get | Peek | Reverse | Clear.
Definition ref_op (cmp : option (Z -> Z -> Z)) (op : queue_op) (l : list Z) : list Z * list Z :=
  match op with
  | Put x => ([], match cmp with Some cmp => enqueue cmp x l | None => x :: l end)
  | Get => ([hd 0 l], tl l)
  | Peek => ([hd 0 l], l)
  | Reverse => ([], rev l)
  | Clear => ([], [])
  end.
Fixpoint ref_ops (cmp : option (Z -> Z -> Z)) (ops : list queue_op) (l : list Z) : list Z :=
  match ops with
  | [] => []
  | op :: ops => let '(answers, l) := ref_op cmp op l in answers ++ ref_ops cmp ops l
  end.
(** the same with the code *)
Definition run_op `{fresh_entries} (op : queue_op) : QP (list Z) :=
  match op with
  | Put x => prio_queue_put x ;; ret []
  | Get => x <- prio_queue_get ;; ret [x]
  | Peek => x <- prio_queue_peek ;; ret [x]
  | Reverse => prio_queue_reverse ;; ret []
  | Clear => clear_prio_queue ;; ret []
  end.
Fixpoint run_ops `{fresh_entries} (ops : list queue_op) : QP (list Z) :=
  match ops with
  | [] => ret []
  | op :: ops => a <- run_op op ;; b <- run_ops ops ;; ret (a ++ b)
  end.
Fixpoint puts (ops : list queue_op) : Z :=
  match ops with [] => 0 | Put _ :: ops => 1 + puts ops | _ :: ops => puts ops end.
(** prio_queue_reverse() is for stacks *)
Definition allowed (cmp : option (Z -> Z -> Z -> Z)) (op : queue_op) : Prop :=
  match op with Reverse => cmp = None | _ => True end.
Definition empty_queue (cmp : option (Z -> Z -> Z -> Z)) (cb : Z) : prio_queue := mkQueue cmp 0 cb 0 0 [].

Instance entry_inhabited : Inhabited prio_queue_entry := populate (mkQEntry 0 0).
Definition contents (q : prio_queue) : list prio_queue_entry := take (Z.to_nat (q_nr q)) (q_array q).

(** ** Accesses *)
Section access.
Context (c r : list prio_queue_entry) (s : prio_queue) (Harr : q_array s = c ++ r).

Lemma idx_total i : 0 <= i < zlen c -> idx (q_array s) i = Some (c !!! Z.to_nat i).
Proof.
  intros Hi. unfold idx, zlen in *. replace (i <? 0) with false by lia. rewrite Harr, lookup_app_l by lia.
  apply list_lookup_lookup_total_lt. lia.
Qed.
Lemma q_entry_ok i : 0 <= i < zlen c -> q_entry i s = Ok (c !!! Z.to_nat i) s.
Proof. intros Hi. unfold q_entry, bind, get. by rewrite (idx_total i Hi). Qed.
Lemma q_store_ok i e : 0 <= i < zlen c -> q_store i e s = Ok tt (set_q_array (<[Z.to_nat i := e]> c ++ r) s).
Proof.
  intros Hi. unfold q_store, bind, get. rewrite upd_lt by (rewrite Harr; unfold zlen in *; rewrite length_app; lia). rewrite Harr.
  unfold zlen in Hi. rewrite insert_app_l by lia. done.
Qed.
End access.
Lemma swap_ok c r s i j : q_array s = c ++ r -> 0 <= i < zlen c -> 0 <= j < zlen c ->
  swap i j s = Ok tt (set_q_array (exchange (Z.to_nat i) (Z.to_nat j) c ++ r) s).
Proof.
  intros Harr Hi Hj. unfold swap, bind. rewrite (q_entry_ok c r s Harr i Hi), (q_entry_ok c r s Harr j Hj), (q_store_ok c r s Harr i _ Hi).
  rewrite (q_store_ok (<[Z.to_nat i := c !!! Z.to_nat j]> c) r) by (done || by rewrite zlen_insert). done.
Qed.

(** ** The array *)
Record allocated (s : prio_queue) : Prop := mkAllocated {
  al_alloc : zlen (q_array s) = q_alloc s;
  al_nr : 0 <= q_nr s <= q_alloc s;
  al_few : q_nr s <= q_insertion_ctr s
}.
Lemma contents_zlen s : allocated s -> zlen (contents s) = q_nr s.
Proof. intros [Ha Hn _]. unfold contents, zlen in *. rewrite length_take. lia. Qed.
Lemma contents_array s : q_array s = contents s ++ drop (Z.to_nat (q_nr s)) (q_array s).
Proof. unfold contents. by rewrite take_drop. Qed.
Lemma contents_of c r s : q_array s = c ++ r -> q_nr s = zlen c -> contents s = c.
Proof. intros Ha Hn. unfold contents. rewrite Ha, Hn. unfold zlen. by rewrite Nat2Z.id, take_app_length. Qed.
Lemma append_ok `{fresh_entries} x s : allocated s -> q_insertion_ctr s < 2 ^ 29 ->
  exists s', q_append x s = Ok tt s' /\ allocated s' /\ contents s' = contents s ++ [mkQEntry (q_insertion_ctr s) x] /\
    q_compare s' = q_compare s /\ q_cb_data s' = q_cb_data s /\ q_insertion_ctr s' = q_insertion_ctr s + 1.
Proof.
  intros Hal Hctr. pose proof Hal as [Ha Hn Hf]. pose proof (contents_zlen s Hal) as Hc. unfold q_append, grow_array, bind, get, modify.
  set (g := if q_alloc s <? q_nr s + 1 then _ else s). cbv beta iota zeta.
  assert (Hg : exists b r', q_array g = contents s ++ b :: r' /\ zlen (q_array g) = q_alloc g /\ q_nr g = q_nr s /\
    q_compare g = q_compare s /\ q_cb_data g = q_cb_data s /\ q_insertion_ctr g = q_insertion_ctr s).
  { unfold g. destruct (Z.ltb_spec (q_alloc s) (q_nr s + 1)) as [Hfull|Hroom]; simpl.
    - set (alloc := if alloc_nr _ <? _ then _ else _). assert (q_nr s + 1 <= alloc) by (unfold alloc; destruct (Z.ltb_spec (alloc_nr (q_alloc s)) (q_nr s + 1)); lia).
      assert (contents s = q_array s) as -> by (unfold contents; apply take_ge; unfold zlen in *; lia). rewrite seqZ_cons by lia. cbn [map].
      eexists _, _. split; [done|]. split; [|done]. unfold zlen in *. rewrite length_app. cbn [length]. rewrite length_map, length_seqZ. lia.
    - pose proof (contents_array s) as Hs. destruct (drop (Z.to_nat (q_nr s)) (q_array s)) as [|b r'] eqn:Ed; [|by exists b, r'].
      apply (f_equal length) in Ed. rewrite length_drop in Ed. unfold zlen in *. simpl in Ed. lia. }
  clearbody g. destruct Hg as (b & r' & Har & Hlen & Hnr & Hcmp & Hcb & Hins).
  rewrite (q_store_ok (contents s ++ [b]) r') by (by rewrite <- ?app_assoc || (rewrite zlen_app; change (zlen [b]) with 1; lia)).
  rewrite insert_app_r_alt by (unfold zlen in *; lia). replace (Z.to_nat (q_nr g) - length (contents s))%nat with O by (unfold zlen in *; lia). cbn [list_insert insert].
  eexists. split; [done|]. simpl. rewrite Hcmp, Hcb, Hins, Hnr, u32_small by lia. repeat split; simpl; try done; try lia.
  - rewrite <- Hlen, Har. unfold zlen. rewrite !length_app. simpl. lia.
  - rewrite Har in Hlen. rewrite zlen_app, zlen_cons in Hlen. pose proof (zlen_pos r'). lia.
  - eapply contents_of; simpl; [done|]. rewrite zlen_app. change (zlen [_]) with 1. lia.
Qed.

(** ** The order of the entries *)
Section order.
Context (f : Z -> Z -> Z -> Z) (cb : Z) `{Hf : !comparison (fun a b => f a b cb)}.
Definition entry_cmp (a b : prio_queue_entry) : Z :=
  let cmp := f (thing_of a) (thing_of b) cb in if cmp =? 0 then i32 (u32 (ctr a - ctr b)) else cmp.
Definition earlier (a b : prio_queue_entry) : Prop :=
  f (thing_of a) (thing_of b) cb < 0 \/ f (thing_of a) (thing_of b) cb = 0 /\ ctr a <= ctr b.

Lemma f_sym a b : 0 < f a b cb <-> f b a cb < 0.
Proof. apply (cmp_sym (cmp := fun a b => f a b cb)). Qed.
Lemma f_trans a b c : f a b cb <= 0 -> f b c cb <= 0 -> f a c cb <= 0.
Proof. apply (cmp_trans (cmp := fun a b => f a b cb)). Qed.
Lemma f_refl a : f a a cb = 0.
Proof. pose proof (f_sym a a). lia. Qed.
#[export] Instance earlier_trans : Transitive earlier.
Proof.
  intros a b c Hab Hbc. unfold earlier in *. pose proof (f_sym (thing_of a) (thing_of b)). pose proof (f_sym (thing_of b) (thing_of a)).
  pose proof (f_sym (thing_of b) (thing_of c)). pose proof (f_sym (thing_of c) (thing_of b)).
  pose proof (f_sym (thing_of a) (thing_of c)). pose proof (f_sym (thing_of c) (thing_of a)).
  pose proof (f_trans (thing_of a) (thing_of b) (thing_of c)). pose proof (f_trans (thing_of c) (thing_of a) (thing_of b)).
  pose proof (f_trans (thing_of b) (thing_of c) (thing_of a)). lia.
Qed.
#[export] Instance earlier_refl : Reflexive earlier.
Proof. intros a. right. split; [apply f_refl|lia]. Qed.
Lemma earlier_total a b : earlier a b \/ earlier b a.
Proof. unfold earlier. pose proof (f_sym (thing_of a) (thing_of b)). pose proof (f_sym (thing_of b) (thing_of a)). lia. Qed.
Lemma earlier_both a b : earlier a b -> earlier b a -> ctr a = ctr b.
Proof. unfold earlier. pose proof (f_sym (thing_of a) (thing_of b)). pose proof (f_sym (thing_of b) (thing_of a)). lia. Qed.
(** counters below 2^31 are compared without a wrap *)
Definition small (e : prio_queue_entry) : Prop := 0 <= ctr e < 2 ^ 31.
Lemma small_sub a b : small a -> small b -> i32 (u32 (ctr a - ctr b)) = ctr a - ctr b.
Proof.
  unfold small, i32, u32. intros Ha Hb. rewrite Zplus_mod_idemp_l. rewrite Z.mod_small by lia. lia.
Qed.
Lemma entry_cmp_le a b : small a -> small b -> entry_cmp a b <= 0 <-> earlier a b.
Proof. intros Ha Hb. unfold entry_cmp, earlier. destruct (Z.eqb_spec (f (thing_of a) (thing_of b) cb) 0); [rewrite small_sub by done|]; lia. Qed.
Lemma entry_cmp_ge a b : small a -> small b -> 0 <= entry_cmp a b -> earlier b a.
Proof.
  intros Ha Hb. unfold entry_cmp, earlier. pose proof (f_sym (thing_of a) (thing_of b)). pose proof (f_sym (thing_of b) (thing_of a)).
  destruct (Z.eqb_spec (f (thing_of a) (thing_of b) cb) 0); [rewrite small_sub by done|]; lia.
Qed.
Lemma compare_ok c r s i j : q_compare s = Some f -> q_cb_data s = cb -> q_array s = c ++ r -> 0 <= i < zlen c -> 0 <= j < zlen c ->
  compare i j s = Ok (entry_cmp (c !!! Z.to_nat i) (c !!! Z.to_nat j)) s.
Proof.
  intros Hc Hcb Harr Hi Hj. unfold compare, bind, get. rewrite (q_entry_ok c r s Harr i Hi), (q_entry_ok c r s Harr j Hj), Hc. cbn [lift ret].
  by rewrite Hcb.
Qed.

(** ** The loops *)
Record shaped (s0 : prio_queue) (c0 r c : list prio_queue_entry) (s : prio_queue) : Prop := mkShaped {
  sh_state : s = set_q_array (c ++ r) s0;
  sh_perm : c ≡ₚ c0
}.
Lemma shaped_zlen s0 c0 r c s : shaped s0 c0 r c s -> zlen c = zlen c0.
Proof. intros [_ Hp]. unfold zlen. by rewrite (Permutation_length Hp). Qed.
Lemma shaped_small s0 c0 r c s i : Forall small c0 -> shaped s0 c0 r c s -> 0 <= i < zlen c -> small (c !!! Z.to_nat i).
Proof.
  intros Hs [_ Hp] Hi. apply (Forall_lookup_1 small c (Z.to_nat i)); [by rewrite Hp|]. apply list_lookup_lookup_total_lt. unfold zlen in Hi. lia.
Qed.
Lemma shaped_swap s0 c0 r c s i j : shaped s0 c0 r c s -> 0 <= i < zlen c -> 0 <= j < zlen c ->
  exists s', swap i j s = Ok tt s' /\ shaped s0 c0 r (exchange (Z.to_nat i) (Z.to_nat j) c) s'.
Proof.
  intros [-> Hp] Hi Hj. eexists. split; [by apply (swap_ok c r)|]. split; [done|]. unfold zlen in *. by rewrite exchange_permutation by lia.
Qed.
Lemma shaped_compare s0 c0 r c s i j : q_compare s0 = Some f -> q_cb_data s0 = cb -> shaped s0 c0 r c s -> 0 <= i < zlen c -> 0 <= j < zlen c ->
  compare i j s = Ok (entry_cmp (c !!! Z.to_nat i) (c !!! Z.to_nat j)) s.
Proof. intros Hc Hcb [-> _]. by apply (compare_ok c r). Qed.

Section loops.
Context (s0 : prio_queue) (c0 r : list prio_queue_entry) (Hc : q_compare s0 = Some f) (Hcb : q_cb_data s0 = cb) (Hsmall : Forall small c0).
Definition heaped (s : prio_queue) : Prop := exists c, shaped s0 c0 r c s /\ heap earlier c.

Lemma parent_Z x : 0 < x -> Z.to_nat ((x - 1) / 2) = parent (Z.to_nat x) /\ 0 <= (x - 1) / 2 < x.
Proof.
  intros Hx. assert (0 <= (x - 1) / 2 < x) by (split; [apply Z.div_pos|apply Z.div_lt_upper_bound]; lia). split; [|done].
  unfold parent. rewrite Z2Nat.inj_div by lia. f_equal. lia.
Qed.
Lemma wp_bubble x s fuel : 0 <= x < zlen c0 -> x < Z.of_nat fuel -> (exists c, shaped s0 c0 r c s /\ heap_above earlier (Z.to_nat x) c) ->
  wp (iter fuel bubble_body x) (fun _ => heaped) s.
Proof.
  intros Hx Hfuel HI. eapply (wpe_iter _ (fun x s => 0 <= x < zlen c0 /\ exists c, shaped s0 c0 r c s /\ heap_above earlier (Z.to_nat x) c) (fun x _ => x)); [|done|done].
  clear x s fuel Hx Hfuel HI. intros x s (Hx & c & Hs & Hh). split; [lia|]. unfold bubble_body. pose proof (shaped_zlen _ _ _ _ _ Hs) as Hl.
  destruct (Z.eqb_spec x 0) as [->|Hne]; cbn [negb]; [exists c; split; [done|by apply heap_above_root]|].
  destruct (parent_Z x ltac:(lia)) as [Hp Hpx]. set (p := (x - 1) / 2) in *. wp_step.
  apply (wpe_ok _ _ _ _ _ _ (shaped_compare _ _ _ _ _ p x Hc Hcb Hs ltac:(lia) ltac:(lia))).
  pose proof (shaped_small _ _ _ _ _ p Hsmall Hs ltac:(lia)) as S1. pose proof (shaped_small _ _ _ _ _ x Hsmall Hs ltac:(lia)) as S2.
  destruct (Z.leb_spec (entry_cmp (c !!! Z.to_nat p) (c !!! Z.to_nat x)) 0) as [Hle|Hgt].
  - exists c. split; [done|]. eapply heap_above_fits; [exact Hh|]. rewrite <- Hp. by apply entry_cmp_le.
  - destruct (shaped_swap _ _ _ _ _ p x Hs ltac:(lia) ltac:(lia)) as (s' & E & Hs'). wp_step. apply (wpe_ok _ _ _ _ _ _ E). wp_step.
    split; [|lia]. split; [lia|]. eexists. split; [exact Hs'|]. rewrite Hp. unfold zlen in Hl, Hx. apply heap_above_up; [tc_solve|done|lia|].
    rewrite <- Hp. apply entry_cmp_ge; [done|done|lia].
Qed.

(** the least child of [x] *)
Lemma least_child c x k : Forall small c -> (2 * x + 1 < length c)%nat ->
  k = (if decide (2 * x + 2 < length c)%nat then if (0 <=? entry_cmp (c !!! (2 * x + 1)%nat) (c !!! (2 * x + 2)%nat))%Z then 2 * x + 2 else 2 * x + 1 else 2 * x + 1)%nat ->
  (k < length c)%nat /\ parent k = x /\ forall i, (0 < i < length c)%nat -> parent i = x -> earlier (c !!! k) (c !!! i).
Proof.
  intros Hs Hl ->. assert (Hin : forall i, (i < length c)%nat -> small (c !!! i)).
  { intros i Hi. apply (Forall_lookup_1 small c i); [done|]. by apply list_lookup_lookup_total_lt. }
  case_decide as Hr; [destruct (Z.leb_spec 0 (entry_cmp (c !!! (2 * x + 1)%nat) (c !!! (2 * x + 2)%nat))) as [Hle|Hgt]|].
  - split; [done|]. split; [apply parent_right|]. intros i Hi Hp. destruct (parent_child x i Hp ltac:(lia)) as [->| ->]; [|reflexivity].
    apply entry_cmp_ge; auto with lia.
  - split; [done|]. split; [apply parent_left|]. intros i Hi Hp. destruct (parent_child x i Hp ltac:(lia)) as [->| ->]; [reflexivity|].
    apply entry_cmp_le; auto with lia.
  - split; [done|]. split; [apply parent_left|]. intros i Hi Hp. destruct (parent_child x i Hp ltac:(lia)) as [->| ->]; [reflexivity|lia].
Qed.
Lemma wp_push_body x s c : q_nr s0 = zlen c0 -> zlen c0 < 2 ^ 30 -> 0 <= x < zlen c0 -> shaped s0 c0 r c s -> heap_below earlier (Z.to_nat x) c ->
  wp (push_body x) (fun v s' => match v with
    | inl x' => x < x' < zlen c0 /\ exists c, shaped s0 c0 r c s' /\ heap_below earlier (Z.to_nat x') c
    | inr _ => heaped s'
    end) s.
Proof.
  intros Hnr Hbig Hx Hs Hh. pose proof (shaped_zlen _ _ _ _ _ Hs) as Hl. unfold push_body. wp_step. wp_step. cbv zeta.
  assert (q_nr s = zlen c) as -> by (destruct Hs as [-> _]; simpl; lia). rewrite (i32_small (x * 2 + 1)) by lia.
  assert (Hsc : Forall small c) by (destruct Hs as [_ Hp]; by rewrite Hp).
  destruct (Z.ltb_spec (x * 2 + 1) (zlen c)) as [Hleft|Hleaf].
  2:{ exists c. split; [done|]. eapply heap_below_fits; [exact Hh|]. intros i Hi Hp. exfalso. unfold zlen in Hleaf. pose proof (parent_child _ _ Hp). lia. }
  set (k := if (x * 2 + 1 + 1 <? zlen c) && (0 <=? entry_cmp (c !!! Z.to_nat (x * 2 + 1)) (c !!! Z.to_nat (x * 2 + 1 + 1))) then x * 2 + 1 + 1 else x * 2 + 1).
  destruct (least_child c (Z.to_nat x) (Z.to_nat k) Hsc) as (Hk & Hpk & Hleast); [unfold zlen in Hleft; lia| |].
  { replace (2 * Z.to_nat x + 1)%nat with (Z.to_nat (x * 2 + 1)) by lia. replace (2 * Z.to_nat x + 2)%nat with (Z.to_nat (x * 2 + 1 + 1)) by lia.
    unfold k. case_decide as Hr; unfold zlen.
    - replace (_ <? _) with true by lia. cbn [andb]. by destruct (0 <=? _).
    - by replace (_ <? _) with false by lia. }
  assert (Hkx : x < k) by (unfold k; destruct (_ && _); lia). assert (k < zlen c) by (unfold zlen; lia).
  wp_step. eapply (wpe_ok _ _ _ _ ((x * 2 + 1 + 1 <? zlen c) && (0 <=? entry_cmp (c !!! Z.to_nat (x * 2 + 1)) (c !!! Z.to_nat (x * 2 + 1 + 1)))) s).
  { destruct (Z.ltb_spec (x * 2 + 1 + 1) (zlen c)); cbn [andb]; [|done].
    unfold bind. by rewrite (shaped_compare _ _ _ _ _ (x * 2 + 1) (x * 2 + 1 + 1) Hc Hcb Hs) by lia. }
  fold k. wp_step. apply (wpe_ok _ _ _ _ _ _ (shaped_compare _ _ _ _ _ x k Hc Hcb Hs ltac:(lia) ltac:(lia))).
  pose proof (shaped_small _ _ _ _ _ k Hsmall Hs ltac:(lia)) as S1. pose proof (shaped_small _ _ _ _ _ x Hsmall Hs ltac:(lia)) as S2.
  destruct (Z.leb_spec (entry_cmp (c !!! Z.to_nat x) (c !!! Z.to_nat k)) 0) as [Hle|Hgt].
  - wp_step. exists c. split; [done|]. eapply heap_below_fits; [exact Hh|]. intros i Hi Hp.
    transitivity (c !!! Z.to_nat k); [by apply entry_cmp_le|by apply Hleast].
  - destruct (shaped_swap _ _ _ _ _ k x Hs ltac:(lia) ltac:(lia)) as (s' & E & Hs'). wp_step. apply (wpe_ok _ _ _ _ _ _ E). wp_step.
    split; [lia|]. eexists. split; [exact Hs'|]. apply heap_below_down; [done|lia|done| |done]. apply entry_cmp_ge; [done|done|lia].
Qed.
Lemma wp_push_down s fuel : q_nr s0 = zlen c0 -> 0 < zlen c0 < 2 ^ 30 -> zlen c0 < Z.of_nat fuel ->
  (exists c, shaped s0 c0 r c s /\ heap_below earlier 0 c) ->
  wp (iter fuel push_body 0) (fun _ => heaped) s.
Proof.
  intros Hnr Hbig Hfuel HI. eapply (wpe_iter _ (fun x s => 0 <= x < zlen c0 /\ exists c, shaped s0 c0 r c s /\ heap_below earlier (Z.to_nat x) c)
    (fun x _ => zlen c0 - x)); [|split; [lia|exact HI]|lia].
  clear s fuel Hfuel HI. intros x s (Hx & c & Hs & Hh). split; [lia|]. eapply wpe_mono; [by apply (wp_push_body x s c Hnr ltac:(lia) Hx Hs Hh)|].
  intros [x'|[]] s'; [|done]. intros [Hx' HI]. split; [|lia]. split; [lia|done].
Qed.
End loops.

(** ** The queue against the sorted list *)
Record queued (l : list prio_queue_entry) (s : prio_queue) : Prop := mkQueued {
  qd_alloc : allocated s;
  qd_cmp : q_compare s = Some f;
  qd_cb : q_cb_data s = cb;
  qd_heap : heap earlier (contents s);
  qd_perm : contents s ≡ₚ l;
  qd_sorted : StronglySorted earlier l;
  qd_ctr : Forall (fun e => 0 <= ctr e < q_insertion_ctr s) l;
  qd_nodup : NoDup (map ctr l)
}.
Fixpoint enqueue_entry (e : prio_queue_entry) (l : list prio_queue_entry) : list prio_queue_entry :=
  match l with
  | [] => [e]
  | y :: l' => if f (thing_of y) (thing_of e) cb <=? 0 then y :: enqueue_entry e l' else e :: l
  end.
Lemma enqueue_map e l : map thing_of (enqueue_entry e l) = enqueue (fun a b => f a b cb) (thing_of e) (map thing_of l).
Proof. induction l as [|y l IH]; [done|]. cbn [enqueue_entry map enqueue]. destruct (_ <=? 0); cbn [map]; [by rewrite IH|done]. Qed.
Lemma enqueue_perm e l : enqueue_entry e l ≡ₚ e :: l.
Proof. induction l as [|y l IH]; [done|]. cbn [enqueue_entry]. destruct (_ <=? 0); [|done]. rewrite IH. apply Permutation_swap. Qed.
Lemma enqueue_sorted e l : Forall (fun y => ctr y < ctr e) l -> StronglySorted earlier l -> StronglySorted earlier (enqueue_entry e l).
Proof.
  induction 2 as [|y l Hl IH Hy]; cbn [enqueue_entry]; [by repeat constructor|]. inversion_clear H as [|? ? H1 H2].
  destruct (Z.leb_spec (f (thing_of y) (thing_of e) cb) 0) as [Hle|Hgt].
  - constructor; [by apply IH|]. rewrite enqueue_perm. constructor; [|done]. unfold earlier. lia.
  - assert (earlier e y) by (left; by apply f_sym). constructor; [by constructor|]. constructor; [done|].
    eapply List.Forall_impl; [|exact Hy]. intros z Hz. by transitivity y.
Qed.
Lemma queued_small l s : queued l s -> q_insertion_ctr s <= 2 ^ 31 -> Forall small (contents s).
Proof. intros Hq Hb. rewrite (qd_perm _ _ Hq). eapply List.Forall_impl; [|exact (qd_ctr _ _ Hq)]. unfold small. simpl. lia. Qed.
(** the root of the heap is the head of the list *)
Lemma queued_root e l s : queued (e :: l) s -> contents s !!! 0%nat = e.
Proof.
  intros Hq. pose proof (qd_perm _ _ Hq) as Hp. set (c := contents s) in *. assert (Hlen : (0 < length c)%nat) by (rewrite (Permutation_length Hp); simpl; lia).
  pose proof (list_lookup_lookup_total_lt c 0 Hlen) as Hx. set (x := c !!! 0%nat) in *.
  assert (Hin : x ∈ e :: l) by (rewrite <- Hp; by eapply list_elem_of_lookup_2). apply elem_of_cons in Hin as [->|Hin]; [done|]. exfalso.
  pose proof (qd_sorted _ _ Hq) as Hs. inversion_clear Hs as [|? ? _ He]. rewrite List.Forall_forall in He.
  assert (H1 : earlier e x) by (apply He; by apply list_elem_of_In). assert (H2 : earlier x e).
  { assert (He' : e ∈ c) by (rewrite Hp; apply elem_of_cons; by left). apply list_elem_of_lookup in He' as (i & Hi).
    rewrite <- (list_lookup_total_correct _ _ _ Hi). apply heap_root; [tc_solve|exact (qd_heap _ _ Hq)|tc_solve|by eapply lookup_lt_Some]. }
  pose proof (qd_nodup _ _ Hq) as Hnd. inversion_clear Hnd as [|? ? Hnin _]. apply Hnin. rewrite (earlier_both e x H1 H2).
  by apply list_elem_of_In, in_map, list_elem_of_In.
Qed.
Lemma queued_put `{fresh_entries} x l s : queued l s -> q_insertion_ctr s < 2 ^ 29 ->
  exists s', prio_queue_put x s = Ok tt s' /\ queued (enqueue_entry (mkQEntry (q_insertion_ctr s) x) l) s' /\ q_insertion_ctr s' = q_insertion_ctr s + 1.
Proof.
  intros Hq Hctr. set (e := mkQEntry (q_insertion_ctr s) x). destruct (append_ok x s (qd_alloc _ _ Hq) Hctr) as (s1 & E1 & Hal & Hc1 & Hcmp & Hcb & Hins).
  fold e in Hc1. pose proof (contents_zlen s1 Hal) as Hnr. pose proof (queued_small _ _ Hq ltac:(lia)) as Hsm.
  assert (Hpe : contents s ++ [e] ≡ₚ enqueue_entry e l) by (rewrite enqueue_perm, (qd_perm _ _ Hq); symmetry; apply Permutation_cons_append).
  assert (Hlt : Forall (fun y => ctr y < ctr e) l) by (eapply List.Forall_impl; [|exact (qd_ctr _ _ Hq)]; simpl; lia).
  rewrite (qd_cmp _ _ Hq) in Hcmp. rewrite (qd_cb _ _ Hq) in Hcb.
  destruct (wp_elim (iter (S (Z.to_nat (q_nr s1))) bubble_body (q_nr s1 - 1)) (fun _ => heaped s1 (contents s1) (drop (Z.to_nat (q_nr s1)) (q_array s1))) s1)
    as ([] & s2 & E2 & c & [-> Hperm] & Hheap).
  { rewrite Hc1 in Hnr. rewrite zlen_app in Hnr. change (zlen [e]) with 1 in Hnr. pose proof (zlen_pos (contents s)).
    apply wp_bubble; [done|done| |rewrite Hc1, zlen_app; change (zlen [e]) with 1; lia|lia|].
    - rewrite Hc1. apply Forall_app. split; [done|]. constructor; [|done]. unfold small. simpl. pose proof (al_few _ (qd_alloc _ _ Hq)).
      pose proof (al_nr _ (qd_alloc _ _ Hq)). lia.
    - exists (contents s1). split; [split; [|done]|].
      + rewrite <- contents_array. by destruct s1.
      + rewrite Hc1. replace (Z.to_nat (q_nr s1 - 1)) with (length (contents s)) by (unfold zlen in Hnr; lia). apply heap_snoc, Hq. }
  set (s2 := set_q_array _ s1) in *. exists s2. split; [unfold prio_queue_put; rewrite (bind_ok _ _ _ _ _ E1); unfold bind, get; by rewrite Hcmp|].
  split; [|done]. assert (Hc2 : contents s2 = c) by (apply (contents_of c (drop (Z.to_nat (q_nr s1)) (q_array s1))); [done|]; simpl; unfold zlen; rewrite (Permutation_length Hperm); done).
  split.
  - destruct Hal as [H1 H2 H3]. split; simpl; [|done|done]. rewrite zlen_app. replace (zlen c) with (zlen (contents s1)) by (unfold zlen; by rewrite (Permutation_length Hperm)).
    by rewrite <- zlen_app, <- contents_array.
  - done.
  - done.
  - by rewrite Hc2.
  - by rewrite Hc2, Hperm, Hc1.
  - apply enqueue_sorted; [done|exact (qd_sorted _ _ Hq)].
  - rewrite enqueue_perm. simpl. rewrite Hins. constructor; [simpl|].
    + pose proof (al_few _ (qd_alloc _ _ Hq)). pose proof (al_nr _ (qd_alloc _ _ Hq)). lia.
    + eapply List.Forall_impl; [|exact (qd_ctr _ _ Hq)]. simpl. lia.
  - assert (Hmp : map ctr (enqueue_entry e l) ≡ₚ ctr e :: map ctr l) by (rewrite <- map_cons; apply Permutation_map, enqueue_perm). rewrite Hmp.
    constructor; [|exact (qd_nodup _ _ Hq)]. intros Hin. apply list_elem_of_In, in_map_iff in Hin as (y & Hy & Hin).
    rewrite List.Forall_forall in Hlt. specialize (Hlt y Hin). lia.
Qed.
Lemma queued_nr l s : queued l s -> q_nr s = zlen l.
Proof. intros Hq. rewrite <- (contents_zlen _ (qd_alloc _ _ Hq)). unfold zlen. by rewrite (Permutation_length (qd_perm _ _ Hq)). Qed.
Lemma queued_first e l s : queued (e :: l) s -> q_entry 0 s = Ok e s.
Proof.
  intros Hq. pose proof (queued_nr _ _ Hq) as Hn. rewrite zlen_cons in Hn. pose proof (zlen_pos l).
  rewrite (q_entry_ok _ _ _ (contents_array s)) by (rewrite (contents_zlen _ (qd_alloc _ _ Hq)); lia). by rewrite <- (queued_root _ _ _ Hq).
Qed.
Lemma queued_peek l s : queued l s -> prio_queue_peek s = Ok (hd 0 (map thing_of l)) s.
Proof.
  intros Hq. unfold prio_queue_peek, bind, get. rewrite (queued_nr _ _ Hq), (qd_cmp _ _ Hq). destruct l as [|e l]; [done|].
  rewrite zlen_cons. pose proof (zlen_pos l). replace (1 + zlen l =? 0) with false by lia. by rewrite (queued_first _ _ _ Hq).
Qed.
(** what is left of the invariant when the entry in front is gone *)
Lemma queued_tail e l s c : queued (e :: l) s -> contents s ≡ₚ e :: c -> forall s', allocated s' -> q_compare s' = Some f -> q_cb_data s' = cb ->
  q_insertion_ctr s' = q_insertion_ctr s -> heap earlier (contents s') -> contents s' ≡ₚ c -> queued l s'.
Proof.
  intros [Hal Hcmp Hcb Hh Hp Hs Hc Hn] Hpc s' Hal' Hcmp' Hcb' Hins Hh' Hp'. inversion_clear Hs. inversion_clear Hc. inversion_clear Hn.
  split; [done..| |done| |done].
  - rewrite Hp'. apply (Permutation_cons_inv (a := e)). by rewrite <- Hpc.
  - by rewrite Hins.
Qed.
Lemma queued_get l s : queued l s -> q_insertion_ctr s < 2 ^ 30 ->
  exists s', prio_queue_get s = Ok (hd 0 (map thing_of l)) s' /\ queued (tl l) s' /\ q_insertion_ctr s' = q_insertion_ctr s.
Proof.
  intros Hq Hctr. pose proof (qd_alloc _ _ Hq) as Hal. pose proof Hal as [H1 H2 H3]. pose proof (queued_nr _ _ Hq) as Hn.
  pose proof (contents_zlen s Hal) as Hcn. pose proof (contents_array s) as Harr. set (r := drop (Z.to_nat (q_nr s)) (q_array s)) in *.
  destruct l as [|e l]. { exists s. split; [|done]. unfold prio_queue_get, bind, get. by rewrite Hn. }
  rewrite zlen_cons in Hn. pose proof (zlen_pos l). unfold prio_queue_get. unfold bind at 1, get at 1. rewrite Hn, (qd_cmp _ _ Hq).
  replace (1 + zlen l =? 0) with false by lia. rewrite (bind_ok _ _ _ _ _ (queued_first _ _ _ Hq)). replace (1 + zlen l - 1) with (zlen l) by lia.
  set (s1 := set_q_nr (zlen l) s). rewrite (bind_ok _ _ _ tt s1) by done. cbn [hd map tl].
  destruct (contents s) as [|x c] eqn:Ec; [change (zlen []) with 0 in Hcn; lia|].
  assert (x = e) as -> by (pose proof (queued_root _ _ _ Hq) as Hr; by rewrite Ec in Hr). rewrite zlen_cons in Hcn.
  destruct (Z.eqb_spec (zlen l) 0) as [Hz|Hz].
  { exists s1. split; [done|]. split; [|done]. apply (queued_tail _ _ _ [] Hq).
    - rewrite Ec. assert (c = []) as -> by (apply length_zero_iff_nil; unfold zlen in *; lia). done.
    - split; simpl; [done|lia|lia].
    - exact (qd_cmp _ _ Hq).
    - exact (qd_cb _ _ Hq).
    - done.
    - unfold contents. simpl. rewrite Hz. intros i Hi. simpl in Hi. lia.
    - unfold contents. simpl. by rewrite Hz. }
  destruct c as [|last c _] using rev_ind; [change (zlen []) with 0 in Hcn; lia|]. rewrite zlen_app in Hcn. change (zlen [last]) with 1 in Hcn.
  rewrite app_comm_cons, <- app_assoc in Harr. change ([last] ++ r) with (last :: r) in Harr.
  assert (Hlast : q_entry (zlen l) s1 = Ok last s1).
  { rewrite (q_entry_ok (e :: c ++ [last]) r) by first [unfold s1; simpl; rewrite Harr; simpl; by rewrite <- app_assoc|rewrite zlen_cons, zlen_app; change (zlen [last]) with 1; lia].
    f_equal. apply list_lookup_total_correct. rewrite app_comm_cons. replace (Z.to_nat (zlen l)) with (length (e :: c)) by (unfold zlen in *; simpl; lia).
    by apply list_lookup_middle. }
  rewrite (bind_ok _ _ _ _ _ Hlast). set (c0 := last :: c). set (s2 := set_q_array (c0 ++ last :: r) s1).
  assert (Hst : q_store 0 last s1 = Ok tt s2) by (rewrite (q_store_ok (e :: c) (last :: r)) by (done || (rewrite zlen_cons; pose proof (zlen_pos c); lia)); done).
  rewrite (bind_ok _ _ _ _ _ Hst). assert (Hl0 : zlen c0 = zlen l) by (unfold c0; rewrite zlen_cons; lia).
  assert (Hperm : e :: c ++ [last] ≡ₚ e :: c0) by (constructor; symmetry; apply Permutation_cons_append).
  assert (Hsm : Forall small c0).
  { pose proof (queued_small _ _ Hq ltac:(lia)) as Hsm. rewrite Ec, Hperm in Hsm. by inversion_clear Hsm. }
  destruct (wp_elim (iter (S (Z.to_nat (1 + zlen l))) push_body 0) (fun _ => heaped s1 c0 (last :: r)) s2) as ([] & s3 & E3 & c3 & [-> Hp3] & Hh3).
  { apply wp_push_down; [exact (qd_cmp _ _ Hq)|exact (qd_cb _ _ Hq)|done|done|lia|lia|]. exists c0. split; [by split|].
    change c0 with (<[0%nat := last]> (e :: c)). apply heap_replace_root. pose proof (qd_heap _ _ Hq) as Hh. rewrite Ec in Hh.
    assert (E : e :: c = take (length (e :: c)) (e :: c ++ [last])) by (rewrite app_comm_cons; by rewrite take_app_length). rewrite E. by apply heap_take. }
  rewrite (bind_ok _ _ _ _ _ E3). eexists. split; [done|]. split; [|done].
  assert (Hc3 : contents (set_q_array (c3 ++ last :: r) s1) = c3).
  { apply (contents_of _ (last :: r)); [done|]. simpl. unfold zlen in *. by rewrite (Permutation_length Hp3). }
  apply (queued_tail _ _ _ c0 Hq); [by rewrite Ec| |exact (qd_cmp _ _ Hq)|exact (qd_cb _ _ Hq)|done|by rewrite Hc3|by rewrite Hc3].
  split; simpl; [|lia|lia]. rewrite <- H1, Harr. unfold zlen. rewrite !length_app, (Permutation_length Hp3). unfold c0. simpl. lia.
Qed.
End order.

(** ** The stack *)
Record stacked (l : list Z) (s : prio_queue) : Prop := mkStacked {
  sk_alloc : allocated s;
  sk_cmp : q_compare s = None;
  sk_contents : map thing_of (contents s) = rev l
}.
Lemma stacked_nr l s : stacked l s -> q_nr s = zlen l.
Proof.
  intros [Hal _ Hc]. rewrite <- (contents_zlen _ Hal). apply (f_equal length) in Hc. rewrite length_map, length_rev in Hc. unfold zlen. by rewrite Hc.
Qed.
Lemma stacked_top x l s : stacked (x :: l) s -> exists c e, contents s = c ++ [e] /\ thing_of e = x /\ map thing_of c = rev l /\ zlen c = zlen l.
Proof.
  intros [_ _ Hc]. simpl in Hc. destruct (contents s) as [|e c _] using rev_ind; [by destruct (rev l)|]. rewrite map_app in Hc. simpl in Hc.
  apply app_inj_tail in Hc as [Hc Hx]. exists c, e. repeat split; [done|done|]. apply (f_equal length) in Hc. rewrite length_map, length_rev in Hc. unfold zlen. by rewrite Hc.
Qed.
Lemma stacked_last x l s n : stacked (x :: l) s -> exists e, q_entry (zlen l) (set_q_nr n s) = Ok e (set_q_nr n s) /\ thing_of e = x.
Proof.
  intros Hs. destruct (stacked_top _ _ _ Hs) as (c & e & Hc & Hx & _ & Hl). exists e. split; [|done].
  pose proof (contents_array s) as Harr. rewrite (q_entry_ok (contents s) _ (set_q_nr n s) Harr) by (rewrite Hc, zlen_app; change (zlen [e]) with 1; pose proof (zlen_pos l); lia).
  f_equal. apply list_lookup_total_correct. rewrite Hc, <- Hl. unfold zlen. rewrite Nat2Z.id. by apply list_lookup_middle.
Qed.
Lemma set_q_nr_same s : set_q_nr (q_nr s) s = s.
Proof. by destruct s. Qed.
Lemma stacked_peek l s : stacked l s -> prio_queue_peek s = Ok (hd 0 l) s.
Proof.
  intros Hs. pose proof (stacked_nr _ _ Hs) as Hn. unfold prio_queue_peek, bind, get. rewrite Hn, (sk_cmp _ _ Hs). destruct l as [|x l]; [done|].
  rewrite zlen_cons in *. pose proof (zlen_pos l). replace (1 + zlen l =? 0) with false by lia. replace (1 + zlen l - 1) with (zlen l) by lia.
  destruct (stacked_last _ _ _ (q_nr s) Hs) as (e & He & Hx). rewrite set_q_nr_same in He. rewrite He. unfold ret. by rewrite Hx.
Qed.
Lemma stacked_get l s : stacked l s -> exists s', prio_queue_get s = Ok (hd 0 l) s' /\ stacked (tl l) s' /\ q_insertion_ctr s' = q_insertion_ctr s.
Proof.
  intros Hs. pose proof (stacked_nr _ _ Hs) as Hn. pose proof (sk_alloc _ _ Hs) as [H1 H2 H3]. unfold prio_queue_get. unfold bind at 1, get at 1. rewrite Hn, (sk_cmp _ _ Hs).
  destruct l as [|x l]; [by exists s|]. rewrite zlen_cons in *. pose proof (zlen_pos l). replace (1 + zlen l =? 0) with false by lia. replace (1 + zlen l - 1) with (zlen l) by lia.
  exists (set_q_nr (zlen l) s). unfold bind, modify. destruct (stacked_last _ _ _ (zlen l) Hs) as (e & -> & Hx). unfold ret. rewrite Hx. split; [done|].
  destruct (stacked_top _ _ _ Hs) as (c & e' & Hc & _ & Hm & Hl). split; [|done]. split; [split; simpl; [done|lia|lia]|exact (sk_cmp _ _ Hs)|].
  rewrite (contents_of c ([e'] ++ drop (Z.to_nat (q_nr s)) (q_array s))); [done| |done]. simpl. rewrite (contents_array s) at 1. by rewrite Hc, <- app_assoc.
Qed.
Lemma stacked_put `{fresh_entries} x l s : stacked l s -> q_insertion_ctr s < 2 ^ 29 ->
  exists s', prio_queue_put x s = Ok tt s' /\ stacked (x :: l) s' /\ q_insertion_ctr s' = q_insertion_ctr s + 1.
Proof.
  intros [Hal Hcmp Hc] Hctr. destruct (append_ok x s Hal Hctr) as (s1 & E1 & Hal1 & Hc1 & Hcmp1 & _ & Hins). exists s1.
  split; [unfold prio_queue_put; rewrite (bind_ok _ _ _ _ _ E1); unfold bind, get; by rewrite Hcmp1, Hcmp|]. split; [|done].
  split; [done|by rewrite Hcmp1|]. rewrite Hc1, map_app, Hc. done.
Qed.
(** half of the entries have changed their places *)
Definition half_reversed (c0 c : list prio_queue_entry) (i : nat) : Prop :=
  length c = length c0 /\ forall k, (k < length c0)%nat ->
    c !!! k = c0 !!! (if decide (k < i \/ length c0 - 1 - k < i)%nat then length c0 - 1 - k else k)%nat.
Lemma half_reversed_done c0 c i : half_reversed c0 c i -> (length c0 - 1 - i <= i)%nat -> c = rev c0.
Proof.
  intros [Hl Hk] Hi. apply list_eq_same_length with (length c0); [by rewrite length_rev|done|]. intros k x y Hlt Hx Hy.
  rewrite rev_lookup in Hy by done. replace (length c0 - S k)%nat with (length c0 - 1 - k)%nat in Hy by lia.
  rewrite <- (list_lookup_total_correct _ _ _ Hx), <- (list_lookup_total_correct _ _ _ Hy), Hk by done. case_decide; [done|].
  f_equal. lia.
Qed.
Lemma half_reversed_step c0 c i : half_reversed c0 c i -> (i < length c0 - 1 - i)%nat -> half_reversed c0 (exchange i (length c0 - 1 - i) c) (S i).
Proof.
  intros [Hl Hk] Hi. split; [by rewrite length_exchange|]. intros k Hlt. set (j := (length c0 - 1 - i)%nat) in *.
  destruct (decide (k = j)) as [->|Hkj].
  - rewrite exchange_snd, Hk by lia. rewrite decide_False by lia. rewrite decide_True by lia. f_equal. lia.
  - destruct (decide (k = i)) as [->|Hki].
    + rewrite exchange_fst, Hk by lia. rewrite decide_False by lia. rewrite decide_True by lia. done.
    + rewrite exchange_other, Hk by done. f_equal. repeat case_decide; lia.
Qed.
Lemma stacked_reverse l s : stacked l s -> exists s', prio_queue_reverse s = Ok tt s' /\ stacked (rev l) s' /\ q_insertion_ctr s' = q_insertion_ctr s.
Proof.
  intros [Hal Hcmp Hc]. pose proof (contents_array s) as Harr. set (r := drop (Z.to_nat (q_nr s)) (q_array s)) in *. set (c0 := contents s) in *.
  pose proof (contents_zlen s Hal) as Hn. fold c0 in Hn.
  destruct (wp_elim prio_queue_reverse (fun _ s' => s' = set_q_array (rev c0 ++ r) s) s) as ([] & s' & E & ->).
  - unfold prio_queue_reverse. wp_step. wp_step. rewrite Hcmp.
    eapply (wpe_iter _ (fun i s' => 0 <= i <= zlen c0 /\ exists c, s' = set_q_array (c ++ r) s /\ half_reversed c0 c (Z.to_nat i)) (fun i _ => zlen c0 - i)).
    + intros i s' (Hi & c & -> & Hh). split; [lia|]. wp_step. wp_step. cbv zeta. change (q_nr (set_q_array (c ++ r) s)) with (q_nr s).
      pose proof Hh as [Hl _]. unfold zlen in Hn, Hi. destruct (Z.ltb_spec i (q_nr s - 1 - i)) as [Hlt|Hge]; wp_step.
      * eapply wpe_ok; [apply (swap_ok c r); [done|unfold zlen; lia..]|]. wp_step. split; [|lia]. split; [unfold zlen; lia|]. eexists. split; [done|].
        replace (Z.to_nat (q_nr s - 1 - i)) with (length c0 - 1 - Z.to_nat i)%nat by lia. replace (Z.to_nat (i + 1)) with (S (Z.to_nat i)) by lia.
        apply half_reversed_step; [done|lia].
      * by rewrite (half_reversed_done _ _ _ Hh) by lia.
    + split; [pose proof (zlen_pos c0); lia|]. exists c0. split; [destruct s; simpl in *; by rewrite <- Harr|]. split; [done|]. intros k Hk. by rewrite decide_False by lia.
    + unfold zlen in *. lia.
  - eexists. split; [exact E|]. split; [|done]. destruct Hal as [H1 H2 H3]. split; [split; simpl; [|done|done]|done|].
    + rewrite <- H1, Harr. unfold zlen. by rewrite !length_app, length_rev.
    + rewrite (contents_of (rev c0) r); [by rewrite map_rev, Hc|done|]. simpl. unfold zlen in *. by rewrite length_rev.
Qed.

(** ** The theorem *)
Definition agrees (cmp : option (Z -> Z -> Z -> Z)) (cb : Z) (l : list Z) (s : prio_queue) : Prop :=
  match cmp with
  | Some f => exists es, l = map thing_of es /\ queued f cb es s
  | None => stacked l s
  end.
Definition ordered (cmp : option (Z -> Z -> Z -> Z)) (cb : Z) : Prop :=
  match cmp with Some f => comparison (fun a b => f a b cb) | None => True end.
Definition ref_cmp (cmp : option (Z -> Z -> Z -> Z)) (cb : Z) : option (Z -> Z -> Z) :=
  match cmp with Some f => Some (fun a b => f a b cb) | None => None end.
Lemma agrees_empty cmp cb : agrees cmp cb [] (empty_queue cmp cb).
Proof.
  destruct cmp as [f|]; [exists []; split; [done|]; split|split]; try done; [intros i Hi; simpl in Hi; lia|constructor..].
Qed.
Lemma agrees_op `{fresh_entries} cmp cb op l s : ordered cmp cb -> allowed cmp op -> agrees cmp cb l s -> q_insertion_ctr s < 2 ^ 29 ->
  exists s', run_op op s = Ok (ref_op (ref_cmp cmp cb) op l).1 s' /\ agrees cmp cb (ref_op (ref_cmp cmp cb) op l).2 s' /\
    q_insertion_ctr s' <= q_insertion_ctr s + puts [op].
Proof.
  intros Hord Hal Hag Hctr. destruct op as [x| | | |]; cbn [run_op ref_op fst snd puts]; unfold bind at 1; destruct cmp as [f|]; cbn [agrees ordered ref_cmp] in *.
  - destruct Hag as (es & -> & Hq). destruct (queued_put f cb x es s Hq Hctr) as (s' & -> & Hq' & Hins). exists s'. split; [done|]. split; [|lia].
    eexists. split; [|exact Hq']. by rewrite enqueue_map.
  - destruct (stacked_put x l s Hag Hctr) as (s' & -> & Hs' & Hins). exists s'. split; [done|]. split; [done|lia].
  - destruct Hag as (es & -> & Hq). destruct (queued_get f cb es s Hq ltac:(lia)) as (s' & -> & Hq' & Hins). exists s'. split; [done|]. split; [|lia].
    exists (tl es). split; [by destruct es|done].
  - destruct (stacked_get l s Hag) as (s' & -> & Hs' & Hins). exists s'. split; [done|]. split; [done|lia].
  - destruct Hag as (es & -> & Hq). rewrite (queued_peek f cb es s Hq). exists s. split; [done|]. split; [|lia]. by exists es.
  - rewrite (stacked_peek l s Hag). exists s. split; [done|]. split; [done|lia].
  - done.
  - destruct (stacked_reverse l s Hag) as (s' & -> & Hs' & Hins). exists s'. split; [done|]. split; [done|lia].
  - destruct Hag as (es & _ & Hq). eexists. split; [done|]. rewrite (qd_cmp _ _ _ _ Hq), (qd_cb _ _ _ _ Hq). split; [exact (agrees_empty (Some f) cb)|].
    simpl. pose proof (al_few _ (qd_alloc _ _ _ _ Hq)). pose proof (al_nr _ (qd_alloc _ _ _ _ Hq)). lia.
  - eexists. split; [done|]. rewrite (sk_cmp _ _ Hag). pose proof (al_few _ (sk_alloc _ _ Hag)). pose proof (al_nr _ (sk_alloc _ _ Hag)). split; [|simpl; lia].
    exact (agrees_empty None (q_cb_data s)).
Qed.
Lemma puts_pos ops : 0 <= puts ops.
Proof. induction ops as [|[] ops IH]; simpl; lia. Qed.
Lemma agrees_ops `{fresh_entries} cmp cb ops : forall l s, ordered cmp cb -> Forall (allowed cmp) ops -> agrees cmp cb l s ->
  q_insertion_ctr s + puts ops <= 2 ^ 29 - 1 -> exists s', run_ops ops s = Ok (ref_ops (ref_cmp cmp cb) ops l) s'.
Proof.
  induction ops as [|op ops IH]; intros l s Hord Hal Hag Hctr; [by exists s|]. inversion_clear Hal as [|? ? Ha1 Ha2].
  assert (Hp : puts (op :: ops) = puts [op] + puts ops) by (destruct op; simpl; lia). pose proof (puts_pos [op]). pose proof (puts_pos ops).
  destruct (agrees_op cmp cb op l s Hord Ha1 Hag ltac:(lia)) as (s1 & E1 & Hag1 & Hins). cbn [run_ops ref_ops].
  destruct (ref_op (ref_cmp cmp cb) op l) as [answers l1]. simpl in *. destruct (IH l1 s1 Hord Ha2 Hag1 ltac:(lia)) as (s2 & E2). exists s2.
  unfold bind. by rewrite E1, E2.
Qed.

(** C28: A stable queue: whatever is put, taken, looked at and cleared,
    starting from an empty queue, prio_queue_get() and prio_queue_peek() answer
    what a list would that is kept sorted, where a new thing goes behind all
    that compare equal; NULL when it is empty. Without a comparison they answer
    what a stack would, that prio_queue_reverse() turns around. No access is
    outside the array, as long as fewer than 2^29 things are put. *)
Theorem prio_queue_refines `{fresh_entries} cmp cb ops : ordered cmp cb -> Forall (allowed cmp) ops -> puts ops < 2 ^ 29 ->
  exists s', run_ops ops (empty_queue cmp cb) = Ok (ref_ops (ref_cmp cmp cb) ops []) s'.
Proof. intros Hord Hal Hp. apply agrees_ops; [done|done|apply agrees_empty|simpl; lia]. Qed.

(** by tens: 21 and 25 compare equal *)
Definition by_tens (a b cb : Z) : Z := a / 10 - b / 10.
Lemma prio_queue_refines_witness : exists s1 s2,
  run_ops (H := fun _ => mkQEntry 7 7) [Put 31; Put 25; Put 12; Put 21; Get; Put 14; Get; Get; Get; Peek; Get; Get]
    (empty_queue (Some by_tens) 0) = Ok [12; 14; 25; 21; 31; 31; 0] s1 /\
  run_ops (H := fun _ => mkQEntry 7 7) [Put 1; Put 2; Put 3; Reverse; Get; Put 4; Get; Get] (empty_queue None 0) = Ok [1; 4; 2] s2.
Proof.
  destruct (prio_queue_refines (H := fun _ => mkQEntry 7 7) (Some by_tens) 0 [Put 31; Put 25; Put 12; Put 21; Get; Put 14; Get; Get; Get; Peek; Get; Get]) as (s1 & E1).
  - split; unfold by_tens; lia.
  - repeat constructor.
  - done.
  - destruct (prio_queue_refines (H := fun _ => mkQEntry 7 7) None 0 [Put 1; Put 2; Put 3; Reverse; Get; Put 4; Get; Get]) as (s2 & E2).
    + done.
    + repeat constructor.
    + done.
    + exists s1, s2. exact (conj E1 E2).
Defined.
