(* ===== verification/GitSort.v ===== *)
(** * git: sorting linked lists

    DEFINE_LIST_SORT() of mergesort.h in src/bin/git/upstream.  The elements
    are at addresses, the store maps them to the address in their link (0 is
    NULL), and the comparison looks at what the sort does not change. *)
From stdpp Require Import gmap sorting.
From S2P Require Import Prelude GitBase.

Abbreviation LP := (prog (gmap Z Z)) (only parsing).

Section sort.
Context (compare_fn : Z -> Z -> Z).

Definition get_next (elem : Z) : LP Z := st <- get ;; lift NullDeref (st !! elem).
Definition set_next (elem next : Z) : LP unit := _ <- get_next elem ;; modify (fun st => <[elem := next]> st).
(** the loops of the merge: one turn of the inner one, or the turn that changes
    the sides *)
Definition merge_body (v : Z * Z * Z) : LP (Z * Z * Z + unit) :=
  let '(list, other, prefer_list) := v in
  let tail := list in
  list <- get_next list ;;
  if list =? 0 then set_next tail other ;; ret (inr tt)
  else if compare_fn list other <? prefer_list then ret (inl (list, other, prefer_list))
  else set_next tail other ;; ret (inl (other, list, Z.lxor prefer_list 1)).
(** the number of turns is that of the elements, which the store bounds *)
Definition merge (list other : Z) : LP Z :=
  st <- get ;;
  let prefer_list := if compare_fn list other <=? 0 then 1 else 0 in
  let result := if prefer_list =? 0 then other else list in
  let '(list, other) := if prefer_list =? 0 then (other, list) else (list, other) in
  iter (S (size st)) merge_body (list, other, prefer_list) ;;
  ret result.
(** one element is added to the ranks; [inr] is the end of the sort *)
Definition rank_body (next : Z) (ranks : list Z) (v : Z * Z * Z) : LP (Z * Z * Z + (Z * Z + Z)) :=
  let '(i, m, list) := v in
  if negb (Z.land m 1 =? 0) then
    r <- lift OutOfBounds (idx ranks i) ;;
    list <- merge r list ;;
    ret (inl (i + 1, Z.shiftr m 1, list))
  else if negb (next =? 0) then ret (inr (inl (i, list)))
  else if m =? 0 then ret (inr (inr list))
  else ret (inl (i + 1, Z.shiftr m 1, list)).
Definition sort_body (v : Z * Z * list Z) : LP (Z * Z * list Z + Z) :=
  let '(list, n, ranks) := v in
  next <- get_next list ;;
  when (negb (next =? 0)) (set_next list 0) ;;
  r <- iter 66 (rank_body next ranks) (0, n, list) ;;
  match r with
  | inl (i, list) =>
      ranks <- lift OutOfBounds (upd ranks i list) ;;
      ret (inl (next, u64 (n + 1), ranks))
  | inr list => ret (inr list)
  end.
(** [ranks] is what the array holds at first; the new head is answered *)
Definition list_sort (ranks : list Z) (listp : Z) : LP Z :=
  st <- get ;;
  if listp =? 0 then ret 0 else iter (S (size st)) sort_body (listp, 0, ranks).
End sort.
