(* ===== verification/GitSortProps.v ===== *)
(** * git: theorems about the sort of linked lists

    The ranks hold sorted blocks of the elements seen so far, the earlier ones
    in the higher ranks; merging keeps the order of elements that compare
    equal. *)
From stdpp Require Import gmap sorting.
From S2P Require Import Prelude GitBase GitSort.

(** ** Lists in the store *)
Fixpoint segment (st : gmap Z Z) (p : Z) (l : list Z) (q : Z) : Prop :=
  match l with
  | [] => p = q
  | x :: l => p = x /\ x <> 0 /\ exists n, st !! x = Some n /\ segment st n l q
  end.
Definition linked (st : gmap Z Z) (p : Z) (l : list Z) : Prop := segment st p l 0.
Lemma segment_app st p l1 l2 q : segment st p (l1 ++ l2) q <-> exists m, segment st p l1 m /\ segment st m l2 q.
Proof.
  revert p. induction l1 as [|x l1 IH]; intros p; cbn [app segment].
  - split; [intros H; by exists p|by intros (m & -> & H)].
  - split.
    + intros (-> & Hx & n & Hn & (m & H1 & H2)%IH). exists m. split; [|done]. split; [done|]. split; [done|]. by exists n.
    + intros (m & (-> & Hx & n & Hn & H1) & H2). split; [done|]. split; [done|]. exists n. split; [done|]. apply IH. by exists m.
Qed.
Definition same_outside (d : list Z) (st st' : gmap Z Z) : Prop := forall x, x ∉ d -> st' !! x = st !! x.
Lemma segment_frame d st st' p l q : same_outside d st st' -> (forall x, x ∈ l -> x ∉ d) -> segment st p l q -> segment st' p l q.
Proof.
  intros Hs. revert p. induction l as [|x l IH]; intros p Hd; cbn [segment]; [done|]. intros (-> & Hx & n & Hn & H).
  split; [done|]. split; [done|]. exists n. split; [rewrite Hs; [done|apply Hd; by left]|]. apply IH; [|done]. intros y Hy. apply Hd. by right.
Qed.
Lemma segment_stored st p l q : segment st p l q -> forall x, x ∈ l -> is_Some (st !! x).
Proof.
  revert p. induction l as [|y l IH]; intros p; cbn [segment]; [by intros _ x Hx%elem_of_nil|]. intros (-> & _ & n & Hn & H) x [->|Hx]%elem_of_cons; [by exists n|].
  by apply (IH n).
Qed.
Lemma stored_size (st : gmap Z Z) l : NoDup l -> (forall x, x ∈ l -> is_Some (st !! x)) -> (length l <= size st)%nat.
Proof.
  intros Hnd Hin. rewrite <- size_dom. transitivity (size (list_to_set l : gset Z)); [by rewrite size_list_to_set|].
  apply subseteq_size. intros x Hx%elem_of_list_to_set. apply elem_of_dom. by apply Hin.
Qed.

Section sort.
Context (cmp : Z -> Z -> Z) `{Hcmp : !comparison cmp}.
Definition le (x y : Z) : Prop := cmp x y <= 0.
Instance le_dec : RelDecision le := fun x y => Z_le_dec (cmp x y) 0.
Instance le_trans : Transitive le := cmp_trans.
Lemma not_le x y : ~ le x y -> cmp y x < 0.
Proof. unfold le. pose proof (cmp_sym (cmp := cmp) x y). lia. Qed.
Instance le_total : Total le.
Proof. intros x y. unfold le. pose proof (cmp_sym (cmp := cmp) x y). pose proof (cmp_sym (cmp := cmp) y x). lia. Qed.

(** ** The merge *)
(** the elements of the list whose turn it is go first *)
Definition merged (prefer : Z) (l1 l2 : list Z) : list Z := if prefer =? 1 then list_merge le l1 l2 else list_merge le l2 l1.
Lemma merged_nil prefer l : merged prefer [] l = l.
Proof. unfold merged. destruct (_ =? _); [by destruct l|]. by destruct l. Qed.
Lemma merged_stay p x l1 y l2 : p = 0 \/ p = 1 -> cmp x y < p -> merged p (x :: l1) (y :: l2) = x :: merged p l1 (y :: l2).
Proof.
  intros [-> | ->] Hlt; unfold merged; cbn [Z.eqb]; rewrite list_merge_cons.
  - rewrite decide_False; [done|]. unfold le. pose proof (cmp_sym (cmp := cmp) y x). lia.
  - rewrite decide_True; [done|]. unfold le. lia.
Qed.
Lemma merged_change p x l1 y l2 : p = 0 \/ p = 1 -> p <= cmp x y -> merged p (x :: l1) (y :: l2) = y :: merged (Z.lxor p 1) l2 (x :: l1).
Proof.
  intros [-> | ->] Hge; unfold merged; cbn [Z.eqb Z.lxor Pos.lxor Z.of_N Pos.eqb]; rewrite list_merge_cons.
  - rewrite decide_True; [done|]. unfold le. pose proof (cmp_sym (cmp := cmp) y x). pose proof (cmp_sym (cmp := cmp) x y). lia.
  - rewrite decide_False; [done|]. unfold le. lia.
Qed.
Record merging (st0 : gmap Z Z) (d : list Z) (result : Z) (target : list Z) (v : Z * Z * Z) (n : Z) (st : gmap Z Z) : Prop := mkMerging {
  mg_prefer : v.2 = 0 \/ v.2 = 1;
  mg_out : same_outside d st0 st;
  mg_lists : exists pre l1 l2, segment st result pre v.1.1 /\ linked st v.1.1 (v.1.1 :: l1) /\ linked st v.1.2 (v.1.2 :: l2) /\
    pre ++ v.1.1 :: l1 ++ v.1.2 :: l2 ≡ₚ d /\ target = pre ++ v.1.1 :: merged v.2 l1 (v.1.2 :: l2) /\ n = zlen (l1 ++ l2)
}.
(** the elements that the links will lead to when [x] is linked to [y] *)
Lemma link_here st d pre result x l1 y l2 : NoDup d -> pre ++ x :: l1 ++ y :: l2 ≡ₚ d -> segment st result pre x -> linked st x (x :: l1) -> linked st y (y :: l2) ->
  let st' := <[x := y]> st in
  set_next x y st = Ok tt st' /\ same_outside d st st' /\ segment st' result (pre ++ [x]) y /\ linked st' y (y :: l2) /\
  (forall z, linked st z l1 -> linked st' z l1).
Proof.
  intros Hnd Hp Hpre Hx Hy. rewrite <- Hp in Hnd. apply list.NoDup_app in Hnd as (_ & Hd1 & Hnd). apply list.NoDup_cons in Hnd as [Hnx Hnd].
  assert (Hin : forall z, z <> x -> <[x := y]> st !! z = st !! z) by (intros z Hz; by rewrite lookup_insert_ne).
  assert (Hfr : forall p l q, (forall z, z ∈ l -> z <> x) -> segment st p l q -> segment (<[x := y]> st) p l q).
  { intros p l q Hl. apply (segment_frame [x]); [|intros z Hz; rewrite list_elem_of_singleton; by apply Hl]. intros z Hz. apply Hin.
    intros ->. apply Hz. by left. }
  cbv zeta. destruct Hx as (_ & Hx0 & n & Hn & _). split; [unfold set_next, get_next, bind, get; by rewrite Hn|].
  split. { intros z Hz. apply Hin. intros ->. apply Hz. rewrite <- Hp. apply elem_of_app. right. by left. }
  split. { apply segment_app. exists x. split; [apply Hfr; [|done]|].
    - intros z Hz ->. apply (Hd1 x Hz). by left.
    - cbn [segment]. split; [done|]. split; [done|]. exists y. by rewrite lookup_insert_eq. }
  split. { apply Hfr; [|done]. intros z Hz ->. apply Hnx. apply elem_of_app. by right. }
  intros z. apply Hfr. intros w Hw ->. apply Hnx. apply elem_of_app. by left.
Qed.
Lemma wp_merge_body st0 d result target v n st : NoDup d -> merging st0 d result target v n st ->
  wp (merge_body cmp v) (fun r st' => match r with
    | inl v' => merging st0 d result target v' (n - 1) st'
    | inr _ => same_outside d st0 st' /\ linked st' result target
    end) st.
Proof.
  destruct v as [[x y] p]. intros Hnd [Hp Hout (pre & l1 & l2 & Hpre & Hx & Hy & Hd & Ht & Hn)]. cbn [fst snd] in *. subst n.
  destruct (link_here st d pre result x l1 y l2 Hnd Hd Hpre Hx Hy) as (Eset & Hout' & Hpre' & Hy' & Hl1).
  pose proof Hx as (_ & Hx0 & nx & Hnx & Hnext). unfold merge_body. wp_step.
  eapply wpe_ok; [unfold get_next, bind, get; by rewrite Hnx|]. change (segment st nx l1 0) with (linked st nx l1) in Hnext.
  assert (Hsame : same_outside d st0 (<[x := y]> st)) by (intros z Hz; rewrite Hout' by done; by apply Hout).
  destruct l1 as [|x' l1].
  - cbn in Hnext. subst nx. cbn [Z.eqb]. wp_step. eapply wpe_ok; [exact Eset|]. wp_step. split; [done|].
    rewrite Ht, merged_nil. apply (segment_app _ _ (pre ++ [x]) (y :: l2)) || (rewrite cons_middle, app_assoc; apply segment_app). exists y. by split.
  - pose proof Hnext as (-> & Hx'0 & _). replace (x' =? 0) with false by lia. destruct (Z.ltb_spec (cmp x' y) p) as [Hlt|Hge].
    + wp_step. split; [done|done|]. exists (pre ++ [x]), l1, l2. cbn [fst snd]. rewrite <- app_assoc. cbn [app].
      split; [apply segment_app; exists x; split; [done|]; cbn [segment]; split; [done|]; split; [done|]; by exists x'|].
      split; [done|]. split; [done|]. split; [done|]. split; [by rewrite Ht, merged_stay, <- app_assoc|]. cbn [app]. rewrite zlen_cons. lia.
    + wp_step. eapply wpe_ok; [exact Eset|]. wp_step. split; [destruct Hp as [Hp|Hp]; cbn [snd]; rewrite Hp; (by right) || (by left)|done|].
      exists (pre ++ [x]), l2, l1. cbn [fst snd]. rewrite <- app_assoc. cbn [app]. split; [done|]. split; [done|]. split; [by apply Hl1|].
      split; [rewrite <- Hd; apply Permutation_app_head, perm_skip, (Permutation_app_comm (y :: l2) (x' :: l1))|].
      split; [rewrite Ht, <- app_assoc; by rewrite merged_change|]. rewrite zlen_cons, !zlen_app. lia.
Qed.
Lemma wp_merge p l1 q l2 st : l1 <> [] -> l2 <> [] -> linked st p l1 -> linked st q l2 -> NoDup (l1 ++ l2) ->
  wp (merge cmp p q) (fun r st' => same_outside (l1 ++ l2) st st' /\ linked st' r (list_merge le l1 l2)) st.
Proof.
  intros H1 H2 Hl1 Hl2 Hnd. destruct l1 as [|x l1]; [done|]. destruct l2 as [|y l2]; [done|].
  pose proof Hl1 as (-> & _). pose proof Hl2 as (-> & _). unfold merge. wp_step. wp_step. cbv zeta.
  set (d := (x :: l1) ++ y :: l2) in *.
  assert (Hsz : Z.of_nat (length d) <= Z.of_nat (size st)).
  { apply Nat2Z.inj_le. apply stored_size; [done|]. intros z [Hz|Hz]%elem_of_app; [exact (segment_stored _ _ _ _ Hl1 z Hz)|exact (segment_stored _ _ _ _ Hl2 z Hz)]. }
  assert (Hrun : forall v n result, merging st d result (list_merge le (x :: l1) (y :: l2)) v n st -> n < Z.of_nat (length d) ->
    wp (iter (S (size st)) (merge_body cmp) v ;; ret result) (fun r st' => same_outside d st st' /\ linked st' r (list_merge le (x :: l1) (y :: l2))) st).
  { intros v n result Hm Hlt. wp_step. apply (wpe_mono _ _ (fun _ st' => same_outside d st st' /\ linked st' result (list_merge le (x :: l1) (y :: l2)))); [|by intros []].
    apply (wpe_iter_n _ (fun n v st' => merging st d result (list_merge le (x :: l1) (y :: l2)) v n st') _ _ _ n); [|done|lia].
    intros n' v' st' Hm'. split; [destruct Hm' as [_ _ (? & ? & ? & _ & _ & _ & _ & _ & ->)]; apply zlen_pos|].
    eapply wpe_mono; [by apply (wp_merge_body st d result (list_merge le (x :: l1) (y :: l2)) v' n')|]. intros [v2|] st2; [|done]. intros H. exists (n' - 1). split; [lia|done]. }
  unfold d in *. rewrite length_app in Hrun. simpl in Hrun. rewrite list_merge_cons in *.
  destruct (Z.leb_spec (cmp x y) 0) as [Hle|Hgt]; cbn [Z.eqb].
  - rewrite decide_True in * by done. apply (Hrun (x, y, 1) (zlen (l1 ++ l2))); [|unfold zlen; rewrite length_app; lia].
    split; cbn [fst snd]; [by right|done|]. exists [], l1, l2. by cbn [segment].
  - rewrite decide_False in * by (unfold le; lia). apply (Hrun (y, x, 0) (zlen (l1 ++ l2))); [|unfold zlen; rewrite length_app; lia].
    split; cbn [fst snd]; [by left|done|]. exists [], l2, l1. cbn [segment]. do 4 (split; [try done|]).
    + cbn [app]. rewrite app_comm_cons, Permutation_app_comm. done.
    + split; [done|]. rewrite !zlen_app. lia.
Qed.

(** ** Stable sorting *)
(** [l'] is [l] sorted, and elements that compare equal are in their old order *)
Record stable_sort (l l' : list Z) : Prop := mkStable {
  ss_perm : l' ≡ₚ l;
  ss_sorted : StronglySorted le l';
  ss_stable : forall a, filter (fun y => cmp a y = 0) l' = filter (fun y => cmp a y = 0) l
}.
Lemma stable_one x : stable_sort [x] [x].
Proof. split; [done|by repeat constructor|done]. Qed.
Lemma filter_none a l : Forall (fun y => cmp a y <> 0) l -> filter (fun y => cmp a y = 0) l = [].
Proof. induction 1 as [|y l Hy _ IH]; [done|]. by rewrite filter_cons_False. Qed.
Lemma filter_merge a l1 l2 : StronglySorted le l1 -> StronglySorted le l2 ->
  filter (fun y => cmp a y = 0) (list_merge le l1 l2) = filter (fun y => cmp a y = 0) l1 ++ filter (fun y => cmp a y = 0) l2.
Proof.
  revert l2. induction l1 as [|x l1 IH1]; intros l2; [by destruct l2|]. induction l2 as [|y l2 IH2]; intros H1 H2; [by rewrite app_nil_r|].
  rewrite list_merge_cons. inversion_clear H1 as [|? ? Hs1 Hx]. inversion_clear H2 as [|? ? Hs2 Hy]. case_decide as Hle.
  - rewrite !(filter_cons _ x), IH1 by (done || by constructor). by case_decide.
  - rewrite (filter_cons _ y), IH2 by (done || by constructor). rewrite (filter_cons _ y). case_decide as Ha; [|done].
    rewrite (filter_none a (x :: l1)); [done|]. apply not_le in Hle.
    assert (Hlt : forall z, le x z -> cmp a z <> 0).
    { intros z Hz Haz. pose proof (cmp_sym (cmp := cmp) a z). pose proof (cmp_sym (cmp := cmp) z a). assert (le x y); [|unfold le in *; pose proof (cmp_sym (cmp := cmp) x y); lia].
      transitivity z; [done|]. transitivity a; unfold le; lia. }
    constructor; [apply Hlt; reflexivity || (unfold le; pose proof (cmp_sym (cmp := cmp) x x); lia)|]. eapply List.Forall_impl; [|exact Hx]. done.
Qed.
Lemma stable_merge o1 l1 o2 l2 : stable_sort o1 l1 -> stable_sort o2 l2 -> stable_sort (o1 ++ o2) (list_merge le l1 l2).
Proof.
  intros [P1 S1 F1] [P2 S2 F2]. split.
  - by rewrite merge_Permutation, P1, P2.
  - apply Sorted_StronglySorted; [tc_solve|]. apply Sorted_list_merge; [tc_solve|by apply StronglySorted_Sorted..].
  - intros a. by rewrite filter_merge, F1, F2, list.filter_app.
Qed.

(** ** The ranks *)
(** the number of elements in the ranks, as the code counts *)
Fixpoint value (os : list (list Z)) : Z := match os with [] => 0 | o :: os => (if o is [] then 0 else 1) + 2 * value os end.
Lemma value_pos os : 0 <= value os.
Proof. induction os as [|[|x o] os IH]; simpl; lia. Qed.
Lemma value_zero os : value os = 0 -> concat (rev os) = [].
Proof.
  induction os as [|[|x o] os IH]; cbn [value rev]; intros Hv; [done| |pose proof (value_pos os); lia].
  rewrite concat_app, IH by lia. done.
Qed.
Lemma value_full os : [] ∉ os -> value os = 2 ^ zlen os - 1.
Proof.
  induction os as [|o os IH]; [done|]. intros Hn. cbn [value]. rewrite zlen_cons, Z.pow_add_r, IH by (pose proof (zlen_pos os); try lia; intros Hin; apply Hn; by right).
  destruct o; [exfalso; apply Hn; by left|]. lia.
Qed.
Lemma value_next o1 c o2 : Forall (fun o => o <> []) o1 -> c <> [] -> value (replicate (length o1) [] ++ c :: o2) = value (o1 ++ [] :: o2) + 1.
Proof.
  intros H1 Hc. induction H1 as [|o o1 Ho _ IH]; cbn [length replicate app value]; [destruct c; [done|lia]|]. rewrite IH. destruct o; [done|lia].
Qed.
Lemma value_bits o os : Z.land (value (o :: os)) 1 = (if o is [] then 0 else 1) /\ Z.shiftr (value (o :: os)) 1 = value os.
Proof.
  cbn [value]. set (b := match o with [] => 0 | _ => 1 end). assert (Hb : b = 0 \/ b = 1) by (unfold b; destruct o; auto).
  assert (Hland : forall z, Z.land z 1 = z mod 2) by (intros z; by apply (Z.land_ones z 1)). rewrite Hland. rewrite Z.shiftr_div_pow2 by lia. change (2 ^ 1) with 2.
  rewrite (Z.mul_comm 2 (value os)), Z_mod_plus_full, Z_div_plus_full by lia. clearbody b. by destruct Hb as [-> | ->].
Qed.
Definition sorted_at (st : gmap Z Z) (p : Z) (o : list Z) : Prop := exists b, stable_sort o b /\ linked st p b.
Definition rank (st : gmap Z Z) (r : Z) (o : list Z) : Prop := o = [] \/ sorted_at st r o.
Lemma sorted_at_frame d st st' p o : same_outside d st st' -> (forall x, x ∈ o -> x ∉ d) -> sorted_at st p o -> sorted_at st' p o.
Proof.
  intros Hs Hd (b & Hb & Hl). exists b. split; [done|]. eapply segment_frame; [exact Hs| |exact Hl]. intros x Hx. apply Hd. by rewrite <- (ss_perm _ _ Hb).
Qed.
Lemma ranks_frame d st st' rs os : same_outside d st st' -> (forall x, x ∈ concat (rev os) -> x ∉ d) -> Forall2 (rank st) rs os -> Forall2 (rank st') rs os.
Proof.
  intros Hs Hd H. induction H as [|r o rs os Hr _ IH]; constructor.
  - destruct Hr as [Hr|Hr]; [by left|right]. eapply sorted_at_frame; [exact Hs| |exact Hr]. intros x Hx. apply Hd. cbn [rev]. rewrite concat_app. simpl.
    rewrite app_nil_r. apply elem_of_app. by right.
  - apply IH. intros x Hx. apply Hd. cbn [rev]. rewrite concat_app. apply elem_of_app. by left.
Qed.
Lemma same_outside_trans d1 d2 d st st1 st2 : same_outside d1 st st1 -> same_outside d2 st1 st2 -> (forall x, x ∈ d1 -> x ∈ d) -> (forall x, x ∈ d2 -> x ∈ d) ->
  same_outside d st st2.
Proof. intros H1 H2 Hd1 Hd2 x Hx. rewrite H2, H1; [done|intros H; apply Hx; auto..]. Qed.
Lemma sorted_nonempty st p o : o <> [] -> sorted_at st p o -> exists b, b <> [] /\ stable_sort o b /\ linked st p b.
Proof.
  intros Ho (b & Hb & Hl). exists b. split; [|done]. intros ->. apply Ho. apply Permutation_nil. exact (ss_perm _ _ Hb).
Qed.
Lemma wp_merge_sorted p o1 q o2 st : o1 <> [] -> o2 <> [] -> sorted_at st p o1 -> sorted_at st q o2 -> NoDup (o1 ++ o2) ->
  wp (merge cmp p q) (fun r st' => same_outside (o1 ++ o2) st st' /\ sorted_at st' r (o1 ++ o2)) st.
Proof.
  intros H1 H2 (b1 & Hb1 & S1 & L1)%sorted_nonempty (b2 & Hb2 & S2 & L2)%sorted_nonempty Hnd; [|done..].
  assert (Hp : b1 ++ b2 ≡ₚ o1 ++ o2) by (by rewrite (ss_perm _ _ S1), (ss_perm _ _ S2)).
  eapply wpe_mono; [apply (wp_merge p b1 q b2); [done..|by rewrite Hp]|]. intros r st' [Hs Hl]. split.
  - intros x Hx. apply Hs. by rewrite Hp.
  - eexists. split; [by apply stable_merge|exact Hl].
Qed.

Lemma wp_rank_loop next ranks : forall os rs i c list st fuel, (length os < fuel)%nat -> 0 <= i -> drop (Z.to_nat i) ranks = rs -> Forall2 (rank st) rs os ->
  c <> [] -> sorted_at st list c -> NoDup (concat (rev os) ++ c) -> (next <> 0 -> [] ∈ os) ->
  wp (iter fuel (rank_body cmp next ranks) (i, value os, list)) (fun r st' => same_outside (concat (rev os) ++ c) st st' /\
    match r with
    | inl (k, list') => next <> 0 /\ exists o1 o2, os = o1 ++ [] :: o2 /\ Forall (fun o => o <> []) o1 /\ k = i + zlen o1 /\
        sorted_at st' list' (concat (rev o1) ++ c) /\ Forall2 (rank st') (drop (S (length o1)) rs) o2
    | inr list' => next = 0 /\ sorted_at st' list' (concat (rev os) ++ c)
    end) st.
Proof.
  induction os as [|o os IH]; intros rs i c list st fuel Hfuel Hi Hrs Hranks Hc Hlist Hnd Hnext; destruct fuel as [|fuel]; cbn [length] in Hfuel; [lia| |lia|];
    cbn [iter]; wp_step; unfold rank_body at 1.
  - change (Z.land (value []) 1 =? 0) with true. change (value [] =? 0) with true. cbn [negb]. destruct (Z.eqb_spec next 0) as [->|Hne]; cbn [negb]; [|by apply Hnext, elem_of_nil in Hne].
    do 2 wp_step. split; [by intros x Hx|done].
  - inversion Hranks as [|r o' rs' os' Hr Hrest E1 E2]. subst o' os'. rewrite <- E1 in *. destruct (value_bits o os) as [-> ->].
    assert (Hdrop : drop (Z.to_nat (i + 1)) ranks = rs') by (replace (Z.to_nat (i + 1)) with (Z.to_nat i + 1)%nat by lia; by rewrite <- drop_drop, Hrs).
    assert (Hcat : concat (rev (o :: os)) = concat (rev os) ++ o) by (cbn [rev]; rewrite concat_app; simpl; by rewrite app_nil_r). rewrite Hcat in *.
    destruct o as [|x o].
    + cbn [Z.eqb negb]. rewrite app_nil_r in *. destruct (Z.eqb_spec next 0) as [->|Hne]; cbn [negb].
      * destruct (Z.eqb_spec (value ([] :: os)) 0) as [Hz|Hz].
        { do 2 wp_step. split; [by intros x Hx|]. split; [done|]. cbn [value] in Hz. by rewrite (value_zero os) by lia. }
        wp_step. eapply wpe_mono; [apply (IH rs' (i + 1) c list st fuel); try done; lia|]. intros [[k list']|list'] st' [Hs H]; [by destruct H as [? _]|]. by split.
      * do 2 wp_step. split; [by intros x Hx|]. split; [done|]. exists [], os. split; [done|]. split; [constructor|]. split; [change (zlen []) with 0; lia|].
        split; [done|]. simpl. by rewrite drop_0.
    + cbn [Z.eqb negb]. destruct Hr as [Hr|Hr]; [done|]. rewrite <- app_assoc in Hnd. apply list.NoDup_app in Hnd as (Hnd1 & Hdis & Hnd2).
      wp_step. eapply wpe_ok; [rewrite (idx_to_nat ranks i r); [done|done|]; by rewrite <- (Nat.add_0_r (Z.to_nat i)), <- lookup_drop, Hrs|].
      wp_step. eapply wpe_mono; [by apply (wp_merge_sorted r (x :: o) list c)|]. intros list1 st1 [Hs1 Hl1]. wp_step.
      eapply wpe_mono; [apply (IH rs' (i + 1) ((x :: o) ++ c) list1 st1 fuel); [lia|lia|done| |done|done| |]|].
      * eapply ranks_frame; [exact Hs1|exact Hdis|exact Hrest].
      * apply list.NoDup_app. split; [done|]. by split.
      * intros Hne. apply Hnext in Hne. by apply elem_of_cons in Hne as [Hne|Hne].
      * rewrite <- app_assoc. intros res st' [Hs H]. split.
        { eapply same_outside_trans; [exact Hs1|exact Hs| |done]. intros y Hy. apply elem_of_app. by right. }
        destruct res as [[k list']|list']; [|done]. destruct H as (Hne & o1 & o2 & -> & Ho1 & -> & Hl & Hrk). split; [done|].
        exists ((x :: o) :: o1), o2. split; [done|]. split; [by constructor|]. split; [rewrite zlen_cons; lia|]. split; [|exact Hrk].
        cbn [rev]. rewrite concat_app. simpl. rewrite app_nil_r, <- app_assoc. exact Hl.
Qed.

(** ** The sort *)
Record sorting (st0 : gmap Z Z) (l : list Z) (p n : Z) (ranks : list Z) (rest : list Z) (st : gmap Z Z) : Prop := mkSorting {
  so_out : same_outside l st0 st;
  so_rest : rest <> [] /\ linked st p rest;
  so_ranks : exists os, Forall2 (rank st) ranks os /\ length os = 64%nat /\ l = concat (rev os) ++ rest /\
    n = value os /\ n + zlen rest <= 2 ^ 63
}.
Lemma rank_free o1 o2 r r' (st : gmap Z Z) ranks o : Forall2 (rank st) (drop (S (length o1)) ranks) o2 -> length ranks = length (o1 ++ r :: o2) -> sorted_at st r' o ->
  Forall2 (rank st) (<[length o1 := r']> ranks) (replicate (length o1) [] ++ o :: o2).
Proof.
  intros Hrest Hlen Hr. rewrite length_app in Hlen. simpl in Hlen. rewrite insert_take_drop by lia. apply Forall2_app; [|constructor; [by right|done]].
  apply Forall2_same_length_lookup_2; [rewrite length_take, length_replicate; lia|]. intros i x y _ Hy. apply lookup_replicate in Hy as [-> _]. by left.
Qed.
Lemma concat_carry (o1 o2 : list (list Z)) c : concat (rev (replicate (length o1) [] ++ (concat (rev o1) ++ c) :: o2)) = concat (rev (o1 ++ [] :: o2)) ++ c.
Proof.
  assert (Hnil : forall n, concat (rev (replicate n (@nil Z))) = []) by (intros n; induction n as [|n IH]; [done|]; cbn [replicate rev]; by rewrite concat_app, IH).
  rewrite !rev_app_distr. cbn [rev]. rewrite !concat_app, Hnil. simpl. by rewrite !app_nil_r, <- !app_assoc.
Qed.
(** the next element is taken off the list *)
Lemma detach_head st0 l x rest st ranks os : NoDup l -> l = concat (rev os) ++ x :: rest -> same_outside l st0 st -> linked st x (x :: rest) -> Forall2 (rank st) ranks os ->
  exists next st1, get_next x st = Ok next st /\ (next = 0 <-> rest = []) /\
    when (negb (next =? 0)) (set_next x 0) st = Ok tt st1 /\ same_outside l st0 st1 /\ sorted_at st1 x [x] /\ linked st1 next rest /\ Forall2 (rank st1) ranks os.
Proof.
  intros Hnd Hl Hout Hx Hr. pose proof Hx as (_ & Hx0 & next & Hn & Hnext). change (segment st next rest 0) with (linked st next rest) in Hnext.
  assert (Hget : get_next x st = Ok next st) by (unfold get_next, bind, get; by rewrite Hn). exists next.
  assert (Hiff : next = 0 <-> rest = []) by (destruct rest as [|y rest]; [done|]; destruct Hnext as (-> & ? & _); split; [done|discriminate]).
  destruct (Z.eqb_spec next 0) as [Hz|Hz]; cbn [negb when].
  - exists st. do 4 (split; [done|]). split; [|done]. exists [x]. split; [apply stable_one|]. split; [done|]. split; [done|]. exists next. by split.
  - exists (<[x := 0]> st). split; [done|]. split; [done|]. split; [unfold set_next, bind; by rewrite Hget|]. rewrite Hl in Hnd.
    apply list.NoDup_app in Hnd as (_ & Hdis & Hnd). apply list.NoDup_cons in Hnd as [Hnx _].
    assert (Hs : same_outside [x] st (<[x := 0]> st)) by (intros y Hy; apply lookup_insert_ne; intros ->; apply Hy; by left).
    split; [eapply same_outside_trans; [exact Hout|exact Hs|done|]; intros y ->%list_elem_of_singleton; rewrite Hl; apply elem_of_app; right; by left|].
    split; [exists [x]; split; [apply stable_one|]; split; [done|]; split; [done|]; exists 0; by rewrite lookup_insert_eq|]. split.
    + eapply segment_frame; [exact Hs| |exact Hnext]. intros y Hy ->%list_elem_of_singleton. done.
    + eapply ranks_frame; [exact Hs| |exact Hr]. intros y Hy ->%list_elem_of_singleton. apply (Hdis x Hy). by left.
Qed.
Lemma wp_sort_body st0 l p n ranks rest st : NoDup l -> sorting st0 l p n ranks rest st ->
  wp (sort_body cmp (p, n, ranks)) (fun r st' => match r with
    | inl (p', n', ranks') => sorting st0 l p' n' ranks' (tl rest) st'
    | inr p' => same_outside l st0 st' /\ sorted_at st' p' l
    end) st.
Proof.
  intros Hnd [Hout [Hne Hlink] (os & Hr & Hlen & Hl & Hn & Hbound)]. destruct rest as [|x rest]; [done|]. pose proof Hlink as (-> & _).
  destruct (detach_head st0 l x rest st ranks os Hnd Hl Hout Hlink Hr) as (next & st1 & Eget & Hnext & Ewhen & Hout1 & Hone & Hrest & Hr1).
  unfold sort_body. wp_step. apply (wpe_ok _ _ _ _ _ _ Eget). wp_step. apply (wpe_ok _ _ _ _ _ _ Ewhen). wp_step. subst n. rewrite zlen_cons in Hbound.
  pose proof (zlen_pos rest) as Hpos.
  assert (Hnd' : NoDup (concat (rev os) ++ [x])) by (rewrite Hl, cons_middle, app_assoc in Hnd; by apply list.NoDup_app in Hnd as [Hnd _]).
  assert (Hrank : length ranks = length os) by (by eapply Forall2_length). eapply wpe_mono; [apply (wp_rank_loop next ranks os ranks 0 [x] x st1 66); [lia|lia|done|done|done|done|done|]|].
  { intros _. destruct (list_elem_of_dec [] os) as [Hin|Hin]; [done|]. apply value_full in Hin. unfold zlen in Hin. rewrite Hlen in Hin. lia. }
  intros res st' [Hs H]. assert (Hout' : same_outside l st0 st').
  { eapply same_outside_trans; [exact Hout1|exact Hs|done|]. intros y Hy. rewrite Hl, cons_middle, app_assoc. apply elem_of_app. by left. }
  destruct res as [[k list']|list'].
  - destruct H as (Hne' & o1 & o2 & -> & Ho1 & -> & Hlist & Hrk). rewrite Z.add_0_l. rewrite length_app in Hlen, Hrank. simpl in Hlen, Hrank.
    wp_step. eapply wpe_ok; [rewrite upd_lt by (unfold zlen; lia); done|]. wp_step. unfold zlen. rewrite Nat2Z.id. split; [done|split|].
    + intros Hr'. by apply Hne', Hnext.
    + eapply segment_frame; [exact Hs| |exact Hrest]. rewrite Hl, cons_middle, app_assoc in Hnd. apply list.NoDup_app in Hnd as (_ & Hdis & _).
      intros y Hy Hy'. by apply (Hdis y Hy').
    + exists (replicate (length o1) [] ++ (concat (rev o1) ++ [x]) :: o2). split; [apply (rank_free o1 o2 []); [done|rewrite length_app; simpl; lia|done]|].
      split; [rewrite length_app, length_replicate; simpl; lia|]. rewrite value_next by (done || by destruct (concat (rev o1))).
      pose proof (value_pos (o1 ++ [] :: o2)). rewrite u64_small by lia. split; [|split; [done|simpl; lia]].
      by rewrite Hl, concat_carry, <- app_assoc.
  - wp_step. split; [done|]. destruct H as [-> H]. rewrite (proj1 Hnext eq_refl) in Hl. by rewrite Hl.
Qed.
Lemma wp_list_sort ranks p l st : NoDup l -> linked st p l -> zlen ranks = 64 -> zlen l <= 2 ^ 63 ->
  wp (list_sort cmp ranks p) (fun r st' => same_outside l st st' /\ sorted_at st' r l) st.
Proof.
  intros Hnd Hl Hr Hlen. unfold list_sort. wp_step. wp_step. destruct l as [|x l].
  { cbn in Hl. subst p. cbn [Z.eqb]. wp_step. split; [done|]. exists []. split; [split; [done|constructor|done]|done]. }
  pose proof Hl as (-> & Hx & _). replace (x =? 0) with false by lia.
  assert (Hsz : (length (x :: l) <= size st)%nat) by (apply stored_size; [done|by eapply segment_stored]).
  apply (wpe_iter_n _ (fun n v st' => exists rest, sorting st (x :: l) v.1.1 v.1.2 v.2 rest st' /\ n = zlen rest) _ _ _ (zlen (x :: l))).
  - intros n [[p' k] ranks'] st' (rest & Hso & ->). split; [apply zlen_pos|]. eapply wpe_mono; [by apply (wp_sort_body st (x :: l) p' k ranks' rest)|].
    intros [[[p2 k2] ranks2]|p2] st2; [|done]. intros Hso2. exists (zlen (tl rest)). split; [|by exists (tl rest)].
    destruct (so_rest _ _ _ _ _ _ _ Hso) as [Hne _]. destruct rest; [done|]. simpl. rewrite zlen_cons. lia.
  - exists (x :: l). split; [|done]. split; [done|done|]. exists (replicate 64 []). split.
    + apply Forall2_same_length_lookup_2; [rewrite length_replicate; cbn [fst snd]; unfold zlen in Hr; lia|]. intros i a b _ Hb.
      apply lookup_replicate in Hb as [-> _]. by left.
    + split; [done|]. split; [done|]. split; [done|]. cbn [fst snd]. lia.
  - unfold zlen. lia.
Qed.
End sort.

(** C24: The sort of linked lists: for every list of different elements and
    every comparison that is a total preorder, the list at the answered head
    has the same elements in ascending order, those that compare equal in the
    order they had; no other link has changed, no NULL is followed and no rank
    outside the array is used, whatever the array held before. *)
Theorem list_sort_stable cmp ranks p l st : comparison cmp -> NoDup l -> linked st p l -> zlen ranks = 64 -> zlen l <= 2 ^ 63 ->
  exists p' st' l', list_sort cmp ranks p st = Ok p' st' /\ linked st' p' l' /\ stable_sort cmp l l' /\ same_outside l st st'.
Proof.
  intros Hc Hnd Hl Hr Hn. destruct (wp_elim _ _ _ (wp_list_sort cmp ranks p l st Hnd Hl Hr Hn)) as (p' & st' & E & Hs & l' & Hst & Hl').
  by exists p', st', l'.
Qed.
(** four elements that are compared by their tens *)
Definition demo_list : gmap Z Z := {[ 31 := 25; 25 := 12; 12 := 21; 21 := 0; 99 := 31 ]}.
Lemma list_sort_stable_witness : exists st l', list_sort (fun a b => a / 10 - b / 10) (replicate 64 7) 31 demo_list = Ok 12 st /\
  linked st 12 l' /\ stable_sort (fun a b => a / 10 - b / 10) [31; 25; 12; 21] l'.
Proof.
  destruct (list_sort_stable (fun a b => a / 10 - b / 10) (replicate 64 7) 31 [31; 25; 12; 21] demo_list) as (p & st & l' & E & Hl & Hs & _).
  - split; lia.
  - apply (bool_decide_unpack (NoDup [31; 25; 12; 21])). vm_compute. exact I.
  - repeat (split; [done|]; split; [done|]; eexists; split; [reflexivity|]). done.
  - reflexivity.
  - vm_compute. discriminate.
  - assert (p = 12) as -> by (vm_compute in E; congruence). exists st, l'. split; [exact E|]. split; [exact Hl|exact Hs].
Defined.
