(* ===== verification/GitLevenshtein.v ===== *)
(** * git: the edit distance

    levenshtein.c of src/bin/git/upstream, and that it computes the least cost
    of an edit script that goes over the strings once: of replacing, deleting
    and inserting characters and of swapping two neighbours, where what was
    swapped is not edited again.  This is known as optimal string alignment; the
    Damerau-Levenshtein distance, which the comment of the function promises,
    also allows edits between two swapped characters and can be less. *)
From S2P Require Import Prelude GitBase.

Abbreviation P0 := (prog unit) (only parsing).
(** what ALLOC_ARRAY() leaves in the rows *)
Class fresh_rows := fresh_row : Z -> Z -> Z.

Section levenshtein.
Context (w s a d : Z).

(** *string[i] *)
Definition char_at (string : list Z) (i : Z) : P0 Z := lift OutOfBounds (idx string i).
Definition cell (row : list Z) (j : Z) : P0 Z := lift OutOfBounds (idx row j).
Definition set_cell (row : list Z) (j v : Z) : P0 (list Z) := lift OutOfBounds (upd row j v).
(** the condition of a swap; && reads no further than it has to *)
Definition is_swap (string1 string2 row0 : list Z) (i j cur : Z) : P0 bool :=
  if (0 <? i) && (0 <? j) then
    a1 <- char_at string1 (i - 1) ;;
    b1 <- char_at string2 j ;;
    if a1 =? b1 then
      a2 <- char_at string1 i ;;
      b2 <- char_at string2 (j - 1) ;;
      if a2 =? b2 then
        r <- cell row0 (j - 1) ;;
        ret (i32 (r + w) <? cur)
      else ret false
    else ret false
  else ret false.
(** row2[j + 1], from what is above, before and two above *)
Definition row_body (string1 string2 row0 row1 : list Z) (i : Z) (j : Z) (row2 : list Z) : P0 (list Z) :=
  (* substitution *)
  r <- cell row1 j ;;
  x <- char_at string1 i ;;
  y <- char_at string2 j ;;
  row2 <- set_cell row2 (j + 1) (i32 (r + i32 (s * (if x =? y then 0 else 1)))) ;;
  (* swap *)
  cur <- cell row2 (j + 1) ;;
  swap <- is_swap string1 string2 row0 i j cur ;;
  row2 <- (if swap : bool then r <- cell row0 (j - 1) ;; set_cell row2 (j + 1) (i32 (r + w)) else ret row2) ;;
  (* deletion *)
  cur <- cell row2 (j + 1) ;;
  r <- cell row1 (j + 1) ;;
  row2 <- (if i32 (r + d) <? cur then set_cell row2 (j + 1) (i32 (r + d)) else ret row2) ;;
  (* insertion *)
  cur <- cell row2 (j + 1) ;;
  r <- cell row2 j ;;
  if i32 (r + a) <? cur then set_cell row2 (j + 1) (i32 (r + a)) else ret row2.
Definition rows_body (string1 string2 : list Z) (i : Z) (v : list Z * list Z * list Z) : P0 (list Z * list Z * list Z) :=
  let '(row0, row1, row2) := v in
  row2 <- set_cell row2 0 (i32 (i32 (i + 1) * d)) ;;
  row2 <- fold_i (length string2) 0 (row_body string1 string2 row0 row1 i) row2 ;;
  ret (row1, row2, row0).
Definition levenshtein `{fresh_rows} (string1 string2 : list Z) : P0 Z :=
  let len1 := zlen string1 in
  let len2 := zlen string2 in
  let alloc k := map (fresh_row k) (seqZ 0 (len2 + 1)) in
  row1 <- fold_i (S (length string2)) 0 (fun j row1 => set_cell row1 j (i32 (j * a))) (alloc 1) ;;
  let* (row0, row1, row2) := fold_i (length string1) 0 (rows_body string1 string2) (alloc 0, row1, alloc 2) in
  cell row1 len2.
End levenshtein.

(** ** Edit scripts *)
(** [edits] goes over both strings from left to right, so that a character takes
    part in one edit at most; [rewrites] makes one edit after the other, anywhere
    in the string, as the Damerau-Levenshtein distance counts them *)
Section edits.
Context (w s a d : Z).
(** the first string becomes the second one at this cost *)
Inductive edits : list Z -> list Z -> Z -> Prop :=
  | edits_done : edits [] [] 0
  | edits_keep c x y n : edits x y n -> edits (c :: x) (c :: y) n
  | edits_replace c e x y n : c <> e -> edits x y n -> edits (c :: x) (e :: y) (n + s)
  | edits_swap c e x y n : edits x y n -> edits (c :: e :: x) (e :: c :: y) (n + w)
  | edits_delete c x y n : edits x y n -> edits (c :: x) y (n + d)
  | edits_insert e x y n : edits x y n -> edits x (e :: y) (n + a).
Inductive rewrites : list Z -> list Z -> Z -> Prop :=
  | rewrites_done x : rewrites x x 0
  | rewrites_replace u c e v y n : c <> e -> rewrites (u ++ e :: v) y n -> rewrites (u ++ c :: v) y (n + s)
  | rewrites_swap u c e v y n : rewrites (u ++ e :: c :: v) y n -> rewrites (u ++ c :: e :: v) y (n + w)
  | rewrites_delete u c v y n : rewrites (u ++ v) y n -> rewrites (u ++ c :: v) y (n + d)
  | rewrites_insert u e v y n : rewrites (u ++ e :: v) y n -> rewrites (u ++ v) y (n + a).
Lemma rewrites_cons c x y n : rewrites x y n -> rewrites (c :: x) (c :: y) n.
Proof.
  induction 1 as [x|u e f v y n Hne _ IH|u e f v y n _ IH|u e v y n _ IH|u e v y n _ IH]; [apply rewrites_done|..].
  - by apply (rewrites_replace (c :: u) e f).
  - by apply (rewrites_swap (c :: u) e f).
  - by apply (rewrites_delete (c :: u) e).
  - by apply (rewrites_insert (c :: u) e).
Qed.
(** an edit script is made of such edits *)
Lemma edits_rewrites x y n : edits x y n -> rewrites x y n.
Proof.
  induction 1 as [|c x y n _ IH|c e x y n Hne _ IH|c e x y n _ IH|c x y n _ IH|e x y n _ IH]; [apply rewrites_done|..].
  - by apply rewrites_cons.
  - apply (rewrites_replace [] c e x); [done|]. by apply rewrites_cons.
  - apply (rewrites_swap [] c e x). by do 2 apply rewrites_cons.
  - by apply (rewrites_delete [] c x).
  - apply (rewrites_insert [] e x). by apply rewrites_cons.
Qed.
(** the least cost *)
Definition best (x y : list Z) (n : Z) : Prop := edits x y n /\ forall m, edits x y m -> n <= m.

Lemma edits_app x y n x' y' m : edits x y n -> edits x' y' m -> edits (x ++ x') (y ++ y') (n + m).
Proof.
  intros H H'. induction H as [|c x y n _ IH|c e x y n Hne _ IH|c e x y n _ IH|c x y n _ IH|e x y n _ IH]; cbn [app]; [done|by constructor|..].
  - replace (n + s + m) with (n + m + s) by lia. by constructor.
  - replace (n + w + m) with (n + m + w) by lia. by constructor.
  - replace (n + d + m) with (n + m + d) by lia. by constructor.
  - replace (n + a + m) with (n + m + a) by lia. by constructor.
Qed.
Lemma edits_rev x y n : edits x y n -> edits (rev x) (rev y) n.
Proof.
  induction 1 as [|c x y n _ IH|c e x y n Hne _ IH|c e x y n _ IH|c x y n _ IH|e x y n _ IH]; cbn [rev]; [constructor|..].
  - rewrite <- (Z.add_0_r n). apply edits_app; [done|]. apply edits_keep. constructor.
  - apply edits_app; [done|]. rewrite <- (Z.add_0_l s). apply edits_replace; [done|constructor].
  - rewrite <- !app_assoc. apply edits_app; [done|]. rewrite <- (Z.add_0_l w). apply edits_swap. constructor.
  - rewrite <- (app_nil_r (rev y)). apply edits_app; [done|]. rewrite <- (Z.add_0_l d). apply edits_delete. constructor.
  - rewrite <- (app_nil_r (rev x)). apply edits_app; [done|]. rewrite <- (Z.add_0_l a). apply edits_insert. constructor.
Qed.
Lemma best_rev x y n : best x y n -> best (rev x) (rev y) n.
Proof.
  intros [H1 H2]. split; [by apply edits_rev|]. intros m Hm. apply H2. rewrite <- (rev_involutive x), <- (rev_involutive y). by apply edits_rev.
Qed.
Lemma best_unique x y n m : best x y n -> best x y m -> n = m.
Proof. intros [H1 H2] [H3 H4]. apply H2 in H3. apply H4 in H1. lia. Qed.
Lemma best_nil_l y : best [] y (zlen y * a).
Proof.
  split.
  - induction y as [|e y IH]; [constructor|]. rewrite zlen_cons. replace ((1 + zlen y) * a) with (zlen y * a + a) by lia. by constructor.
  - remember [] as x eqn:Hx. induction 1; subst; try done. rewrite zlen_cons. specialize (IHedits eq_refl). lia.
Qed.
Lemma best_nil_r x : best x [] (zlen x * d).
Proof.
  split.
  - induction x as [|c x IH]; [constructor|]. rewrite zlen_cons. replace ((1 + zlen x) * d) with (zlen x * d + d) by lia. by constructor.
  - remember [] as y eqn:Hy. induction 1; subst; try done. rewrite zlen_cons. specialize (IHedits eq_refl). lia.
Qed.
(** the swap at the head of both, when there is one *)
Definition swap_cost (x y : list Z) (n : option Z) : Prop :=
  match n with
  | Some n => exists c e x' y' m, x = c :: e :: x' /\ y = e :: c :: y' /\ best x' y' m /\ n = m + w
  | None => forall c e x' y', x = c :: e :: x' -> y <> e :: c :: y'
  end.
Definition least (n1 : Z) (n0 : option Z) (n2 n3 : Z) : Z := Z.min (Z.min (match n0 with Some n => Z.min n1 n | None => n1 end) n2) n3.
Lemma best_cons c e x y n1 n0 n2 n3 : best x y n1 -> swap_cost (c :: x) (e :: y) n0 -> best x (e :: y) n2 -> best (c :: x) y n3 ->
  best (c :: x) (e :: y) (least (n1 + (if c =? e then 0 else s)) n0 (n2 + d) (n3 + a)).
Proof.
  intros [E1 B1] Hswap [E2 B2] [E3 B3]. set (r := least _ _ _ _). split.
  - assert (H1 : edits (c :: x) (e :: y) (n1 + (if c =? e then 0 else s))).
    { destruct (Z.eqb_spec c e) as [->|Hne]; [rewrite Z.add_0_r|]; by constructor. }
    assert (H0 : forall n, n0 = Some n -> edits (c :: x) (e :: y) n).
    { intros n ->. destruct Hswap as (c' & e' & x' & y' & m & [= -> ->] & [= -> ->] & [E0 _] & ->). by constructor. }
    assert (H2 : edits (c :: x) (e :: y) (n2 + d)) by (by constructor). assert (H3 : edits (c :: x) (e :: y) (n3 + a)) by (by constructor).
    assert (Hr : r = n1 + (if c =? e then 0 else s) \/ r = n2 + d \/ r = n3 + a \/ exists n, n0 = Some n /\ r = n).
    { unfold r, least. destruct n0 as [n0|]; [|lia]. assert (Hm : forall n, n = n0 -> exists n', Some n0 = Some n' /\ n = n') by (intros n ->; by exists n0).
      destruct (Z.min_spec (Z.min (Z.min (n1 + (if c =? e then 0 else s)) n0) (n2 + d)) (n3 + a)) as [[? ->]|[? ->]]; [|lia].
      destruct (Z.min_spec (Z.min (n1 + (if c =? e then 0 else s)) n0) (n2 + d)) as [[? ->]|[? ->]]; [|lia].
      destruct (Z.min_spec (n1 + (if c =? e then 0 else s)) n0) as [[? ->]|[? ->]]; [lia|]. do 3 right. by apply Hm. }
    destruct Hr as [-> |[-> |[-> |(n & Hn & ->)]]]; [done..|by apply H0].
  - intros m Hm. assert (Hr : r <= n1 + (if c =? e then 0 else s) /\ r <= n2 + d /\ r <= n3 + a /\ match n0 with Some n => r <= n | None => True end)
      by (unfold r, least; destruct n0; lia). clearbody r. inversion Hm as [|c' x' y' m' Hk|c' e' x' y' m' Hne Hk|c' e' x' y' m' Hk|c' x' y' m' Hk|e' x' y' m' Hk]; subst.
    + rewrite Z.eqb_refl in Hr. pose proof (B1 _ Hk). lia.
    + replace (c =? e) with false in Hr by lia. pose proof (B1 _ Hk). lia.
    + destruct n0 as [n0|]; [|by destruct (Hswap c e x' y' eq_refl)]. destruct Hswap as (c1 & e1 & x1 & y1 & m1 & [= <- <- <-] & [= <-] & [_ B0] & ->).
      pose proof (B0 _ Hk). lia.
    + pose proof (B2 _ Hk). lia.
    + pose proof (B3 _ Hk). lia.
Qed.
End edits.

(** ** The rows *)
Section rows.
Context (w s a d : Z) (s1 s2 : list Z) (Hw : 0 <= w) (Hs : 0 <= s) (Ha : 0 <= a) (Hd : 0 <= d).
Context (Hfit : zlen s1 * d + zlen s2 * a + Z.max (Z.max w s) (Z.max a d) < 2 ^ 31).
#[local] Abbreviation best := (best w s a d) (only parsing).
Definition prefix (l : list Z) (i : Z) : list Z := rev (take (Z.to_nat i) l).
Lemma prefix_zero l : prefix l 0 = [].
Proof. done. Qed.
Lemma prefix_size l i : 0 <= i <= zlen l -> zlen (prefix l i) = i.
Proof. intros Hi. unfold prefix, zlen in *. rewrite length_rev, length_take. lia. Qed.
Lemma prefix_next l i c : 0 <= i -> idx l i = Some c -> prefix l (i + 1) = c :: prefix l i.
Proof.
  intros Hi Hc. unfold idx in Hc. replace (i <? 0) with false in Hc by lia. unfold prefix. replace (Z.to_nat (i + 1)) with (S (Z.to_nat i)) by lia.
  rewrite (take_S_r _ _ _ Hc). by rewrite rev_app_distr.
Qed.
Lemma edits_range x y n : edits w s a d x y n -> 0 <= n.
Proof. induction 1; lia. Qed.
Lemma edits_all x y : edits w s a d x y (zlen x * d + zlen y * a).
Proof.
  induction x as [|c x IH].
  - destruct (best_nil_l w s a d y) as [H _]. change (zlen []) with 0. rewrite Z.mul_0_l, Z.add_0_l. exact H.
  - rewrite zlen_cons. replace ((1 + zlen x) * d + zlen y * a) with (zlen x * d + zlen y * a + d) by lia. by constructor.
Qed.
(** [n] is the least cost for the first [i] and [j] characters *)
Definition dist (i j n : Z) : Prop := best (prefix s1 i) (prefix s2 j) n.
Lemma dist_range i j n : 0 <= i <= zlen s1 -> 0 <= j <= zlen s2 -> dist i j n -> 0 <= n <= zlen s1 * d + zlen s2 * a.
Proof.
  intros Hi Hj [H1 H2]. split; [by eapply edits_range|]. specialize (H2 _ (edits_all _ _)). rewrite !prefix_size in H2 by done. nia.
Qed.
(** a row is right up to column [k] *)
Record row_ok (row : list Z) (i k : Z) : Prop := mkRowOk {
  ro_size : zlen row = zlen s2 + 1;
  ro_cells : forall j, 0 <= j < k -> exists n, idx row j = Some n /\ dist i j n
}.
Lemma row_cell_ok row j n st : idx row j = Some n -> cell row j st = Ok n st.
Proof. intros H. unfold cell. by rewrite H. Qed.
Lemma set_cell_ok row j v st : 0 <= j < zlen row -> set_cell row j v st = Ok (<[Z.to_nat j := v]> row) st.
Proof. intros H. unfold set_cell. by rewrite upd_lt. Qed.
Lemma wp_is_swap row0 i j c e cur st : 0 <= i -> 0 <= j -> idx s1 i = Some c -> idx s2 j = Some e -> (0 < i -> row_ok row0 (i - 1) (zlen s2 + 1)) ->
  i < zlen s1 -> j < zlen s2 ->
  exists n0, swap_cost w s a d (prefix s1 (i + 1)) (prefix s2 (j + 1)) n0 /\
    is_swap w s1 s2 row0 i j cur st = Ok (match n0 with Some n => n <? cur | None => false end) st /\
    match n0 with Some n => exists r, idx row0 (j - 1) = Some r /\ n = r + w /\ 0 <= n < 2 ^ 31 | None => True end.
Proof.
  intros Hi Hj Hc He H0 Hi1 Hj1. rewrite (prefix_next s1 i c), (prefix_next s2 j e) by done. unfold is_swap.
  destruct (Z.ltb_spec 0 i) as [Hi0|Hi0]; cbn [andb].
  2:{ exists None. split; [|done]. replace i with 0 by lia. rewrite prefix_zero. by intros c' e' x' y'. }
  destruct (Z.ltb_spec 0 j) as [Hj0|Hj0].
  2:{ exists None. split; [|done]. replace j with 0 by lia. rewrite prefix_zero. by intros c' e' x' y' _. }
  destruct (idx_lt s1 (i - 1)) as [c' Hc']; [lia|]. destruct (idx_lt s2 (j - 1)) as [e' He']; [lia|].
  pose proof (prefix_next s1 (i - 1) c' ltac:(lia) Hc') as Px. pose proof (prefix_next s2 (j - 1) e' ltac:(lia) He') as Py.
  replace (i - 1 + 1) with i in Px by lia. replace (j - 1 + 1) with j in Py by lia. rewrite Px, Py. unfold char_at, bind. rewrite Hc', He. cbn [lift ret].
  destruct (Z.eqb_spec c' e) as [<-|Hne1].
  2:{ exists None. split; [|done]. intros x1 x2 x3 x4 [= <- <- <-] [= E1 E2 E3]. congruence. }
  rewrite Hc, He'. cbn [lift ret]. destruct (Z.eqb_spec c e') as [<-|Hne2].
  2:{ exists None. split; [|done]. intros x1 x2 x3 x4 [= <- <- <-] [= E2 E3]. congruence. }
  destruct (ro_cells _ _ _ (H0 Hi0) (j - 1)) as (r & Hr & Hbest); [lia|]. pose proof (dist_range (i - 1) (j - 1) r ltac:(lia) ltac:(lia) Hbest).
  exists (Some (r + w)). split; [by exists c, c', (prefix s1 (i - 1)), (prefix s2 (j - 1)), r|]. rewrite (row_cell_ok _ _ _ _ Hr). rewrite i32_small by lia.
  split; [done|]. exists r. split; [done|lia].
Qed.
(** the least of the ways is kept *)
Lemma wp_improve row j v cur st : 0 <= j < zlen row -> idx row j = Some cur ->
  (if v <? cur then set_cell row j v else ret row) st = Ok (<[Z.to_nat j := Z.min cur v]> row) st.
Proof.
  intros Hj Hc. destruct (Z.ltb_spec v cur); [rewrite set_cell_ok by done; by rewrite Z.min_r by lia|]. rewrite Z.min_l by lia. unfold ret. f_equal.
  symmetry. apply list_insert_id. unfold idx in Hc. by replace (j <? 0) with false in Hc by lia.
Qed.
Lemma row_body_ok row0 row1 row2 i j st : 0 <= i < zlen s1 -> 0 <= j < zlen s2 -> (0 < i -> row_ok row0 (i - 1) (zlen s2 + 1)) ->
  row_ok row1 i (zlen s2 + 1) -> row_ok row2 (i + 1) (j + 1) ->
  exists row2', row_body w s a d s1 s2 row0 row1 i j row2 st = Ok row2' st /\ row_ok row2' (i + 1) (j + 1 + 1).
Proof.
  intros Hi Hj H0 H1 H2. destruct (idx_lt s1 i Hi) as [c Hc]. destruct (idx_lt s2 j Hj) as [e He].
  destruct (ro_cells _ _ _ H1 j ltac:(lia)) as (r1 & Hr1 & B1). destruct (ro_cells _ _ _ H1 (j + 1) ltac:(lia)) as (r2 & Hr2 & B2).
  destruct (ro_cells _ _ _ H2 j ltac:(lia)) as (r3 & Hr3 & B3).
  pose proof (dist_range i j r1 ltac:(lia) ltac:(lia) B1). pose proof (dist_range i (j + 1) r2 ltac:(lia) ltac:(lia) B2).
  pose proof (dist_range (i + 1) j r3 ltac:(lia) ltac:(lia) B3).
  pose proof (ro_size _ _ _ H2) as Hsz. set (k := j + 1) in *. assert (Hk : 0 <= k < zlen row2) by lia.
  assert (Hat : forall v, idx (<[Z.to_nat k := v]> row2) k = Some v) by (intros v; rewrite idx_insert, Z.eqb_refl by lia; done).
  assert (Hsc : i32 (s * (if c =? e then 0 else 1)) = if c =? e then 0 else s) by (destruct (c =? e); rewrite i32_small; lia).
  set (n1 := r1 + (if c =? e then 0 else s)).
  destruct (wp_is_swap row0 i j c e n1 st ltac:(lia) ltac:(lia) Hc He H0 ltac:(lia) ltac:(lia)) as (n0 & Hswap & Eswap & Hn0).
  exists (<[Z.to_nat k := least n1 n0 (r2 + d) (r3 + a)]> row2). split.
  - unfold row_body, bind. rewrite (row_cell_ok _ _ _ _ Hr1). unfold char_at. rewrite Hc, He. cbn [lift ret]. rewrite Hsc. rewrite i32_small by (destruct (c =? e); lia).
    fold n1. fold k. rewrite set_cell_ok by done. rewrite (row_cell_ok _ _ _ _ (Hat n1)), Eswap.
    set (m0 := match n0 with Some n => Z.min n1 n | None => n1 end).
    assert (Estep : (if match n0 with Some n => n <? n1 | None => false end return P0 (list Z) then fun st => match cell row0 (j - 1) st with
        Ok r st => set_cell (<[Z.to_nat k := n1]> row2) k (i32 (r + w)) st | Err f => Err f end else ret (<[Z.to_nat k := n1]> row2)) st = Ok (<[Z.to_nat k := m0]> row2) st).
    { unfold m0. destruct n0 as [n|]; [|done]. destruct Hn0 as (r & Hr & -> & Hrange). destruct (Z.ltb_spec (r + w) n1).
      - rewrite (row_cell_ok _ _ _ _ Hr), i32_small by lia. rewrite set_cell_ok by (by rewrite zlen_insert). rewrite list_insert_insert_eq. by rewrite Z.min_r by lia.
      - by rewrite Z.min_l by lia. }
    rewrite Estep. rewrite (row_cell_ok _ _ _ _ (Hat m0)), (row_cell_ok _ _ _ _ Hr2). rewrite (i32_small (r2 + d)) by lia.
    rewrite (wp_improve _ k _ m0) by (by rewrite ?zlen_insert || apply Hat). rewrite list_insert_insert_eq.
    rewrite (row_cell_ok _ _ _ _ (Hat _)). rewrite (row_cell_ok (<[Z.to_nat k := Z.min m0 (r2 + d)]> row2) j r3) by (rewrite idx_insert by lia; by replace (j =? k) with false by lia).
    rewrite (i32_small (r3 + a)) by lia. rewrite (wp_improve _ k _ (Z.min m0 (r2 + d))) by (by rewrite ?zlen_insert || apply Hat). by rewrite list_insert_insert_eq.
  - split; [by rewrite zlen_insert|]. intros j' Hj'. rewrite idx_insert by lia. destruct (Z.eqb_spec j' k) as [->|Hne].
    + eexists. split; [done|]. unfold dist, k in *. rewrite (prefix_next s1 i c), (prefix_next s2 j e) in * by lia || done. by apply best_cons.
    + apply (ro_cells _ _ _ H2). lia.
Qed.
Lemma row_start row i v : zlen row = zlen s2 + 1 -> dist i 0 v -> row_ok (<[0%nat := v]> row) i 1.
Proof.
  intros Hsz Hv. split; [by rewrite zlen_insert|]. intros j Hj. replace j with 0 by lia. exists v. split; [|done].
  change 0%nat with (Z.to_nat 0). rewrite idx_insert, Z.eqb_refl; [done|]. pose proof (zlen_pos s2). lia.
Qed.
Lemma wp_rows_body i row0 row1 row2 st : 0 <= i < zlen s1 -> (0 < i -> row_ok row0 (i - 1) (zlen s2 + 1)) -> row_ok row1 i (zlen s2 + 1) ->
  zlen row0 = zlen s2 + 1 -> zlen row2 = zlen s2 + 1 -> zlen s1 < 2 ^ 31 - 1 ->
  wp (rows_body w s a d s1 s2 i (row0, row1, row2)) (fun v _ => v.1.1 = row1 /\ row_ok v.1.2 (i + 1) (zlen s2 + 1) /\ v.2 = row0) st.
Proof.
  intros Hi H0 H1 Hsz0 Hsz2 Hl1. pose proof (zlen_pos s2). unfold rows_body. wp_step. assert (Hd1 : dist (i + 1) 0 ((i + 1) * d)).
  { unfold dist. rewrite prefix_zero. rewrite <- (prefix_size s1 (i + 1)) at 2 by lia. apply best_nil_r. }
  pose proof (dist_range (i + 1) 0 ((i + 1) * d) ltac:(lia) ltac:(lia) Hd1).
  eapply wpe_ok; [rewrite set_cell_ok by lia; rewrite (i32_small (i + 1)) by lia; rewrite i32_small by lia; done|]. wp_step.
  eapply wpe_mono; [apply (wpe_fold_i _ (fun j row2 _ => row_ok row2 (i + 1) (j + 1)))|].
  - intros j row st' Hj Hrow. destruct (row_body_ok row0 row1 row i j st') as (row' & E & Hrow'); [done|unfold zlen; lia|done..|].
    by eapply wpe_ok.
  - by apply row_start.
  - intros row st' Hrow. wp_step. split; [done|]. split; [|done]. exact Hrow.
Qed.
Lemma wp_levenshtein `{fresh_rows} st : zlen s1 < 2 ^ 31 - 1 -> zlen s2 < 2 ^ 31 - 1 ->
  wp (levenshtein w s a d s1 s2) (fun n _ => best s1 s2 n) st.
Proof.
  intros Hl1 Hl2. pose proof (zlen_pos s1). pose proof (zlen_pos s2). unfold levenshtein. cbv zeta.
  assert (Hfresh : forall k, zlen (map (fresh_row k) (seqZ 0 (zlen s2 + 1))) = zlen s2 + 1) by (intros k; unfold zlen at 1; rewrite length_map, length_seqZ; lia).
  wp_step. eapply wpe_mono; [apply (wpe_fold_i _ (fun j row _ => row_ok row 0 j))|].
  - intros j row st' Hj Hrow. pose proof (ro_size _ _ _ Hrow) as Hsz. assert (Hj' : 0 <= j <= zlen s2) by (unfold zlen; lia).
    assert (Hb : dist 0 j (j * a)) by (unfold dist; rewrite prefix_zero; rewrite <- (prefix_size s2 j) at 2 by lia; apply best_nil_l).
    pose proof (dist_range 0 j (j * a) ltac:(lia) Hj' Hb). eapply wpe_ok; [by rewrite set_cell_ok by lia|]. split; [by rewrite zlen_insert|].
    intros j1 Hj1. rewrite idx_insert by lia. destruct (Z.eqb_spec j1 j) as [->|Hne]; [|apply (ro_cells _ _ _ Hrow); lia].
    eexists. split; [done|]. by rewrite i32_small by lia.
  - split; [apply Hfresh|lia].
  - cbv beta. intros row1 st1 Hrow1. wp_step. eapply wpe_mono; [apply (wpe_fold_i _ (fun i v _ => (0 < i -> row_ok v.1.1 (i - 1) (zlen s2 + 1)) /\
      row_ok v.1.2 i (zlen s2 + 1) /\ zlen v.1.1 = zlen s2 + 1 /\ zlen v.2 = zlen s2 + 1))|].
    + intros i [[r0 r1] r2] st' Hi (Hr0 & Hr1 & Hz0 & Hz2). cbn [fst snd] in *. eapply wpe_mono; [apply wp_rows_body; try done; unfold zlen; lia|].
      intros [[x0 x1] x2] st2. cbn [fst snd]. intros (-> & Hx & ->). split; [intros _; by replace (i + 1 - 1) with i by lia|].
      split; [done|]. split; [apply (ro_size _ _ _ Hr1)|done].
    + cbn [fst snd]. split; [lia|]. split; [|by rewrite !Hfresh]. replace (0 + Z.of_nat (S (length s2))) with (zlen s2 + 1) in Hrow1 by (unfold zlen; lia). done.
    + intros [[r0 r1] r2] st2 (_ & Hr1 & _). cbn [fst snd] in Hr1. destruct (ro_cells _ _ _ Hr1 (zlen s2)) as (n & Hn & Hb); [lia|].
      eapply wpe_ok; [by apply row_cell_ok|]. apply best_rev in Hb. unfold prefix in Hb. rewrite !rev_involutive in Hb.
      replace (Z.to_nat (0 + Z.of_nat (length s1))) with (length s1) in Hb by lia. rewrite firstn_all in Hb. unfold zlen in Hb.
      by rewrite Nat2Z.id, firstn_all in Hb.
Qed.
End rows.

(** C27: The edit distance: for costs that are not negative, as long as all
    costs fit an int, levenshtein() answers the least cost of an edit script
    that goes over the strings once (an optimal string alignment: no character
    is edited after a swap): a script of this cost exists and none costs less.
    So it is the cost of a sequence of single edits, but not always the least of
    those, which the Damerau-Levenshtein distance that its comment names would
    be (see [not_damerau]). It stays inside its rows and strings, whatever
    malloc() left in the rows. *)
Theorem levenshtein_least `{fresh_rows} w s a d string1 string2 st : 0 <= w -> 0 <= s -> 0 <= a -> 0 <= d ->
  zlen string1 * d + zlen string2 * a + Z.max (Z.max w s) (Z.max a d) < 2 ^ 31 -> zlen string1 < 2 ^ 31 - 1 -> zlen string2 < 2 ^ 31 - 1 ->
  exists n st', levenshtein w s a d string1 string2 st = Ok n st' /\ edits w s a d string1 string2 n /\
    (forall m, edits w s a d string1 string2 m -> n <= m) /\ rewrites w s a d string1 string2 n.
Proof.
  intros Hw Hs Ha Hd Hfit Hl1 Hl2. destruct (wp_elim _ _ _ (wp_levenshtein w s a d string1 string2 Hw Hs Ha Hd Hfit st Hl1 Hl2)) as (n & st' & E & H1 & H2).
  exists n, st'. split; [done|]. split; [done|]. split; [done|by apply edits_rewrites].
Qed.
(** at unit costs "ca" becomes "abc" by a swap and an insertion between the
    swapped characters; the code answers 3 *)
Example not_damerau : rewrites 1 1 1 1 (str "ca") (str "abc") 2 /\
  levenshtein (H := fun _ _ => 0) 1 1 1 1 (str "ca") (str "abc") tt = Ok 3 tt.
Proof.
  split; [|reflexivity]. change 2 with (0 + 1 + 1). apply (rewrites_swap 1 1 1 1 [] (ch "c") (ch "a") []).
  apply (rewrites_insert 1 1 1 1 [ch "a"] (ch "b") [ch "c"]). apply rewrites_done.
Qed.
(** the costs that help.c takes: "stauts" is a swap away from "status" *)
Lemma levenshtein_least_witness : exists st, levenshtein (H := fun _ _ => 77) 0 2 1 3 (str "stauts") (str "status") tt = Ok 0 st /\
  edits 0 2 1 3 (str "stauts") (str "status") 0.
Proof.
  destruct (levenshtein_least (H := fun _ _ => 77) 0 2 1 3 (str "stauts") (str "status") tt) as (n & st & E & He & _ & _); [lia|lia|lia|lia|reflexivity|reflexivity|reflexivity|].
  assert (n = 0) as -> by (vm_compute in E; congruence). exists st. split; [exact E|exact He].
Defined.
