(* ===== verification/GitHash.v ===== *)
(** * git: the hash functions

    sha256/block/sha256.c and block-sha1/sha1.c of src/bin/git/upstream.  A
    context is the chaining value, the number of bytes hashed so far and a
    block of 64 bytes that is partly filled (the offset of
    struct blk_SHA256_CTX, which nothing reads, is left out); data is a list of bytes.  The two
    files have the same code for the blocks of a message, it is [hash_update]
    and [hash_final] over the function that takes in one block. *)
From S2P Require Import Prelude GitBase.

Record hash_ctx := mkCtx { ctx_state : list Z; ctx_size : Z; ctx_buf : list Z }.
Abbreviation CP := (prog hash_ctx) (only parsing).

(** ** compat/bswap.h *)
Definition get_be32 (p : list Z) (i : Z) : CP Z :=
  a <- rd p i ;; b <- rd p (i + 1) ;; c <- rd p (i + 2) ;; d <- rd p (i + 3) ;;
  ret (Z.lor (Z.lor (Z.lor (Z.shiftl a 24) (Z.shiftl b 16)) (Z.shiftl c 8)) d).
Definition put_be32 (value : Z) : list Z :=
  [u8 (Z.shiftr value 24); u8 (Z.shiftr value 16); u8 (Z.shiftr value 8); u8 value].

(** ** The blocks of a message *)
Section blocks.
Context (block : list Z -> CP unit).
(** while (len >= 64) *)
Definition blocks_body (data : list Z) : CP (list Z + list Z) :=
  if 64 <=? zlen data then block (take 64 data) ;; ret (inl (drop 64 data)) else ret (inr data).
Definition hash_update (data : list Z) : CP unit :=
  ctx <- get ;;
  let len := zlen data in
  let len_buf := Z.land (ctx_size ctx) 63 in
  modify (fun ctx => mkCtx (ctx_state ctx) (u64 (ctx_size ctx + len)) (ctx_buf ctx)) ;;
  let blocks (data : list Z) :=
    data <- iter (S (length data)) blocks_body data ;;
    if negb (zlen data =? 0) then
      ctx <- get ;;
      buf <- memcpy (ctx_buf ctx) 0 data ;;
      modify (fun ctx => mkCtx (ctx_state ctx) (ctx_size ctx) buf)
    else ret tt in
  if negb (len_buf =? 0) then
    let left := if len <? 64 - len_buf then len else 64 - len_buf in
    ctx <- get ;;
    buf <- memcpy (ctx_buf ctx) len_buf (take (Z.to_nat left) data) ;;
    modify (fun ctx => mkCtx (ctx_state ctx) (ctx_size ctx) buf) ;;
    let len_buf := Z.land (len_buf + left) 63 in
    if negb (len_buf =? 0) then ret tt
    else block buf ;; blocks (drop (Z.to_nat left) data)
  else blocks data.
(** the padding, the number of bits and the digest *)
Definition hash_final : CP (list Z) :=
  ctx <- get ;;
  let padlen := put_be32 (u32 (Z.shiftr (ctx_size ctx) 29)) ++ put_be32 (u32 (Z.shiftl (ctx_size ctx) 3)) in
  let i := Z.land (ctx_size ctx) 63 in
  let pad := 0x80 :: replicate 63 0 in
  hash_update (take (Z.to_nat (1 + Z.land 63 (55 - i))) pad) ;;
  hash_update padlen ;;
  ctx <- get ;;
  ret (concat (map put_be32 (ctx_state ctx))).
End blocks.

(** a word of the registers or the schedule *)
Definition word (l : list Z) (i : Z) : CP Z := lift OutOfBounds (idx l i).
Definition set_word (l : list Z) (i v : Z) : CP (list Z) := lift OutOfBounds (upd l i v).
(** the words of a block *)
Definition load_words (buf : list Z) : CP (list Z) :=
  fold_i 16 0 (fun i W => w <- get_be32 buf (4 * i) ;; set_word W i w) (replicate 64 0).
(** the chaining value and the registers of a block are added *)
Definition add_state (S : list Z) : CP unit :=
  modify (fun ctx => mkCtx (map (fun p => u32 (p.1 + p.2)) (zip (ctx_state ctx) S)) (ctx_size ctx) (ctx_buf ctx)).

(** ** sha256/block/sha256.c *)
Module Sha256.
Definition ror (x n : Z) : Z := Z.lor (Z.shiftr x n) (u32 (Z.shiftl x (32 - n))).
Definition ch (x y z : Z) : Z := Z.lxor z (Z.land x (Z.lxor y z)).
Definition maj (x y z : Z) : Z := Z.lor (Z.land (Z.lor x y) z) (Z.land x y).
Definition sigma0 (x : Z) : Z := Z.lxor (Z.lxor (ror x 2) (ror x 13)) (ror x 22).
Definition sigma1 (x : Z) : Z := Z.lxor (Z.lxor (ror x 6) (ror x 11)) (ror x 25).
Definition gamma0 (x : Z) : Z := Z.lxor (Z.lxor (ror x 7) (ror x 18)) (Z.shiftr x 3).
Definition gamma1 (x : Z) : Z := Z.lxor (Z.lxor (ror x 17) (ror x 19)) (Z.shiftr x 10).

(** RND(S[a], ..., S[h], i, ki) *)
Definition RND (W : list Z) (roles : list Z) (i ki : Z) (S : list Z) : CP (list Z) :=
  match roles with
  | [ia; ib; ic; id; ie; if_; ig; ih] =>
      a <- word S ia ;; b <- word S ib ;; c <- word S ic ;; d <- word S id ;;
      e <- word S ie ;; f <- word S if_ ;; g <- word S ig ;; h <- word S ih ;;
      w <- word W i ;;
      let t0 := u32 (h + sigma1 e + ch e f g + ki + w) in
      let t1 := u32 (sigma0 a + maj a b c) in
      S <- set_word S id (u32 (d + t0)) ;;
      set_word S ih (u32 (t0 + t1))
  | _ => raise OutOfBounds
  end.
(** the registers of the eight kinds of calls of RND() *)
Definition sha256_roles : list (list Z) := [
  [0; 1; 2; 3; 4; 5; 6; 7]; [7; 0; 1; 2; 3; 4; 5; 6]; [6; 7; 0; 1; 2; 3; 4; 5]; [5; 6; 7; 0; 1; 2; 3; 4];
  [4; 5; 6; 7; 0; 1; 2; 3]; [3; 4; 5; 6; 7; 0; 1; 2]; [2; 3; 4; 5; 6; 7; 0; 1]; [1; 2; 3; 4; 5; 6; 7; 0] ].
(** the last two arguments of its 64 calls *)
Definition sha256_calls : list (Z * Z) := [
  (0, 0x428a2f98); (1, 0x71374491); (2, 0xb5c0fbcf); (3, 0xe9b5dba5);
  (4, 0x3956c25b); (5, 0x59f111f1); (6, 0x923f82a4); (7, 0xab1c5ed5);
  (8, 0xd807aa98); (9, 0x12835b01); (10, 0x243185be); (11, 0x550c7dc3);
  (12, 0x72be5d74); (13, 0x80deb1fe); (14, 0x9bdc06a7); (15, 0xc19bf174);
  (16, 0xe49b69c1); (17, 0xefbe4786); (18, 0x0fc19dc6); (19, 0x240ca1cc);
  (20, 0x2de92c6f); (21, 0x4a7484aa); (22, 0x5cb0a9dc); (23, 0x76f988da);
  (24, 0x983e5152); (25, 0xa831c66d); (26, 0xb00327c8); (27, 0xbf597fc7);
  (28, 0xc6e00bf3); (29, 0xd5a79147); (30, 0x06ca6351); (31, 0x14292967);
  (32, 0x27b70a85); (33, 0x2e1b2138); (34, 0x4d2c6dfc); (35, 0x53380d13);
  (36, 0x650a7354); (37, 0x766a0abb); (38, 0x81c2c92e); (39, 0x92722c85);
  (40, 0xa2bfe8a1); (41, 0xa81a664b); (42, 0xc24b8b70); (43, 0xc76c51a3);
  (44, 0xd192e819); (45, 0xd6990624); (46, 0xf40e3585); (47, 0x106aa070);
  (48, 0x19a4c116); (49, 0x1e376c08); (50, 0x2748774c); (51, 0x34b0bcb5);
  (52, 0x391c0cb3); (53, 0x4ed8aa4a); (54, 0x5b9cca4f); (55, 0x682e6ff3);
  (56, 0x748f82ee); (57, 0x78a5636f); (58, 0x84c87814); (59, 0x8cc70208);
  (60, 0x90befffa); (61, 0xa4506ceb); (62, 0xbef9a3f7); (63, 0xc67178f2) ].
(** W[16..63] *)
Definition fill_body (i : Z) (W : list Z) : CP (list Z) :=
  w2 <- word W (i - 2) ;; w7 <- word W (i - 7) ;; w15 <- word W (i - 15) ;; w16 <- word W (i - 16) ;;
  set_word W i (u32 (gamma1 w2 + w7 + gamma0 w15 + w16)).
Definition sha256_round (W : list Z) (i : Z) (S : list Z) : CP (list Z) :=
  r <- lift OutOfBounds (idx sha256_roles (i mod 8)) ;;
  let* (j, ki) := lift OutOfBounds (idx sha256_calls i) in
  RND W r j ki S.
Definition blk_SHA256_Transform (buf : list Z) : CP unit :=
  ctx <- get ;;
  W <- load_words buf ;;
  W <- fold_i 48 16 fill_body W ;;
  S <- fold_i 64 0 (sha256_round W) (ctx_state ctx) ;;
  add_state S.
Definition blk_SHA256_Init : CP unit :=
  modify (fun ctx => mkCtx [0x6a09e667; 0xbb67ae85; 0x3c6ef372; 0xa54ff53a; 0x510e527f; 0x9b05688c; 0x1f83d9ab; 0x5be0cd19] 0 (ctx_buf ctx)).
Definition blk_SHA256_Update : list Z -> CP unit := hash_update blk_SHA256_Transform.
Definition blk_SHA256_Final : CP (list Z) := hash_final blk_SHA256_Transform.
End Sha256.

(** ** block-sha1/sha1.c *)
Module Sha1.
Definition SHA_ROT (X l r : Z) : Z := Z.lor (u32 (Z.shiftl X l)) (Z.shiftr X r).
Definition SHA_ROL (X n : Z) : Z := SHA_ROT X n (32 - n).
Definition SHA_ROR (X n : Z) : Z := SHA_ROT X (32 - n) n.
(** the array of 16 words that rolls over the schedule *)
Definition W (array : list Z) (x : Z) : CP Z := word array (Z.land x 15).
Definition setW (array : list Z) (x val : Z) : CP (list Z) := set_word array (Z.land x 15) val.
Definition SHA_SRC (block array : list Z) (t : Z) : CP Z := get_be32 block (t * 4).
Definition SHA_MIX (array : list Z) (t : Z) : CP Z :=
  a <- W array (t + 13) ;; b <- W array (t + 8) ;; c <- W array (t + 2) ;; d <- W array t ;;
  ret (SHA_ROL (Z.lxor (Z.lxor (Z.lxor a b) c) d) 1).
(** SHA_ROUND(t, input, fn, constant, A, B, C, D, E) *)
Definition SHA_ROUND (t : Z) (input : list Z -> Z -> CP Z) (fn : Z -> Z -> Z -> Z) (constant : Z) (roles : list Z)
    (v : list Z * list Z) : CP (list Z * list Z) :=
  let '(array, R) := v in
  match roles with
  | [ia; ib; ic; id; ie] =>
      TEMP <- input array t ;;
      array <- setW array t TEMP ;;
      a <- word R ia ;; b <- word R ib ;; c <- word R ic ;; d <- word R id ;; e <- word R ie ;;
      R <- set_word R ie (u32 (e + (TEMP + SHA_ROL a 5 + fn b c d + constant))) ;;
      R <- set_word R ib (SHA_ROR b 2) ;;
      ret (array, R)
  | _ => raise OutOfBounds
  end.
(** the registers of the five kinds of calls *)
Definition sha1_roles : list (list Z) := [ [0; 1; 2; 3; 4]; [4; 0; 1; 2; 3]; [3; 4; 0; 1; 2]; [2; 3; 4; 0; 1]; [1; 2; 3; 4; 0] ].
Definition F1 (B C D : Z) : Z := Z.lxor (Z.land (Z.lxor C D) B) D.
Definition F2 (B C D : Z) : Z := Z.lxor (Z.lxor B C) D.
Definition F3 (B C D : Z) : Z := Z.land B C + Z.land D (Z.lxor B C).
Definition T_0_15 (block : list Z) (t : Z) := SHA_ROUND t (SHA_SRC block) F1 0x5a827999.
Definition T_16_19 (t : Z) := SHA_ROUND t SHA_MIX F1 0x5a827999.
Definition T_20_39 (t : Z) := SHA_ROUND t SHA_MIX F2 0x6ed9eba1.
Definition T_40_59 (t : Z) := SHA_ROUND t SHA_MIX F3 0x8f1bbcdc.
Definition T_60_79 (t : Z) := SHA_ROUND t SHA_MIX F2 0xca62c1d6.
Definition sha1_round (block : list Z) (t : Z) (v : list Z * list Z) : CP (list Z * list Z) :=
  r <- lift OutOfBounds (idx sha1_roles (t mod 5)) ;;
  if t <? 16 then T_0_15 block t r v
  else if t <? 20 then T_16_19 t r v
  else if t <? 40 then T_20_39 t r v
  else if t <? 60 then T_40_59 t r v
  else T_60_79 t r v.
(** [array] is not initialized before the first rounds store into it *)
Definition blk_SHA1_Block (array block : list Z) : CP unit :=
  ctx <- get ;;
  let* (array, R) := fold_i 80 0 (sha1_round block) (array, ctx_state ctx) in
  add_state R.
Definition blk_SHA1_Init : CP unit :=
  modify (fun ctx => mkCtx [0x67452301; 0xefcdab89; 0x98badcfe; 0x10325476; 0xc3d2e1f0] 0 (ctx_buf ctx)).
Definition blk_SHA1_Update (array : list Z) : list Z -> CP unit := hash_update (blk_SHA1_Block array).
Definition blk_SHA1_Final (array : list Z) : CP (list Z) := hash_final (blk_SHA1_Block array).
End Sha1.
