(* ===== verification/GitHashBlock.v ===== *)
(** * git: SHA-1 and SHA-256 as FIPS 180-4 defines them

    The reference for the code: a message is padded and cut into blocks of 64
    bytes, every block has a schedule of 80 or 64 words, and its rounds shift
    the working variables. Rotations are written with division. *)
From S2P Require Import Prelude GitBase GitHash.

Definition add32 (l : list Z) : Z := fold_right Z.add 0 l mod 2 ^ 32.
Definition ROTR (n x : Z) : Z := x / 2 ^ n + (x mod 2 ^ n) * 2 ^ (32 - n).
Definition ROTL (n x : Z) : Z := ROTR (32 - n) x.
Definition SHR (n x : Z) : Z := x / 2 ^ n.
Definition Ch (x y z : Z) : Z := Z.lxor (Z.land x y) (Z.ldiff z x).
Definition Parity (x y z : Z) : Z := Z.lxor x (Z.lxor y z).
Definition Maj (x y z : Z) : Z := Z.lxor (Z.land x y) (Z.lxor (Z.land x z) (Z.land y z)).
(** big-endian numbers *)
Definition be (bytes : list Z) : Z := fold_left (fun n b => n * 256 + b) bytes 0.
Fixpoint to_be (n : nat) (x : Z) : list Z := match n with O => [] | S n => to_be n (x / 256) ++ [x mod 256] end.

(** ** Padding and blocks *)
Definition padded (msg : list Z) : list Z :=
  msg ++ 0x80 :: replicate (Z.to_nat ((55 - zlen msg) mod 64)) 0 ++ to_be 8 (8 * zlen msg).
Fixpoint chunks (fuel n : nat) (l : list Z) : list (list Z) :=
  match fuel, l with
  | S fuel, _ :: _ => take n l :: chunks fuel n (drop n l)
  | _, _ => []
  end.
Definition words (block : list Z) : list Z := map be (chunks (length block) 4 block).
(** [next ws] is the word behind the words [ws] of a schedule *)
Definition schedule (n : nat) (next : list Z -> Z) (block : list Z) : list Z := Nat.iter n (fun ws => ws ++ [next ws]) (words block).
(** the word [k] places before the end *)
Definition ago (ws : list Z) (k : nat) : Z := nth (length ws - k) ws 0.
Definition digest (compress : list Z -> list Z -> list Z) (H0 msg : list Z) : list Z :=
  concat (map (to_be 4) (fold_left compress (chunks (length (padded msg)) 64 (padded msg)) H0)).

(** ** SHA-256 *)
Definition Sigma0 (x : Z) : Z := Z.lxor (ROTR 2 x) (Z.lxor (ROTR 13 x) (ROTR 22 x)).
Definition Sigma1 (x : Z) : Z := Z.lxor (ROTR 6 x) (Z.lxor (ROTR 11 x) (ROTR 25 x)).
Definition s0 (x : Z) : Z := Z.lxor (ROTR 7 x) (Z.lxor (ROTR 18 x) (SHR 3 x)).
Definition s1 (x : Z) : Z := Z.lxor (ROTR 17 x) (Z.lxor (ROTR 19 x) (SHR 10 x)).
Definition next256 (ws : list Z) : Z := add32 [s1 (ago ws 2); ago ws 7; s0 (ago ws 15); ago ws 16].
Definition round256 (v : list Z) (kw : Z * Z) : list Z :=
  match v with
  | [a; b; c; d; e; f; g; h] =>
      let T1 := add32 [h; Sigma1 e; Ch e f g; kw.1; kw.2] in
      let T2 := add32 [Sigma0 a; Maj a b c] in
      [add32 [T1; T2]; a; b; c; add32 [d; T1]; e; f; g]
  | _ => []
  end.
(** the first 32 bits of the fractional parts of the cube roots of the first 64
    primes *)
Definition prime_number (n : Z) : bool := forallb (fun d => negb (n mod d =? 0)) (seqZ 2 (n - 2)).
Definition primes64 : list Z := take 64 (List.filter prime_number (seqZ 2 320)).
Definition cube_root (x : Z) : Z := fold_right (fun k r => if (r + 2 ^ k) ^ 3 <=? x then r + 2 ^ k else r) 0 (seqZ 0 36).
Definition K256 : list Z := Eval vm_compute in map (fun p => cube_root (p * 2 ^ 96) mod 2 ^ 32) primes64.
Lemma cube_roots : forallb (fun p => let r := cube_root (p * 2 ^ 96) in (r ^ 3 <=? p * 2 ^ 96) && (p * 2 ^ 96 <? (r + 1) ^ 3)) primes64 = true.
Proof. vm_compute. reflexivity. Qed.
Definition compress256 (H block : list Z) : list Z :=
  map (fun p => add32 [p.1; p.2]) (zip H (fold_left round256 (zip K256 (schedule 48 next256 block)) H)).
Definition IV256 : list Z := [0x6a09e667; 0xbb67ae85; 0x3c6ef372; 0xa54ff53a; 0x510e527f; 0x9b05688c; 0x1f83d9ab; 0x5be0cd19].
Definition SHA256 (msg : list Z) : list Z := digest compress256 IV256 msg.

(** ** SHA-1 *)
Definition next1 (ws : list Z) : Z := ROTL 1 (Z.lxor (ago ws 3) (Z.lxor (ago ws 8) (Z.lxor (ago ws 14) (ago ws 16)))).
Definition f1 (t : nat) (x y z : Z) : Z :=
  if (t <? 20)%nat then Ch x y z else if (t <? 40)%nat then Parity x y z else if (t <? 60)%nat then Maj x y z else Parity x y z.
Definition K1 (t : nat) : Z :=
  if (t <? 20)%nat then 0x5a827999 else if (t <? 40)%nat then 0x6ed9eba1 else if (t <? 60)%nat then 0x8f1bbcdc else 0xca62c1d6.
Definition round1 (v : list Z) (tw : nat * Z) : list Z :=
  match v with
  | [a; b; c; d; e] => [add32 [ROTL 5 a; f1 tw.1 b c d; e; K1 tw.1; tw.2]; a; ROTL 30 b; c; d]
  | _ => []
  end.
Definition compress1 (H block : list Z) : list Z :=
  map (fun p => add32 [p.1; p.2]) (zip H (fold_left round1 (zip (seq 0 80) (schedule 64 next1 block)) H)).
Definition IV1 : list Z := [0x67452301; 0xefcdab89; 0x98badcfe; 0x10325476; 0xc3d2e1f0].
Definition SHA1 (msg : list Z) : list Z := digest compress1 IV1 msg.

(** the test vectors of the standard *)
Example SHA256_abc : be (SHA256 (str "abc")) = 0xba7816bf8f01cfea414140de5dae2223b00361a396177a9cb410ff61f20015ad.
Proof. vm_compute. reflexivity. Qed.
Example SHA1_abc : be (SHA1 (str "abc")) = 0xa9993e364706816aba3e25717850c26c9cd0d89d.
Proof. vm_compute. reflexivity. Qed.

(** ** git: one block of a hash

    The functions that take in a block of 64 bytes are the compression
    functions of the standard: the macros with their rotating registers do the
    rounds, and the array that rolls over 16 words holds the end of the
    schedule. *)

(** ** Words *)
Definition word32 (x : Z) : Prop := 0 <= x < 2 ^ 32.
(** disjoint numbers: the or is the sum *)
Lemma lor_disjoint x y k : 0 <= k -> 0 <= y < 2 ^ k -> Z.lor (x * 2 ^ k) y = x * 2 ^ k + y.
Proof.
  intros Hk Hy. assert (H : Z.land (x * 2 ^ k) y = 0).
  { apply Z.bits_inj'. intros i Hi. rewrite Z.land_spec, Z.bits_0. destruct (Z.lt_ge_cases i k).
    - by rewrite Z.mul_pow2_bits_low by done.
    - rewrite (small_bits y k) by done. apply andb_false_r. }
  rewrite Z.add_nocarry_lxor by done. by rewrite Z.lxor_lor.
Qed.
Lemma rotr_ok x n : word32 x -> 0 < n < 32 -> Z.lor (Z.shiftr x n) (u32 (Z.shiftl x (32 - n))) = ROTR n x.
Proof.
  intros Hx Hn. unfold word32 in Hx. rewrite Z.shiftr_div_pow2, Z.shiftl_mul_pow2 by lia. unfold u32, ROTR. change 4294967296 with (2 ^ 32).
  assert (Hsplit : 2 ^ 32 = 2 ^ n * 2 ^ (32 - n)) by (rewrite <- Z.pow_add_r by lia; f_equal; lia).
  rewrite Hsplit at 1. rewrite Z.mul_mod_distr_r by lia. rewrite Z.lor_comm, lor_disjoint; [lia|lia|].
  split; [apply Z.div_pos; lia|]. apply Z.div_lt_upper_bound; [lia|]. rewrite <- Hsplit. lia.
Qed.
Lemma add32_range l : word32 (add32 l).
Proof. unfold word32, add32. apply Z.mod_pos_bound. lia. Qed.
Ltac bitwise := apply Z.bits_inj'; intros ? ?; rewrite ?Z.lxor_spec, ?Z.land_spec, ?Z.lor_spec, ?Z.ldiff_spec, ?Z.bits_0, ?Z.lxor_spec, ?Z.land_spec, ?Z.lor_spec;
  repeat match goal with |- context [Z.testbit ?a ?b] => destruct (Z.testbit a b) end; reflexivity.
Lemma ch_ok x y z : Sha256.ch x y z = Ch x y z.
Proof. unfold Sha256.ch, Ch. bitwise. Qed.
Lemma maj_ok x y z : Sha256.maj x y z = Maj x y z.
Proof. unfold Sha256.maj, Maj. bitwise. Qed.
Lemma F1_ok x y z : Sha1.F1 x y z = Ch x y z.
Proof. unfold Sha1.F1, Ch. bitwise. Qed.
Lemma F2_ok x y z : Sha1.F2 x y z = Parity x y z.
Proof. unfold Sha1.F2, Parity. bitwise. Qed.
Lemma F3_ok x y z : Sha1.F3 x y z = Maj x y z.
Proof. unfold Sha1.F3, Maj. rewrite Z.add_nocarry_lxor by bitwise. bitwise. Qed.
Lemma sigma_ok x : word32 x -> Sha256.sigma0 x = Sigma0 x /\ Sha256.sigma1 x = Sigma1 x /\ Sha256.gamma0 x = s0 x /\ Sha256.gamma1 x = s1 x.
Proof.
  intros Hx. unfold Sha256.sigma0, Sha256.sigma1, Sha256.gamma0, Sha256.gamma1, Sigma0, Sigma1, s0, s1, Sha256.ror, SHR.
  rewrite !(rotr_ok x) by (done || lia). rewrite !Z.lxor_assoc, !Z.shiftr_div_pow2 by lia. done.
Qed.
Lemma SHA_ROL_ok x n : word32 x -> 0 < n < 32 -> Sha1.SHA_ROL x n = ROTL n x.
Proof. intros Hx Hn. unfold Sha1.SHA_ROL, Sha1.SHA_ROT, ROTL. rewrite Z.lor_comm, <- rotr_ok by (done || lia). do 3 f_equal. lia. Qed.
Lemma SHA_ROR_ok x : word32 x -> Sha1.SHA_ROR x 2 = ROTL 30 x.
Proof. intros Hx. unfold Sha1.SHA_ROR, Sha1.SHA_ROT, ROTL. by rewrite Z.lor_comm, <- rotr_ok. Qed.
Lemma ROTR_range x n : word32 x -> 0 < n < 32 -> word32 (ROTR n x).
Proof.
  intros Hx Hn. unfold word32, ROTR in *. assert (Hsplit : 2 ^ 32 = 2 ^ n * 2 ^ (32 - n)) by (rewrite <- Z.pow_add_r by lia; f_equal; lia).
  assert (0 < 2 ^ n) by lia. assert (0 < 2 ^ (32 - n)) by lia. pose proof (Z.mod_pos_bound x (2 ^ n) ltac:(lia)).
  assert (0 <= x / 2 ^ n < 2 ^ (32 - n)) by (split; [apply Z.div_pos; lia|apply Z.div_lt_upper_bound; lia]). nia.
Qed.
(** the bytes of a word *)
Lemma be_four a b c d : byte a -> byte b -> byte c -> byte d ->
  Z.lor (Z.lor (Z.lor (Z.shiftl a 24) (Z.shiftl b 16)) (Z.shiftl c 8)) d = be [a; b; c; d].
Proof.
  unfold byte. intros Ha Hb Hc Hd. rewrite !Z.shiftl_mul_pow2 by lia. unfold be. cbn [fold_left].
  rewrite (lor_disjoint a (b * 2 ^ 16) 24) by lia. replace (a * 2 ^ 24 + b * 2 ^ 16) with ((a * 256 + b) * 2 ^ 16) by lia.
  rewrite (lor_disjoint _ (c * 2 ^ 8) 16) by lia. replace ((a * 256 + b) * 2 ^ 16 + c * 2 ^ 8) with (((a * 256 + b) * 256 + c) * 2 ^ 8) by lia.
  rewrite lor_disjoint by lia. lia.
Qed.
Lemma be_word a b c d : byte a -> byte b -> byte c -> byte d -> word32 (be [a; b; c; d]).
Proof. unfold byte, word32, be. cbn [fold_left]. lia. Qed.
Lemma put_be32_ok x : put_be32 x = to_be 4 x.
Proof.
  unfold put_be32, u8. cbn [to_be app]. rewrite !Z.shiftr_div_pow2 by lia. rewrite !Z.div_div by lia. done.
Qed.

(** ** The words of a block *)
Lemma chunks_lookup n l : (0 < n)%nat -> forall fuel i, (length l <= fuel)%nat -> (n * i < length l)%nat -> chunks fuel n l !! i = Some (take n (drop (n * i) l)).
Proof.
  intros Hn fuel. revert l. induction fuel as [|fuel IH]; intros l i Hf Hi; [lia|]. destruct l as [|x l]; [simpl in Hi; lia|]. cbn [chunks].
  destruct i as [|i]; [by rewrite Nat.mul_0_r|]. rewrite lookup_cons_ne_0 by lia. cbn [pred]. rewrite IH; rewrite ?length_drop; [|lia|lia].
  rewrite drop_drop. do 3 f_equal. lia.
Qed.
Lemma chunks_length n : (0 < n)%nat -> forall k l fuel, length l = (n * k)%nat -> (length l <= fuel)%nat -> length (chunks fuel n l) = k.
Proof.
  intros Hn k. induction k as [|k IH]; intros l fuel Hl Hf.
  - destruct l; [by destruct fuel|simpl in Hl; lia].
  - destruct l as [|x l]; [simpl in Hl; lia|]. destruct fuel as [|fuel]; [simpl in Hf; lia|]. cbn [chunks length]. f_equal. apply IH; rewrite length_drop; lia.
Qed.
Section block.
Context (block : list Z) (Hlen : zlen block = 64) (Hbytes : Forall byte block).
Lemma words_length : length (words block) = 16%nat.
Proof. unfold words. rewrite length_map. unfold zlen in Hlen. apply chunks_length; lia. Qed.
Lemma get_be32_ok i ctx : 0 <= i < 16 -> exists w, get_be32 block (4 * i) ctx = Ok w ctx /\ words block !! Z.to_nat i = Some w /\ word32 w.
Proof.
  intros Hi. unfold get_be32, bind. unfold words. rewrite list_lookup_fmap. rewrite chunks_lookup by (unfold zlen in Hlen; lia).
  destruct (idx_lt block (4 * i)) as [a Ha]; [lia|]. destruct (idx_lt block (4 * i + 1)) as [b Hb]; [lia|].
  destruct (idx_lt block (4 * i + 2)) as [c Hc]; [lia|]. destruct (idx_lt block (4 * i + 3)) as [d Hd]; [lia|].
  rewrite (rd_idx _ _ _ _ Ha), (rd_idx _ _ _ _ Hb), (rd_idx _ _ _ _ Hc), (rd_idx _ _ _ _ Hd).
  pose proof (byte_idx _ _ _ Hbytes Ha). pose proof (byte_idx _ _ _ Hbytes Hb). pose proof (byte_idx _ _ _ Hbytes Hc). pose proof (byte_idx _ _ _ Hbytes Hd).
  rewrite be_four by done. eexists. split; [done|]. split; [|by apply be_word]. cbn [fmap option_fmap option_map]. do 2 f_equal.
  assert (Hat : forall k x, idx block (4 * i + Z.of_nat k) = Some x -> block !! (4 * Z.to_nat i + k)%nat = Some x).
  { intros k x Hx. unfold idx in Hx. destruct (Z.ltb_spec (4 * i + Z.of_nat k) 0); [done|]. rewrite <- Hx. f_equal. lia. }
  rewrite (drop_S _ a) by (rewrite <- (Nat.add_0_r (4 * Z.to_nat i)); apply Hat; by rewrite Z.add_0_r).
  rewrite (drop_S _ b) by (replace (S (4 * Z.to_nat i)) with (4 * Z.to_nat i + 1)%nat by lia; by apply Hat).
  rewrite (drop_S _ c) by (replace (S (S (4 * Z.to_nat i))) with (4 * Z.to_nat i + 2)%nat by lia; by apply Hat).
  rewrite (drop_S _ d) by (replace (S (S (S (4 * Z.to_nat i)))) with (4 * Z.to_nat i + 3)%nat by lia; by apply Hat). done.
Qed.
Lemma words_range : Forall word32 (words block).
Proof.
  apply Forall_lookup_2. intros i x Hx. pose proof (lookup_lt_Some _ _ _ Hx) as Hi. rewrite words_length in Hi.
  destruct (get_be32_ok (Z.of_nat i) (mkCtx [] 0 []) ltac:(lia)) as (w & _ & Hw & Hr). rewrite Nat2Z.id in Hw. congruence.
Qed.
(** every word behind the first 16 is made of those in front of it *)
Lemma schedule_step n next : schedule (S n) next block = schedule n next block ++ [next (schedule n next block)].
Proof. done. Qed.
Lemma schedule_length n next : length (schedule n next block) = (16 + n)%nat.
Proof. induction n as [|n IH]; [apply words_length|]. rewrite schedule_step, length_app, IH. simpl. lia. Qed.
Lemma schedule_prefix n next m : (m <= n)%nat -> take (16 + m) (schedule n next block) = schedule m next block.
Proof.
  induction 1 as [|n Hle IH]; [apply take_ge; by rewrite schedule_length|]. rewrite schedule_step, take_app_le; [done|]. rewrite schedule_length. lia.
Qed.
Lemma schedule_range n next : (forall ws, Forall word32 ws -> word32 (next ws)) -> Forall word32 (schedule n next block).
Proof.
  intros Hn. induction n as [|n IH]; [apply words_range|]. rewrite schedule_step. apply Forall_app. split; [done|]. constructor; [by apply Hn|done].
Qed.
Lemma back_lookup ws k : (0 < k <= length ws)%nat -> ws !! (length ws - k)%nat = Some (ago ws k).
Proof. intros Hk. unfold ago. destruct (lookup_lt_is_Some_2 ws (length ws - k)) as [x Hx]; [lia|]. rewrite Hx. f_equal. symmetry. by apply nth_lookup_Some with (d := 0). Qed.
Lemma back_range ws k : (0 < k <= length ws)%nat -> Forall word32 ws -> word32 (ago ws k).
Proof. intros Hk Hw. by eapply Forall_lookup_1; [|apply back_lookup]. Qed.
End block.

(** ** SHA-256 *)
Lemma word_ok l i x ctx : 0 <= i -> l !! Z.to_nat i = Some x -> GitHash.word l i ctx = Ok x ctx.
Proof. intros Hi Hx. unfold GitHash.word. by rewrite (idx_to_nat _ _ _ Hi Hx). Qed.
Lemma set_word_mid l1 x v l2 i ctx : zlen l1 = i -> set_word (l1 ++ x :: l2) i v ctx = Ok (l1 ++ v :: l2) ctx.
Proof.
  intros <-.  unfold set_word. rewrite upd_lt; [by rewrite insert_at|]. rewrite zlen_app, zlen_cons. pose proof (zlen_pos l1). pose proof (zlen_pos l2). lia.
Qed.
Lemma load_words_ok block ctx : zlen block = 64 -> Forall byte block -> load_words block ctx = Ok (words block ++ replicate 48 0) ctx.
Proof.
  intros Hl Hb. destruct (wp_elim (load_words block) (fun W s => s = ctx /\ W = words block ++ replicate 48 0) ctx) as (W & s & E & -> & ->); [|done].
  eapply wpe_mono; [apply (wpe_fold_i _ (fun i W s => s = ctx /\ W = take (Z.to_nat i) (words block) ++ replicate (64 - Z.to_nat i) 0))|].
  - intros i W s Hi [-> ->]. destruct (get_be32_ok block Hl Hb i ctx) as (w & E & Hw & _); [lia|]. wp_step. apply (wpe_ok _ _ _ _ _ _ E).
    pose proof (words_length block Hl) as Hlen. assert (Hz : zlen (take (Z.to_nat i) (words block)) = i) by (unfold zlen; rewrite length_take; lia).
    replace (64 - Z.to_nat i)%nat with (S (63 - Z.to_nat i)) by lia. cbn [replicate]. eapply wpe_ok; [by apply set_word_mid|]. split; [done|].
    replace (Z.to_nat (i + 1)) with (S (Z.to_nat i)) by lia. rewrite (take_S_r _ _ _ Hw), <- app_assoc. cbn [app].
    by replace (64 - S (Z.to_nat i))%nat with (63 - Z.to_nat i)%nat by lia.
  - split; [done|]. done.
  - intros W s [-> ->]. split; [done|]. rewrite take_ge; [done|]. by rewrite words_length.
Qed.
Lemma schedule_back block n next k ctx rest : zlen block = 64 -> (0 < k <= 16)%nat ->
  GitHash.word (schedule n next block ++ rest) (Z.of_nat (16 + n) - Z.of_nat k) ctx = Ok (ago (schedule n next block) k) ctx.
Proof.
  intros Hl Hk. pose proof (schedule_length block Hl n next) as Hlen. apply word_ok; [lia|]. apply lookup_app_l_Some.
  replace (Z.to_nat (Z.of_nat (16 + n) - Z.of_nat k)) with (length (schedule n next block) - k)%nat by lia. apply back_lookup. lia.
Qed.
Lemma next256_range ws : word32 (next256 ws).
Proof. apply add32_range. Qed.
Lemma fill_ok block ctx : zlen block = 64 -> Forall byte block ->
  fold_i 48 16 Sha256.fill_body (words block ++ replicate 48 0) ctx = Ok (schedule 48 next256 block) ctx.
Proof.
  intros Hl Hb. destruct (wp_elim (fold_i 48 16 Sha256.fill_body (words block ++ replicate 48 0)) (fun W s => s = ctx /\ W = schedule 48 next256 block) ctx)
    as (W & s & E & -> & ->); [|done].
  eapply wpe_mono; [apply (wpe_fold_i _ (fun i W s => s = ctx /\ 16 <= i /\ W = schedule (Z.to_nat i - 16) next256 block ++ replicate (64 - Z.to_nat i) 0))|].
  - intros i W s Hi (-> & _ & ->). set (n := (Z.to_nat i - 16)%nat). assert (Hin : i = Z.of_nat (16 + n)) by lia. clearbody n. subst i.
    pose proof (schedule_length block Hl n next256) as Hlen. set (ws := schedule n next256 block) in *.
    assert (Hr : Forall word32 ws) by (by apply schedule_range; [| |intros; apply next256_range]).
    replace (64 - Z.to_nat (Z.of_nat (16 + n)))%nat with (S (47 - n)) by lia. cbn [replicate]. unfold Sha256.fill_body.
    do 4 (wp_step; eapply wpe_ok; [lazymatch goal with |- GitHash.word _ (_ - ?k) _ = _ => apply (schedule_back block n next256 (Z.to_nat k)); [done|lia] end|]).
    change (Z.to_nat 2) with 2%nat. change (Z.to_nat 7) with 7%nat. change (Z.to_nat 15) with 15%nat. change (Z.to_nat 16) with 16%nat.
    fold ws. assert (Hz : zlen ws = Z.of_nat (16 + n)) by (unfold zlen; lia). eapply wpe_ok; [by apply set_word_mid|]. split; [done|]. split; [lia|].
    destruct (sigma_ok (ago ws 2)) as (_ & _ & _ & ->); [apply back_range; [lia|done]|].
    destruct (sigma_ok (ago ws 15)) as (_ & _ & -> & _); [apply back_range; [lia|done]|].
    replace (Z.to_nat (Z.of_nat (16 + n) + 1) - 16)%nat with (S n) by lia. rewrite schedule_step. fold ws. rewrite <- app_assoc. cbn [app].
    replace (64 - Z.to_nat (Z.of_nat (16 + n) + 1))%nat with (47 - n)%nat by lia. do 2 f_equal. unfold next256, add32, u32. cbn [fold_right]. f_equal. lia.
  - split; [done|]. split; [lia|]. done.
  - intros W s (-> & _ & ->). split; [done|]. change (64 - Z.to_nat (16 + Z.of_nat 48))%nat with 0%nat. cbn [replicate]. by rewrite app_nil_r.
Qed.
(** the registers in the order of their roles *)
Definition view (S : list Z) (roles : list Z) : list Z := map (fun j => nth0 (Z.to_nat j) S) roles.
Definition registers (n : nat) (S : list Z) : Prop := length S = n /\ Forall word32 S.
Lemma round256_code a b c d e f g h ki w : word32 a -> word32 e ->
  let t0 := u32 (h + Sha256.sigma1 e + Sha256.ch e f g + ki + w) in
  let t1 := u32 (Sha256.sigma0 a + Sha256.maj a b c) in
  round256 [a; b; c; d; e; f; g; h] (ki, w) = [u32 (t0 + t1); a; b; c; u32 (d + t0); e; f; g].
Proof.
  intros Ha He. destruct (sigma_ok a Ha) as (-> & _). destruct (sigma_ok e He) as (_ & -> & _). rewrite ch_ok, maj_ok. cbv zeta. cbn [round256 fst snd].
  assert (E0 : u32 (h + Sigma1 e + Ch e f g + ki + w) = add32 [h; Sigma1 e; Ch e f g; ki; w]) by (unfold u32, add32; cbn [fold_right]; f_equal; lia).
  assert (E1 : u32 (Sigma0 a + Maj a b c) = add32 [Sigma0 a; Maj a b c]) by (unfold u32, add32; cbn [fold_right]; f_equal; lia).
  assert (E2 : forall x y, u32 (x + y) = add32 [x; y]) by (intros x y; unfold u32, add32; cbn [fold_right]; f_equal; lia).
  by rewrite E0, E1, !E2.
Qed.
(** one kind of call of the macro *)
Ltac round_case Ew Hall :=
  eexists; split; [unfold Sha256.RND; cbn [nth Sha256.sha256_roles];
    do 8 (erewrite bind_ok; [|apply word_ok; [lia|reflexivity]]); rewrite (bind_ok _ _ _ _ _ Ew); cbv zeta; erewrite bind_ok; [|reflexivity]; reflexivity|];
  split; [split; [reflexivity|repeat (apply List.Forall_cons; [first [apply u32_range|apply Hall; cbn; tauto]|]); apply List.Forall_nil]|];
  unfold view; cbn [nth Sha256.sha256_roles map]; change (0 + 1)%nat with 1%nat; symmetry; apply round256_code; apply Hall; cbn; tauto.
Lemma RND_ok W S r ki w i ctx : registers 8 S -> (r < 8)%nat -> W !! Z.to_nat i = Some w -> 0 <= i ->
  exists S', Sha256.RND W (nth r Sha256.sha256_roles []) i ki S ctx = Ok S' ctx /\ registers 8 S' /\
    view S' (nth ((r + 1) mod 8) Sha256.sha256_roles []) = round256 (view S (nth r Sha256.sha256_roles [])) (ki, w).
Proof.
  intros [Hlen HS] Hr Hw Hi. pose proof (word_ok _ _ _ ctx Hi Hw) as Ew.
  destruct S as [|S0 [|S1 [|S2 [|S3 [|S4 [|S5 [|S6 [|S7 [|? ?]]]]]]]]]; try discriminate Hlen. clear Hlen.
  assert (Hall : forall x, In x [S0; S1; S2; S3; S4; S5; S6; S7] -> word32 x) by (by apply List.Forall_forall).
  do 8 (destruct r as [|r]; [round_case Ew Hall|]). lia.
Qed.
Lemma mod_next i m : 0 <= i -> (0 < m)%nat -> Z.to_nat ((i + 1) mod Z.of_nat m) = ((Z.to_nat (i mod Z.of_nat m) + 1) mod m)%nat.
Proof.
  intros Hi Hm. rewrite !Z2Nat.inj_mod, Nat2Z.id by lia. rewrite Nat.Div0.add_mod_idemp_l by lia. f_equal. lia.
Qed.
Lemma roles256_ok i ctx : 0 <= i -> lift OutOfBounds (idx Sha256.sha256_roles (i mod 8)) ctx = Ok (nth (Z.to_nat (i mod 8)) Sha256.sha256_roles []) (ctx : hash_ctx).
Proof.
  intros Hi. pose proof (Z.mod_pos_bound i 8 ltac:(lia)) as Hm. generalize dependent (i mod 8). intros r Hm.
  assert (H : r = 0 \/ r = 1 \/ r = 2 \/ r = 3 \/ r = 4 \/ r = 5 \/ r = 6 \/ r = 7) by lia.
  by destruct H as [-> |[-> |[-> |[-> |[-> |[-> |[-> | ->]]]]]]].
Qed.
(** the calls of the code take the constants in their order *)
Lemma calls_ok i ki : 0 <= i -> K256 !! Z.to_nat i = Some ki -> idx Sha256.sha256_calls i = Some (i, ki).
Proof.
  intros Hi Hk. assert (E : Sha256.sha256_calls = zip (seqZ 0 64) K256) by (vm_compute; reflexivity). rewrite E. apply idx_to_nat; [done|].
  apply lookup_zip_with_Some. exists i, ki. split; [done|]. split; [|done]. apply lookup_lt_Some in Hk. change (length K256) with 64%nat in Hk.
  apply lookup_seqZ. lia.
Qed.
Lemma rounds256_ok W n : forall i S ctx, registers 8 S -> 0 <= i -> i + Z.of_nat n <= 64 -> length W = 64%nat ->
  exists S', fold_i n i (Sha256.sha256_round W) S ctx = Ok S' ctx /\ registers 8 S' /\
    view S' (nth (Z.to_nat ((i + Z.of_nat n) mod 8)) Sha256.sha256_roles []) =
    fold_left round256 (take n (drop (Z.to_nat i) (zip K256 W))) (view S (nth (Z.to_nat (i mod 8)) Sha256.sha256_roles [])).
Proof.
  induction n as [|n IH]; intros i S ctx HS Hi Hn HW; cbn [fold_i].
  { exists S. split; [done|]. split; [done|]. by rewrite Z.add_0_r. }
  destruct (lookup_lt_is_Some_2 W (Z.to_nat i)) as [w Hw]; [lia|]. destruct (lookup_lt_is_Some_2 K256 (Z.to_nat i)) as [ki Hk]; [change (length K256) with 64%nat; lia|].
  pose proof (Z.mod_pos_bound i 8 ltac:(lia)) as Hm.
  destruct (RND_ok W S (Z.to_nat (i mod 8)) ki w i ctx HS ltac:(lia) Hw Hi) as (S1 & E1 & HS1 & Hv1).
  assert (Er : Sha256.sha256_round W i S ctx = Ok S1 ctx).
  { unfold Sha256.sha256_round. rewrite (bind_ok _ _ _ _ _ (roles256_ok i ctx Hi)). rewrite (calls_ok i ki Hi Hk). exact E1. }
  rewrite (bind_ok _ _ _ _ _ Er). destruct (IH (i + 1) S1 ctx HS1 ltac:(lia) ltac:(lia) HW) as (S2 & E2 & HS2 & Hv2). exists S2.
  split; [done|]. split; [done|]. replace (i + Z.of_nat (Datatypes.S n)) with (i + 1 + Z.of_nat n) by lia. rewrite Hv2.
  rewrite (mod_next i 8 Hi ltac:(lia) : Z.to_nat ((i + 1) mod 8) = ((Z.to_nat (i mod 8) + 1) mod 8)%nat), Hv1.
  assert (Hz : zip K256 W !! Z.to_nat i = Some (ki, w)) by (apply lookup_zip_with_Some; by exists ki, w).
  rewrite (drop_S _ _ _ Hz). cbn [firstn fold_left]. by replace (Z.to_nat (i + 1)) with (Datatypes.S (Z.to_nat i)) by lia.
Qed.
Lemma view_all S : length S = 8%nat -> view S (nth 0 Sha256.sha256_roles []) = S.
Proof. intros H. by destruct S as [|S0 [|S1 [|S2 [|S3 [|S4 [|S5 [|S6 [|S7 [|? ?]]]]]]]]]. Qed.
Lemma add_state_words H S : map (fun p => u32 (p.1 + p.2)) (zip H S) = map (fun p => add32 [p.1; p.2]) (zip H S).
Proof. apply map_ext. intros [a b]. unfold u32, add32. cbn [fold_right fst snd]. f_equal. lia. Qed.
Lemma registers_add n H S : registers n H -> length S = n -> registers n (map (fun p => add32 [p.1; p.2]) (zip H S)).
Proof.
  intros [Hl _] Hs. split; [rewrite length_map, length_zip_with; lia|]. apply List.Forall_map, List.Forall_forall. intros p _. apply add32_range.
Qed.
Lemma transform256 block ctx : registers 8 (ctx_state ctx) -> zlen block = 64 -> Forall byte block ->
  Sha256.blk_SHA256_Transform block ctx = Ok tt (mkCtx (compress256 (ctx_state ctx) block) (ctx_size ctx) (ctx_buf ctx)) /\
  registers 8 (compress256 (ctx_state ctx) block).
Proof.
  intros HS Hl Hb. unfold Sha256.blk_SHA256_Transform. unfold bind at 1, get at 1. rewrite (bind_ok _ _ _ _ _ (load_words_ok block ctx Hl Hb)).
  rewrite (bind_ok _ _ _ _ _ (fill_ok block ctx Hl Hb)).
  destruct (rounds256_ok (schedule 48 next256 block) 64 0 (ctx_state ctx) ctx HS) as (S & E & [HS1 _] & Hv); [lia|lia|by apply schedule_length|].
  rewrite (bind_ok _ _ _ _ _ E). change (Z.to_nat ((0 + Z.of_nat 64) mod 8)) with 0%nat in Hv. change (Z.to_nat (0 mod 8)) with 0%nat in Hv.
  rewrite !view_all in Hv by (done || apply HS). cbn [Z.to_nat] in Hv. rewrite drop_0, take_ge in Hv.
  2:{ rewrite length_zip_with, schedule_length by done. change (length K256) with 64%nat. lia. }
  unfold add_state, modify, compress256. rewrite <- Hv. split; [by rewrite add_state_words|by apply registers_add].
Qed.

(** ** SHA-1 *)
Lemma schedule_at block n next t : zlen block = 64 -> (16 <= t < 16 + n)%nat ->
  schedule n next block !! t = Some (next (take t (schedule n next block))).
Proof.
  intros Hl Ht. pose proof (schedule_prefix block Hl n next (t - 15) ltac:(lia)) as H1. pose proof (schedule_prefix block Hl n next (t - 16) ltac:(lia)) as H2.
  replace (16 + (t - 15))%nat with (S t) in H1 by lia. replace (16 + (t - 16))%nat with t in H2 by lia. rewrite H2.
  rewrite <- (lookup_take_lt _ (S t)) by lia. rewrite H1. replace (t - 15)%nat with (S (t - 16)) by lia. rewrite schedule_step.
  rewrite lookup_app_r; rewrite schedule_length by done; [|lia]. by replace (t - (16 + (t - 16)))%nat with 0%nat by lia.
Qed.
(** the array holds the last 16 words that were made *)
Definition rolled (full array : list Z) (t : nat) : Prop :=
  length array = 16%nat /\ forall j, (j < t)%nat -> (t <= j + 16)%nat -> array !! (j mod 16)%nat = full !! j.
Lemma rolled_store full array t w : rolled full array t -> full !! t = Some w -> rolled full (<[(t mod 16)%nat := w]> array) (S t).
Proof.
  intros [Hl Ha] Hw. split; [by rewrite length_insert|]. intros j Hj Hj16. destruct (decide (j = t)) as [->|Hne].
  - rewrite list_lookup_insert_eq; [done|]. rewrite Hl. apply Nat.mod_upper_bound. lia.
  - rewrite list_lookup_insert_ne; [apply Ha; lia|]. intros Heq.
    pose proof (Nat.div_mod t 16 ltac:(lia)). pose proof (Nat.div_mod j 16 ltac:(lia)). lia.
Qed.
Lemma land_15 t : 0 <= t -> Z.to_nat (Z.land t 15) = (Z.to_nat t mod 16)%nat.
Proof. intros Ht. change 15 with (Z.ones 4). rewrite Z.land_ones, Z2Nat.inj_mod by lia. done. Qed.
Lemma W_ok full array t k x ctx : rolled full array t -> (0 < k <= 16)%nat -> (k <= t)%nat -> full !! (t - k)%nat = Some x ->
  Sha1.W array (Z.of_nat (t + 16 - k)) ctx = Ok x ctx.
Proof.
  intros [Hl Ha] Hk Ht Hx. unfold Sha1.W. apply word_ok; [apply Z.land_nonneg; lia|]. rewrite land_15, Nat2Z.id by lia.
  replace (t + 16 - k)%nat with (t - k + 1 * 16)%nat by lia. rewrite Nat.Div0.mod_add. rewrite Ha by lia. done.
Qed.
Section block1.
Context (block : list Z) (Hlen : zlen block = 64) (Hbytes : Forall byte block).
#[local] Abbreviation full := (schedule 64 next1 block) (only parsing).
Lemma next1_range ws : Forall word32 ws -> (16 <= length ws)%nat -> word32 (next1 ws).
Proof.
  intros Hw Hl. unfold next1, ROTL. apply ROTR_range; [|lia]. unfold word32. repeat (apply (lxor_range 32); [lia|apply back_range; [lia|done]|]).
  apply back_range; [lia|done].
Qed.
Lemma full_length : length full = 80%nat.
Proof. by rewrite schedule_length. Qed.
Lemma full_range : Forall word32 full.
Proof.
  generalize 64%nat. intros n. induction n as [|n IH]; [by apply words_range|]. rewrite schedule_step. apply Forall_app. split; [done|].
  constructor; [|done]. apply next1_range; [done|]. rewrite schedule_length by done. lia.
Qed.
Lemma full_back t k : (t <= 80)%nat -> (0 < k <= t)%nat -> full !! (t - k)%nat = Some (ago (take t full) k).
Proof.
  intros Ht Hk. pose proof full_length as Hl. rewrite <- (lookup_take_lt _ t) by lia.
  replace (t - k)%nat with (length (take t full) - k)%nat by (rewrite length_take; lia). apply back_lookup. rewrite length_take. lia.
Qed.
Lemma SHA_SRC_ok array t w ctx : (t < 16)%nat -> full !! t = Some w -> Sha1.SHA_SRC block array (Z.of_nat t) ctx = Ok w ctx.
Proof.
  intros Ht Hw. unfold Sha1.SHA_SRC. rewrite Z.mul_comm. destruct (get_be32_ok block Hlen Hbytes (Z.of_nat t) ctx ltac:(lia)) as (w' & -> & Hw' & _).
  rewrite Nat2Z.id in Hw'. pose proof (schedule_prefix block Hlen 64 next1 0 ltac:(lia)) as Hp. rewrite <- (lookup_take_lt _ (16 + 0)), Hp in Hw by lia.
  change (schedule 0 next1 block) with (words block) in Hw. congruence.
Qed.
Lemma SHA_MIX_ok array t w ctx : rolled full array t -> (16 <= t < 80)%nat -> full !! t = Some w -> Sha1.SHA_MIX array (Z.of_nat t) ctx = Ok w ctx.
Proof.
  intros Hr Ht Hw. rewrite schedule_at in Hw by (done || lia). apply (inj Some) in Hw. rewrite <- Hw. clear w Hw. unfold Sha1.SHA_MIX.
  assert (Hb : forall k, (0 < k <= 16)%nat -> Sha1.W array (Z.of_nat (t + 16 - k)) ctx = Ok (ago (take t full) k) ctx).
  { intros k Hk. apply (W_ok full array t k); [done|lia|lia|]. apply full_back; lia. }
  replace (Z.of_nat t + 13) with (Z.of_nat (t + 16 - 3)) by lia. replace (Z.of_nat t + 8) with (Z.of_nat (t + 16 - 8)) by lia.
  replace (Z.of_nat t + 2) with (Z.of_nat (t + 16 - 14)) by lia. rewrite (bind_ok _ _ _ _ _ (Hb 3%nat ltac:(lia))), (bind_ok _ _ _ _ _ (Hb 8%nat ltac:(lia))),
    (bind_ok _ _ _ _ _ (Hb 14%nat ltac:(lia))).
  assert (H16 : Sha1.W array (Z.of_nat t) ctx = Ok (ago (take t full) 16) ctx) by (rewrite <- (Hb 16%nat ltac:(lia)); do 2 f_equal; lia).
  rewrite (bind_ok _ _ _ _ _ H16). unfold ret. f_equal. assert (Hws : Forall word32 (take t full)) by (apply Forall_take, full_range). pose proof full_length as Hl.
  assert (Hlt : length (take t full) = t) by (rewrite length_take; lia).
  rewrite SHA_ROL_ok; [unfold next1; by rewrite !Z.lxor_assoc| |lia]. unfold word32.
  repeat (apply (lxor_range 32); [lia| |apply back_range; [lia|done]]). apply back_range; [lia|done].
Qed.
End block1.
Lemma round1_code (fn : Z -> Z -> Z -> Z) a b c d e constant w : word32 a -> word32 b ->
  [add32 [ROTL 5 a; fn b c d; e; constant; w]; a; ROTL 30 b; c; d] = [u32 (e + (w + Sha1.SHA_ROL a 5 + fn b c d + constant)); a; Sha1.SHA_ROR b 2; c; d].
Proof.
  intros Ha Hb. rewrite SHA_ROR_ok, SHA_ROL_ok by (done || lia). do 2 f_equal. unfold add32, u32. cbn [fold_right]. f_equal. lia.
Qed.
(** one kind of call of the macro *)
Ltac round1_case Ein Eset Hall :=
  eexists; split; [unfold Sha1.SHA_ROUND; cbn [nth Sha1.sha1_roles];
    rewrite (bind_ok _ _ _ _ _ Ein), (bind_ok _ _ _ _ _ Eset); do 5 (erewrite bind_ok; [|apply word_ok; [lia|reflexivity]]);
    erewrite bind_ok; [|reflexivity]; erewrite bind_ok; [|reflexivity]; reflexivity|];
  split; [split; [reflexivity|repeat (apply List.Forall_cons; [first [apply u32_range|rewrite SHA_ROR_ok by (apply Hall; cbn; tauto); apply ROTR_range; [apply Hall; cbn; tauto|lia]|apply Hall; cbn; tauto]|]);
    apply List.Forall_nil]|];
  unfold view; cbn [nth Sha1.sha1_roles map]; change (0 + 1)%nat with 1%nat; symmetry; apply round1_code; apply Hall; cbn; tauto.
Lemma SHA_ROUND_ok t input fn constant r array w R ctx : registers 5 R -> (r < 5)%nat -> input array t ctx = Ok w ctx -> length array = 16%nat -> 0 <= t ->
  exists R', Sha1.SHA_ROUND t input fn constant (nth r Sha1.sha1_roles []) (array, R) ctx = Ok (<[(Z.to_nat t mod 16)%nat := w]> array, R') ctx /\ registers 5 R' /\
    view R' (nth ((r + 1) mod 5) Sha1.sha1_roles []) =
    match view R (nth r Sha1.sha1_roles []) with [a; b; c; d; e] => [add32 [ROTL 5 a; fn b c d; e; constant; w]; a; ROTL 30 b; c; d] | _ => [] end.
Proof.
  intros [Hlen HR] Hr Ein Ha Ht. destruct R as [|R0 [|R1 [|R2 [|R3 [|R4 [|? ?]]]]]]; try discriminate Hlen. clear Hlen.
  assert (Hall : forall x, In x [R0; R1; R2; R3; R4] -> word32 x) by (by apply List.Forall_forall).
  assert (Eset : Sha1.setW array t w ctx = Ok (<[(Z.to_nat t mod 16)%nat := w]> array) ctx).
  { unfold Sha1.setW, set_word. rewrite upd_lt; [by rewrite land_15|]. change 15 with (Z.ones 4). rewrite Z.land_ones by lia. pose proof (Z.mod_pos_bound t (2 ^ 4) ltac:(lia)).
    unfold zlen. rewrite Ha. lia. }
  do 5 (destruct r as [|r]; [round1_case Ein Eset Hall|]). lia.
Qed.
Lemma roles1_ok i ctx : 0 <= i -> lift OutOfBounds (idx Sha1.sha1_roles (i mod 5)) ctx = Ok (nth (Z.to_nat (i mod 5)) Sha1.sha1_roles []) (ctx : hash_ctx).
Proof.
  intros Hi. pose proof (Z.mod_pos_bound i 5 ltac:(lia)) as Hm. generalize dependent (i mod 5). intros r Hm.
  assert (H : r = 0 \/ r = 1 \/ r = 2 \/ r = 3 \/ r = 4) by lia. by destruct H as [-> |[-> |[-> |[-> | ->]]]].
Qed.
Section rounds1.
Context (block : list Z) (Hlen : zlen block = 64) (Hbytes : Forall byte block).
#[local] Abbreviation full := (schedule 64 next1 block) (only parsing).
Lemma round1_ok t array R w ctx : registers 5 R -> rolled full array t -> (t < 80)%nat -> full !! t = Some w ->
  exists array' R', Sha1.sha1_round block (Z.of_nat t) (array, R) ctx = Ok (array', R') ctx /\ registers 5 R' /\ rolled full array' (S t) /\
    view R' (nth (Z.to_nat (Z.of_nat (S t) mod 5)) Sha1.sha1_roles []) = round1 (view R (nth (Z.to_nat (Z.of_nat t mod 5)) Sha1.sha1_roles [])) (t, w).
Proof.
  intros HR Hroll Ht Hw. unfold Sha1.sha1_round. rewrite (bind_ok _ _ _ _ _ (roles1_ok (Z.of_nat t) ctx ltac:(lia))).
  pose proof (Z.mod_pos_bound (Z.of_nat t) 5 ltac:(lia)) as Hm. set (r := Z.to_nat (Z.of_nat t mod 5)) in *.
  assert (Hnext : Z.to_nat (Z.of_nat (S t) mod 5) = ((r + 1) mod 5)%nat) by (replace (Z.of_nat (S t)) with (Z.of_nat t + 1) by lia; exact (mod_next (Z.of_nat t) 5 ltac:(lia) ltac:(lia))).
  assert (Hrun : forall input (fn : Z -> Z -> Z -> Z) constant, input array (Z.of_nat t) ctx = Ok w ctx -> (forall x y z, fn x y z = f1 t x y z) -> constant = K1 t ->
    exists array' R', Sha1.SHA_ROUND (Z.of_nat t) input fn constant (nth r Sha1.sha1_roles []) (array, R) ctx = Ok (array', R') ctx /\ registers 5 R' /\ rolled full array' (S t) /\
      view R' (nth (Z.to_nat (Z.of_nat (S t) mod 5)) Sha1.sha1_roles []) = round1 (view R (nth r Sha1.sha1_roles [])) (t, w)).
  { intros input fn constant Ein Hfn ->. destruct (SHA_ROUND_ok (Z.of_nat t) input fn (K1 t) r array w R ctx HR ltac:(lia) Ein (proj1 Hroll) ltac:(lia)) as (R' & E & HR' & Hv).
    exists (<[(t mod 16)%nat := w]> array), R'. rewrite Nat2Z.id in E. split; [done|]. split; [done|]. split; [by apply rolled_store|]. rewrite Hnext, Hv. unfold round1. cbn [fst snd].
    destruct (view R (nth r Sha1.sha1_roles [])) as [|a [|b [|c [|d [|e [|? ?]]]]]]; [done..| |done]. by rewrite Hfn. }
  assert (Hsrc : (t < 16)%nat -> Sha1.SHA_SRC block array (Z.of_nat t) ctx = Ok w ctx) by (intros Hlt; by apply SHA_SRC_ok).
  assert (Hmix : (16 <= t)%nat -> Sha1.SHA_MIX array (Z.of_nat t) ctx = Ok w ctx) by (intros Hge; apply (SHA_MIX_ok block); [done|done|done|lia|done]).
  assert (Hf : (forall x y z, (t < 20)%nat -> Sha1.F1 x y z = f1 t x y z) /\ (forall x y z, (20 <= t < 40 \/ 60 <= t)%nat -> Sha1.F2 x y z = f1 t x y z) /\
    (forall x y z, (40 <= t < 60)%nat -> Sha1.F3 x y z = f1 t x y z)).
  { unfold f1. split; [|split]; intros x y z Hr; [rewrite F1_ok|rewrite F2_ok|rewrite F3_ok]; destruct (Nat.ltb_spec t 20), (Nat.ltb_spec t 40), (Nat.ltb_spec t 60); try done; lia. }
  destruct Hf as (Hf1 & Hf2 & Hf3).
  destruct (Z.ltb_spec (Z.of_nat t) 16); [|destruct (Z.ltb_spec (Z.of_nat t) 20); [|destruct (Z.ltb_spec (Z.of_nat t) 40); [|destruct (Z.ltb_spec (Z.of_nat t) 60)]]];
    (apply Hrun; [(apply Hsrc; lia) || (apply Hmix; lia)|intros x y z; (apply Hf1; lia) || (apply Hf2; lia) || (apply Hf3; lia)|]);
    unfold K1; destruct (Nat.ltb_spec t 20), (Nat.ltb_spec t 40), (Nat.ltb_spec t 60); try done; lia.
Qed.
Lemma rounds1_ok n : forall t array R ctx, registers 5 R -> rolled full array t -> (t + n <= 80)%nat ->
  exists array' R', fold_i n (Z.of_nat t) (Sha1.sha1_round block) (array, R) ctx = Ok (array', R') ctx /\ registers 5 R' /\
    view R' (nth (Z.to_nat (Z.of_nat (t + n) mod 5)) Sha1.sha1_roles []) =
    fold_left round1 (take n (drop t (zip (seq 0 80) full))) (view R (nth (Z.to_nat (Z.of_nat t mod 5)) Sha1.sha1_roles [])).
Proof.
  induction n as [|n IH]; intros t array R ctx HR Hroll Hn; cbn [fold_i].
  { exists array, R. split; [done|]. split; [done|]. by rewrite Nat.add_0_r. }
  destruct (lookup_lt_is_Some_2 full t) as [w Hw]; [rewrite (schedule_length block Hlen); lia|].
  destruct (round1_ok t array R w ctx HR Hroll ltac:(lia) Hw) as (array1 & R1 & E1 & HR1 & Hroll1 & Hv1). rewrite (bind_ok _ _ _ _ _ E1).
  destruct (IH (S t) array1 R1 ctx HR1 Hroll1 ltac:(lia)) as (array2 & R2 & E2 & HR2 & Hv2). exists array2, R2.
  replace (Z.of_nat t + 1) with (Z.of_nat (S t)) by lia. split; [done|]. split; [done|]. replace (t + S n)%nat with (S t + n)%nat by lia. rewrite Hv2, Hv1.
  assert (Hz : zip (seq 0 80) full !! t = Some (t, w)) by (apply lookup_zip_with_Some; exists t, w; split; [done|]; split; [rewrite lookup_seq_lt by lia; done|done]).
  by rewrite (drop_S _ _ _ Hz).
Qed.
Lemma view1_all R : length R = 5%nat -> view R (nth 0 Sha1.sha1_roles []) = R.
Proof. intros H. by destruct R as [|R0 [|R1 [|R2 [|R3 [|R4 [|? ?]]]]]]. Qed.
Lemma block1_ok array ctx : length array = 16%nat -> registers 5 (ctx_state ctx) ->
  Sha1.blk_SHA1_Block array block ctx = Ok tt (mkCtx (compress1 (ctx_state ctx) block) (ctx_size ctx) (ctx_buf ctx)) /\
  registers 5 (compress1 (ctx_state ctx) block).
Proof.
  intros Ha HS. unfold Sha1.blk_SHA1_Block. unfold bind at 1, get at 1.
  destruct (rounds1_ok 80 0 array (ctx_state ctx) ctx HS) as (array' & R & E & [HR _] & Hv); [split; [done|lia]|lia|].
  change (Z.of_nat 0) with 0 in E. rewrite (bind_ok _ _ _ _ _ E). change (Z.to_nat (Z.of_nat (0 + 80) mod 5)) with 0%nat in Hv.
  change (Z.to_nat (Z.of_nat 0 mod 5)) with 0%nat in Hv. rewrite !view1_all in Hv by (done || apply HS). rewrite drop_0, take_ge in Hv.
  2:{ rewrite length_zip_with, schedule_length, length_seq by done. lia. }
  unfold add_state, modify, compress1. rewrite <- Hv. split; [by rewrite add_state_words|by apply registers_add].
Qed.
End rounds1.
