(* ===== verification/GitHashProps.v ===== *)
(** * git: theorems about the hash functions

    A message may come in any pieces: the context always holds the chaining
    value of the blocks that are complete and the rest of the message, so that
    the digest is that of the standard for the whole message. *)
From S2P Require Import Prelude GitBase GitHash GitHashBlock.

(** ** Blocks *)
Definition blocks_of (bs : list (list Z)) : Prop := Forall (fun b => zlen b = 64 /\ Forall byte b) bs.
Lemma blocks_size bs : blocks_of bs -> zlen (concat bs) = 64 * zlen bs.
Proof.
  induction 1 as [|b bs [Hb _] _ IH]; [done|]. cbn [concat]. rewrite zlen_app, zlen_cons. lia.
Qed.
Lemma chunks_blocks bs : blocks_of bs -> forall fuel, (length (concat bs) <= fuel)%nat -> chunks fuel 64 (concat bs) = bs.
Proof.
  induction 1 as [|b bs [Hb _] _ IH]; intros fuel Hf; [by destruct fuel|]. cbn [concat] in *. unfold zlen in Hb.
  destruct fuel as [|fuel]; [rewrite length_app in Hf; lia|]. 
  assert (E : chunks (S fuel) 64 (b ++ concat bs) = take 64 (b ++ concat bs) :: chunks fuel 64 (drop 64 (b ++ concat bs))) by (destruct b; [simpl in Hb; lia|done]).
  assert (Ht : take 64 (b ++ concat bs) = b) by (replace 64%nat with (length b) by lia; apply take_app_length).
  assert (Hd : drop 64 (b ++ concat bs) = concat bs) by (replace 64%nat with (length b) by lia; apply drop_app_length).
  rewrite E, Ht, Hd. f_equal. apply IH. rewrite length_app in Hf. lia.
Qed.

Section message.
Context (block : list Z -> CP unit) (compress : list Z -> list Z -> list Z) (H0 : list Z) (n : nat).
Context (Hblock : forall b ctx, registers n (ctx_state ctx) -> zlen b = 64 -> Forall byte b ->
  block b ctx = Ok tt (mkCtx (compress (ctx_state ctx) b) (ctx_size ctx) (ctx_buf ctx)) /\ registers n (compress (ctx_state ctx) b)).
Context (Hinit : registers n H0).

(** the context after the message [m] *)
Record hashing (m : list Z) (ctx : hash_ctx) : Prop := mkHashing {
  hs_parts : exists bs rest, m = concat bs ++ rest /\ blocks_of bs /\ zlen rest < 64 /\ Forall byte rest /\
    ctx_state ctx = fold_left compress bs H0 /\ take (length rest) (ctx_buf ctx) = rest;
  hs_size : ctx_size ctx = u64 (zlen m);
  hs_buf : zlen (ctx_buf ctx) = 64;
  hs_state : registers n (ctx_state ctx)
}.
Lemma land_63 z : Z.land z 63 = z mod 64.
Proof. change 63 with (Z.ones 6). by rewrite Z.land_ones. Qed.
Lemma u64_mod_64 z : u64 z mod 64 = z mod 64.
Proof.
  unfold u64. rewrite (Z.mod_eq z 18446744073709551616) by lia. generalize (z / 18446744073709551616). intros q.
  replace (z - 18446744073709551616 * q) with (z + (- q * 288230376151711744) * 64) by lia. apply Z_mod_plus_full.
Qed.
Lemma hashing_rest m ctx bs rest : m = concat bs ++ rest -> blocks_of bs -> zlen rest < 64 -> ctx_size ctx = u64 (zlen m) -> Z.land (ctx_size ctx) 63 = zlen rest.
Proof.
  intros -> Hbs Hr ->. rewrite land_63, u64_mod_64, zlen_app, (blocks_size _ Hbs). rewrite Z.add_comm, Z.mul_comm, Z_mod_plus_full. apply Z.mod_small.
  pose proof (zlen_pos rest). lia.
Qed.
(** the loop over complete blocks *)
Lemma wp_blocks size buf : zlen buf = 64 -> forall k bs data ctx fuel, zlen data = k -> k < Z.of_nat fuel -> blocks_of bs -> Forall byte data ->
  ctx = mkCtx (fold_left compress bs H0) size buf -> registers n (ctx_state ctx) ->
  wp (iter fuel (blocks_body block) data) (fun rest ctx' => exists bs', blocks_of (bs ++ bs') /\ data = concat bs' ++ rest /\ zlen rest < 64 /\
    ctx' = mkCtx (fold_left compress (bs ++ bs') H0) size buf /\ registers n (ctx_state ctx')) ctx.
Proof.
  intros Hbuf k. induction k as [k IH] using (well_founded_induction (Z.lt_wf 0)). intros bs data ctx fuel Hk Hf Hbs Hd Hctx Hreg.
  destruct fuel as [|fuel]; [pose proof (zlen_pos data); lia|]. cbn [iter]. unfold blocks_body at 1. wp_step. destruct (Z.leb_spec 64 (zlen data)) as [Hge|Hlt].
  - assert (Hz : zlen (take 64 data) = 64) by (unfold zlen in *; rewrite length_take; lia).
    assert (Hz' : zlen (drop 64 data) = k - 64) by (unfold zlen in *; rewrite length_drop; lia).
    assert (Hb : Forall byte (take 64 data)) by (by apply Forall_take). destruct (Hblock (take 64 data) ctx Hreg Hz Hb) as [E Hreg'].
    wp_step. apply (wpe_ok _ _ _ _ _ _ E). wp_step.
    assert (Hbs' : blocks_of (bs ++ [take 64 data])) by (apply Forall_app; split; [done|by repeat constructor]).
    eapply wpe_mono; [apply (IH (k - 64) ltac:(lia) (bs ++ [take 64 data]) (drop 64 data)); [done|lia|done|by apply Forall_drop| |done]|].
    + rewrite Hctx. cbn [ctx_state ctx_size ctx_buf]. by rewrite fold_left_app.
    + intros rest ctx' (bs' & H1 & H2 & H3 & H4 & H5). exists (take 64 data :: bs'). rewrite <- app_assoc in H1, H4. split; [done|].
      split; [cbn [concat]; by rewrite <- app_assoc, <- H2, take_drop|]. by split.
  - do 2 wp_step. exists []. rewrite app_nil_r. by split.
Qed.
(** the data behind complete blocks *)
Lemma wp_blocks_rest m size buf bs data ctx : zlen buf = 64 -> blocks_of bs -> Forall byte data -> ctx = mkCtx (fold_left compress bs H0) size buf ->
  registers n (ctx_state ctx) -> m = concat bs ++ data -> size = u64 (zlen m) ->
  wp (data <- iter (S (length data)) (blocks_body block) data ;;
      if negb (zlen data =? 0) then
        ctx <- get ;;
        buf <- memcpy (ctx_buf ctx) 0 data ;;
        modify (fun ctx => mkCtx (ctx_state ctx) (ctx_size ctx) buf)
      else ret tt) (fun _ => hashing m) ctx.
Proof.
  intros Hbuf Hbs Hd Hctx Hreg Hm Hsize. wp_step. eapply wpe_mono; [apply (wp_blocks size buf Hbuf (zlen data) bs data ctx); [done|unfold zlen; lia|done..]|].
  intros rest ctx' (bs' & Hbs' & Hdata & Hrest & -> & Hreg'). cbn [ctx_state] in Hreg'.
  assert (Hb : Forall byte rest) by (rewrite Hdata in Hd; by apply Forall_app in Hd as [_ Hd]).
  assert (Hm' : m = concat (bs ++ bs') ++ rest) by (by rewrite concat_app, <- app_assoc, <- Hdata).
  destruct (Z.eqb_spec (zlen rest) 0) as [Hz|Hz]; cbn [negb].
  - wp_step. split; cbn [ctx_state ctx_size ctx_buf]; [|done|done|done]. exists (bs ++ bs'), rest. assert (rest = []) as -> by (apply length_zero_iff_nil; unfold zlen in Hz; lia). by repeat split.
  - wp_step. wp_step. wp_step. cbn [ctx_buf]. pose proof (zlen_pos rest). eapply wpe_ok; [apply memcpy_ok; lia|]. wp_step.
    split; cbn [ctx_state ctx_size ctx_buf]; [|done| |done].
    + exists (bs ++ bs'), rest. do 5 (split; [done|]). change (Z.to_nat 0) with 0%nat. replace (length rest) with (0 + length rest)%nat by lia.
      rewrite splice_full by lia. done.
    + unfold zlen in *. rewrite length_splice; [done|]. change (Z.to_nat 0) with 0%nat. lia.
Qed.
Lemma wp_update m data ctx : hashing m ctx -> Forall byte data -> wp (hash_update block data) (fun _ => hashing (m ++ data)) ctx.
Proof.
  intros [(bs & rest & Hm & Hbs & Hr & Hrb & Hst & Hbuf) Hsize Hblen Hreg] Hd. pose proof (hashing_rest m ctx bs rest Hm Hbs Hr Hsize) as Hlen.
  unfold hash_update. wp_step. wp_step. cbv zeta. rewrite Hlen. wp_step. wp_step. cbv beta.
  assert (Hsize' : u64 (ctx_size ctx + zlen data) = u64 (zlen (m ++ data))).
  { rewrite Hsize, zlen_app. unfold u64. by rewrite Zplus_mod_idemp_l. }
  pose proof (zlen_pos rest). pose proof (zlen_pos data).
  destruct (Z.eqb_spec (zlen rest) 0) as [Hz|Hz]; cbn [negb].
  { assert (rest = []) as -> by (apply length_zero_iff_nil; unfold zlen in Hz; lia). rewrite app_nil_r in Hm.
    eapply (wp_blocks_rest (m ++ data) _ (ctx_buf ctx) bs data); [done|done|done| |done| |]; [by rewrite Hst|by rewrite Hm|done]. }
  set (left := if zlen data <? 64 - zlen rest then zlen data else 64 - zlen rest).
  assert (Hleft : left = Z.min (zlen data) (64 - zlen rest)) by (unfold left; destruct (Z.ltb_spec (zlen data) (64 - zlen rest)); lia). clearbody left.
  set (now := take (Z.to_nat left) data). assert (Hnow : zlen now = left) by (unfold now, zlen in *; rewrite length_take; lia).
  wp_step. wp_step. wp_step. cbn [ctx_buf]. eapply wpe_ok; [apply memcpy_ok; lia|]. wp_step. wp_step.
  set (buf := splice (Z.to_nat (zlen rest)) now (ctx_buf ctx)). rewrite land_63.
  assert (Hbl : zlen buf = 64) by (unfold buf, zlen in *; rewrite length_splice; lia).
  assert (Hbuf' : take (length rest + length now) buf = rest ++ now).
  { unfold buf, zlen. rewrite Nat2Z.id, splice_full by (unfold zlen in *; lia). by rewrite Hbuf. }
  assert (Hnb : Forall byte now) by (by apply Forall_take).
  destruct (Z.eqb_spec ((zlen rest + left) mod 64) 0) as [Hfull|Hpart]; cbn [negb].
  - assert (Hsum : zlen rest + left = 64).
    { destruct (Z.lt_ge_cases (zlen rest + left) 64); [|lia]. rewrite Z.mod_small in Hfull by lia. lia. }
    assert (Eb : buf = rest ++ now) by (rewrite <- Hbuf', take_ge; [done|unfold zlen in *; lia]).
    assert (Hb : Forall byte buf) by (rewrite Eb; by apply Forall_app).
    match goal with |- wpe _ (_ ;; _) _ ?c => destruct (Hblock buf c Hreg Hbl Hb) as [E Hreg'] end. wp_step. apply (wpe_ok _ _ _ _ _ _ E). cbn [ctx_state ctx_size ctx_buf] in *.
    eapply (wp_blocks_rest (m ++ data) _ buf (bs ++ [buf]) (drop (Z.to_nat left) data)); [done|apply Forall_app; split; [done|by repeat constructor]|by apply Forall_drop| |done| |done].
    + rewrite fold_left_app, Hst. done.
    + rewrite Hm, concat_app. cbn [concat]. rewrite app_nil_r, Eb. unfold now. by rewrite <- !app_assoc, take_drop.
  - wp_step. assert (Hlt : zlen rest + left < 64) by (destruct (Z.eq_dec (zlen rest + left) 64) as [E|]; [rewrite E in Hpart; done|lia]).
    assert (En : now = data) by (unfold now; apply take_ge; unfold zlen in *; lia).
    split; cbn [ctx_state ctx_size ctx_buf]; [|done|done|done]. exists bs, (rest ++ now). rewrite zlen_app, length_app.
    split; [by rewrite Hm, En, app_assoc|]. split; [done|]. split; [lia|]. split; [by apply Forall_app|]. by split.
Qed.

(** ** The end of a message *)
Lemma to_be_app k l x : to_be (k + l) x = to_be k (x / 256 ^ Z.of_nat l) ++ to_be l x.
Proof.
  revert x. induction l as [|l IH]; intros x; [by rewrite Nat.add_0_r, Z.div_1_r, app_nil_r|]. rewrite Nat.add_succ_r. cbn [to_be]. rewrite IH, <- app_assoc.
  do 2 f_equal. rewrite Z.div_div by lia. f_equal. rewrite Nat2Z.inj_succ, Z.pow_succ_r by lia. done.
Qed.
Lemma to_be_mod k x : to_be k (x mod 256 ^ Z.of_nat k) = to_be k x.
Proof.
  revert x. induction k as [|k IH]; intros x; [done|]. cbn [to_be]. rewrite Nat2Z.inj_succ, Z.pow_succ_r by lia. rewrite <- (IH (x / 256)).
  pose proof (Z.pow_pos_nonneg 256 (Z.of_nat k) ltac:(lia) ltac:(lia)). rewrite Z.rem_mul_r by lia. f_equal; [f_equal|f_equal].
  - rewrite (Z.mul_comm 256), Z_div_plus_full by lia. rewrite Z.div_small by (apply Z.mod_pos_bound; lia). done.
  - rewrite (Z.mul_comm 256), Z_mod_plus_full by lia. by rewrite Z.mod_mod by lia.
Qed.
Lemma length_words z : put_be32 (u32 (Z.shiftr z 29)) ++ put_be32 (u32 (Z.shiftl z 3)) = to_be 8 (8 * z).
Proof.
  rewrite !put_be32_ok. unfold u32. change 4294967296 with (256 ^ Z.of_nat 4). rewrite !to_be_mod. rewrite (to_be_app 4 4 (8 * z) : to_be 8 (8 * z) = _).
  rewrite Z.shiftr_div_pow2, Z.shiftl_mul_pow2 by lia. do 2 f_equal; [|lia]. change (256 ^ Z.of_nat 4) with (8 * 2 ^ 29). by rewrite Z.div_mul_cancel_l by lia.
Qed.
Lemma to_be_bytes k x : Forall byte (to_be k x).
Proof.
  revert x. induction k as [|k IH]; intros x; [constructor|]. cbn [to_be]. apply Forall_app. split; [apply IH|]. constructor; [|done].
  apply Z.mod_pos_bound. lia.
Qed.
Lemma to_be_size k x : zlen (to_be k x) = Z.of_nat k.
Proof. revert x. induction k as [|k IH]; intros x; [done|]. cbn [to_be]. rewrite zlen_app, IH. change (zlen [_]) with 1. lia. Qed.
Lemma padded_size m : zlen (padded m) mod 64 = 0.
Proof.
  unfold padded. rewrite zlen_app, zlen_cons, zlen_app, to_be_size. unfold zlen at 2. rewrite length_replicate.
  pose proof (Z.mod_pos_bound (55 - zlen m) 64 ltac:(lia)) as Hk. rewrite Z2Nat.id by lia. rewrite (Z.mod_eq (55 - zlen m)) by lia.
  replace (zlen m + (1 + (55 - zlen m - 64 * ((55 - zlen m) / 64) + Z.of_nat 8))) with ((1 - (55 - zlen m) / 64) * 64) by lia. apply Z_mod_mult.
Qed.
Lemma padding_data z : take (Z.to_nat (1 + Z.land 63 (55 - z mod 64))) (0x80 :: replicate 63 0) = 0x80 :: replicate (Z.to_nat ((55 - z) mod 64)) 0.
Proof.
  rewrite Z.land_comm, land_63, Zminus_mod_idemp_r. pose proof (Z.mod_pos_bound (55 - z) 64 ltac:(lia)).
  replace (Z.to_nat (1 + (55 - z) mod 64)) with (S (Z.to_nat ((55 - z) mod 64))) by lia. cbn [take]. f_equal. rewrite take_replicate. f_equal. lia.
Qed.
Lemma wp_final m ctx : hashing m ctx -> zlen m < 2 ^ 61 -> wp (hash_final block) (fun d _ => d = digest compress H0 m) ctx.
Proof.
  intros Hm Hlen. pose proof (zlen_pos m). pose proof (hs_size _ _ Hm) as Hsize. rewrite u64_small in Hsize by lia. unfold hash_final. wp_step. wp_step. cbv zeta.
  rewrite Hsize, land_63, padding_data, length_words. wp_step.
  eapply wpe_mono; [apply (wp_update m _ ctx Hm)|].
  { constructor; [unfold byte; lia|]. apply Forall_replicate. unfold byte. lia. }
  cbv beta. intros [] ctx1 H1. wp_step. eapply wpe_mono; [apply (wp_update _ _ ctx1 H1), to_be_bytes|]. cbv beta. intros [] ctx2 H2. wp_step. wp_step. wp_step.
  rewrite <- app_assoc in H2. change (hashing (padded m) ctx2) in H2. destruct H2 as [(bs & rest & Hp & Hbs & Hr & _ & Hst & _) _ _ _].
  assert (rest = []) as ->.
  { pose proof (padded_size m) as Hz. rewrite Hp, zlen_app, (blocks_size _ Hbs), Z.add_comm, Z.mul_comm, Z_mod_plus_full in Hz. pose proof (zlen_pos rest).
    rewrite Z.mod_small in Hz by lia. apply length_zero_iff_nil. unfold zlen in Hz. lia. }
  rewrite app_nil_r in Hp. rewrite Hst. unfold digest. rewrite Hp, (chunks_blocks bs Hbs) by lia. f_equal. apply map_ext, put_be32_ok.
Qed.
Lemma hashing_start size buf : zlen buf = 64 -> size = 0 -> hashing [] (mkCtx H0 size buf).
Proof. intros Hb ->. split; [|done|done|done]. exists [], []. split; [done|]. split; [constructor|]. split; [done|]. split; [constructor|done]. Qed.

(** a message in pieces *)
Fixpoint updates (ds : list (list Z)) : CP unit :=
  match ds with [] => ret tt | d :: ds => hash_update block d ;; updates ds end.
Lemma wp_updates ds : forall m ctx, hashing m ctx -> Forall (Forall byte) ds -> wp (updates ds) (fun _ => hashing (m ++ concat ds)) ctx.
Proof.
  induction ds as [|d ds IH]; intros m ctx Hm Hd; cbn [updates concat]; [wp_step; by rewrite app_nil_r|]. inversion_clear Hd as [|? ? Hd1 Hd2].
  wp_step. eapply wpe_mono; [by apply wp_update|]. cbv beta. intros [] ctx1 H1. rewrite app_assoc. by apply IH.
Qed.
Lemma wp_message ds ctx : Forall (Forall byte) ds -> zlen (concat ds) < 2 ^ 61 -> hashing [] ctx ->
  wp (updates ds ;; hash_final block) (fun d _ => d = digest compress H0 (concat ds)) ctx.
Proof.
  intros Hd Hl Hc. wp_step. eapply wpe_mono; [by apply wp_updates|]. cbv beta. intros [] ctx1 H1. by apply wp_final.
Qed.
End message.

(** ** The theorems *)
Definition sha256_updates : list (list Z) -> CP unit := updates Sha256.blk_SHA256_Transform.
Definition sha1_updates (array : list Z) : list (list Z) -> CP unit := updates (Sha1.blk_SHA1_Block array).

(** C25: SHA-256: whatever pieces a message below 2^61 bytes comes in, and
    whatever the buffer of the context holds before, blk_SHA256_Init(), one
    blk_SHA256_Update() for each piece and blk_SHA256_Final() answer the
    SHA-256 of FIPS 180-4 for the whole message, without an access outside
    the context, the schedule or the data. *)
Theorem sha256_correct ds ctx : Forall (Forall byte) ds -> zlen (concat ds) < 2 ^ 61 -> zlen (ctx_buf ctx) = 64 ->
  exists ctx', (Sha256.blk_SHA256_Init ;; sha256_updates ds ;; Sha256.blk_SHA256_Final) ctx = Ok (SHA256 (concat ds)) ctx'.
Proof.
  intros Hd Hl Hb. assert (Hi : registers 8 IV256) by (split; [done|]; repeat (apply List.Forall_cons; [unfold word32; lia|]); apply List.Forall_nil).
  destruct (wp_elim _ _ _ (wp_message Sha256.blk_SHA256_Transform compress256 IV256 8 (fun b c => transform256 b c) ds (mkCtx IV256 0 (ctx_buf ctx)) Hd Hl
    (hashing_start compress256 IV256 8 Hi 0 (ctx_buf ctx) Hb eq_refl))) as (d & ctx' & E & ->). by exists ctx'.
Qed.
(** C26: SHA-1: the same for blk_SHA1_Init(), blk_SHA1_Update() and
    blk_SHA1_Final(), whatever the array of 16 words holds before. *)
Theorem sha1_correct array ds ctx : length array = 16%nat -> Forall (Forall byte) ds -> zlen (concat ds) < 2 ^ 61 -> zlen (ctx_buf ctx) = 64 ->
  exists ctx', (Sha1.blk_SHA1_Init ;; sha1_updates array ds ;; Sha1.blk_SHA1_Final array) ctx = Ok (SHA1 (concat ds)) ctx'.
Proof.
  intros Ha Hd Hl Hb. assert (Hi : registers 5 IV1) by (split; [done|]; repeat (apply List.Forall_cons; [unfold word32; lia|]); apply List.Forall_nil).
  destruct (wp_elim _ _ _ (wp_message (Sha1.blk_SHA1_Block array) compress1 IV1 5 (fun b c Hr Hl Hb => block1_ok b Hl Hb array c Ha Hr) ds (mkCtx IV1 0 (ctx_buf ctx)) Hd Hl
    (hashing_start compress1 IV1 5 Hi 0 (ctx_buf ctx) Hb eq_refl))) as (d & ctx' & E & ->). by exists ctx'.
Qed.
(** "abc" in two pieces *)
Definition stale_ctx : hash_ctx := mkCtx [] 7 (replicate 64 255).
Lemma sha256_correct_witness : exists ctx d, (Sha256.blk_SHA256_Init ;; sha256_updates [str "a"; str "bc"] ;; Sha256.blk_SHA256_Final) stale_ctx = Ok d ctx /\ be d = 0xba7816bf8f01cfea414140de5dae2223b00361a396177a9cb410ff61f20015ad.
Proof.
  destruct (sha256_correct [str "a"; str "bc"] stale_ctx) as (ctx & E); [repeat (apply List.Forall_cons; [all_bytes|]); apply List.Forall_nil|reflexivity|reflexivity|].
  exists ctx, (SHA256 (concat [str "a"; str "bc"])). split; [exact E|exact SHA256_abc].
Defined.
Lemma sha1_correct_witness : exists ctx d, (Sha1.blk_SHA1_Init ;; sha1_updates (replicate 16 3) [str "a"; str "bc"] ;; Sha1.blk_SHA1_Final (replicate 16 3)) stale_ctx = Ok d ctx /\ be d = 0xa9993e364706816aba3e25717850c26c9cd0d89d.
Proof.
  destruct (sha1_correct (replicate 16 3) [str "a"; str "bc"] stale_ctx) as (ctx & E); [reflexivity|repeat (apply List.Forall_cons; [all_bytes|]); apply List.Forall_nil|reflexivity|reflexivity|].
  exists ctx, (SHA1 (concat [str "a"; str "bc"])). split; [exact E|exact SHA1_abc].
Defined.
