(* ===== verification/GitWildmatch.v ===== *)
(** * git: shell patterns

    wildmatch.c of src/bin/git/upstream; the character tests of sane-ctype.h are
    in GitBase.  A C string is the list of its bytes with the NUL, a pointer into
    it an offset: a read behind the NUL is a fault. *)
From S2P Require Import Prelude GitBase.

Abbreviation P0 := (prog unit) (only parsing).

(** ** wildmatch.h, wildmatch.c *)
Definition WM_CASEFOLD : Z := 1.
Definition WM_PATHNAME : Z := 2.
Definition WM_NOMATCH : Z := 1.
Definition WM_MATCH : Z := 0.
Definition WM_ABORT_ALL : Z := -1.
Definition WM_ABORT_TO_STARSTAR : Z := -2.
Definition NEGATE_CLASS : Z := ch "!".
Definition NEGATE_CLASS2 : Z := ch "^".
Definition SLASH : Z := ch "/".

Definition ISASCII := Sane.isascii.
(** isblank and isgraph of <ctype.h> are these for every ASCII character *)
Definition ISBLANK (c : Z) : bool := (c =? ch " ") || (c =? 9).
Definition ISGRAPH (c : Z) : bool := ISASCII c && Sane.isprint c && negb (Sane.isspace c).
Definition ISPRINT (c : Z) : bool := ISASCII c && Sane.isprint c.
Definition ISDIGIT (c : Z) : bool := ISASCII c && Sane.isdigit c.
Definition ISALNUM (c : Z) : bool := ISASCII c && Sane.isalnum c.
Definition ISALPHA (c : Z) : bool := ISASCII c && Sane.isalpha c.
Definition ISCNTRL (c : Z) : bool := ISASCII c && Sane.iscntrl c.
Definition ISLOWER (c : Z) : bool := ISASCII c && Sane.islower c.
Definition ISPUNCT (c : Z) : bool := ISASCII c && Sane.ispunct c.
Definition ISSPACE (c : Z) : bool := ISASCII c && Sane.isspace c.
Definition ISUPPER (c : Z) : bool := ISASCII c && Sane.isupper c.
Definition ISXDIGIT (c : Z) : bool := ISASCII c && Sane.isxdigit c.

Section dowild.
Context (flags : Z).
Definition casefold : bool := negb (Z.land flags WM_CASEFOLD =? 0).
Definition pathname : bool := negb (Z.land flags WM_PATHNAME =? 0).
(** if ((flags & WM_CASEFOLD) && ISUPPER(c)) c = tolower(c) *)
Definition fold_case (c : Z) : Z := if casefold && ISUPPER c then Sane.tolower c else c.
(** [:class:]: None is a name that is not known *)
Definition named_class (name : list Z) (t_ch : Z) : option bool :=
  if streq name (str "alnum") then Some (ISALNUM t_ch)
  else if streq name (str "alpha") then Some (ISALPHA t_ch)
  else if streq name (str "blank") then Some (ISBLANK t_ch)
  else if streq name (str "cntrl") then Some (ISCNTRL t_ch)
  else if streq name (str "digit") then Some (ISDIGIT t_ch)
  else if streq name (str "graph") then Some (ISGRAPH t_ch)
  else if streq name (str "lower") then Some (ISLOWER t_ch)
  else if streq name (str "print") then Some (ISPRINT t_ch)
  else if streq name (str "punct") then Some (ISPUNCT t_ch)
  else if streq name (str "space") then Some (ISSPACE t_ch)
  else if streq name (str "upper") then Some (ISUPPER t_ch || (casefold && ISLOWER t_ch))
  else if streq name (str "xdigit") then Some (ISXDIGIT t_ch)
  else None.
(** prev_ch-p_ch *)
Definition in_range (prev_ch p_ch t_ch : Z) : bool :=
  if (t_ch <=? p_ch) && (prev_ch <=? t_ch) then true
  else if casefold && ISLOWER t_ch then
    let t_ch_upper := Sane.toupper t_ch in (t_ch_upper <=? p_ch) && (prev_ch <=? t_ch_upper)
  else false.

Context (pat txt : list Z).
Definition fuel_p : nat := S (length pat).
Definition fuel_t : nat := S (length txt).

(** *** case '[' *)
(** for (s = p += 2; (p_ch = *p) && p_ch != ']'; p++) *)
Definition class_end (p : Z) : P0 (Z * Z) :=
  iter fuel_p (fun p => p_ch <- rd pat p ;;
    if negb (p_ch =? 0) && negb (p_ch =? ch "]") then ret (inl (p + 1)) else ret (inr (p, p_ch))) p.
(** one turn up to the condition of the loop: p, p_ch and matched, or None for WM_ABORT_ALL *)
Definition class_turn (t_ch p p_ch prev_ch : Z) (matched : bool) : P0 (option (Z * Z * bool)) :=
  if p_ch =? 0 then ret None
  else if p_ch =? ch "\" then
    p_ch <- rd pat (p + 1) ;;
    if p_ch =? 0 then ret None else ret (Some (p + 1, p_ch, (t_ch =? p_ch) || matched))
  else
    range <- (if (p_ch =? ch "-") && negb (prev_ch =? 0) then
                c <- rd pat (p + 1) ;; ret (negb (c =? 0) && negb (c =? ch "]"))
              else ret false) ;;
    if range : bool then
      p_ch <- rd pat (p + 1) ;;
      if p_ch =? ch "\" then
        p_ch <- rd pat (p + 1 + 1) ;;
        if p_ch =? 0 then ret None else ret (Some (p + 1 + 1, 0, in_range prev_ch p_ch t_ch || matched))
      else ret (Some (p + 1, 0, in_range prev_ch p_ch t_ch || matched))
    else
      colon <- (if p_ch =? ch "[" then c <- rd pat (p + 1) ;; ret (c =? ch ":") else ret false) ;;
      if colon : bool then
        let s := p + 2 in
        let* (p, p_ch) := class_end s in
        if p_ch =? 0 then ret None
        else
          let i := i32 (p - s - 1) in
          named <- (if i <? 0 then ret false else c <- rd pat (p - 1) ;; ret (c =? ch ":")) ;;
          if negb named then ret (Some (s - 2, ch "[", (t_ch =? ch "[") || matched))
          else
            name <- rd_n pat s i ;;
            match named_class name t_ch with
            | Some b => ret (Some (p, 0, b || matched))
            | None => ret None
            end
      else ret (Some (p, p_ch, (t_ch =? p_ch) || matched)).
Definition class_body (t_ch : Z) (v : Z * Z * Z * bool) : P0 (Z * Z * Z * bool + option (Z * bool)) :=
  let '(p, p_ch, prev_ch, matched) := v in
  r <- class_turn t_ch p p_ch prev_ch matched ;;
  match r with
  | None => ret (inr None)
  | Some (p, p_ch, matched) =>
      let prev_ch := p_ch in
      p_ch <- rd pat (p + 1) ;;
      if p_ch =? ch "]" then ret (inr (Some (p + 1, matched))) else ret (inl (p + 1, p_ch, prev_ch, matched))
  end.
Definition wild_class (t_ch p text : Z) : P0 (Z * Z + Z) :=
  p_ch <- rd pat (p + 1) ;;
  let p_ch := if p_ch =? NEGATE_CLASS2 then NEGATE_CLASS else p_ch in
  let negated := p_ch =? NEGATE_CLASS in
  let* (p, p_ch) := (if negated then p_ch <- rd pat (p + 1 + 1) ;; ret (p + 1 + 1, p_ch) else ret (p + 1, p_ch)) in
  r <- iter fuel_p (class_body t_ch) (p, p_ch, 0, false) ;;
  match r with
  | None => ret (inr WM_ABORT_ALL)
  | Some (p, matched) =>
      if Bool.eqb matched negated || (pathname && (t_ch =? SLASH)) then ret (inr WM_NOMATCH)
      else ret (inl (p + 1, text + 1))
  end.

(** *** case '*' *)
Definition skip_stars (p : Z) : P0 Z :=
  iter fuel_p (fun p => c <- rd pat (p + 1) ;; if c =? ch "*" then ret (inl (p + 1)) else ret (inr (p + 1))) p.
(** strchr(text, '/') *)
Definition find_slash (text : Z) : P0 (option Z) :=
  iter fuel_t (fun text => c <- rd txt text ;;
    if c =? SLASH then ret (inr (Some text)) else if c =? 0 then ret (inr None) else ret (inl (text + 1))) text.
(** the string before a literal belongs to the star *)
Definition scan_body (match_slash : bool) (p_ch : Z) (text : Z) : P0 (Z + Z * Z) :=
  t_ch <- rd txt text ;;
  if negb (t_ch =? 0) && (match_slash || negb (t_ch =? SLASH)) then
    let t_ch := fold_case t_ch in
    if t_ch =? p_ch then ret (inr (text, t_ch)) else ret (inl (text + 1))
  else ret (inr (text, t_ch)).
(** dowild() for what is left of the strings *)
Context (rec : Z -> Z -> P0 Z).
Definition star_try (match_slash : bool) (p text t_ch : Z) : P0 (Z * Z + Z) :=
  matched <- rec p text ;;
  let next := t_ch <- rd txt (text + 1) ;; ret (inl (text + 1, t_ch)) in
  if negb (matched =? WM_NOMATCH) then
    if negb match_slash || negb (matched =? WM_ABORT_TO_STARSTAR) then ret (inr matched) else next
  else if negb match_slash && (t_ch =? SLASH) then ret (inr WM_ABORT_TO_STARSTAR)
  else next.
Definition star_body (match_slash : bool) (p : Z) (v : Z * Z) : P0 (Z * Z + Z) :=
  let '(text, t_ch) := v in
  if t_ch =? 0 then ret (inr WM_ABORT_ALL)
  else
    c <- rd pat p ;;
    if negb (Sane.is_glob_special c) then
      let p_ch := fold_case c in
      let* (text, t_ch) := iter fuel_t (scan_body match_slash p_ch) text in
      if negb (t_ch =? p_ch) then ret (inr (if match_slash then WM_ABORT_ALL else WM_ABORT_TO_STARSTAR))
      else star_try match_slash p text t_ch
    else star_try match_slash p text t_ch.
(** what follows once match_slash is known *)
Definition star_rest (match_slash : bool) (p text t_ch : Z) : P0 (Z * Z + Z) :=
  c <- rd pat p ;;
  if c =? 0 then
    if negb match_slash then
      slash <- find_slash text ;;
      ret (inr (match slash with Some _ => WM_ABORT_TO_STARSTAR | None => WM_MATCH end))
    else ret (inr WM_MATCH)
  else if negb match_slash && (c =? SLASH) then
    slash <- find_slash text ;;
    match slash with
    | None => ret (inr WM_ABORT_ALL)
    | Some text => ret (inl (p + 1, text + 1))
    end
  else
    r <- iter fuel_t (star_body match_slash p) (text, t_ch) ;;
    ret (inr r).
(** is a run of two and more stars, the second at [prev_p], a directory wildcard? *)
Definition is_dirs (pattern prev_p p : Z) : P0 bool :=
  front <- (if prev_p - pattern <? 2 then ret true else c <- rd pat (prev_p - 2) ;; ret (c =? SLASH)) ;;
  if front : bool then
    c <- rd pat p ;;
    if (c =? 0) || (c =? SLASH) then ret true
    else if c =? ch "\" then c <- rd pat (p + 1) ;; ret (c =? SLASH)
    else ret false
  else ret false.
Definition wild_star (pattern t_ch p text : Z) : P0 (Z * Z + Z) :=
  c <- rd pat (p + 1) ;;
  if c =? ch "*" then
    let prev_p := p + 1 in
    p <- skip_stars (p + 1) ;;
    if negb pathname then star_rest true p text t_ch
    else
      dirs <- is_dirs pattern prev_p p ;;
      if dirs : bool then
        c <- rd pat p ;;
        none <- (if c =? SLASH then r <- rec (p + 1) text ;; ret (r =? WM_MATCH) else ret false) ;;
        if none : bool then ret (inr WM_MATCH) else star_rest true p text t_ch
      else star_rest false p text t_ch
  else star_rest (negb pathname) (p + 1) text t_ch.

(** *** the loop over the pattern *)
Definition wild_literal (t_ch p_ch p text : Z) : P0 (Z * Z + Z) :=
  if negb (t_ch =? p_ch) then ret (inr WM_NOMATCH) else ret (inl (p + 1, text + 1)).
Definition wild_body (pattern : Z) (v : Z * Z) : P0 (Z * Z + Z) :=
  let '(p, text) := v in
  p_ch <- rd pat p ;;
  t_ch <- rd txt text ;;
  if p_ch =? 0 then ret (inr (if t_ch =? 0 then WM_MATCH else WM_NOMATCH))
  else if (t_ch =? 0) && negb (p_ch =? ch "*") then ret (inr WM_ABORT_ALL)
  else
    let t_ch := fold_case t_ch in
    let p_ch := fold_case p_ch in
    if p_ch =? ch "\" then p_ch <- rd pat (p + 1) ;; wild_literal t_ch p_ch (p + 1) text
    else if p_ch =? ch "?" then
      if pathname && (t_ch =? SLASH) then ret (inr WM_NOMATCH) else ret (inl (p + 1, text + 1))
    else if p_ch =? ch "*" then wild_star pattern t_ch p text
    else if p_ch =? ch "[" then wild_class t_ch p text
    else wild_literal t_ch p_ch p text.
End dowild.

Fixpoint dowild (fuel : nat) (flags : Z) (pat txt : list Z) (p text : Z) : P0 Z :=
  match fuel with
  | O => raise NoFuel
  | S fuel => iter (fuel_p pat) (wild_body flags pat txt (dowild fuel flags pat txt) p) (p, text)
  end.
Definition wildmatch (pattern text : list Z) (flags : Z) : P0 Z :=
  let pat := pattern ++ [0] in
  res <- dowild (fuel_p pat) flags pat (text ++ [0]) 0 0 ;;
  ret (if res =? WM_MATCH then WM_MATCH else WM_NOMATCH).
