(* ===== verification/GitWildSpec.v ===== *)
(** * git: what shell patterns mean

    A pattern is a list of items: single characters, sets, a star, which stays
    within a path component, two stars, which do not, and directories with
    their slash.  [g_parse] reads a pattern and [g_matches] says which texts it
    matches, both under conventions for case, slashes, classes and ranges;
    [pattern_matches] takes those of POSIX and of git's flags.  With the code's
    own character tests for conventions follow the lemmas that backtracking
    rests on; in the end the two conventions are shown to be the same. *)
From S2P Require Import Prelude GitBase GitWildmatch.

Inductive atom :=
  | Single (c : Z)
  | Range (lo hi : Z)
  | Named (name : list Z).
Inductive item :=
  | Lit (c : Z)                              (* this character *)
  | Any                                      (* ? *)
  | Set_ (negated : bool) (atoms : list atom)  (* [...] *)
  | Never                                    (* a set or an escape without its end *)
  | Star                                     (* anything without a slash *)
  | Stars                                    (* anything *)
  | Dirs.                                    (* nothing, or anything up to a slash *)

(** what a pattern depends on: how a character is folded, whether a slash is
    special, which classes there are and which characters a range has *)
Record conventions := mkConv { cv_fold : Z -> Z; cv_path : bool; cv_named : list Z -> Z -> option bool; cv_range : Z -> Z -> Z -> bool }.
Section matches.
Context (v : conventions).
#[local] Abbreviation fold := (cv_fold v) (only parsing).
#[local] Abbreviation path := (cv_path v) (only parsing).
#[local] Abbreviation named := (cv_named v) (only parsing).
Definition g_atom_ok (t : Z) (a : atom) : bool :=
  match a with
  | Single c => t =? c
  | Range lo hi => cv_range v lo hi t
  | Named name => default false (named name t)
  end.
(** a character of the text against an item for one character *)
Definition g_char_ok (it : item) (c : Z) : bool :=
  let t := fold c in
  match it with
  | Lit c => t =? c
  | Any => negb (path && (t =? SLASH))
  | Set_ negated atoms => negb (Bool.eqb (existsb (g_atom_ok t) atoms) negated) && negb (path && (t =? SLASH))
  | _ => false
  end.
Definition no_slash (t : list Z) : Prop := Forall (fun c => c <> SLASH) t.
Inductive g_matches : list item -> list Z -> Prop :=
  | matches_end : g_matches [] []
  | matches_char it its c t : g_char_ok it c = true -> g_matches its t -> g_matches (it :: its) (c :: t)
  | matches_star its u t : no_slash u -> g_matches its t -> g_matches (Star :: its) (u ++ t)
  | matches_stars its u t : g_matches its t -> g_matches (Stars :: its) (u ++ t)
  | matches_no_dirs its t : g_matches its t -> g_matches (Dirs :: its) t
  | matches_dirs its u t : g_matches its t -> g_matches (Dirs :: its) (u ++ SLASH :: t).

(** ** Reading a pattern *)
(** one atom: what it is, the left end of a range that may follow, and the rest *)
Definition g_class_item (c prev : Z) (l : list Z) : option (atom * Z * list Z) :=
  if c =? ch "\" then match l with [] => None | d :: l => Some (Single d, d, l) end
  else if (c =? ch "-") && negb (prev =? 0) && match l with [] => false | d :: _ => negb (d =? ch "]") end then
    match l with
    | [] => None
    | d :: l => if d =? ch "\" then match l with [] => None | e :: l => Some (Range prev e, 0, l) end
                else Some (Range prev d, 0, l)
    end
  else if (c =? ch "[") && (hd0 l =? ch ":") then
    let inner := take_while (fun x => negb (x =? ch "]")) (tail l) in
    match skip_while (fun x => negb (x =? ch "]")) (tail l) with
    | [] => None
    | _ :: rest =>
        match rev inner with
        | d :: name =>
            if d =? ch ":" then
              match named (rev name) 0 with Some _ => Some (Named (rev name), 0, rest) | None => None end
            else Some (Single (ch "["), ch "[", l)
        | [] => Some (Single (ch "["), ch "[", l)
        end
    end
  else Some (Single c, c, l).
(** the atoms up to the bracket; the first one may be a bracket itself *)
Fixpoint g_class_items (fuel : nat) (l : list Z) (prev : Z) : option (list atom * list Z) :=
  match fuel, l with
  | S fuel, c :: l =>
      '(a, prev, l) ← g_class_item c prev l;
      match l with
      | [] => None
      | d :: rest => if d =? ch "]" then Some ([a], rest)
                     else '(atoms, rest) ← g_class_items fuel l prev; Some (a :: atoms, rest)
      end
  | _, _ => None
  end.
Definition is_neg (c : Z) : bool := (c =? ch "!") || (c =? ch "^").
Definition g_class_of (l : list Z) : option (item * list Z) :=
  match l with
  | [] => None
  | c :: l' =>
      let negated := is_neg c in
      let l := if negated then l' else l in
      '(atoms, rest) ← g_class_items (length l) l 0; Some (Set_ negated atoms, rest)
  end.
(** [slash]: the pattern starts here, or a slash is in front *)
Definition dirs_ok (slash : bool) (rest : list Z) : bool :=
  slash && match rest with
           | [] => true
           | c :: rest => (c =? SLASH) || ((c =? ch "\") && (hd0 rest =? SLASH))
           end.
Definition is_star (c : Z) : bool := c =? ch "*".
Fixpoint g_parse (fuel : nat) (slash : bool) (l : list Z) : list item :=
  match fuel, l with
  | S fuel, c :: l =>
      if c =? ch "\" then
        match l with [] => [Never] | d :: l => Lit d :: g_parse fuel (d =? SLASH) l end
      else if c =? ch "?" then Any :: g_parse fuel false l
      else if is_star c then
        let rest := skip_while is_star l in
        if negb path then Stars :: g_parse fuel false rest
        else if (hd0 l =? ch "*") && dirs_ok slash rest then
          match rest with
          | d :: rest' => if d =? SLASH then Dirs :: g_parse fuel true rest' else Stars :: g_parse fuel false rest
          | [] => [Stars]
          end
        else Star :: g_parse fuel false rest
      else if c =? ch "[" then
        match g_class_of l with Some (it, rest) => it :: g_parse fuel false rest | None => [Never] end
      else Lit (fold c) :: g_parse fuel (c =? SLASH) l
  | _, _ => []
  end.
Definition g_items (slash : bool) (l : list Z) : list item := g_parse (length l) slash l.
End matches.

(** ** The conventions *)
(** The classes of POSIX in ASCII; but of white space git knows only the blank,
    the tab, the line feed and the carriage return. *)
Definition posix_classes : list (list Z * list (Z * Z)) :=
  let digit := (ch "0", ch "9") in let upper := (ch "A", ch "Z") in let lower := (ch "a", ch "z") in
  [(str "alnum", [digit; upper; lower]); (str "alpha", [upper; lower]); (str "blank", [(9, 9); (32, 32)]);
   (str "cntrl", [(0, 31); (127, 127)]); (str "digit", [digit]); (str "graph", [(33, 126)]); (str "lower", [lower]);
   (str "print", [(32, 126)]); (str "punct", [(33, 47); (58, 64); (91, 96); (123, 126)]);
   (str "space", [(9, 10); (13, 13); (32, 32)]); (str "upper", [upper]);
   (str "xdigit", [digit; (ch "A", ch "F"); (ch "a", ch "f")])].
Definition between (ranges : list (Z * Z)) (c : Z) : bool := existsb (fun r => (r.1 <=? c) && (c <=? r.2)) ranges.
(** with WM_CASEFOLD, which is bit 0 of the flags, the text is folded to lower
    case; a lower-case letter of it is in a range if its upper case is, and in
    the class of upper-case letters *)
Definition folds (flags : Z) : bool := Z.testbit flags 0.
Definition folded (flags c : Z) : Z := if folds flags && between [(ch "A", ch "Z")] c then c + 32 else c.
Definition posix_class (flags : Z) (name : list Z) (c : Z) : option bool :=
  '(_, ranges) ← snd <$> list_find (fun p => name = p.1) posix_classes;
  Some (between ranges c || folds flags && bool_decide (name = str "upper") && between [(ch "a", ch "z")] c).
Definition ranged (flags lo hi c : Z) : bool :=
  between [(lo, hi)] c || folds flags && between [(ch "a", ch "z")] c && between [(lo, hi)] (c - 32).
(** WM_PATHNAME is bit 1 *)
Definition git_conventions (flags : Z) : conventions := mkConv (folded flags) (Z.testbit flags 1) (posix_class flags) (ranged flags).
Definition pattern_matches (flags : Z) (pattern text : list Z) : Prop :=
  g_matches (git_conventions flags) (g_items (git_conventions flags) true pattern) text.

(** ** The code's conventions *)
Definition conv_of (flags : Z) : conventions := mkConv (fold_case flags) (pathname flags) (named_class flags) (in_range flags).
Ltac conv := cbn [conv_of cv_fold cv_path cv_named cv_range] in *.
Abbreviation atom_ok flags := (g_atom_ok (conv_of flags)) (only parsing).
Abbreviation char_ok flags := (g_char_ok (conv_of flags)) (only parsing).
Abbreviation matches flags := (g_matches (conv_of flags)) (only parsing).
Abbreviation class_item flags := (g_class_item (conv_of flags)) (only parsing).
Abbreviation class_items flags := (g_class_items (conv_of flags)) (only parsing).
Abbreviation class_of flags := (g_class_of (conv_of flags)) (only parsing).
Abbreviation parse flags := (g_parse (conv_of flags)) (only parsing).
Abbreviation items flags := (g_items (conv_of flags)) (only parsing).

(** ** The items of a parse *)
Lemma suffix_tail {A} (l l' : list A) x : l' `suffix_of` l -> l' `suffix_of` (x :: l).
Proof. apply suffix_cons_r. Qed.
Lemma skip_while_suffix p l : skip_while p l `suffix_of` l.
Proof. exists (take_while p l). by rewrite take_skip_while. Qed.
Lemma class_item_rest flags c prev l a prev' l' : class_item flags c prev l = Some (a, prev', l') -> l' `suffix_of` l.
Proof.
  unfold g_class_item. conv. intros H. destruct (c =? ch "\"); [destruct l as [|d l]; simplify_eq; by apply suffix_tail|].
  destruct ((c =? ch "-") && negb (prev =? 0) && match l with [] => false | d :: _ => negb (d =? ch "]") end).
  { destruct l as [|d l]; [done|]. destruct (d =? ch "\"); [|simplify_eq; by apply suffix_tail]. destruct l as [|e l]; simplify_eq. by do 2 apply suffix_tail. }
  destruct ((c =? ch "[") && (hd0 l =? ch ":")); [|by simplify_eq].
  destruct (skip_while (fun x => negb (x =? ch "]")) (tail l)) as [|x rest] eqn:Hs; [done|].
  assert (Hr : rest `suffix_of` l).
  { destruct l as [|y l]; [done|]. apply suffix_tail. transitivity (x :: rest); [by apply suffix_tail|]. rewrite <- Hs. apply skip_while_suffix. }
  destruct (rev (take_while (fun x => negb (x =? ch "]")) (tail l))) as [|d name]; [by simplify_eq|].
  destruct (d =? ch ":"); [|by simplify_eq]. by destruct (named_class flags (rev name) 0); simplify_eq.
Qed.
Lemma class_items_rest flags fuel : forall l prev atoms rest, class_items flags fuel l prev = Some (atoms, rest) -> (length rest < length l)%nat.
Proof.
  induction fuel as [|fuel IH]; intros [|c l] prev atoms rest; cbn [g_class_items]; conv; try done.
  destruct (class_item flags c prev l) as [[[a prev'] l']|] eqn:Hi; [|done]. cbn [mbind option_bind].
  apply class_item_rest, suffix_length in Hi. destruct l' as [|d l']; [done|]. cbn [length] in *. destruct (d =? ch "]"); [intros [= _ <-]; lia|].
  destruct (class_items flags fuel (d :: l') prev') as [[atoms' rest']|] eqn:Hr; [|done]. apply IH in Hr. cbn [mbind option_bind length] in *.
  intros [= _ <-]. lia.
Qed.
Lemma class_of_rest flags l it rest : class_of flags l = Some (it, rest) -> (length rest < length l)%nat.
Proof.
  unfold g_class_of. conv. destruct l as [|c l]; [done|]. set (l1 := if is_neg c then l else c :: l). assert (length l1 <= length (c :: l))%nat by (unfold l1; destruct (is_neg c); simpl; lia).
  destruct (class_items flags (length l1) l1 0) as [[atoms rest']|] eqn:Hr; [|done]. apply class_items_rest in Hr. cbn [mbind option_bind]. intros [= _ <-]. lia.
Qed.
Lemma parse_enough flags fuel : forall s l, (length l <= fuel)%nat -> parse flags fuel s l = items flags s l.
Proof.
  assert (Hgo : forall n fuel s l, (length l <= n)%nat -> (length l <= fuel)%nat -> parse flags fuel s l = items flags s l);
    [|intros s l; by apply (Hgo (length l))].
  clear fuel. induction n as [|n IH]; intros fuel s [|c l] Hn Hf; cbn [length] in *; [by destruct fuel|lia|by destruct fuel|].
  destruct fuel as [|fuel]; [lia|]. unfold g_items. conv. cbn [length g_parse]. conv.
  assert (Hp : forall s l', (length l' <= length l)%nat -> parse flags fuel s l' = parse flags (length l) s l') by (intros s' l' H'; rewrite !IH by lia; done).
  pose proof (suffix_length _ _ (skip_while_suffix is_star l)) as Hskip.
  destruct (c =? ch "\"); [destruct l as [|d l]; [done|]; f_equal; apply Hp; simpl; lia|]. destruct (c =? ch "?"); [f_equal; by apply Hp|].
  destruct (is_star c).
  { destruct (negb (GitWildmatch.pathname flags)); [f_equal; by apply Hp|]. destruct ((hd0 l =? ch "*") && dirs_ok s (skip_while is_star l)); [|f_equal; by apply Hp].
    destruct (skip_while is_star l) as [|d rest]; [done|]. cbn [length] in Hskip. destruct (d =? SLASH); f_equal; apply Hp; simpl; lia. }
  destruct (c =? ch "["); [|f_equal; by apply Hp]. destruct (class_of flags l) as [[it rest]|] eqn:Hc; [|done]. apply class_of_rest in Hc. f_equal. apply Hp. lia.
Qed.
Lemma items_cons flags s c l : items flags s (c :: l) =
  if c =? ch "\" then match l with [] => [Never] | d :: l => Lit d :: items flags (d =? SLASH) l end
  else if c =? ch "?" then Any :: items flags false l
  else if is_star c then
    let rest := skip_while is_star l in
    if negb (pathname flags) then Stars :: items flags false rest
    else if (hd0 l =? ch "*") && dirs_ok s rest then
      match rest with
      | d :: rest' => if d =? SLASH then Dirs :: items flags true rest' else Stars :: items flags false rest
      | [] => [Stars]
      end
    else Star :: items flags false rest
  else if c =? ch "[" then
    match class_of flags l with Some (it, rest) => it :: items flags false rest | None => [Never] end
  else Lit (fold_case flags c) :: items flags (c =? SLASH) l.
Proof.
  unfold g_items at 1. conv. cbn [length g_parse]. conv. cbv zeta. pose proof (suffix_length _ _ (skip_while_suffix is_star l)) as Hskip.
  destruct (c =? ch "\"); [destruct l as [|d l]; [done|]; f_equal; apply parse_enough; simpl; lia|]. destruct (c =? ch "?"); [done|].
  destruct (is_star c).
  { destruct (negb (pathname flags)); [f_equal; by apply parse_enough|]. destruct ((hd0 l =? ch "*") && dirs_ok s (skip_while is_star l)); [|f_equal; by apply parse_enough].
    destruct (skip_while is_star l) as [|d rest]; [done|]. cbn [length] in Hskip. destruct (d =? SLASH); f_equal; apply parse_enough; simpl; lia. }
  destruct (c =? ch "["); [|done]. destruct (class_of flags l) as [[it rest]|] eqn:Hc; [|done]. apply class_of_rest in Hc. f_equal. apply parse_enough. lia.
Qed.
(** an item for one character *)
Definition one (it : item) : Prop := match it with Star | Stars | Dirs => False | _ => True end.
Definition starts_dirs (its : list item) : Prop := match its with Dirs :: _ => True | _ => False end.
Lemma items_no_dirs flags l : ~ starts_dirs (items flags false l).
Proof.
  destruct l as [|c l]; [by intros H|]. rewrite items_cons. cbv zeta. destruct (c =? ch "\"); [destruct l; by intros H|]. destruct (c =? ch "?"); [by intros H|].
  destruct (is_star c); [destruct (negb (pathname flags)); [by intros H|]; unfold dirs_ok; rewrite andb_false_l, andb_false_r; by intros H|].
  destruct (c =? ch "["); [|by intros H]. destruct (class_of flags l) as [[it rest]|] eqn:Hc; [|by intros H]. unfold g_class_of in Hc. conv. destruct l as [|d l]; [done|].
  destruct (class_items flags _ _ 0) as [[atoms r]|]; [|done]. cbn [mbind option_bind] in Hc. injection Hc as <- _. by intros H.
Qed.
Lemma items_one flags s c l : is_star c = false -> exists it its, items flags s (c :: l) = it :: its /\ one it /\ items flags false (c :: l) = it :: its.
Proof.
  assert (Hgo : forall it its l1 l2, one it -> l1 = it :: its -> l2 = it :: its -> exists it its, l1 = it :: its /\ one it /\ l2 = it :: its)
    by (intros it its l1 l2 Ho -> ->; by exists it, its).
  intros Hs. rewrite !items_cons. rewrite Hs. cbv zeta. destruct (c =? ch "\"); [destruct l; (eapply Hgo; [|reflexivity..]; exact I)|]. destruct (c =? ch "?"); [(eapply Hgo; [|reflexivity..]; exact I)|].
  destruct (c =? ch "["); [|(eapply Hgo; [|reflexivity..]; exact I)]. destruct (class_of flags l) as [[it rest]|] eqn:Hc; [|(eapply Hgo; [|reflexivity..]; exact I)]. unfold g_class_of in Hc. conv. destruct l as [|d l]; [done|].
  destruct (class_items flags _ _ 0) as [[atoms r]|]; [|done]. cbn [mbind option_bind] in Hc. injection Hc as <- _. (eapply Hgo; [|reflexivity..]; exact I).
Qed.

(** ** What a result of dowild() says *)
Section verdict.
Context (flags : Z).
#[local] Abbreviation matches := (matches flags) (only parsing).
Lemma matches_one it its t : one it -> matches (it :: its) t -> exists c t', t = c :: t' /\ char_ok flags it c = true /\ matches its t'.
Proof. intros Ho H. inversion H; subst; try done. by eexists _, _. Qed.
Lemma matches_star_inv its t : matches (Star :: its) t -> exists v t', t = v ++ t' /\ no_slash v /\ matches its t'.
Proof. intros H. inversion H; subst; [done|by eexists _, _]. Qed.
Lemma matches_stars_inv its t : matches (Stars :: its) t -> exists v t', t = v ++ t' /\ matches its t'.
Proof. intros H. inversion H; subst; [done|by eexists _, _]. Qed.
Lemma matches_dirs_inv its t : matches (Dirs :: its) t -> matches its t \/ exists v t', t = v ++ SLASH :: t' /\ matches its t'.
Proof. intros H. inversion H; subst; [done|by left|right; by eexists _, _]. Qed.
Lemma matches_nil t : matches [] t -> t = [].
Proof. by inversion 1. Qed.
(** letters stay letters *)
Lemma fold_slash_iff c : byte c -> fold_case flags c = SLASH <-> c = SLASH.
Proof.
  intros Hc. assert (H : forallb (fun i => Bool.eqb (Sane.tolower (Z.of_nat i) =? SLASH) (Z.of_nat i =? SLASH)) (seq 0 256) = true) by (vm_compute; reflexivity).
  apply (forallb_bytes _ c H) in Hc as H1. rewrite Z2Nat.id in H1 by (unfold byte in Hc; lia). unfold fold_case. destruct (casefold flags && ISUPPER c); [|done].
  apply eqb_prop in H1. rewrite <- (Z.eqb_eq (Sane.tolower c)), <- (Z.eqb_eq c). by rewrite H1.
Qed.
Lemma char_lit_slash c : byte c -> char_ok flags (Lit SLASH) c = true <-> c = SLASH.
Proof. intros Hc. unfold g_char_ok. conv. by rewrite Z.eqb_eq, fold_slash_iff. Qed.
Lemma slash_char it : pathname flags = true -> char_ok flags it SLASH = true -> it = Lit SLASH.
Proof.
  intros Hp. assert (Hs : fold_case flags SLASH = SLASH) by (apply fold_slash_iff; unfold byte, SLASH; [lia|done]). unfold g_char_ok. conv. rewrite Hs, Hp, Z.eqb_refl.
  destruct it as [c| |n a| | | |]; cbn [andb negb]; rewrite ?andb_false_r; try done. rewrite Z.eqb_eq. by intros ->.
Qed.

(** [u] may be skipped in front of the items: directories start behind a slash *)
Definition cut_ok (its : list item) (u : list Z) : Prop := starts_dirs its -> u = [] \/ list.last u = Some SLASH.
Inductive verdict (its : list item) (t : list Z) : Z -> Prop :=
  | v_match : matches its t -> verdict its t WM_MATCH
  | v_no : ~ matches its t -> verdict its t WM_NOMATCH
  | v_all : (forall u t', t = u ++ t' -> cut_ok its u -> ~ matches its t') -> verdict its t WM_ABORT_ALL
  | v_starstar : pathname flags = true -> (forall u t', t = u ++ t' -> no_slash u -> ~ matches its t') -> verdict its t WM_ABORT_TO_STARSTAR.
Lemma verdict_sound its t r : verdict its t r -> (r = WM_MATCH <-> matches its t).
Proof.
  intros [H|H|H|Hp H]; split; try done; intros Hm; exfalso; [by apply (H [] t eq_refl (fun _ => or_introl eq_refl))|by apply (H [] t eq_refl (List.Forall_nil _))].
Qed.
Lemma verdict_no its t r : verdict its t r -> r <> WM_MATCH -> ~ matches its t.
Proof. intros H Hr Hm. by apply (verdict_sound _ _ _ H) in Hm. Qed.

(** *** one character *)
Lemma verdict_char it its c t r : one it -> char_ok flags it c = true -> (starts_dirs its -> it = Lit SLASH) -> Forall byte (c :: t) ->
  verdict its t r -> verdict (it :: its) (c :: t) r.
Proof.
  intros Ho Hc Hd Hb H.
  assert (Hgo : forall u t', c :: t = u ++ t' -> matches (it :: its) t' -> u = [] /\ matches its t \/
    exists u1 c' t1, u = c :: u1 /\ t = (u1 ++ [c']) ++ t1 /\ byte c' /\ char_ok flags it c' = true /\ matches its t1).
  { intros u t' E Hm. apply matches_one in Hm as (c' & t1 & -> & Hc' & Hm); [|done]. destruct u as [|x u1]; cbn [app] in E; injection E as E1 E2.
    - left. by subst.
    - right. exists u1, c', t1. rewrite <- app_assoc. cbn [app]. subst x. split; [done|]. split; [done|]. split; [|done].
      rewrite E2 in Hb. inversion_clear Hb as [|? ? _ Hb1]. apply Forall_app in Hb1 as [_ Hb1]. by inversion_clear Hb1. }
  destruct H as [H|H|H|Hp H]; constructor.
  - by apply matches_char.
  - intros Hm. apply H. apply matches_one in Hm as (c' & t1 & E & _ & Hm); [|done]. by injection E as _ <-.
  - intros u t' E _ Hm. destruct (Hgo u t' E Hm) as [[-> H1]|(u1 & c' & t1 & -> & Et & Hbc & Hc' & H1)]; [by apply (H [] t eq_refl (fun _ => or_introl eq_refl))|].
    eapply H; [exact Et| |exact H1]. intros Hs. right. rewrite last_snoc. f_equal. rewrite (Hd Hs) in Hc'. by apply char_lit_slash.
  - done.
  - intros u t' E Hu Hm. destruct (Hgo u t' E Hm) as [[-> H1]|(u1 & c' & t1 & -> & Et & Hbc & Hc' & H1)]; [by apply (H [] t eq_refl (List.Forall_nil _))|].
    inversion_clear Hu as [|? ? Hcs Hu1]. eapply H; [exact Et| |exact H1]. apply Forall_app. split; [done|]. apply List.Forall_cons; [|done]. intros ->.
    apply slash_char in Hc'; [|done]. subst it. apply char_lit_slash in Hc; [done|]. by inversion_clear Hb.
Qed.
Lemma verdict_char_no it its c t : one it -> char_ok flags it c = false -> verdict (it :: its) (c :: t) WM_NOMATCH.
Proof. intros Ho Hc. constructor. intros Hm. apply matches_one in Hm as (c' & t1 & [= <- <-] & Hc' & _); [|done]. congruence. Qed.
Lemma verdict_end t : verdict [] t (if match t with [] => true | _ => false end then WM_MATCH else WM_NOMATCH).
Proof. destruct t; constructor; [constructor|by intros H%matches_nil]. Qed.
Lemma verdict_short it its : one it -> verdict (it :: its) [] WM_ABORT_ALL.
Proof.
  intros Ho. constructor. intros u t' E _ Hm. apply matches_one in Hm as (c & t1 & -> & _); [|done]. by destruct u.
Qed.
Lemma verdict_never its t : verdict (Never :: its) t WM_ABORT_ALL.
Proof. constructor. intros u t' _ _ Hm. apply matches_one in Hm as (c & t1 & _ & Hc & _); done. Qed.

(** *** the loop behind a star *)
(** the results of trying [Q] at the front of the text, behind one character, ... *)
Inductive found (any : bool) (Q : list Z -> Prop) (t : list Z) : Z -> Prop :=
  | f_match v t' : t = v ++ t' -> (any = false -> no_slash v) -> Q t' -> found any Q t WM_MATCH
  | f_all : (forall u t', t = u ++ t' -> ~ Q t') -> found any Q t WM_ABORT_ALL
  | f_starstar : any = false -> (forall u t', t = u ++ t' -> no_slash u -> ~ Q t') -> found any Q t WM_ABORT_TO_STARSTAR.
Lemma found_cons any Q c t r : ~ Q (c :: t) -> (any = false -> c <> SLASH) -> found any Q t r -> found any Q (c :: t) r.
Proof.
  intros Hq Hc [v t' -> Hv H|H|Ha H].
  - apply (f_match any Q _ (c :: v) t'); [done| |done]. intros Ha. apply List.Forall_cons; [by apply Hc|by apply Hv].
  - apply f_all. intros [|x u] t' E; cbn [app] in E; [by subst|]. injection E as _ ->. by eapply H.
  - apply f_starstar; [done|]. intros [|x u] t' E Hu; cbn [app] in E; [by subst|]. injection E as _ ->. inversion_clear Hu. by eapply H.
Qed.
Lemma found_nil any Q r : ~ Q [] -> r = WM_ABORT_ALL \/ any = false /\ r = WM_ABORT_TO_STARSTAR -> found any Q [] r.
Proof.
  intros Hq [-> |[Ha ->]]; [apply f_all|apply f_starstar; [done|]]; intros [|x u] t' E; cbn [app] in E; subst; done.
Qed.
Lemma found_slash Q t : ~ Q (SLASH :: t) -> found false Q (SLASH :: t) WM_ABORT_TO_STARSTAR.
Proof.
  intros Hq. apply f_starstar; [done|]. intros [|x u] t' E Hu; cbn [app] in E; [by subst|]. injection E as <- _. by inversion_clear Hu.
Qed.
Lemma found_verdict any it its t r : one it -> verdict (it :: its) t r -> r <> WM_NOMATCH -> (any = true -> r <> WM_ABORT_TO_STARSTAR) ->
  found any (matches (it :: its)) t r.
Proof.
  intros Ho [H|H|H|Hp H] Hr Ha; [|done| |].
  - apply (f_match _ _ _ [] t); [done|intros _; apply List.Forall_nil|done].
  - apply f_all. intros u t' E. apply (H u t' E). intros Hs. by destruct it.
  - apply f_starstar; [by destruct any; [destruct (Ha eq_refl)|]|done].
Qed.
Lemma star_verdict its t r : pathname flags = true -> found false (matches its) t r -> verdict (Star :: its) t r.
Proof.
  intros Hp [v t' -> Hv H|H|_ H].
  - apply v_match. apply matches_star; [by apply Hv|done].
  - apply v_all. intros u t' E _ Hm. apply matches_star_inv in Hm as (v & t2 & -> & _ & Hm). rewrite app_assoc in E. by eapply H.
  - apply v_starstar; [done|]. intros u t' E Hu Hm. apply matches_star_inv in Hm as (v & t2 & -> & Hv & Hm). rewrite app_assoc in E.
    eapply H; [exact E| |done]. by apply Forall_app.
Qed.
Lemma stars_verdict its t r : found true (matches its) t r -> verdict (Stars :: its) t r.
Proof.
  intros [v t' -> Hv H|H|? H]; [| |done].
  - by apply v_match, matches_stars.
  - apply v_all. intros u t' E _ Hm. apply matches_stars_inv in Hm as (v & t2 & -> & Hm). rewrite app_assoc in E. by eapply H.
Qed.
Lemma dirs_verdict its t r : Forall byte t -> ~ matches its t -> found true (matches (Lit SLASH :: its)) t r -> verdict (Dirs :: its) t r.
Proof.
  intros Hb Hn Hf. assert (Hsl : forall t', matches its t' -> matches (Lit SLASH :: its) (SLASH :: t')).
  { intros t' Hm. apply matches_char; [|done]. apply char_lit_slash; [unfold byte, SLASH; lia|done]. }
  destruct Hf as [v t' -> Hv H|H|? H]; [| |done].
  - apply matches_one in H as (c & t1 & -> & Hc & H); [|done]. apply Forall_app in Hb as [_ Hb]. inversion_clear Hb.
    apply char_lit_slash in Hc; [|done]. subst c. by apply v_match, matches_dirs.
  - apply v_all. intros u t' E Hcut Hm. apply matches_dirs_inv in Hm as [Hm|(v & t2 & -> & Hm)].
    + destruct (Hcut I) as [->|Hl]; [by subst|]. apply last_Some in Hl as (u' & ->).
      rewrite <- app_assoc in E. eapply (H u' (SLASH :: t')); [exact E|by apply Hsl].
    + rewrite app_assoc in E. eapply H; [exact E|by apply Hsl].
Qed.

(** *** a star in front of a slash *)
Lemma first_slash v t w t' : no_slash v -> v ++ SLASH :: t = w ++ SLASH :: t' ->
  exists u, t = u ++ t' /\ (u = [] \/ list.last u = Some SLASH) /\ (no_slash w -> u = []).
Proof.
  revert w. induction v as [|x v IH]; intros w Hv E.
  - destruct w as [|y w]; cbn [app] in E; [injection E as ->; exists []; split; [done|]; split; [by left|done]|]. injection E as E1 E2. subst y t. exists (w ++ [SLASH]).
    split; [by rewrite <- app_assoc|]. split; [right; apply last_snoc|]. intros Hw. by inversion_clear Hw.
  - inversion_clear Hv as [|? ? Hx Hv']. destruct w as [|y w]; cbn [app] in E; injection E as E1 E2; [done|].
    destruct (IH w Hv' E2) as (u & H1 & H2 & H3). exists u. split; [done|]. split; [done|]. intros Hw. inversion_clear Hw. by apply H3.
Qed.
Lemma jump_verdict its v t r : pathname flags = true -> no_slash v -> Forall byte (v ++ SLASH :: t) -> verdict its t r -> verdict (Star :: Lit SLASH :: its) (v ++ SLASH :: t) r.
Proof.
  intros Hp Hv Hb Hr.
  assert (Hgo : forall u t', v ++ SLASH :: t = u ++ t' -> matches (Star :: Lit SLASH :: its) t' ->
    exists w t2, t = w ++ t2 /\ (w = [] \/ list.last w = Some SLASH) /\ (no_slash u -> w = []) /\ matches its t2).
  { intros u t' E Hm. apply matches_star_inv in Hm as (v' & t1 & -> & Hv' & Hm). apply matches_one in Hm as (c & t2 & -> & Hc & Hm); [|done].
    rewrite E, !Forall_app in Hb. destruct Hb as (_ & _ & Hb). inversion_clear Hb. apply char_lit_slash in Hc; [|done]. subst c.
    rewrite app_assoc in E. destruct (first_slash v t (u ++ v') t2 Hv E) as (w & H1 & H2 & H3). exists w, t2. split; [done|]. split; [done|]. split; [|done].
    intros Hu. apply H3. by apply Forall_app. }
  destruct Hr as [H|H|H|_ H].
  - apply v_match, matches_star; [done|]. apply matches_char; [|done]. apply char_lit_slash; [unfold byte, SLASH; lia|done].
  - apply v_no. intros Hm. destruct (Hgo [] _ eq_refl Hm) as (w & t2 & E & _ & Hw & Hm2). apply H. rewrite (Hw (List.Forall_nil _)) in E. by subst.
  - apply v_all. intros u t' E _ Hm. destruct (Hgo u t' E Hm) as (w & t2 & E2 & Hw & _ & Hm2). eapply H; [exact E2|by intros _|done].
  - apply v_starstar; [done|]. intros u t' E Hu Hm. destruct (Hgo u t' E Hm) as (w & t2 & E2 & _ & Hw & Hm2). rewrite (Hw Hu) in E2. cbn [app] in E2. subst t2. by apply (H [] t eq_refl (List.Forall_nil _)).
Qed.
Lemma no_jump_verdict its t : Forall byte t -> no_slash t -> verdict (Star :: Lit SLASH :: its) t WM_ABORT_ALL.
Proof.
  intros Hb Ht. apply v_all. intros u t' E _ Hm. apply matches_star_inv in Hm as (v' & t1 & -> & Hv' & Hm).
  apply matches_one in Hm as (c & t2 & -> & Hc & Hm); [|done]. subst t. unfold no_slash in Ht. rewrite !Forall_app in Hb, Ht. destruct Hb as (_ & _ & Hb), Ht as (_ & _ & Ht).
  inversion_clear Hb. inversion_clear Ht. by apply char_lit_slash in Hc.
Qed.
(** *** stars at the end *)
Lemma last_star_verdict t : pathname flags = true -> verdict [Star] t (if existsb (fun c => c =? SLASH) t then WM_ABORT_TO_STARSTAR else WM_MATCH).
Proof.
  intros Hp. assert (Hn : forall t', matches [Star] t' -> no_slash t').
  { intros t' Hm. apply matches_star_inv in Hm as (v & t1 & -> & Hv & Hm). apply matches_nil in Hm as ->. by rewrite app_nil_r. }
  destruct (existsb (fun c => c =? SLASH) t) eqn:He.
  - apply v_starstar; [done|]. intros u t' -> Hu Hm. apply Hn in Hm. apply existsb_exists in He as (c & Hc & ->%Z.eqb_eq). apply in_app_iff in Hc as [Hc|Hc];
      [by eapply (proj1 (List.Forall_forall _ _) Hu)|by eapply (proj1 (List.Forall_forall _ _) Hm)].
  - apply v_match. rewrite <- (app_nil_r t). apply matches_star; [|constructor]. apply List.Forall_forall. intros c Hc ->. assert (existsb (fun c => c =? SLASH) t = true); [|congruence].
    apply existsb_exists. exists SLASH. by rewrite Z.eqb_refl.
Qed.
Lemma last_stars_verdict t : verdict [Stars] t WM_MATCH.
Proof. apply v_match. rewrite <- (app_nil_r t). apply matches_stars. constructor. Qed.
End verdict.

(** ** The code's character tests are the conventions *)
Lemma isascii_iff c : Sane.isascii c = (0 <=? c) && (c <? 128).
Proof.
  unfold Sane.isascii. change (Z.land c (Z.lnot 0x7f)) with (Z.ldiff c (Z.ones 7)). rewrite Z.ldiff_ones_r, Z.shiftr_div_pow2, Z.shiftl_mul_pow2 by lia.
  pose proof (Z.div_mod c (2 ^ 7) ltac:(lia)). pose proof (Z.mod_pos_bound c (2 ^ 7) ltac:(lia)). change (2 ^ 7) with 128 in *. lia.
Qed.
Lemma ascii_all (f g : Z -> bool) : forallb (fun i => Bool.eqb (f (Z.of_nat i)) (g (Z.of_nat i))) (seq 0 128) = true ->
  (forall c, Sane.isascii c = false -> f c = g c) -> forall c, f c = g c.
Proof.
  intros H Ho c. destruct (Sane.isascii c) eqn:Hc; [|by apply Ho]. rewrite isascii_iff in Hc. rewrite forallb_forall in H.
  specialize (H (Z.to_nat c)). rewrite in_seq in H. specialize (H ltac:(lia)). rewrite Z2Nat.id in H by lia. by apply eqb_prop.
Qed.
Ltac ascii_table := apply ascii_all; [vm_compute; reflexivity|]; intros ? Hc; cbv beta; unfold ISALNUM, ISALPHA, ISCNTRL, ISDIGIT, ISGRAPH, ISLOWER, ISPRINT, ISPUNCT,
  ISSPACE, ISUPPER, ISXDIGIT, ISBLANK, ISASCII; rewrite ?Hc; cbn [andb]; rewrite isascii_iff in Hc; cbn; lia.
Lemma upper_table c : ISUPPER c = between [(ch "A", ch "Z")] c.
Proof. revert c. ascii_table. Qed.
Lemma lower_table c : ISLOWER c = between [(ch "a", ch "z")] c.
Proof. revert c. ascii_table. Qed.
Lemma casefold_bit flags : casefold flags = folds flags.
Proof. unfold casefold, folds, WM_CASEFOLD. rewrite Z.bit0_odd. change 1 with (Z.ones 1). rewrite Z.land_ones by lia. change (2 ^ 1) with 2. rewrite Zmod_odd. by destruct (Z.odd flags). Qed.
Lemma pathname_bit flags : pathname flags = Z.testbit flags 1.
Proof.
  unfold pathname, WM_PATHNAME. change 2 with (2 ^ 1). destruct (Z.testbit flags 1) eqn:Hb.
  - apply negb_true_iff, Z.eqb_neq. intros H. apply (f_equal (fun x => Z.testbit x 1)) in H. rewrite Z.land_spec, Hb, Z.bits_0 in H. discriminate H.
  - apply negb_false_iff, Z.eqb_eq, Z.bits_inj'. intros n Hn. rewrite Z.land_spec, Z.bits_0, Z.pow2_bits_eqb by lia. destruct (Z.eqb_spec 1 n) as [<-|]; [by rewrite Hb|by rewrite andb_false_r].
Qed.
Lemma fold_folded flags c : fold_case flags c = folded flags c.
Proof.
  unfold fold_case, folded. rewrite casefold_bit, upper_table. destruct (folds flags); [|done]. cbn [andb]. destruct (between [(ch "A", ch "Z")] c) eqn:Hb; [|done].
  assert (H : forallb (fun i => negb (between [(ch "A", ch "Z")] (Z.of_nat i)) || (Sane.tolower (Z.of_nat i) =? Z.of_nat i + 32)) (seq 0 256) = true) by (vm_compute; reflexivity).
  assert (Hc : byte c) by (cbn in Hb; unfold byte; lia). apply (forallb_bytes _ c H) in Hc as H1. rewrite Z2Nat.id, Hb in H1 by (unfold byte in Hc; lia). by apply Z.eqb_eq.
Qed.
(** one class of POSIX: what the code tests is what its row of the table says *)
Definition class_row (flags : Z) (name : list Z) (f : Z -> bool) : Prop :=
  exists ranges, snd <$> list_find (fun p => name = p.1) posix_classes = Some (name, ranges) /\
    forall c, f c = between ranges c || folds flags && bool_decide (name = str "upper") && between [(ch "a", ch "z")] c.
Lemma row_posix flags name f c : class_row flags name f -> Some (f c) = posix_class flags name c.
Proof. intros (ranges & Hf & Hc). unfold posix_class. rewrite Hf. cbn [mbind option_bind]. by rewrite Hc. Qed.
Lemma row_plain flags name f ranges : snd <$> list_find (fun p => name = p.1) posix_classes = Some (name, ranges) -> name <> str "upper" ->
  (forall c, f c = between ranges c) -> class_row flags name f.
Proof. intros Hf Hn Hc. exists ranges. split; [done|]. intros c. rewrite (bool_decide_eq_false_2 _ Hn), andb_false_r, orb_false_r. apply Hc. Qed.
Ltac plain_row := match goal with |- Some (?f ?c) = _ => apply (row_posix _ _ f); eapply row_plain end; [vm_compute; reflexivity|discriminate|ascii_table].
Lemma named_posix flags name c : named_class flags name c = posix_class flags name c.
Proof.
  unfold named_class. repeat match goal with |- context [streq name ?s] => destruct (streq name s) eqn:?H; [match goal with H : streq name _ = true |- _ => apply streq_spec in H end; subst name|] end.
  all: try plain_row.
  - apply (row_posix _ _ (fun c => ISUPPER c || (casefold flags && ISLOWER c))). eexists. split; [vm_compute; reflexivity|]. intros c0. rewrite casefold_bit, upper_table, lower_table.
    rewrite (bool_decide_eq_true_2 _ eq_refl), andb_true_r. done.
  - unfold posix_class. destruct (list_find (fun p => name = p.1) posix_classes) as [[i p]|] eqn:Hf; [|done]. apply list_find_Some in Hf as (Hp & -> & _). apply list_elem_of_lookup_2, list_elem_of_In in Hp.
    exfalso. repeat (destruct Hp as [<-|Hp]; [by match goal with H : streq _ _ = false |- _ => vm_compute in H; discriminate H end|]). done.
Qed.
Lemma range_ranged flags lo hi c : in_range flags lo hi c = ranged flags lo hi c.
Proof.
  unfold in_range, ranged. rewrite casefold_bit, lower_table. cbn [between existsb fst snd]. rewrite !orb_false_r. rewrite andb_comm. destruct ((lo <=? c) && (c <=? hi)); [done|]. cbn [orb].
  destruct (folds flags); [|done]. cbn [andb]. destruct ((ch "a" <=? c) && (c <=? ch "z")) eqn:Hb; [|done].
  assert (H : forallb (fun i => negb (between [(ch "a", ch "z")] (Z.of_nat i)) || (Sane.toupper (Z.of_nat i) =? Z.of_nat i - 32)) (seq 0 256) = true) by (vm_compute; reflexivity).
  assert (Hc : byte c) by (cbn in Hb; unfold byte; lia). apply (forallb_bytes _ c H) in Hc as H1. rewrite Z2Nat.id in H1 by (unfold byte in Hc; lia). cbn [between existsb fst snd] in H1. rewrite orb_false_r, Hb in H1. apply Z.eqb_eq in H1. cbv zeta. rewrite H1. cbn [andb]. apply andb_comm.
Qed.

(** ** A pattern depends on the conventions alone *)
Section conventions.
Context (v v' : conventions) (Hfold : forall c, cv_fold v c = cv_fold v' c) (Hpath : cv_path v = cv_path v')
  (Hnamed : forall name c, cv_named v name c = cv_named v' name c) (Hrange : forall lo hi c, cv_range v lo hi c = cv_range v' lo hi c).
Lemma class_item_ext c prev l : g_class_item v c prev l = g_class_item v' c prev l.
Proof.
  unfold g_class_item. repeat case_match; try done; try congruence; match goal with H1 : cv_named v ?n _ = _, H2 : cv_named v' ?n _ = _ |- _ => rewrite Hnamed, H2 in H1; discriminate H1 end.
Qed.
Lemma class_items_ext fuel : forall l prev, g_class_items v fuel l prev = g_class_items v' fuel l prev.
Proof.
  induction fuel as [|fuel IH]; intros [|c l] prev; cbn [g_class_items]; try done. rewrite class_item_ext.
  destruct (g_class_item v' c prev l) as [[[a prev'] l']|]; [|done]. cbn [mbind option_bind]. by rewrite IH.
Qed.
Lemma parse_ext fuel : forall slash l, g_parse v fuel slash l = g_parse v' fuel slash l.
Proof.
  induction fuel as [|fuel IH]; intros slash [|c l]; cbn [g_parse]; try done. rewrite Hfold, Hpath.
  assert (Hc : g_class_of v l = g_class_of v' l) by (unfold g_class_of; destruct l; [done|]; by rewrite class_items_ext).
  rewrite Hc. repeat case_match; rewrite ?IH; done.
Qed.
Lemma char_ok_ext it c : g_char_ok v it c = g_char_ok v' it c.
Proof.
  unfold g_char_ok. rewrite Hfold, Hpath. destruct it as [| |negated atoms| | | |]; try done. do 3 f_equal.
  induction atoms as [|a atoms IH]; [done|]. cbn [existsb]. rewrite IH. f_equal. unfold g_atom_ok. destruct a; [done|apply Hrange|by rewrite Hnamed].
Qed.
Lemma matches_ext its t : g_matches v its t -> g_matches v' its t.
Proof. induction 1; [constructor|apply matches_char; [by rewrite <- char_ok_ext|done]|by apply matches_star|by apply matches_stars|by apply matches_no_dirs|by apply matches_dirs]. Qed.
End conventions.
Lemma pattern_matches_iff flags pattern text : pattern_matches flags pattern text <-> matches flags (items flags true pattern) text.
Proof.
  unfold pattern_matches, g_items. rewrite (parse_ext (conv_of flags) (git_conventions flags) (fold_folded flags) (pathname_bit flags) (named_posix flags)).
  split; apply matches_ext; conv; cbn [git_conventions cv_fold cv_path cv_named cv_range]; intros;
    rewrite ?fold_folded, ?pathname_bit, ?named_posix, ?range_ranged; done.
Qed.
