(* ===== verification/GitWildProps.v ===== *)
(** * git: wildmatch() matches what a pattern means

    Each part of dowild() against the items of the pattern; the theorem is that
    wildmatch() answers WM_MATCH for the texts the pattern [matches]. *)
From S2P Require Import Prelude GitBase GitWildmatch GitWildSpec.

(** ** Characters and strings *)
Definition cchar (c : Z) : Prop := 0 < c < 256.
Lemma cchar_byte c : cchar c -> byte c.
Proof. unfold cchar, byte. lia. Qed.
Lemma cchars_bytes l : Forall cchar l -> Forall byte l.
Proof. apply List.Forall_impl, cchar_byte. Qed.
Lemma fold_nonzero flags c : cchar c -> fold_case flags c <> 0.
Proof.
  intros Hc. assert (H : forallb (fun i => (i =? 0)%nat || negb (Sane.tolower (Z.of_nat i) =? 0)) (seq 0 256) = true) by (vm_compute; reflexivity).
  pose proof (forallb_bytes _ c H (cchar_byte c Hc)) as H1. cbv beta in H1. unfold cchar in Hc. rewrite Z2Nat.id in H1 by lia.
  unfold fold_case. destruct (casefold flags && ISUPPER c); [|lia]. destruct (Nat.eqb_spec (Z.to_nat c) 0); [lia|]. cbn [orb] in H1.
  destruct (Z.eqb_spec (Sane.tolower c) 0); [done|lia].
Qed.
Lemma fold_zero flags : fold_case flags 0 = 0.
Proof. unfold fold_case. by rewrite andb_false_r. Qed.
Lemma glob_special c : byte c -> Sane.is_glob_special c = (c =? ch "*") || (c =? ch "?") || (c =? ch "[") || (c =? ch "\").
Proof.
  intros Hc. assert (H : forallb (fun i => let c := Z.of_nat i in Bool.eqb (Sane.is_glob_special c) ((c =? ch "*") || (c =? ch "?") || (c =? ch "[") || (c =? ch "\"))) (seq 0 256) = true)
    by (vm_compute; reflexivity). apply (forallb_bytes _ c H) in Hc as H1. rewrite Z2Nat.id in H1 by (unfold byte in Hc; lia). by apply eqb_prop in H1.
Qed.
(** none of the characters with a meaning is a letter *)
Lemma fold_special flags c d : byte c -> In d [ch "\"; ch "?"; ch "*"; ch "["] -> (fold_case flags c =? d) = (c =? d).
Proof.
  intros Hc Hd. assert (H : forallb (fun i => forallb (fun d => Bool.eqb (Sane.tolower (Z.of_nat i) =? d) (Z.of_nat i =? d)) [ch "\"; ch "?"; ch "*"; ch "["]) (seq 0 256) = true)
    by (vm_compute; reflexivity). apply (forallb_bytes _ c H) in Hc as H1. rewrite Z2Nat.id in H1 by (unfold byte in Hc; lia).
  rewrite forallb_forall in H1. apply H1, eqb_prop in Hd. unfold fold_case. by destruct (casefold flags && ISUPPER c).
Qed.

(** the C string [l] starts at offset [i] *)
Record str_at (buf : list Z) (i : Z) (l : list Z) : Prop := mkStrAt { sa_left : left_at buf i (l ++ [0]); sa_chars : Forall cchar l }.
Lemma str_rd {St} buf i l (s : St) : str_at buf i l -> rd buf i s = Ok (hd0 l) s.
Proof. intros [H _]. destruct l as [|c l]; by eapply left_rd. Qed.
Lemma str_next buf i c l : str_at buf i (c :: l) -> str_at buf (i + 1) l.
Proof. intros [H Hc]. split; [by eapply left_next|]. by inversion_clear Hc. Qed.
Lemma str_skip buf i v l : str_at buf i (v ++ l) -> str_at buf (i + zlen v) l.
Proof. intros [H Hc]. split; [apply left_skip; by rewrite app_assoc|]. by apply Forall_app in Hc as [_ Hc]. Qed.
Lemma str_char buf i c l : str_at buf i (c :: l) -> cchar c.
Proof. intros [_ Hc]. by inversion_clear Hc. Qed.
Lemma str_size buf i l : str_at buf i l -> 0 <= i /\ i + zlen l < zlen buf /\ (length l < length buf)%nat.
Proof. intros [H _]. apply left_size in H as [H1 H2]. rewrite zlen_app in H2. unfold zlen in *. cbn [length] in H2. lia. Qed.
Lemma str_left buf i l : str_at buf i l -> zlen buf - i = zlen l + 1.
Proof. intros [H _]. apply left_size in H as [_ H]. by rewrite zlen_app in H. Qed.
Lemma str_idx buf i c l : str_at buf i (c :: l) -> idx buf i = Some c.
Proof. intros [(pre & -> & ->) _]. unfold idx. pose proof (zlen_pos pre). replace (zlen pre <? 0) with false by lia. unfold zlen. cbn [app]. by rewrite Nat2Z.id, list_lookup_middle. Qed.
Lemma hd0_nonzero buf i l : str_at buf i l -> (hd0 l =? 0) = match l with [] => true | _ => false end.
Proof. intros H. destruct l as [|c l]; [done|]. apply str_char in H. unfold cchar in H. apply Z.eqb_neq. cbn. lia. Qed.
Lemma str_whole l : Forall cchar l -> str_at (l ++ [0]) 0 l.
Proof. intros H. split; [apply left_all|done]. Qed.

(** evaluate a read of a string *)
Ltac rd_str H := rewrite (bind_ok _ _ _ _ _ (str_rd _ _ _ _ H)); cbn [hd0 hd].

Section wild.
Context (flags : Z) (pat txt : list Z) (Hpat : zlen pat <= 2 ^ 31).
Context (st : unit).

(** ** Sets *)
Lemma class_end_ok p l : str_at pat p l -> exists p', class_end pat p st = Ok (p', hd0 (skip_while (fun x => negb (x =? ch "]")) l)) st /\
  p' = p + zlen (take_while (fun x => negb (x =? ch "]")) l).
Proof.
  intros H. unfold class_end. assert (Hf : (length l < fuel_p pat)%nat) by (apply str_size in H; unfold fuel_p; lia). revert p H Hf.
  generalize (fuel_p pat) as fuel. induction l as [|c l IH]; intros [|fuel] p H Hf; cbn [length] in Hf; try lia.
  - exists p. split; [|change (zlen (take_while (fun x => negb (x =? ch "]")) [])) with 0; lia]. apply iter_last. by rd_str H.
  - cbn [skip_while take_while]. destruct (Z.eqb_spec c (ch "]")) as [->|Hne]; cbn [negb].
    + exists p. split; [|change (zlen []) with 0; lia]. apply iter_last. by rd_str H.
    + destruct (IH fuel (p + 1) (str_next _ _ _ _ H) ltac:(lia)) as (p' & E & ->). exists (p + 1 + zlen (take_while (fun x => negb (x =? ch "]")) l)).
      split; [|rewrite zlen_cons; lia]. rewrite <- E. apply iter_next. rd_str H. pose proof (str_char _ _ _ _ H) as Hc. unfold cchar in Hc.
      replace (c =? 0) with false by lia. apply Z.eqb_neq in Hne. by rewrite Hne.
Qed.
Lemma named_known name t : match named_class flags name 0 with Some _ => exists b, named_class flags name t = Some b | None => named_class flags name t = None end.
Proof. unfold named_class. repeat (match goal with |- context [streq name ?s] => destruct (streq name s) end; [by eexists|]). done. Qed.
Lemma class_turn_ok t p c l prev m : str_at pat p (c :: l) ->
  match class_item flags c prev l with
  | None => class_turn flags pat t p c prev m st = Ok None st
  | Some (a, prev', l') => exists p', class_turn flags pat t p c prev m st = Ok (Some (p', prev', atom_ok flags t a || m)) st /\ str_at pat (p' + 1) l'
  end.
Proof.
  intros H. pose proof (str_char _ _ _ _ H) as Hc. pose proof (str_next _ _ _ _ H) as H1. unfold class_turn, g_class_item. conv. unfold cchar in Hc. replace (c =? 0) with false by lia.
  destruct (c =? ch "\").
  { rd_str H1. rewrite (hd0_nonzero _ _ _ H1). destruct l as [|d l]; [done|]. exists (p + 1). split; [done|]. by eapply str_next. }
  rewrite (bind_ok _ _ _ ((c =? ch "-") && negb (prev =? 0) && match l with [] => false | d :: _ => negb (d =? ch "]") end) st).
  2:{ destruct ((c =? ch "-") && negb (prev =? 0)); [|done]. rd_str H1. rewrite (hd0_nonzero _ _ _ H1). by destruct l. }
  destruct ((c =? ch "-") && negb (prev =? 0) && match l with [] => false | d :: _ => negb (d =? ch "]") end) eqn:Hr.
  { destruct l as [|d l]; [by rewrite andb_false_r in Hr|]. rd_str H1. pose proof (str_next _ _ _ _ H1) as H2. destruct (d =? ch "\"); [|exists (p + 1); by split].
    rd_str H2. rewrite (hd0_nonzero _ _ _ H2). destruct l as [|e l]; [done|]. exists (p + 1 + 1). split; [done|]. by eapply str_next. }
  rewrite (bind_ok _ _ _ ((c =? ch "[") && (hd0 l =? ch ":")) st) by (destruct (c =? ch "["); [by rd_str H1|done]).
  destruct ((c =? ch "[") && (hd0 l =? ch ":")) eqn:Hb; [|exists p; by split].
  apply andb_prop in Hb as [Hb Hcol]. apply Z.eqb_eq in Hb. subst c. destruct l as [|d l]; [done|]. apply Z.eqb_eq in Hcol. cbn in Hcol. subst d. cbn [tail].
  pose proof (str_next _ _ _ _ H1) as H2. replace (p + 1 + 1) with (p + 2) in H2 by lia. cbv zeta. destruct (class_end_ok (p + 2) l H2) as (p' & E & Hp').
  rewrite (bind_ok _ _ _ _ _ E). set (inner := take_while (fun x => negb (x =? ch "]")) l) in *. pose proof (take_skip_while (fun x => negb (x =? ch "]")) l) as Hl. fold inner in Hl.
  set (after := skip_while (fun x => negb (x =? ch "]")) l) in *. rewrite <- Hl in H2. pose proof (str_skip _ _ _ _ H2) as H3. rewrite <- Hp' in H3. rewrite (hd0_nonzero _ _ _ H3).
  destruct after as [|x rest] eqn:Ha; [done|]. pose proof (str_size _ _ _ H2) as Hsz. rewrite zlen_app, zlen_cons in Hsz. pose proof (zlen_pos rest). pose proof (zlen_pos inner).
  rewrite i32_small by lia. replace (p' - (p + 2) - 1) with (zlen inner - 1) by lia. destruct (rev inner) as [|y name] eqn:Hrev.
  { apply (f_equal (@rev Z)) in Hrev. rewrite rev_involutive in Hrev. rewrite Hrev. cbn [rev]. change (zlen [] - 1) with (-1). cbn. exists (p + 2 - 2). split; [done|]. by replace (p + 2 - 2 + 1) with (p + 1) by lia. }
  apply (f_equal (@rev Z)) in Hrev. rewrite rev_involutive in Hrev. cbn [rev] in Hrev. rewrite Hrev, zlen_app. change (zlen [y]) with 1. pose proof (zlen_pos (rev name)).
  replace (zlen (rev name) + 1 - 1) with (zlen (rev name)) by lia. replace (zlen (rev name) <? 0) with false by lia. rewrite Hrev, <- app_assoc in H2. cbn [app] in H2.
  pose proof (str_skip _ _ _ _ H2) as Hy. replace (p + 2 + zlen (rev name)) with (p' - 1) in Hy by (rewrite Hp', Hrev, zlen_app; change (zlen [y]) with 1; lia).
  rewrite (bind_ok _ _ _ (y =? ch ":") st) by (by rd_str Hy). destruct (y =? ch ":"); cbn [negb].
  2:{ exists (p + 2 - 2). split; [done|]. by replace (p + 2 - 2 + 1) with (p + 1) by lia. }
  destruct H2 as [H2 _]. rewrite <- app_assoc in H2. rewrite (bind_ok _ _ _ _ _ (left_rd_n _ _ _ _ st H2)). pose proof (named_known (rev name) t) as Hk.
  destruct (named_class flags (rev name) 0); [|by rewrite Hk]. destruct Hk as (b' & Hk). rewrite Hk. exists p'. cbn [g_atom_ok]. conv. rewrite Hk. split; [done|]. by eapply str_next.
Qed.
Lemma class_loop_ok t k : forall l p prev m n, str_at pat p l -> (length l <= k)%nat -> (k < n)%nat ->
  match class_items flags k l prev with
  | None => iter n (class_body flags pat t) (p, hd0 l, prev, m) st = Ok None st
  | Some (atoms, rest) => exists p', iter n (class_body flags pat t) (p, hd0 l, prev, m) st = Ok (Some (p', existsb (atom_ok flags t) atoms || m)) st /\
      str_at pat p' (ch "]" :: rest)
  end.
Proof.
  induction k as [|k IH]; intros [|c l] p prev m [|n] H Hk Hn; cbn [length g_class_items] in *; conv; try lia; [by apply iter_last..|].
  pose proof (class_turn_ok t p c l prev m H) as Ht. destruct (class_item flags c prev l) as [[[a prev'] l']|] eqn:Hi; cbn [mbind option_bind].
  2:{ apply iter_last. unfold class_body. cbn [hd0 hd]. by rewrite (bind_ok _ _ _ _ _ Ht). }
  destruct Ht as (p' & Ht & Hat). apply class_item_rest, suffix_length in Hi.
  assert (Hb : class_body flags pat t (p, c, prev, m) st = if hd0 l' =? ch "]" then Ok (inr (Some (p' + 1, atom_ok flags t a || m))) st
    else Ok (inl (p' + 1, hd0 l', prev', atom_ok flags t a || m)) st).
  { unfold class_body. rewrite (bind_ok _ _ _ _ _ Ht). rewrite (bind_ok _ _ _ _ _ (str_rd _ _ _ _ Hat)). by destruct (hd0 l' =? ch "]"). }
  destruct (Z.eqb_spec (hd0 l') (ch "]")) as [Hd|Hd].
  - destruct l' as [|d rest]; [done|]. cbn in Hd. subst d. cbn [Z.eqb Pos.eqb]. exists (p' + 1). split; [|done]. rewrite (iter_last _ _ _ _ _ _ Hb). cbn [existsb]. by rewrite orb_false_r.
  - specialize (IH l' (p' + 1) prev' (atom_ok flags t a || m) n Hat ltac:(lia) ltac:(lia)). destruct l' as [|d rest].
    + assert (Hnone : class_items flags k [] prev' = None) by (by destruct k). rewrite Hnone in IH. rewrite (iter_next _ _ _ _ _ _ Hb). exact IH.
    + cbn in Hd. replace (d =? ch "]") with false by lia. destruct (class_items flags k (d :: rest) prev') as [[atoms rest']|]; cbn [mbind option_bind].
      * destruct IH as (p2 & IH & Hp2). exists p2. split; [|done]. rewrite (iter_next _ _ _ _ _ _ Hb), IH. cbn [existsb]. do 3 f_equal. destruct (atom_ok flags t a), (existsb (atom_ok flags t) atoms); done.
      * by rewrite (iter_next _ _ _ _ _ _ Hb), IH.
Qed.
Lemma wild_class_ok c p l text : str_at pat p (ch "[" :: l) ->
  match class_of flags l with
  | None => wild_class flags pat (fold_case flags c) p text st = Ok (inr WM_ABORT_ALL) st
  | Some (it, rest) => if char_ok flags it c then exists p', wild_class flags pat (fold_case flags c) p text st = Ok (inl (p' + 1, text + 1)) st /\ str_at pat p' (ch "]" :: rest)
      else wild_class flags pat (fold_case flags c) p text st = Ok (inr WM_NOMATCH) st
  end.
Proof.
  intros H. pose proof (str_next _ _ _ _ H) as H1. unfold wild_class, g_class_of. conv. rewrite (bind_ok _ _ _ _ _ (str_rd _ _ _ _ H1)). cbv zeta. destruct l as [|d l].
  { cbn [hd0 hd]. change (0 =? NEGATE_CLASS2) with false. change (0 =? NEGATE_CLASS) with false. cbv match. rewrite (bind_ok (ret (p + 1, 0)) _ st _ st eq_refl). unfold fuel_p.
    erewrite bind_ok by (by apply iter_last). done. }
  cbn [hd0 hd]. assert (Hn : ((if d =? NEGATE_CLASS2 then NEGATE_CLASS else d) =? NEGATE_CLASS) = is_neg d).
  { unfold is_neg, NEGATE_CLASS, NEGATE_CLASS2. destruct (d =? ch "^"); [by rewrite orb_true_r|by rewrite orb_false_r]. }
  rewrite Hn. set (l1 := if is_neg d then l else d :: l). assert (Hp1 : exists p1, str_at pat p1 l1 /\
    (if is_neg d then p_ch <- rd pat (p + 1 + 1) ;; ret (p + 1 + 1, p_ch) else ret (p + 1, if d =? NEGATE_CLASS2 then NEGATE_CLASS else d)) st = Ok (p1, hd0 l1) st).
  { unfold l1. destruct (is_neg d) eqn:Hneg.
    - pose proof (str_next _ _ _ _ H1) as H2. exists (p + 1 + 1). split; [done|]. by rewrite (bind_ok _ _ _ _ _ (str_rd _ _ _ _ H2)).
    - exists (p + 1). split; [done|]. unfold is_neg in Hneg. apply orb_false_elim in Hneg as [_ Hneg]. unfold NEGATE_CLASS2. by rewrite Hneg. }
  destruct Hp1 as (p1 & Hat & E1). rewrite (bind_ok _ _ _ _ _ E1).
  pose proof (class_loop_ok (fold_case flags c) (length l1) l1 p1 0 false (fuel_p pat) Hat ltac:(lia)) as Hl.
  specialize (Hl ltac:(apply str_size in Hat; unfold fuel_p; lia)). destruct (class_items flags (length l1) l1 0) as [[atoms rest]|]; cbn [mbind option_bind].
  2:{ by rewrite (bind_ok _ _ _ _ _ Hl). }
  destruct Hl as (p' & Hl & Hat'). rewrite (bind_ok _ _ _ _ _ Hl). cbn [g_char_ok]. conv. rewrite orb_false_r.
  destruct (Bool.eqb (existsb (atom_ok flags (fold_case flags c)) atoms) (is_neg d)); cbn [negb andb orb]; [done|].
  destruct (pathname flags && (fold_case flags c =? SLASH)); cbn [negb]; [done|]. by exists p'.
Qed.

(** ** Stars *)
Lemma skip_stars_ok l : forall p n c, str_at pat p (c :: l) -> (length l < n)%nat ->
  exists p', iter n (fun p => c <- rd pat (p + 1) ;; if c =? ch "*" then ret (inl (p + 1)) else ret (inr (p + 1))) p st = Ok p' st /\
    str_at pat p' (skip_while is_star l) /\ p < p'.
Proof.
  induction l as [|d l IH]; intros p [|n] c H Hn; cbn [length] in Hn; try lia; pose proof (str_next _ _ _ _ H) as H1.
  - exists (p + 1). split; [|split; [done|lia]]. apply iter_last. by rd_str H1.
  - cbn [skip_while]. unfold is_star at 1. destruct (Z.eqb_spec d (ch "*")) as [->|Hne].
    + destruct (IH (p + 1) n _ H1 ltac:(lia)) as (p' & E & H2 & Hp). exists p'. split; [|split; [done|lia]]. rewrite <- E. apply iter_next. by rd_str H1.
    + exists (p + 1). split; [|split; [done|lia]]. apply iter_last. rd_str H1. by replace (d =? ch "*") with false by lia.
Qed.
Lemma find_slash_ok t : forall text n, str_at txt text t -> (length t < n)%nat ->
  exists r, iter n (fun text => c <- rd txt text ;; if c =? SLASH then ret (inr (Some text)) else if c =? 0 then ret (inr None) else ret (inl (text + 1))) text st = Ok r st /\
    match r with
    | None => no_slash t
    | Some text' => exists v t', t = v ++ SLASH :: t' /\ no_slash v /\ str_at txt text' (SLASH :: t')
    end.
Proof.
  induction t as [|c t IH]; intros text [|n] H Hn; cbn [length] in Hn; try lia.
  - exists None. split; [|apply List.Forall_nil]. apply iter_last. by rd_str H.
  - destruct (Z.eqb_spec c SLASH) as [->|Hne].
    + exists (Some text). split; [|exists [], t; split; [done|split; [apply List.Forall_nil|done]]]. apply iter_last. by rd_str H.
    + destruct (IH (text + 1) n (str_next _ _ _ _ H) ltac:(lia)) as (r & E & Hr). exists r. split.
      * rewrite <- E. apply iter_next. rd_str H. replace (c =? SLASH) with false by lia. pose proof (hd0_nonzero _ _ _ H) as H0. cbn in H0. by rewrite H0.
      * destruct r as [text'|]; [|by apply List.Forall_cons]. destruct Hr as (v & t' & -> & Hv & Ht). exists (c :: v), t'. split; [done|]. split; [by apply List.Forall_cons|done].
Qed.
Lemma find_slash_spec text t : str_at txt text t -> exists r, find_slash txt text st = Ok r st /\
  match r with None => no_slash t | Some text' => exists v t', t = v ++ SLASH :: t' /\ no_slash v /\ str_at txt text' (SLASH :: t') end.
Proof. intros H. apply (find_slash_ok t text (fuel_t txt) H). apply str_size in H. unfold fuel_t. lia. Qed.
(** where the scan for the literal [p_ch] stops *)
Definition scanned (any : bool) (p_ch : Z) (t2 : list Z) (t_ch : Z) : Prop :=
  match t2 with
  | [] => t_ch = 0
  | x :: _ => fold_case flags x = p_ch /\ t_ch = p_ch /\ (any = false -> x <> SLASH) \/ any = false /\ x = SLASH /\ t_ch = SLASH
  end.
Lemma scan_ok any p_ch t : forall text n, str_at txt text t -> (length t < n)%nat ->
  exists v t2 text' t_ch, iter n (scan_body flags txt any p_ch) text st = Ok (text', t_ch) st /\ t = v ++ t2 /\ str_at txt text' t2 /\
    Forall (fun x => fold_case flags x <> p_ch /\ (any = false -> x <> SLASH)) v /\ scanned any p_ch t2 t_ch.
Proof.
  induction t as [|c t IH]; intros text [|n] H Hn; cbn [length] in Hn; try lia.
  - exists [], [], text, 0. split; [|split; [done|split; [done|split; [apply List.Forall_nil|done]]]]. apply iter_last. unfold scan_body. by rd_str H.
  - assert (Hb : scan_body flags txt any p_ch text st = if any || negb (c =? SLASH) then
        (if fold_case flags c =? p_ch then Ok (inr (text, fold_case flags c)) st else Ok (inl (text + 1)) st) else Ok (inr (text, c)) st).
    { unfold scan_body. rd_str H. pose proof (hd0_nonzero _ _ _ H) as H0. cbn in H0. rewrite H0. cbn [negb andb]. destruct (any || negb (c =? SLASH)); [|done]. cbv zeta. by destruct (fold_case flags c =? p_ch). }
    assert (Hstop : forall t_ch, scanned any p_ch (c :: t) t_ch -> scan_body flags txt any p_ch text st = Ok (inr (text, t_ch)) st ->
      exists v t2 text' t_ch, iter (S n) (scan_body flags txt any p_ch) text st = Ok (text', t_ch) st /\ c :: t = v ++ t2 /\ str_at txt text' t2 /\
      Forall (fun x => fold_case flags x <> p_ch /\ (any = false -> x <> SLASH)) v /\ scanned any p_ch t2 t_ch).
    { intros t_ch Hs E. exists [], (c :: t), text, t_ch. split; [by apply iter_last|]. split; [done|]. split; [done|]. split; [apply List.Forall_nil|done]. }
    destruct (any || negb (c =? SLASH)) eqn:Hgo.
    + assert (Hsl : any = false -> c <> SLASH) by (intros ->; cbn [orb] in Hgo; intros ->; done).
      destruct (Z.eqb_spec (fold_case flags c) p_ch) as [He|He]; [apply (Hstop p_ch); [by left|by rewrite Hb, He]|].
      destruct (IH (text + 1) n (str_next _ _ _ _ H) ltac:(lia)) as (v & t2 & text' & t_ch & E & -> & Hat & Hv & Hs). exists (c :: v), t2, text', t_ch.
      split; [by rewrite (iter_next _ _ _ _ _ _ Hb)|]. split; [done|]. split; [done|]. split; [by apply List.Forall_cons|done].
    + apply orb_false_elim in Hgo as [-> Hc]. destruct (Z.eqb_spec c SLASH) as [->|]; [|done]. apply (Hstop SLASH); [by right|by rewrite Hb].
Qed.
Lemma found_skip any its p_ch v t r : Forall (fun x => fold_case flags x <> p_ch /\ (any = false -> x <> SLASH)) v ->
  found any (matches flags (Lit p_ch :: its)) t r -> found any (matches flags (Lit p_ch :: its)) (v ++ t) r.
Proof.
  intros Hv H. induction Hv as [|x v [Hx Hs] _ IH]; [done|]. cbn [app]. apply found_cons; [|done|done].
  intros Hm. apply matches_one in Hm as (c & t1 & [= <- <-] & Hc & _); [|done]. cbn [g_char_ok] in Hc. conv. by apply Z.eqb_eq in Hc.
Qed.

Context (rec : Z -> Z -> P0 Z) (size : nat).
(** dowild() does what it should for what is left of the pattern *)
Context (Hrec : forall p l text t, str_at pat p l -> (length l < size)%nat -> str_at txt text t ->
  exists r, rec p text st = Ok r st /\ verdict flags (items flags true l) t r).

(** the loop behind a star: [t_ch] may be folded or not *)
Definition head_char (t : list Z) (t_ch : Z) : Prop := t_ch = hd0 t \/ t_ch = fold_case flags (hd0 t).
Lemma head_zero text t t_ch : str_at txt text t -> head_char t t_ch -> (t_ch =? 0) = match t with [] => true | _ => false end.
Proof.
  intros H [->| ->]; [by eapply hd0_nonzero|]. destruct t as [|c t]; [by rewrite fold_zero|]. apply str_char in H. apply Z.eqb_neq. by apply fold_nonzero.
Qed.
Lemma head_slash text c t t_ch : str_at txt text (c :: t) -> head_char (c :: t) t_ch -> (t_ch =? SLASH) = (c =? SLASH).
Proof.
  intros H [->| ->]; [done|]. apply str_char, cchar_byte in H. apply eq_true_iff_eq. rewrite !Z.eqb_eq. cbn [hd0 hd]. by apply fold_slash_iff.
Qed.
Lemma star_try_ok any p c l it its text x t t_ch : str_at pat p (c :: l) -> (length (c :: l) < size)%nat -> is_star c = false -> items flags false (c :: l) = it :: its -> one it ->
  str_at txt text (x :: t) -> head_char (x :: t) t_ch ->
  (exists r, star_try txt rec any p text t_ch st = Ok (inr r) st /\ found any (matches flags (it :: its)) (x :: t) r) \/
  (exists t_ch', star_try txt rec any p text t_ch st = Ok (inl (text + 1, t_ch')) st /\ head_char t t_ch' /\
    forall r, found any (matches flags (it :: its)) t r -> found any (matches flags (it :: its)) (x :: t) r).
Proof.
  intros Hp Hl Hc Hits Ho Ht Hch. destruct (Hrec p (c :: l) text (x :: t) Hp Hl Ht) as (r & E & Hv).
  destruct (items_one flags true c l Hc) as (it' & its' & E1 & Ho' & E2). rewrite E2 in Hits. injection Hits as -> ->. rewrite E1 in Hv. clear E1 E2 Ho'.
  assert (Hnext : (t_ch <- rd txt (text + 1) ;; ret (inl (text + 1, t_ch) : Z * Z + Z)) st = Ok (inl (text + 1, hd0 t)) st)
    by (pose proof (str_next _ _ _ _ Ht) as Ht1; by rd_str Ht1).
  unfold star_try. rewrite (bind_ok _ _ _ _ _ E). cbv zeta. destruct (Z.eqb_spec r WM_NOMATCH) as [-> |Hr]; cbn [negb].
  - apply verdict_no in Hv; [|done]. rewrite (head_slash _ _ _ _ Ht Hch). destruct any; cbn [negb andb].
    + right. exists (hd0 t). split; [done|]. split; [by left|]. intros r. by apply found_cons.
    + destruct (Z.eqb_spec x SLASH) as [->|Hx].
      * left. exists WM_ABORT_TO_STARSTAR. split; [done|]. by apply found_slash.
      * right. exists (hd0 t). split; [done|]. split; [by left|]. intros r. by apply found_cons.
  - destruct (negb any || negb (r =? WM_ABORT_TO_STARSTAR)) eqn:Hb.
    + left. exists r. split; [done|]. apply found_verdict; [done..|]. intros ->. cbn [negb orb] in Hb. intros ->. done.
    + apply orb_false_elim in Hb as [Ha Hb]. destruct any; [|done]. destruct (Z.eqb_spec r WM_ABORT_TO_STARSTAR) as [->|]; [|done].
      right. exists (hd0 t). split; [done|]. split; [by left|]. intros r. apply found_cons; [|done]. by eapply verdict_no.
Qed.
Lemma star_loop_ok any p c l it its : str_at pat p (c :: l) -> (length (c :: l) < size)%nat -> is_star c = false -> items flags false (c :: l) = it :: its -> one it ->
  (any = false -> c <> SLASH) ->
  forall n t text t_ch, str_at txt text t -> head_char t t_ch -> (length t < n)%nat ->
  exists r, iter n (star_body flags pat txt rec any p) (text, t_ch) st = Ok r st /\ found any (matches flags (it :: its)) t r.
Proof.
  intros Hp Hl Hc Hits Ho Hany. induction n as [|n IH]; intros t text t_ch Ht Hch Hn; [lia|].
  assert (Hnil : ~ matches flags (it :: its) []) by (intros Hm; by apply matches_one in Hm as (? & ? & ? & _)).
  destruct t as [|x t].
  { exists WM_ABORT_ALL. split; [|apply found_nil; [done|by left]]. apply iter_last. unfold star_body. by rewrite (head_zero _ _ _ Ht Hch). }
  cbn [length] in Hn. assert (Htry : forall v text' y t2 t_ch', str_at txt text' (y :: t2) -> head_char (y :: t2) t_ch' -> x :: t = v ++ y :: t2 ->
    (forall r, found any (matches flags (it :: its)) (y :: t2) r -> found any (matches flags (it :: its)) (x :: t) r) ->
    star_body flags pat txt rec any p (text, t_ch) st = star_try txt rec any p text' t_ch' st ->
    exists r, iter (S n) (star_body flags pat txt rec any p) (text, t_ch) st = Ok r st /\ found any (matches flags (it :: its)) (x :: t) r).
  { intros v text' y t2 t_ch' Hat Hch' Ev Hf Eb. destruct (star_try_ok any p c l it its text' y t2 t_ch' Hp Hl Hc Hits Ho Hat Hch') as [(r & E & Hr)|(t_ch2 & E & Hch2 & Hr)].
    - exists r. split; [apply iter_last; by rewrite Eb|]. by apply Hf.
    - apply (f_equal length) in Ev. rewrite length_app in Ev. cbn [length] in Ev. destruct (IH t2 (text' + 1) t_ch2 (str_next _ _ _ _ Hat) Hch2 ltac:(lia)) as (r & E2 & Hr2).
      exists r. split; [rewrite <- E2; apply iter_next; by rewrite Eb|]. by apply Hf, Hr. }
  pose proof (str_char _ _ _ _ Hp) as Hcc. pose proof (glob_special c (cchar_byte _ Hcc)) as Hg.
  assert (Hb0 : star_body flags pat txt rec any p (text, t_ch) st =
    (if negb (Sane.is_glob_special c) then
      let* (text, t_ch) := iter (fuel_t txt) (scan_body flags txt any (fold_case flags c)) text in
      if negb (t_ch =? fold_case flags c) then ret (inr (if any then WM_ABORT_ALL else WM_ABORT_TO_STARSTAR)) else star_try txt rec any p text t_ch
     else star_try txt rec any p text t_ch) st).
  { unfold star_body. rewrite (head_zero _ _ _ Ht Hch). by rd_str Hp. }
  destruct (Sane.is_glob_special c); cbn [negb] in Hb0; [by apply (Htry [] text x t t_ch)|].
  symmetry in Hg. rewrite !orb_false_iff in Hg. destruct Hg as [[[Hg1 Hg2] Hg3] Hg4]. rewrite items_cons, Hg4, Hg2, Hg3, Hc in Hits. injection Hits as <- <-.
  destruct (scan_ok any (fold_case flags c) (x :: t) text (fuel_t txt) Ht ltac:(apply str_size in Ht; unfold fuel_t; lia)) as (v & t2 & text' & t_ch2 & E & Ev & Hat & Hv & Hs).
  rewrite (bind_ok _ _ _ _ _ E) in Hb0. pose proof (fold_nonzero flags c Hcc) as Hnz. destruct t2 as [|y t2]; cbn [scanned] in Hs.
  - subst t_ch2. exists (if any then WM_ABORT_ALL else WM_ABORT_TO_STARSTAR). split; [apply iter_last; rewrite Hb0; by replace (0 =? fold_case flags c) with false by lia|].
    rewrite Ev. apply (found_skip any _ _ v [] _ Hv). apply found_nil; [done|]. destruct any; [by left|by right].
  - destruct Hs as [(Hy & -> & Hsl)|(-> & -> & ->)].
    + rewrite Z.eqb_refl in Hb0. cbn [negb] in Hb0. apply (Htry v text' y t2 (fold_case flags c)); [done|by right|done| |done].
      intros r Hr. rewrite Ev. by apply found_skip.
    + assert (Hne : SLASH <> fold_case flags c) by (intros Heq; symmetry in Heq; apply fold_slash_iff in Heq; [by apply Hany|by apply cchar_byte]).
      replace (SLASH =? fold_case flags c) with false in Hb0 by lia. exists WM_ABORT_TO_STARSTAR. split; [by apply iter_last|]. rewrite Ev. apply found_skip; [done|].
      apply found_slash. intros Hm. apply matches_one in Hm as (z & t3 & [= <- <-] & Hz & _); [|done]. cbn [g_char_ok] in Hz. conv. apply Z.eqb_eq in Hz.
      rewrite (proj2 (fold_slash_iff flags SLASH ltac:(unfold byte, SLASH; lia)) eq_refl) in Hz. done.
Qed.
Lemma str_bytes buf i l : str_at buf i l -> Forall byte l.
Proof. intros [_ H]. by apply cchars_bytes. Qed.
Lemma no_slash_existsb t : no_slash t -> existsb (fun c => c =? SLASH) t = false.
Proof. intros H. apply not_true_is_false. intros (c & Hc & Hs%Z.eqb_eq)%existsb_exists. by apply (proj1 (List.Forall_forall _ _) H c Hc). Qed.
Lemma slash_existsb v t : existsb (fun c => c =? SLASH) (v ++ SLASH :: t) = true.
Proof. rewrite existsb_app. cbn [existsb]. by rewrite Z.eqb_refl, orb_true_r. Qed.
(** not at another star *)
Definition past_stars (l : list Z) : Prop := match l with [] => True | c :: _ => is_star c = false end.
Lemma past_skip l : past_stars (skip_while is_star l).
Proof. induction l as [|c l IH]; [done|]. cbn [skip_while]. by destruct (is_star c) eqn:Hc. Qed.
Lemma star_rest_any p l text t t_ch : str_at pat p l -> (length l < size)%nat -> past_stars l -> str_at txt text t -> head_char t t_ch ->
  exists r, star_rest flags pat txt rec true p text t_ch st = Ok (inr r) st /\
    match l with [] => r = WM_MATCH | _ => found true (matches flags (items flags false l)) t r end.
Proof.
  intros Hp Hl Hs Ht Hch. unfold star_rest. rewrite (bind_ok _ _ _ _ _ (str_rd _ _ _ _ Hp)), (hd0_nonzero _ _ _ Hp). cbn [negb andb]. destruct l as [|c l]; [by exists WM_MATCH|].
  destruct (items_one flags true c l Hs) as (it & its & _ & Ho & E). destruct (star_loop_ok true p c l it its Hp Hl Hs E Ho ltac:(done) (fuel_t txt) t text t_ch Ht Hch) as (r & Er & Hr).
  { apply str_size in Ht. unfold fuel_t. lia. }
  exists r. split; [by rewrite (bind_ok _ _ _ _ _ Er)|]. by rewrite E.
Qed.
Lemma star_rest_name p l text t t_ch : pathname flags = true -> str_at pat p l -> (length l < size)%nat -> past_stars l -> str_at txt text t -> head_char t t_ch ->
  (exists r, star_rest flags pat txt rec false p text t_ch st = Ok (inr r) st /\ verdict flags (Star :: items flags false l) t r) \/
  (exists l' text' t', l = SLASH :: l' /\ star_rest flags pat txt rec false p text t_ch st = Ok (inl (p + 1, text')) st /\ str_at txt text' t' /\
    forall r, verdict flags (items flags true l') t' r -> verdict flags (Star :: items flags false l) t r).
Proof.
  intros Hpath Hp Hl Hs Ht Hch. unfold star_rest. rewrite (bind_ok _ _ _ _ _ (str_rd _ _ _ _ Hp)), (hd0_nonzero _ _ _ Hp). cbn [negb andb].
  destruct (find_slash_spec text t Ht) as (slash & Es & Hslash). destruct l as [|c l].
  { left. exists (if existsb (fun c => c =? SLASH) t then WM_ABORT_TO_STARSTAR else WM_MATCH). split; [|by apply last_star_verdict].
    rewrite (bind_ok _ _ _ _ _ Es). destruct slash as [text'|]; [|by rewrite no_slash_existsb]. destruct Hslash as (v & t' & -> & _). by rewrite slash_existsb. }
  cbn [hd0 hd]. destruct (Z.eqb_spec c SLASH) as [->|Hc].
  - rewrite (bind_ok _ _ _ _ _ Es). rewrite items_cons. change (SLASH =? ch "\") with false. change (SLASH =? ch "?") with false. change (is_star SLASH) with false.
    change (SLASH =? ch "[") with false. cbv match. rewrite (proj2 (fold_slash_iff flags SLASH ltac:(unfold byte, SLASH; lia)) eq_refl). pose proof (str_bytes _ _ _ Ht) as Hb.
    destruct slash as [text'|].
    + right. destruct Hslash as (v & t' & -> & Hv & Hat). exists l, (text' + 1), t'. split; [done|]. split; [done|]. split; [by eapply str_next|].
      intros r Hr. by apply jump_verdict.
    + left. exists WM_ABORT_ALL. split; [done|]. by apply no_jump_verdict.
  - left. destruct (items_one flags true c l Hs) as (it & its & _ & Ho & E). destruct (star_loop_ok false p c l it its Hp Hl Hs E Ho ltac:(done) (fuel_t txt) t text t_ch Ht Hch) as (r & Er & Hr).
    { apply str_size in Ht. unfold fuel_t. lia. }
    exists r. split; [by rewrite (bind_ok _ _ _ _ _ Er)|]. rewrite E. by apply star_verdict.
Qed.

(** ** The loop over the pattern *)
Section steps.
Context (pattern : Z) (Hpattern : 0 <= pattern).
(** a run of stars at [p] starts the pattern or stands behind a slash *)
Definition front (p : Z) : bool := (p =? pattern) || match idx pat (p - 1) with Some c => c =? SLASH | None => false end.
Lemma front_behind p c l : pattern <= p -> str_at pat p (c :: l) -> front (p + 1) = (c =? SLASH).
Proof. intros Hp H. unfold front. replace (p + 1 =? pattern) with false by lia. replace (p + 1 - 1) with p by lia. by rewrite (str_idx _ _ _ _ H). Qed.
Lemma is_dirs_ok p c l p2 rest : pattern <= p -> str_at pat p (c :: l) -> str_at pat p2 rest -> is_dirs pat pattern (p + 1) p2 st = Ok (dirs_ok (front p) rest) st.
Proof.
  intros Hp H H2. unfold is_dirs. assert (E : (if p + 1 - pattern <? 2 then ret true else c <- rd pat (p + 1 - 2) ;; ret (c =? SLASH)) st = Ok (front p) st).
  { unfold front. destruct (Z.eqb_spec p pattern) as [->|Hne]; [by replace (pattern + 1 - pattern <? 2) with true by lia|].
    replace (p + 1 - pattern <? 2) with false by lia. cbn [orb]. replace (p + 1 - 2) with (p - 1) by lia. destruct (idx_lt pat (p - 1)) as [d Hd].
    { apply str_size in H. pose proof (zlen_pos (c :: l)). lia. }
    rewrite (bind_ok _ _ _ _ _ (rd_idx _ _ _ _ Hd)). by rewrite Hd. }
  rewrite (bind_ok _ _ _ _ _ E). unfold dirs_ok. destruct (front p); [|done]. cbn [andb]. rewrite (bind_ok _ _ _ _ _ (str_rd _ _ _ _ H2)), (hd0_nonzero _ _ _ H2).
  destruct rest as [|d rest]; [done|]. cbn [orb hd0 hd]. destruct (d =? SLASH); [done|]. cbn [orb]. destruct (d =? ch "\"); [|done]. pose proof (str_next _ _ _ _ H2) as H3. by rd_str H3.
Qed.
(** what one turn does: it ends with a verdict, or goes on with shorter strings *)
Definition turn_ok (size : nat) (its : list item) (t : list Z) (res : Z * Z + Z) : Prop :=
  match res with
  | inr r => verdict flags its t r
  | inl (p, text) => exists l' t', str_at pat p l' /\ str_at txt text t' /\ (length l' < size)%nat /\ pattern <= p /\
      forall r, verdict flags (items flags (front p) l') t' r -> verdict flags its t r
  end.
Lemma rest_name_turn p l text t t_ch : pathname flags = true -> pattern <= p -> str_at pat p l -> (length l < size)%nat -> past_stars l -> str_at txt text t -> head_char t t_ch ->
  exists res, star_rest flags pat txt rec false p text t_ch st = Ok res st /\ turn_ok (length l) (Star :: items flags false l) t res.
Proof.
  intros Hpath Hle Hp Hl Hs Ht Hch. destruct (star_rest_name p l text t t_ch Hpath Hp Hl Hs Ht Hch) as [(r & E & Hr)|(l' & text' & t' & -> & E & Hat & Hr)].
  - by exists (inr r).
  - exists (inl (p + 1, text')). split; [done|]. exists l', t'. split; [by eapply str_next|]. split; [done|]. split; [simpl; lia|]. split; [lia|].
    by rewrite (front_behind p SLASH l').
Qed.
Lemma rest_any_turn p l text t t_ch : str_at pat p l -> (length l < size)%nat -> past_stars l -> str_at txt text t -> head_char t t_ch ->
  exists r, star_rest flags pat txt rec true p text t_ch st = Ok (inr r) st /\ verdict flags (Stars :: items flags false l) t r.
Proof.
  intros Hp Hl Hs Ht Hch. destruct (star_rest_any p l text t t_ch Hp Hl Hs Ht Hch) as (r & E & Hr). exists r. split; [done|].
  destruct l as [|c l]; [subst r; by apply last_stars_verdict|]. by apply stars_verdict.
Qed.
Lemma dirs_turn p l text t t_ch : pathname flags = true -> str_at pat p (SLASH :: l) -> (S (length l) < size)%nat -> str_at txt text t -> head_char t t_ch ->
  exists r, (c <- rd pat p ;; none <- (if c =? SLASH then r <- rec (p + 1) text ;; ret (r =? WM_MATCH) else ret false) ;;
    if none : bool then ret (inr WM_MATCH) else star_rest flags pat txt rec true p text t_ch) st = Ok (inr r) st /\
    verdict flags (Dirs :: items flags true l) t r.
Proof.
  intros Hpath Hp Hl Ht Hch. rd_str Hp. rewrite Z.eqb_refl. destruct (Hrec (p + 1) l text t (str_next _ _ _ _ Hp) ltac:(lia) Ht) as (r & E & Hv).
  rewrite (bind_ok _ _ _ (r =? WM_MATCH) st) by (by rewrite (bind_ok _ _ _ _ _ E)). destruct (Z.eqb_spec r WM_MATCH) as [->|Hne].
  - exists WM_MATCH. split; [done|]. apply v_match, matches_no_dirs. by apply (verdict_sound _ _ _ _ Hv).
  - destruct (star_rest_any p (SLASH :: l) text t t_ch Hp ltac:(simpl; lia) eq_refl Ht Hch) as (r2 & E2 & Hf). exists r2. split; [done|].
    rewrite items_cons in Hf. change (SLASH =? ch "\") with false in Hf. change (SLASH =? ch "?") with false in Hf. change (is_star SLASH) with false in Hf.
    change (SLASH =? ch "[") with false in Hf. cbv match in Hf. rewrite (proj2 (fold_slash_iff flags SLASH ltac:(unfold byte, SLASH; lia)) eq_refl) in Hf.
    apply dirs_verdict; [by eapply str_bytes|by eapply verdict_no|exact Hf].
Qed.
Lemma turn_ok_mono n m its t res : (n <= m)%nat -> turn_ok n its t res -> turn_ok m its t res.
Proof.
  intros Hn H. destruct res as [[p text]|r]; [|done]. destruct H as (l' & t' & H1 & H2 & H3 & H4). exists l', t'. split; [done|]. split; [done|]. split; [lia|done].
Qed.
Lemma wild_star_ok p l text t t_ch : pattern <= p -> str_at pat p (ch "*" :: l) -> (length l < size)%nat -> str_at txt text t -> head_char t t_ch ->
  exists res, wild_star flags pat txt rec pattern t_ch p text st = Ok res st /\ turn_ok (S (length l)) (items flags (front p) (ch "*" :: l)) t res.
Proof.
  intros Hle Hp Hl Ht Hch. pose proof (str_next _ _ _ _ Hp) as Hp1. pose proof (suffix_length _ _ (skip_while_suffix is_star l)) as Hskip.
  rewrite items_cons. change (ch "*" =? ch "\") with false. change (ch "*" =? ch "?") with false. change (is_star (ch "*")) with true. cbv match. cbv zeta.
  unfold wild_star. rewrite (bind_ok _ _ _ _ _ (str_rd _ _ _ _ Hp1)). assert (Hpast := past_skip l). destruct (Z.eqb_spec (hd0 l) (ch "*")) as [Hd|Hd].
  - destruct l as [|d l]; [done|]. cbn in Hd. subst d. cbn [length] in *.
    destruct (skip_stars_ok l (p + 1) (fuel_p pat) _ Hp1 ltac:(apply str_size in Hp1; cbn [length] in Hp1; unfold fuel_p; lia)) as (p2 & E2 & Hp2 & Hlt).
    change (skip_while is_star (ch "*" :: l)) with (skip_while is_star l) in *. cbv zeta. rewrite (bind_ok _ _ _ _ _ E2).
    destruct (pathname flags) eqn:Hpath; cbn [negb andb].
    2:{ destruct (rest_any_turn p2 _ text t t_ch Hp2 ltac:(lia) Hpast Ht Hch) as (r & E & Hr). by exists (inr r). }
    rewrite (bind_ok _ _ _ _ _ (is_dirs_ok p _ _ p2 _ Hle Hp Hp2)). destruct (dirs_ok (front p) (skip_while is_star l)).
    2:{ destruct (rest_name_turn p2 _ text t t_ch Hpath ltac:(lia) Hp2 ltac:(lia) Hpast Ht Hch) as (res & E & Hr). exists res. split; [done|].
      eapply turn_ok_mono; [|exact Hr]. lia. }
    destruct (skip_while is_star l) as [|d rest] eqn:Hrest.
    + rd_str Hp2. change (0 =? SLASH) with false. cbv match. rewrite (bind_ok (ret false) _ st _ st eq_refl).
      destruct (rest_any_turn p2 _ text t t_ch Hp2 ltac:(simpl; lia) Hpast Ht Hch) as (r & E & Hr). by exists (inr r).
    + cbn [length] in Hskip. destruct (Z.eqb_spec d SLASH) as [->|Hne].
      * destruct (dirs_turn p2 rest text t t_ch Hpath Hp2 ltac:(lia) Ht Hch) as (r & E & Hr). by exists (inr r).
      * rd_str Hp2. replace (d =? SLASH) with false by lia. rewrite (bind_ok (ret false) _ st _ st eq_refl).
        destruct (rest_any_turn p2 _ text t t_ch Hp2 ltac:(simpl; lia) Hpast Ht Hch) as (r & E & Hr). by exists (inr r).
  - assert (Hs : skip_while is_star l = l) by (destruct l as [|d l]; [done|]; cbn [skip_while]; unfold is_star; cbn in Hd; by replace (d =? ch "*") with false by lia).
    rewrite Hs in *. cbn [andb]. destruct (pathname flags) eqn:Hpath; cbn [negb].
    + destruct (rest_name_turn (p + 1) l text t t_ch Hpath ltac:(lia) Hp1 Hl Hpast Ht Hch) as (res & E & Hr). exists res. split; [done|].
      eapply turn_ok_mono; [|exact Hr]. lia.
    + destruct (rest_any_turn (p + 1) l text t t_ch Hp1 Hl Hpast Ht Hch) as (r & E & Hr). by exists (inr r).
Qed.
Lemma wild_literal_ok t_ch q p d l text c t its : pattern <= p -> t_ch = fold_case flags c -> str_at pat p (d :: l) -> str_at txt text (c :: t) ->
  its = Lit q :: items flags (d =? SLASH) l -> ((d =? SLASH) = true -> q = SLASH) ->
  exists res, wild_literal t_ch q p text st = Ok res st /\ turn_ok (S (length l)) its (c :: t) res.
Proof.
  intros Hle -> Hp Ht -> Hq. unfold wild_literal. pose proof (str_bytes _ _ _ Ht) as Hb. destruct (Z.eqb_spec (fold_case flags c) q) as [He|He]; cbn [negb].
  - exists (inl (p + 1, text + 1)). split; [done|]. exists l, t. split; [by eapply str_next|]. split; [by eapply str_next|]. split; [lia|]. split; [lia|].
    intros r Hr. rewrite (front_behind p d l Hle Hp) in Hr. apply verdict_char; [done|by apply Z.eqb_eq| |done|done].
    intros Hd. destruct (d =? SLASH); [by rewrite Hq|]. by apply items_no_dirs in Hd.
  - exists (inr WM_NOMATCH). split; [done|]. apply verdict_char_no; [done|]. by apply Z.eqb_neq.
Qed.
Lemma wild_one_ok it p l text c t m : pattern <= p -> one it -> str_at pat p (m :: l) -> str_at txt text (c :: t) -> m <> SLASH ->
  turn_ok (S (length l)) (it :: items flags false l) (c :: t) (if char_ok flags it c then inl (p + 1, text + 1) else inr WM_NOMATCH).
Proof.
  intros Hle Ho Hp Ht Hm. pose proof (str_bytes _ _ _ Ht) as Hb. destruct (char_ok flags it c) eqn:Hc; [|by apply verdict_char_no].
  exists l, t. split; [by eapply str_next|]. split; [by eapply str_next|]. split; [lia|]. split; [lia|].
  intros r Hr. rewrite (front_behind p m l Hle Hp) in Hr. replace (m =? SLASH) with false in Hr by lia. apply verdict_char; try done. intros Hd. by apply items_no_dirs in Hd.
Qed.
Lemma wild_body_ok p l text t : pattern <= p -> str_at pat p l -> (length l <= size)%nat -> str_at txt text t ->
  exists res, wild_body flags pat txt rec pattern (p, text) st = Ok res st /\ turn_ok (length l) (items flags (front p) l) t res.
Proof.
  intros Hle Hp Hl Ht. unfold wild_body. rewrite (bind_ok _ _ _ _ _ (str_rd _ _ _ _ Hp)), (bind_ok _ _ _ _ _ (str_rd _ _ _ _ Ht)), (hd0_nonzero _ _ _ Hp), (hd0_nonzero _ _ _ Ht).
  destruct l as [|a l]; [eexists; split; [done|]; apply verdict_end|]. cbn [hd0 hd length] in *. pose proof (str_char _ _ _ _ Hp) as Ha. pose proof (cchar_byte _ Ha) as Hab. cbv zeta.
  rewrite !(fold_special flags a) by (done || (cbn; tauto)).
  destruct (Z.eqb_spec a (ch "*")) as [->|Hstar]; cbn [negb andb].
  { rewrite andb_false_r. cbv match. change (ch "*" =? ch "\") with false. change (ch "*" =? ch "?") with false. cbv match.
    apply (wild_star_ok p l text t (fold_case flags (hd 0 t))); [done|done|lia|done|by right]. }
  rewrite andb_true_r. destruct t as [|c t].
  { exists (inr WM_ABORT_ALL). split; [done|]. destruct (items_one flags (front p) a l) as (it & its & E & Ho & _); [by apply Z.eqb_neq|]. cbn [turn_ok]. rewrite E. by apply verdict_short. }
  cbn [hd0 hd]. pose proof (str_next _ _ _ _ Hp) as Hp1. rewrite items_cons. unfold is_star. replace (a =? ch "*") with false by lia.
  destruct (a =? ch "\") eqn:Hesc.
  { rewrite (bind_ok _ _ _ _ _ (str_rd _ _ _ _ Hp1)). destruct l as [|d l].
    - exists (inr WM_NOMATCH). split; [|by apply verdict_char_no]. unfold wild_literal. cbn [hd0 hd]. pose proof (fold_nonzero flags c (str_char _ _ _ _ Ht)).
      by replace (fold_case flags c =? 0) with false by lia.
    - destruct (wild_literal_ok (fold_case flags c) d (p + 1) d l text c t _ ltac:(lia) eq_refl Hp1 Ht eq_refl (fun Hd => proj1 (Z.eqb_eq d SLASH) Hd)) as (res & E & Hr).
      exists res. split; [done|]. eapply turn_ok_mono; [|exact Hr]. cbn [length]. lia. }
  destruct (Z.eqb_spec a (ch "?")) as [->|Hq].
  { pose proof (wild_one_ok Any p l text c t (ch "?") Hle I Hp Ht ltac:(done)) as Hr. eexists. split; [|exact Hr]. cbn [g_char_ok]. conv. by destruct (pathname flags && (fold_case flags c =? SLASH)). }
  destruct (Z.eqb_spec a (ch "[")) as [->|Hset].
  { pose proof (wild_class_ok c p l text Hp) as Hcl. destruct (class_of flags l) as [[it rest]|] eqn:Hof; [|eexists; split; [exact Hcl|]; apply verdict_never].
    pose proof (class_of_rest _ _ _ _ Hof) as Hlen.
    assert (Ho : one it).
    { unfold g_class_of in Hof. conv. destruct l as [|d l]; [done|]. destruct (class_items flags _ _ 0) as [[atoms r]|]; [|done]. cbn [mbind option_bind] in Hof. by injection Hof as <- _. }
    destruct (char_ok flags it c) eqn:Hc; [|eexists; split; [exact Hcl|]; by apply verdict_char_no].
    destruct Hcl as (p' & E & Hat). eexists. split; [exact E|].
    assert (Hlt : p < p') by (apply str_left in Hat, Hp; rewrite zlen_cons in *; unfold zlen in *; lia).
    eapply turn_ok_mono; [|pose proof (wild_one_ok it p' rest text c t (ch "]") ltac:(lia) Ho Hat Ht ltac:(done)) as Hr; rewrite Hc in Hr; exact Hr]. lia. }
  destruct (wild_literal_ok (fold_case flags c) (fold_case flags a) p a l text c t _ Hle eq_refl Hp Ht eq_refl) as (res & E & Hr).
  { intros ->%Z.eqb_eq. apply fold_slash_iff; [unfold byte, SLASH; lia|done]. }
  exists res. by split.
Qed.
Lemma wild_loop_ok n : forall l p text t, (length l < n)%nat -> (length l <= size)%nat -> pattern <= p -> str_at pat p l -> str_at txt text t ->
  exists r, iter n (wild_body flags pat txt rec pattern) (p, text) st = Ok r st /\ verdict flags (items flags (front p) l) t r.
Proof.
  induction n as [|n IH]; intros l p text t Hn Hl Hle Hp Ht; [lia|]. destruct (wild_body_ok p l text t Hle Hp Hl Ht) as ([[p' text']|r] & E & Hr).
  - destruct Hr as (l' & t' & Hp' & Ht' & Hlt & Hle' & Hr). destruct (IH l' p' text' t' ltac:(lia) ltac:(lia) Hle' Hp' Ht') as (r & E2 & Hv).
    exists r. split; [|by apply Hr]. rewrite <- E2. by apply iter_next.
  - exists r. split; [|done]. by apply iter_last.
Qed.
End steps.
End wild.

Lemma dowild_ok flags pat txt (st : unit) fuel : zlen pat <= 2 ^ 31 -> forall p l text t, (length l < fuel)%nat -> str_at pat p l -> str_at txt text t ->
  exists r, dowild fuel flags pat txt p text st = Ok r st /\ verdict flags (items flags true l) t r.
Proof.
  intros Hpat. induction fuel as [|fuel IH]; intros p l text t Hf Hp Ht; [lia|]. cbn [dowild].
  destruct (wild_loop_ok flags pat txt Hpat st (dowild fuel flags pat txt) (length l)) with (pattern := p) (n := fuel_p pat) (l := l) (p := p) (text := text) (t := t) as (r & E & Hv);
    try (done || lia || (pose proof (str_size _ _ _ Hp); unfold fuel_p; lia)).
  - intros p' l' text' t' Hp' Hl' Ht'. apply IH; [lia|done|done].
  - exists r. split; [done|]. unfold front in Hv. by rewrite Z.eqb_refl in Hv.
Qed.

(** C17: Shell patterns: for a pattern below 2 GiB and any text, wildmatch()
    stays inside both strings, ends, and answers WM_MATCH exactly when the
    pattern matches the text; that dowild() gives up early (WM_ABORT_ALL,
    WM_ABORT_TO_STARSTAR) loses no match. *)
Theorem wildmatch_matches pattern text flags st : Forall cchar pattern -> Forall cchar text -> zlen pattern < 2 ^ 31 ->
  exists r, wildmatch pattern text flags st = Ok r st /\ (r = WM_MATCH \/ r = WM_NOMATCH) /\ (r = WM_MATCH <-> pattern_matches flags pattern text).
Proof.
  intros Hp Ht Hl. unfold wildmatch. cbv zeta. destruct (dowild_ok flags (pattern ++ [0]) (text ++ [0]) st (fuel_p (pattern ++ [0]))) with (p := 0) (text := 0) (l := pattern) (t := text) as (r & E & Hv).
  - rewrite zlen_app. change (zlen [0]) with 1. lia.
  - unfold fuel_p. rewrite length_app. lia.
  - by apply str_whole.
  - by apply str_whole.
  - rewrite (bind_ok _ _ _ _ _ E). setoid_rewrite pattern_matches_iff. apply verdict_sound in Hv. destruct (Z.eqb_spec r WM_MATCH) as [->|Hne].
    + exists WM_MATCH. split; [done|]. split; [by left|done].
    + exists WM_NOMATCH. split; [done|]. split; [by right|]. split; [done|]. intros Hm. by apply Hv in Hm.
Qed.
(** a/**/b matches a/b; two directories are no single star *)
Lemma wildmatch_matches_witness :
  (wildmatch (str "a/**/b[c-e]") (str "a/bd") WM_PATHNAME tt = Ok WM_MATCH tt /\ pattern_matches WM_PATHNAME (str "a/**/b[c-e]") (str "a/bd")) /\
  ~ pattern_matches WM_PATHNAME (str "a/*/b") (str "a/x/y/b").
Proof.
  assert (Hc : forall l, forallb (fun c => (0 <? c) && (c <? 256)) l = true -> Forall cchar l).
  { intros l Hl. apply List.Forall_forall. intros c Hin. rewrite forallb_forall in Hl. specialize (Hl c Hin). unfold cchar. lia. }
  split.
  - destruct (wildmatch_matches (str "a/**/b[c-e]") (str "a/bd") WM_PATHNAME tt) as (r & E & _ & Hm); [by apply Hc|by apply Hc|reflexivity|].
    assert (r = WM_MATCH) as -> by (vm_compute in E; by injection E as <-). split; [exact E|by apply Hm].
  - destruct (wildmatch_matches (str "a/*/b") (str "a/x/y/b") WM_PATHNAME tt) as (r & E & _ & Hm); [by apply Hc|by apply Hc|reflexivity|].
    intros H. apply Hm in H. subst r. vm_compute in E. discriminate E.
Defined.
(** with WM_CASEFOLD a set does not match the capital letter it names, nor does
    an escaped one, although the text is the same *)
Example casefold_set : wildmatch (str "[A]") (str "A") WM_CASEFOLD tt = Ok WM_NOMATCH tt /\ wildmatch (str "[A]") (str "a") WM_CASEFOLD tt = Ok WM_NOMATCH tt /\
  wildmatch (str "\A") (str "A") WM_CASEFOLD tt = Ok WM_NOMATCH tt /\ wildmatch (str "[A-A]") (str "A") WM_CASEFOLD tt = Ok WM_MATCH tt.
Proof. vm_compute. done. Qed.
