(* ===== verification/GitStrbuf.v ===== *)
(** * git: string buffers

    strbuf.c and strbuf.h of src/bin/git/upstream.  The state is one buffer and
    the slop buffer that all buffers without memory share; a block holds
    arbitrary bytes behind the string.  [rep] is the contract: the buffer holds
    a byte string with a NUL behind it, and every operation does to it what its
    name says ([strbuf_op]). *)
From S2P Require Import Prelude GitBase.

(** ** strbuf.h *)
Record strbuf := mkStrbuf {
  sb_alloc : Z;
  sb_len : Z;
  sb_buf : option (list Z);   (* None: strbuf_slopbuf *)
  slopbuf : list Z
}.
Abbreviation SP := (prog strbuf) (only parsing).
(** realloc() answers memory or not, and leaves arbitrary bytes in what it adds *)
Class heap := { has_memory : Z -> bool; fresh_byte : Z -> Z }.

Definition STRBUF_INIT (slop : list Z) : strbuf := mkStrbuf 0 0 None slop.
Definition set_len (n : Z) (sb : strbuf) : strbuf := mkStrbuf (sb_alloc sb) n (sb_buf sb) (slopbuf sb).
(** sb->buf[i], also in the slop buffer *)
Definition buf_bytes (sb : strbuf) : list Z := default (slopbuf sb) (sb_buf sb).
Definition set_bytes (bs : list Z) (sb : strbuf) : strbuf :=
  match sb_buf sb with
  | Some _ => mkStrbuf (sb_alloc sb) (sb_len sb) (Some bs) (slopbuf sb)
  | None => mkStrbuf (sb_alloc sb) (sb_len sb) None bs
  end.
Definition buf_get (i : Z) : SP Z := sb <- get ;; rd (buf_bytes sb) i.
Definition buf_set (i c : Z) : SP unit :=
  sb <- get ;; bs <- lift OutOfBounds (upd (buf_bytes sb) i c) ;; modify (set_bytes bs).
(** memcpy(sb->buf + i, data, len) *)
Definition buf_write (i : Z) (data : list Z) : SP unit :=
  sb <- get ;; bs <- memcpy (buf_bytes sb) i data ;; modify (set_bytes bs).
(** memmove(sb->buf + i, sb->buf + j, len) *)
Definition buf_move (i j len : Z) : SP unit :=
  sb <- get ;; data <- rd_n (buf_bytes sb) j len ;; buf_write i data.

Definition strbuf_avail : SP Z := sb <- get ;; ret (if negb (sb_alloc sb =? 0) then sb_alloc sb - sb_len sb - 1 else 0).
(** BUG() ends the program *)
Definition strbuf_setlen (len : Z) : SP unit :=
  sb <- get ;;
  if (if negb (sb_alloc sb =? 0) then sb_alloc sb - 1 else 0) <? len then raise Died
  else
    modify (set_len len) ;;
    match sb_buf sb with
    | Some _ => buf_set len 0
    | None => c <- buf_get 0 ;; if c =? 0 then ret tt else raise Died
    end.
Definition strbuf_reset : SP unit := strbuf_setlen 0.

(** ** git-compat-util.h, wrapper.c *)
Definition size_max : Z := 2 ^ 64 - 1.
Definition unsigned_add_overflows (a b : Z) : bool := size_max - a <? b.
Definition alloc_nr_size (x : Z) : Z := u64 (u64 (x + 16) * 3) / 2.
(** xrealloc(sb->buf, size) ends the program without memory *)
Definition xrealloc `{heap} (bytes : list Z) (size : Z) : SP (list Z) :=
  if has_memory size then ret (take (Z.to_nat size) bytes ++ map fresh_byte (seqZ (zlen bytes) (size - zlen bytes))) else raise Died.
(** ALLOC_GROW(sb->buf, nr, sb->alloc) *)
Definition strbuf_alloc `{heap} (nr : Z) : SP unit :=
  sb <- get ;;
  if sb_alloc sb <? nr then
    let alloc := if alloc_nr_size (sb_alloc sb) <? nr then nr else alloc_nr_size (sb_alloc sb) in
    bs <- xrealloc (default [] (sb_buf sb)) alloc ;;
    modify (fun sb => mkStrbuf alloc (sb_len sb) (Some bs) (slopbuf sb))
  else ret tt.

(** ** strbuf.c *)
Definition strbuf_grow `{heap} (extra : Z) : SP unit :=
  sb <- get ;;
  let new_buf := sb_alloc sb =? 0 in
  if unsigned_add_overflows extra 1 || unsigned_add_overflows (sb_len sb) (extra + 1) then raise Died
  else
    (if new_buf then modify (fun sb => mkStrbuf (sb_alloc sb) (sb_len sb) None (slopbuf sb)) else ret tt) ;;
    strbuf_alloc (sb_len sb + extra + 1) ;;
    if new_buf then buf_set 0 0 else ret tt.
Definition strbuf_init `{heap} (hint : Z) : SP unit :=
  modify (fun sb => STRBUF_INIT (slopbuf sb)) ;;
  if negb (hint =? 0) then strbuf_grow hint else ret tt.
Definition strbuf_release `{heap} : SP unit :=
  sb <- get ;; if negb (sb_alloc sb =? 0) then strbuf_init 0 else ret tt.
(** the string is the caller's: its bytes and its size *)
Definition strbuf_detach `{heap} : SP (list Z * Z) :=
  strbuf_grow 0 ;;
  sb <- get ;;
  let res := buf_bytes sb in
  let sz := sb_len sb in
  strbuf_init 0 ;;
  ret (res, sz).
Definition strbuf_attach `{heap} (buf : list Z) (len alloc : Z) : SP unit :=
  strbuf_release ;;
  modify (fun sb => mkStrbuf alloc len (Some buf) (slopbuf sb)) ;;
  strbuf_grow 0 ;;
  sb <- get ;;
  buf_set (sb_len sb) 0.
Definition strbuf_splice `{heap} (pos len : Z) (data : list Z) : SP unit :=
  sb <- get ;;
  let dlen := zlen data in
  if unsigned_add_overflows pos len then raise Died
  else if sb_len sb <? pos then raise Died
  else if sb_len sb <? pos + len then raise Died
  else
    (if len <=? dlen then strbuf_grow (dlen - len) else ret tt) ;;
    buf_move (pos + dlen) (pos + len) (sb_len sb - pos - len) ;;
    buf_write pos data ;;
    strbuf_setlen (sb_len sb + dlen - len).
Definition strbuf_insert `{heap} (pos : Z) (data : list Z) : SP unit := strbuf_splice pos 0 data.
Definition strbuf_remove `{heap} (pos len : Z) : SP unit := strbuf_splice pos len [].
Definition strbuf_add `{heap} (data : list Z) : SP unit :=
  strbuf_grow (zlen data) ;;
  sb <- get ;;
  buf_write (sb_len sb) data ;;
  strbuf_setlen (sb_len sb + zlen data).
(** strbuf_addstr() of a string given without its NUL; strbuf_addbuf() of the
    bytes of another buffer *)
Definition strbuf_addstr `{heap} (s : list Z) : SP unit := strbuf_add s.
Definition strbuf_addbuf `{heap} (data : list Z) : SP unit := strbuf_add data.
Definition strbuf_addch `{heap} (c : Z) : SP unit :=
  avail <- strbuf_avail ;;
  (if avail =? 0 then strbuf_grow 1 else ret tt) ;;
  sb <- get ;;
  modify (set_len (sb_len sb + 1)) ;;
  buf_set (sb_len sb) (u8 c) ;;
  buf_set (sb_len sb + 1) 0.
Definition strbuf_addchars `{heap} (c n : Z) : SP unit :=
  strbuf_grow n ;;
  sb <- get ;;
  buf_write (sb_len sb) (replicate (Z.to_nat n) (u8 c)) ;;
  strbuf_setlen (sb_len sb + n).
(** st_mult() ends the program when the product overflows *)
Definition strbuf_addstrings `{heap} (s : list Z) (n : Z) : SP unit :=
  if size_max <? zlen s * n then raise Died
  else strbuf_grow (zlen s * n) ;; repeat_ (Z.to_nat n) 0 (fun _ => strbuf_add s).
Definition strbuf_complete `{heap} (term : Z) : SP unit :=
  sb <- get ;;
  if negb (sb_len sb =? 0) then
    c <- buf_get (sb_len sb - 1) ;;
    if negb (c =? term) then strbuf_addch term else ret tt
  else ret tt.
Definition strbuf_join_argv `{heap} (argv : list (list Z)) (delim : Z) : SP unit :=
  match argv with
  | [] => ret tt
  | a :: argv =>
      strbuf_addstr a ;;
      fold_n (length argv) (fun argv =>
        strbuf_addch delim ;;
        match argv with a :: argv => strbuf_addstr a ;; ret argv | [] => oob end) argv ;;
      ret tt
  end.
(** while (sb->len > 0 && p(sb->buf[sb->len - 1])) sb->len-- *)
Definition trim_step (p : Z -> bool) (_ : unit) : SP (unit + unit) :=
  sb <- get ;;
  if 0 <? sb_len sb then
    c <- buf_get (sb_len sb - 1) ;;
    if p c then modify (set_len (sb_len sb - 1)) ;; ret (inl tt) else ret (inr tt)
  else ret (inr tt).
Definition trim_end (p : Z -> bool) : SP unit :=
  sb <- get ;;
  iter (S (Z.to_nat (sb_len sb))) (trim_step p) tt ;;
  sb <- get ;;
  buf_set (sb_len sb) 0.
Definition strbuf_rtrim : SP unit := trim_end Sane.isspace.
Definition is_dir_sep (c : Z) : bool := c =? ch "/".
Definition strbuf_trim_trailing_dir_sep : SP unit := trim_end is_dir_sep.
Definition strbuf_trim_trailing_newline : SP unit :=
  sb <- get ;;
  if 0 <? sb_len sb then
    c <- buf_get (sb_len sb - 1) ;;
    if c =? 10 then
      modify (set_len (sb_len sb - 1)) ;;
      sb <- get ;;
      (if 0 <? sb_len sb then
         c <- buf_get (sb_len sb - 1) ;;
         if c =? 13 then modify (set_len (sb_len sb - 1)) else ret tt
       else ret tt) ;;
      sb <- get ;;
      buf_set (sb_len sb) 0
    else ret tt
  else ret tt.
Definition ltrim_step (b : Z) : SP (Z + Z) :=
  sb <- get ;;
  if 0 <? sb_len sb then
    c <- buf_get b ;;
    if Sane.isspace c then modify (set_len (sb_len sb - 1)) ;; ret (inl (b + 1)) else ret (inr b)
  else ret (inr b).
Definition strbuf_ltrim : SP unit :=
  sb <- get ;;
  b <- iter (S (Z.to_nat (sb_len sb))) ltrim_step 0 ;;
  sb <- get ;;
  buf_move 0 b (sb_len sb) ;;
  buf_set (sb_len sb) 0.
Definition strbuf_trim : SP unit := strbuf_rtrim ;; strbuf_ltrim.
Definition strbuf_tolower : SP unit :=
  sb <- get ;; repeat_ (Z.to_nat (sb_len sb)) 0 (fun p => c <- buf_get p ;; buf_set p (Sane.tolower c)).
(** memcmp() answers the difference of the first bytes that differ *)
Fixpoint memcmp (a b : list Z) : Z :=
  match a, b with
  | x :: a, y :: b => if x =? y then memcmp a b else x - y
  | _, _ => 0
  end.
Definition strbuf_cmp (a b : strbuf) : Z :=
  let len := if sb_len a <? sb_len b then sb_len a else sb_len b in
  let cmp := memcmp (take (Z.to_nat len) (buf_bytes a)) (take (Z.to_nat len) (buf_bytes b)) in
  if negb (cmp =? 0) then cmp else if sb_len a <? sb_len b then -1 else if sb_len a =? sb_len b then 0 else 1.

(** ** What the operations do to a byte string *)
Definition strip_end (p : Z -> bool) (b : list Z) : list Z := rev (skip_while p (rev b)).
Definition strip_newline (b : list Z) : list Z :=
  match rev b with
  | c :: r => if c =? 10 then match r with d :: r' => rev (if d =? 13 then r' else r) | [] => [] end else b
  | [] => b
  end.
(** the string with [extra] bytes more and a NUL has a size *)
Definition room (b : list Z) (extra : Z) : bool := zlen b + extra + 1 <=? size_max.
Inductive strbuf_op :=
  | OpGrow (n : nat)
  | OpAdd (data : list Z)
  | OpAddch (c : Z)
  | OpAddchars (c : Z) (n : nat)
  | OpAddstrings (s : list Z) (n : nat)
  | OpSplice (pos len : nat) (data : list Z)
  | OpInsert (pos : nat) (data : list Z)
  | OpRemove (pos len : nat)
  | OpJoin (argv : list (list Z)) (delim : Z)
  | OpComplete (term : Z)
  | OpRtrim | OpLtrim | OpTrim | OpTrimDirSep | OpTrimNewline
  | OpTolower | OpReset | OpRelease | OpDetach.
(** one call; strbuf_detach() answers a string with its NUL *)
Definition strbuf_call `{heap} (op : strbuf_op) : SP (option (list Z)) :=
  match op with
  | OpGrow n => strbuf_grow (Z.of_nat n) ;; ret None
  | OpAdd data => strbuf_add data ;; ret None
  | OpAddch c => strbuf_addch c ;; ret None
  | OpAddchars c n => strbuf_addchars c (Z.of_nat n) ;; ret None
  | OpAddstrings s n => strbuf_addstrings s (Z.of_nat n) ;; ret None
  | OpSplice pos len data => strbuf_splice (Z.of_nat pos) (Z.of_nat len) data ;; ret None
  | OpInsert pos data => strbuf_insert (Z.of_nat pos) data ;; ret None
  | OpRemove pos len => strbuf_remove (Z.of_nat pos) (Z.of_nat len) ;; ret None
  | OpJoin argv delim => strbuf_join_argv argv delim ;; ret None
  | OpComplete term => strbuf_complete term ;; ret None
  | OpRtrim => strbuf_rtrim ;; ret None
  | OpLtrim => strbuf_ltrim ;; ret None
  | OpTrim => strbuf_trim ;; ret None
  | OpTrimDirSep => strbuf_trim_trailing_dir_sep ;; ret None
  | OpTrimNewline => strbuf_trim_trailing_newline ;; ret None
  | OpTolower => strbuf_tolower ;; ret None
  | OpReset => strbuf_reset ;; ret None
  | OpRelease => strbuf_release ;; ret None
  | OpDetach => let* (res, sz) := strbuf_detach in ret (Some (take (Z.to_nat (sz + 1)) res))
  end.
Fixpoint strbuf_calls `{heap} (ops : list strbuf_op) : SP (list (option (list Z))) :=
  match ops with
  | [] => ret []
  | op :: ops => r <- strbuf_call op ;; rs <- strbuf_calls ops ;; ret (r :: rs)
  end.
Definition if_room (b : list Z) (extra : Z) (b' : list Z) : option (list Z) := if room b extra then Some b' else None.
Definition spec_splice (pos len : nat) (data b : list Z) : option (list Z) :=
  if Z.of_nat pos + Z.of_nat len <=? zlen b then
    if_room b (Z.max 0 (zlen data - Z.of_nat len)) (take pos b ++ data ++ drop (pos + len) b)
  else None.
Fixpoint spec_join (argv : list (list Z)) (delim : Z) (b : list Z) : option (list Z) :=
  match argv with
  | [] => Some b
  | a :: argv =>
      b1 ← if_room b 1 (b ++ [u8 delim]);
      b2 ← if_room b1 (zlen a) (b1 ++ a);
      spec_join argv delim b2
  end.
(** the white space of git is the tab, the line feed, the carriage return and the blank *)
Definition white_byte (c : Z) : bool := existsb (Z.eqb (u8 c)) [9; 10; 13; 32].
Definition slash_byte (c : Z) : bool := c =? 47.
Definition lower_byte (c : Z) : Z := let c := u8 c in if (65 <=? c) && (c <=? 90) then c + 32 else c.
(** the string afterwards; None: the program ends *)
Definition spec_call (op : strbuf_op) (b : list Z) : option (list Z) :=
  match op with
  | OpGrow n => if_room b (Z.of_nat n) b
  | OpAdd data => if_room b (zlen data) (b ++ data)
  | OpAddch c => if_room b 1 (b ++ [u8 c])
  | OpAddchars c n => if_room b (Z.of_nat n) (b ++ replicate n (u8 c))
  | OpAddstrings s n => if_room b (zlen s * Z.of_nat n) (b ++ concat (replicate n s))
  | OpSplice pos len data => spec_splice pos len data b
  | OpInsert pos data => spec_splice pos 0 data b
  | OpRemove pos len => spec_splice pos len [] b
  | OpJoin argv delim => match argv with [] => Some b | a :: argv => b1 ← if_room b (zlen a) (b ++ a); spec_join argv delim b1 end
  | OpComplete term => match list.last b with Some c => if c =? term then Some b else if_room b 1 (b ++ [u8 term]) | None => Some b end
  | OpRtrim => Some (strip_end white_byte b)
  | OpLtrim => Some (skip_while white_byte b)
  | OpTrim => Some (skip_while white_byte (strip_end white_byte b))
  | OpTrimDirSep => Some (strip_end slash_byte b)
  | OpTrimNewline => Some (strip_newline b)
  | OpTolower => Some (map lower_byte b)
  | OpReset | OpRelease => Some []
  | OpDetach => if_room b 0 []
  end.
Definition spec_answer (op : strbuf_op) (b : list Z) : option (list Z) := match op with OpDetach => Some (b ++ [0]) | _ => None end.
Fixpoint spec_calls (ops : list strbuf_op) (b : list Z) : option (list (option (list Z)) * list Z) :=
  match ops with
  | [] => Some ([], b)
  | op :: ops => b' ← spec_call op b; '(rs, b'') ← spec_calls ops b'; Some (spec_answer op b :: rs, b'')
  end.

(** *** the character tests *)
Lemma u8_all {A} (f g : Z -> A) : (forall c, f c = f (u8 c)) -> (forall c, g c = g (u8 c)) -> map f (seqZ 0 256) = map g (seqZ 0 256) -> forall c, f c = g c.
Proof.
  intros Hf Hg H c. rewrite Hf, Hg. pose proof (Z.mod_pos_bound c 256 ltac:(lia)) as Hc. change (c mod 256) with (u8 c) in Hc.
  apply (f_equal (fun l => l !! Z.to_nat (u8 c))) in H. rewrite !list_lookup_fmap, lookup_seqZ_lt, Z2Nat.id in H by lia. by injection H.
Qed.
Lemma u8_idem c : u8 (u8 c) = u8 c.
Proof. apply Z.mod_mod. lia. Qed.
Lemma blank_isspace c : Sane.isspace c = white_byte c.
Proof. revert c. apply u8_all; [intros c; unfold Sane.isspace, Sane.sane_istest; by rewrite u8_idem|intros c; unfold white_byte; by rewrite u8_idem|vm_compute; reflexivity]. Qed.
Lemma lower_tolower c : Sane.tolower c = lower_byte c.
Proof. revert c. apply u8_all; [intros c; unfold Sane.tolower; by rewrite u8_idem|intros c; unfold lower_byte; by rewrite u8_idem|vm_compute; reflexivity]. Qed.
Lemma skip_while_ext (p q : Z -> bool) b : (forall c, p c = q c) -> skip_while p b = skip_while q b.
Proof. intros H. induction b as [|c b IH]; [done|]. cbn [skip_while]. by rewrite H, IH. Qed.
Lemma strip_blank b : strip_end Sane.isspace b = strip_end white_byte b.
Proof. unfold strip_end. f_equal. apply skip_while_ext, blank_isspace. Qed.

(** ** The representation *)
Record rep (sb : strbuf) (b : list Z) : Prop := mkRep {
  rp_len : sb_len sb = zlen b;
  rp_slop : slopbuf sb = [0];
  rp_buf : match sb_buf sb with
           | None => sb_alloc sb = 0 /\ b = []
           | Some bs => (exists junk, bs = b ++ 0 :: junk) /\ sb_alloc sb = zlen bs
           end;
  rp_max : sb_alloc sb <= size_max
}.
Lemma rep_init : rep (STRBUF_INIT [0]) [].
Proof. by split. Qed.
(** a buffer with memory *)
Definition block (n : Z) (bs : list Z) : strbuf := mkStrbuf (zlen bs) n (Some bs) [0].
Lemma rep_block sb b : rep sb b -> sb_alloc sb <> 0 -> exists junk, sb = block (zlen b) (b ++ 0 :: junk) /\ zlen (b ++ 0 :: junk) <= size_max.
Proof.
  intros [Hl Hs Hb Hm] Ha. destruct sb as [alloc len [bs|] slop]; cbn [sb_alloc sb_len sb_buf slopbuf] in *; [|by destruct Hb].
  destruct Hb as [[junk ->] ->]. subst. by exists junk.
Qed.
Lemma block_rep b junk : zlen (b ++ 0 :: junk) <= size_max -> rep (block (zlen b) (b ++ 0 :: junk)) b.
Proof. intros H. split; cbn; [done|done|split; [by exists junk|done]|done]. Qed.
(** a NUL at [n] ends the string there *)
Lemma block_cut bs n : 0 <= n < zlen bs -> zlen bs <= size_max -> rep (block n (<[Z.to_nat n := 0]> bs)) (take (Z.to_nat n) bs).
Proof.
  intros Hn Hm. assert (Hz : zlen (take (Z.to_nat n) bs) = n) by (unfold zlen in *; rewrite length_take; lia).
  destruct (lookup_lt_is_Some_2 bs (Z.to_nat n)) as [x Hx]; [unfold zlen in Hn; lia|]. rewrite <- (take_drop_middle bs _ _ Hx) at 1.
  rewrite <- Hz at 1 2. rewrite insert_at. apply block_rep. rewrite zlen_app, zlen_cons, Hz. unfold zlen in *. rewrite length_drop. lia.
Qed.
Lemma buf_set_block n bs i c : 0 <= i < zlen bs -> buf_set i c (block n bs) = Ok tt (block n (<[Z.to_nat i := c]> bs)).
Proof. intros Hi. unfold buf_set, bind, get, block. cbn. rewrite upd_lt by done. unfold modify, set_bytes. cbn. by rewrite zlen_insert. Qed.
Lemma setlen_block n m bs : 0 <= n < zlen bs -> strbuf_setlen n (block m bs) = Ok tt (block n (<[Z.to_nat n := 0]> bs)).
Proof.
  intros Hn. unfold strbuf_setlen, bind, get, modify. cbn [sb_alloc block sb_buf]. replace (zlen bs =? 0) with false by lia. cbn [negb]. replace (zlen bs - 1 <? n) with false by lia.
  by apply (buf_set_block n bs n 0).
Qed.
Lemma buf_write_block n bs i data : 0 <= i -> i + zlen data <= zlen bs -> buf_write i data (block n bs) = Ok tt (block n (splice (Z.to_nat i) data bs)).
Proof.
  intros Hi Hd. unfold buf_write, bind, get, block. cbn. rewrite memcpy_ok by done. unfold modify, set_bytes. cbn. f_equal. f_equal. unfold zlen in *. rewrite length_splice; [done|lia].
Qed.

(** ** Every operation *)
Section rules.
Context `{heap}.
(** the program ends for want of room or of memory *)
Definition exhausted (b : list Z) (extra : Z) (f : fault) : Prop := f = Died /\ (room b extra = false \/ exists n, has_memory n = false).
Lemma overflow_room b extra : 0 <= extra -> unsigned_add_overflows extra 1 || unsigned_add_overflows (zlen b) (extra + 1) = negb (room b extra).
Proof. intros He. unfold unsigned_add_overflows, room, size_max. pose proof (zlen_pos b). lia. Qed.
Lemma alloc_size_bound x nr : 0 <= nr <= size_max -> let alloc := if alloc_nr_size x <? nr then nr else alloc_nr_size x in nr <= alloc <= size_max.
Proof.
  intros Hn. cbv zeta. destruct (Z.ltb_spec (alloc_nr_size x) nr); [lia|]. split; [done|]. unfold alloc_nr_size, size_max.
  assert (Hm : 0 <= u64 (u64 (x + 16) * 3) < 18446744073709551616) by (apply Z.mod_pos_bound; lia). pose proof (Z.div_le_mono _ _ 2 ltac:(lia) (Z.lt_le_incl _ _ (proj2 Hm))) as Hd. change (18446744073709551616 / 2) with 9223372036854775808 in Hd. lia.
Qed.
(** what ALLOC_GROW() makes of a block *)
Lemma wp_alloc (E : fault -> Prop) alloc len buf slop nr Q : 0 <= nr <= size_max -> ((exists n, has_memory n = false) -> E Died) ->
  (nr <= alloc -> Q tt (mkStrbuf alloc len buf slop)) ->
  (forall more, zlen (default [] buf) <= alloc < nr -> nr <= zlen (default [] buf ++ more) <= size_max ->
    Q tt (mkStrbuf (zlen (default [] buf ++ more)) len (Some (default [] buf ++ more)) slop)) ->
  zlen (default [] buf) <= alloc ->
  wpe E (strbuf_alloc nr) Q (mkStrbuf alloc len buf slop).
Proof.
  intros Hn HE H1 H2 Hbs. unfold wpe, strbuf_alloc, bind, get, modify, xrealloc. cbn [sb_alloc sb_buf]. destruct (Z.ltb_spec alloc nr) as [Hlt|Hge]; [|by apply H1].
  pose proof (alloc_size_bound alloc nr Hn) as Ha. cbv zeta in Ha. set (size := if alloc_nr_size alloc <? nr then nr else alloc_nr_size alloc) in *.
  destruct (has_memory size) eqn:Hm; [|by apply HE; exists size]. cbn [sb_len slopbuf]. set (bs := default [] buf) in *. pose proof (zlen_pos bs).
  rewrite take_ge by (unfold zlen in *; lia). set (more := map fresh_byte (seqZ (zlen bs) (size - zlen bs))).
  assert (Hsz : zlen (bs ++ more) = size) by (rewrite zlen_app; unfold more, zlen in *; rewrite length_map, length_seqZ; lia).
  specialize (H2 more). rewrite Hsz in H2. apply H2; lia.
Qed.
Lemma wp_grow sb b extra : rep sb b -> 0 <= extra ->
  wpe (exhausted b extra) (strbuf_grow extra) (fun _ sb' => exists junk, sb' = block (zlen b) (b ++ 0 :: junk) /\ extra <= zlen junk /\ zlen (b ++ 0 :: junk) <= size_max) sb.
Proof.
  intros Hr He. unfold strbuf_grow. wp_step. wp_step. cbv zeta. rewrite (rp_len _ _ Hr), overflow_room by done.
  destruct (room b extra) eqn:Hroom; cbn [negb]; [|by split; [|left]]. assert (Hsz : zlen b + extra + 1 <= size_max) by (unfold room in Hroom; lia).
  pose proof (zlen_pos b) as Hb0. assert (HE : (exists n, has_memory n = false) -> exhausted b extra Died) by (intros Hm; split; [done|by right]).
  destruct (Z.eqb_spec (sb_alloc sb) 0) as [Ha|Ha].
  - assert (b = []) as ->.
    { pose proof (rp_buf _ _ Hr) as Hb. destruct (sb_buf sb); [|by destruct Hb]. destruct Hb as [[junk ->] Hb]. rewrite zlen_app, zlen_cons in Hb. pose proof (zlen_pos junk). lia. }
    change (@zlen Z []) with 0 in *. wp_step. wp_step. wp_step. rewrite Ha, (rp_len _ _ Hr), (rp_slop _ _ Hr). change (@zlen Z []) with 0. apply wp_alloc; [lia|done|lia| |done].
    cbn [default app]. intros more _ Hm. destruct more as [|x more]; [change (@zlen Z []) with 0 in Hm; lia|]. rewrite zlen_cons in Hm. pose proof (zlen_pos more).
    change (@zlen Z []) with 0. change (mkStrbuf (zlen (x :: more)) 0 (Some (x :: more)) [0]) with (block 0 (x :: more)).
    eapply wpe_ok; [apply buf_set_block; rewrite zlen_cons; lia|]. exists more. split; [done|]. cbn [app]. rewrite zlen_cons. lia.
  - destruct (rep_block sb b Hr Ha) as (junk & -> & Hmax). wp_step. wp_step. wp_step. apply wp_alloc; cbn [from_option id]; [lia|done| | |done].
    + intros Hge. wp_step. exists junk. rewrite zlen_app, zlen_cons in Hge. split; [done|]. split; [lia|done].
    + intros more _ Hm. wp_step. exists (junk ++ more). rewrite <- app_assoc in *. cbn [app] in *. split; [done|]. rewrite zlen_app, zlen_cons in Hm. split; [lia|]. rewrite zlen_app, zlen_cons. lia.
Qed.
Lemma wp_setlen E bs m n : 0 <= n < zlen bs -> zlen bs <= size_max -> wpe E (strbuf_setlen n) (fun _ sb' => rep sb' (take (Z.to_nat n) bs)) (block m bs).
Proof. intros Hn Hm. eapply wpe_ok; [by apply setlen_block|]. by apply block_cut. Qed.
Lemma room_app b l extra : room b (zlen l + extra) = room (b ++ l) extra.
Proof. unfold room. rewrite zlen_app. f_equal. lia. Qed.
(** [data] goes behind the string *)
Lemma wp_put_behind sb b data : rep sb b ->
  wpe (exhausted b (zlen data)) (strbuf_grow (zlen data) ;; sb <- get ;; buf_write (sb_len sb) data ;; strbuf_setlen (sb_len sb + zlen data)) (fun _ sb' => rep sb' (b ++ data)) sb.
Proof.
  intros Hr. pose proof (zlen_pos data) as Hd. pose proof (zlen_pos b). wp_step. eapply wpe_mono; [by apply wp_grow|]. cbv beta. intros [] sb1 (junk & -> & Hj & Hmax). wp_step. wp_step. wp_step.
  cbn [sb_len block]. rewrite zlen_app, zlen_cons in Hmax. eapply wpe_ok; [apply buf_write_block; rewrite ?zlen_app, ?zlen_cons; lia|].
  set (bs := splice (Z.to_nat (zlen b)) data (b ++ 0 :: junk)). assert (Hbs : zlen bs = zlen b + 1 + zlen junk).
  { unfold bs, zlen in *. rewrite length_splice; rewrite length_app; cbn [length]; lia. }
  eapply wpe_mono; [apply wp_setlen; lia|]. cbv beta. intros _ sb2 H2. replace (take (Z.to_nat (zlen b + zlen data)) bs) with (b ++ data) in H2; [done|].
  unfold bs. replace (Z.to_nat (zlen b + zlen data)) with (Z.to_nat (zlen b) + length data)%nat by (unfold zlen; lia).
  unfold zlen. rewrite !Nat2Z.id. rewrite splice_full by (rewrite length_app; lia). by rewrite take_app_length.
Qed.
Lemma wp_add sb b data : rep sb b -> wpe (exhausted b (zlen data)) (strbuf_add data) (fun _ sb' => rep sb' (b ++ data)) sb.
Proof. apply wp_put_behind. Qed.
Lemma wp_addchars sb b c n : rep sb b -> wpe (exhausted b (Z.of_nat n)) (strbuf_addchars c (Z.of_nat n)) (fun _ sb' => rep sb' (b ++ replicate n (u8 c))) sb.
Proof.
  intros Hr. pose proof (wp_put_behind sb b (replicate n (u8 c)) Hr) as H1. assert (Hz : zlen (replicate n (u8 c)) = Z.of_nat n) by (unfold zlen; by rewrite length_replicate).
  rewrite Hz in H1. unfold strbuf_addchars. by rewrite Nat2Z.id.
Qed.
Lemma wp_addch sb b c : rep sb b -> wpe (exhausted b 1) (strbuf_addch c) (fun _ sb' => rep sb' (b ++ [u8 c])) sb.
Proof.
  intros Hr. pose proof (zlen_pos b) as Hb. unfold strbuf_addch, strbuf_avail. wp_step. wp_step. wp_step. wp_step.
  assert (Hgo : forall junk, 1 <= zlen junk -> zlen (b ++ 0 :: junk) <= size_max ->
    wpe (exhausted b 1) (sb <- get ;; modify (set_len (sb_len sb + 1)) ;; buf_set (sb_len sb) (u8 c) ;; buf_set (sb_len sb + 1) 0) (fun _ sb' => rep sb' (b ++ [u8 c])) (block (zlen b) (b ++ 0 :: junk))).
  { intros junk Hj Hm. wp_step. wp_step. wp_step. wp_step. wp_step. cbn [sb_len block]. change (set_len (zlen b + 1) (block (zlen b) (b ++ 0 :: junk))) with (block (zlen b + 1) (b ++ 0 :: junk)).
    assert (Hz : zlen (b ++ 0 :: junk) = zlen b + 1 + zlen junk) by (rewrite zlen_app, zlen_cons; lia).
    eapply wpe_ok; [apply buf_set_block; lia|]. rewrite insert_at. eapply wpe_ok; [apply buf_set_block; rewrite zlen_app, zlen_cons; lia|].
    destruct junk as [|x junk]; [by change (1 <= 0) in Hj|]. replace (b ++ u8 c :: x :: junk) with ((b ++ [u8 c]) ++ x :: junk) by (by rewrite <- app_assoc).
    replace (zlen b + 1) with (zlen (b ++ [u8 c])) by (by rewrite zlen_app). rewrite insert_at. apply block_rep. rewrite <- Hz in Hm || idtac.
    rewrite !zlen_app, !zlen_cons in *. change (@zlen Z []) with 0. lia. }
  wp_step. wp_step.
  - eapply wpe_mono; [by apply wp_grow|]. cbv beta. intros [] sb1 (junk & -> & Hj & Hm). by apply Hgo.
  - destruct (Z.eqb_spec (sb_alloc sb) 0) as [Ha|Ha]; cbn [negb] in *; [done|]. destruct (rep_block sb b Hr Ha) as (junk & -> & Hm). wp_step. apply Hgo; [|done].
    cbn [sb_alloc sb_len block] in *. rewrite zlen_app, zlen_cons in *. pose proof (zlen_pos junk). lia.
Qed.
Lemma exhausted_later b b' e e' f : exhausted b' e' f -> (room b e = true -> room b' e' = true) -> exhausted b e f.
Proof. intros [-> [Hr|Hm]] Himp; split; [done|left|done|by right]. destruct (room b e); [by rewrite Himp in Hr|done]. Qed.
(** a program that may end early, with a weaker reason *)
Lemma wpe_fault {St A} (E F : fault -> Prop) (m : prog St A) Q s : wpe E m Q s -> (forall f, E f -> F f) -> wpe F m Q s.
Proof. unfold wpe. destruct (m s); auto. Qed.
Lemma zlen_concat_replicate (s : list Z) n : zlen (concat (replicate n s)) = zlen s * Z.of_nat n.
Proof. induction n as [|n IH]; [cbn [replicate concat]; change (@zlen Z []) with 0; lia|]. cbn [replicate concat]. rewrite zlen_app, IH. lia. Qed.
Lemma wp_adds b s n : forall sb k i, rep sb (b ++ concat (replicate k s)) ->
  wpe (exhausted b (zlen s * Z.of_nat (k + n))) (repeat_ n i (fun _ => strbuf_add s)) (fun _ sb' => rep sb' (b ++ concat (replicate (k + n) s))) sb.
Proof.
  induction n as [|n IH]; intros sb k i Hr; cbn [repeat_]; [wp_step; by rewrite Nat.add_0_r|]. wp_step.
  eapply wpe_mono; [eapply wpe_fault; [by apply wp_add|]|].
  - intros f Hf. eapply exhausted_later; [exact Hf|]. unfold room. rewrite zlen_app, zlen_concat_replicate. pose proof (zlen_pos s). intros Hle%Z.leb_le. apply Z.leb_le.
    replace (zlen s * Z.of_nat (k + S n)) with (zlen s * Z.of_nat k + zlen s + zlen s * Z.of_nat n) in Hle by lia. pose proof (Z.mul_nonneg_nonneg (zlen s) (Z.of_nat n) ltac:(lia) ltac:(lia)). lia.
  - cbv beta. intros [] sb1 H1. replace (k + S n)%nat with (S k + n)%nat by lia. apply IH. rewrite <- app_assoc in H1.
    replace (replicate (S k) s) with (replicate k s ++ [s]) by (rewrite <- replicate_cons_app; done). rewrite concat_app. cbn [concat]. by rewrite app_nil_r.
Qed.
Lemma wp_addstrings sb b s n : rep sb b -> wpe (exhausted b (zlen s * Z.of_nat n)) (strbuf_addstrings s (Z.of_nat n)) (fun _ sb' => rep sb' (b ++ concat (replicate n s))) sb.
Proof.
  intros Hr. unfold strbuf_addstrings. pose proof (zlen_pos b). pose proof (zlen_pos s). destruct (Z.ltb_spec size_max (zlen s * Z.of_nat n)).
  { split; [done|]. left. unfold room. lia. }
  wp_step. eapply wpe_mono; [apply wp_grow; [done|nia]|]. cbv beta. intros [] sb1 (junk & -> & _ & Hm). rewrite Nat2Z.id.
  apply (wp_adds b s n _ 0 0). cbn [replicate concat]. rewrite app_nil_r. by apply block_rep.
Qed.
(** the bytes behind the hole move, then the data goes into it *)
Lemma splice_hole {A} (bs data l : list A) pos : (pos + length data <= length bs)%nat ->
  take (pos + length data + length l) (splice pos data (splice (pos + length data) l bs)) = take pos bs ++ data ++ l.
Proof.
  intros Hp. unfold splice. set (rest := drop (pos + length data + length l) bs). set (bs1 := take (pos + length data) bs ++ l ++ rest).
  assert (Hl : length (take (pos + length data) bs) = (pos + length data)%nat) by (rewrite length_take; lia).
  assert (H1 : take pos bs1 = take pos bs) by (unfold bs1; rewrite take_app_le by lia; rewrite take_take; f_equal; lia).
  assert (H2 : drop (pos + length data) bs1 = l ++ rest) by (unfold bs1; rewrite <- Hl at 1; apply drop_app_length).
  rewrite H1, H2. replace (take pos bs ++ data ++ l ++ rest) with ((take pos bs ++ data ++ l) ++ rest) by (by rewrite <- !app_assoc).
  apply take_app_length'. rewrite !length_app, length_take. lia.
Qed.
(** the program ends where the specification says, or for want of memory *)
Definition ends {A} (o : option A) (f : fault) : Prop := f = Died /\ (o = None \/ exists n, has_memory n = false).
Lemma exhausted_ends {A} b extra (o : option A) f : exhausted b extra f -> (room b extra = false -> o = None) -> ends o f.
Proof. intros [-> [Hr|Hm]] H1; (split; [done|]); [left; by apply H1|by right]. Qed.
Lemma if_room_none b extra b' : room b extra = false -> if_room b extra b' = None.
Proof. unfold if_room. by intros ->. Qed.
Lemma spliced bs pos len data b junk : bs = b ++ 0 :: junk -> (pos + len <= length b)%nat -> zlen data - Z.of_nat len <= zlen junk -> zlen bs <= size_max ->
  wp (buf_move (Z.of_nat pos + zlen data) (Z.of_nat pos + Z.of_nat len) (zlen b - Z.of_nat pos - Z.of_nat len) ;; buf_write (Z.of_nat pos) data ;; strbuf_setlen (zlen b + zlen data - Z.of_nat len))
    (fun _ sb' => rep sb' (take pos b ++ data ++ drop (pos + len) b)) (block (zlen b) bs).
Proof.
  intros Hbs Hp Hj Hm. assert (Hz : zlen bs = zlen b + 1 + zlen junk) by (rewrite Hbs, zlen_app, zlen_cons; lia). set (l := drop (pos + len) b).
  assert (Hl : zlen l = zlen b - Z.of_nat pos - Z.of_nat len) by (unfold l, zlen; rewrite length_drop; lia). pose proof (zlen_pos data). pose proof (zlen_pos junk).
  unfold buf_move. wp_step. wp_step. wp_step. wp_step.
  eapply wpe_ok; [apply rd_n_inside; cbn [buf_bytes block sb_buf from_option id]; unfold zlen in *; lia|].
  cbn [buf_bytes block sb_buf from_option id]. rewrite <- Hl. replace (Z.to_nat (Z.of_nat pos + Z.of_nat len)) with (pos + len)%nat by lia.
  assert (Ht : take (Z.to_nat (zlen l)) (drop (pos + len) bs) = l).
  { rewrite Hbs, drop_app_le by lia. fold l. unfold zlen. rewrite Nat2Z.id. by rewrite take_app_length. }
  rewrite Ht. eapply wpe_ok; [apply buf_write_block; unfold zlen in *; lia|]. wp_step. set (bs1 := splice (Z.to_nat (Z.of_nat pos + zlen data)) l bs).
  assert (Hb1 : zlen bs1 = zlen bs) by (unfold bs1, zlen in *; rewrite length_splice; lia).
  eapply wpe_ok; [apply buf_write_block; unfold zlen in *; lia|]. set (bs2 := splice (Z.to_nat (Z.of_nat pos)) data bs1).
  assert (Hb2 : zlen bs2 = zlen bs) by (unfold bs2, zlen in *; rewrite length_splice; lia).
  eapply wpe_mono; [apply wp_setlen; unfold zlen in *; lia|]. cbv beta. intros _ sb2 H2.
  replace (take pos b ++ data ++ l) with (take (Z.to_nat (zlen b + zlen data - Z.of_nat len)) bs2); [done|].
  unfold bs2, bs1. rewrite Nat2Z.id. replace (Z.to_nat (Z.of_nat pos + zlen data)) with (pos + length data)%nat by (unfold zlen; lia).
  replace (Z.to_nat (zlen b + zlen data - Z.of_nat len)) with (pos + length data + length l)%nat by (unfold zlen in *; lia).
  rewrite splice_hole by (unfold zlen in *; lia). f_equal. rewrite Hbs. apply take_app_le. lia.
Qed.
Lemma wp_splice sb b pos len data : rep sb b -> wpe (ends (spec_splice pos len data b)) (strbuf_splice (Z.of_nat pos) (Z.of_nat len) data)
  (fun _ sb' => spec_splice pos len data b = Some (take pos b ++ data ++ drop (pos + len) b) /\ rep sb' (take pos b ++ data ++ drop (pos + len) b)) sb.
Proof.
  intros Hr. unfold strbuf_splice, spec_splice. wp_step. wp_step. cbv zeta. rewrite (rp_len _ _ Hr). pose proof (zlen_pos b). pose proof (zlen_pos data).
  assert (Hmax : zlen b <= size_max).
  { pose proof (rp_buf _ _ Hr) as Hb. pose proof (rp_max _ _ Hr). destruct (sb_buf sb) as [bs|]; [|destruct Hb as [_ ->]; unfold zlen, size_max; cbn; lia].
    destruct Hb as [[junk ->] Hb]. rewrite zlen_app, zlen_cons in Hb. pose proof (zlen_pos junk). lia. }
  destruct (Z.leb_spec (Z.of_nat pos + Z.of_nat len) (zlen b)) as [Hin|Hout].
  2:{ assert (He : ends (A := list Z) None Died) by (split; [done|by left]). do 3 (wp_step; [done|]). lia. }
  replace (unsigned_add_overflows (Z.of_nat pos) (Z.of_nat len)) with false by (unfold unsigned_add_overflows; lia).
  replace (zlen b <? Z.of_nat pos) with false by lia. replace (zlen b <? Z.of_nat pos + Z.of_nat len) with false by lia.
  assert (Hgo : forall junk, zlen data - Z.of_nat len <= zlen junk -> zlen (b ++ 0 :: junk) <= size_max -> room b (Z.max 0 (zlen data - Z.of_nat len)) = true ->
    wpe (ends (if_room b (Z.max 0 (zlen data - Z.of_nat len)) (take pos b ++ data ++ drop (pos + len) b)))
      (buf_move (Z.of_nat pos + zlen data) (Z.of_nat pos + Z.of_nat len) (zlen b - Z.of_nat pos - Z.of_nat len) ;; buf_write (Z.of_nat pos) data ;; strbuf_setlen (zlen b + zlen data - Z.of_nat len))
      (fun _ sb' => if_room b (Z.max 0 (zlen data - Z.of_nat len)) (take pos b ++ data ++ drop (pos + len) b) = Some (take pos b ++ data ++ drop (pos + len) b) /\
        rep sb' (take pos b ++ data ++ drop (pos + len) b)) (block (zlen b) (b ++ 0 :: junk))).
  { intros junk Hj Hm Hroom. eapply wpe_fault; [eapply wpe_mono; [apply (spliced _ pos len data b junk eq_refl); [unfold zlen in *; lia|done|done]|]|done].
    cbv beta. intros _ sb2 H2. split; [|done]. unfold if_room. by rewrite Hroom. }
  wp_step. destruct (Z.leb_spec (Z.of_nat len) (zlen data)) as [Hle|Hgt].
  - rewrite Z.max_r in * by lia. destruct (room b (zlen data - Z.of_nat len)) eqn:Hroom.
    + eapply wpe_mono; [eapply wpe_fault; [apply wp_grow; [done|lia]|intros f Hf; eapply exhausted_ends; [exact Hf|by rewrite Hroom]]|].
      cbv beta. intros [] sb1 (junk & -> & Hj & Hm). by apply Hgo.
    + eapply wpe_mono; [eapply wpe_fault; [apply wp_grow; [done|lia]|intros f Hf; eapply exhausted_ends; [exact Hf|by apply if_room_none]]|].
      cbv beta. intros [] sb1 (junk & -> & Hj & Hm). rewrite zlen_app, zlen_cons in Hm. unfold room in Hroom. lia.
  - wp_step. assert (Ha : sb_alloc sb <> 0).
    { intros Ha. pose proof (rp_buf _ _ Hr) as Hb. destruct (sb_buf sb) as [bs|]; [|destruct Hb as [_ ->]; change (@zlen Z []) with 0 in *; lia].
      destruct Hb as [[junk ->] Hb]. rewrite zlen_app, zlen_cons in Hb. pose proof (zlen_pos junk). lia. }
    destruct (rep_block sb b Hr Ha) as (junk & -> & Hm). rewrite Z.max_l in * by lia. pose proof (zlen_pos junk). apply Hgo; [lia|done|].
    rewrite zlen_app, zlen_cons in Hm. unfold room. lia.
Qed.
(** *** trimming *)
(** the bytes of the buffer, memory or not *)
Lemma rep_bytes sb b : rep sb b -> exists rest, buf_bytes sb = b ++ 0 :: rest.
Proof.
  intros [_ Hs Hb _]. unfold buf_bytes. destruct (sb_buf sb) as [bs|]; [by destruct Hb as [[junk ->] _]; exists junk|]. destruct Hb as [_ ->]. by exists [].
Qed.
Lemma buf_get_at sb l c l' : buf_bytes sb = l ++ c :: l' -> buf_get (zlen l) sb = Ok c sb.
Proof. intros Hb. unfold buf_get, bind, get. rewrite Hb. apply rd_idx. pose proof (zlen_pos l). unfold idx. replace (zlen l <? 0) with false by lia. unfold zlen. by rewrite Nat2Z.id, list_lookup_middle. Qed.
(** the string is cut at [n] *)
Lemma rep_cut sb b n : rep sb b -> 0 <= n <= zlen b -> exists sb', buf_set n 0 (set_len n sb) = Ok tt sb' /\ rep sb' (take (Z.to_nat n) b).
Proof.
  intros Hr Hn. destruct (Z.eq_dec (sb_alloc sb) 0) as [Ha|Ha].
  - pose proof (rp_buf _ _ Hr) as Hb. destruct sb as [alloc len [bs|] slop]; cbn [sb_alloc sb_buf] in *.
    { destruct Hb as [[junk ->] Hb]. rewrite zlen_app, zlen_cons in Hb. pose proof (zlen_pos junk). pose proof (zlen_pos b). lia. }
    destruct Hb as [_ ->]. change (@zlen Z []) with 0 in Hn. replace n with 0 by lia. pose proof (rp_slop _ _ Hr) as Hs. cbn [slopbuf] in Hs. subst. eexists. split; [reflexivity|]. by split.
  - destruct (rep_block sb b Hr Ha) as (junk & -> & Hm). pose proof (zlen_pos junk). eexists. split; [apply (buf_set_block n (b ++ 0 :: junk) n 0); rewrite zlen_app, zlen_cons; lia|].
    replace (take (Z.to_nat n) b) with (take (Z.to_nat n) (b ++ 0 :: junk)) by (apply take_app_le; unfold zlen in *; lia).
    apply block_cut; [rewrite zlen_app, zlen_cons; lia|done].
Qed.
Lemma take_strip p b : take (length (strip_end p b)) b = strip_end p b.
Proof.
  assert (H1 : exists l, b = strip_end p b ++ l).
  { unfold strip_end. exists (rev (take_while p (rev b))). rewrite <- rev_app_distr, take_skip_while. by rewrite rev_involutive. }
  destruct H1 as [l H1]. rewrite H1 at 2. apply take_app_length.
Qed.
Lemma strip_size p b : (length (strip_end p b) <= length b)%nat.
Proof. rewrite <- (take_strip p b) at 1. rewrite length_take. lia. Qed.
Lemma trim_loop p sb rest b : forall n, buf_bytes sb = b ++ rest -> (length b < n)%nat ->
  iter n (trim_step p) tt (set_len (zlen b) sb) = Ok tt (set_len (zlen (strip_end p b)) sb).
Proof.
  revert rest. induction b as [|c b IH] using rev_ind; intros rest [|n] Hb Hn; try (rewrite ?length_app in Hn; simpl in Hn; lia).
  - by apply iter_last.
  - rewrite zlen_app. change (zlen [c]) with 1. pose proof (zlen_pos b) as Hb0. rewrite length_app in Hn. cbn [length] in Hn. rewrite <- app_assoc in Hb. cbn [app] in Hb.
    assert (Hget : forall (k : Z -> SP (unit + unit)), bind (buf_get (zlen b + 1 - 1)) k (set_len (zlen b + 1) sb) = k c (set_len (zlen b + 1) sb)).
    { intros k. apply bind_ok. replace (zlen b + 1 - 1) with (zlen b) by lia. apply (buf_get_at (set_len (zlen b + 1) sb) b c rest). by destruct sb. }
    assert (Hs : strip_end p (b ++ [c]) = if p c then strip_end p b else b ++ [c]).
    { unfold strip_end. rewrite rev_app_distr. cbn [rev app skip_while]. destruct (p c); [done|]. cbn [rev]. by rewrite rev_involutive. }
    rewrite Hs. destruct (p c) eqn:Hp.
    + rewrite <- (IH (c :: rest) n Hb ltac:(lia)). apply iter_next. unfold trim_step. unfold bind at 1. unfold get. cbn [sb_len set_len]. replace (0 <? zlen b + 1) with true by lia.
      rewrite Hget, Hp. unfold bind, modify, ret. replace (zlen b + 1 - 1) with (zlen b) by lia. reflexivity.
    + rewrite zlen_app. change (zlen [c]) with 1. apply iter_last. unfold trim_step. unfold bind at 1. unfold get. cbn [sb_len set_len]. replace (0 <? zlen b + 1) with true by lia. by rewrite Hget, Hp.
Qed.
Lemma set_len_same sb : set_len (sb_len sb) sb = sb.
Proof. by destruct sb. Qed.
Lemma wp_trim_end p sb b : rep sb b -> wp (trim_end p) (fun _ sb' => rep sb' (strip_end p b)) sb.
Proof.
  intros Hr. destruct (rep_bytes sb b Hr) as [rest Hb]. unfold trim_end. wp_step. wp_step. wp_step. rewrite (rp_len _ _ Hr).
  pose proof (trim_loop p sb (0 :: rest) b (S (Z.to_nat (zlen b))) Hb ltac:(unfold zlen; lia)) as Hl. rewrite <- (rp_len _ _ Hr) in Hl at 2. rewrite set_len_same in Hl.
  eapply wpe_ok; [exact Hl|]. wp_step. wp_step. cbn [sb_len set_len]. pose proof (strip_size p b).
  destruct (rep_cut sb b (zlen (strip_end p b)) Hr) as (sb' & E & Hr'); [unfold zlen; lia|]. eapply wpe_ok; [exact E|].
  unfold zlen in Hr'. rewrite Nat2Z.id, take_strip in Hr'. done.
Qed.
Lemma wp_trim_newline sb b : rep sb b -> wp strbuf_trim_trailing_newline (fun _ sb' => rep sb' (strip_newline b)) sb.
Proof.
  intros Hr. destruct (rep_bytes sb b Hr) as [rest Hb]. unfold strbuf_trim_trailing_newline, strip_newline. wp_step. wp_step. rewrite (rp_len _ _ Hr).
  destruct b as [|c b _] using rev_ind; [by wp_step|]. rewrite rev_app_distr. cbn [rev app]. rewrite zlen_app in *. change (zlen [c]) with 1. pose proof (zlen_pos b) as Hb0.
  replace (0 <? zlen b + 1) with true by lia. replace (zlen b + 1 - 1) with (zlen b) by lia. rewrite <- app_assoc in Hb. cbn [app] in Hb. wp_step.
  eapply wpe_ok; [by eapply buf_get_at|]. destruct (c =? 10); [|by wp_step]. wp_step. wp_step. wp_step. wp_step. cbn [sb_len set_len].
  assert (Hcut : forall n l, 0 <= n <= zlen b -> take (Z.to_nat n) b = l -> wp (sb <- get ;; buf_set (sb_len sb) 0) (fun _ sb' => rep sb' l) (set_len n sb)).
  { intros n l Hn <-. wp_step. wp_step. cbn [sb_len set_len]. destruct (rep_cut sb (b ++ [c]) n Hr) as (sb' & E & Hr'); [rewrite zlen_app; change (zlen [c]) with 1; lia|].
    eapply wpe_ok; [exact E|]. rewrite take_app_le in Hr' by (unfold zlen in *; lia). done. }
  destruct b as [|d b _] using rev_ind.
  { change (@zlen Z []) with 0. cbn [Z.ltb Z.compare]. wp_step. wp_step. apply (Hcut 0 []); [done|done]. }
  rewrite rev_app_distr. cbn [rev app]. rewrite zlen_app in *. change (zlen [d]) with 1 in *. pose proof (zlen_pos b) as Hb1. replace (0 <? zlen b + 1) with true by lia.
  replace (zlen b + 1 - 1) with (zlen b) by lia. rewrite <- app_assoc in Hb. cbn [app] in Hb. wp_step. wp_step. eapply wpe_ok; [eapply (buf_get_at (set_len (zlen b + 1) sb) b d); by destruct sb|].
  wp_step; wp_step.
  - replace (d =? 13) with true by done. apply (Hcut (zlen b)); [lia|]. rewrite rev_involutive. unfold zlen. rewrite Nat2Z.id. apply take_app_length.
  - replace (d =? 13) with false by done. apply (Hcut (zlen b + 1)); [lia|]. cbn [rev]. rewrite rev_involutive. apply take_ge. rewrite length_app. cbn [length]. unfold zlen. lia.
Qed.
Lemma rep_slopbuf sb b : rep sb b -> sb_alloc sb = 0 -> b = [] /\ sb = STRBUF_INIT [0].
Proof.
  intros [Hl Hs Hb _] Ha. destruct sb as [alloc len [bs|] slop]; cbn [sb_alloc sb_len sb_buf slopbuf] in *.
  - destruct Hb as [[junk ->] Hb]. rewrite zlen_app, zlen_cons in Hb. pose proof (zlen_pos junk). pose proof (zlen_pos b). lia.
  - destruct Hb as [_ ->]. by subst.
Qed.
Lemma ltrim_loop sb rest b : forall n pre, buf_bytes sb = pre ++ b ++ rest -> (length b < n)%nat ->
  iter n ltrim_step (zlen pre) (set_len (zlen b) sb) = Ok (zlen pre + zlen (take_while Sane.isspace b)) (set_len (zlen (skip_while Sane.isspace b)) sb).
Proof.
  induction b as [|c b IH]; intros [|n] pre Hb Hn; cbn [length] in Hn; try lia.
  - rewrite (iter_last n ltrim_step (zlen pre) (zlen pre) _ (set_len (@zlen Z []) sb)) by done. cbn [take_while skip_while]. f_equal. change (@zlen Z []) with 0. lia.
  - rewrite zlen_cons. pose proof (zlen_pos b) as Hb0. assert (Hget : buf_get (zlen pre) (set_len (1 + zlen b) sb) = Ok c (set_len (1 + zlen b) sb)).
    { apply (buf_get_at _ pre c (b ++ rest)). by destruct sb. }
    assert (Hstep : ltrim_step (zlen pre) (set_len (1 + zlen b) sb) = if Sane.isspace c then Ok (inl (zlen pre + 1)) (set_len (zlen b) sb) else Ok (inr (zlen pre)) (set_len (1 + zlen b) sb)).
    { unfold ltrim_step. unfold bind at 1. unfold get. cbn [sb_len set_len]. replace (0 <? 1 + zlen b) with true by lia. rewrite (bind_ok _ _ _ _ _ Hget).
      destruct (Sane.isspace c); [|done]. unfold bind, modify, ret. replace (1 + zlen b - 1) with (zlen b) by lia. done. }
    cbn [take_while skip_while]. destruct (Sane.isspace c).
    + rewrite (iter_next _ _ _ _ _ _ Hstep). replace (zlen pre + 1) with (zlen (pre ++ [c])) by (by rewrite zlen_app). rewrite IH; [|by rewrite <- app_assoc|lia].
      f_equal. rewrite zlen_app. change (zlen [c]) with 1. rewrite zlen_cons. lia.
    + rewrite (iter_last _ _ _ _ _ _ Hstep). f_equal; [change (@zlen Z []) with 0; lia|]. by rewrite zlen_cons.
Qed.
Lemma wp_ltrim sb b : rep sb b -> wp strbuf_ltrim (fun _ sb' => rep sb' (skip_while Sane.isspace b)) sb.
Proof.
  intros Hr. destruct (Z.eq_dec (sb_alloc sb) 0) as [Ha|Ha]; [destruct (rep_slopbuf sb b Hr Ha) as [-> ->]; by split|].
  destruct (rep_block sb b Hr Ha) as (junk & -> & Hm). unfold strbuf_ltrim. wp_step. wp_step. wp_step. cbn [sb_len block].
  pose proof (ltrim_loop (block (zlen b) (b ++ 0 :: junk)) (0 :: junk) b (S (Z.to_nat (zlen b))) [] eq_refl ltac:(unfold zlen; lia)) as Hl.
  change (set_len (zlen b) (block (zlen b) (b ++ 0 :: junk))) with (block (zlen b) (b ++ 0 :: junk)) in Hl. change (@zlen Z []) with 0 in Hl. eapply wpe_ok; [exact Hl|].
  pose proof (take_skip_while Sane.isspace b) as Hb. set (v := take_while Sane.isspace b) in *. set (w := skip_while Sane.isspace b) in *.
  assert (Hz : zlen (b ++ 0 :: junk) = zlen v + zlen w + 1 + zlen junk) by (rewrite zlen_app, zlen_cons, <- Hb, zlen_app; lia). pose proof (zlen_pos v). pose proof (zlen_pos w). pose proof (zlen_pos junk).
  change (set_len (zlen w) (block (zlen b) (b ++ 0 :: junk))) with (block (zlen w) (b ++ 0 :: junk)). wp_step. wp_step. wp_step. cbn [sb_len block]. unfold buf_move. wp_step. wp_step. wp_step.
  cbn [buf_bytes block sb_buf from_option id]. eapply wpe_ok; [apply rd_n_inside; lia|].
  assert (Ht : take (Z.to_nat (zlen w)) (drop (Z.to_nat (0 + zlen v)) (b ++ 0 :: junk)) = w).
  { rewrite <- Hb, <- app_assoc. unfold zlen. rewrite Nat2Z.id. replace (Z.to_nat (0 + Z.of_nat (length v))) with (length v) by lia. by rewrite drop_app_length, take_app_length. }
  rewrite Ht. eapply wpe_ok; [apply buf_write_block; lia|]. change (Z.to_nat 0) with 0%nat. set (bs := splice 0 w (b ++ 0 :: junk)).
  assert (Hbs : zlen bs = zlen (b ++ 0 :: junk)) by (unfold bs, zlen in *; rewrite length_splice; lia). eapply wpe_ok; [apply buf_set_block; lia|].
  pose proof (block_cut bs (zlen w) ltac:(lia) ltac:(lia)) as Hc. replace (take (Z.to_nat (zlen w)) bs) with w in Hc; [done|].
  unfold bs, splice. change (take 0 (b ++ 0 :: junk)) with (@nil Z). cbn [app]. unfold zlen. rewrite Nat2Z.id. symmetry. apply take_app_length.
Qed.
Lemma rep_get sb b i c : rep sb b -> idx b i = Some c -> buf_get i sb = Ok c sb.
Proof. intros Hr Hi. destruct (rep_bytes sb b Hr) as [rest Hb]. unfold buf_get, bind, get. rewrite Hb. apply rd_idx. by apply idx_app. Qed.
Lemma rep_set sb b i c : rep sb b -> 0 <= i < zlen b -> exists sb', buf_set i c sb = Ok tt sb' /\ rep sb' (<[Z.to_nat i := c]> b).
Proof.
  intros Hr Hi. assert (Ha : sb_alloc sb <> 0) by (intros Ha; destruct (rep_slopbuf sb b Hr Ha) as [-> _]; change (@zlen Z []) with 0 in Hi; lia).
  destruct (rep_block sb b Hr Ha) as (junk & -> & Hm). pose proof (zlen_pos junk). eexists. split; [apply buf_set_block; rewrite zlen_app, zlen_cons; lia|].
  rewrite insert_app_l by (unfold zlen in Hi; lia). rewrite <- (zlen_insert b (Z.to_nat i) c). apply block_rep. rewrite zlen_app, zlen_cons, zlen_insert in *. lia.
Qed.
Lemma wp_tolower sb b : rep sb b -> wp strbuf_tolower (fun _ sb' => rep sb' (map Sane.tolower b)) sb.
Proof.
  intros Hr. unfold strbuf_tolower. wp_step. wp_step. rewrite (rp_len _ _ Hr). unfold zlen. rewrite Nat2Z.id.
  eapply wpe_mono; [apply (wpe_repeat _ (fun j sb' => rep sb' (map Sane.tolower (take (Z.to_nat j) b) ++ drop (Z.to_nat j) b)))|].
  - intros j sb' Hj Hr'. destruct (idx_lt b j) as [c Hc]; [unfold zlen; lia|]. assert (Hlk : b !! Z.to_nat j = Some c) by (unfold idx in Hc; by replace (j <? 0) with false in Hc by lia).
    assert (Hlen : length (map Sane.tolower (take (Z.to_nat j) b)) = Z.to_nat j) by (rewrite length_map, length_take; lia). rewrite (drop_S _ _ _ Hlk) in Hr'. wp_step.
    eapply wpe_ok; [eapply rep_get; [exact Hr'|]|].
    { apply idx_to_nat; [lia|]. by apply list_lookup_middle. }
    destruct (rep_set _ _ j (Sane.tolower c) Hr') as (sb2 & E & Hr2); [rewrite zlen_app, zlen_cons; unfold zlen; rewrite Hlen, length_drop; lia|]. eapply wpe_ok; [exact E|].
    replace (Z.to_nat (j + 1)) with (S (Z.to_nat j)) by lia. rewrite (take_S_r _ _ _ Hlk), map_app, <- app_assoc. cbn [map app].
    replace (Z.to_nat j) with (length (map Sane.tolower (take (Z.to_nat j) b))) in Hr2 at 1 by done. by rewrite insert_mid in Hr2.
  - done.
  - cbv beta. intros [] sb' Hr'. replace (Z.to_nat (0 + Z.of_nat (length b))) with (length b) in Hr' by lia. rewrite firstn_all, skipn_all, app_nil_r in Hr'. done.
Qed.
Lemma rep_room sb b : rep sb b -> zlen b + 1 <= size_max.
Proof.
  intros Hr. pose proof (rp_buf _ _ Hr) as Hb. pose proof (rp_max _ _ Hr). destruct (sb_buf sb) as [bs|]; [|by destruct Hb as [_ ->]].
  destruct Hb as [[junk ->] Hb]. rewrite zlen_app, zlen_cons in Hb. pose proof (zlen_pos junk). lia.
Qed.
(** a string that is there has room *)
Lemma wp_if_room {A} (m : SP A) sb b extra b' : wpe (exhausted b extra) m (fun _ sb' => rep sb' b') sb -> zlen b' = zlen b + extra ->
  wpe (ends (if_room b extra b')) m (fun _ sb' => if_room b extra b' = Some b' /\ rep sb' b') sb.
Proof.
  intros Hm Hz. eapply wpe_mono; [eapply wpe_fault; [exact Hm|]|].
  - intros f Hf. eapply exhausted_ends; [exact Hf|]. intros Hn. by apply if_room_none.
  - intros a sb' Hr. split; [|done]. apply rep_room in Hr. unfold if_room, room. by replace (zlen b + extra + 1 <=? size_max) with true by lia.
Qed.
Lemma wp_complete sb b c : rep sb b -> wpe (ends (spec_call (OpComplete c) b)) (strbuf_complete c) (fun _ sb' => exists b', spec_call (OpComplete c) b = Some b' /\ rep sb' b') sb.
Proof.
  intros Hr. unfold strbuf_complete. cbn [spec_call]. wp_step. wp_step. rewrite (rp_len _ _ Hr). destruct b as [|d b _] using rev_ind; [change (@zlen Z [] =? 0) with true; cbn [negb]; wp_step; by exists []|].
  rewrite last_snoc, zlen_app. change (zlen [d]) with 1. pose proof (zlen_pos b). replace (zlen b + 1 =? 0) with false by lia. cbn [negb]. wp_step.
  eapply wpe_ok; [eapply rep_get; [exact Hr|]; replace (zlen b + 1 - 1) with (zlen b) by lia; apply idx_end|]. destruct (d =? c); cbn [negb]; [wp_step; by eexists|].
  eapply wpe_mono; [apply wp_if_room; [by apply wp_addch|by rewrite !zlen_app]|]. intros [] sb' Hr'. by eexists.
Qed.
Lemma wp_join argv delim : forall sb b, rep sb b ->
  wpe (ends (spec_join argv delim b)) (fold_n (length argv) (fun argv => strbuf_addch delim ;; match argv with a :: argv => strbuf_addstr a ;; ret argv | [] => oob end) argv)
    (fun _ sb' => exists b', spec_join argv delim b = Some b' /\ rep sb' b') sb.
Proof.
  induction argv as [|a argv IH]; intros sb b Hr; cbn [length fold_n spec_join]; [wp_step; by exists b|]. wp_step. wp_step.
  assert (H1 := wp_if_room _ sb b 1 _ (wp_addch sb b delim Hr) ltac:(by rewrite zlen_app)).
  eapply wpe_mono; [eapply wpe_fault; [exact H1|]|].
  { intros f [-> [Hn|Hn]]; (split; [done|]); [left; by rewrite Hn|by right]. }
  cbv beta. intros [] sb1 [-> Hr1]. cbn [mbind option_bind]. set (b1 := b ++ [u8 delim]) in *. wp_step.
  assert (H2 := wp_if_room _ sb1 b1 (zlen a) _ (wp_add sb1 b1 a Hr1) ltac:(by rewrite zlen_app)).
  eapply wpe_mono; [eapply wpe_fault; [exact H2|]|].
  { intros f [-> [Hn|Hn]]; (split; [done|]); [left; by rewrite Hn|by right]. }
  cbv beta. intros [] sb2 [-> Hr2]. cbn [mbind option_bind]. wp_step. by apply IH.
Qed.
Lemma wp_release sb b : rep sb b -> wp strbuf_release (fun _ sb' => rep sb' []) sb.
Proof.
  intros Hr. unfold strbuf_release, strbuf_init. wp_step. wp_step. pose proof (rp_slop _ _ Hr) as Hs. wp_step.
  - wp_step. wp_step. change (negb (0 =? 0)) with false. cbv match. wp_step. rewrite Hs. apply rep_init.
  - wp_step. destruct (Z.eqb_spec (sb_alloc sb) 0) as [Ha|]; [|done]. destruct (rep_slopbuf sb b Hr Ha) as [_ ->]. apply rep_init.
Qed.
Lemma wp_reset sb b : rep sb b -> wp strbuf_reset (fun _ sb' => rep sb' []) sb.
Proof.
  intros Hr. destruct (Z.eq_dec (sb_alloc sb) 0) as [Ha|Ha]; [destruct (rep_slopbuf sb b Hr Ha) as [-> ->]; by split|].
  destruct (rep_block sb b Hr Ha) as (junk & -> & Hm). pose proof (zlen_pos b). pose proof (zlen_pos junk). apply (wp_setlen _ (b ++ 0 :: junk) (zlen b) 0); rewrite zlen_app, zlen_cons in *; lia.
Qed.
Lemma wp_detach sb b : rep sb b ->
  wpe (exhausted b 0) strbuf_detach (fun r sb' => take (Z.to_nat (r.2 + 1)) r.1 = b ++ [0] /\ rep sb' []) sb.
Proof.
  intros Hr. unfold strbuf_detach, strbuf_init. wp_step. eapply wpe_mono; [by apply wp_grow|]. cbv beta. intros [] sb1 (junk & -> & _ & Hm). wp_step. wp_step. wp_step. wp_step. wp_step.
  change (negb (0 =? 0)) with false. cbv match. wp_step. wp_step. cbn [fst snd buf_bytes block sb_buf sb_len slopbuf from_option id]. split; [|apply rep_init].
  replace (b ++ 0 :: junk) with ((b ++ [0]) ++ junk) by (by rewrite <- app_assoc). apply take_app_length'. rewrite length_app. unfold zlen. cbn [length]. lia.
Qed.
(** strbuf_attach() takes over a string that has room for its NUL *)
Lemma wp_attach sb b bytes junk c : rep sb b -> zlen (bytes ++ c :: junk) <= size_max ->
  wp (strbuf_attach (bytes ++ c :: junk) (zlen bytes) (zlen (bytes ++ c :: junk))) (fun _ sb' => rep sb' bytes) sb.
Proof.
  intros Hr Hm. unfold strbuf_attach. wp_step. eapply wpe_mono; [by eapply wp_release|]. cbv beta. intros [] sb1 H1. wp_step. wp_step. rewrite (rp_slop _ _ H1).
  change (mkStrbuf (zlen (bytes ++ c :: junk)) (zlen bytes) (Some (bytes ++ c :: junk)) [0]) with (block (zlen bytes) (bytes ++ c :: junk)).
  assert (Hz : zlen (bytes ++ c :: junk) = zlen bytes + 1 + zlen junk) by (rewrite zlen_app, zlen_cons; lia). pose proof (zlen_pos bytes). pose proof (zlen_pos junk).
  assert (Hg : strbuf_grow 0 (block (zlen bytes) (bytes ++ c :: junk)) = Ok tt (block (zlen bytes) (bytes ++ c :: junk))).
  { unfold strbuf_grow, bind, get, strbuf_alloc. cbn [sb_len sb_alloc block]. rewrite overflow_room by lia. replace (room bytes 0) with true by (unfold room; lia). cbn [negb].
    replace (zlen (bytes ++ c :: junk) =? 0) with false by lia. cbn. by replace (zlen (bytes ++ c :: junk) <? zlen bytes + 0 + 1) with false by lia. }
  wp_step. eapply wpe_ok; [exact Hg|]. wp_step. wp_step. cbn [sb_len block]. eapply wpe_ok; [apply buf_set_block; lia|]. rewrite insert_at. apply block_rep.
  rewrite zlen_app, zlen_cons in *. lia.
Qed.

(** ** The contract for those who only append *)
Definition appends (m : SP unit) (l : list Z) : Prop := forall sb b, rep sb b -> wpe (exhausted b (zlen l)) m (fun _ sb' => rep sb' (b ++ l)) sb.
Lemma appends_add data : appends (strbuf_add data) data.
Proof. intros sb b. apply wp_add. Qed.
Lemma appends_addch c : byte c -> appends (strbuf_addch c) [c].
Proof. intros Hc sb b Hr. pose proof (wp_addch sb b c Hr) as H1. by rewrite u8_small in H1. Qed.
Lemma appends_nil : appends (ret tt) [].
Proof. intros sb b Hr. wp_step. by rewrite app_nil_r. Qed.
(** no memory, or none for a string of [n] bytes *)
Definition too_big (n : Z) (f : fault) : Prop := f = Died /\ (size_max < n + 1 \/ exists n, has_memory n = false).
Lemma exhausted_too_big b extra n f : exhausted b extra f -> zlen b + extra <= n -> too_big n f.
Proof. intros [-> [Hr|Hm]] Hn; (split; [done|]); [left; unfold room in Hr; lia|by right]. Qed.
Lemma wp_appended m l N sb b (Q : unit -> strbuf -> Prop) : appends m l -> rep sb b -> zlen b + zlen l <= N -> (forall sb', rep sb' (b ++ l) -> Q tt sb') ->
  wpe (too_big N) m Q sb.
Proof.
  intros Hm Hr Hn HQ. eapply wpe_mono; [eapply wpe_fault; [by apply Hm|intros f Hf; by eapply exhausted_too_big]|]. intros [] sb' H1. by apply HQ.
Qed.
Lemma appends_intro m l : (forall sb b, rep sb b -> wpe (too_big (zlen b + zlen l)) m (fun _ sb' => rep sb' (b ++ l)) sb) -> appends m l.
Proof.
  intros Hm sb b Hr. eapply wpe_fault; [by apply Hm|]. intros f [-> [Hf|Hf]]; (split; [done|]); [left; unfold room; lia|by right].
Qed.

(** ** Sequences of operations *)
Lemma wp_call op sb b : rep sb b ->
  wpe (ends (spec_call op b)) (strbuf_call op) (fun r sb' => exists b', spec_call op b = Some b' /\ rep sb' b' /\ r = spec_answer op b) sb.
Proof.
  intros Hr. assert (Hplain : forall (m : SP unit) (o : option (list Z)), wpe (ends o) m (fun _ sb' => exists b', o = Some b' /\ rep sb' b') sb ->
    wpe (ends o) (m ;; ret None) (fun r sb' => exists b', o = Some b' /\ rep sb' b' /\ r = @None (list Z)) sb).
  { intros m o H1. wp_step. eapply wpe_mono; [exact H1|]. intros [] sb' (b' & E & H2). wp_step. by exists b'. }
  assert (Htotal : forall (m : SP unit) b', wp m (fun _ sb' => rep sb' b') sb -> wpe (ends (Some b')) m (fun _ sb' => exists b'', Some b' = Some b'' /\ rep sb' b'') sb).
  { intros m b' H1. eapply wpe_mono; [eapply wpe_fault; [exact H1|done]|]. cbv beta. intros _ sb' H2. by exists b'. }
  assert (Hroom : forall (m : SP unit) extra b', wpe (exhausted b extra) m (fun _ sb' => rep sb' b') sb -> zlen b' = zlen b + extra ->
    wpe (ends (if_room b extra b')) m (fun _ sb' => exists b'', if_room b extra b' = Some b'' /\ rep sb' b'') sb).
  { intros m extra b' H1 H2. eapply wpe_mono; [by apply wp_if_room|]. cbv beta. intros _ sb' [E H3]. by exists b'. }
  assert (Hsplice : forall pos len data, wpe (ends (spec_splice pos len data b)) (strbuf_splice (Z.of_nat pos) (Z.of_nat len) data)
    (fun _ sb' => exists b'', spec_splice pos len data b = Some b'' /\ rep sb' b'') sb).
  { intros pos len data. eapply wpe_mono; [by apply wp_splice|]. cbv beta. intros _ sb' [E H3]. by eexists. }
  destruct op; cbn [strbuf_call spec_call spec_answer]; try apply Hplain.
  - eapply wpe_mono; [eapply wpe_fault; [apply wp_grow; [done|lia]|intros f Hf; eapply exhausted_ends; [exact Hf|intros Hn; by apply if_room_none]]|].
    cbv beta. intros _ sb' (junk & -> & Hj & Hm). exists b. split; [|by apply block_rep]. unfold if_room, room. rewrite zlen_app, zlen_cons in Hm.
    by replace (zlen b + Z.of_nat n + 1 <=? size_max) with true by lia.
  - apply Hroom; [by apply wp_add|by rewrite zlen_app].
  - apply Hroom; [by apply wp_addch|by rewrite zlen_app].
  - apply Hroom; [by apply wp_addchars|]. rewrite zlen_app. unfold zlen. by rewrite length_replicate.
  - apply Hroom; [by apply wp_addstrings|]. by rewrite zlen_app, zlen_concat_replicate.
  - apply Hsplice.
  - apply (Hsplice pos 0%nat).
  - apply (Hsplice pos len []).
  - unfold strbuf_join_argv. destruct argv as [|a argv]; [wp_step; by exists b|]. wp_step.
    assert (H2 := wp_if_room _ sb b (zlen a) _ (wp_add sb b a Hr) ltac:(by rewrite zlen_app)). eapply wpe_mono; [eapply wpe_fault; [exact H2|]|].
    { intros f [-> [Hn|Hn]]; (split; [done|]); [left; by rewrite Hn|by right]. }
    cbv beta. intros [] sb2 [-> Hr2]. cbn [mbind option_bind]. wp_step. eapply wpe_mono; [by apply wp_join|]. cbv beta. intros _ sb3 H3. by wp_step.
  - by apply wp_complete.
  - rewrite <- strip_blank. by apply Htotal, wp_trim_end.
  - rewrite <- (skip_while_ext _ _ _ blank_isspace). by apply Htotal, wp_ltrim.
  - apply Htotal. rewrite <- strip_blank, <- (skip_while_ext _ _ _ blank_isspace). unfold strbuf_trim. wp_step. eapply wpe_mono; [by apply wp_trim_end|]. cbv beta. intros [] sb1 H1. by apply wp_ltrim.
  - by apply Htotal, wp_trim_end.
  - by apply Htotal, wp_trim_newline.
  - rewrite <- (map_ext _ _ lower_tolower). by apply Htotal, wp_tolower.
  - apply Htotal. by eapply wp_reset.
  - apply Htotal. by eapply wp_release.
  - wp_step. eapply wpe_mono; [eapply wpe_fault; [by apply wp_detach|intros f Hf; eapply exhausted_ends; [exact Hf|intros Hn; by apply if_room_none]]|].
    cbv beta. intros [res sz] sb' [E H1]. cbn [fst snd] in E. wp_step. exists []. rewrite E. split; [|done]. unfold if_room, room. apply rep_room in Hr. by replace (zlen b + 0 + 1 <=? size_max) with true by lia.
Qed.
Lemma wp_calls ops : forall sb b, rep sb b ->
  wpe (ends (spec_calls ops b)) (strbuf_calls ops) (fun rs sb' => exists b', spec_calls ops b = Some (rs, b') /\ rep sb' b') sb.
Proof.
  induction ops as [|op ops IH]; intros sb b Hr; cbn [strbuf_calls spec_calls]; [wp_step; by exists b|]. wp_step.
  eapply wpe_mono; [eapply wpe_fault; [by apply wp_call|]|].
  { intros f [-> [Hn|Hn]]; (split; [done|]); [left; by rewrite Hn|by right]. }
  cbv beta. intros r sb1 (b1 & -> & H1 & ->). cbn [mbind option_bind]. wp_step. eapply wpe_mono; [eapply wpe_fault; [by apply IH|]|].
  { intros f [-> [Hn|Hn]]; (split; [done|]); [left; by rewrite Hn|by right]. }
  cbv beta. intros rs sb2 (b2 & -> & H2). wp_step. by exists b2.
Qed.
End rules.

(** C18: String buffers: from STRBUF_INIT, any sequence of operations does to the
    buffer what it says on byte strings and answers the strings that are
    detached, NUL and all; the buffer always ends in a NUL inside its memory and
    the shared slop buffer stays empty. The program dies only where the
    specification does (a size that overflows, a position outside) or when
    realloc() has no memory; there is no other fault. *)
Theorem strbuf_refines `{heap} ops :
  match strbuf_calls ops (STRBUF_INIT [0]) with
  | Ok rs sb => exists b, spec_calls ops [] = Some (rs, b) /\ rep sb b
  | Err f => f = Died /\ (spec_calls ops [] = None \/ exists n, has_memory n = false)
  end.
Proof. apply (wp_calls ops _ _ rep_init). Qed.
#[global] Instance plenty : heap := { has_memory := fun _ => true; fresh_byte := fun i => 170 }.
Example strbuf_session : exists sb, strbuf_calls [OpAdd (str "  lines "); OpRtrim; OpInsert 2 (str "two "); OpComplete 10; OpLtrim; OpAddch 65; OpRemove 0 4; OpDetach; OpAddchars 46 3] (STRBUF_INIT [0]) =
  Ok [None; None; None; None; None; None; None; Some (str "lines" ++ [10; 65; 0]); None] sb /\ rep sb (str "...").
Proof. eexists. split; [vm_compute; reflexivity|]. split; [done|done|split; [by exists (replicate 20 170)|done]|done]. Qed.
