(* ===== verification/GitQuote.v ===== *)
(** * git: quoting

    quote.c of src/bin/git/upstream: words for a shell, names in C style, and
    string literals of other languages.  Output goes to a string buffer of
    GitStrbuf; a C string that is only read is the list of its bytes, a pointer
    into it the suffix it points at; the string that sq_dequote() rewrites in
    place is the state. *)
From S2P Require Import Prelude GitBase GitStrbuf.

Definition SQ : Z := 39.
Definition BACKSLASH : Z := ch "\".
Definition DQ : Z := 34.
Definition need_bs_quote (c : Z) : bool := (c =? SQ) || (c =? ch "!").
(** strcspn(s, reject) *)
Definition strcspn (s reject : list Z) : Z := zlen (take_while (fun c => negb (existsb (Z.eqb c) reject)) s).

Section sq.
Context `{heap}.
(** while (need_bs_quote( *src)) *)
Definition sq_bs_body (src : list Z) : SP (list Z + list Z) :=
  match src with
  | c :: src' => if need_bs_quote c then strbuf_addstr [SQ; BACKSLASH] ;; strbuf_addch c ;; strbuf_addch SQ ;; ret (inl src') else ret (inr src)
  | [] => ret (inr src)
  end.
Definition sq_quote_body (src : list Z) : SP (list Z + unit) :=
  if negb (hd0 src =? 0) then
    let len := strcspn src [SQ; ch "!"] in
    strbuf_add (take (Z.to_nat len) src) ;;
    let src := drop (Z.to_nat len) src in
    src <- iter (S (length src)) sq_bs_body src ;;
    ret (inl src)
  else ret (inr tt).
Definition sq_quote_buf (src : list Z) : SP unit :=
  strbuf_addch SQ ;;
  iter (S (length src)) sq_quote_body src ;;
  strbuf_addch SQ.
(** dst->buf == src: the string is taken out of the buffer first *)
Definition sq_quote_own : SP unit := let* (src, sz) := strbuf_detach in sq_quote_buf (cstr src).
Definition ok_punct : list Z := str "+,-./:=@_^".
Definition sq_quote_buf_pretty (src : list Z) : SP unit :=
  if hd0 src =? 0 then strbuf_addstr [SQ; SQ]
  else if existsb (fun p => negb (Sane.isalnum p) && negb (strchr_in ok_punct p)) src then sq_quote_buf src
  else strbuf_addstr src.
Definition sq_quote_argv (argv : list (list Z)) : SP unit :=
  strbuf_grow 255 ;;
  fold_n (length argv) (fun argv => match argv with a :: argv => strbuf_addch 32 ;; sq_quote_buf a ;; ret argv | [] => oob end) argv ;;
  ret tt.
Definition pretty_body (i : Z) (argv : list (list Z)) : SP (list (list Z)) :=
  match argv with
  | a :: argv => (if 0 <? i then strbuf_addch 32 else ret tt) ;; sq_quote_buf_pretty a ;; ret argv
  | [] => oob
  end.
Definition sq_append_quote_argv_pretty (argv : list (list Z)) : SP unit := fold_i (length argv) 0 pretty_body argv ;; ret tt.
Definition sq_quote_argv_pretty (argv : list (list Z)) : SP unit :=
  (match argv with _ :: _ => strbuf_addch 32 | [] => ret tt end) ;;
  sq_append_quote_argv_pretty argv.
End sq.

(** ** Unquoting in place: the state is the memory behind the string *)
Abbreviation DP := (prog (list Z)) (only parsing).
Definition mem_at (i : Z) : DP Z := s <- get ;; rd s i.
Definition mem_put (i c : Z) : DP unit := s <- get ;; s <- lift OutOfBounds (upd s i c) ;; modify (fun _ => s).
(** [next]: the caller wants to know where it ends. None is NULL; the string is
    at [arg] otherwise, and *next behind it or NULL *)
Definition dequote_body (next : bool) (v : Z * Z) : DP (Z * Z + option (option Z)) :=
  let '(dst, src) := v in
  c <- mem_at (src + 1) ;;
  let src := src + 1 in
  if c =? 0 then ret (inr None)
  else if negb (c =? SQ) then mem_put dst c ;; ret (inl (dst + 1, src))
  else
    c <- mem_at (src + 1) ;;
    let src := src + 1 in
    if c =? 0 then mem_put dst 0 ;; ret (inr (Some None))
    else
      bs <- (if c =? BACKSLASH then
               c1 <- mem_at (src + 1) ;;
               if need_bs_quote c1 then c2 <- mem_at (src + 2) ;; ret (c2 =? SQ) else ret false
             else ret false) ;;
      if bs : bool then c1 <- mem_at (src + 1) ;; mem_put dst c1 ;; ret (inl (dst + 1, src + 2))
      else if negb next then ret (inr None)
      else mem_put dst 0 ;; ret (inr (Some (Some src))).
Definition sq_dequote_step (arg : Z) (next : bool) : DP (option (option Z)) :=
  c <- mem_at arg ;;
  if negb (c =? SQ) then ret None
  else s <- get ;; iter (S (length s)) (dequote_body next) (arg, arg).
(** the string at [arg], or NULL *)
Definition sq_dequote (arg : Z) : DP (option Z) :=
  r <- sq_dequote_step arg false ;; ret (match r with Some _ => Some arg | None => None end).
(** do c = *++next; while (isspace(c)) *)
Definition skip_spaces (next : Z) : DP Z :=
  s <- get ;;
  iter (S (length s)) (fun next => c <- mem_at (next + 1) ;; if Sane.isspace c then ret (inl (next + 1)) else ret (inr (next + 1))) next.
Definition mem_string (p : Z) : DP (list Z) := s <- get ;; ret (cstr (drop (Z.to_nat p) s)).
(** the pointers that go to argv, the copies that strvec_push() makes *)
Definition dequote_argv_body (v : Z * (list Z * list (list Z))) : DP (Z * (list Z * list (list Z)) + (Z * (list Z * list (list Z)))) :=
  let '(next, (argv, array)) := v in
  r <- sq_dequote_step next true ;;
  match r with
  | None => ret (inr (-1, (argv, array)))
  | Some next' =>
      let push := s <- mem_string next ;; ret (argv ++ [next], array ++ [s]) in
      match next' with
      | None => out <- push ;; ret (inr (0, out))
      | Some p =>
          c <- mem_at p ;;
          if negb (Sane.isspace c) then ret (inr (-1, (argv, array)))
          else p <- skip_spaces p ;; out <- push ;; ret (inl (p, out))
      end
  end.
Definition sq_dequote_to_argv_internal (arg : Z) : DP (Z * (list Z * list (list Z))) :=
  c <- mem_at arg ;;
  if c =? 0 then ret (0, ([], []))
  else s <- get ;; iter (S (length s)) dequote_argv_body (arg, ([], [])).
Definition sq_dequote_to_argv (arg : Z) : DP (Z * list Z) := r <- sq_dequote_to_argv_internal arg ;; ret (r.1, r.2.1).
Definition sq_dequote_to_strvec (arg : Z) : DP (Z * list (list Z)) := r <- sq_dequote_to_argv_internal arg ;; ret (r.1, r.2.2).

(** ** Names in C style *)
Definition cq_lookup : list Z :=
  replicate 7 1 ++ [ch "a"; ch "b"; ch "t"; ch "n"; ch "v"; ch "f"; ch "r"] ++ replicate 18 1 ++
  [-1; -1; DQ] ++ replicate 57 (-1) ++ [BACKSLASH] ++ replicate 34 (-1) ++ [1] ++ replicate 128 0.
Definition CQUOTE_NODQ : Z := 1.
(** what was counted and written to [fp] *)
Record emitted := mkEmitted { e_count : Z; e_file : list Z }.

Section cstyle.
Context `{heap}.
Variable quote_path_fully : Z.
Definition cq_must_quote (c : Z) : bool := 0 <? nth0 (Z.to_nat (u8 c)) cq_lookup + quote_path_fully.
(** [s] is the memory from the name on, [p] where the pointer is *)
Definition next_quote_pos (s : list Z) (p maxlen : Z) : SP Z :=
  if maxlen <? 0 then
    iter (S (length s)) (fun len => c <- rd s (p + len) ;; if negb (cq_must_quote c) then ret (inl (len + 1)) else ret (inr len)) 0
  else
    iter (S (length s)) (fun len =>
      if len <? maxlen then c <- rd s (p + len) ;; if negb (cq_must_quote c) then ret (inl (len + 1)) else ret (inr len)
      else ret (inr len)) 0.
Section emit.
Variables sb fp : bool.   (* which of the two is not NULL *)
Definition EMITBUF (l : list Z) (e : emitted) : SP emitted :=
  (if sb then strbuf_add l else ret tt) ;;
  ret (mkEmitted (u64 (e_count e + zlen l)) (if fp then e_file e ++ l else e_file e)).
Definition EMIT (c : Z) (e : emitted) : SP emitted :=
  (if sb then strbuf_addch c else ret tt) ;;
  ret (mkEmitted (u64 (e_count e + 1)) (if fp then e_file e ++ [u8 c] else e_file e)).
(** one turn; left with the length of the last part *)
Definition counted_body (s : list Z) (no_dq : bool) (v : Z * Z * emitted) : SP (Z * Z * emitted + Z * Z * emitted) :=
  let '(p, maxlen, e) := v in
  len <- next_quote_pos s p maxlen ;;
  last <- (if len =? u64 maxlen then ret true else if maxlen <? 0 then c <- rd s (p + len) ;; ret (c =? 0) else ret false) ;;
  if last : bool then ret (inr (p, len, e))
  else
    e <- (if negb no_dq && (p =? 0) then EMIT DQ e else ret e) ;;
    l <- rd_n s p len ;;
    e <- EMITBUF l e ;;
    e <- EMIT BACKSLASH e ;;
    let p := p + len in
    ch <- rd s p ;;
    let p := p + 1 in
    let maxlen := if 0 <=? maxlen then maxlen - (len + 1) else maxlen in
    let q := nth0 (Z.to_nat ch) cq_lookup in
    e <- (if 32 <=? q then EMIT q e
          else
            e <- EMIT (Z.land (Z.shiftr ch 6) 3 + 48) e ;;
            e <- EMIT (Z.land (Z.shiftr ch 3) 7 + 48) e ;;
            EMIT (Z.land (Z.shiftr ch 0) 7 + 48) e) ;;
    ret (inl (p, maxlen, e)).
Definition quote_c_style_counted (s : list Z) (maxlen flags : Z) : SP (Z * list Z) :=
  let no_dq := negb (Z.land flags CQUOTE_NODQ =? 0) in
  let* (v, e) := iter (S (length s)) (counted_body s no_dq) (0, maxlen, mkEmitted 0 []) in
  let '(p, len) := v in
  l <- rd_n s p len ;;
  e <- EMITBUF l e ;;
  if p =? 0 then ret (0, e_file e)
  else
    e <- (if negb no_dq then EMIT DQ e else ret e) ;;
    ret (e_count e, e_file e).
(** the number of bytes, and the bytes that go to [fp] *)
Definition quote_c_style (name : list Z) (flags : Z) : SP (Z * list Z) := quote_c_style_counted (name ++ [0]) (-1) flags.
End emit.
Definition quote_two_c_style (prefix path : list Z) (flags : Z) : SP unit :=
  let nodq := negb (Z.land flags CQUOTE_NODQ =? 0) in
  n1 <- quote_c_style false false prefix 0 ;;
  quoted <- (if negb (n1.1 =? 0) then ret true else n2 <- quote_c_style false false path 0 ;; ret (negb (n2.1 =? 0))) ;;
  if quoted : bool then
    (if negb nodq then strbuf_addch DQ else ret tt) ;;
    quote_c_style true false prefix CQUOTE_NODQ ;;
    quote_c_style true false path CQUOTE_NODQ ;;
    (if negb nodq then strbuf_addch DQ else ret tt)
  else strbuf_addstr prefix ;; strbuf_addstr path.
(** the bytes for [fp] *)
Definition write_name_quoted (name : list Z) (terminator : Z) : SP (list Z) :=
  if negb (terminator =? 0) then n <- quote_c_style false true name 0 ;; ret (n.2 ++ [u8 terminator])
  else ret (name ++ [u8 terminator]).
End cstyle.

Section unquote.
Context `{heap}.
Definition octal (c : Z) : bool := (ch "0" <=? c) && (c <=? ch "7").
(** the escape behind a backslash: the byte and what follows; None: error *)
Definition unescape (quoted : list Z) : option (Z * list Z) :=
  let c := hd0 quoted in
  let quoted := tl quoted in
  if c =? ch "a" then Some (7, quoted)
  else if c =? ch "b" then Some (8, quoted)
  else if c =? ch "f" then Some (12, quoted)
  else if c =? ch "n" then Some (10, quoted)
  else if c =? ch "r" then Some (13, quoted)
  else if c =? ch "t" then Some (9, quoted)
  else if c =? ch "v" then Some (11, quoted)
  else if (c =? BACKSLASH) || (c =? DQ) then Some (c, quoted)
  else if (ch "0" <=? c) && (c <=? ch "3") then
    let ac := Z.shiftl (c - ch "0") 6 in
    let c1 := hd0 quoted in
    if negb (octal c1) then None
    else
      let ac := Z.lor ac (Z.shiftl (c1 - ch "0") 3) in
      let c2 := hd0 (tl quoted) in
      if negb (octal c2) then None else Some (Z.lor ac (c2 - ch "0"), tl (tl quoted))
  else None.
(** 0 and *endp, or -1 *)
Definition unquote_body (oldlen : Z) (quoted : list Z) : SP (list Z + (Z * list Z)) :=
  let error := strbuf_setlen oldlen ;; ret (inr (-1, [])) in
  let len := strcspn quoted [DQ; BACKSLASH] in
  strbuf_add (take (Z.to_nat len) quoted) ;;
  let quoted := drop (Z.to_nat len) quoted in
  let c := hd0 quoted in
  let quoted := tl quoted in
  if c =? DQ then ret (inr (0, quoted))
  else if c =? BACKSLASH then
    match unescape quoted with
    | Some (ch, quoted) => strbuf_addch ch ;; ret (inl quoted)
    | None => error
    end
  else error.
Definition unquote_c_style (quoted : list Z) : SP (Z * list Z) :=
  sb <- get ;;
  if negb (hd0 quoted =? DQ) then ret (-1, [])
  else iter (S (length quoted)) (unquote_body (sb_len sb)) (tl quoted).
End unquote.

(** ** String literals for other languages *)
Section literals.
Context `{heap}.
(** while ((c = *src++)); [k] also sees what follows *)
Fixpoint each (k : Z -> list Z -> SP unit) (src : list Z) : SP unit :=
  match src with
  | [] => ret tt
  | c :: src => if c =? 0 then ret tt else k c src ;; each k src
  end.
Definition perl_quote_buf (src : list Z) : SP unit :=
  strbuf_addch SQ ;;
  each (fun c _ => (if (c =? SQ) || (c =? BACKSLASH) then strbuf_addch BACKSLASH else ret tt) ;; strbuf_addch c) src ;;
  strbuf_addch SQ.
Definition python_quote_buf (src : list Z) : SP unit :=
  strbuf_addch SQ ;;
  each (fun c _ =>
    if c =? 10 then strbuf_addch BACKSLASH ;; strbuf_addch (ch "n")
    else (if (c =? SQ) || (c =? BACKSLASH) then strbuf_addch BACKSLASH else ret tt) ;; strbuf_addch c) src ;;
  strbuf_addch SQ.
Definition tcl_char (c : Z) (_ : list Z) : SP unit :=
  if existsb (Z.eqb c) (str "[]{}$\" ++ [DQ]) then strbuf_addch BACKSLASH ;; strbuf_addch c
  else if c =? 12 then strbuf_addstr (str "\f")
  else if c =? 13 then strbuf_addstr (str "\r")
  else if c =? 10 then strbuf_addstr (str "\n")
  else if c =? 9 then strbuf_addstr (str "\t")
  else if c =? 11 then strbuf_addstr (str "\v")
  else strbuf_addch c.
Definition tcl_quote_buf (src : list Z) : SP unit := strbuf_addch DQ ;; each tcl_char src ;; strbuf_addch DQ.
Definition regex_char (c : Z) (src : list Z) : SP unit :=
  if existsb (Z.eqb c) (str "[.\*") then strbuf_addch BACKSLASH ;; strbuf_addch c
  else if c =? ch "$" then (if hd0 src =? 0 then strbuf_addch BACKSLASH else ret tt) ;; strbuf_addch c
  else strbuf_addch c.
Definition basic_regex_quote_buf (src : list Z) : SP unit :=
  src <- (if hd0 src =? ch "^" then strbuf_addch BACKSLASH ;; strbuf_addch (hd0 src) ;; ret (tl src) else ret src) ;;
  src <- (if hd0 src =? ch "*" then strbuf_addch (hd0 src) ;; ret (tl src) else ret src) ;;
  each regex_char src.
End literals.
