(* ===== verification/GitQuoteProps.v ===== *)
(** * git: what is quoted comes back

    A shell reads the words of sq_quote_argv() as they were, sq_dequote() and
    its kin restore them in place, and unquote_c_style() reads what
    quote_c_style() writes. *)
From S2P Require Import Prelude GitBase GitStrbuf GitQuote.

(** ** Words for a shell *)
Definition sq_char (c : Z) : list Z := if need_bs_quote c then [SQ; BACKSLASH; c; SQ] else [c].
Definition sq_body (s : list Z) : list Z := flat_map sq_char s.
Definition sq_quoted (s : list Z) : list Z := SQ :: sq_body s ++ [SQ].
(** a byte of a C string *)
Definition cbyte (c : Z) : Prop := 0 < c < 256.
Lemma cbyte_byte c : cbyte c -> byte c.
Proof. unfold cbyte, byte. lia. Qed.
Lemma drop_take_while p (s : list Z) : drop (length (take_while p s)) s = skip_while p s.
Proof. rewrite <- (take_skip_while p s) at 2. apply drop_app_length. Qed.
Lemma take_take_while p (s : list Z) : take (length (take_while p s)) s = take_while p s.
Proof. rewrite <- (take_skip_while p s) at 2. apply take_app_length. Qed.
Lemma drop_span p (s : list Z) : drop (Z.to_nat (zlen (take_while p s))) s = skip_while p s.
Proof. unfold zlen. rewrite Nat2Z.id. apply drop_take_while. Qed.
Lemma take_span p (s : list Z) : take (Z.to_nat (zlen (take_while p s))) s = take_while p s.
Proof. unfold zlen. rewrite Nat2Z.id. apply take_take_while. Qed.
Lemma Forall_split p P (s : list Z) : Forall P s -> Forall P (take_while p s) /\ Forall P (skip_while p s).
Proof. rewrite <- (take_skip_while p s) at 1. apply Forall_app. Qed.
Definition plain (c : Z) : bool := negb (existsb (Z.eqb c) [SQ; ch "!"]).
Lemma plain_need c : plain c = negb (need_bs_quote c).
Proof. unfold plain, need_bs_quote. cbn [existsb]. by rewrite orb_false_r. Qed.
Lemma plain_body s : sq_body (take_while plain s) = take_while plain s.
Proof.
  induction s as [|c s IH]; [done|]. cbn [take_while]. destruct (plain c) eqn:Hc; [|done]. cbn [sq_body flat_map]. unfold sq_char at 1. rewrite plain_need in Hc.
  destruct (need_bs_quote c); [done|]. cbn [app]. f_equal. exact IH.
Qed.
Lemma body_split p s : sq_body s = sq_body (take_while p s) ++ sq_body (skip_while p s).
Proof. unfold sq_body. rewrite <- flat_map_app. by rewrite take_skip_while. Qed.

(** sizes of lists; one append in a sequence *)
Ltac sizes := unfold zlen in *; repeat (rewrite length_app in * || cbn [length] in * ); lia.
Ltac append l := eapply (wp_appended _ l); [first [apply appends_add|apply appends_addch; unfold byte, cbyte, SQ, DQ, BACKSLASH in *; lia|assumption]|eassumption|try sizes|intros ? ?].

Section quoting.
Context `{heap}.
Lemma wp_bs_loop w : forall n N sb b, rep sb b -> Forall cbyte w -> (length w < n)%nat -> zlen b + zlen (sq_body (take_while need_bs_quote w)) <= N ->
  wpe (too_big N) (iter n sq_bs_body w) (fun r sb' => r = skip_while need_bs_quote w /\ rep sb' (b ++ sq_body (take_while need_bs_quote w))) sb.
Proof.
  induction w as [|c w IH]; intros [|n] N sb b Hr Hw Hn HN; cbn [length] in Hn; try lia; cbn [iter]; unfold sq_bs_body at 1; cbn [take_while skip_while] in *.
  - wp_step. wp_step. wp_step. by rewrite app_nil_r.
  - inversion_clear Hw as [|? ? Hc Hw']. destruct (need_bs_quote c) eqn:Hq; [|wp_step; wp_step; wp_step; by rewrite app_nil_r].
    cbn [sq_body flat_map] in *. fold (sq_body (take_while need_bs_quote w)) in *. set (l := sq_body (take_while need_bs_quote w)) in *.
    assert (Hch : sq_char c = [SQ; BACKSLASH; c; SQ]) by (unfold sq_char; by rewrite Hq). rewrite Hch in *. clear Hch.
    wp_step. wp_step. append [SQ; BACKSLASH]. wp_step. append [c]. wp_step. append [SQ]. wp_step.
    replace (b ++ [SQ; BACKSLASH; c; SQ] ++ l) with ((((b ++ [SQ; BACKSLASH]) ++ [c]) ++ [SQ]) ++ l) by (by rewrite <- !app_assoc).
    apply IH; [done|done|lia|sizes].
Qed.
Lemma bs_loop_rest s : hd0 s <> 0 -> (length (skip_while need_bs_quote (skip_while plain s)) < length s)%nat.
Proof.
  destruct s as [|c s]; [done|]. intros _. cbn [skip_while length]. rewrite plain_need.
  assert (Hle : forall p (l : list Z), (length (skip_while p l) <= length l)%nat) by (intros p l; rewrite <- (take_skip_while p l) at 2; rewrite length_app; lia).
  pose proof (Hle need_bs_quote (skip_while plain s)). pose proof (Hle plain s). pose proof (Hle need_bs_quote s).
  destruct (need_bs_quote c) eqn:Hq; cbn [negb]; [|lia]. cbn [skip_while]. rewrite Hq. lia.
Qed.
Lemma wp_quote_loop s : forall n N sb b, rep sb b -> Forall cbyte s -> (length s < n)%nat -> zlen b + zlen (sq_body s) <= N ->
  wpe (too_big N) (iter n sq_quote_body s) (fun _ sb' => rep sb' (b ++ sq_body s)) sb.
Proof.
  induction s as [s IH] using (induction_ltof1 _ (@length Z)). unfold ltof in IH. intros [|n] N sb b Hr Hs Hn HN; [lia|]. cbn [iter]. unfold sq_quote_body at 1.
  destruct (Z.eqb_spec (hd0 s) 0) as [H0|H0]; cbn [negb].
  - wp_step. wp_step. wp_step. destruct s as [|c s]; [by rewrite app_nil_r|]. inversion_clear Hs as [|? ? Hc _]. unfold cbyte in Hc. cbn in H0. lia.
  - pose proof (bs_loop_rest s H0) as Hlt. pose proof (Forall_split plain _ s Hs) as [_ Hs1]. pose proof (Forall_split need_bs_quote _ _ Hs1) as [_ Hs2].
    rewrite (body_split plain s), plain_body in *. rewrite (body_split need_bs_quote (skip_while plain s)) in *.
    unfold strcspn. change (fun c => negb (existsb (Z.eqb c) [SQ; ch "!"])) with plain. cbv zeta. rewrite take_span, drop_span.
    set (v := take_while plain s) in *. set (w := skip_while plain s) in *. set (rest := skip_while need_bs_quote w) in *. set (l := sq_body (take_while need_bs_quote w)) in *.
    wp_step. wp_step. append v. wp_step. eapply wpe_mono; [eapply (wp_bs_loop w); [eassumption|exact Hs1|lia|fold l; sizes]|]. cbv beta. fold l. intros r sb1 [-> Hr1]. wp_step.
    replace (b ++ v ++ l ++ sq_body rest) with (((b ++ v) ++ l) ++ sq_body rest) by (by rewrite <- !app_assoc).
    apply IH; [done|done|done|lia|sizes].
Qed.
Lemma appends_quote s : Forall cbyte s -> appends (sq_quote_buf s) (sq_quoted s).
Proof.
  intros Hs. apply appends_intro. intros sb b Hr. unfold sq_quoted, sq_quote_buf. wp_step. append [SQ]. wp_step.
  eapply wpe_mono; [apply wp_quote_loop; [done|done|lia|sizes]|]. cbv beta. intros [] sb1 H1.
  replace (b ++ SQ :: sq_body s ++ [SQ]) with (((b ++ [SQ]) ++ sq_body s) ++ [SQ]) by (by rewrite <- !app_assoc). append [SQ]. done.
Qed.
(** the words, each behind a blank *)
Definition sq_words (argv : list (list Z)) : list Z := flat_map (fun a => 32 :: sq_quoted a) argv.
Lemma wp_quote_argv argv : forall N sb b, rep sb b -> Forall (Forall cbyte) argv -> zlen b + zlen (sq_words argv) <= N ->
  wpe (too_big N) (fold_n (length argv) (fun argv => match argv with a :: argv => strbuf_addch 32 ;; sq_quote_buf a ;; ret argv | [] => oob end) argv)
    (fun _ sb' => rep sb' (b ++ sq_words argv)) sb.
Proof.
  induction argv as [|a argv IH]; intros N sb b Hr Ha HN; cbn [length fold_n]; [wp_step; by rewrite app_nil_r|]. inversion_clear Ha as [|? ? Ha1 Ha2].
  pose proof (appends_quote a Ha1) as Hq. cbn [sq_words flat_map] in *. fold (sq_words argv) in *. wp_step. wp_step. append [32]. wp_step. append (sq_quoted a). wp_step.
  replace (b ++ (32 :: sq_quoted a) ++ sq_words argv) with (((b ++ [32]) ++ sq_quoted a) ++ sq_words argv) by (by rewrite <- !app_assoc).
  apply IH; [done|done|sizes].
Qed.
Lemma wp_sq_quote_argv argv sb b : rep sb b -> Forall (Forall cbyte) argv ->
  wpe (too_big (zlen b + Z.max 255 (zlen (sq_words argv)))) (sq_quote_argv argv) (fun _ sb' => rep sb' (b ++ sq_words argv)) sb.
Proof.
  intros Hr Ha. unfold sq_quote_argv. wp_step. eapply wpe_mono; [eapply wpe_fault; [apply wp_grow; [done|lia]|]|].
  { intros f Hf. eapply exhausted_too_big; [exact Hf|lia]. }
  cbv beta. intros [] sb1 (junk & -> & _ & Hm). wp_step. eapply wpe_mono; [apply wp_quote_argv; [by apply block_rep|done|lia]|]. cbv beta. intros r sb2 H2. by wp_step.
Qed.
(** sq_quote_argv_pretty() *)
Definition sq_pretty (s : list Z) : list Z :=
  match s with
  | [] => [SQ; SQ]
  | _ => if existsb (fun p => negb (Sane.isalnum p) && negb (strchr_in ok_punct p)) s then sq_quoted s else s
  end.
Definition pretty_words (argv : list (list Z)) : list Z := flat_map (fun a => 32 :: sq_pretty a) argv.
Lemma appends_pretty s : Forall cbyte s -> appends (sq_quote_buf_pretty s) (sq_pretty s).
Proof.
  intros Hs. unfold sq_quote_buf_pretty, sq_pretty. destruct s as [|c s]; [apply appends_add|]. cbn [hd0 hd]. inversion_clear Hs as [|? ? Hc Hs']. unfold cbyte in Hc.
  replace (c =? 0) with false by lia. destruct (existsb _ _); [|apply appends_add]. apply appends_quote. by constructor.
Qed.
Lemma wp_pretty_loop argv : forall i N sb b, 0 < i -> rep sb b -> Forall (Forall cbyte) argv -> zlen b + zlen (pretty_words argv) <= N ->
  wpe (too_big N) (fold_i (length argv) i pretty_body argv) (fun _ sb' => rep sb' (b ++ pretty_words argv)) sb.
Proof.
  induction argv as [|a argv IH]; intros i N sb b Hi Hr Ha HN; cbn [length fold_i]; [wp_step; by rewrite app_nil_r|]. inversion_clear Ha as [|? ? Ha1 Ha2].
  pose proof (appends_pretty a Ha1) as Hq. cbn [pretty_words flat_map] in *. fold (pretty_words argv) in *. unfold pretty_body at 1. replace (0 <? i) with true by lia.
  wp_step. wp_step. append [32]. wp_step. append (sq_pretty a). wp_step.
  replace (b ++ (32 :: sq_pretty a) ++ pretty_words argv) with (((b ++ [32]) ++ sq_pretty a) ++ pretty_words argv) by (by rewrite <- !app_assoc).
  apply IH; [lia|done|done|sizes].
Qed.
Lemma appends_argv_pretty argv : Forall (Forall cbyte) argv -> appends (sq_quote_argv_pretty argv) (pretty_words argv).
Proof.
  intros Ha. apply appends_intro. intros sb b Hr. unfold sq_quote_argv_pretty, sq_append_quote_argv_pretty. destruct argv as [|a argv]; cbn [length fold_i].
  { wp_step. wp_step. wp_step. wp_step. wp_step. by rewrite app_nil_r. }
  inversion_clear Ha as [|? ? Ha1 Ha2]. pose proof (appends_pretty a Ha1) as Hq. cbn [pretty_words flat_map] in *. fold (pretty_words argv) in *.
  wp_step. append [32]. unfold pretty_body at 1. change (0 <? 0) with false. cbv match. do 5 wp_step. append (sq_pretty a). wp_step.
  eapply wpe_mono; [apply wp_pretty_loop; [lia|eassumption|done|sizes]|]. cbv beta. intros r sb1 Hr1. wp_step.
  by replace (b ++ (32 :: sq_pretty a) ++ pretty_words argv) with (((b ++ [32]) ++ sq_pretty a) ++ pretty_words argv) by (by rewrite <- !app_assoc).
Qed.
End quoting.

(** ** A shell reads words *)
(** POSIX 2.2 Quoting, with single quotes and backslashes; None: the end is
    missing, or the text is not only words *)
Definition sh_special (c : Z) : bool := existsb (Z.eqb c) (str "|&;<>()$`*?[#~!" ++ [10; DQ; 0]).
Definition sh_blank (c : Z) : bool := (c =? 32) || (c =? 9).
Fixpoint sh_read (word : option (list Z)) (quoted : bool) (l : list Z) : option (list (list Z)) :=
  let also c := Some (default [] word ++ [c]) in
  match l with
  | [] => if quoted then None else Some (match word with Some w => [w] | None => [] end)
  | c :: l =>
      if quoted then if c =? SQ then sh_read word false l else sh_read (also c) true l
      else if sh_blank c then match word with Some w => ws ← sh_read None false l; Some (w :: ws) | None => sh_read None false l end
      else if c =? SQ then sh_read (Some (default [] word)) true l
      else if c =? BACKSLASH then match l with d :: l => sh_read (also d) false l | [] => None end
      else if sh_special c then None
      else sh_read (also c) false l
  end.
Definition sh_words : list Z -> option (list (list Z)) := sh_read None false.
Lemma sh_body a : forall w l, sh_read (Some w) true (sq_body a ++ SQ :: l) = sh_read (Some (w ++ a)) false l.
Proof.
  induction a as [|c a IH]; intros w l; [by rewrite app_nil_r|]. cbn [sq_body flat_map]. fold (sq_body a). rewrite <- app_assoc. unfold sq_char.
  replace (w ++ c :: a) with ((w ++ [c]) ++ a) by (by rewrite <- app_assoc). destruct (need_bs_quote c) eqn:Hq; cbn [app sh_read].
  - apply IH.
  - unfold need_bs_quote in Hq. replace (c =? SQ) with false by (destruct (c =? SQ); done). apply IH.
Qed.
Lemma sh_quoted a l : sh_read None false (sq_quoted a ++ l) = sh_read (Some a) false l.
Proof. unfold sq_quoted. cbn [app sh_read]. change (sh_blank SQ) with false. change (SQ =? SQ) with true. cbv match. rewrite <- app_assoc. apply (sh_body a []). Qed.
Lemma sh_safe_char c : byte c -> negb (Sane.isalnum c) && negb (strchr_in ok_punct c) = false -> c <> 0 ->
  sh_blank c = false /\ (c =? SQ) = false /\ (c =? BACKSLASH) = false /\ sh_special c = false.
Proof.
  intros Hc. set (p := fun n => let c := Z.of_nat n in (c =? 0) || (negb (Sane.isalnum c) && negb (strchr_in ok_punct c)) || negb (sh_blank c || (c =? SQ) || (c =? BACKSLASH) || sh_special c)).
  assert (Hall : forallb p (seq 0 256) = true) by (vm_compute; reflexivity). pose proof (forallb_bytes p c Hall Hc) as Hp. unfold p in Hp. rewrite Z2Nat.id in Hp by (unfold byte in Hc; lia).
  intros Hs Hn. rewrite Hs in Hp. replace (c =? 0) with false in Hp by lia. cbn [orb] in Hp. rewrite negb_true_iff, !orb_false_iff in Hp. tauto.
Qed.
Lemma sh_plain a : forall w l, Forall cbyte a -> existsb (fun p => negb (Sane.isalnum p) && negb (strchr_in ok_punct p)) a = false ->
  sh_read (Some w) false (a ++ l) = sh_read (Some (w ++ a)) false l.
Proof.
  induction a as [|c a IH]; intros w l Ha He; [by rewrite app_nil_r|]. inversion_clear Ha as [|? ? Hc Ha']. cbn [existsb] in He. apply orb_false_iff in He as [He1 He2].
  destruct (sh_safe_char c) as (H1 & H2 & H3 & H4); [by apply cbyte_byte|done|unfold cbyte in Hc; lia|]. cbn [app sh_read]. rewrite H1, H2, H3, H4.
  replace (w ++ c :: a) with ((w ++ [c]) ++ a) by (by rewrite <- app_assoc). by apply IH.
Qed.
Lemma sh_pretty a l : Forall cbyte a -> sh_read None false (sq_pretty a ++ l) = sh_read (Some a) false l.
Proof.
  intros Ha. unfold sq_pretty. destruct a as [|c a]; [done|]. destruct (existsb _ _) eqn:He; [apply sh_quoted|]. cbn [existsb] in He. apply orb_false_iff in He as [He1 He2].
  inversion_clear Ha as [|? ? Hc Ha']. destruct (sh_safe_char c) as (H1 & H2 & H3 & H4); [by apply cbyte_byte|done|unfold cbyte in Hc; lia|]. cbn [app sh_read]. rewrite H1, H2, H3, H4.
  by apply (sh_plain a [c]).
Qed.
(** words that are read one by one are read in a row *)
Lemma sh_row (q : list Z -> list Z) argv : (forall a l, a ∈ argv -> sh_read None false (q a ++ l) = sh_read (Some a) false l) ->
  sh_words (flat_map (fun a => 32 :: q a) argv) = Some argv.
Proof.
  unfold sh_words. enough (forall o, (forall a l, a ∈ argv -> sh_read None false (q a ++ l) = sh_read (Some a) false l) ->
    sh_read o false (flat_map (fun a => 32 :: q a) argv) = Some (match o with Some w => w :: argv | None => argv end)) as Hall by exact (Hall None).
  induction argv as [|a argv IH]; intros o Hq; [by destruct o|]. cbn [flat_map app sh_read]. change (sh_blank 32) with true. cbv match.
  rewrite Hq by (by left). rewrite (IH (Some a)) by (intros a' l Ha'; apply Hq; by right). by destruct o.
Qed.

(** C19: Words for a shell: what sq_quote_argv() and sq_quote_argv_pretty()
    append for any words (bytes other than NUL, also none at all), a shell reads
    back as exactly these words; the functions fail only when a string of that
    size cannot be had. *)
Theorem shell_reads_words `{heap} argv sb b : rep sb b -> Forall (Forall cbyte) argv ->
  (exists words, sh_words words = Some argv /\
     wpe (too_big (zlen b + Z.max 255 (zlen words))) (sq_quote_argv argv) (fun _ sb' => rep sb' (b ++ words)) sb) /\
  (exists words, sh_words words = Some argv /\
     wpe (too_big (zlen b + zlen words)) (sq_quote_argv_pretty argv) (fun _ sb' => rep sb' (b ++ words)) sb).
Proof.
  intros Hr Ha. split.
  - exists (sq_words argv). split; [apply (sh_row sq_quoted); intros; apply sh_quoted|by apply wp_sq_quote_argv].
  - exists (pretty_words argv). split; [apply (sh_row sq_pretty); intros a l Hin; apply sh_pretty; rewrite Forall_forall in Ha; by apply Ha, list_elem_of_In|].
    eapply (wp_appended _ (pretty_words argv)); [by apply appends_argv_pretty|exact Hr|lia|done].
Qed.

(** ** Restored in place *)
Lemma mem_at_idx M i c : idx M i = Some c -> mem_at i M = Ok c M.
Proof. intros H. unfold mem_at, bind, get. by apply rd_idx. Qed.
Lemma mem_at_mid pre c post : mem_at (zlen pre) (pre ++ c :: post) = Ok c (pre ++ c :: post).
Proof. apply mem_at_idx. replace (pre ++ c :: post) with ((pre ++ [c]) ++ post) by (by rewrite <- app_assoc). apply idx_app, idx_end. Qed.
(** the same when the place is only known by its distance *)
Lemma mem_at_to M i pre c post : M = pre ++ c :: post -> i = zlen pre -> mem_at i M = Ok c M.
Proof. intros -> ->. apply mem_at_mid. Qed.
Lemma mem_put_mid pre c d post : mem_put (zlen pre) c (pre ++ d :: post) = Ok tt (pre ++ c :: post).
Proof.
  unfold mem_put, bind, get, lift, upd, modify. pose proof (zlen_pos pre). rewrite zlen_app, zlen_cons. pose proof (zlen_pos post).
  replace ((0 <=? zlen pre) && (zlen pre <? zlen pre + (1 + zlen post))) with true by lia. cbn. by rewrite insert_at.
Qed.
(** the loop inside a word: what is restored, the bytes it has left behind, and
    what is still quoted *)
Definition in_word (out gap rest : list Z) : list Z := out ++ gap ++ rest.
Lemma dequote_plain out g gap c rest next : c <> 0 -> (c =? SQ) = false ->
  dequote_body next (zlen out, zlen out + zlen gap) (in_word out (g :: gap) (c :: rest)) =
    Ok (inl (zlen (out ++ [c]), zlen (out ++ [c]) + zlen gap)) (in_word (out ++ [c]) (gap ++ [c]) rest).
Proof.
  intros Hc Hq. unfold dequote_body, in_word. erewrite bind_ok; [|apply (mem_at_to _ _ (out ++ g :: gap) c rest); [by rewrite <- app_assoc|sizes]].
  replace (c =? 0) with false by lia. rewrite Hq. cbn [negb app]. erewrite bind_ok; [|apply mem_put_mid]. cbv [ret]. rewrite <- !app_assoc. cbn [app]. do 3 f_equal; sizes.
Qed.
Lemma dequote_escaped out g gap c rest next : need_bs_quote c = true ->
  dequote_body next (zlen out, zlen out + zlen gap) (in_word out (g :: gap) ([SQ; BACKSLASH; c; SQ] ++ rest)) =
    Ok (inl (zlen (out ++ [c]), zlen (out ++ [c]) + zlen (gap ++ [SQ; BACKSLASH; c]))) (in_word (out ++ [c]) (gap ++ [SQ; BACKSLASH; c; SQ]) rest).
Proof.
  intros Hc. unfold dequote_body, in_word. set (M := out ++ (g :: gap) ++ [SQ; BACKSLASH; c; SQ] ++ rest).
  erewrite bind_ok; [|apply (mem_at_to _ _ (out ++ g :: gap) SQ ([BACKSLASH; c; SQ] ++ rest)); [unfold M; by rewrite <- app_assoc|sizes]].
  change (SQ =? 0) with false. change (negb (SQ =? SQ)) with false. cbv match.
  erewrite bind_ok; [|apply (mem_at_to _ _ (out ++ g :: gap ++ [SQ]) BACKSLASH ([c; SQ] ++ rest)); [unfold M; rewrite <- app_assoc; cbn [app]; by rewrite <- app_assoc|sizes]].
  change (BACKSLASH =? 0) with false. change (BACKSLASH =? BACKSLASH) with true. cbv match.
  assert (Hat : mem_at (zlen out + zlen gap + 1 + 1 + 1) M = Ok c M) by (apply (mem_at_to _ _ (out ++ g :: gap ++ [SQ; BACKSLASH]) c ([SQ] ++ rest)); [unfold M; rewrite <- app_assoc; cbn [app]; by rewrite <- app_assoc|sizes]).
  assert (Hat2 : mem_at (zlen out + zlen gap + 1 + 1 + 2) M = Ok SQ M) by (apply (mem_at_to _ _ (out ++ g :: gap ++ [SQ; BACKSLASH; c]) SQ rest); [unfold M; rewrite <- app_assoc; cbn [app]; by rewrite <- app_assoc|sizes]).
  unfold bind, ret. rewrite Hat, Hc, Hat2. change (SQ =? SQ) with true. cbv match beta. rewrite Hat. unfold M. cbn [app].
  rewrite (mem_put_mid out c g). rewrite <- !app_assoc. cbn [app]. do 3 f_equal; sizes.
Qed.
(** what may follow the last quote: the end, or a blank *)
Definition word_end (c : Z) : Prop := c = 0 \/ c = 32.
Lemma dequote_last out g gap c rest : word_end c ->
  dequote_body true (zlen out, zlen out + zlen gap) (in_word out (g :: gap) (SQ :: c :: rest)) =
    Ok (inr (Some (if c =? 0 then None else Some (zlen out + zlen gap + 2)))) (out ++ 0 :: gap ++ SQ :: c :: rest).
Proof.
  intros Hc. unfold dequote_body, in_word. set (M := out ++ (g :: gap) ++ SQ :: c :: rest).
  erewrite bind_ok; [|apply (mem_at_to _ _ (out ++ g :: gap) SQ (c :: rest)); [unfold M; by rewrite <- app_assoc|sizes]].
  change (SQ =? 0) with false. change (negb (SQ =? SQ)) with false. cbv match.
  erewrite bind_ok; [|apply (mem_at_to _ _ (out ++ g :: gap ++ [SQ]) c rest); [unfold M; rewrite <- app_assoc; cbn [app]; by rewrite <- app_assoc|sizes]].
  unfold M. cbn [app]. destruct Hc as [-> | ->].
  - change (0 =? 0) with true. cbv match. by erewrite bind_ok by apply mem_put_mid.
  - change (32 =? 0) with false. change (32 =? BACKSLASH) with false. cbv match. unfold bind, ret. cbn [negb]. cbv match beta. rewrite mem_put_mid. do 4 f_equal. lia.
Qed.
(** a whole word; [done] counts the bytes up to the last quote *)
Lemma dequote_word w : forall n out g gap c rest, Forall cbyte w -> word_end c -> (length w < n)%nat ->
  exists gap', zlen gap' = zlen gap + zlen (sq_body w) - zlen w /\
    iter n (dequote_body true) (zlen out, zlen out + zlen gap) (in_word out (g :: gap) (sq_body w ++ SQ :: c :: rest)) =
      Ok (Some (if c =? 0 then None else Some (zlen (out ++ w) + zlen gap' + 2))) ((out ++ w) ++ 0 :: gap' ++ SQ :: c :: rest).
Proof.
  induction w as [|x w IH]; intros [|n] out g gap c rest Hw Hc Hn; cbn [length] in Hn; try lia.
  - exists gap. split; [change (zlen (sq_body [])) with 0; change (@zlen Z []) with 0; lia|]. cbn [sq_body flat_map app]. erewrite iter_last by (by apply dequote_last). by rewrite app_nil_r.
  - inversion_clear Hw as [|? ? Hx Hw']. cbn [sq_body flat_map]. fold (sq_body w). rewrite <- app_assoc. unfold sq_char. replace (out ++ x :: w) with ((out ++ [x]) ++ w) by (by rewrite <- app_assoc).
    destruct (need_bs_quote x) eqn:Hq.
    + destruct (IH n (out ++ [x]) (hd 0 (gap ++ [SQ])) (tl (gap ++ [SQ]) ++ [BACKSLASH; x; SQ]) c rest Hw' Hc ltac:(lia)) as (gap' & Hz & E).
      assert (Hg : hd 0 (gap ++ [SQ]) :: tl (gap ++ [SQ]) ++ [BACKSLASH; x; SQ] = gap ++ [SQ; BACKSLASH; x; SQ]) by (by destruct gap; [|cbn [hd tl app]; rewrite <- app_assoc]).
      assert (Hgz : zlen (tl (gap ++ [SQ]) ++ [BACKSLASH; x; SQ]) = zlen (gap ++ [SQ; BACKSLASH; x])) by (destruct gap; [done|cbn [tl app]; sizes]). rewrite Hg, Hgz in E.
      exists gap'. split; [rewrite Hgz in Hz; sizes|]. erewrite iter_next by (by apply dequote_escaped). exact E.
    + destruct (IH n (out ++ [x]) (hd 0 (gap ++ [x])) (tl (gap ++ [x])) c rest Hw' Hc ltac:(lia)) as (gap' & Hz & E).
      assert (Hg : hd 0 (gap ++ [x]) :: tl (gap ++ [x]) = gap ++ [x]) by (by destruct gap).
      assert (Hgz : zlen (tl (gap ++ [x])) = zlen gap) by (destruct gap; [done|cbn [tl app]; sizes]). rewrite Hg, Hgz in E.
      exists gap'. split; [rewrite Hgz in Hz; sizes|]. cbn [app]. erewrite iter_next; [exact E|]. apply dequote_plain; [unfold cbyte in Hx; lia|]. unfold need_bs_quote in Hq. by destruct (x =? SQ).
Qed.
Lemma body_length w : (length w <= length (sq_body w))%nat.
Proof. induction w as [|c w IH]; [done|]. cbn [sq_body flat_map length]. fold (sq_body w). rewrite length_app. unfold sq_char. destruct (need_bs_quote c); cbn [length]; lia. Qed.
Lemma dequote_step done w c rest : Forall cbyte w -> word_end c ->
  exists gap, zlen w + zlen gap = zlen (sq_body w) /\
    sq_dequote_step (zlen done) true (done ++ sq_quoted w ++ c :: rest) =
      Ok (Some (if c =? 0 then None else Some (zlen (done ++ w ++ 0 :: gap ++ [SQ])))) (done ++ w ++ 0 :: gap ++ SQ :: c :: rest).
Proof.
  intros Hw Hc. unfold sq_dequote_step, sq_quoted. cbn [app]. erewrite bind_ok by apply mem_at_mid. change (negb (SQ =? SQ)) with false. cbv match.
  unfold bind at 1, get. rewrite <- app_assoc. cbn [app]. pose proof (body_length w) as Hb.
  destruct (dequote_word w (S (length (done ++ SQ :: sq_body w ++ SQ :: c :: rest))) done SQ [] c rest Hw Hc) as (gap & Hz & E); [rewrite length_app; cbn [length]; rewrite length_app; lia|].
  change (@zlen Z []) with 0 in *. rewrite Z.add_0_r in E. exists gap. split; [lia|]. unfold in_word in E. cbn [app] in E. rewrite E, <- app_assoc. destruct (c =? 0); [done|]. do 4 f_equal. sizes.
Qed.
Lemma cstr_nul w rest : Forall cbyte w -> cstr (w ++ 0 :: rest) = w.
Proof. induction 1 as [|c w Hc _ IH]; [done|]. cbn [app cstr]. unfold cbyte in Hc. replace (c =? 0) with false by lia. by f_equal. Qed.
Lemma mem_string_at done w rest M : M = done ++ w ++ 0 :: rest -> Forall cbyte w -> mem_string (zlen done) M = Ok w M.
Proof.
  intros -> Hw. unfold mem_string, bind, get, ret. f_equal. unfold zlen. rewrite Nat2Z.id, drop_app_length. by apply cstr_nul.
Qed.
Lemma skip_one done rest : skip_spaces (zlen done) (done ++ 32 :: SQ :: rest) = Ok (zlen (done ++ [32])) (done ++ 32 :: SQ :: rest).
Proof.
  unfold skip_spaces. unfold bind at 1, get. apply iter_last. erewrite bind_ok; [|apply (mem_at_to _ _ (done ++ [32]) SQ rest); [by rewrite <- app_assoc|sizes]].
  change (Sane.isspace SQ) with false. cbv [ret]. do 2 f_equal. sizes.
Qed.
(** the pointer [p] is at the string [w] *)
Definition string_at (M : list Z) (p : Z) (w : list Z) : Prop := mem_string p M = Ok w M.
(** one word of several *)
Lemma dequote_argv_next done a r ps arr : Forall cbyte a ->
  exists gap, dequote_argv_body (zlen done, (ps, arr)) (done ++ sq_quoted a ++ 32 :: SQ :: r) =
    Ok (inl (zlen (done ++ a ++ 0 :: gap), (ps ++ [zlen done], arr ++ [a]))) ((done ++ a ++ 0 :: gap) ++ SQ :: r).
Proof.
  intros Ha. destruct (dequote_step done a 32 (SQ :: r) Ha) as (gap & _ & E); [by right|]. exists (gap ++ [SQ; 32]).
  set (done1 := done ++ a ++ 0 :: gap ++ [SQ]) in *.
  assert (HM : done ++ a ++ 0 :: gap ++ SQ :: 32 :: SQ :: r = done1 ++ 32 :: SQ :: r) by (unfold done1; rewrite <- !app_assoc; cbn [app]; by rewrite <- app_assoc).
  assert (Hd : done ++ a ++ 0 :: gap ++ [SQ; 32] = done1 ++ [32]) by (unfold done1; rewrite <- !app_assoc; cbn [app]; by rewrite <- app_assoc).
  unfold dequote_argv_body. erewrite bind_ok; [|exact E]. change (32 =? 0) with false. cbv match. rewrite Hd, HM. erewrite bind_ok by apply mem_at_mid.
  change (negb (Sane.isspace 32)) with false. cbv match. erewrite bind_ok by apply skip_one. unfold bind, ret.
  rewrite (mem_string_at done a (gap ++ SQ :: 32 :: SQ :: r)) by done. by rewrite <- app_assoc.
Qed.
Lemma dequote_argv_loop argv : forall n done a junk ps arr, Forall cbyte a -> Forall (Forall cbyte) argv -> (length argv < n)%nat ->
  exists tail qs, iter n dequote_argv_body (zlen done, (ps, arr)) (done ++ sq_quoted a ++ sq_words argv ++ 0 :: junk) = Ok (0, (ps ++ qs, arr ++ a :: argv)) (done ++ tail) /\
    Forall2 (string_at (done ++ tail)) qs (a :: argv).
Proof.
  induction argv as [|a2 argv IH]; intros [|n] done a junk ps arr Ha Hargv Hn; cbn [length] in Hn; try lia.
  - destruct (dequote_step done a 0 junk Ha) as (gap & _ & E); [by left|]. exists (a ++ 0 :: gap ++ SQ :: 0 :: junk), [zlen done].
    pose proof (mem_string_at done a (gap ++ SQ :: 0 :: junk) _ eq_refl Ha) as Hs. split; [|by repeat constructor].
    apply iter_last. unfold dequote_argv_body. cbn [sq_words flat_map app] in E |- *. erewrite bind_ok; [|exact E]. change (0 =? 0) with true. cbv match. unfold bind, ret. by rewrite Hs.
  - inversion_clear Hargv as [|? ? Ha2 Hargv']. cbn [sq_words flat_map]. fold (sq_words argv).
    destruct (dequote_argv_next done a ((sq_body a2 ++ [SQ]) ++ sq_words argv ++ 0 :: junk) ps arr Ha) as (gap & E).
    destruct (IH n (done ++ a ++ 0 :: gap) a2 junk (ps ++ [zlen done]) (arr ++ [a]) Ha2 Hargv' ltac:(lia)) as (tail & qs & E2 & Hqs).
    assert (Hfin : (done ++ a ++ 0 :: gap) ++ tail = done ++ a ++ 0 :: gap ++ tail) by (rewrite <- !app_assoc; cbn [app]; done).
    exists (a ++ 0 :: gap ++ tail), (zlen done :: qs). rewrite <- Hfin. split; [|constructor; [by apply (mem_string_at done a (gap ++ tail))|done]].
    rewrite <- app_assoc. erewrite iter_next by exact E. unfold sq_quoted in E2. repeat (rewrite <- app_assoc in E2; cbn [app] in E2). repeat (rewrite <- app_assoc; cbn [app]). exact E2.
Qed.

(** C20: Restored in place: when sq_quote_argv() has written words (at least one)
    to a string buffer, sq_dequote_to_argv_internal() at the first quote answers 0
    with the words, one by one, as sq_dequote_to_strvec() copies them, and with
    pointers for sq_dequote_to_argv() at which they still are in the end. *)
Theorem sq_dequote_restores `{heap} argv : argv <> [] -> Forall (Forall cbyte) argv ->
  wpe (too_big (Z.max 255 (zlen (sq_words argv)))) (sq_quote_argv argv) (fun _ sb =>
    exists ps M, sq_dequote_to_argv_internal 1 (buf_bytes sb) = Ok (0, (ps, argv)) M /\ Forall2 (string_at M) ps argv) (STRBUF_INIT [0]).
Proof.
  intros Hn Ha. eapply wpe_mono; [eapply wpe_fault; [apply (wp_sq_quote_argv argv _ [] rep_init Ha)|]|]; [done|]. cbv beta. intros [] sb Hr. cbn [app] in Hr.
  destruct argv as [|a argv]; [done|]. inversion_clear Ha as [|? ? Ha1 Ha2].
  assert (Hb : exists junk, buf_bytes sb = [32] ++ sq_quoted a ++ sq_words argv ++ 0 :: junk).
  { pose proof (rp_buf _ _ Hr) as Hbuf. unfold buf_bytes. destruct (sb_buf sb) as [bs|]; [|by destruct Hbuf]. destruct Hbuf as [[junk ->] _]. exists junk.
    cbn [sq_words flat_map from_option app]. by rewrite <- app_assoc. }
  destruct Hb as [junk ->]. destruct (dequote_argv_loop argv (S (length ([32] ++ sq_quoted a ++ sq_words argv ++ 0 :: junk))) [32] a junk [] [] Ha1 Ha2) as (tail & qs & E & Hqs).
  { rewrite !length_app. enough (length argv <= length (sq_words argv))%nat by lia. clear. induction argv as [|a argv IH]; [done|]. cbn [sq_words flat_map length app]. fold (sq_words argv). rewrite length_app. lia. }
  exists qs, ([32] ++ tail). split; [|done]. unfold sq_dequote_to_argv_internal. erewrite bind_ok; [|by apply (mem_at_mid [32])]. exact E.
Qed.

(** ** Names in C style *)
Section names.
Context `{heap}.
Variable quote_path_fully : Z.
Hypothesis fully_pos : 0 <= quote_path_fully.
Abbreviation must := (cq_must_quote quote_path_fully).
Definition cq_code (c : Z) : list Z :=
  let q := nth0 (Z.to_nat c) cq_lookup in
  if 32 <=? q then [q] else [Z.land (Z.shiftr c 6) 3 + 48; Z.land (Z.shiftr c 3) 7 + 48; Z.land (Z.shiftr c 0) 7 + 48].
Definition cq_char (c : Z) : list Z := if must c then BACKSLASH :: cq_code c else [c].
Definition cq_body (w : list Z) : list Z := flat_map cq_char w.
Definition free (c : Z) : bool := negb (must c).
Definition dq (no_dq : bool) : list Z := if no_dq then [] else [DQ].
(** what quote_c_style() makes of a name *)
Definition cq_name (no_dq : bool) (w : list Z) : list Z := if existsb must w then dq no_dq ++ cq_body w ++ dq no_dq else w.
Lemma must_nul : must 0 = true.
Proof. unfold cq_must_quote. change (nth0 (Z.to_nat (u8 0)) cq_lookup) with 1. lia. Qed.
Lemma free_body v : forallb free v = true -> cq_body v = v.
Proof.
  induction v as [|c v IH]; [done|]. cbn [forallb]. intros [Hc Hv]%andb_prop. cbn [cq_body flat_map]. fold (cq_body v). rewrite IH by done. unfold cq_char. unfold free in Hc.
  by destruct (must c).
Qed.
Lemma free_must v : forallb free v = negb (existsb must v).
Proof. induction v as [|c v IH]; [done|]. cbn [forallb existsb]. rewrite IH. unfold free. by destruct (must c). Qed.
Lemma cq_body_app v w : cq_body (v ++ w) = cq_body v ++ cq_body w.
Proof. apply flat_map_app. Qed.
Lemma cq_char_size c : 1 <= zlen (cq_char c) <= 4.
Proof. unfold cq_char, cq_code. destruct (must c); [|by split]. destruct (_ <=? _); by split. Qed.
Lemma cq_body_size w : zlen w <= zlen (cq_body w) <= 4 * zlen w.
Proof.
  induction w as [|c w IH]; [by split|]. cbn [cq_body flat_map]. fold (cq_body w). rewrite zlen_app, zlen_cons. pose proof (cq_char_size c). lia.
Qed.
(** the free bytes in front *)
Definition front (w : list Z) : list Z := take_while free w.
Lemma front_at v c w : forallb free v = true -> must c = true -> front (v ++ c :: w) = v.
Proof.
  intros Hv Hc. induction v as [|d v IH]; cbn [front take_while app]; unfold front; cbn [take_while].
  - unfold free at 1. by rewrite Hc.
  - cbn [forallb] in Hv. apply andb_prop in Hv as [-> Hv]. f_equal. by apply IH.
Qed.
Lemma next_loop w : forall n done len rest p (sb : strbuf), (length w < n)%nat -> p + len = zlen done ->
  iter n (fun len => c <- rd (done ++ w ++ 0 :: rest) (p + len) ;; if negb (must c) then ret (inl (len + 1)) else ret (inr len)) len sb = Ok (len + zlen (front w)) sb.
Proof.
  induction w as [|c w IH]; intros [|n] done len rest p sb Hn Hp; cbn [length] in Hn; try lia; cbn [app front take_while]; unfold front; cbn [take_while].
  - apply iter_last. erewrite bind_ok; [|rewrite Hp; by eapply left_rd; exists done]. rewrite must_nul. cbn [negb]. unfold ret. change (@zlen Z []) with 0. by rewrite Z.add_0_r.
  - assert (Hrd : rd (done ++ c :: w ++ 0 :: rest) (p + len) sb = Ok c sb) by (rewrite Hp; by eapply left_rd; exists done). unfold free at 1. destruct (must c) eqn:Hc; cbn [negb].
    + apply iter_last. erewrite bind_ok by exact Hrd. rewrite Hc. cbn [negb]. unfold ret. change (@zlen Z []) with 0. by rewrite Z.add_0_r.
    + erewrite iter_next; [|erewrite bind_ok by exact Hrd; by rewrite Hc]. pose proof (IH n (done ++ [c]) (len + 1) rest p sb ltac:(lia)) as E.
      rewrite <- app_assoc in E. cbn [app] in E. rewrite E by (sizes). f_equal. rewrite zlen_cons. unfold front. lia.
Qed.
Lemma next_pos pre w rest (sb : strbuf) : next_quote_pos quote_path_fully (pre ++ w ++ 0 :: rest) (zlen pre) (-1) sb = Ok (zlen (front w)) sb.
Proof.
  unfold next_quote_pos. change (-1 <? 0) with true. cbv match. rewrite (next_loop w); [done|rewrite !length_app; lia|lia].
Qed.

(** *** Output *)
(** [out] has gone to the buffer, the file and the count *)
Definition written (sb fp : bool) (b out : list Z) (v : emitted) (st : strbuf) : Prop :=
  v = mkEmitted (zlen out) (if fp then out else []) /\ rep st (if sb then b ++ out else b).
Lemma wp_emitbuf sb fp b N out l v st (Q : emitted -> strbuf -> Prop) : written sb fp b out v st -> zlen (out ++ l) <= size_max -> zlen b + zlen (out ++ l) <= N ->
  (forall v' st', written sb fp b (out ++ l) v' st' -> Q v' st') -> wpe (too_big N) (EMITBUF sb fp l v) Q st.
Proof.
  intros [-> Hr] Hs Hn HQ. unfold EMITBUF. cbn [e_count e_file]. pose proof (zlen_pos out). pose proof (zlen_pos l). rewrite zlen_app in *. unfold size_max in Hs.
  assert (Hv : mkEmitted (u64 (zlen out + zlen l)) (if fp then (if fp then out else []) ++ l else if fp then out else []) = mkEmitted (zlen (out ++ l)) (if fp then out ++ l else [])).
  { rewrite zlen_app, u64_small by lia. by destruct fp. }
  rewrite Hv. wp_step. destruct sb.
  - eapply (wp_appended _ l); [apply appends_add|exact Hr|sizes|]. intros st' Hr'. wp_step. apply HQ. split; [done|]. by rewrite app_assoc.
  - wp_step. wp_step. by apply HQ.
Qed.
Lemma wp_emit sb fp b N out c v st (Q : emitted -> strbuf -> Prop) : written sb fp b out v st -> byte c -> zlen (out ++ [c]) <= size_max -> zlen b + zlen (out ++ [c]) <= N ->
  (forall v' st', written sb fp b (out ++ [c]) v' st' -> Q v' st') -> wpe (too_big N) (EMIT sb fp c v) Q st.
Proof.
  intros [-> Hr] Hc Hs Hn HQ. unfold EMIT. cbn [e_count e_file]. pose proof (zlen_pos out). rewrite zlen_app in *. unfold size_max in Hs. change (zlen [c]) with 1 in *.
  assert (Hv : mkEmitted (u64 (zlen out + 1)) (if fp then (if fp then out else []) ++ [u8 c] else if fp then out else []) = mkEmitted (zlen (out ++ [c])) (if fp then out ++ [c] else [])).
  { rewrite zlen_app, u64_small, u8_small by (done || lia). by destruct fp. }
  rewrite Hv. wp_step. destruct sb.
  - append [c]. wp_step. apply HQ. split; [done|]. by rewrite app_assoc.
  - wp_step. wp_step. by apply HQ.
Qed.
(** the bytes for what is behind a backslash *)
Lemma wp_code sb fp b N out c v st (Q : emitted -> strbuf -> Prop) : written sb fp b out v st -> byte c -> zlen (out ++ cq_code c) <= size_max -> zlen b + zlen (out ++ cq_code c) <= N ->
  (forall v' st', written sb fp b (out ++ cq_code c) v' st' -> Q v' st') ->
  wpe (too_big N) (let q := nth0 (Z.to_nat c) cq_lookup in
    if 32 <=? q then EMIT sb fp q v
    else v <- EMIT sb fp (Z.land (Z.shiftr c 6) 3 + 48) v ;; v <- EMIT sb fp (Z.land (Z.shiftr c 3) 7 + 48) v ;; EMIT sb fp (Z.land (Z.shiftr c 0) 7 + 48) v) Q st.
Proof.
  intros Hw Hc Hs Hn HQ. assert (Hq : nth0 (Z.to_nat c) cq_lookup < 256).
  { assert (Hall : forallb (fun n => nth0 n cq_lookup <? 256) (seq 0 256) = true) by (vm_compute; reflexivity). pose proof (forallb_bytes _ c Hall Hc) as H1. cbv beta in H1. lia. }
  unfold cq_code in *. set (q := nth0 (Z.to_nat c) cq_lookup) in *. cbv zeta in *. destruct (Z.leb_spec 32 q).
  { eapply wp_emit; [exact Hw|unfold byte; lia|done..]. }
  assert (H3 : forall x, byte (Z.land x 3 + 48)) by (intros x; change 3 with (Z.ones 2); rewrite Z.land_ones by lia; unfold byte; change (2 ^ 2) with 4; pose proof (Z.mod_pos_bound x 4 ltac:(lia)); lia).
  assert (H7 : forall x, byte (Z.land x 7 + 48)) by (intros x; change 7 with (Z.ones 3); rewrite Z.land_ones by lia; unfold byte; change (2 ^ 3) with 8; pose proof (Z.mod_pos_bound x 8 ltac:(lia)); lia).
  wp_step. eapply wp_emit; [exact Hw|apply H3|sizes..|]. intros v1 st1 Hw1. wp_step. eapply wp_emit; [exact Hw1|apply H7|sizes..|]. intros v2 st2 Hw2.
  eapply wp_emit; [exact Hw2|apply H7|sizes..|]. intros v3 st3 Hw3. apply HQ. repeat (rewrite <- app_assoc in Hw3; cbn [app] in Hw3). exact Hw3.
Qed.
(** the output when [pre] is done *)
Definition so_far (no_dq : bool) (pre : list Z) : list Z := match pre with [] => [] | _ => dq no_dq ++ cq_body pre end.
Lemma counted_last sb fp no_dq pre v rest e st : forallb free v = true -> zlen v < size_max ->
  counted_body quote_path_fully sb fp (pre ++ v ++ 0 :: rest) no_dq (zlen pre, -1, e) st = Ok (inr (zlen pre, zlen v, e)) st.
Proof.
  intros Hv Hs. unfold counted_body. erewrite bind_ok by apply next_pos. assert (Hf : front v = v) by (clear Hs; induction v as [|c v IH]; [done|]; cbn [forallb] in Hv; apply andb_prop in Hv as [Hc Hv]; unfold front in *; cbn [take_while]; rewrite Hc; f_equal; by apply IH).
  rewrite Hf. change (u64 (-1)) with size_max. replace (zlen v =? size_max) with false by lia. change (-1 <? 0) with true. cbv match.
  assert (Hrd : rd (pre ++ v ++ 0 :: rest) (zlen pre + zlen v) st = Ok 0 st) by (eapply left_rd; exists (pre ++ v); by rewrite <- app_assoc, zlen_app).
  unfold bind, ret. rewrite Hrd. done.
Qed.
Lemma so_far_next no_dq pre v c : forallb free v = true -> must c = true ->
  so_far no_dq (pre ++ v ++ [c]) = (so_far no_dq pre ++ (if negb no_dq && (zlen pre =? 0) then [DQ] else [])) ++ v ++ [BACKSLASH] ++ cq_code c.
Proof.
  intros Hv Hm. unfold so_far at 1. destruct (pre ++ v ++ [c]) as [|x l] eqn:E; [by destruct pre, v|]. rewrite <- E, !cq_body_app, (free_body v) by done.
  assert (Hc : cq_body [c] = [BACKSLASH] ++ cq_code c) by (cbn [cq_body flat_map]; unfold cq_char; rewrite Hm; by rewrite app_nil_r). rewrite Hc. destruct pre as [|y pre].
  - change (@zlen Z [] =? 0) with true. by destruct no_dq.
  - rewrite zlen_cons. pose proof (zlen_pos pre). replace (1 + zlen pre =? 0) with false by lia. rewrite andb_false_r, app_nil_r. cbn [so_far]. by rewrite <- app_assoc.
Qed.
Lemma wp_counted_next sb fp b N no_dq pre v c post e st : forallb free v = true -> must c = true -> cbyte c ->
  let pre' := pre ++ v ++ [c] in
  written sb fp b (so_far no_dq pre) e st -> zlen (so_far no_dq pre') <= size_max -> zlen b + zlen (so_far no_dq pre') <= N ->
  wpe (too_big N) (counted_body quote_path_fully sb fp (pre ++ v ++ c :: post ++ [0]) no_dq (zlen pre, -1, e))
    (fun r st' => exists e', r = inl (zlen pre', -1, e') /\ written sb fp b (so_far no_dq pre') e' st') st.
Proof.
  intros Hv Hm Hc pre' Hw Hs Hn. unfold counted_body. set (s := pre ++ v ++ c :: post ++ [0]). unfold pre' in Hs, Hn. rewrite so_far_next in Hs, Hn by done.
  assert (Hpos : forall st : strbuf, next_quote_pos quote_path_fully s (zlen pre) (-1) st = Ok (zlen v) st).
  { intros st0. unfold s. replace (v ++ c :: post ++ [0]) with ((v ++ c :: post) ++ 0 :: []) by (by rewrite <- app_assoc). rewrite next_pos. by rewrite front_at. }
  assert (Hrd : forall st : strbuf, rd s (zlen pre + zlen v) st = Ok c st) by (intros st0; eapply left_rd; exists (pre ++ v); unfold s; by rewrite <- app_assoc, zlen_app).
  assert (Hrdn : forall st : strbuf, rd_n s (zlen pre) (zlen v) st = Ok v st) by (intros st0; eapply left_rd_n; by exists pre).
  set (dq0 := if negb no_dq && (zlen pre =? 0) then [DQ] else []) in *.
  wp_step. eapply wpe_ok; [apply Hpos|]. change (u64 (-1)) with size_max. replace (zlen v =? size_max) with false by (symmetry; sizes). change (-1 <? 0) with true. cbv match.
  wp_step. wp_step. eapply wpe_ok; [apply Hrd|]. wp_step. unfold cbyte in Hc. replace (c =? 0) with false by lia. wp_step.
  apply (wpe_mono _ _ (fun e' st' => written sb fp b (so_far no_dq pre ++ dq0) e' st')).
  { unfold dq0 in *. destruct (negb no_dq && (zlen pre =? 0)); [eapply wp_emit; [exact Hw|unfold byte, DQ; lia|sizes..|done]|]. wp_step. by rewrite app_nil_r. }
  cbv beta. intros e1 st1 Hw1. wp_step. eapply wpe_ok; [apply Hrdn|]. wp_step. eapply wp_emitbuf; [exact Hw1|sizes..|]. intros e2 st2 Hw2.
  wp_step. eapply wp_emit; [exact Hw2|unfold byte, BACKSLASH; lia|sizes..|]. intros e3 st3 Hw3. wp_step. eapply wpe_ok; [apply Hrd|].
  change (0 <=? -1) with false. cbv match. wp_step. eapply wp_code; [exact Hw3|unfold byte; lia|sizes..|]. intros e4 st4 Hw4. wp_step. exists e4. unfold pre'. split; [do 3 f_equal; sizes|].
  rewrite so_far_next by done. fold dq0. repeat rewrite <- app_assoc in Hw4. repeat rewrite <- app_assoc. exact Hw4.
Qed.
(** a name is free, or begins with free bytes and one that is not *)
Lemma name_split w : forallb free w = true \/ exists v c w', w = v ++ c :: w' /\ forallb free v = true /\ must c = true.
Proof.
  induction w as [|c w IH]; [by left|]. cbn [forallb]. unfold free at 1. destruct (must c) eqn:Hc; [right; by exists [], c, w|]. destruct IH as [->|(v & d & w' & -> & Hv & Hd)]; [by left|].
  right. exists (c :: v), d, w'. split; [done|]. split; [|done]. cbn [forallb]. unfold free at 1. by rewrite Hc.
Qed.
Definition begun (pre : list Z) : Prop := pre = [] \/ existsb must pre = true.
Lemma so_far_size no_dq pre w : zlen (so_far no_dq pre) <= zlen (cq_body (pre ++ w)) + 1.
Proof.
  rewrite cq_body_app, zlen_app. pose proof (cq_body_size w). pose proof (zlen_pos w). pose proof (cq_body_size pre). pose proof (zlen_pos pre). unfold so_far. destruct pre; [change (@zlen Z []) with 0; lia|].
  rewrite zlen_app. destruct no_dq; cbn [dq]; [change (@zlen Z []) with 0|change (zlen [DQ]) with 1]; lia.
Qed.
Lemma wp_counted_loop sb fp b N no_dq : forall n w pre e st, (length w < n)%nat -> Forall cbyte w -> begun pre -> written sb fp b (so_far no_dq pre) e st ->
  zlen (cq_body (pre ++ w)) + 2 <= size_max -> zlen b + zlen (cq_body (pre ++ w)) + 2 <= N ->
  wpe (too_big N) (iter n (counted_body quote_path_fully sb fp (pre ++ w ++ [0]) no_dq) (zlen pre, -1, e))
    (fun r st' => exists pre' v, pre ++ w = pre' ++ v /\ forallb free v = true /\ begun pre' /\ r.1 = (zlen pre', zlen v) /\ written sb fp b (so_far no_dq pre') r.2 st') st.
Proof.
  induction n as [|n IH]; intros w pre e st Hn Hw Hp He Hs HN; [lia|]. destruct (name_split w) as [Hf|(v & c & w' & -> & Hv & Hc)].
  - pose proof (cq_body_size (pre ++ w)) as Hz. rewrite zlen_app in Hz. pose proof (zlen_pos pre). eapply wpe_ok; [apply iter_last, (counted_last sb fp no_dq pre w []); [done|lia]|].
    by exists pre, w.
  - apply Forall_app in Hw as [_ Hw]. inversion_clear Hw as [|? ? Hcb Hw']. cbn [iter]. rewrite <- app_assoc. cbn [app]. wp_step.
    assert (E : pre ++ v ++ c :: w' = (pre ++ v ++ [c]) ++ w') by (by rewrite <- !app_assoc). rewrite E in Hs, HN. pose proof (so_far_size no_dq (pre ++ v ++ [c]) w').
    eapply wpe_mono; [apply (wp_counted_next sb fp b N no_dq); [done|done|done|exact He|lia|lia]|]. cbv beta. intros r st' (e' & -> & He').
    replace (pre ++ v ++ c :: w' ++ [0]) with ((pre ++ v ++ [c]) ++ w' ++ [0]) by (by rewrite <- !app_assoc). rewrite E. apply IH; [rewrite length_app in Hn; cbn [length] in Hn; lia|done| |done|done|done].
    right. rewrite !existsb_app. cbn [existsb]. rewrite Hc. by rewrite !orb_true_r.
Qed.
Lemma free_none v : forallb free v = true -> existsb must v = false.
Proof. rewrite free_must. by destruct (existsb must v). Qed.
Definition flag (flags : Z) : bool := negb (Z.land flags CQUOTE_NODQ =? 0).
(** quote_c_style() *)
Lemma wp_quote_c_style sb fp b N flags w st : Forall cbyte w -> rep st b -> zlen (cq_body w) + 2 <= size_max -> zlen b + zlen (cq_body w) + 2 <= N ->
  let out := cq_name (flag flags) w in
  wpe (too_big N) (quote_c_style quote_path_fully sb fp w flags)
    (fun r st' => r = (if existsb must w then zlen out else 0, if fp then out else []) /\ rep st' (if sb then b ++ out else b)) st.
Proof.
  intros Hw Hr Hs HN out. unfold quote_c_style, quote_c_style_counted. fold (flag flags). set (no_dq := flag flags) in *. wp_step.
  eapply wpe_mono; [apply (wp_counted_loop sb fp b N no_dq _ w []); [rewrite length_app; lia|done|by left| |done|done]|].
  { split; [by destruct fp|]. cbn [so_far]. rewrite app_nil_r. by destruct sb. }
  cbv beta. intros [[p len] e] st1 (pre & v & E & Hv & Hp & Hpl & He). cbn [fst snd app] in *. injection Hpl as -> ->. wp_step.
  assert (Hrd : rd_n (w ++ [0]) (zlen pre) (zlen v) st1 = Ok v st1) by (eapply left_rd_n; exists pre; split; [|done]; rewrite E; by rewrite <- app_assoc).
  pose proof (so_far_size no_dq pre v) as Hz. rewrite <- E in Hz. assert (Hb : cq_body w = cq_body pre ++ v) by (rewrite E, cq_body_app; by rewrite (free_body v)).
  assert (Hz2 : zlen (so_far no_dq pre ++ v) <= zlen (cq_body w) + 1).
  { rewrite Hb, !zlen_app. pose proof (so_far_size no_dq pre []) as H1. rewrite app_nil_r in H1. lia. }
  eapply wpe_ok; [exact Hrd|]. wp_step. eapply wp_emitbuf; [exact He|lia|lia|]. intros e1 st2 He1. assert (Hm : existsb must w = existsb must pre) by (rewrite E, existsb_app, (free_none v) by done; by rewrite orb_false_r).
  destruct Hp as [->|Hp].
  - change (@zlen Z [] =? 0) with true. cbv match. cbn [so_far app] in E, He1. rewrite <- E in He1. assert (Hnone : existsb must w = false) by (by rewrite Hm).
    wp_step. unfold out, cq_name. rewrite Hnone. destruct He1 as [-> He1]. by destruct fp.
  - assert (Hne : pre <> []) by (by intros ->). replace (zlen pre =? 0) with false by (destruct pre; [done|rewrite zlen_cons; pose proof (zlen_pos pre); lia]). rewrite Hm, Hp.
    assert (Hout : (so_far no_dq pre ++ v) ++ dq no_dq = out) by (unfold out, cq_name; rewrite Hm, Hp, Hb; destruct pre; [done|]; cbn [so_far]; by rewrite <- !app_assoc).
    wp_step. apply (wpe_mono _ _ (fun e' st' => written sb fp b out e' st')).
    { rewrite <- Hout. destruct no_dq; cbn [negb dq]; [wp_step; by rewrite app_nil_r|]. eapply wp_emit; [exact He1|unfold byte, DQ; lia|sizes..|done]. }
    cbv beta. intros e2 st3 [-> He2]. wp_step. done.
Qed.
End names.

(** ** Unquoting *)
(** the escapes of C that a quoted name may have, without the backslash: a
    letter, or three octal digits of a byte *)
Definition c_letters : list (Z * Z) :=
  [(ch "a", 7); (ch "b", 8); (ch "t", 9); (ch "n", 10); (ch "v", 11); (ch "f", 12); (ch "r", 13); (ch "\", ch "\"); (DQ, DQ)].
Inductive escape_of : list Z -> Z -> Prop :=
  | escape_letter l c : In (l, c) c_letters -> escape_of [l] c
  | escape_octal x y z : 0 <= x <= 3 -> 0 <= y <= 7 -> 0 <= z <= 7 ->
      escape_of [ch "0" + x; ch "0" + y; ch "0" + z] (x * 64 + y * 8 + z).
(** the grammar of a quoted name behind its first quote: what it stands for and
    what follows the last quote *)
Inductive c_reads : list Z -> list Z -> list Z -> Prop :=
  | c_end rest : c_reads (DQ :: rest) [] rest
  | c_plain c q w rest : c <> DQ -> c <> BACKSLASH -> c_reads q w rest -> c_reads (c :: q) (c :: w) rest
  | c_escape e c q w rest : escape_of e c -> c_reads q w rest -> c_reads (BACKSLASH :: e ++ q) (c :: w) rest.
Lemma octal_code a c d : 0 <= a < 4 -> 0 <= c < 8 -> 0 <= d < 8 -> Z.lor (Z.lor (Z.shiftl a 6) (Z.shiftl c 3)) d = 64 * a + 8 * c + d.
Proof.
  intros Ha Hc Hd. set (p := fun n => let a := Z.of_nat n / 64 in let c := Z.of_nat n / 8 mod 8 in let d := Z.of_nat n mod 8 in Z.lor (Z.lor (Z.shiftl a 6) (Z.shiftl c 3)) d =? 64 * a + 8 * c + d).
  assert (Hall : forallb p (seq 0 256) = true) by (vm_compute; reflexivity). pose proof (forallb_bytes p (64 * a + 8 * c + d) Hall ltac:(unfold byte; lia)) as Hp. unfold p in Hp. rewrite Z2Nat.id in Hp by lia.
  rewrite <- (Z.div_unique (64 * a + 8 * c + d) 64 a (8 * c + d)) in Hp by lia. rewrite <- (Z.div_unique (64 * a + 8 * c + d) 8 (8 * a + c) d) in Hp by lia.
  rewrite <- (Z.mod_unique (8 * a + c) 8 a c), <- (Z.mod_unique (64 * a + 8 * c + d) 8 (8 * a + c) d) in Hp by lia. lia.
Qed.
(** unescape() reads these escapes, and no others *)
Lemma unescape_sound q c q' : unescape q = Some (c, q') -> exists e, q = e ++ q' /\ escape_of e c.
Proof.
  unfold unescape. destruct q as [|x q]; [done|]. cbn [hd0 hd tl]. change (BACKSLASH) with (ch "\").
  repeat match goal with
    | |- (if x =? ?k then Some (?n, _) else _) = _ -> _ =>
        destruct (Z.eqb_spec x k) as [->|]; [intros [= <- <-]; exists [k]; split; [done|apply escape_letter; by vm_compute; tauto]|]
    end.
  destruct ((x =? ch "\") || (x =? DQ)) eqn:Hx.
  { intros [= <- <-]. exists [x]. split; [done|]. apply orb_true_iff in Hx as [->%Z.eqb_eq | ->%Z.eqb_eq]; apply escape_letter; vm_compute; tauto. }
  destruct ((ch "0" <=? x) && (x <=? ch "3")) eqn:H0; [|done]. unfold octal.
  destruct q as [|y q]; [done|]. cbn [hd0 hd tl]. destruct ((ch "0" <=? y) && (y <=? ch "7")) eqn:H1; [|done].
  destruct q as [|z q]; [done|]. cbn [hd0 hd tl negb]. destruct ((ch "0" <=? z) && (z <=? ch "7")) eqn:H2; [|done]. cbn [negb].
  intros [= <- <-]. exists [x; y; z]. split; [done|]. change (ch "0") with 48 in *. change (ch "3") with 51 in *. change (ch "7") with 55 in *.
  rewrite octal_code by lia. pose proof (escape_octal (x - 48) (y - 48) (z - 48) ltac:(lia) ltac:(lia) ltac:(lia)) as He.
  change (ch "0") with 48 in He. replace (48 + (x - 48)) with x in He by lia. replace (48 + (y - 48)) with y in He by lia.
  replace (48 + (z - 48)) with z in He by lia. by replace (64 * (x - 48) + 8 * (y - 48) + (z - 48)) with ((x - 48) * 64 + (y - 48) * 8 + (z - 48)) by lia.
Qed.
Lemma unescape_complete e c q : escape_of e c -> unescape (e ++ q) = Some (c, q).
Proof.
  intros [l x Hl|x y z Hx Hy Hz].
  - unfold c_letters in Hl. cbn [In] in Hl. repeat destruct Hl as [Hl|Hl]; try done; injection Hl as <- <-; reflexivity.
  - assert (E : unescape ([ch "0" + x; ch "0" + y; ch "0" + z] ++ q) =
      Some (Z.lor (Z.lor (Z.shiftl x 6) (Z.shiftl y 3)) z, q)).
    { unfold unescape. cbn [app hd0 hd tl]. change BACKSLASH with 92. change DQ with 34. unfold octal.
      change (ch "a") with 97. change (ch "b") with 98. change (ch "f") with 102. change (ch "n") with 110.
      change (ch "r") with 114. change (ch "t") with 116. change (ch "v") with 118. change (ch "0") with 48.
      change (ch "3") with 51. change (ch "7") with 55.
      repeat match goal with |- context [48 + x =? ?k] => replace (48 + x =? k) with false by lia end. cbn [orb].
      replace ((48 <=? 48 + x) && (48 + x <=? 51)) with true by lia.
      replace ((48 <=? 48 + y) && (48 + y <=? 55)) with true by lia.
      replace ((48 <=? 48 + z) && (48 + z <=? 55)) with true by lia. cbn [negb].
      by replace (48 + x - 48) with x by lia; replace (48 + y - 48) with y by lia; replace (48 + z - 48) with z by lia. }
    rewrite E, octal_code by lia. f_equal. f_equal. lia.
Qed.
Lemma c_reads_escape q c q' w rest : unescape q = Some (c, q') -> c_reads q' w rest -> c_reads (BACKSLASH :: q) (c :: w) rest.
Proof. intros (e & -> & He)%unescape_sound. by apply c_escape. Qed.
Lemma c_reads_backslash q w rest : c_reads (BACKSLASH :: q) w rest ->
  exists c q' w', unescape q = Some (c, q') /\ w = c :: w' /\ c_reads q' w' rest.
Proof.
  intros Hr. inversion Hr as [|? ? ? ? _ Hb|e c q' w' ? He Hq]; subst; [by destruct Hb|].
  exists c, q', w'. split; [by apply unescape_complete|done].
Qed.
Lemma c_reads_unique q w rest : c_reads q w rest -> forall w' rest', c_reads q w' rest' -> w' = w /\ rest' = rest.
Proof.
  induction 1 as [rest|c q w rest H1 H2 _ IH|e c q w rest He _ IH]; intros w2 rest2 Hr.
  - inversion Hr; by subst.
  - inversion Hr; subst; try done. match goal with H : c_reads q _ _ |- _ => by destruct (IH _ _ H) as [-> ->] end.
  - apply c_reads_backslash in Hr as (c' & q' & w' & E & -> & Hr). rewrite (unescape_complete e c q He) in E. injection E as <- <-.
    by destruct (IH _ _ Hr) as [-> ->].
Qed.
Definition c_plain_char (c : Z) : bool := negb (existsb (Z.eqb c) [DQ; BACKSLASH]).
Lemma c_plain_spec c : c_plain_char c = true <-> c <> DQ /\ c <> BACKSLASH.
Proof. unfold c_plain_char. cbn [existsb]. rewrite orb_false_r. destruct (Z.eqb_spec c DQ), (Z.eqb_spec c BACKSLASH); cbn; intuition congruence. Qed.
Lemma c_reads_span q w rest : c_reads q w rest <-> exists w', w = take_while c_plain_char q ++ w' /\ c_reads (skip_while c_plain_char q) w' rest.
Proof.
  revert w. induction q as [|c q IH]; intros w; cbn [take_while skip_while]; [split; [by exists w|by intros (w' & -> & H)]|].
  destruct (c_plain_char c) eqn:Hc; [|split; [by exists w|by intros (w' & -> & H)]]. apply c_plain_spec in Hc as [H1 H2]. split.
  - intros Hr; inversion Hr as [|? ? w0 ? _ _ Hq|]; subst; try done. apply IH in Hq as (w' & -> & Hw). by exists w'.
  - intros (w' & -> & H). cbn [app]. apply c_plain; [done..|]. apply IH. by exists w'.
Qed.
(** an escape is a byte *)
Lemma unescape_spec q c q' : unescape q = Some (c, q') -> byte c /\ (length q' < length q)%nat.
Proof.
  unfold unescape. destruct q as [|x q]; [done|]. cbn [hd0 hd tl length].
  change (ch "a") with 97. change (ch "b") with 98. change (ch "f") with 102. change (ch "n") with 110. change (ch "r") with 114. change (ch "t") with 116. change (ch "v") with 118.
  repeat match goal with |- (if x =? ?k then _ else _) = _ -> _ => destruct (x =? k); [intros [= <- <-]; split; [unfold byte; lia|lia]|] end.
  destruct ((x =? BACKSLASH) || (x =? DQ)) eqn:Hx; [intros [= <- <-]; split; [unfold byte; change BACKSLASH with 92 in Hx; change DQ with 34 in Hx; lia|lia]|].
  change (ch "0") with 48. change (ch "3") with 51. destruct ((48 <=? x) && (x <=? 51)) eqn:H0; [|done]. unfold octal. change (ch "0") with 48. change (ch "7") with 55.
  destruct q as [|y q]; [done|]. cbn [hd0 hd tl length]. destruct ((48 <=? y) && (y <=? 55)) eqn:H1; [|done]. destruct q as [|z q]; [done|]. cbn [hd0 hd tl length negb].
  destruct ((48 <=? z) && (z <=? 55)) eqn:H2; [|done]. cbn [negb]. intros [= <- <-]. rewrite octal_code by lia. unfold byte. lia.
Qed.
Lemma skip_head p (q : list Z) c q' : skip_while p q = c :: q' -> p c <> true.
Proof. induction q as [|d q IH]; [done|]. cbn [skip_while]. destruct (p d) eqn:Hd; [done|]. intros [= -> _]. by rewrite Hd. Qed.
Section unquoting.
Context `{heap}.
Lemma wp_back sb b out : rep sb (b ++ out) -> wp (strbuf_setlen (zlen b)) (fun _ sb' => rep sb' b) sb.
Proof.
  intros Hr. destruct (Z.eq_dec (sb_alloc sb) 0) as [Ha|Ha].
  { destruct (rep_slopbuf sb _ Hr Ha) as [[-> ->]%app_eq_nil ->]. by eapply wp_reset. }
  destruct (rep_block sb _ Hr Ha) as (junk & -> & Hm). pose proof (zlen_pos b). pose proof (zlen_pos out). pose proof (zlen_pos junk).
  eapply wpe_mono; [apply (wp_setlen _ ((b ++ out) ++ 0 :: junk) (zlen (b ++ out)) (zlen b)); rewrite !zlen_app, ?zlen_cons in *; lia|]. cbv beta. intros _ sb' Hr'.
  replace (take (Z.to_nat (zlen b)) ((b ++ out) ++ 0 :: junk)) with b in Hr'; [done|]. unfold zlen. rewrite Nat2Z.id, <- app_assoc. by rewrite take_app_length.
Qed.
(** the two ways unquote_c_style() ends *)
Definition unquoted (b out q : list Z) (r : Z * list Z) (sb : strbuf) : Prop :=
  (exists w, r.1 = 0 /\ c_reads q w r.2 /\ rep sb (b ++ out ++ w)) \/ (r = (-1, []) /\ (~ exists w rest, c_reads q w rest) /\ rep sb b).
Lemma wp_unquote_loop b N : forall n q out sb, (length q < n)%nat -> rep sb (b ++ out) -> zlen b + zlen out + zlen q <= N ->
  wpe (too_big N) (iter n (unquote_body (zlen b)) q) (unquoted b out q) sb.
Proof.
  induction n as [|n IH]; intros q out sb Hn Hr HN; [lia|]. cbn [iter]. unfold unquote_body at 1. unfold strcspn. change (fun c => negb (existsb (Z.eqb c) [DQ; BACKSLASH])) with c_plain_char.
  rewrite take_span, drop_span. set (v := take_while c_plain_char q). set (q1 := skip_while c_plain_char q).
  assert (Hq : q = v ++ q1) by (symmetry; apply take_skip_while). assert (Hz : zlen q = zlen v + zlen q1) by (rewrite Hq at 1; by rewrite zlen_app). pose proof (zlen_pos q1).
  assert (Hl : (length q1 <= length q)%nat) by (unfold zlen in Hz; lia).
  wp_step. wp_step. eapply (wp_appended _ v); [apply appends_add|exact Hr|rewrite zlen_app; lia|]. intros sb1 Hr1. rewrite <- app_assoc in Hr1.
  assert (Herr : (forall w rest, ~ c_reads q1 w rest) -> wpe (too_big N) (strbuf_setlen (zlen b) ;; ret (inr (-1, []))) (fun r sb' => match r with inl q' => wpe (too_big N) (iter n (unquote_body (zlen b)) q') (unquoted b out q) sb' | inr x => unquoted b out q x sb' end) sb1).
  { intros Hno. wp_step. eapply wpe_mono; [eapply wpe_fault; [by eapply wp_back|done]|]. cbv beta. intros _ sb2 Hr2. wp_step. right. split; [done|]. split; [|done]. intros (w & rest & Hc).
    apply c_reads_span in Hc as (w' & _ & Hc). by eapply Hno. }
  destruct q1 as [|c q1'] eqn:Eq1; cbn [hd0 hd tl].

  - change (0 =? DQ) with false. change (0 =? BACKSLASH) with false. cbv match. eapply wpe_mono; [apply Herr; intros w rest Hc; inversion Hc|]. intros [a|a] sb2 H2; [exact H2|by wp_step].
  - assert (Hv : forall w rest, c_reads (c :: q1') w rest -> c_reads q (v ++ w) rest) by (intros w rest Hc; apply c_reads_span; exists w; fold v; by rewrite <- Eq1 in Hc).
    assert (Hfail : (forall w rest, ~ c_reads (c :: q1') w rest) -> wpe (too_big N) (strbuf_setlen (zlen b) ;; ret (inr (-1, []))) (fun r s' => wpe (too_big N) (match r with inl a' => iter n (unquote_body (zlen b)) a' | inr b0 => ret b0 end) (unquoted b out q) s') sb1).
    { intros Hno. eapply wpe_mono; [by apply Herr|]. intros [a|a] sb2 H2; [exact H2|by wp_step]. }
    destruct (Z.eqb_spec c DQ) as [->|Hdq].
    { wp_step. wp_step. left. exists v. split; [done|]. split; [|done]. rewrite <- (app_nil_r v). apply Hv. constructor. }
    destruct (Z.eqb_spec c BACKSLASH) as [->|Hbs]; [|exfalso; apply (skip_head c_plain_char q c q1' Eq1); by apply c_plain_spec].
    destruct (unescape q1') as [[x q']|] eqn:He; [|apply Hfail; intros w rest (? & ? & ? & ? & _)%c_reads_backslash; congruence].
    destruct (unescape_spec _ _ _ He) as [Hx Hlt]. cbn [length] in Hl. rewrite zlen_cons in Hz. unfold zlen in Hz at 3.
    wp_step. eapply (wp_appended _ [x]); [by apply appends_addch|exact Hr1|sizes|]. intros sb2 Hr2. rewrite <- !app_assoc in Hr2. wp_step.
    eapply wpe_mono; [apply (IH q' (out ++ v ++ [x])); [lia|exact Hr2|sizes]|]. intros r sb3 [(w & H1 & H2 & H3)|(H1 & H2 & H3)].
    + left. exists (v ++ x :: w). split; [done|]. split; [apply Hv; by eapply c_reads_escape|]. repeat rewrite <- app_assoc in H3. exact H3.
    + right. split; [done|]. split; [|done]. intros (w & rest & Hc). apply c_reads_span in Hc as (w' & _ & Hc). fold q1 in Hc. rewrite Eq1 in Hc. apply c_reads_backslash in Hc as (c & q2 & w2 & E & -> & Hc). rewrite He in E. injection E as <- <-. apply H2. by do 2 eexists.
Qed.
End unquoting.

(** what is quoted is read *)
Lemma unescape_more q c l : unescape q = Some (c, []) -> unescape (q ++ l) = Some (c, l).
Proof.
  unfold unescape. destruct q as [|x q]; [done|]. cbn [hd0 hd tl app].
  change (ch "a") with 97. change (ch "b") with 98. change (ch "f") with 102. change (ch "n") with 110. change (ch "r") with 114. change (ch "t") with 116. change (ch "v") with 118.
  repeat match goal with |- (if x =? ?k then _ else _) = _ -> _ => destruct (x =? k); [by intros [= <- ->]|] end.
  destruct ((x =? BACKSLASH) || (x =? DQ)); [by intros [= <- ->]|]. destruct ((ch "0" <=? x) && (x <=? ch "3")); [|done].
  destruct q as [|y q]; [done|]. cbn [hd0 hd tl app]. destruct (octal y); [|done]. destruct q as [|z q]; [done|]. cbn [hd0 hd tl app negb].
  destruct (octal z); [|done]. by intros [= <- ->].
Qed.
Lemma cq_code_lookup c : cbyte c -> unescape (cq_code c) = Some (c, []).
Proof.
  intros Hc. set (p := fun n => let c := Z.of_nat n in match unescape (cq_code c) with Some (d, []) => d =? c | _ => false end).
  assert (Hall : forallb p (seq 0 256) = true) by (vm_compute; reflexivity). pose proof (forallb_bytes p c Hall (cbyte_byte c Hc)) as Hp. unfold p in Hp. rewrite Z2Nat.id in Hp by (unfold cbyte in Hc; lia).
  destruct (unescape (cq_code c)) as [[d [|]]|]; [|done..]. f_equal. f_equal. lia.
Qed.
Lemma read_body qpf w rest : 0 <= qpf -> Forall cbyte w -> c_reads (cq_body qpf w ++ DQ :: rest) w rest.
Proof.
  intros Hq. induction 1 as [|c w Hc _ IH]; [apply c_end|]. cbn [cq_body flat_map]. fold (cq_body qpf w). rewrite <- app_assoc. unfold cq_char. destruct (cq_must_quote qpf c) eqn:Hm.
  - cbn [app]. eapply c_reads_escape; [|exact IH]. apply unescape_more, cq_code_lookup, Hc.
  - cbn [app]. apply c_plain; [..|exact IH]; intros ->; unfold cq_must_quote in Hm; vm_compute in Hm; destruct qpf; discriminate || lia.
Qed.
Section names.
Context `{heap}.
Lemma wp_unquote q sb b : rep sb b -> wpe (too_big (zlen b + zlen q)) (unquote_c_style (DQ :: q)) (unquoted b [] q) sb.
Proof.
  intros Hr. unfold unquote_c_style. wp_step. wp_step. change (negb (hd0 (DQ :: q) =? DQ)) with false. cbv match. cbn [tl]. rewrite (rp_len _ _ Hr).
  apply (wp_unquote_loop b _ _ q []); [cbn [length]; lia|by rewrite app_nil_r|change (@zlen Z []) with 0; lia].
Qed.
(** what is read is the only thing that can be read *)
Lemma wp_unquote_reads q w rest sb b : rep sb b -> c_reads q w rest ->
  wpe (too_big (zlen b + zlen q)) (unquote_c_style (DQ :: q)) (fun r sb' => r = (0, rest) /\ rep sb' (b ++ w)) sb.
Proof.
  intros Hr Hc. eapply wpe_mono; [by apply wp_unquote|]. intros [r1 r2] sb1 [(w' & E & Hc' & Hr')|(_ & Hno & _)]; [|by destruct Hno; eexists _, _].
  cbn [fst snd] in *. destruct (c_reads_unique _ _ _ Hc _ _ Hc') as [-> ->]. by rewrite E.
Qed.
(** quote_two_c_style() *)
Lemma wp_count qpf w sb b N : 0 <= qpf -> Forall cbyte w -> rep sb b -> zlen (cq_body qpf w) + 2 <= size_max -> zlen b + zlen (cq_body qpf w) + 2 <= N ->
  wpe (too_big N) (quote_c_style qpf false false w 0) (fun r sb' => negb (r.1 =? 0) = existsb (cq_must_quote qpf) w /\ rep sb' b) sb.
Proof.
  intros Hq Hw Hr Hs HN. eapply wpe_mono; [by apply (wp_quote_c_style qpf Hq false false b N)|]. cbv beta. change (flag 0) with false. intros [n f] sb1 [[= -> _] Hr1]. split; [|done].
  cbn [fst]. unfold cq_name. destruct (existsb _ w); [|done]. cbn [dq]. rewrite !zlen_app. change (zlen [DQ]) with 1. pose proof (zlen_pos (cq_body qpf w)). by replace (1 + (zlen (cq_body qpf w) + 1) =? 0) with false by lia.
Qed.
Lemma wp_quote_two qpf prefix path sb b N : 0 <= qpf -> Forall cbyte prefix -> Forall cbyte path -> rep sb b ->
  zlen (cq_body qpf (prefix ++ path)) + 2 <= size_max -> zlen b + zlen (cq_body qpf (prefix ++ path)) + 4 <= N ->
  wpe (too_big N) (quote_two_c_style qpf prefix path 0) (fun _ sb' => rep sb' (b ++ cq_name qpf false (prefix ++ path))) sb.
Proof.
  intros Hq H1 H2 Hr Hs HN. rewrite cq_body_app, zlen_app in Hs, HN. unfold quote_two_c_style. change (negb (negb (Z.land 0 CQUOTE_NODQ =? 0))) with true. cbv match.
  set (m1 := existsb (cq_must_quote qpf) prefix). set (m2 := existsb (cq_must_quote qpf) path). pose proof (zlen_pos (cq_body qpf prefix)). pose proof (zlen_pos (cq_body qpf path)).
  wp_step. eapply wpe_mono; [apply wp_count; [done|done|exact Hr|lia|lia]|]. cbv beta. intros n1 sb1 [-> Hr1]. fold m1. wp_step.
  apply (wpe_mono _ _ (fun q sb' => q = m1 || m2 /\ rep sb' b)).
  { destruct m1; [by wp_step|]. wp_step. eapply wpe_mono; [apply wp_count; [done|done|exact Hr1|lia|lia]|]. cbv beta. intros n2 sb2 [-> Hr2]. by wp_step. }
  cbv beta. intros q sb2 [-> Hr2]. assert (Hm : existsb (cq_must_quote qpf) (prefix ++ path) = m1 || m2) by apply existsb_app. unfold cq_name. rewrite Hm, cq_body_app.
  pose proof (cq_body_size qpf prefix). pose proof (cq_body_size qpf path). destruct (m1 || m2).
  - assert (Hb : forall w, cq_name qpf true w = cq_body qpf w).
    { intros w. unfold cq_name. destruct (existsb _ w) eqn:E; cbn [dq app]; [apply app_nil_r|]. symmetry. apply free_body. by rewrite free_must, E. }
    wp_step. append [DQ]. wp_step. eapply wpe_mono; [apply (wp_quote_c_style qpf Hq true false (b ++ [DQ]) N); [done|eassumption|lia|sizes]|]. cbv beta. change (flag CQUOTE_NODQ) with true. rewrite Hb. intros _ sb4 [_ Hr4].
    wp_step. eapply wpe_mono; [apply (wp_quote_c_style qpf Hq true false ((b ++ [DQ]) ++ cq_body qpf prefix) N); [done|exact Hr4|lia|sizes]|]. cbv beta. change (flag CQUOTE_NODQ) with true. rewrite Hb. intros _ sb5 [_ Hr5].
    append [DQ]. cbn [dq]. match goal with Hl : rep _ ?l |- rep _ ?l' => replace l' with l by (by rewrite <- !app_assoc); exact Hl end.
  - wp_step. eapply (wp_appended _ prefix); [apply appends_add|exact Hr2|lia|]. intros sb3 Hr3. eapply (wp_appended _ path); [apply appends_add|exact Hr3|sizes|]. intros sb4 Hr4. by rewrite <- app_assoc in Hr4.
Qed.
End names.

(** the bytes that make quotes necessary: control characters, DEL, the quote and
    the backslash, with quote_path_fully the bytes above ASCII, and all bytes if
    it is greater than 1 *)
Definition wants_quotes (quote_path_fully c : Z) : bool :=
  (c <? 32) || (c =? 127) || (c =? 34) || (c =? 92) || ((128 <=? c) && (1 <=? quote_path_fully)) || (2 <=? quote_path_fully).
Lemma must_wants qpf c : 0 <= qpf -> cbyte c -> cq_must_quote qpf c = wants_quotes qpf c.
Proof.
  intros Hq Hc. assert (H : forallb (fun i => let c := Z.of_nat i in let q := nth0 i cq_lookup in
    if (c <? 32) || (c =? 127) || (c =? 34) || (c =? 92) then 0 <? q else if 128 <=? c then q =? 0 else q =? -1) (seq 0 256) = true) by (vm_compute; reflexivity).
  unfold cbyte in Hc. apply (forallb_bytes _ c) in H; [|unfold byte; lia]. cbv beta zeta in H. rewrite Z2Nat.id in H by lia.
  unfold cq_must_quote, wants_quotes. rewrite u8_small by lia. destruct ((c <? 32) || (c =? 127) || (c =? 34) || (c =? 92)); [lia|]. destruct (128 <=? c); lia.
Qed.
Lemma existsb_wants qpf w : 0 <= qpf -> Forall cbyte w -> existsb (cq_must_quote qpf) w = existsb (wants_quotes qpf) w.
Proof. intros Hq. induction 1 as [|c w Hc _ IH]; [done|]. cbn [existsb]. by rewrite must_wants, IH. Qed.

(** C21: Names in C style: for a name of bytes other than NUL, quote_c_style()
    appends either the name itself and answers 0, when no byte needs quoting, or a
    quoted name and answers its length, whether it counts, fills a buffer, writes
    a file or does both; what it quotes, unquote_c_style() reads back as the name
    and stops behind the last quote; and quote_two_c_style() on a prefix and a
    path writes what quote_c_style() writes for the two together. *)
Theorem c_style_comes_back `{heap} qpf prefix path sb b : 0 <= qpf -> Forall cbyte prefix -> Forall cbyte path -> rep sb b ->
  let w := prefix ++ path in
  let N := zlen b + 4 * zlen w + 4 in
  4 * zlen w + 2 <= size_max ->
  exists q n,
    (forall to_sb to_fp, wpe (too_big N) (quote_c_style qpf to_sb to_fp w 0) (fun r sb' => r = (n, if to_fp then q else []) /\ rep sb' (if to_sb then b ++ q else b)) sb) /\
    wpe (too_big N) (quote_two_c_style qpf prefix path 0) (fun _ sb' => rep sb' (b ++ q)) sb /\
    (n = 0 /\ q = w /\ existsb (wants_quotes qpf) w = false \/
     n = zlen q /\ existsb (wants_quotes qpf) w = true /\
     forall rest, wpe (too_big (zlen b + zlen q + zlen rest)) (unquote_c_style (q ++ rest)) (fun r sb' => r = (0, rest) /\ rep sb' (b ++ w)) sb).
Proof.
  intros Hq H1 H2 Hr w N Hs. assert (Hw : Forall cbyte w) by (by apply Forall_app). pose proof (cq_body_size qpf w) as Hz.
  rewrite <- (existsb_wants qpf w Hq Hw). exists (cq_name qpf false w), (if existsb (cq_must_quote qpf) w then zlen (cq_name qpf false w) else 0). split; [|split].
  - intros to_sb to_fp. by apply (wp_quote_c_style qpf Hq to_sb to_fp b N 0 w); [..|lia|unfold N; lia].
  - apply wp_quote_two; [done..|fold w; lia|fold w; unfold N; lia].
  - unfold cq_name. destruct (existsb _ w) eqn:E; [right|by left]. split; [done|]. split; [done|]. intros rest. cbn [dq]. rewrite <- !app_assoc. cbn [app].
    eapply wpe_mono; [eapply wpe_fault; [apply (wp_unquote_reads _ w rest); [exact Hr|by apply read_body]|]|done]. intros f [-> [Hf|Hf]]; (split; [done|]); [left|by right]. sizes.
Qed.

(** C22: Unquoting any string: unquote_c_style() answers 0, with what the string
    stands for behind what was in the buffer and the place behind the last quote,
    exactly when the string is a quoted name of the grammar [c_reads], whose
    escapes are the letters of [c_letters] and three octal digits up to 377; it
    answers -1 otherwise, as for any other escape, with the buffer holding the
    string it held. There is no fault but the end of memory. *)
Theorem unquote_c_style_exact `{heap} quoted sb b : rep sb b ->
  wpe (too_big (zlen b + zlen quoted)) (unquote_c_style quoted) (fun r sb' =>
    (exists q w, quoted = DQ :: q /\ c_reads q w r.2 /\ r.1 = 0 /\ rep sb' (b ++ w)) \/
    (r.1 = -1 /\ rep sb' b /\ forall q w rest, quoted = DQ :: q -> ~ c_reads q w rest)) sb.
Proof.
  intros Hr. destruct (Z.eq_dec (hd0 quoted) DQ) as [Hd|Hd].
  - destruct quoted as [|c q]; [done|]. cbn in Hd. subst c. eapply wpe_mono; [eapply wpe_fault; [by apply wp_unquote|]|].
    + intros f [-> [Hf|Hf]]; (split; [done|]); [left|by right]. sizes.
    + intros r sb1 [(w & E & Hc & Hr1)|(-> & Hno & Hr1)]; [left; by exists q, w|right]. split; [done|]. split; [done|]. intros q' w rest [= <-] Hc. apply Hno. by exists w, rest.
  - unfold unquote_c_style. wp_step. wp_step. replace (hd0 quoted =? DQ) with false by lia. cbn [negb]. wp_step. right. split; [done|]. split; [done|]. by intros q w rest ->.
Qed.

(** ** Literals of other languages *)
(** what stands for a byte *)
Definition perl_char (c : Z) : list Z := if (c =? SQ) || (c =? BACKSLASH) then [BACKSLASH; c] else [c].
Definition python_char (c : Z) : list Z := if c =? 10 then [BACKSLASH; ch "n"] else perl_char c.
Definition tcl_bytes (c : Z) : list Z :=
  if existsb (Z.eqb c) (str "[]{}$\" ++ [DQ]) then [BACKSLASH; c]
  else match list_find (fun p => c = p.1) [(12, ch "f"); (13, ch "r"); (10, ch "n"); (9, ch "t"); (11, ch "v")] with
       | Some (_, (_, l)) => [BACKSLASH; l]
       | None => [c]
       end.
(** a reader: [close] ends the literal, [esc] is the meaning of a letter behind a
    backslash, [raw] says which bytes stand for themselves; the bytes, and what
    follows *)
Fixpoint lit_read (raw : Z -> bool) (close : Z) (esc : Z -> option Z) (l : list Z) : option (list Z * list Z) :=
  match l with
  | [] => None
  | c :: l =>
      if c =? close then Some ([], l)
      else if c =? BACKSLASH then
        match l with
        | d :: l => x ← esc d; '(w, r) ← lit_read raw close esc l; Some (x :: w, r)
        | [] => None
        end
      else if raw c then '(w, r) ← lit_read raw close esc l; Some (c :: w, r)
      else None
  end.
Definition none_of (chars : list Z) (c : Z) : bool := negb (existsb (Z.eqb c) chars).
Definition self (chars : list Z) (c : Z) : option Z := if existsb (Z.eqb c) chars then Some c else None.
(** Perl, between single quotes: only the quote and the backslash are escaped *)
Definition perl_esc : Z -> option Z := self [SQ; BACKSLASH].
Definition perl_read : list Z -> option (list Z * list Z) := lit_read (fun _ => true) SQ perl_esc.
(** Python, between single quotes: a line must not end inside, whether at a line
    feed or at a carriage return *)
Definition python_esc (c : Z) : option Z := if c =? ch "n" then Some 10 else perl_esc c.
Definition python_read : list Z -> option (list Z * list Z) := lit_read (none_of [10; 13]) SQ python_esc.
(** Tcl, between double quotes: brackets and the dollar begin a substitution, the
    braces of a script around the word are counted, and white space other than
    a blank is written as an escape *)
Definition tcl_esc (c : Z) : option Z :=
  match list_find (fun p => c = p.1) [(ch "f", 12); (ch "r", 13); (ch "n", 10); (ch "t", 9); (ch "v", 11)] with
  | Some (_, (_, x)) => Some x
  | None => self (str "[]{}$\" ++ [DQ]) c
  end.
Definition tcl_read : list Z -> option (list Z * list Z) := lit_read (none_of (str "[]{}$" ++ [9; 10; 11; 12; 13])) DQ tcl_esc.
(** [f c] is read as [c]; the bytes [bad] are not read *)
Definition readable (raw bad : Z -> bool) (close : Z) (esc : Z -> option Z) (f : Z -> list Z) (c : Z) : bool :=
  match f c with
  | [x] => (x =? c) && negb (x =? close) && negb (x =? BACKSLASH) && Bool.eqb (bad c) (negb (raw x))
  | [x; y] => (x =? BACKSLASH) && negb (x =? close) && bool_decide (esc y = Some c) && negb (bad c)
  | _ => false
  end.
Lemma lit_body raw bad close esc f s rest : Forall (fun c => readable raw bad close esc f c = true) s ->
  lit_read raw close esc (flat_map f s ++ close :: rest) = if existsb bad s then None else Some (s, rest).
Proof.
  induction 1 as [|c s Hc _ IH]; cbn [flat_map app lit_read existsb]; [by rewrite Z.eqb_refl|]. rewrite <- app_assoc.
  unfold readable in Hc. destruct (f c) as [|x [|y [|]]]; try done; cbn [app lit_read].
  - rewrite !andb_true_iff, !negb_true_iff, Bool.eqb_true_iff in Hc. destruct Hc as [[[Hx ->] ->] ->]. apply Z.eqb_eq in Hx as ->.
    destruct (raw c); [|done]. cbn [negb orb]. rewrite IH. by destruct (existsb bad s).
  - rewrite !andb_true_iff, !negb_true_iff in Hc. destruct Hc as [[[-> ->] He%bool_decide_eq_true] ->]. rewrite He. cbn. rewrite IH.
    by destruct (existsb bad s).
Qed.
Lemma all_readable raw bad close esc f s : forallb (fun n => readable raw bad close esc f (Z.of_nat n)) (seq 0 256) = true ->
  Forall cbyte s -> Forall (fun c => readable raw bad close esc f c = true) s.
Proof.
  intros Hall Hs. revert Hs. apply List.Forall_impl. intros c Hc%cbyte_byte. pose proof (forallb_bytes _ c Hall Hc) as Hp. cbv beta in Hp. by rewrite Z2Nat.id in Hp by (unfold byte in Hc; lia).
Qed.
Lemma existsb_never (s : list Z) : existsb (fun _ => false) s = false.
Proof. by induction s. Qed.
Section lits.
Context `{heap}.
Lemma appends_each k f s : Forall cbyte s -> (forall c rest, cbyte c -> appends (k c rest) (f c)) -> appends (each k s) (flat_map f s).
Proof.
  intros Hs Hk. induction Hs as [|c s Hc _ IH]; [apply appends_nil|]. cbn [each flat_map]. unfold cbyte in Hc. replace (c =? 0) with false by lia. specialize (Hk c s Hc). apply appends_intro. intros sb b Hr.
  wp_step. append (f c). append (flat_map f s). by rewrite app_assoc.
Qed.
Lemma appends_literal k f close s : byte close -> Forall cbyte s -> (forall c rest, cbyte c -> appends (k c rest) (f c)) ->
  appends (strbuf_addch close ;; each k s ;; strbuf_addch close) (close :: flat_map f s ++ [close]).
Proof.
  intros Hb Hs Hk. pose proof (appends_each k f s Hs Hk) as Hbody. apply appends_intro. intros sb b Hr. wp_step. append [close]. wp_step. append (flat_map f s). append [close].
  match goal with Hl : rep _ ?l |- rep _ ?l' => replace l' with l by (by rewrite <- !app_assoc); exact Hl end.
Qed.
Lemma appends_escaped c : cbyte c -> appends (strbuf_addch BACKSLASH ;; strbuf_addch c) [BACKSLASH; c].
Proof. intros Hc. apply appends_intro. intros sb b Hr. wp_step. append [BACKSLASH]. append [c]. by rewrite <- app_assoc in *. Qed.
Lemma appends_perl_char c : cbyte c -> appends ((if (c =? SQ) || (c =? BACKSLASH) then strbuf_addch BACKSLASH else ret tt) ;; strbuf_addch c) (perl_char c).
Proof.
  intros Hc. unfold perl_char. destruct (_ || _); [by apply appends_escaped|]. apply appends_intro. intros sb b Hr. wp_step. wp_step. by append [c].
Qed.
Lemma appends_tcl_char c rest : cbyte c -> appends (tcl_char c rest) (tcl_bytes c).
Proof.
  intros Hc. unfold tcl_char, tcl_bytes. destruct (existsb _ _); [by apply appends_escaped|]. cbn [list_find fst].
  destruct (Z.eqb_spec c 12) as [->|]; [apply appends_add|]. destruct (Z.eqb_spec c 13) as [->|]; [apply appends_add|]. destruct (Z.eqb_spec c 10) as [->|]; [apply appends_add|].
  destruct (Z.eqb_spec c 9) as [->|]; [apply appends_add|]. destruct (Z.eqb_spec c 11) as [->|]; [apply appends_add|].
  repeat (rewrite decide_False by done; cbn [prod_map fmap option_fmap option_map]). apply appends_addch. by apply cbyte_byte.
Qed.
End lits.

(** C23: String literals: a reader of Perl, Python or Tcl literals, which takes
    only those bytes as they are that the language does not treat in any other
    way, turns what perl_quote_buf(), python_quote_buf() and tcl_quote_buf()
    append for a string of bytes other than NUL back into the string, and stops
    behind it; but Python rejects the literal of a string that has a carriage
    return, which python_quote_buf() leaves as it is. *)
Theorem literals_come_back `{heap} s : Forall cbyte s ->
  exists perl python tcl,
    (appends (perl_quote_buf s) (SQ :: perl) /\ forall rest, perl_read (perl ++ rest) = Some (s, rest)) /\
    (appends (python_quote_buf s) (SQ :: python) /\
     forall rest, python_read (python ++ rest) = if existsb (Z.eqb 13) s then None else Some (s, rest)) /\
    (appends (tcl_quote_buf s) (DQ :: tcl) /\ forall rest, tcl_read (tcl ++ rest) = Some (s, rest)).
Proof.
  intros Hs. exists (flat_map perl_char s ++ [SQ]), (flat_map python_char s ++ [SQ]), (flat_map tcl_bytes s ++ [DQ]).
  split; [|split]; (split; [apply appends_literal; [by unfold byte, SQ, DQ|done|]|intros rest; rewrite <- app_assoc]).
  - intros c _. apply appends_perl_char.
  - unfold perl_read. cbn [app]. rewrite (lit_body _ (fun _ => false)), existsb_never; [done|]. apply all_readable; [vm_compute; reflexivity|done].
  - intros c _ Hc. unfold python_char. destruct (Z.eqb_spec c 10); [by apply (appends_escaped (ch "n"))|by apply appends_perl_char].
  - apply lit_body, all_readable; [vm_compute; reflexivity|done].
  - intros c rest. apply appends_tcl_char.
  - unfold tcl_read. cbn [app]. rewrite (lit_body _ (fun _ => false)), existsb_never; [done|]. apply all_readable; [vm_compute; reflexivity|done].
Qed.

(** ** Some words *)
Lemma wpe_returns {St A} E (m : prog St A) Q s a s' : wpe E m Q s -> m s = Ok a s' -> Q a s'.
Proof. unfold wpe. intros Hw E1. by rewrite E1 in Hw. Qed.
Definition some_words : list (list Z) := [str "it's"; []; str "a b!"; str "x=1/2"].
Lemma some_words_bytes : Forall (Forall cbyte) some_words.
Proof. by repeat (apply List.Forall_cons || apply List.Forall_nil). Qed.
Lemma shell_reads_words_witness : exists words, sh_words words = Some some_words /\
  wpe (too_big (zlen words)) (sq_quote_argv_pretty some_words) (fun _ sb' => rep sb' words) (STRBUF_INIT [0]).
Proof. exact (proj2 (shell_reads_words some_words (STRBUF_INIT [0]) [] rep_init some_words_bytes)). Defined.
Lemma sq_dequote_restores_witness : exists sb ps M, sq_quote_argv some_words (STRBUF_INIT [0]) = Ok tt sb /\ sq_dequote_to_argv_internal 1 (buf_bytes sb) = Ok (0, (ps, some_words)) M.
Proof.
  pose proof (sq_dequote_restores some_words ltac:(discriminate) some_words_bytes) as Hw.
  assert (E : exists sb, sq_quote_argv some_words (STRBUF_INIT [0]) = Ok tt sb) by (eexists; vm_compute; reflexivity).
  destruct E as [sb E]. destruct (wpe_returns _ _ _ _ _ _ Hw E) as (ps & M & E2 & _). exists sb, ps, M. split; [exact E|exact E2].
Defined.
Definition some_name : list Z := str "caf" ++ [0xc3; 0xa9] ++ str " \".
Lemma some_name_bytes : Forall cbyte some_name.
Proof. by repeat (apply List.Forall_cons || apply List.Forall_nil). Qed.
Lemma c_style_comes_back_witness : exists q n, n = zlen q /\
  wpe (too_big 44) (quote_two_c_style 1 (str "/") some_name 0) (fun _ sb' => rep sb' q) (STRBUF_INIT [0]) /\
  forall rest, wpe (too_big (zlen q + zlen rest)) (unquote_c_style (q ++ rest)) (fun r sb' => r = (0, rest) /\ rep sb' (str "/" ++ some_name)) (STRBUF_INIT [0]).
Proof.
  assert (Hslash : Forall cbyte (str "/")) by (by repeat (apply List.Forall_cons || apply List.Forall_nil)).
  assert (Hs : 4 * zlen (str "/" ++ some_name) + 2 <= size_max) by (vm_compute; discriminate).
  assert (H01 : 0 <= 1) by done.
  destruct (c_style_comes_back 1 (str "/") some_name (STRBUF_INIT [0]) [] H01 Hslash some_name_bytes rep_init Hs) as (q & n & _ & H2 & [(_ & _ & E)|(-> & _ & H3)]);
    [vm_compute in E; discriminate|]. exists q, (zlen q). split; [done|]. split; [exact H2|exact H3].
Defined.
(** octal digits and a letter, and two escapes that are none *)
Lemma unquote_c_style_exact_witness :
  (exists r sb w, unquote_c_style (DQ :: str "\303\251\tx" ++ [DQ] ++ str "y") (STRBUF_INIT [0]) = Ok r sb /\ r.1 = 0 /\
     rep sb w /\ w = [0xc3; 0xa9; 9; ch "x"]) /\
  forall bad, In bad [str "\q"; str "\400"] ->
    exists r sb, unquote_c_style (DQ :: bad ++ [DQ]) (STRBUF_INIT [0]) = Ok r sb /\ r.1 = -1 /\ rep sb [].
Proof.
  split.
  - pose proof (unquote_c_style_exact (DQ :: str "\303\251\tx" ++ [DQ] ++ str "y") (STRBUF_INIT [0]) [] rep_init) as Hw.
    assert (E : exists r sb, unquote_c_style (DQ :: str "\303\251\tx" ++ [DQ] ++ str "y") (STRBUF_INIT [0]) = Ok r sb /\ r.1 = 0)
      by (do 2 eexists; split; vm_compute; reflexivity).
    destruct E as (r & sb & E & E0). destruct (wpe_returns _ _ _ _ _ _ Hw E) as [(q & w & Hq & Hr & _ & Hrep)|(H1 & _)]; [|exfalso; rewrite E0 in H1; discriminate H1].
    exists r, sb, w. injection Hq as <-. split; [exact E|]. split; [exact E0|]. split; [exact Hrep|].
    assert (Hc : c_reads (str "\303\251\tx" ++ [DQ] ++ str "y") [0xc3; 0xa9; 9; ch "x"] (str "y")).
    { eapply c_reads_escape; [reflexivity|]. eapply c_reads_escape; [reflexivity|]. eapply c_reads_escape; [reflexivity|].
      change (c_reads (ch "x" :: DQ :: str "y") [ch "x"] (str "y")). apply c_plain; [discriminate|discriminate|]. apply c_end. }
    exact (proj1 (c_reads_unique _ _ _ Hc _ _ Hr)).
  - intros bad Hbad. pose proof (unquote_c_style_exact (DQ :: bad ++ [DQ]) (STRBUF_INIT [0]) [] rep_init) as Hw.
    assert (E : exists r sb, unquote_c_style (DQ :: bad ++ [DQ]) (STRBUF_INIT [0]) = Ok r sb /\ r.1 = -1)
      by (destruct Hbad as [<-|[<-|[]]]; do 2 eexists; split; vm_compute; reflexivity).
    destruct E as (r & sb & E & E0). destruct (wpe_returns _ _ _ _ _ _ Hw E) as [(_ & _ & _ & _ & H1 & _)|(_ & H2 & _)]; [exfalso; rewrite E0 in H1; discriminate H1|].
    exists r, sb. split; [exact E|]. split; [exact E0|exact H2].
Defined.
Lemma literals_come_back_witness : exists tcl, appends (tcl_quote_buf (str "a[b]$" ++ some_name)) (DQ :: tcl) /\
  tcl_read tcl = Some (str "a[b]$" ++ some_name, []).
Proof.
  assert (Hs : Forall cbyte (str "a[b]$" ++ some_name)) by (by repeat (apply List.Forall_cons || apply List.Forall_nil)).
  destruct (literals_come_back _ Hs) as (_ & _ & tcl & _ & _ & H1 & H2). exists tcl. split; [exact H1|].
  specialize (H2 []). by rewrite app_nil_r in H2.
Defined.
(** a carriage return ends the line inside the literal *)
Example python_return : exists sb, python_quote_buf (str "a" ++ [13]) (STRBUF_INIT [0]) = Ok tt sb /\
  cstr (buf_bytes sb) = [SQ; ch "a"; 13; SQ] /\ python_read [ch "a"; 13; SQ] = None.
Proof. eexists. split; [vm_compute; reflexivity|split; vm_compute; reflexivity]. Qed.

(** basic_regex_quote_buf() leaves a star behind a caret at the beginning as it
    is, but behind the quoted caret it repeats: "^*a" becomes \^*a, which matches
    "a" *)
Example regex_star : exists sb, basic_regex_quote_buf (str "^*a") (STRBUF_INIT [0]) = Ok tt sb /\ cstr (buf_bytes sb) = str "\^*a".
Proof. eexists. split; vm_compute; reflexivity. Qed.
